(* ===== verification/_CoqProject ===== *)
-Q . S2P
Prelude.v
GoLib.v
GoText.v
GoOS.v
Env.v
Swap.v
Tracker.v
Rollback.v
Guard.v
Verify.v
Download.v
Apply.v
Wire.v
Scripts.v
Jobs.v
Handlers.v
Heap.v
Sched.v
Shell.v
Sessions.v
Patch.v
PatchParse.v
PatchPlan.v
PatchRun.v
PatchInstall.v
SoftwareUpdate.v
Com.v
Wua.v
PatchJobs.v
Netcert.v
Identity.v
Credentials.v
Supervise.v
Render.v
Systemd.v
Install.v
Runner.v
Commands.v
Posture.v
Cng.v
CertStore.v
Inventory.v
Beacon.v
SchedRun.v
Consumer.v
Hosted.v
Warn.v
Services.v
Ole.v
Process.v
Agent.v
Publish.v
Sysinfo.v
JobRun.v
Running.v
Terminal.v
Periodic.v
Csr.v
Fired.v
Tools.v
Durable.v
Wiring.v
