(* ===== verification/Prelude.v ===== *)
(** * The Everwas agent: a verification library

    The Everwas agent (agent/internal/ in the repository, written in Go) runs
    on every managed host with the highest privilege.  It takes jobs and
    commands from a NATS connection, runs scripts, keeps a schedule, opens
    interactive shells, installs the operating system's updates, renews its
    secret and its network certificate, installs itself as a service and
    replaces its own binary.  This library models the parts whose failure
    would hurt most and proves what they promise.

    ** The parts and the files

    The files are listed in dependency order; each Go name keeps its name.

    - [Prelude], [GoLib], [GoText], [GoOS]: what the source uses of Go.  Bytes and
      strings are lists of [ascii]; an [int64] is a [Z] whose wrap-around
      ([wrap64]) or saturation ([sat64], [Sub]) is written out where the code
      computes; a time is nanoseconds since the epoch.  [GoOS] is the
      operating system: a [world] holds a disk ([gmap] from paths to files), a
      clock and a list of faults; [io A] is a state monad in which any system
      call can fail, complete partly, or be the one during which the process
      is killed.  [wp m Q C w] says that [m] started in [w] returns only with
      [Q] and that [C] holds of the disk it leaves when it is killed before it
      returns.  A completed call stays completed: a death is that of the
      process, not of the machine, so nothing here is a claim about power
      loss (fsync has no effect in the model).  [GoText] is what the parsers
      use of package strings.
    - [Env] (scripts/env.go, patch/env.go): the environment of a child.
    - [Swap] (update/swap.go, swap_unix.go, swap_windows.go): replacing and
      restoring the running binary.  The class [Platform] is what the two
      operating systems promise; [unix_platform] and [windows_platform]
      discharge it, the theorems are about any instance.
    - [Tracker] and [Rollback] (update/rollback.go): the update state file,
      probation, crash counting, denylist, the report and the health watch;
      [Tracker] holds the definitions, [Rollback] the theorems that need the
      whole file.  The class [JSON] of [GoLib] is what encoding/json promises:
      which values it can write, and that reading back gives the value as JSON
      keeps it ([stored]: text as valid UTF-8, payloads reformatted); it has
      concrete instances.
    - [Guard] (the shell script of svc/guard.go): the rollback guard that runs
      before the agent, with the sed, awk and tail it uses, against the files
      the tracker writes.
    - [Verify] (update/verify.go), [Download] (update/download.go), [Apply]
      (update/update.go): signature and checksum verification, the resumable
      download, and the pipeline that composes them with the swap and the
      tracker.  Ed25519 and SHA-256 are parameters; the HTTP client is the
      class [Client], which says only that a transfer leaves the disk alone.
    - [Wire] (package wire): identifiers, subjects, envelopes, message ids.
    - [Scripts] (package scripts: chunk.go, publish.go, env.go and the pure
      parts of runner.go): job output, results, environment.
    - [Jobs] (jobs/inflight.go): the registry of running jobs as a step system
      ([sysStep], [reachable]) in which any number of deliveries, scheduled
      fires, cancellations and the shutdown interleave at the granularity of
      the code's critical sections and channel operations.
    - [Handlers] (jobs/consumer.go, jobs.go, update_wire.go, commands.go):
      what each message or fire leads to, as the list of things published.
      [JobRun] puts the handlers of all kinds behind one interface, the promise
      of one terminal result, and proves of [runJob] that every job keeps it.
    - [Heap] and [Sched] (package sched): the fire heap with the algorithms of
      container/heap, jitter, misfire policy, and the scheduler's operations.
      The cron parser and SHA-1 are parameters.
    - [Shell] and [Sessions] (package shell): flow control, the outage buffer,
      one session as a [machine] of its goroutines' steps, and the module that
      owns all of them.

    - [Patch], [PatchParse], [PatchPlan], [PatchRun] (package patch): the data
      and the refusals every update backend shares, the texts the package
      managers print, the arguments they are given, and the three Linux
      backends driven against a host that is a parameter; [PatchInstall] holds
      the theorems about them.  [SoftwareUpdate] is the macOS backend, [Com]
      and [Wua] the Windows one: its COM thread as a step system, and the
      mapping of what Windows Update answers.
    - [PatchJobs] (jobs/patch_wire.go, inventory/patchstate.go): patch jobs
      over any backend that keeps the promise of the class [Accounting].
    - [Netcert] (package netcert): the 802.1X certificate and its key on disk,
      their renewal, and its times in IEEE arithmetic.  X.509 is a parameter.
    - [Identity] (packages config, secure, winident): the state file, its
      migration and the first steps of a start, and which machines get an
      identity from the agent.
    - [Credentials] (package enroll, the start of cli's runAgent, and the
      server's enrollment.py): the agent's secret on both ends of the exchange.
    - [Supervise] (package agentcore, parts of cli): the supervisor of the
      agent's tasks as a step system, the two renewal loops, the link health
      that gates an update's confirmation, warnings and exit codes.
    - [Render] (svc/render.go, package supplicant): the text of the unit, the
      property list and the network profiles, with the readers of the last two.
    - [Systemd]: systemd's reading of a unit (its sections, continuations,
      repeated settings, words, quotes, specifiers and prefixes), against
      [Render].
    - [Install] (cli/install.go, svc/service_linux.go, supplicant/write.go):
      the installer and the finalizer of an update.
    - [Runner] (scripts/runner.go, interp*.go, stage.go): one job from staging to
      its terminal result, as a step system of the process, the pumps, the
      watcher, the drain window and cancellation.
    - [Commands] (jobs/commands.go): every command the server can send, its
      dispatch and its reply, over the components that carry it out.
    - [Posture] (package posture): the checks, their runner and the snapshot.
    - [Cng] and [CertStore] (netcert/cng_windows.go, certstore_windows.go,
      key_windows.go, presence_windows.go): the network key in a Windows key
      container and its certificate in the machine store.  [win] is the monad
      of [GoOS] over a machine that also holds containers, stores and handles.
      [CertStore] states the renewal over any key maker and shows that with the
      Unix one it is [Netcert]'s.
    - [Inventory] and [Sysinfo] (packages inventory and sysinfo): a round of
      collection and each collector over what the system answers.
    - [Beacon] (packages heartbeat and telemetry): beats, their pacing and loss,
      and the samples.
    - [SchedRun] (the loop of sched/sched.go) and [Consumer] (the loops of
      jobs/jobs.go and consumer.go): what keeps the schedule and the queue
      attached.
    - [Hosted] (svc/hosted_windows.go, service_windows.go, update/procwait*.go)
      and [Services] (cli/install.go's removal, svc/service_darwin.go, the
      service's status): service managers.
    - [Warn] (cli/warnuser.go, package notify, cli/supplicant.go, package audit):
      what the machine's user is told.
    - [Ole] (patch/com_windows.go, wua_windows.go): the COM calls under [Wua],
      with the references they hand out.
    - [Process] (scripts/proc_*.go, pipes.go, patch/proc_unix.go, patch/exec.go,
      shell/pty*.go): process groups, job objects, pipes and shells over an
      explicit process table.
    - [Agent] (cli/cli.go, conn/conn.go): the life of the process from the
      connection to the exit code, with [Supervise] inside.
    - [Publish] (scripts/publish.go): output, progress and results against a
      stream that drops repeated message ids.
    - [JobRun] (jobs/jobs.go): the dispatch of an admitted job to its handler,
      with the runner and the audit sink the module lends the handlers, and the
      panic that is caught around them.
    - [Running] (the table of scripts/runner.go under jobs/inflight.go) and
      [Fired] (RunScheduled of jobs/jobs.go under sched/sched.go): two
      components and their client as one system.
    - [Terminal] (shell/pty*.go, the set-up in shell/session.go): starting a
      shell, what the set-up holds and gives back, sizes.
    - [Periodic] (the Run loops of packages inventory and telemetry): timed work.
    - [Csr] (netcert/netcert.go): a fresh key on disk and the request for it.
    - [Tools] (package notify, the control of the service, winident): the
      command lines the agent runs, as whom and in which environment.
    - [Wiring] (agentcore/agentcore.go's Start, cli/cli.go): what the modules are
      built with and what depends on it.
    - [Durable] (sched/sched.go, store.go): a sync, a kill and the next start
      over the modelled disk.

    ** What the theorems show

    Updates.  Only bytes with the announced checksum and a trusted signature
    are ever installed, whatever fails and whenever the process is killed
    ([Apply_installs_only_authentic_bytes]); the target path always holds the
    old or the new binary or the backup does ([Swap_never_loses_the_binary],
    [RestoreBackup_all_or_nothing], [CheckAndRollback_never_loses_the_backup]);
    success arms the rollback ([Apply_success_arms_the_rollback]) and rejected
    artifacts are discarded; an interrupted download resumes to the same bytes
    and nothing partial is staged; the third start on probation restores the
    previous binary, in the agent
    ([third_start_restores_the_previous_binary]) and, for a build that never
    reaches its own code, in the guard; guard and agent read each other's files
    ([probation_roundtrip]) and count alike; a build is confirmed only on
    evidence; the state file is replaced atomically.

    Jobs.  In every interleaving a queued job begins at most once, the number
    of running jobs is bounded, nothing begins after the shutdown started and
    what it interrupts is reported; every admitted job ends with one result
    ([every_job_is_reported]) and can be cancelled while its script runs
    ([running_scripts_stay_reachable]); every message is acknowledged, refused or
    given back according to its outcome.  A redelivery that loses a race keeps
    its slot, and enough of them stop the agent
    ([redeliveries_wedge_the_agent]).

    Wire and scripts.  An accepted identifier makes literal subjects, message
    ids sort by time, output is framed and capped without loss, reorder or
    duplication, and the environment of a job holds nothing but the allowed
    names.

    Schedule.  No enabled entry of a saved schedule is without a queued fire or a
    pending rebuild ([no_entry_is_forgotten]), while one that could not be saved
    may wait for ever ([unsaved_schedule_never_fires]); the heap refines a priority queue; a pass of
    [fireDue] runs exactly what is due and justified and reports the rest
    skipped; a schedule reported as saved is read by the next start, up to
    the formatting of its payloads, and queued, and a sync that is refused or
    killed leaves the old one ([synced_schedule_survives_a_restart]); a due entry whose
    job is admitted ends with one result under its own id
    ([due_entry_gets_its_result]); the misfire scan finds the last missed fire
    within its limit; a startup catch-up makes later fires double
    ([catch_up_duplicates_later_fires]).

    Shells.  The bytes in flight are bounded and no wake-up of the reader is
    lost; output reaches the console in order, complete unless a gap is
    announced; a tick closes exactly the overdue sessions; at most five
    terminals are open, each in the table under its own valid id; after the
    shutdown no terminal stays open; a session starts with its shell, its
    subscriptions and its pumps or is taken down, as far as closing the terminal
    and dropping a subscription work ([start_is_all_or_nothing]).

    Patches.  Whatever the host answers, a package manager is told to install
    only what was approved and is neither the agent's own package nor a name
    its command line would read as an option ([Install_runs_only_approved]);
    every approved id ends installed or with a reason, and what is reported
    installed was seen installed; macOS is never upgraded to a new version; the
    loop around a lock ends.  A job reports success only when nothing failed.
    On Windows an abandoned call keeps the installer's gate closed until its
    install is over, and is reported as unknown, not as failed; whatever a COM
    server answers, an install through it is one of the modelled ones
    ([com_install_refines_wua]) and leaks no reference
    ([com_references_are_given_back]).

    Credentials and certificates.  One renewal, with its reply lost and the
    process killed at any instant, leaves on disk a secret the server accepts
    ([one_renewal_never_locks_out]); two lost replies in a row, or one save
    that fails followed by a restart, lock the agent out
    ([second_lost_reply_locks_out], [unsaved_renewal_locks_out]).  A renewed
    certificate belongs to the key beside it, unless the second of the two
    files could not be written ([failed_save_breaks_the_pair]).  A migration
    never loses the identity, but one that fails leaves the machine un-enrolled
    from then on ([migration_never_loses_the_identity]).

    On Windows only a failed write of the certificate files can cost the device
    its credential within one renewal
    ([only_a_failed_write_loses_the_credential]), given an authority that issues
    a fresh certificate for the key it was sent; an attempt killed half way and
    then repeated can, too ([retry_after_a_kill_loses_the_key]).

    Supervision.  Restarts are paced, a shutdown drains every task, and a build
    the server refuses to hear is never confirmed, whatever else it logs.  The
    exit code of the process tells why it ended, in every interleaving, and the
    drain of the connection was asked for, though not awaited
    ([exit_code_tells_why]); the agent is wired completely
    ([agent_is_fully_wired]); on Windows the service manager is told of every
    step ([handler_keeps_the_manager_informed]).

    Scripts and commands.  A job ends with one truthful result after its output
    ([run_reports_once_and_truthfully]), which the server stores at most once
    ([result_is_stored_at_most_once]); killing it leaves nothing that stayed
    in its group running ([killed_job_leaves_nothing_running]); the reply to a
    command says what was done, and what a refusal can leave behind is listed
    ([command_replies_are_true]).  A package manager's call can
    wait for a process that left the group
    ([runCmd_waits_for_what_left_the_group]).

    Reports.  Posture fails a machine only on an answer
    ([posture_fails_only_on_an_answer]); an inventory round publishes exactly
    what was collected ([RefreshNow_publishes_only_answers]); one lost heartbeat
    is tolerated, two may not be.

    Installation.  The files written for systemd ([unit_starts_the_agent], of
    arguments systemd can carry), launchd and wpa_supplicant are read back by
    those programs' rules as what was meant; the unit never
    exists without its guard, with systemd or launchd; an install that fails
    leaves the old binary or the new one; the finalizer's report agrees with
    what is on disk; removing the agent removes nothing else
    ([uninstall_removes_only_the_agent]), unless the state directory's name
    begins or ends with a blank ([purge_of_a_blank_ended_directory_takes_another]).

    ** Bounds and fuel

    Loops of the source are structural recursions, or take a fuel that the
    definitions compute from the data: the length of the data for the framing
    loops (each round takes a byte), the heap's size for sifting, the number
    of heap items for [fireDue] (a fire pushes only later ones), the length of
    the text for the parsers and for the readers of [Render] and [Systemd], one more than the
    length of the chain for [installChain].  The retry loop of an install under a lock has
    eleven rounds, the most its waits allow, and [runInstall_terminates] shows
    they are enough.  The lemmas that speak of results are proved
    with that fuel, so no theorem holds merely because fuel ran out.  The
    rounds of [Watch] and the actions of the step systems are lists of any
    length.  Integers wrap where the source computes on a fixed width; where a
    theorem needs a range, it is a hypothesis that names it.

    ** What is not modelled

    The libraries the agent is built on (the NATS client, gopsutil, go-ole's
    marshalling, X.509, JSON, cron expressions) appear as parameters, classes or
    answers.  Reading and writing a terminal, sockets and pipes appear as the
    data of actions.  Not modelled are the parsing of command-line flags, log
    lines, [PrimaryAddress] (which nothing calls), the Windows form of
    [filepath.Clean], the certificate request's encoding, and test hooks.  Directories have no state
    of their own on the modelled disk (except the one [Identity] migrates to,
    whose existence matters), so permissions of directories are not represented,
    nor is what a power cut does to data that was not synced.  Of the server only the credentials of one agent and the
    deduplication of a stream are modelled; the rest of it and the web console
    are other programs. *)
From stdpp Require Export base tactics decidable list gmap strings.
From Stdlib Require Export ZArith Lia Ascii.
From Stdlib Require String.

(** ** Bytes

    A Go [string] and a Go [[]byte] are both modelled by the list of their
    bytes.  [str] turns a literal into one. *)
Abbreviation bytes := (list ascii).

Definition str (s : String.string) : bytes := String.list_ascii_of_string s.
Arguments str s%_string.

Declare Scope everwas_scope.
Delimit Scope everwas_scope with ew.
Open Scope Z_scope.

(** The decimal code of a byte, so that ranges read like the source. *)
Definition code (c : ascii) : Z := Z.of_N (N_of_ascii c).

Definition chr (z : Z) : ascii := ascii_of_N (Z.to_N z).

Definition blen (s : bytes) : Z := Z.of_nat (length s).

Lemma blen_app a b : blen (a ++ b) = blen a + blen b.
Proof. unfold blen. rewrite length_app. lia. Qed.

Lemma blen_drop n a : blen (drop n a) = Z.max 0 (blen a - Z.of_nat n).
Proof. unfold blen. rewrite length_drop. lia. Qed.

Lemma blen_nonneg a : 0 <= blen a.
Proof. unfold blen. lia. Qed.

(** ** Results: a Go value paired with a possibly nil error. *)
Inductive res (E A : Type) : Type :=
  | Ok (a : A)
  | Err (e : E).
Arguments Ok {E A} a.
Arguments Err {E A} e.

Definition is_ok {E A} (r : res E A) : bool :=
  match r with Ok _ => true | Err _ => false end.

(** ** Machine integers *)

(** Two's complement wrap-around of an [int64]. *)
Definition wrap64 (z : Z) : Z := (z + 2 ^ 63) mod 2 ^ 64 - 2 ^ 63.

(** Saturation to the [int64] range, the behaviour of [time.Time.Sub]. *)
Definition max_int64 : Z := 2 ^ 63 - 1.
Definition min_int64 : Z := - 2 ^ 63.
Definition sat64 (z : Z) : Z := Z.max min_int64 (Z.min max_int64 z).

Definition in_int64 (z : Z) : Prop := min_int64 <= z <= max_int64.

(** Unsigned 64-bit wrap-around. *)
Definition wrapu64 (z : Z) : Z := z mod 2 ^ 64.

Lemma wrap64_id z : in_int64 z -> wrap64 z = z.
Proof.
  unfold in_int64, min_int64, max_int64, wrap64. intros.
  rewrite Z.mod_small; lia.
Qed.

Lemma wrap64_range z : in_int64 (wrap64 z).
Proof.
  unfold in_int64, min_int64, max_int64, wrap64.
  pose proof (Z.mod_pos_bound (z + 2 ^ 63) (2 ^ 64) ltac:(lia)). lia.
Qed.

Lemma sat64_id z : in_int64 z -> sat64 z = z.
Proof. unfold in_int64, sat64. lia. Qed.

Lemma sat64_range z : in_int64 (sat64 z).
Proof. unfold in_int64, sat64, min_int64, max_int64. lia. Qed.

(** A saturated difference compares with an in-range bound exactly as the
    mathematical difference does. *)
Lemma sat64_le z b : in_int64 b -> sat64 z <= b <-> (z <= b \/ b = max_int64).
Proof. unfold in_int64, sat64, min_int64, max_int64. lia. Qed.

Lemma sat64_gt z b : min_int64 <= b < max_int64 -> b < sat64 z <-> b < z.
Proof. unfold sat64, min_int64, max_int64. lia. Qed.

(** ** Slices *)

(** [l[len(l)-n:]] when [len(l) > n], else [l]: the idiom the agent uses to
    keep the newest [n] elements of a list. *)
Definition keep_last {A} (n : nat) (l : list A) : list A := drop (length l - n) l.

Section keep_last.
Context {A : Type}.
Implicit Types l : list A.

Lemma keep_last_length n l : length (keep_last n l) = (n `min` length l)%nat.
Proof. unfold keep_last. rewrite length_drop. lia. Qed.

Lemma keep_last_le n l : (length (keep_last n l) <= n)%nat.
Proof. rewrite keep_last_length. lia. Qed.

Lemma keep_last_all n l : (length l <= n)%nat -> keep_last n l = l.
Proof.
  intros. unfold keep_last. replace (length l - n)%nat with 0%nat by lia.
  apply drop_0.
Qed.

Lemma keep_last_suffix n l : keep_last n l `suffix_of` l.
Proof. exists (take (length l - n) l). symmetry. apply take_drop. Qed.

Lemma elem_of_keep_last n l x : x ∈ keep_last n l -> x ∈ l.
Proof.
  intros Hx. destruct (keep_last_suffix n l) as [k Hk]. rewrite Hk.
  apply elem_of_app. by right.
Qed.

Lemma keep_last_app n l p : keep_last n (keep_last n l ++ p) = keep_last n (l ++ p).
Proof.
  unfold keep_last. rewrite <- drop_app_le by lia. rewrite drop_drop. f_equal.
  rewrite length_drop, length_app. lia.
Qed.

Lemma keep_last_NoDup n l : NoDup l -> NoDup (keep_last n l).
Proof.
  intros Hl. destruct (keep_last_suffix n l) as [k Hk]. rewrite Hk in Hl.
  apply NoDup_app in Hl. tauto.
Qed.

Lemma keep_last_snoc n l x :
  (0 < n)%nat -> exists l', keep_last n (l ++ [x]) = l' ++ [x].
Proof.
  intros. unfold keep_last. rewrite length_app; simpl.
  exists (drop (length l + 1 - n) l). rewrite drop_app_le; [done | lia].
Qed.

Lemma keep_last_last n l x : (0 < n)%nat -> x ∈ keep_last n (l ++ [x]).
Proof.
  intros Hn. destruct (keep_last_snoc n l x Hn) as [l' ->]. set_solver.
Qed.
End keep_last.

(** ** Loops *)

(** An invariant of a loop over a list, indexed by what is already done. *)
Lemma fold_left_inv {A B} (P : list B -> A -> Prop) (f : A -> B -> A) (l : list B) (a : A) :
  P [] a ->
  (forall done x todo b, l = done ++ x :: todo -> P done b -> P (done ++ [x]) (f b x)) ->
  P l (fold_left f l a).
Proof.
  intros H0 Hs. cut (forall todo done b, l = done ++ todo -> P done b -> P l (fold_left f todo b)).
  { intros Hc. by apply (Hc l [] a). }
  intros todo. induction todo as [|x todo IH]; intros done b Hl Hb; cbn [fold_left].
  - by rewrite Hl, app_nil_r.
  - apply (IH (done ++ [x])); [by rewrite <- app_assoc|]. by eapply Hs.
Qed.

(** ** Automation *)

Create HintDb everwas discriminated.
#[export] Hint Resolve wrap64_range sat64_range keep_last_le keep_last_NoDup
  elem_of_keep_last keep_last_last : everwas.

(** Break a hypothesis or goal of nested pairs, conjunctions and decidable
    tests into its cases. *)
Ltac split_cases :=
  repeat match goal with
  | H : _ /\ _ |- _ => destruct H
  | H : exists _, _ |- _ => destruct H
  | H : Ok _ = Ok _ |- _ => injection H as H
  | H : Err _ = Err _ |- _ => injection H as H
  | H : Ok _ = Err _ |- _ => discriminate H
  | H : Err _ = Ok _ |- _ => discriminate H
  | H : Some _ = Some _ |- _ => injection H as H
  | H : Some _ = None |- _ => discriminate H
  | H : None = Some _ |- _ => discriminate H
  | H : (_, _) = (_, _) |- _ => injection H as H
  end; subst.

(** Turn a boolean fact about the source's tests into propositions. *)
Ltac bool_cases :=
  repeat match goal with
  | H : (_ && _)%bool = true |- _ => apply andb_true_iff in H as [? ?]
  | H : (_ || _)%bool = false |- _ => apply orb_false_iff in H as [? ?]
  | H : negb _ = true |- _ => apply negb_true_iff in H
  | H : negb _ = false |- _ => apply negb_false_iff in H
  | H : bool_decide _ = true |- _ => apply bool_decide_eq_true in H
  | H : bool_decide _ = false |- _ => apply bool_decide_eq_false in H
  end.
