(* ===== verification/GoLib.v ===== *)
(** * GoLib: the parts of Go's standard library the agent computes with

    Text ([strings], [strconv], [unicode/utf8], [encoding/hex],
    [encoding/base64]) on byte lists, and [time] on nanoseconds since the
    Unix epoch.  Only what the modelled packages call is here. *)
From S2P Require Import Prelude.

(** ** strings *)

(** The UTF-8 spellings of the runes [unicode.IsSpace] accepts.  None is a
    prefix of another, so the order does not matter. *)
Definition space_tokens : list bytes :=
  map (map chr)
    ([[9]; [10]; [11]; [12]; [13]; [32]; [194; 133]; [194; 160];
      [225; 154; 128]] ++
     map (fun z => [226; 128; z])
       [128; 129; 130; 131; 132; 133; 134; 135; 136; 137; 138; 168; 169; 175] ++
     [[226; 129; 159]; [227; 128; 128]]).

Fixpoint strip_prefix (p s : bytes) : option bytes :=
  match p, s with
  | [], _ => Some s
  | c :: p', d :: s' => if decide (c = d) then strip_prefix p' s' else None
  | _ :: _, [] => None
  end.

Fixpoint strip_any (toks : list bytes) (s : bytes) : option bytes :=
  match toks with
  | [] => None
  | t :: toks' =>
      match strip_prefix t s with Some s' => Some s' | None => strip_any toks' s end
  end.

(** Drop leading tokens; each is at least a byte long, so the length of the
    string bounds the number of rounds. *)
Fixpoint trim_front (toks : list bytes) (fuel : nat) (s : bytes) : bytes :=
  match fuel with
  | O => s
  | S fuel' =>
      match strip_any toks s with
      | Some s' => trim_front toks fuel' s'
      | None => s
      end
  end.

Definition TrimLeftSpace (s : bytes) : bytes := trim_front space_tokens (length s) s.

Definition TrimRightSpace (s : bytes) : bytes :=
  rev (trim_front (map (@rev ascii) space_tokens) (length s) (rev s)).

Definition TrimSpace (s : bytes) : bytes := TrimRightSpace (TrimLeftSpace s).

(** [strings.TrimRight(s, cutset)] for a one-character cutset. *)
Definition TrimRightChar (c : ascii) (s : bytes) : bytes :=
  rev (trim_front [[c]] (length s) (rev s)).

(** [strings.Split(s, sep)] for a one-character separator. *)
Fixpoint Split (sep : ascii) (s : bytes) : list bytes :=
  match s with
  | [] => [[]]
  | c :: s' =>
      if decide (c = sep) then [] :: Split sep s'
      else match Split sep s' with
           | [] => [[c]]
           | l :: ls => (c :: l) :: ls
           end
  end.

Definition HasPrefix (s p : bytes) : bool :=
  match strip_prefix p s with Some _ => true | None => false end.

Definition CutPrefix (s p : bytes) : option bytes := strip_prefix p s.

Definition between (a b : ascii) (c : ascii) : bool := (code a <=? code c) && (code c <=? code b).

Definition is_digit (c : ascii) : bool := between "0" "9" c.
Definition is_lower (c : ascii) : bool := between "a" "z" c.
Definition is_upper (c : ascii) : bool := between "A" "Z" c.

(** [strings.ToLower] and [strings.ToUpper] on ASCII.  The agent folds only
    URL schemes, hex digests and environment names, where a non-ASCII rune
    can match nothing either way. *)
Definition lower (c : ascii) : ascii := if is_upper c then chr (code c + 32) else c.
Definition upper (c : ascii) : ascii := if is_lower c then chr (code c - 32) else c.
Definition ToLower (s : bytes) : bytes := map lower s.
Definition ToUpper (s : bytes) : bytes := map upper s.

Definition nl : ascii := chr 10.
Definition cr : ascii := chr 13.

(** ** unicode/utf8 *)

(** The width of the first rune of [s] as [utf8.DecodeRuneInString] sees it:
    1 for ASCII and for every byte that does not start a well-formed
    sequence. *)
Definition rune_width (s : bytes) : nat :=
  let cont z := (128 <=? z) && (z <=? 191) in
  match map code s with
  | [] => 0%nat
  | a :: rest =>
      if (194 <=? a) && (a <=? 223) then
        match rest with b :: _ => if cont b then 2%nat else 1%nat | _ => 1%nat end
      else if (224 <=? a) && (a <=? 239) then
        match rest with
        | b :: c :: _ =>
            let lo := if a =? 224 then 160 else 128 in
            let hi := if a =? 237 then 159 else 191 in
            if (lo <=? b) && (b <=? hi) && cont c then 3%nat else 1%nat
        | _ => 1%nat
        end
      else if (240 <=? a) && (a <=? 244) then
        match rest with
        | b :: c :: d :: _ =>
            let lo := if a =? 240 then 144 else 128 in
            let hi := if a =? 244 then 143 else 191 in
            if (lo <=? b) && (b <=? hi) && cont c && cont d then 4%nat else 1%nat
        | _ => 1%nat
        end
      else 1%nat
  end.

(** A text as it comes back from [encoding/json]: each byte that is not part
    of a well-formed sequence becomes U+FFFD. *)
Fixpoint validUTF8 (fuel : nat) (s : bytes) : bytes :=
  match fuel, s with
  | S fuel', c :: _ =>
      (if (code c <? 128) || (2 <=? rune_width s)%nat then take (rune_width s) s else [chr 239; chr 191; chr 189])
      ++ validUTF8 fuel' (drop (rune_width s) s)
  | _, _ => []
  end.
Definition utf8Text (s : bytes) : bytes := validUTF8 (length s) s.

(** [strings.Map] for a mapping that sends every rune to an ASCII character:
    an ASCII rune through [f], any other rune, whatever its width, to
    [other]. *)
Fixpoint MapRunes (f : ascii -> ascii) (other : ascii) (fuel : nat) (s : bytes) : bytes :=
  match fuel, s with
  | S fuel', c :: _ =>
      (if code c <? 128 then f c else other)
      :: MapRunes f other fuel' (drop (rune_width s) s)
  | _, _ => []
  end.

(** ** strconv *)

Definition digit_val (c : ascii) : option Z :=
  if is_digit c then Some (code c - 48) else None.

Definition digit_char (z : Z) : ascii := chr (48 + z).

Fixpoint parse_digits (acc : Z) (s : bytes) : option Z :=
  match s with
  | [] => Some acc
  | c :: s' =>
      match digit_val c with
      | Some d => parse_digits (10 * acc + d) s'
      | None => None
      end
  end.

(** [strconv.ParseInt(s, 10, 64)]; [None] for a syntax or a range error. *)
Definition ParseInt (s : bytes) : option Z :=
  let signed neg body :=
    match body with
    | [] => None
    | _ =>
        match parse_digits 0 body with
        | Some v =>
            let v := if neg : bool then - v else v in
            if (min_int64 <=? v) && (v <=? max_int64) then Some v else None
        | None => None
        end
    end in
  match s with
  | [] => None
  | c :: s' =>
      if decide (c = "-"%char) then signed true s'
      else if decide (c = "+"%char) then signed false s'
      else signed false s
  end.

Fixpoint utoa_fuel (fuel : nat) (n : Z) (acc : bytes) : bytes :=
  match fuel with
  | O => acc
  | S fuel' =>
      if n <? 10 then digit_char n :: acc
      else utoa_fuel fuel' (n / 10) (digit_char (n mod 10) :: acc)
  end.

(** The [%d] verb on an [int64]: at most nineteen digits. *)
Definition Itoa (z : Z) : bytes :=
  if z <? 0 then "-"%char :: utoa_fuel 20 (- z) [] else utoa_fuel 20 z [].

(** The [%t] verb. *)
Definition FormatBool (b : bool) : bytes := if b then str "true" else str "false".

(** ** encoding/hex and encoding/base64 *)

Definition hex_digit (z : Z) : ascii := if z <? 10 then chr (48 + z) else chr (87 + z).

Definition HexEncode (s : bytes) : bytes :=
  flat_map (fun c => [hex_digit (Z.shiftr (code c) 4); hex_digit (Z.land (code c) 15)]) s.

Definition b64_val (c : ascii) : option Z :=
  if is_upper c then Some (code c - 65)
  else if is_lower c then Some (code c - 71)
  else if is_digit c then Some (code c + 4)
  else if decide (c = "+"%char) then Some 62
  else if decide (c = "/"%char) then Some 63
  else None.

Fixpoint b64_groups (s : bytes) : option bytes :=
  match s with
  | [] => Some []
  | a :: b :: c :: d :: rest =>
      match b64_val a, b64_val b with
      | Some va, Some vb =>
          let b0 := chr (Z.lor (Z.shiftl va 2) (Z.shiftr vb 4)) in
          match b64_val c with
          | Some vc =>
              let b1 := chr (Z.land (Z.lor (Z.shiftl vb 4) (Z.shiftr vc 2)) 255) in
              match b64_val d with
              | Some vd =>
                  let b2 := chr (Z.land (Z.lor (Z.shiftl vc 6) vd) 255) in
                  match b64_groups rest with
                  | Some out => Some (b0 :: b1 :: b2 :: out)
                  | None => None
                  end
              | None =>
                  if bool_decide (d = "="%char) && bool_decide (rest = [])
                  then Some [b0; b1] else None
              end
          | None =>
              if bool_decide (c = "="%char) && bool_decide (d = "="%char) && bool_decide (rest = [])
              then Some [b0] else None
          end
      | _, _ => None
      end
  | _ => None
  end.

(** [base64.StdEncoding.DecodeString]: carriage returns and newlines are
    ignored, padding is required and trailing bits are not checked. *)
Definition Base64Decode (s : bytes) : option bytes :=
  b64_groups (filter (fun c => c ≠ nl /\ c ≠ cr) s).

(** ** path/filepath *)

(** [filepath.Join(dir, name)] for a cleaned [dir] and a plain file name. *)
Definition Join (dir name : bytes) : bytes :=
  match dir with [] => name | _ => dir ++ str "/" ++ name end.

(** ** time *)

Definition Second : Z := 1000000000.
Definition Minute : Z := 60 * Second.
Definition Hour : Z := 60 * Minute.

(** The zero [time.Time], January 1 of year 1 UTC. *)
Definition unixToInternal : Z := 62135596800.
Definition zero_time : Z := - unixToInternal * Second.

Definition IsZero (t : Z) : bool := t =? zero_time.
Definition After (t u : Z) : bool := u <? t.
Definition Before (t u : Z) : bool := t <? u.

(** [t.Sub(u)] saturates. *)
Definition Sub (t u : Z) : Z := sat64 (t - u).

(** [time.Unix(sec, 0)]: the internal seconds counter wraps. *)
Definition UnixTime (sec : Z) : Z := (wrap64 (sec + unixToInternal) - unixToInternal) * Second.

(** [t.Unix()], rounding towards the past. *)
Definition Unix (t : Z) : Z := t / Second.

Fixpoint pad_left (n : nat) (c : ascii) (s : bytes) : bytes :=
  match n with
  | O => s
  | S n' => if (length s <=? n')%nat then pad_left n' c (c :: s) else s
  end.

Definition pad2 (z : Z) : bytes := pad_left 2 "0" (Itoa z).

(** The civil date of a day number since the epoch. *)
Definition civil_of_days (days : Z) : Z * Z * Z :=
  let z := days + 719468 in
  let era := z / 146097 in
  let doe := z - era * 146097 in
  let yoe := (doe - doe / 1460 + doe / 36524 - doe / 146096) / 365 in
  let doy := doe - (365 * yoe + yoe / 4 - yoe / 100) in
  let mp := (5 * doy + 2) / 153 in
  let d := doy - (153 * mp + 2) / 5 + 1 in
  let m := if mp <? 10 then mp + 3 else mp - 9 in
  (yoe + era * 400 + (if m <=? 2 then 1 else 0), m, d).

(** [t.UTC().Format(time.RFC3339)] for years 0 to 9999. *)
Definition FormatRFC3339 (t : Z) : bytes :=
  let secs := Unix t in
  let '(y, m, d) := civil_of_days (secs / 86400) in
  let tod := secs mod 86400 in
  pad_left 4 "0" (Itoa y) ++ str "-" ++ pad2 m ++ str "-" ++ pad2 d ++ str "T" ++
  pad2 (tod / 3600) ++ str ":" ++ pad2 (tod / 60 mod 60) ++ str ":" ++ pad2 (tod mod 60) ++ str "Z".

(** ** Lemmas *)

Lemma code_range c : 0 <= code c < 256.
Proof. unfold code. pose proof (N_ascii_bounded c). lia. Qed.

Lemma code_chr z : 0 <= z < 256 -> code (chr z) = z.
Proof. intros. unfold code, chr. rewrite N_ascii_embedding; lia. Qed.

Lemma chr_code c : chr (code c) = c.
Proof. unfold code, chr. rewrite N2Z.id. apply ascii_N_embedding. Qed.

Lemma code_inj c d : code c = code d -> c = d.
Proof. intros H. rewrite <- (chr_code c), <- (chr_code d). by rewrite H. Qed.

Lemma strip_prefix_Some p s r : strip_prefix p s = Some r <-> s = p ++ r.
Proof.
  revert s. induction p as [|c p IH]; intros [|d s]; simpl.
  - split; congruence.
  - split; congruence.
  - split; [done | discriminate].
  - case_decide as Hc; [rewrite IH|]; split; congruence.
Qed.

Lemma HasPrefix_spec s p : HasPrefix s p = true <-> exists r, s = p ++ r.
Proof.
  unfold HasPrefix. destruct (strip_prefix p s) as [r|] eqn:E.
  - apply strip_prefix_Some in E. naive_solver.
  - split; [done|]. intros [r Hr]. apply strip_prefix_Some in Hr. congruence.
Qed.

(** *** Split *)

Lemma Split_not_nil sep s : Split sep s ≠ [].
Proof. induction s; simpl; [done|]. case_decide; [done|]. by destruct (Split sep s). Qed.

Lemma Split_app_sep sep a b : Split sep (a ++ sep :: b) = Split sep a ++ Split sep b.
Proof.
  induction a as [|c a IH]; simpl.
  - by rewrite decide_True by done.
  - case_decide; rewrite IH; [done|].
    destruct (Split sep a) eqn:E; [by apply Split_not_nil in E | done].
Qed.

Lemma Split_no_sep sep s : sep ∉ s -> Split sep s = [s].
Proof.
  induction s as [|c s IH]; intros Hs; simpl; [done|].
  rewrite decide_False by set_solver. by rewrite IH by set_solver.
Qed.

(** A text of lines, each with its line break; it splits into its lines when
    none of them holds one. *)
Definition unlines (ls : list bytes) : bytes := concat (map (fun l => l ++ [nl]) ls).

Lemma Split_unlines ls : Forall (fun l => nl ∉ l) ls -> Split nl (unlines ls) = ls ++ [[]].
Proof.
  unfold unlines. induction 1 as [|l ls Hl _ IH]; [done|]. cbn [map concat]. rewrite <- app_assoc. cbn [app].
  by rewrite Split_app_sep, IH, Split_no_sep.
Qed.

Lemma unlines_snoc ls l : unlines ls ++ l ++ [nl] = unlines (ls ++ [l]).
Proof. unfold unlines. rewrite map_app, concat_app. cbn [map concat]. by rewrite app_nil_r. Qed.

Lemma Split_pieces sep s : Forall (fun l => sep ∉ l) (Split sep s).
Proof.
  induction s as [|c s IH]; simpl; [repeat constructor; set_solver|].
  case_decide; [constructor; [set_solver | done]|].
  destruct (Split sep s); inversion IH; subst; repeat constructor; set_solver.
Qed.

(** *** TrimSpace *)

(** A printable ASCII character other than the blank. *)
Definition plain (c : ascii) : bool := (33 <=? code c) && (code c <=? 126).

Definition plain_head (t : bytes) : bool :=
  match t with [] => true | h :: _ => plain h end.

Lemma strip_any_plain toks c s :
  forallb (fun t => negb (plain_head t)) toks = true -> plain c = true ->
  strip_any toks (c :: s) = None.
Proof.
  intros Htoks Hc. induction toks as [|t toks IH]; simpl in *; [done|].
  apply andb_true_iff in Htoks as [Ht Htoks].
  destruct t as [|h t]; simpl in *; [done|].
  rewrite decide_False; [auto|]. intros ->. by rewrite Hc in Ht.
Qed.

Lemma trim_front_plain toks fuel s :
  forallb (fun t => negb (plain_head t)) toks = true -> plain_head s = true ->
  s ≠ [] -> trim_front toks fuel s = s.
Proof.
  intros Ht Hs Hne. destruct fuel, s; try done. cbn [trim_front].
  by rewrite strip_any_plain.
Qed.

(** Text that starts and ends with a printable character is left alone. *)
Lemma TrimSpace_plain s :
  s ≠ [] -> plain_head s = true -> plain_head (rev s) = true -> TrimSpace s = s.
Proof.
  intros Hne Hh Ht. unfold TrimSpace, TrimLeftSpace, TrimRightSpace.
  rewrite (trim_front_plain space_tokens _ s); [|by vm_compute|done|done].
  rewrite trim_front_plain; [apply rev_involutive|by vm_compute|done|].
  intros Hr. apply Hne. rewrite <- (rev_involutive s), Hr. done.
Qed.

Lemma TrimSpace_all_plain s : s ≠ [] -> Forall (fun c => plain c = true) s -> TrimSpace s = s.
Proof.
  intros Hne Hs. assert (Hr : Forall (fun c => plain c = true) (rev s)).
  { apply Forall_forall. intros c Hc. rewrite Forall_forall in Hs. apply Hs.
    apply list_elem_of_In, in_rev, list_elem_of_In, Hc. }
  apply TrimSpace_plain; [done| |].
  - destruct s; [done|]. by inversion Hs.
  - destruct (rev s); [done|]. by inversion Hr.
Qed.

Lemma TrimSpace_nil : TrimSpace [] = [].
Proof. reflexivity. Qed.

(** *** Decimal round trip *)

Lemma digit_val_char d : 0 <= d <= 9 -> digit_val (digit_char d) = Some d.
Proof.
  intros. unfold digit_val, digit_char, is_digit, between.
  rewrite code_chr by lia. change (code "0") with 48. change (code "9") with 57.
  destruct (Z.leb_spec 48 (48 + d)), (Z.leb_spec (48 + d) 57); try lia. simpl. f_equal. lia.
Qed.

Lemma digit_char_plain d : 0 <= d <= 9 -> plain (digit_char d) = true.
Proof. intros. unfold plain, digit_char. rewrite code_chr; lia. Qed.

Lemma parse_digits_utoa fuel n acc :
  0 <= n < 10 ^ Z.of_nat fuel ->
  parse_digits 0 (utoa_fuel fuel n acc) = parse_digits n acc.
Proof.
  revert n acc. induction fuel as [|fuel IH]; intros n acc Hn.
  - simpl in *. by replace n with 0 by lia.
  - rewrite Nat2Z.inj_succ, Z.pow_succ_r in Hn by lia. cbn [utoa_fuel].
    destruct (Z.ltb_spec n 10).
    + cbn [parse_digits]. rewrite digit_val_char by lia. f_equal; lia.
    + pose proof (Z.mod_pos_bound n 10 ltac:(lia)).
      rewrite IH by (split; [apply Z.div_pos; lia | apply Z.div_lt_upper_bound; lia]).
      cbn [parse_digits]. rewrite digit_val_char by lia. f_equal.
      symmetry. apply Z.div_mod. lia.
Qed.

Lemma utoa_plain fuel n acc :
  0 <= n -> Forall (fun c => plain c = true) acc ->
  Forall (fun c => plain c = true) (utoa_fuel fuel n acc).
Proof.
  revert n acc. induction fuel as [|fuel IH]; intros n acc Hn Hacc; cbn [utoa_fuel]; [done|].
  destruct (Z.ltb_spec n 10).
  - constructor; [apply digit_char_plain; lia | done].
  - pose proof (Z.mod_pos_bound n 10 ltac:(lia)).
    apply IH; [apply Z.div_pos; lia|]. constructor; [apply digit_char_plain; lia | done].
Qed.

Lemma utoa_head fuel n acc :
  0 <= n -> exists d rest, utoa_fuel (S fuel) n acc = digit_char d :: rest /\ 0 <= d <= 9.
Proof.
  revert n acc. induction fuel as [|fuel IH]; intros n acc Hn; cbn [utoa_fuel].
  - destruct (Z.ltb_spec n 10); [exists n|exists (n mod 10)]; eexists;
      (split; [reflexivity|]); [lia|].
    pose proof (Z.mod_pos_bound n 10 ltac:(lia)). lia.
  - destruct (Z.ltb_spec n 10).
    + exists n. eexists. split; [reflexivity | lia].
    + apply IH. apply Z.div_pos; lia.
Qed.

Lemma digit_char_not_sign d c :
  0 <= d <= 9 -> code c < 48 -> digit_char d ≠ c.
Proof. intros Hd Hc Heq. rewrite <- Heq in Hc. unfold digit_char in Hc. rewrite code_chr in Hc; lia. Qed.

Lemma ParseInt_Itoa_nonneg z : 0 <= z <= max_int64 -> ParseInt (Itoa z) = Some z.
Proof.
  intros Hz. unfold max_int64 in Hz. unfold Itoa. destruct (Z.ltb_spec z 0); [lia|].
  pose proof (parse_digits_utoa 20 z [] ltac:(lia)) as Hp.
  destruct (utoa_head 19 z [] ltac:(lia)) as (d & rest & Hd & Hr).
  rewrite Hd in *. cbn [ParseInt].
  rewrite decide_False by (apply digit_char_not_sign; [lia | by vm_compute]).
  rewrite decide_False by (apply digit_char_not_sign; [lia | by vm_compute]).
  rewrite Hp. cbn [parse_digits]. unfold min_int64, max_int64.
  destruct (Z.leb_spec (-2^63) z), (Z.leb_spec z (2^63-1)); try lia. done.
Qed.

Lemma ParseInt_Itoa z : in_int64 z -> ParseInt (Itoa z) = Some z.
Proof.
  unfold in_int64. intros Hz. destruct (Z.ltb_spec z 0).
  - unfold min_int64, max_int64 in Hz. unfold Itoa. rewrite (proj2 (Z.ltb_lt z 0)) by lia.
    pose proof (parse_digits_utoa 20 (- z) [] ltac:(lia)) as Hp.
    destruct (utoa_head 19 (- z) [] ltac:(lia)) as (d & rest & Hd & Hr).
    unfold ParseInt. rewrite decide_True by done. rewrite Hd in *. rewrite Hp.
    cbn [parse_digits]. rewrite Z.opp_involutive. unfold min_int64, max_int64.
    destruct (Z.leb_spec (-2^63) z), (Z.leb_spec z (2^63-1)); try lia. done.
  - apply ParseInt_Itoa_nonneg. lia.
Qed.

Lemma Itoa_plain z : Forall (fun c => plain c = true) (Itoa z).
Proof.
  unfold Itoa. destruct (Z.ltb_spec z 0).
  - constructor; [by vm_compute|]. apply utoa_plain; [lia | constructor].
  - apply utoa_plain; [lia | constructor].
Qed.

Lemma Itoa_not_nil z : Itoa z ≠ [].
Proof.
  unfold Itoa. destruct (Z.ltb_spec z 0); [done|].
  by destruct (utoa_head 19 z [] ltac:(lia)) as (d & rest & -> & _).
Qed.

Lemma plain_not_nl s : Forall (fun c => plain c = true) s -> nl ∉ s.
Proof. rewrite Forall_forall. intros H Hin. apply H in Hin. done. Qed.

Lemma Itoa_no_nl z : nl ∉ Itoa z.
Proof. apply plain_not_nl, Itoa_plain. Qed.

Lemma TrimSpace_Itoa z : TrimSpace (Itoa z) = Itoa z.
Proof. apply TrimSpace_all_plain; [apply Itoa_not_nil | apply Itoa_plain]. Qed.

(** *** Paths *)

Lemma Join_inj dir a b : Join dir a = Join dir b -> a = b.
Proof.
  unfold Join. destruct dir; [done|]. intros H. apply app_inv_head in H.
  by apply app_inv_head in H.
Qed.

Lemma Join_ne dir a b : a ≠ b -> Join dir a ≠ Join dir b.
Proof. intros Hne H. by apply Join_inj in H. Qed.

Lemma app_suffix_ne (p q : bytes) : q ≠ [] -> p ++ q ≠ p.
Proof. intros Hq H. apply Hq. apply (app_inv_head p). by rewrite app_nil_r. Qed.

#[export] Hint Resolve Join_ne app_suffix_ne Split_not_nil Itoa_no_nl Itoa_not_nil : everwas.
#[export] Hint Rewrite TrimSpace_nil TrimSpace_Itoa Split_app_sep : everwas.

(** ** JSON *)

(** What [encoding/json] does to the values of a type: [stored a] is what
    reading [a] back gives, [writable] holds of the values it writes and
    [decoded] of every value it reads. *)
Class Encoding (A : Type) := {
  stored : A -> A;
  writable : A -> Prop;
  decoded : A -> Prop;
}.

(** [encoding/json] at the type [A]: what it writes it reads back, up to
    [stored], and it writes every writable value.  It is no round trip for
    every value: text that is not UTF-8 comes back repaired, and a time of a
    year it cannot print is refused. *)
Class JSON (A : Type) {E : Encoding A} := {
  MarshalIndent : A -> option bytes;
  Unmarshal : bytes -> option A;
  json_roundtrip : forall a s, MarshalIndent a = Some s -> Unmarshal (s ++ [nl]) = Some (stored a);
  json_writes : forall a, writable a -> is_Some (MarshalIndent a);
  json_reads : forall s a, Unmarshal s = Some a -> decoded a;
}.

(** [time.Time] is written in the years 0 to 9999 of its zone; these instants
    lie in them whatever the zone. *)
Definition writableTime (t : Z) : Prop := zero_time <= t < 253370764800 * Second.
#[export] Instance writableTime_dec t : Decision (writableTime t).
Proof. unfold writableTime. apply _. Defined.

Lemma validUTF8_ascii fuel s :
  (length s <= fuel)%nat -> Forall (fun c => code c < 128) s -> validUTF8 fuel s = s.
Proof.
  intros Hl Hs. revert s Hl Hs. induction fuel as [|fuel IH]; intros [|c s] Hl Hs; [done|cbn in Hl; lia|done|].
  apply Forall_cons in Hs as [Hc Hs]. cbn [validUTF8].
  assert (Hw : rune_width (c :: s) = 1%nat).
  { unfold rune_width. cbn [map]. rewrite !(proj2 (Z.leb_gt _ (code c))) by lia. done. }
  rewrite Hw, (proj2 (Z.ltb_lt _ _) Hc). cbn [orb]. change (drop 1 (c :: s)) with s.
  change (take 1 (c :: s)) with [c]. rewrite IH; [done|cbn [length] in Hl; lia|done].
Qed.

(** Plain ASCII text comes back as it was. *)
Lemma utf8Text_ascii s : Forall (fun c => code c < 128) s -> utf8Text s = s.
Proof. by apply validUTF8_ascii. Qed.

Lemma utf8Text_nil s : utf8Text s = [] <-> s = [].
Proof.
  split; [|by intros ->]. destruct s as [|c s]; [done|]. unfold utf8Text. cbn [length validUTF8].
  destruct (_ || _) eqn:E; [|done].
  assert (Hw : (1 <= rune_width (c :: s))%nat) by (unfold rune_width; cbn [map]; repeat case_match; lia).
  destruct (rune_width (c :: s)); [lia|done].
Qed.

(** The width of a well-formed rune does not depend on what follows it. *)
Lemma rune_width_take c s x :
  (code c <? 128) || (2 <=? rune_width (c :: s))%nat = true ->
  rune_width (take (rune_width (c :: s)) (c :: s) ++ x) = rune_width (c :: s) /\
  (rune_width (c :: s) <= length (c :: s))%nat.
Proof.
  intros H. apply orb_true_iff in H as [H|H].
  - apply Z.ltb_lt in H.
    assert (Hw : forall t, rune_width (c :: t) = 1%nat).
    { intros t. unfold rune_width. cbn [map]. rewrite !(proj2 (Z.leb_gt _ (code c))) by lia. done. }
    rewrite Hw. cbn. split; [apply Hw|lia].
  - revert H. unfold rune_width. cbn [map]. destruct s as [|a [|b [|d s]]]; cbn [map];
    repeat match goal with |- context [if ?b then _ else _] => destruct b eqn:? end; try done;
    intros _; cbn [take app map length]; 
    repeat match goal with H : ?b = _ |- context [if ?b then _ else _] => rewrite H end; split; (done || lia).
Qed.

Lemma validUTF8_idem fuel fuel' s :
  (length s <= fuel)%nat -> (length (validUTF8 fuel s) <= fuel')%nat -> validUTF8 fuel' (validUTF8 fuel s) = validUTF8 fuel s.
Proof.
  revert fuel' s. induction fuel as [|fuel IH]; intros fuel' [|c s] Hl Hl'; [by destruct fuel'|cbn in Hl; lia|by destruct fuel'|].
  cbn [validUTF8] in *. destruct (_ || _) eqn:E.
  - destruct (rune_width_take c s (validUTF8 fuel (drop (rune_width (c :: s)) (c :: s))) E) as [Hw Hle].
    set (w := rune_width (c :: s)) in *.
    assert (Hw1 : (1 <= w)%nat).
    { unfold w, rune_width. cbn [map]. repeat case_match; lia. }
    set (rest := validUTF8 fuel (drop w (c :: s))) in *.
    assert (Ht : length (take w (c :: s)) = w) by (rewrite length_take; lia).
    destruct fuel' as [|fuel']; [rewrite length_app, Ht in Hl'; exfalso; clear -Hl' Hw1; lia|].
    destruct (take w (c :: s)) as [|c' r] eqn:Er; [exfalso; change (length []) with 0%nat in Ht; clearbody w; clear -Ht Hw1; lia|].
    assert (c' = c) as ->. { destruct w; [lia|]. cbn in Er. congruence. }
    cbn [app validUTF8]. cbn [app] in Hw. rewrite Hw.
    change (c :: r ++ rest) with ((c :: r) ++ rest). rewrite E.
    rewrite take_app_length' by (by rewrite Ht). rewrite drop_app_length' by (by rewrite Ht). f_equal.
    apply IH; [rewrite length_drop; cbn in *; lia|].
    rewrite length_app, Ht in Hl'. fold rest. lia.
  - set (rest := validUTF8 fuel _) in *.
    assert (Hs : (1 <= rune_width (c :: s))%nat) by (unfold rune_width; cbn [map]; repeat case_match; lia).
    destruct fuel' as [|fuel']; [cbn in Hl'; lia|].
    cbn [app validUTF8].
    assert (Hw : rune_width (chr 239 :: chr 191 :: chr 189 :: rest) = 3%nat) by reflexivity.
    rewrite Hw. change ((code (chr 239) <? 128) || (2 <=? 3)%nat) with true. cbn iota.
    change (take 3 (chr 239 :: chr 191 :: chr 189 :: rest)) with [chr 239; chr 191; chr 189].
    change (drop 3 (chr 239 :: chr 191 :: chr 189 :: rest)) with rest. cbn [app]. do 3 f_equal. apply IH; [rewrite length_drop; cbn in *; lia|]. fold rest. cbn in Hl'. lia.
Qed.

Lemma utf8Text_idem s : utf8Text (utf8Text s) = utf8Text s.
Proof. by apply validUTF8_idem. Qed.

(** *** A concrete encoder

    The bits of the value's code, one per byte, up to a line break. *)

Fixpoint pos_bytes (p : positive) : bytes :=
  match p with
  | xH => []
  | xO p => "0"%char :: pos_bytes p
  | xI p => "1"%char :: pos_bytes p
  end.

Fixpoint bytes_pos (s : bytes) : option positive :=
  match s with
  | [] => None
  | c :: s' =>
      if decide (c = nl) then Some xH
      else match bytes_pos s' with
           | Some p => Some (if decide (c = "0"%char) then xO p else xI p)
           | None => None
           end
  end.

Lemma bytes_pos_bytes p : bytes_pos (pos_bytes p ++ [nl]) = Some p.
Proof. induction p; simpl; rewrite ?IHp; done. Qed.

Program Definition countable_json `{Countable A} {E : Encoding A} (Hd : forall a : A, decoded (stored a)) : JSON A := {|
  MarshalIndent a := Some (pos_bytes (encode a));
  Unmarshal raw := p ← bytes_pos raw; stored <$> decode p;
|}.
Next Obligation. intros A ? ? E Hd a s [= <-]. rewrite bytes_pos_bytes. cbn [mbind option_bind]. by rewrite decode_encode. Qed.
Next Obligation. by intros. Qed.
Next Obligation.
  intros A ? ? E Hd raw a (p & _ & (a' & _ & ->)%fmap_Some)%bind_Some. apply Hd.
Qed.
