(* ===== verification/GoText.v ===== *)
(** * GoText: more of package strings

    The cutting, searching and splitting functions the parsers of the patch
    backends, the service renderers and the identity code are written with,
    on byte lists, with the lemmas that say what they find. *)
From S2P Require Import Prelude GoLib.

(** ** Searching *)

(** [strings.Cut(s, sep)]: around the first occurrence. *)
Fixpoint Cut (sep s : bytes) : option (bytes * bytes) :=
  match strip_prefix sep s with
  | Some r => Some ([], r)
  | None =>
      match s with
      | [] => None
      | c :: s' => match Cut sep s' with Some (a, b) => Some (c :: a, b) | None => None end
      end
  end.

(** Around the last occurrence, as [strings.LastIndex] finds it. *)
Definition LastCut (sep s : bytes) : option (bytes * bytes) :=
  match Cut (rev sep) (rev s) with Some (a, b) => Some (rev b, rev a) | None => None end.

Definition Contains (s sub : bytes) : bool :=
  match Cut sub s with Some _ => true | None => false end.

(** [name, _, _ := strings.Cut(s, sep)]: all of [s] when [sep] is absent. *)
Definition before (sep s : bytes) : bytes :=
  match Cut sep s with Some (a, _) => a | None => s end.

Definition ContainsAny (s chars : bytes) : bool := existsb (fun c => bool_decide (c ∈ chars)) s.

Definition HasSuffix (s q : bytes) : bool := HasPrefix (rev s) (rev q).

Definition CutSuffix (s q : bytes) : option bytes :=
  match strip_prefix (rev q) (rev s) with Some r => Some (rev r) | None => None end.

Definition TrimSuffix (s q : bytes) : bytes := default s (CutSuffix s q).

(** [strings.TrimRight(s, cutset)] and [strings.Trim(s, cutset)] for an ASCII
    cutset. *)
Definition TrimRight (cutset s : bytes) : bytes :=
  rev (trim_front (map (fun c => [c]) cutset) (length s) (rev s)).

Definition Trim (cutset s : bytes) : bytes :=
  TrimRight cutset (trim_front (map (fun c => [c]) cutset) (length s) s).

(** [strings.EqualFold] on ASCII. *)
Definition EqualFold (a b : bytes) : bool := bool_decide (ToLower a = ToLower b).

(** ** Splitting *)

(** [strings.Lines]: each line with its newline; no line after the last one. *)
Fixpoint linesOf (pieces : list bytes) : list bytes :=
  match pieces with
  | [] => []
  | [l] => if bool_decide (l = []) then [] else [l]
  | l :: pieces' => (l ++ [nl]) :: linesOf pieces'
  end.

Definition Lines (s : bytes) : list bytes := linesOf (Split nl s).

(** [strings.Fields]: maximal runs without white space.  A white space rune
    never starts inside another rune, so the scan may go byte by byte. *)
Fixpoint fieldsFrom (fuel : nat) (cur s : bytes) : list bytes :=
  let flush := if bool_decide (cur = []) then [] else [rev cur] in
  match fuel, s with
  | S fuel', c :: s' =>
      match strip_any space_tokens s with
      | Some s'' => flush ++ fieldsFrom fuel' [] s''
      | None => fieldsFrom fuel' (c :: cur) s'
      end
  | _, _ => flush
  end.

Definition Fields (s : bytes) : list bytes := fieldsFrom (length s) [] s.

(** [strings.Split(s, sep)] for a separator that is not empty; each piece but
    the last is followed by one. *)
Fixpoint splitOn (fuel : nat) (sep s : bytes) : list bytes :=
  match fuel with
  | O => [s]
  | S fuel' => match Cut sep s with Some (a, b) => a :: splitOn fuel' sep b | None => [s] end
  end.

Definition SplitStr (sep s : bytes) : list bytes := splitOn (length s) sep s.

(** [filepath.Dir] of a cleaned path that is not directly below the root. *)
Definition PathDir (p : bytes) : bytes :=
  match LastCut (str "/") p with Some (dir, _) => dir | None => str "." end.

(** [strings.Join] *)
Fixpoint JoinStr (sep : bytes) (l : list bytes) : bytes :=
  match l with
  | [] => []
  | [x] => x
  | x :: l' => x ++ sep ++ JoinStr sep l'
  end.

(** [strconv.Atoi]: [int] has 64 bits. *)
Definition Atoi (s : bytes) : option Z := ParseInt s.

(** ** Lemmas *)

Lemma elem_of_rev (c : ascii) s : c ∈ rev s <-> c ∈ s.
Proof. rewrite !list_elem_of_In. symmetry. apply in_rev. Qed.

Lemma Cut_Some sep s a b : Cut sep s = Some (a, b) -> s = a ++ sep ++ b.
Proof.
  revert a b. induction s as [|c s IH]; intros a b; cbn [Cut].
  - destruct (strip_prefix sep []) eqn:E; [|done]. intros [= <- <-].
    by apply strip_prefix_Some in E.
  - destruct (strip_prefix sep (c :: s)) eqn:E.
    + intros [= <- <-]. by apply strip_prefix_Some in E.
    + destruct (Cut sep s) as [[x y]|]; [|done]. intros [= <- <-]. by rewrite (IH x y).
Qed.

(** For a one-character separator the part before it has none. *)
Lemma Cut_char_spec c s a b : Cut [c] s = Some (a, b) <-> s = a ++ c :: b /\ c ∉ a.
Proof.
  split.
  - intros H. split; [by apply Cut_Some in H|]. revert a b H.
    induction s as [|d s IH]; intros a b; cbn [Cut strip_prefix]; [done|].
    destruct (decide (c = d)); [intros [= <- <-]; set_solver|].
    destruct (Cut [c] s) as [[x y]|]; [|done]. intros [= <- <-].
    specialize (IH x y eq_refl). set_solver.
  - intros [-> Hc]. induction a as [|d a IH]; cbn [Cut strip_prefix app].
    + by rewrite decide_True.
    + rewrite decide_False by set_solver. rewrite IH by set_solver. done.
Qed.

Lemma Cut_char_None c s : Cut [c] s = None <-> c ∉ s.
Proof.
  induction s as [|d s IH]; cbn [Cut strip_prefix]; [set_solver|].
  destruct (decide (c = d)) as [->|Hd].
  - split; [done|]. set_solver.
  - destruct (Cut [c] s) as [[x y]|]; (split; [|try done]); rewrite ?not_elem_of_cons; naive_solver.
Qed.

Lemma LastCut_Some sep s a b : LastCut sep s = Some (a, b) -> s = a ++ sep ++ b.
Proof.
  unfold LastCut. destruct (Cut (rev sep) (rev s)) as [[x y]|] eqn:E; [|done]. intros [= <- <-].
  apply Cut_Some in E. rewrite <- (rev_involutive s), E, !rev_app_distr, rev_involutive.
  by rewrite app_assoc.
Qed.

(** For a one-character separator the part after the last one has none. *)
Lemma LastCut_char_spec c s a b : LastCut [c] s = Some (a, b) <-> s = a ++ c :: b /\ c ∉ b.
Proof.
  unfold LastCut. cbn [rev app]. destruct (Cut [c] (rev s)) as [[x y]|] eqn:E.
  - apply Cut_char_spec in E as [E Hx]. split.
    + intros [= <- <-]. split; [|by rewrite elem_of_rev].
      rewrite <- (rev_involutive s), E, rev_app_distr. cbn. by rewrite <- app_assoc.
    + intros [-> Hb]. assert (H : Cut [c] (rev (a ++ c :: b)) = Some (rev b, rev a)).
      { apply Cut_char_spec. rewrite rev_app_distr. cbn. rewrite <- app_assoc. split; [done|].
        by rewrite elem_of_rev. }
      assert (H' : Cut [c] (rev (a ++ c :: b)) = Some (x, y)) by by apply Cut_char_spec.
      rewrite H in H'. injection H' as <- <-. by rewrite !rev_involutive.
  - split; [done|]. intros [-> _]. apply Cut_char_None in E. rewrite elem_of_rev in E. set_solver.
Qed.

Lemma LastCut_char_None c s : LastCut [c] s = None <-> c ∉ s.
Proof.
  unfold LastCut. cbn [rev app].
  destruct (Cut [c] (rev s)) as [[x y]|] eqn:E.
  - split; [done|]. apply Cut_char_spec in E as [E _]. intros Hn. destruct Hn.
    apply elem_of_rev. rewrite E. set_solver.
  - apply Cut_char_None in E. rewrite elem_of_rev in E. by split.
Qed.

Lemma Contains_char s c : Contains s [c] = true <-> c ∈ s.
Proof.
  unfold Contains. destruct (Cut [c] s) as [[a b]|] eqn:E.
  - apply Cut_char_spec in E as [-> _]. set_solver.
  - apply Cut_char_None in E. by split.
Qed.

Lemma JoinStr_cons sep x y l : JoinStr sep (x :: y :: l) = x ++ sep ++ JoinStr sep (y :: l).
Proof. done. Qed.

Lemma CutSuffix_Some s q r : CutSuffix s q = Some r <-> s = r ++ q.
Proof.
  unfold CutSuffix. destruct (strip_prefix (rev q) (rev s)) as [x|] eqn:E.
  - apply strip_prefix_Some in E. assert (s = rev x ++ q) as Hs.
    { rewrite <- (rev_involutive s), E, rev_app_distr. by rewrite rev_involutive. }
    split; [intros [= <-]; done|]. intros ->. apply app_inv_tail in Hs. by subst.
  - split; [done|]. intros ->. rewrite rev_app_distr in E.
    assert (strip_prefix (rev q) (rev q ++ rev r) = Some (rev r)) by by apply strip_prefix_Some.
    congruence.
Qed.

(** *** Words *)

Definition sp : ascii := " "%char.

(** A word: printable and without a space. *)
Definition word (s : bytes) : Prop := s ≠ [] /\ Forall (fun c => plain c = true) s.

(** Text that starts and ends with something printable. *)
Definition trimmed (s : bytes) : Prop := s ≠ [] /\ plain_head s = true /\ plain_head (rev s) = true.

Lemma TrimSpace_trimmed s : trimmed s -> TrimSpace s = s.
Proof. intros (? & ? & ?). by apply TrimSpace_plain. Qed.

Lemma word_trimmed s : word s -> trimmed s.
Proof.
  intros [Hne Hs]. split_and!; [done|by destruct Hs|].
  destruct (rev s) as [|c t] eqn:E; [done|]. cbn. rewrite Forall_forall in Hs. apply Hs.
  apply elem_of_rev. rewrite E. by left.
Qed.

Lemma plain_head_app a b : a ≠ [] -> plain_head (a ++ b) = plain_head a.
Proof. by destruct a. Qed.

(** Only the two ends matter. *)
Lemma trimmed_around a m b : trimmed a -> trimmed b -> trimmed (a ++ m ++ b).
Proof.
  intros (Ha & Hh & _) (Hb & _ & Ht). split_and!.
  - by destruct a.
  - by rewrite plain_head_app.
  - rewrite !rev_app_distr, <- app_assoc, plain_head_app; [done|]. intros Hr. apply Hb.
    by rewrite <- (rev_involutive b), Hr.
Qed.

Lemma trimmed_prefix a b : a ≠ [] -> plain_head a = true -> trimmed b -> trimmed (a ++ b).
Proof.
  intros Ha Hh (Hb & _ & Ht). split_and!; [by destruct a|by rewrite plain_head_app|].
  rewrite rev_app_distr, plain_head_app; [done|]. intros Hr. apply Hb. by rewrite <- (rev_involutive b), Hr.
Qed.

Lemma trimmed_app a b : trimmed a -> trimmed b -> trimmed (a ++ b).
Proof. apply (trimmed_around a [] b). Qed.

Lemma trimmed_char c : plain c = true -> trimmed [c].
Proof. by intros H. Qed.

Lemma TrimSpace_sp s : TrimSpace (sp :: s) = TrimSpace s.
Proof. reflexivity. Qed.

Lemma word_no_sp s : word s -> sp ∉ s.
Proof. intros [_ Hs] Hin. rewrite Forall_forall in Hs. by apply Hs in Hin. Qed.

Lemma word_app a b : word a -> word b -> word (a ++ b).
Proof. intros [? ?] [? ?]. split; [by destruct a|by apply Forall_app]. Qed.

Lemma TrimSpace_sp_end s : trimmed s -> TrimSpace (s ++ [sp]) = s.
Proof.
  intros (Hne & Hh & Ht). unfold TrimSpace, TrimLeftSpace.
  rewrite (trim_front_plain space_tokens _ (s ++ [sp])); [|by vm_compute|by rewrite plain_head_app|by destruct s].
  unfold TrimRightSpace. rewrite rev_app_distr, length_app, Nat.add_comm. cbn [rev app length Nat.add trim_front].
  assert (strip_any (map (@rev ascii) space_tokens) (sp :: rev s) = Some (rev s)) as -> by reflexivity.
  rewrite trim_front_plain; [apply rev_involutive|by vm_compute|done|].
  intros Hr. apply Hne. by rewrite <- (rev_involutive s), Hr.
Qed.
