(* ===== verification/GoOS.v ===== *)
(** * GoOS: the disk, the clock and the failures the agent runs against

    The update packages read and write a handful of files, and their
    correctness is about what is left behind when one of those operations
    fails or when the process dies half way.  A [world] is a disk, a clock and
    a script of faults; every operation of package [os] the agent calls
    consumes one entry of that script:

    - [Proceed]: the operation does what its documentation says;
    - [Fails k]: it returns an error, having done [k] units of its work;
    - [Dies k]: the process is gone, having done [k] units of its work.

    Only writing is divisible: [k] counts the bytes that reached the file (0:
    not even opened).  A rename is atomic.  An exhausted script means
    [Proceed].

    A death is the death of the process: what completed calls wrote stays.
    The loss of data that was never synced, when the whole machine goes down,
    is not represented, and [Sync] therefore changes nothing.  A death between
    two calls is [Dies 0] at the second; a death after the last call leaves
    the disk of the return, of which the postcondition speaks.

    [wp] is a crash-aware weakest precondition: it relates a program to a
    postcondition for its return and to a condition of the disk that must hold
    if the process dies at any point. *)
From S2P Require Import Prelude.
From Stdlib Require String.

Abbreviation path := (list ascii).

(** ** Errors

    A sentinel is what [errors.New] makes; [Errorf ctx e] is
    [fmt.Errorf("%w: ctx", e)]; [Join] is [errors.Join].  [Is] is [errors.Is]
    against a sentinel. *)
Inductive error : Type :=
  | Sentinel (msg : String.string)
  | Errorf (ctx : String.string) (e : error)
  | JoinErr (a b : error).
Arguments Sentinel msg%_string.
Arguments Errorf ctx%_string e.

Fixpoint Is (e target : error) : bool :=
  match e, target with
  | Sentinel m, Sentinel n => bool_decide (m = n)
  | Errorf _ e', _ => Is e' target
  | JoinErr a b, _ => Is a target || Is b target
  | _, _ => false
  end.

Definition ErrNotExist : error := Sentinel "file does not exist".
Definition ErrIO : error := Sentinel "input/output error".
Definition IsNotExist (e : error) : bool := Is e ErrNotExist.

Lemma Is_IO_NotExist : Is ErrIO ErrNotExist = false.
Proof. reflexivity. Qed.
Lemma Is_NotExist : Is ErrNotExist ErrNotExist = true.
Proof. reflexivity. Qed.

(** ** The world *)

Record file := File {
  f_data : bytes;
  f_reg : bool;      (** [fi.Mode().IsRegular()] *)
  f_mode : Z;        (** permission bits *)
}.

Inductive fault : Type := Proceed | Fails (k : nat) | Dies (k : nat).

Abbreviation disk := (gmap (list ascii) file).

Record world := World {
  files : disk;
  clock : Z;              (** what the next [time.Now()] returns *)
  ticks : list Z;         (** how far the clock moves at each reading *)
  faults : list fault;
}.

Inductive outcome (A : Type) : Type := Ret (a : A) | Died.
Arguments Ret {A} a.
Arguments Died {A}.

Definition io (A : Type) : Type := world -> outcome A * world.

Definition ret {A} (a : A) : io A := fun w => (Ret a, w).

Definition bind {A B} (m : io A) (k : A -> io B) : io B := fun w =>
  match m w with
  | (Ret a, w') => k a w'
  | (Died, w') => (Died, w')
  end.

(** [r, err := m; if err != nil { return err }]. *)
Definition try {A B} (m : io (res error A)) (k : A -> io (res error B)) : io (res error B) :=
  bind m (fun r => match r with Ok a => k a | Err e => ret (Err e) end).

(** The same with [err] wrapped on its way out. *)
Definition try_as {A B} (f : error -> error) (m : io (res error A))
    (k : A -> io (res error B)) : io (res error B) :=
  bind m (fun r => match r with Ok a => k a | Err e => ret (Err (f e)) end).

Notation "'let*' x := m 'in' k" := (bind m (fun x => k))
  (at level 10, x binder, m at level 100, k at level 200) : everwas_scope.
Notation "'try*' x := m 'in' k" := (try m (fun x => k))
  (at level 10, x binder, m at level 100, k at level 200) : everwas_scope.
Notation "'try*' x := m 'orelse' f 'in' k" := (try_as f m (fun x => k))
  (at level 10, x binder, m at level 100, f at level 100, k at level 200) : everwas_scope.
Open Scope everwas_scope.

(** ** Operations *)

Definition on_disk (w : world) (d : disk) : world := World d (clock w) (ticks w) (faults w).

Definition with_faults (w : world) (fs : list fault) : world :=
  World (files w) (clock w) (ticks w) fs.

(** One fallible system call: [full] is its effect when it completes,
    [part k] the disk after [k] units of work. *)
Definition syscall {A} (full : disk -> res error A * disk) (part : nat -> disk -> disk) :
    io (res error A) := fun w =>
  match faults w with
  | Fails k :: fs => (Ret (Err ErrIO), World (part k (files w)) (clock w) (ticks w) fs)
  | Dies k :: fs => (Died, World (part k (files w)) (clock w) (ticks w) fs)
  | Proceed :: fs =>
      let '(r, d) := full (files w) in (Ret r, World d (clock w) (ticks w) fs)
  | [] => let '(r, d) := full (files w) in (Ret r, World d (clock w) (ticks w) [])
  end.

Definition atomic (_ : nat) (d : disk) : disk := d.

Definition ReadFile (p : path) : io (res error bytes) :=
  syscall (fun d => (match d !! p with Some f => Ok (f_data f) | None => Err ErrNotExist end, d)) atomic.

Definition Stat (p : path) : io (res error file) :=
  syscall (fun d => (match d !! p with Some f => Ok f | None => Err ErrNotExist end, d)) atomic.

(** The file a truncating write leaves: an existing file keeps its mode. *)
Definition written (d : disk) (p : path) (data : bytes) (mode : Z) : file :=
  match d !! p with
  | Some f => File data (f_reg f) (f_mode f)
  | None => File data true mode
  end.

Definition WriteFile (p : path) (data : bytes) (mode : Z) : io (res error unit) :=
  syscall (fun d => (Ok tt, <[p := written d p data mode]> d))
    (fun k d => match k with
                | O => d
                | S k' => <[p := written d p (take k' data) mode]> d
                end).

(** [O_CREATE|O_WRONLY|O_APPEND], written to and closed. *)
Definition extended (d : disk) (p : path) (data : bytes) (mode : Z) : file :=
  match d !! p with
  | Some f => File (f_data f ++ data) (f_reg f) (f_mode f)
  | None => File data true mode
  end.

Definition AppendFile (p : path) (data : bytes) (mode : Z) : io (res error unit) :=
  syscall (fun d => (Ok tt, <[p := extended d p data mode]> d))
    (fun k d => match k with
                | O => d
                | S k' => <[p := extended d p (take k' data) mode]> d
                end).

Definition Rename (a b : path) : io (res error unit) :=
  syscall (fun d => match d !! a with
                    | Some f => (Ok tt, <[b := f]> (delete a d))
                    | None => (Err ErrNotExist, d)
                    end) atomic.

Definition Remove (p : path) : io (res error unit) :=
  syscall (fun d => match d !! p with
                    | Some _ => (Ok tt, delete p d)
                    | None => (Err ErrNotExist, d)
                    end) atomic.

Definition Chmod (p : path) (mode : Z) : io (res error unit) :=
  syscall (fun d => match d !! p with
                    | Some f => (Ok tt, <[p := File (f_data f) (f_reg f) mode]> d)
                    | None => (Err ErrNotExist, d)
                    end) atomic.

(** Directories are not represented; a missing or unwritable one is a fault
    of the operation that needs it.  Where it matters that one exists and is
    empty ([Identity], the migration), it has an entry of its own. *)
Definition MkdirAll (_ : path) : io (res error unit) := syscall (fun d => (Ok tt, d)) atomic.

(** [fsync] and [close] change no file but can fail. *)
Definition Sync (_ : path) : io (res error unit) := syscall (fun d => (Ok tt, d)) atomic.

Definition Now : io Z := fun w =>
  match ticks w with
  | dt :: ts => (Ret (clock w), World (files w) (clock w + dt) ts (faults w))
  | [] => (Ret (clock w), w)
  end.

(** [for _, p := range ps { if err := os.Remove(p); err != nil &&
    !os.IsNotExist(err) { return wrap(err) } }]. *)
Fixpoint RemoveAll (wrap : error -> error) (ps : list path) : io (res error unit) :=
  match ps with
  | [] => ret (Ok tt)
  | p :: ps' =>
      let* r := Remove p in
      match r with
      | Err e => if IsNotExist e then RemoveAll wrap ps' else ret (Err (wrap e))
      | Ok _ => RemoveAll wrap ps'
      end
  end.

(** [_ = m]: the error is deliberately dropped. *)
Definition ignore {A} (m : io (res error A)) : io unit := let* _ := m in ret tt.

(** Replace a file by writing a sibling and renaming it into place. *)
Definition WriteRename (p : path) (data : bytes) (mode : Z) (wrap1 wrap2 : error -> error) :
    io (res error unit) :=
  let tmp := p ++ str ".tmp" in
  try* _ := WriteFile tmp data mode orelse wrap1 in
  try* _ := Rename tmp p orelse wrap2 in
  ret (Ok tt).

(** ** Crash-aware weakest preconditions *)

Definition wp {A} (m : io A) (Q : A -> world -> Prop) (C : disk -> Prop) (w : world) : Prop :=
  match m w with
  | (Ret a, w') => Q a w'
  | (Died, w') => C (files w')
  end.

Lemma wp_bind {A B} (m : io A) (k : A -> io B) Q C w :
  wp m (fun a w' => wp (k a) Q C w') C w -> wp (bind m k) Q C w.
Proof. unfold wp, bind. destruct (m w) as [[a|] w']; done. Qed.

Section wp.
Context {A B : Type}.
Implicit Types (C : disk -> Prop).

Lemma wp_ret (a : A) (Q : A -> world -> Prop) C w : Q a w -> wp (ret a) Q C w.
Proof. done. Qed.

Lemma wp_try (m : io (res error A)) (k : A -> io (res error B)) Q C w :
  wp m (fun r w' => match r with Ok a => wp (k a) Q C w' | Err e => Q (Err e) w' end) C w ->
  wp (try m k) Q C w.
Proof.
  intros H. unfold try, try_as. apply wp_bind. revert H. unfold wp. destruct (m w) as [[[a|e]|] w']; done.
Qed.

Lemma wp_try_as f (m : io (res error A)) (k : A -> io (res error B)) Q C w :
  wp m (fun r w' => match r with Ok a => wp (k a) Q C w' | Err e => Q (Err (f e)) w' end) C w ->
  wp (try_as f m k) Q C w.
Proof.
  intros H. unfold try, try_as. apply wp_bind. revert H. unfold wp. destruct (m w) as [[[a|e]|] w']; done.
Qed.

Lemma wp_mono (m : io A) (Q Q' : A -> world -> Prop) C C' w :
  wp m Q C w -> (forall a w', Q a w' -> Q' a w') -> (forall d, C d -> C' d) -> wp m Q' C' w.
Proof. unfold wp. destruct (m w) as [[a|] w']; auto. Qed.

(** A system call: completed, failed part way, or interrupted part way. *)
Lemma wp_syscall full part (Q : res error A -> world -> Prop) C w :
  (forall fs, Q (full (files w)).1 (World (full (files w)).2 (clock w) (ticks w) fs)) ->
  (forall k fs, Q (Err ErrIO) (World (part k (files w)) (clock w) (ticks w) fs)) ->
  (forall k, C (part k (files w))) ->
  wp (syscall full part) Q C w.
Proof.
  intros Hfull Hfail Hdie. unfold wp, syscall.
  destruct (full (files w)) as [r d] eqn:E. simpl in Hfull.
  destruct (faults w) as [|[|k|k] fs]; simpl; auto.
Qed.

Lemma wp_Now (Q : Z -> world -> Prop) C w :
  (forall c ts, Q (clock w) (World (files w) c ts (faults w))) -> wp Now Q C w.
Proof.
  intros H. unfold wp, Now. destruct (ticks w) as [|dt ts] eqn:E; [|apply H].
  specialize (H (clock w) (ticks w)). by destruct w.
Qed.
End wp.

Section wp_ops.
Implicit Types (C : disk -> Prop) (w : world).

Lemma wp_ReadFile p (Q : res error bytes -> world -> Prop) C w :
  (forall fs, Q (match files w !! p with Some f => Ok (f_data f) | None => Err ErrNotExist end)
                (with_faults w fs)) ->
  (forall fs, Q (Err ErrIO) (with_faults w fs)) ->
  C (files w) -> wp (ReadFile p) Q C w.
Proof. intros. apply wp_syscall; auto. Qed.

Lemma wp_Stat p (Q : res error file -> world -> Prop) C w :
  (forall fs, Q (match files w !! p with Some f => Ok f | None => Err ErrNotExist end)
                (with_faults w fs)) ->
  (forall fs, Q (Err ErrIO) (with_faults w fs)) ->
  C (files w) -> wp (Stat p) Q C w.
Proof. intros. apply wp_syscall; auto. Qed.

Lemma wp_MkdirAll p (Q : res error unit -> world -> Prop) C w :
  (forall fs, Q (Ok tt) (with_faults w fs)) ->
  (forall fs, Q (Err ErrIO) (with_faults w fs)) ->
  C (files w) -> wp (MkdirAll p) Q C w.
Proof. intros. apply wp_syscall; auto. Qed.

Lemma wp_Sync p (Q : res error unit -> world -> Prop) C w :
  (forall fs, Q (Ok tt) (with_faults w fs)) ->
  (forall fs, Q (Err ErrIO) (with_faults w fs)) ->
  C (files w) -> wp (Sync p) Q C w.
Proof. intros. apply wp_syscall; auto. Qed.

(** Writing only ever touches the file written. *)
Lemma wp_WriteFile p data mode (Q : res error unit -> world -> Prop) C w :
  (forall fs, Q (Ok tt) (World (<[p := written (files w) p data mode]> (files w))
                           (clock w) (ticks w) fs)) ->
  (forall d fs, (d = files w \/ exists f, d = <[p := f]> (files w)) ->
     Q (Err ErrIO) (World d (clock w) (ticks w) fs) /\ C d) ->
  wp (WriteFile p data mode) Q C w.
Proof.
  intros Hok Hbad. apply wp_syscall; [done| |];
    intros [|k]; intros; apply (Hbad _ []) || apply Hbad; eauto.
Qed.

Lemma wp_AppendFile p data mode (Q : res error unit -> world -> Prop) C w :
  (forall fs, Q (Ok tt) (World (<[p := extended (files w) p data mode]> (files w))
                           (clock w) (ticks w) fs)) ->
  (forall d fs, (d = files w \/ exists f, d = <[p := f]> (files w)) ->
     Q (Err ErrIO) (World d (clock w) (ticks w) fs) /\ C d) ->
  wp (AppendFile p data mode) Q C w.
Proof.
  intros Hok Hbad. apply wp_syscall; [done| |];
    intros [|k]; intros; apply (Hbad _ []) || apply Hbad; eauto.
Qed.

Lemma wp_Rename a b (Q : res error unit -> world -> Prop) C w :
  (forall f fs, files w !! a = Some f ->
     Q (Ok tt) (World (<[b := f]> (delete a (files w))) (clock w) (ticks w) fs)) ->
  (forall e fs, Q (Err e) (with_faults w fs)) ->
  C (files w) -> wp (Rename a b) Q C w.
Proof.
  intros Hok Hbad HC. apply wp_syscall; [|intros; apply Hbad|auto].
  intros fs. cbn beta. destruct (files w !! a) eqn:E; [by apply Hok | apply Hbad].
Qed.

Lemma wp_Remove p (Q : res error unit -> world -> Prop) C w :
  (forall fs, Q (Ok tt) (World (delete p (files w)) (clock w) (ticks w) fs)) ->
  (forall e fs, (e = ErrNotExist -> files w !! p = None) -> Q (Err e) (with_faults w fs)) ->
  C (files w) -> wp (Remove p) Q C w.
Proof.
  intros Hok Hbad HC. apply wp_syscall; [| |auto].
  - intros fs. cbn beta. destruct (files w !! p) eqn:E; simpl; [auto|]. by apply Hbad.
  - intros. by apply Hbad.
Qed.

Lemma wp_Chmod p mode (Q : res error unit -> world -> Prop) C w :
  (forall f fs, files w !! p = Some f ->
     Q (Ok tt) (World (<[p := File (f_data f) (f_reg f) mode]> (files w)) (clock w) (ticks w) fs)) ->
  (forall e fs, Q (Err e) (with_faults w fs)) ->
  C (files w) -> wp (Chmod p mode) Q C w.
Proof.
  intros Hok Hbad HC. apply wp_syscall; [|intros; apply Hbad|auto].
  intros fs. cbn beta. destruct (files w !! p) eqn:E; [by apply Hok | apply Hbad].
Qed.
End wp_ops.

(** ** Frames: which files an operation may touch *)

Definition frame (ps : list path) (d d' : disk) : Prop := forall p, p ∉ ps -> d' !! p = d !! p.

Lemma frame_refl ps d : frame ps d d.
Proof. done. Qed.

Lemma frame_trans ps d1 d2 d3 : frame ps d1 d2 -> frame ps d2 d3 -> frame ps d1 d3.
Proof. unfold frame. intros H1 H2 p Hp. rewrite H2, H1; done. Qed.

Lemma frame_weaken ps ps' d d' : ps ⊆ ps' -> frame ps d d' -> frame ps' d d'.
Proof. unfold frame. intros Hs H p Hp. apply H. set_solver. Qed.

Lemma frame_insert ps d p f : p ∈ ps -> frame ps d (<[p := f]> d).
Proof. intros Hp q Hq. rewrite lookup_insert_ne; [done|]. intros ->. done. Qed.

Lemma frame_delete ps d p : p ∈ ps -> frame ps d (delete p d).
Proof. intros Hp q Hq. rewrite lookup_delete_ne; [done|]. intros ->. done. Qed.

Lemma frame_write ps d d' p :
  p ∈ ps -> (d' = d \/ exists f, d' = <[p := f]> d) -> frame ps d d'.
Proof. intros Hp [->|[f ->]]; [done | by apply frame_insert]. Qed.

Lemma frame_lookup ps d d' p : frame ps d d' -> p ∉ ps -> d' !! p = d !! p.
Proof. intros H Hp. by apply H. Qed.

#[global] Instance frame_preorder ps : PreOrder (frame ps).
Proof. split; [intros d; apply frame_refl | intros d1 d2 d3; apply frame_trans]. Qed.

#[export] Hint Resolve frame_refl frame_insert frame_delete frame_write : everwas.

(** Apply the rule of the next system call. *)
Ltac wp_step :=
  cbn beta iota zeta;
  let fs := fresh "fs" in let d := fresh "d" in let Hd := fresh "Hd" in
  let f := fresh "f" in let Hf := fresh "Hf" in let e := fresh "e" in
  let He := fresh "He" in let c := fresh "c" in let ts := fresh "ts" in
  lazymatch goal with
  | |- wp (bind _ _) _ _ _ => apply wp_bind
  | |- wp (try _ _) _ _ _ => apply wp_try
  | |- wp (try_as _ _ _) _ _ _ => apply wp_try_as
  | |- wp (ret _) _ _ _ => apply wp_ret
  | |- wp (ignore _) _ _ _ => unfold ignore; apply wp_bind
  | |- wp (ReadFile _) _ _ _ => apply wp_ReadFile; [intros fs|intros fs|]
  | |- wp (Stat _) _ _ _ => apply wp_Stat; [intros fs|intros fs|]
  | |- wp (MkdirAll _) _ _ _ => apply wp_MkdirAll; [intros fs|intros fs|]
  | |- wp (Sync _) _ _ _ => apply wp_Sync; [intros fs|intros fs|]
  | |- wp (WriteFile _ _ _) _ _ _ => apply wp_WriteFile; [intros fs|intros d fs Hd]
  | |- wp (AppendFile _ _ _) _ _ _ => apply wp_AppendFile; [intros fs|intros d fs Hd]
  | |- wp (Rename _ _) _ _ _ => apply wp_Rename; [intros f fs Hf|intros e fs|]
  | |- wp (Remove _) _ _ _ => apply wp_Remove; [intros fs|intros e fs He|]
  | |- wp (Chmod _ _) _ _ _ => apply wp_Chmod; [intros f fs Hf|intros e fs|]
  | |- wp Now _ _ _ => apply wp_Now; intros c ts
  end; cbn [files clock ticks with_faults on_disk] in *.

(** [WriteRename] replaces the file atomically. *)
Lemma wp_WriteRename p data mode f1 f2 (Q : res error unit -> world -> Prop) C w :
  (forall d fs f, frame [p ++ str ".tmp"; p] (files w) d -> d !! p = Some f -> f_data f = data ->
     Q (Ok tt) (World d (clock w) (ticks w) fs)) ->
  (forall d fs e, frame [p ++ str ".tmp"] (files w) d ->
     Q (Err e) (World d (clock w) (ticks w) fs) /\ C d) ->
  wp (WriteRename p data mode f1 f2) Q C w.
Proof.
  intros Hok Hbad. unfold WriteRename.
  assert (Hmem : p ++ str ".tmp" ∈ [p ++ str ".tmp"]) by set_solver.
  wp_step. wp_step.
  2: { specialize (Hbad d fs). split; apply Hbad; eauto using frame_write.
       exact ErrIO. }
  set (d1 := <[_ := _]> _).
  assert (Hd1 : frame [p ++ str ".tmp"] (files w) d1) by (by apply frame_insert).
  wp_step. wp_step; [|by apply Hbad|by apply (Hbad _ [] ErrIO)].
  wp_step. eapply Hok; [|by rewrite lookup_insert_eq|].
  - apply (frame_trans _ _ d1); [eapply frame_weaken; [|done]; set_solver|].
    apply (frame_trans _ _ (delete (p ++ str ".tmp") d1));
      [apply frame_delete | apply frame_insert]; set_solver.
  - unfold d1 in Hf. rewrite lookup_insert_eq in Hf. injection Hf as <-.
    unfold written. by destruct (files w !! _).
Qed.

(** Reduce a lookup through the updates an operation made. *)
Ltac map_solve :=
  repeat first
    [ rewrite lookup_insert_eq
    | rewrite lookup_delete_eq
    | rewrite lookup_insert_ne by (eauto with everwas || congruence)
    | rewrite lookup_delete_ne by (eauto with everwas || congruence) ];
  eauto with everwas.

(** Running an operation on a world with no faults left. *)
Lemma bind_Ret {A B} (m : io A) (k : A -> io B) w a w' :
  m w = (Ret a, w') -> bind m k w = k a w'.
Proof. unfold bind. by intros ->. Qed.

Lemma try_Ok {A B} (m : io (res error A)) (k : A -> io (res error B)) w a w' :
  m w = (Ret (Ok a), w') -> try m k w = k a w'.
Proof. unfold try, bind. by intros ->. Qed.

Lemma wp_run {A} (m : io A) Q C w a w' : m w = (Ret a, w') -> wp m Q C w -> Q a w'.
Proof. unfold wp. by intros ->. Qed.

Lemma wp_died {A} (m : io A) Q C w w' : m w = (Died, w') -> wp m Q C w -> C (files w').
Proof. unfold wp. by intros ->. Qed.
