(* ===== verification/Env.v ===== *)
(** * Env: the environment a child process inherits

    scripts/env.go and patch/env.go filter the host's environment with the
    same code over two allowlists; it is here once, over any allowlist. *)
From S2P Require Import Prelude GoLib.
From Stdlib Require Import Sorted.

(** [strings.Cut(s, "=")]. *)
Fixpoint cutEq (s : bytes) : option (bytes * bytes) :=
  match s with
  | [] => None
  | c :: s' =>
      if decide (c = "="%char) then Some ([], s')
      else match cutEq s' with
           | Some (k, v) => Some (c :: k, v)
           | None => None
           end
  end.

Definition forges (k : bytes) : bool :=
  bool_decide (k = []) || bool_decide ("="%char ∈ k) || bool_decide (chr 0 ∈ k).

Definition keepExtra (kept : gmap bytes bytes) (kv : bytes * bytes) : gmap bytes bytes :=
  if forges (kv.1) then kept else <[kv.1 := kv.2]> kept.

(** Byte-wise order, that of [sort.Strings]. *)
Fixpoint bytes_le (a b : bytes) : bool :=
  match a, b with
  | [], _ => true
  | _ :: _, [] => false
  | x :: a', y :: b' => (code x <? code y) || ((code x =? code y) && bytes_le a' b')
  end.

Fixpoint sortInsert (x : bytes) (l : list bytes) : list bytes :=
  match l with
  | [] => [x]
  | y :: l' => if bytes_le x y then x :: l else y :: sortInsert x l'
  end.

Definition sortStrings (l : list bytes) : list bytes := foldr sortInsert [] l.

(** ** scrubEnv *)

Section scrub.
Context (allowed : bytes -> bool).

Definition keepHost (kept : gmap bytes bytes) (kv : bytes) : gmap bytes bytes :=
  match cutEq kv with
  | None => kept
  | Some (k, v) =>
      if bool_decide (k = []) || negb (allowed (ToLower k)) then kept else <[k := v]> kept
  end.

(** [scrubEnv] over an allowlist; the map of extras is iterated in some order, which cannot
    matter since its keys are distinct. *)
Definition scrubWith (hostEnv : list bytes) (extra : gmap bytes bytes) : list bytes :=
  let kept := fold_left keepHost hostEnv ∅ in
  let kept := fold_left keepExtra (map_to_list extra) kept in
  sortStrings (map (fun kv => kv.1 ++ str "=" ++ kv.2) (map_to_list kept)).

End scrub.

(** ** Lemmas *)

Lemma cutEq_Some s k v : cutEq s = Some (k, v) -> s = k ++ "="%char :: v /\ "="%char ∉ k.
Proof.
  revert k. induction s as [|c s IH]; intros k; cbn [cutEq]; [done|].
  case_decide as Hc; [intros [= <- <-]; subst; split; [done | apply not_elem_of_nil]|].
  destruct (cutEq s) as [[k' v']|]; [|done]. intros [= <- <-].
  destruct (IH k' eq_refl) as [-> Hk]. split; [done|]. apply not_elem_of_cons. done.
Qed.

Lemma lookup_keepExtra (l : list (bytes * bytes)) (m : gmap bytes bytes) (k : bytes) :
  NoDup l.*1 ->
  fold_left keepExtra l m !! k =
  match (list_to_map l : gmap bytes bytes) !! k with
  | Some v => if forges k then m !! k else Some v
  | None => m !! k
  end.
Proof.
  revert m. induction l as [|[k' v'] l IH]; intros m Hnd; [done|].
  cbn [fold_left list_to_map foldr fst snd uncurry]. apply NoDup_cons in Hnd as [Hn Hnd].
  rewrite IH by done. unfold keepExtra. cbn [fst snd].
  destruct (decide (k' = k)) as [->|Hne].
  - rewrite lookup_insert_eq. rewrite (not_elem_of_list_to_map_1 l k) by done.
    destruct (forges k); [done | by rewrite lookup_insert_eq].
  - rewrite lookup_insert_ne by done.
    destruct (forges k'); [done|]. by rewrite lookup_insert_ne by done.
Qed.

Lemma sortInsert_perm x l : sortInsert x l ≡ₚ x :: l.
Proof.
  induction l as [|y l IH]; [done|]. cbn [sortInsert]. destruct (bytes_le x y); [done|].
  rewrite IH. apply Permutation_swap.
Qed.

Lemma sortStrings_perm l : sortStrings l ≡ₚ l.
Proof. induction l as [|x l IH]; [done|]. cbn. by rewrite sortInsert_perm, IH. Qed.

Lemma bytes_le_total a b : bytes_le a b = false -> bytes_le b a = true.
Proof.
  revert b. induction a as [|x a IH]; intros [|y b]; cbn [bytes_le]; try done.
  intros [H1 H2]%orb_false_iff. destruct (Z.eqb_spec (code x) (code y)) as [E|E].
  - rewrite E, Z.eqb_refl, Z.ltb_irrefl. simpl in *. by apply IH.
  - destruct (Z.ltb_spec (code y) (code x)); [done|]. lia.
Qed.

Lemma sortStrings_sorted l : Sorted (fun a b => bytes_le a b = true) (sortStrings l).
Proof.
  assert (Hins : forall x l, Sorted (fun a b => bytes_le a b = true) l ->
    Sorted (fun a b => bytes_le a b = true) (sortInsert x l)).
  { intros x l0 Hl. induction Hl as [|y l0 Hl IH Hh]; cbn [sortInsert]; [by repeat constructor|].
    destruct (bytes_le x y) eqn:E; [by repeat constructor|].
    constructor; [done|]. destruct l0 as [|z l0]; cbn [sortInsert].
    - constructor. by apply bytes_le_total.
    - destruct (bytes_le x z); constructor; [by apply bytes_le_total|by inversion Hh]. }
  induction l as [|x l IH]; [constructor|]. cbn. by apply Hins.
Qed.

Section scrub_lemmas.
Context (allowed : bytes -> bool).
Local Abbreviation keepHost := (keepHost allowed).
Local Abbreviation scrubWith := (scrubWith allowed).

Lemma lookup_keepHost (host : list bytes) (m : gmap bytes bytes) (k v : bytes) :
  fold_left keepHost host m !! k = Some v ->
  m !! k = Some v \/
  (k ≠ [] /\ "="%char ∉ k /\ allowed (ToLower k) = true /\ k ++ "="%char :: v ∈ host).
Proof.
  revert m. induction host as [|kv host IH]; intros m; [by left|]. cbn [fold_left].
  intros [Hm|Hr]%IH; [|right; set_solver].
  unfold keepHost in Hm. destruct (cutEq kv) as [[k' v']|] eqn:E; [|by left].
  apply cutEq_Some in E as [-> Hk'].
  destruct (bool_decide (k' = []) || negb (allowed (ToLower k'))) eqn:B; [by left|].
  bool_cases. destruct (decide (k' = k)) as [->|Hne].
  - rewrite lookup_insert_eq in Hm. injection Hm as ->. right. set_solver.
  - rewrite lookup_insert_ne in Hm by done. by left.
Qed.

Lemma scrubWith_spec (host : list bytes) (extra : gmap bytes bytes) :
  let kept (k v : bytes) := k ++ "="%char :: v ∈ scrubWith host extra in
  (forall e, e ∈ scrubWith host extra -> exists k v, e = k ++ "="%char :: v /\ k ≠ [] /\ "="%char ∉ k /\
     (extra !! k = Some v \/
      (allowed (ToLower k) = true /\ (extra !! k = None \/ forges k = true) /\
       k ++ "="%char :: v ∈ host))) /\
  (forall k v, extra !! k = Some v -> forges k = false -> kept k v) /\
  Sorted (fun a b => bytes_le a b = true) (scrubWith host extra).
Proof.
  unfold scrubWith. set (base := fold_left keepHost host ∅).
  set (kept := fold_left keepExtra (map_to_list extra) base).
  assert (Hlk : forall k, kept !! k = match extra !! k with
    | Some v => if forges k then base !! k else Some v | None => base !! k end).
  { intros k. unfold kept. rewrite lookup_keepExtra by apply NoDup_fst_map_to_list.
    by rewrite list_to_map_to_list. }
  assert (Hin : forall e, e ∈ sortStrings (map (fun kv => kv.1 ++ str "=" ++ kv.2) (map_to_list kept)) <->
    exists k v, e = k ++ "="%char :: v /\ kept !! k = Some v).
  { intros e. rewrite sortStrings_perm, list_elem_of_fmap. split.
    - intros ([k v] & -> & Hkv). exists k, v. split; [done|]. by apply elem_of_map_to_list.
    - intros (k & v & -> & Hkv). exists (k, v). split; [done|]. by apply elem_of_map_to_list. }
  assert (Hbase : forall k v, base !! k = Some v -> k ≠ [] /\ "="%char ∉ k /\
    allowed (ToLower k) = true /\ k ++ "="%char :: v ∈ host).
  { intros k v Hb. apply lookup_keepHost in Hb as [Hb|Hb]; [by rewrite lookup_empty in Hb | done]. }
  split_and!; [|intros k v He Hf; apply Hin; exists k, v; by rewrite Hlk, He, Hf|apply sortStrings_sorted].
  intros e (k & v & -> & Hk)%Hin. exists k, v. split; [done|]. rewrite Hlk in Hk.
  destruct (extra !! k) as [v'|] eqn:E.
  - destruct (forges k) eqn:F; [destruct (Hbase k v Hk) as (? & ? & ? & ?); auto 10|].
    injection Hk as ->. unfold forges in F. bool_cases. auto.
  - destruct (Hbase k v Hk) as (? & ? & ? & ?). auto 10.
Qed.
End scrub_lemmas.
