(* ===== verification/Swap.v ===== *)
(** * Swap: replacing the running binary (agent/internal/update/swap.go,
    swap_unix.go, swap_windows.go)

    [Swap] stages the new binary next to the target, moves the current one
    aside and renames the new one in.  [RestoreBackup] is the way back.  The
    platform decides where the backup lives and whether a helper process can
    finish a refused swap; [Platform] is that interface, and the theorems are
    proved against it. *)
From S2P Require Import Prelude GoLib GoOS.

Definition ErrSwap : error := Sentinel "update: binary swap failed".
Definition ErrNoBackup : error := Sentinel "update: no backup binary to restore".
Definition ErrNoFinalizer : error :=
  Sentinel "update: external finalizer is not used on this platform".
Definition ErrSameFilenames : error :=
  Sentinel "update: staged artifact and target are the same file".

Record SwapResult := { sr_Target : path; sr_Backup : path }.

(** The staging name [Swap] uses next to the target. *)
Definition tmpPath (target : path) : path := target ++ str ".new".

Class Platform := {
  BackupPath : path -> path;
  ExeExt : bytes;            (** the executable extension of [runtime.GOOS] *)
  NeedsFinalizer : bool;
  SpawnFinalizer : path -> path -> path -> bytes -> io (res error Z);
  BackupPath_ne : forall t, BackupPath t ≠ t;
  BackupPath_tmp : forall t, BackupPath t ≠ tmpPath t;
  SpawnFinalizer_frame : forall staged target dir version w,
    wp (SpawnFinalizer staged target dir version)
      (fun _ w' => files w' = files w) (fun d => d = files w) w;
}.

(** ** Platforms *)

Definition unix_BackupPath (target : path) : path := target ++ str ".old".

Definition unix_SpawnFinalizer (staged target stateDir version : bytes) : io (res error Z) :=
  ret (Err ErrNoFinalizer).

#[export] Program Instance unix_platform : Platform := {|
  BackupPath := unix_BackupPath;
  ExeExt := [];
  NeedsFinalizer := false;
  SpawnFinalizer := unix_SpawnFinalizer;
|}.
Next Obligation. intros t. by apply app_suffix_ne. Qed.
Next Obligation. intros t H. by apply app_inv_head in H. Qed.
Next Obligation. done. Qed.

Definition ends_exe (target : path) : bool :=
  bool_decide (ToLower (drop (length target - 4) target) = str ".exe").

Definition windows_BackupPath (target : path) : path :=
  (if ends_exe target then take (length target - 4) target else target) ++ str ".old.exe".

(** [exec.Cmd.Start] is the operating system's: whether it starts, which
    process id it gives and whether its handle can be released is an
    argument. *)
Definition windows_SpawnFinalizer (start : path -> option (Z * bool))
    (staged target stateDir version : bytes) : io (res error Z) :=
  if bool_decide (staged = []) || bool_decide (target = [])
  then ret (Err (Errorf "empty staged or target path" ErrSwap))
  else match start staged with
       | Some (pid, true) => ret (Ok pid)
       | Some (_, false) => ret (Err (Errorf "release finalizer" ErrSwap))
       | None => ret (Err (Errorf "spawn finalizer" ErrSwap))
       end.

Lemma windows_BackupPath_ne t : windows_BackupPath t ≠ t.
Proof.
  unfold windows_BackupPath, ends_exe. case_bool_decide as He; [|by apply app_suffix_ne].
  intros Ht%(f_equal length). rewrite length_app, length_take in Ht.
  apply (f_equal length) in He. unfold ToLower in He. rewrite length_map, length_drop in He.
  cbn in He, Ht. lia.
Qed.

Lemma windows_BackupPath_tmp t : windows_BackupPath t ≠ tmpPath t.
Proof.
  unfold windows_BackupPath, tmpPath. intros Ht%(f_equal (@rev ascii)).
  rewrite !rev_app_distr in Ht. discriminate.
Qed.

(** The Windows platform; which helper processes start is an argument. *)
Program Definition windows_platform (start : path -> option (Z * bool)) : Platform := {|
  BackupPath := windows_BackupPath;
  ExeExt := str ".exe";
  NeedsFinalizer := true;
  SpawnFinalizer := windows_SpawnFinalizer start;
  BackupPath_ne := windows_BackupPath_ne;
  BackupPath_tmp := windows_BackupPath_tmp;
|}.
Next Obligation.
  intros start staged target dir version w. unfold windows_SpawnFinalizer.
  destruct (_ || _); [done|]. by destruct (start staged) as [[? []]|].
Qed.

(** ** Operations *)

Definition sameFile (a b : path) : io bool :=
  let* fa := Stat a in
  match fa with
  | Err _ => ret false
  | Ok _ =>
      let* fb := Stat b in
      match fb with Err _ => ret false | Ok _ => ret (bool_decide (a = b)) end
  end.

Definition copyFile (src dst : path) (mode : Z) : io (res error unit) :=
  try* data := ReadFile src in
  try* _ := WriteFile dst [] mode in
  let cleanup (e : error) := let* _ := ignore (Remove dst) in ret (Err e) in
  let* r := AppendFile dst data mode in
  match r with
  | Err e => cleanup e
  | Ok _ =>
      let* r := Sync dst in
      match r with
      | Err e => cleanup e
      | Ok _ =>
          let* r := Sync dst in
          match r with
          | Err e => cleanup e
          | Ok _ => Chmod dst mode
          end
      end
  end.

Section Swap.
Context `{Platform}.

Definition Swap (target staged : path) : io (res error SwapResult) :=
  if bool_decide (target = []) || bool_decide (staged = [])
  then ret (Err (Errorf "empty target or staged path" ErrSwap))
  else
    let* same := sameFile target staged in
    if (same : bool) then ret (Err ErrSameFilenames)
    else
      let backup := BackupPath target in
      let tmp := tmpPath target in
      try* _ := copyFile staged tmp 493
        orelse (fun _ => Errorf "stage next to target" ErrSwap) in
      let* _ := ignore (Remove backup) in
      let* r := Rename target backup in
      match r with
      | Err _ =>
          let* _ := ignore (Remove tmp) in
          ret (Err (Errorf "move current binary aside" ErrSwap))
      | Ok _ =>
          let* r := Rename tmp target in
          match r with
          | Err _ =>
              let* _ := ignore (Rename backup target) in
              let* _ := ignore (Remove tmp) in
              ret (Err (Errorf "move new binary into place" ErrSwap))
          | Ok _ => ret (Ok {| sr_Target := target; sr_Backup := backup |})
          end
      end.

Definition RestoreBackup (target : path) : io (res error unit) :=
  let backup := BackupPath target in
  let* st := Stat backup in
  match st with
  | Err _ => ret (Err (Errorf "backup" ErrNoBackup))
  | Ok fi =>
      if negb (f_reg fi) then ret (Err (Errorf "backup" ErrNoBackup))
      else
        try* _ := Rename backup target orelse (fun _ => Errorf "restore backup" ErrSwap) in
        Chmod target 493
  end.

Definition RemoveBackup (target : path) : io (res error unit) :=
  let* r := Remove (BackupPath target) in
  match r with
  | Err e => if IsNotExist e then ret (Ok tt) else ret (Err e)
  | Ok _ => ret (Ok tt)
  end.

Definition HasBackup (target : path) : io bool :=
  let* st := Stat (BackupPath target) in
  match st with Err _ => ret false | Ok fi => ret (f_reg fi) end.
End Swap.

(** ** Lemmas *)

(** A call whose every effect is confined to [ps]. *)
Definition confined {A} (ps : list path) (m : io A) : Prop :=
  forall w, wp m (fun _ w' => frame ps (files w) (files w')) (frame ps (files w)) w.

Lemma confined_ret {A} ps (a : A) : confined ps (ret a).
Proof. intros w. apply wp_ret. reflexivity. Qed.

Lemma confined_bind {A B} ps (m : io A) (k : A -> io B) :
  confined ps m -> (forall a, confined ps (k a)) -> confined ps (bind m k).
Proof.
  intros Hm Hk w. apply wp_bind. eapply wp_mono; [apply Hm| |done].
  intros a w' Hf. eapply wp_mono; [apply Hk| |].
  - intros b w'' Hf'. exact (frame_trans _ _ _ _ Hf Hf').
  - intros d Hf'. exact (frame_trans _ _ _ _ Hf Hf').
Qed.

Lemma confined_try {A B} ps (m : io (res error A)) (k : A -> io (res error B)) :
  confined ps m -> (forall a, confined ps (k a)) -> confined ps (try m k).
Proof. intros Hm Hk. apply confined_bind; [done|]. intros [a|e]; [done | apply confined_ret]. Qed.

Lemma confined_try_as {A B} ps f (m : io (res error A)) (k : A -> io (res error B)) :
  confined ps m -> (forall a, confined ps (k a)) -> confined ps (try_as f m k).
Proof. intros Hm Hk. apply confined_bind; [done|]. intros [a|e]; [done | apply confined_ret]. Qed.

Lemma confined_ReadFile ps p : confined ps (ReadFile p).
Proof. intros w. wp_step; apply frame_refl. Qed.
Lemma confined_Stat ps p : confined ps (Stat p).
Proof. intros w. wp_step; apply frame_refl. Qed.
Lemma confined_MkdirAll ps p : confined ps (MkdirAll p).
Proof. intros w. wp_step; apply frame_refl. Qed.
Lemma confined_Sync ps p : confined ps (Sync p).
Proof. intros w. wp_step; apply frame_refl. Qed.
Lemma confined_Now ps : confined ps Now.
Proof. intros w. wp_step; apply frame_refl. Qed.
Lemma confined_WriteFile ps p data mode : p ∈ ps -> confined ps (WriteFile p data mode).
Proof. intros Hp w. wp_step; eauto with everwas. Qed.
Lemma confined_AppendFile ps p data mode : p ∈ ps -> confined ps (AppendFile p data mode).
Proof. intros Hp w. wp_step; eauto with everwas. Qed.
Lemma confined_Remove ps p : p ∈ ps -> confined ps (Remove p).
Proof. intros Hp w. wp_step; eauto with everwas. Qed.
Lemma confined_Chmod ps p mode : p ∈ ps -> confined ps (Chmod p mode).
Proof. intros Hp w. wp_step; eauto with everwas. Qed.
Lemma confined_Rename ps a b : a ∈ ps -> b ∈ ps -> confined ps (Rename a b).
Proof.
  intros Ha Hb w. wp_step; [|apply frame_refl|apply frame_refl]. apply (frame_trans _ _ (delete a (files w)));
    eauto with everwas.
Qed.

Lemma confined_weaken {A} ps ps' (m : io A) : ps ⊆ ps' -> confined ps m -> confined ps' m.
Proof. intros Hs Hm w. eapply wp_mono; [apply Hm| |]; eauto using frame_weaken. Qed.

Lemma confined_ignore {A} ps (m : io (res error A)) : confined ps m -> confined ps (ignore m).
Proof. intros. apply confined_bind; [done|]. intros. apply confined_ret. Qed.

Lemma confined_RemoveAll ps wrap qs : qs ⊆ ps -> confined ps (RemoveAll wrap qs).
Proof.
  induction qs as [|q qs IH]; intros Hs; simpl; [apply confined_ret|].
  apply confined_bind; [apply confined_Remove; set_solver|].
  intros [a|e]; [apply IH; set_solver|].
  destruct (IsNotExist e); [apply IH; set_solver | apply confined_ret].
Qed.

#[export] Hint Resolve confined_ret confined_ReadFile confined_Stat confined_MkdirAll
  confined_Sync confined_Now confined_WriteFile confined_AppendFile confined_Remove
  confined_Chmod confined_Rename confined_ignore confined_RemoveAll : everwas.

(** Prove [confined] by following the program. *)
Ltac confined_step :=
  cbn beta iota zeta;
  lazymatch goal with
  | |- confined _ (bind _ _) => apply confined_bind; [|intros ?]
  | |- confined _ (try _ _) => apply confined_try; [|intros ?]
  | |- confined _ (try_as _ _ _) => apply confined_try_as; [|intros ?]
  | |- confined _ (if ?b then _ else _) => destruct b
  | |- confined _ (match ?x with _ => _ end) => destruct x
  | |- confined _ (let '(_, _) := ?x in _) => destruct x
  | |- _ => solve [eauto with everwas | auto with everwas; set_solver
                  | first [ apply confined_AppendFile | apply confined_WriteFile
                          | apply confined_Remove | apply confined_ignore, confined_Remove
                          | apply confined_Chmod | apply confined_Rename ]; set_solver ]
  end.

Lemma copyFile_confined src dst mode : confined [dst] (copyFile src dst mode).
Proof.
  unfold copyFile. repeat confined_step.
Qed.

(** A completed copy holds the source's bytes. *)
Lemma copyFile_ok src dst mode w :
  src ≠ dst ->
  wp (copyFile src dst mode)
    (fun r w' => r = Ok tt -> exists fs fd, files w !! src = Some fs /\
       files w' !! dst = Some fd /\ f_data fd = f_data fs /\ f_mode fd = mode)
    (fun _ => True) w.
Proof.
  intros Hne. unfold copyFile. repeat (wp_step; try done).
  destruct (files w !! src) as [fsrc|] eqn:Hsrc; [|done].
  repeat (wp_step; try done).
  - intros _. exists fsrc. eexists. split; [done|].
    rewrite lookup_insert_eq. split; [done|]. cbn in Hf.
    rewrite lookup_insert_eq in Hf. injection Hf as <-. simpl. split; [|done].
    unfold extended. rewrite lookup_insert_eq. simpl. unfold written.
    by destruct (files w !! dst).
  - split; [|done]. repeat (wp_step; try done).
Qed.

Lemma wp_and {A} (m : io A) Q1 Q2 C1 C2 w :
  wp m Q1 C1 w -> wp m Q2 C2 w ->
  wp m (fun a w' => Q1 a w' /\ Q2 a w') (fun d => C1 d /\ C2 d) w.
Proof. unfold wp. destruct (m w) as [[a|] w']; auto. Qed.

Lemma confined_sameFile ps a b : confined ps (sameFile a b).
Proof. unfold sameFile. repeat confined_step. Qed.

Lemma sameFile_ne a b w :
  a ≠ b -> wp (sameFile a b) (fun r w' => r = false /\ files w' = files w) (fun d => d = files w) w.
Proof.
  intros Hne. unfold sameFile.
  repeat (wp_step; try (split; reflexivity); try reflexivity).
  destruct (files w !! a); [|by wp_step].
  repeat (wp_step; try (split; reflexivity); try reflexivity).
  destruct (files w !! b); wp_step; [|done]. by rewrite bool_decide_eq_false_2.
Qed.

Section swap_spec.
Context `{Platform}.
Implicit Types (target staged : path) (old new : file) (d : disk).

(** The three names a swap works on. *)
Definition swap_paths target : list path := [target; BackupPath target; tmpPath target].

(** The binary that was installed is still reachable: in place, or moved
    aside with nothing in its place. *)
Definition survives target old d : Prop :=
  d !! target = Some old \/ (d !! target = None /\ d !! BackupPath target = Some old).

(** The new binary is in place and the old one is the backup. *)
Definition installed target old (new : bytes) d : Prop :=
  d !! BackupPath target = Some old /\ exists f, d !! target = Some f /\ f_data f = new.

Lemma tmpPath_ne target : tmpPath target ≠ target.
Proof. by apply app_suffix_ne. Qed.

Lemma survives_frame target old d d' :
  survives target old d -> frame [tmpPath target] d d' -> survives target old d'.
Proof.
  pose proof (tmpPath_ne target). pose proof (BackupPath_tmp target).
  unfold survives. intros Hs Hf. rewrite !Hf by set_solver. done.
Qed.

(** What [Swap] guarantees its caller, on return and on a crash. *)
Definition swap_returns target old new d0 (r : res error SwapResult) d : Prop :=
  frame (swap_paths target) d0 d /\
  match r with
  | Ok sr => sr = {| sr_Target := target; sr_Backup := BackupPath target |} /\
             installed target old (f_data new) d
  | Err _ => survives target old d
  end.

(** Cleaning up after a failed step touches only the staging file. *)
Lemma swap_cleanup target old new d0 (e : error) w :
  frame (swap_paths target) d0 (files w) -> survives target old (files w) ->
  wp (let* _ := ignore (Remove (tmpPath target)) in ret (@Err error SwapResult e))
    (fun r w' => swap_returns target old new d0 r (files w'))
    (fun d => frame (swap_paths target) d0 d /\ survives target old d) w.
Proof.
  intros Hf Hs.
  assert (Hdel : frame [tmpPath target] (files w) (delete (tmpPath target) (files w)))
    by (apply frame_delete; set_solver).
  assert (Hdel' : frame (swap_paths target) d0 (delete (tmpPath target) (files w))).
  { etransitivity; [exact Hf|]. eapply frame_weaken; [|exact Hdel].
    unfold swap_paths. set_solver. }
  repeat wp_step; (split; [done|]); eauto using survives_frame.
Qed.

Lemma swap_renames target old new d0 w fd :
  d0 !! target = Some old ->
  frame (swap_paths target) d0 (files w) ->
  files w !! target = Some old -> files w !! tmpPath target = Some fd ->
  f_data fd = f_data new ->
  wp (let* r := Rename target (BackupPath target) in
      match r with
      | Err _ =>
          let* _ := ignore (Remove (tmpPath target)) in
          ret (Err (Errorf "move current binary aside" ErrSwap))
      | Ok _ =>
          let* r := Rename (tmpPath target) target in
          match r with
          | Err _ =>
              let* _ := ignore (Rename (BackupPath target) target) in
              let* _ := ignore (Remove (tmpPath target)) in
              ret (Err (Errorf "move new binary into place" ErrSwap))
          | Ok _ => ret (Ok {| sr_Target := target; sr_Backup := BackupPath target |})
          end
      end)
    (fun r w' => swap_returns target old new d0 r (files w'))
    (fun d => frame (swap_paths target) d0 d /\ survives target old d) w.
Proof.
  intros H0 Hfr Ht Htmp Hnew. pose proof (tmpPath_ne target) as N1.
  pose proof (BackupPath_ne target) as N2. pose proof (BackupPath_tmp target) as N3.
  assert (Hmem : target ∈ swap_paths target /\ BackupPath target ∈ swap_paths target /\
     tmpPath target ∈ swap_paths target) by (unfold swap_paths; set_solver).
  destruct Hmem as (M1 & M2 & M3).
  wp_step. wp_step; [|apply swap_cleanup; [done|by left]|by split; [|left]].
  rewrite Ht in Hf. injection Hf as <-.
  set (d1 := <[BackupPath target:=old]> (delete target (files w))).
  assert (Hd1 : frame (swap_paths target) d0 d1).
  { etransitivity; [done|]. apply (frame_trans _ _ (delete target (files w))); eauto with everwas. }
  assert (Hs1 : survives target old d1).
  { right. unfold d1. split; map_solve. }
  wp_step. wp_step; [| |by split].
  - wp_step. split; [|split; [done|split]].
    + etransitivity; [done|]. apply (frame_trans _ _ (delete (tmpPath target) d1)); eauto with everwas.
    + simpl. unfold d1. rewrite lookup_insert_ne, lookup_delete_ne by done. map_solve.
    + exists f. rewrite lookup_insert_eq. split; [done|]. unfold d1 in Hf.
      rewrite lookup_insert_ne, lookup_delete_ne in Hf by done. congruence.
  - wp_step. wp_step. wp_step; [| |by split].
    + wp_step. apply swap_cleanup; simpl.
      * etransitivity; [done|].
        apply (frame_trans _ _ (delete (BackupPath target) d1)); eauto with everwas.
      * left. rewrite lookup_insert_eq. unfold d1 in Hf. by rewrite lookup_insert_eq in Hf.
    + wp_step. by apply swap_cleanup.
Qed.

Lemma swap_spec target staged old new w :
  target ≠ [] -> staged ≠ [] -> staged ∉ swap_paths target ->
  files w !! target = Some old -> files w !! staged = Some new ->
  wp (Swap target staged)
    (fun r w' => swap_returns target old new (files w) r (files w'))
    (fun d => frame (swap_paths target) (files w) d /\ survives target old d) w.
Proof.
  intros Ht0 Hs0 Hst Ht Hs. pose proof (tmpPath_ne target) as N1.
  pose proof (BackupPath_ne target) as N2. pose proof (BackupPath_tmp target) as N3.
  unfold Swap. rewrite !bool_decide_eq_false_2 by done. simpl.
  wp_step. eapply wp_mono; [apply sameFile_ne; unfold swap_paths in Hst; set_solver| |].
  2: { intros d ->. split; [done | by left]. }
  intros same w1 [-> Hw1]. wp_step.
  eapply wp_mono; [apply wp_and; [apply copyFile_confined | apply copyFile_ok]| |].
  { unfold swap_paths in Hst. set_solver. }
  2: { intros d [Hf _]. rewrite Hw1 in Hf. split.
       - eapply frame_weaken; [|done]. unfold swap_paths. set_solver.
       - eapply survives_frame; [by left | done]. }
  intros [u|e] w2 [Hf Hcopy]; rewrite Hw1 in Hf.
  2: { split; [|eapply survives_frame; [by left | done]].
       eapply frame_weaken; [|done]. unfold swap_paths. set_solver. }
  destruct u. destruct (Hcopy eq_refl) as (f1 & fd & Hf1 & Hfd & Hdata & _).
  rewrite Hw1, Hs in Hf1. injection Hf1 as <-.
  assert (Hf2 : frame (swap_paths target) (files w) (files w2)).
  { eapply frame_weaken; [|done]. unfold swap_paths. set_solver. }
  assert (Ht2 : files w2 !! target = Some old) by (rewrite Hf by set_solver; done).
  wp_step. wp_step. wp_step; [wp_step|wp_step|split; [done | by left]].
  - apply swap_renames with fd; cbn [files]; [done| | | |done].
    + etransitivity; [done|]. apply frame_delete. unfold swap_paths. set_solver.
    + by rewrite lookup_delete_ne by done.
    + by rewrite lookup_delete_ne by done.
  - by apply swap_renames with fd.
Qed.

(** What [RestoreBackup] guarantees: it installs the backup or changes
    nothing, and it never loses the backed-up binary. *)
Definition restore_returns target bk d0 (r : res error unit) d : Prop :=
  match r with
  | Ok _ => d = <[target := File (f_data bk) (f_reg bk) 493]>
                  (<[target := bk]> (delete (BackupPath target) d0))
  | Err _ => d = d0 \/ d = <[target := bk]> (delete (BackupPath target) d0)
  end.

Lemma restore_spec target bk w :
  files w !! BackupPath target = Some bk -> f_reg bk = true ->
  wp (RestoreBackup target)
    (fun r w' => restore_returns target bk (files w) r (files w'))
    (fun d => d = files w \/ d = <[target := bk]> (delete (BackupPath target) (files w))) w.
Proof.
  intros Hbk Hreg. unfold RestoreBackup. wp_step. wp_step; [|by left|by left].
  rewrite Hbk, Hreg. simpl. wp_step. wp_step; [|by left|by left].
  rewrite Hbk in Hf. injection Hf as <-. wp_step; [|by right|by right].
  rewrite lookup_insert_eq in Hf. by injection Hf as <-.
Qed.

Lemma restore_missing target w :
  (forall bk, files w !! BackupPath target = Some bk -> f_reg bk = false) ->
  wp (RestoreBackup target)
    (fun r w' => files w' = files w /\ exists e, r = Err e) (fun d => d = files w) w.
Proof.
  intros Hno. unfold RestoreBackup. wp_step. wp_step; [|wp_step; eauto|done].
  destruct (files w !! BackupPath target) as [bk|] eqn:E; [|wp_step; eauto].
  rewrite (Hno bk eq_refl). simpl. wp_step. eauto.
Qed.
End swap_spec.

Section swap_claims.
Context `{Platform}.

(** C5: Whatever fails and wherever the process dies inside [Swap], the
    installed binary is never lost.  On success the target holds exactly the
    staged bytes and the backup holds the previous binary; on an error and
    on a crash the previous binary is still at the target, or at the backup
    path with nothing at the target; and no other file is touched. *)
Theorem Swap_never_loses_the_binary target staged old new w :
  target ≠ [] -> staged ≠ [] -> staged ∉ swap_paths target ->
  files w !! target = Some old -> files w !! staged = Some new ->
  wp (Swap target staged)
    (fun r w' =>
       frame (swap_paths target) (files w) (files w') /\
       match r with
       | Ok sr => sr_Backup sr = BackupPath target /\
                  files w' !! sr_Backup sr = Some old /\
                  exists f, files w' !! target = Some f /\ f_data f = f_data new
       | Err _ => survives target old (files w')
       end)
    (fun d => frame (swap_paths target) (files w) d /\ survives target old d) w.
Proof.
  intros. eapply wp_mono; [by eapply swap_spec| |done].
  intros [sr|e] w' [Hf Hr]; (split; [done|]); [|done].
  destruct Hr as (-> & Hb & f & Hf' & Hd). eauto.
Qed.

(** A restore either puts the backed-up bytes at the target, executable,
    with the backup consumed, or (error or crash) leaves the disk as it was
    or with the rename already done: the backed-up binary is never lost and
    no third file is touched. *)
Theorem RestoreBackup_all_or_nothing target bk w :
  files w !! BackupPath target = Some bk -> f_reg bk = true ->
  wp (RestoreBackup target)
    (fun r w' =>
       match r with
       | Ok _ => files w' !! target = Some (File (f_data bk) true 493) /\
                 files w' !! BackupPath target = None
       | Err _ => files w' = files w \/
                  (files w' !! target = Some bk /\ files w' !! BackupPath target = None)
       end /\ frame [target; BackupPath target] (files w) (files w'))
    (fun d => (d = files w \/ (d !! target = Some bk /\ d !! BackupPath target = None)) /\
              frame [target; BackupPath target] (files w) d) w.
Proof.
  intros Hbk Hreg. pose proof (BackupPath_ne target) as N.
  assert (Hfr : frame [target; BackupPath target] (files w)
                  (<[target := bk]> (delete (BackupPath target) (files w)))).
  { apply (frame_trans _ _ (delete (BackupPath target) (files w)));
      [apply frame_delete | apply frame_insert]; set_solver. }
  assert (Hlk : <[target := bk]> (delete (BackupPath target) (files w)) !! target = Some bk /\
     <[target := bk]> (delete (BackupPath target) (files w)) !! BackupPath target = None).
  { split; map_solve. }
  eapply wp_mono; [by apply restore_spec| |].
  - intros [u|e] w' Hr; simpl in Hr.
    + rewrite Hr, Hreg, insert_insert_eq. split.
      * split; map_solve.
      * apply (frame_trans _ _ (delete (BackupPath target) (files w)));
          [apply frame_delete | apply frame_insert]; set_solver.
    + destruct Hr as [->| ->]; (split; [auto | done]) || (split; [by right | done]).
  - intros d [->| ->]; (split; [auto | done]).
Qed.
End swap_claims.

(** *** Witnesses *)

Definition demo_disk : disk :=
  <[str "/opt/agent" := File (str "old") true 493]>
  (<[str "/opt/agent.old" := File (str "older") true 493]>
  (<[str "/var/staged" := File (str "new") true 448]> ∅)).

Lemma Swap_never_loses_the_binary_witness :
  wp (Swap (str "/opt/agent") (str "/var/staged"))
    (fun r w' =>
       frame (swap_paths (str "/opt/agent")) demo_disk (files w') /\
       match r with
       | Ok sr => sr_Backup sr = str "/opt/agent.old" /\
                  files w' !! sr_Backup sr = Some (File (str "old") true 493) /\
                  exists f, files w' !! str "/opt/agent" = Some f /\ f_data f = str "new"
       | Err _ => survives (str "/opt/agent") (File (str "old") true 493) (files w')
       end)
    (fun d => frame (swap_paths (str "/opt/agent")) demo_disk d /\
              survives (str "/opt/agent") (File (str "old") true 493) d)
    (World demo_disk 0 [] [Proceed; Proceed; Fails 3]).
Proof.
  apply (Swap_never_loses_the_binary (str "/opt/agent") (str "/var/staged")
           (File (str "old") true 493) (File (str "new") true 448)
           (World demo_disk 0 [] [Proceed; Proceed; Fails 3])).
  - discriminate.
  - discriminate.
  - by apply (bool_decide_eq_true_1 (str "/var/staged" ∉ swap_paths (str "/opt/agent"))).
  - reflexivity.
  - reflexivity.
Defined.

Lemma RestoreBackup_all_or_nothing_witness :
  wp (RestoreBackup (str "/opt/agent"))
    (fun r w' =>
       match r with
       | Ok _ => files w' !! str "/opt/agent" = Some (File (str "older") true 493) /\
                 files w' !! BackupPath (str "/opt/agent") = None
       | Err _ => files w' = demo_disk \/
                  (files w' !! str "/opt/agent" = Some (File (str "older") true 493) /\
                   files w' !! BackupPath (str "/opt/agent") = None)
       end /\ frame [str "/opt/agent"; BackupPath (str "/opt/agent")] demo_disk (files w'))
    (fun d => (d = demo_disk \/ (d !! str "/opt/agent" = Some (File (str "older") true 493) /\
                                  d !! BackupPath (str "/opt/agent") = None)) /\
              frame [str "/opt/agent"; BackupPath (str "/opt/agent")] demo_disk d)
    (World demo_disk 0 [] []).
Proof.
  apply (RestoreBackup_all_or_nothing (str "/opt/agent") (File (str "older") true 493)
           (World demo_disk 0 [] []));
    reflexivity.
Defined.
