(* ===== verification/Tracker.v ===== *)
(** * Tracker: probation, crash counting and rollback
    (agent/internal/update/rollback.go)

    The state file, the plain-text probation file the external guard reads,
    the guard's start list and denylist, and the decisions the agent takes at
    startup and while a new build is on probation. *)
From S2P Require Import Prelude GoLib GoOS Swap.

(** ** Policy constants *)
Definition MinProbation : Z := 10 * Minute.
Definition MaxProbation : Z := 24 * Hour.
Definition ProbeInterval : Z := 30 * Second.
Definition CrashWindow : Z := 2 * Minute.
Definition CrashLimit : nat := 2.

Definition stateFileName : bytes := str "update-state.json".
Definition healthMarkerName : bytes := str "health-ok".
Definition ProbationFileName : bytes := str "update-probation".
Definition StartsFileName : bytes := str "update-starts".
Definition DeniedFileName : bytes := str "update-denied".

Definition maxStartsTracked : nat := 16.
Definition maxDeniedTracked : nat := 32.

(** The wire statuses. *)
Inductive Status : Type :=
  | StatusIdle
  | StatusProbation
  | StatusFinalizing
  | StatusFinalizeFailed
  | StatusRolledBack
  | StatusHealthy
  | StatusUnproven.

#[global] Instance Status_eq_dec : EqDecision Status.
Proof. solve_decision. Defined.

Definition ErrState : error := Sentinel "update: state file".
Definition ErrFinalizePending : error := Sentinel "update: finalizer has not reported yet".

(** ** State *)

Record State := mkState {
  PendingVersion : bytes;
  PreviousVersion : bytes;
  Target : path;
  Backup : path;
  SwappedAt : Z;
  Starts : list Z;
  Healthy : bool;
  HealthyAt : Z;
  RolledBack : bool;
  Unproven : bool;
  Denied : list bytes;
  Finalizing : bool;
  FinalizerPID : Z;
  FinalizeErr : bytes;
  FinalizedAt : Z;
}.

(** As JSON: texts come back as valid UTF-8, and a time must have a year that
    can be written. *)
#[export] Instance State_encoding : Encoding State := {|
  stored s :=
    mkState (utf8Text (PendingVersion s)) (utf8Text (PreviousVersion s)) (utf8Text (Target s)) (utf8Text (Backup s))
      (SwappedAt s) (Starts s) (Healthy s) (HealthyAt s) (RolledBack s) (Unproven s) (map utf8Text (Denied s))
      (Finalizing s) (FinalizerPID s) (utf8Text (FinalizeErr s)) (FinalizedAt s);
  writable s := Forall writableTime ([SwappedAt s; HealthyAt s; FinalizedAt s] ++ Starts s);
  decoded s :=
    Forall (fun x => utf8Text x = x)
      ([PendingVersion s; PreviousVersion s; Target s; Backup s; FinalizeErr s] ++ Denied s);
|}.

(** A record made of valid text comes back as it was. *)
Lemma stored_decoded s : decoded s -> stored s = s.
Proof.
  intros [Hf Hd]%Forall_app. repeat apply Forall_cons in Hf as [? Hf]. destruct s. cbn in *.
  assert (map utf8Text Denied0 = Denied0) by (induction Hd as [|x l Hx _ IH]; cbn; congruence). congruence.
Qed.

Lemma decoded_stored s : decoded (stored s).
Proof.
  apply Forall_app. split; [repeat constructor; apply utf8Text_idem|].
  apply Forall_map, Forall_true. intros x. apply utf8Text_idem.
Qed.

Lemma decoded_zero : decoded (mkState [] [] [] [] zero_time [] false zero_time false false [] false 0 [] zero_time).
Proof. repeat constructor. Qed.

(** [State{}] *)
Definition zeroState : State :=
  mkState [] [] [] [] zero_time [] false zero_time false false [] false 0 [] zero_time.

(** Field assignments. *)
Definition set_PendingVersion v (s : State) : State :=
  mkState v (PreviousVersion s) (Target s) (Backup s) (SwappedAt s) (Starts s) (Healthy s)
    (HealthyAt s) (RolledBack s) (Unproven s) (Denied s) (Finalizing s) (FinalizerPID s)
    (FinalizeErr s) (FinalizedAt s).
Definition set_Starts v (s : State) : State :=
  mkState (PendingVersion s) (PreviousVersion s) (Target s) (Backup s) (SwappedAt s) v (Healthy s)
    (HealthyAt s) (RolledBack s) (Unproven s) (Denied s) (Finalizing s) (FinalizerPID s)
    (FinalizeErr s) (FinalizedAt s).
Definition set_Healthy v (s : State) : State :=
  mkState (PendingVersion s) (PreviousVersion s) (Target s) (Backup s) (SwappedAt s) (Starts s) v
    (HealthyAt s) (RolledBack s) (Unproven s) (Denied s) (Finalizing s) (FinalizerPID s)
    (FinalizeErr s) (FinalizedAt s).
Definition set_HealthyAt v (s : State) : State :=
  mkState (PendingVersion s) (PreviousVersion s) (Target s) (Backup s) (SwappedAt s) (Starts s)
    (Healthy s) v (RolledBack s) (Unproven s) (Denied s) (Finalizing s) (FinalizerPID s)
    (FinalizeErr s) (FinalizedAt s).
Definition set_RolledBack v (s : State) : State :=
  mkState (PendingVersion s) (PreviousVersion s) (Target s) (Backup s) (SwappedAt s) (Starts s)
    (Healthy s) (HealthyAt s) v (Unproven s) (Denied s) (Finalizing s) (FinalizerPID s)
    (FinalizeErr s) (FinalizedAt s).
Definition set_Unproven v (s : State) : State :=
  mkState (PendingVersion s) (PreviousVersion s) (Target s) (Backup s) (SwappedAt s) (Starts s)
    (Healthy s) (HealthyAt s) (RolledBack s) v (Denied s) (Finalizing s) (FinalizerPID s)
    (FinalizeErr s) (FinalizedAt s).
Definition set_Denied v (s : State) : State :=
  mkState (PendingVersion s) (PreviousVersion s) (Target s) (Backup s) (SwappedAt s) (Starts s)
    (Healthy s) (HealthyAt s) (RolledBack s) (Unproven s) v (Finalizing s) (FinalizerPID s)
    (FinalizeErr s) (FinalizedAt s).
Definition set_finalizer fin pid err at' (s : State) : State :=
  mkState (PendingVersion s) (PreviousVersion s) (Target s) (Backup s) (SwappedAt s) (Starts s)
    (Healthy s) (HealthyAt s) (RolledBack s) (Unproven s) (Denied s) fin pid err at'.

(** [State.Pending]: still on probation. *)
Definition Pending (s : State) : bool :=
  negb (bool_decide (PendingVersion s = [])) && negb (Healthy s).

(** [update.Report] *)
Record Report := {
  rp_Status : Status;
  rp_Version : bytes;
  rp_Previous : bytes;
  rp_Since : Z;
  rp_Detail : bytes;
  rp_Denied : list bytes;
  rp_Terminal : bool;
}.

(** ** Pure decisions *)

(** [appendDenied] *)
Definition appendDenied (l : list bytes) (version : bytes) : list bytes :=
  let version := TrimSpace version in
  if bool_decide (version = []) then l
  else if bool_decide (version ∈ l) then l
  else keep_last maxDeniedTracked (l ++ [version]).

(** One call of the closure [add] of [Tracker.Denied]; [seen] is the set of
    what is already in [out]. *)
Definition addDenied (out : list bytes) (v : bytes) : list bytes :=
  let v := TrimSpace v in
  if bool_decide (v = []) || bool_decide (v ∈ out) then out else out ++ [v].

Definition mergeDenied (recorded : list bytes) (raw : option bytes) : list bytes :=
  let out := fold_left addDenied recorded [] in
  let out := match raw with
             | Some raw => fold_left addDenied (Split nl raw) out
             | None => out
             end in
  keep_last maxDeniedTracked out.

(** [countStarts] *)
Definition inWindow (now s : Z) : bool := negb (After s now) && (Sub now s <=? CrashWindow).

Fixpoint countStarts (starts : list Z) (now : Z) : nat :=
  match starts with
  | [] => 0
  | s :: starts' => if inWindow now s then S (countStarts starts' now) else countStarts starts' now
  end%nat.

(** [shouldRollback] *)
Definition shouldRollback (st : State) (external : list Z) (now : Z) : bool :=
  if negb (Pending st) || bool_decide (Backup st = []) || bool_decide (Target st = []) then false
  else if RolledBack st then false
  else
    let n := countStarts (Starts st) now in
    let e := countStarts external now in
    let n := if (n <? e)%nat then e else n in
    (CrashLimit <? n)%nat.

(** The lines of the guard's start list as [externalStarts] reads them. *)
Definition parseStart (line : bytes) : option Z :=
  let line := TrimSpace line in
  if bool_decide (line = []) then None
  else match ParseInt line with Some secs => Some (UnixTime secs) | None => None end.

Definition parseStarts (raw : bytes) : list Z :=
  keep_last maxStartsTracked (omap parseStart (Split nl raw)).

(** The text [writeProbation] renders. *)
Definition probationLine (key value : bytes) : bytes := key ++ str "=" ++ value ++ [nl].

Definition renderProbation (st : State) : bytes :=
  str "# written by everwas-agent, read by agent-guard.sh" ++ [nl] ++
  probationLine (str "version") (PendingVersion st) ++
  probationLine (str "previous") (PreviousVersion st) ++
  probationLine (str "target") (Target st) ++
  probationLine (str "backup") (Backup st) ++
  probationLine (str "swapped_at") (Itoa (Unix (SwappedAt st))) ++
  probationLine (str "finalizing") (FormatBool (Finalizing st)).

(** The health marker [markHealthy] writes. *)
Definition renderMarker (st : State) (now : Z) (unproven : bool) : bytes :=
  str "version=" ++ PendingVersion st ++ [nl] ++
  str "healthy_at=" ++ FormatRFC3339 now ++ [nl] ++
  str "unproven=" ++ FormatBool unproven ++ [nl].

(** The [switch] of [Tracker.Report]. *)
Definition statusOf (st : State) : Status :=
  if Finalizing st then StatusFinalizing
  else if negb (bool_decide (FinalizeErr st = [])) then StatusFinalizeFailed
  else if RolledBack st then StatusRolledBack
  else if Pending st then StatusProbation
  else if Healthy st && Unproven st then StatusUnproven
  else if Healthy st then StatusHealthy
  else StatusIdle.

Definition reportOf (st : State) (denied : list bytes) : Report :=
  let status := statusOf st in
  {| rp_Status := status;
     rp_Version := PendingVersion st;
     rp_Previous := PreviousVersion st;
     rp_Since := match status with
                 | StatusUnproven | StatusHealthy => HealthyAt st
                 | _ => SwappedAt st
                 end;
     rp_Detail := match status with
                  | StatusFinalizing =>
                      str "an out-of-process finalizer (pid " ++ Itoa (FinalizerPID st) ++
                      str ") has not reported yet"
                  | StatusFinalizeFailed => FinalizeErr st
                  | StatusRolledBack => str "the previous binary was restored after repeated crashes"
                  | StatusProbation => str "on probation until the build proves it can work"
                  | StatusUnproven =>
                      str "probation expired without the build satisfying the health probe"
                  | StatusHealthy | StatusIdle => []
                  end;
     rp_Denied := denied;
     rp_Terminal := match status with
                    | StatusFinalizing | StatusProbation => false
                    | _ => true
                    end |}.

(** ** The tracker's operations *)

Section Tracker.
Context `{Platform} {JS : JSON State}.
Context (StateDir : path).

Definition statePath : path := Join StateDir stateFileName.
Definition markerPath : path := Join StateDir healthMarkerName.
Definition probationPath : path := Join StateDir ProbationFileName.
Definition startsPath : path := Join StateDir StartsFileName.
Definition deniedPath : path := Join StateDir DeniedFileName.

Definition stateErr (ctx : String.string) (_ : error) : error := Errorf ctx ErrState.
Arguments stateErr ctx%_string.

Definition Load : io (res error State) :=
  let* r := ReadFile statePath in
  match r with
  | Err e => if Is e ErrNotExist then ret (Ok zeroState) else ret (Err (stateErr "read" e))
  | Ok raw =>
      match Unmarshal raw with
      | Some st => ret (Ok st)
      | None => ret (Ok zeroState)
      end
  end.

Definition Save (st : State) : io (res error unit) :=
  try* _ := MkdirAll StateDir orelse stateErr "mkdir" in
  match MarshalIndent st with
  | None => ret (Err (stateErr "encode" ErrState))
  | Some raw =>
      WriteRename statePath (raw ++ [nl]) 384 (stateErr "write") (stateErr "rename")
  end.

Definition Clear : io (res error unit) :=
  RemoveAll (stateErr "remove") [statePath; markerPath; probationPath; startsPath].

Definition writeProbation (st : State) : io (res error unit) :=
  try* _ := MkdirAll StateDir orelse stateErr "mkdir" in
  WriteRename probationPath (renderProbation st) 384
    (stateErr "write probation") (stateErr "rename probation").

Definition BeginUpdate (newVersion prevVersion : bytes) (target backup : path) :
    io (res error unit) :=
  try* prior := Load in
  let* _ := ignore (Remove markerPath) in
  let* _ := ignore (Remove startsPath) in
  let* now := Now in
  let st := mkState newVersion prevVersion target backup now [] false zero_time false false
              (Denied prior) false 0 [] zero_time in
  try* _ := Save st in
  writeProbation st.

Definition BeginFinalize (pid : Z) : io (res error unit) :=
  try* st := Load in
  let st := set_finalizer true pid [] zero_time st in
  try* _ := Save st in
  writeProbation st.

(** [failure] is the finalizer's error message, [None] for a nil error. *)
Definition FinalizeOutcome (failure : option bytes) : io (res error unit) :=
  try* st := Load in
  let* now := Now in
  let st := set_finalizer false (FinalizerPID st)
              (match failure with Some m => m | None => [] end) now st in
  try* _ := Save st in
  match failure with
  | Some _ => RemoveAll (stateErr "remove probation") [probationPath]
  | None => writeProbation st
  end.

Definition externalStarts : io (list Z) :=
  let* r := ReadFile startsPath in
  match r with Err _ => ret [] | Ok raw => ret (parseStarts raw) end.

(** [Tracker.Denied] *)
Definition DeniedList : io (list bytes) :=
  let* r := Load in
  let st := match r with Ok st => st | Err _ => zeroState end in
  let* raw := ReadFile deniedPath in
  ret (mergeDenied (Denied st) (match raw with Ok raw => Some raw | Err _ => None end)).

Definition IsDenied (version : bytes) : io bool :=
  if bool_decide (version = []) then ret false
  else
    let* l := DeniedList in
    ret (bool_decide (version ∈ l)).

Definition Deny (version : bytes) : io (res error unit) :=
  let version := TrimSpace version in
  if bool_decide (version = []) then ret (Ok tt)
  else
    try* _ := MkdirAll StateDir orelse stateErr "mkdir" in
    try* _ := AppendFile deniedPath [] 384 orelse stateErr "open denylist" in
    try* _ := AppendFile deniedPath (version ++ [nl]) 384 orelse stateErr "append denylist" in
    ret (Ok tt).

Definition RecordStart : io (res error State) :=
  try* st := Load in
  if negb (Pending st) then ret (Ok st)
  else
    let* now := Now in
    let st := set_Starts (keep_last maxStartsTracked (Starts st ++ [now])) st in
    try* _ := Save st in
    ret (Ok st).

Definition markHealthy (unproven : bool) : io (res error unit) :=
  try* st := Load in
  if Finalizing st then ret (Err (Errorf "version" ErrFinalizePending))
  else
    try* _ := MkdirAll StateDir orelse stateErr "mkdir" in
    let* now := Now in
    try* _ := WriteFile markerPath (renderMarker st now unproven) 384
      orelse stateErr "write marker" in
    if negb (Pending st) then ret (Ok tt)
    else
      let st := set_Starts [] (set_Unproven unproven (set_HealthyAt now (set_Healthy true st))) in
      try* _ := Save st in
      RemoveAll (stateErr "remove") [probationPath; startsPath].

Definition MarkHealthy : io (res error unit) := markHealthy false.
Definition MarkUnproven : io (res error unit) := markHealthy true.

Definition finishRollback (st : State) : io (res error unit) :=
  try* _ := Save st in
  RemoveAll (stateErr "remove") [probationPath; startsPath].

(** The record a completed rollback leaves. *)
Definition rolledBackState (st : State) : State :=
  let v := PendingVersion st in
  set_Denied (appendDenied (Denied st) v)
    (set_Starts [] (set_PendingVersion [] (set_Healthy false (set_RolledBack true st)))).

Definition reconcileGuardRollback : io (bool * option error) :=
  let* r := Load in
  match r with
  | Err e => ret (false, Some e)
  | Ok st =>
      if negb (Pending st) || RolledBack st then ret (false, None)
      else
        let* p := Stat probationPath in
        let missing := match p with Err e => IsNotExist e | Ok _ => false end in
        if negb missing then ret (false, None)
        else
          let* denied := IsDenied (PendingVersion st) in
          if negb denied then ret (false, None)
          else
            let* r := finishRollback (rolledBackState st) in
            match r with
            | Err e => ret (true, Some e)
            | Ok _ => ret (true, None)
            end
  end.

Definition CheckAndRollback : io (bool * option error) :=
  let* '(done, err) := reconcileGuardRollback in
  if done || match err with Some _ => true | None => false end then ret (false, err)
  else
    let* r := RecordStart in
    match r with
    | Err e => ret (false, Some e)
    | Ok st =>
        let* external := externalStarts in
        let* now := Now in
        if negb (shouldRollback st external now) then ret (false, None)
        else
          let* r := RestoreBackup (Target st) in
          match r with
          | Err e =>
              let st := set_PendingVersion [] (set_RolledBack true st) in
              let* r := finishRollback st in
              match r with
              | Err saveErr => ret (false, Some saveErr)
              | Ok _ => ret (false, Some e)
              end
          | Ok _ =>
              let rolledBack := PendingVersion st in
              let st := rolledBackState st in
              let* r := Deny rolledBack in
              match r with
              | Err e => ret (true, Some e)
              | Ok _ =>
                  let* r := finishRollback st in
                  match r with
                  | Err e => ret (true, Some e)
                  | Ok _ => ret (true, None)
                  end
              end
          end
    end.

(** [Tracker.Report] *)
Definition ReportStatus : io (Report * option error) :=
  let* r := Load in
  match r with
  | Err e =>
      ret ({| rp_Status := StatusIdle; rp_Version := []; rp_Previous := [];
              rp_Since := zero_time; rp_Detail := []; rp_Denied := []; rp_Terminal := true |}, Some e)
  | Ok st =>
      let* denied := DeniedList in
      ret (reportOf st denied, None)
  end.

(** *** Watch

    The health probe, the context and the ticker are the environment: one
    [round] of the loop says whether the probe returned nil, whether the
    context was cancelled when a failed probe returned, and whether the
    cancellation or the ticker ended the wait. *)
Record WatchConfig := {
  wc_Probe : bool;            (** [cfg.Probe != nil] *)
  wc_MinProbation : Z;
  wc_MaxProbation : Z;
  wc_ProbeInterval : Z;
}.

Record round := {
  rd_probe_ok : bool;
  rd_cancelled : bool;
  rd_stop : bool;
}.

(** [Parked] is [<-ctx.Done()] after a verdict; [Running] means the script
    of rounds is used up and the loop is still going. *)
Inductive watch_end : Type := Parked | Returned (err : option error) | Running.

Definition normalized (c : WatchConfig) : WatchConfig :=
  let mn := if wc_MinProbation c <=? 0 then MinProbation else wc_MinProbation c in
  let mx := if wc_MaxProbation c <=? 0 then MaxProbation else wc_MaxProbation c in
  let mx := if mx <? mn then mn else mx in
  let iv := if wc_ProbeInterval c <=? 0 then ProbeInterval else wc_ProbeInterval c in
  {| wc_Probe := wc_Probe c; wc_MinProbation := mn; wc_MaxProbation := mx;
     wc_ProbeInterval := iv |}.

(** A timer that fires: the clock has reached [t]. *)
Definition SleepTo (t : Z) : io unit := fun w =>
  (Ret tt, World (files w) (Z.max (clock w) t) (ticks w) (faults w)).

(** [alive]: the context was not cancelled before the timer. *)
Definition sleepUntil (alive : bool) (when : Z) : io bool :=
  let* now := Now in
  if when - now <=? 0 then ret alive
  else if alive then (let* _ := SleepTo when in ret true)
  else ret false.

Definition mark (unproven : bool) : io (bool * option error) :=
  let* r := markHealthy unproven in
  match r with
  | Ok _ => ret (true, None)
  | Err e => if Is e ErrFinalizePending then ret (false, None) else ret (false, Some e)
  end.

Fixpoint watch_loop (probe : bool) (deadline : Z) (rounds : list round) : io watch_end :=
  match rounds with
  | [] => ret Running
  | r :: rounds' =>
      if probe && rd_probe_ok r then
        let* '(_, err) := mark false in
        match err with Some e => ret (Returned (Some e)) | None => ret Parked end
      else if probe && rd_cancelled r then ret (Returned None)
      else
        let* now := Now in
        if negb (Before now deadline) then
          let* '(_, err) := mark true in
          match err with Some e => ret (Returned (Some e)) | None => ret Parked end
        else if rd_stop r then ret (Returned None)
        else watch_loop probe deadline rounds'
  end.

Definition Watch (cfg : WatchConfig) (alive : bool) (rounds : list round) : io watch_end :=
  let cfg := normalized cfg in
  let* r := Load in
  match r with
  | Err e => ret (Returned (Some e))
  | Ok st =>
      if negb (Pending st) then ret Parked
      else
        let* start := if IsZero (SwappedAt st) then Now else ret (SwappedAt st) in
        let* awake := sleepUntil alive (start + wc_MinProbation cfg) in
        if negb awake then ret (Returned None)
        else watch_loop (wc_Probe cfg) (start + wc_MaxProbation cfg) rounds
  end.
End Tracker.

(** ** Lemmas *)

(** *** The abstract state of a disk *)

Section tracker_lemmas.
Context `{Platform} {JS : JSON State}.
Context (StateDir : path).

(** What [Load] makes of a disk. *)
Definition stateOf (d : disk) : State :=
  match d !! statePath StateDir with
  | Some f => default zeroState (Unmarshal (f_data f))
  | None => zeroState
  end.

Lemma stateOf_decoded d : decoded (stateOf d).
Proof.
  unfold stateOf. destruct (d !! _) as [f|]; [|apply decoded_zero].
  destruct (Unmarshal (f_data f)) eqn:E; [by eapply json_reads|apply decoded_zero].
Qed.

Lemma stored_stateOf d : stored (stateOf d) = stateOf d.
Proof. apply stored_decoded, stateOf_decoded. Qed.

(** What reading a field back makes of a field that was read. *)
Lemma stored_Denied d : map utf8Text (Denied (stateOf d)) = Denied (stateOf d).
Proof. exact (f_equal Denied (stored_stateOf d)). Qed.

Definition deniedRaw (d : disk) : option bytes := f_data <$> d !! deniedPath StateDir.

(** What [Tracker.Denied] reports of a disk. *)
Definition deniedOf (d : disk) : list bytes := mergeDenied (Denied (stateOf d)) (deniedRaw d).

(** The file [Save] writes first. *)
Definition stateTmp : path := statePath StateDir ++ str ".tmp".
Definition probationTmp : path := probationPath StateDir ++ str ".tmp".

Lemma wp_Load (Q : res error State -> world -> Prop) C w :
  (forall fs, Q (Ok (stateOf (files w))) (with_faults w fs)) ->
  (forall e fs, Q (Err e) (with_faults w fs)) ->
  C (files w) -> wp (Load StateDir) Q C w.
Proof.
  intros Hok Hbad HC. unfold Load, stateOf in *. wp_step.
  wp_step; [|rewrite Is_IO_NotExist; wp_step; apply Hbad|done].
  destruct (files w !! statePath StateDir) as [f|]; [|rewrite Is_NotExist; wp_step; apply Hok].
  specialize (Hok fs). destruct (Unmarshal (f_data f)); apply Hok.
Qed.

Lemma confined_Load ps : confined ps (Load StateDir).
Proof. intros w. apply wp_Load; intros; apply frame_refl. Qed.

Lemma stateTmp_ne : stateTmp ≠ statePath StateDir.
Proof. by apply app_suffix_ne. Qed.

(** [Save] leaves the old record or the new one, never a torn file. *)
Lemma wp_Save st (Q : res error unit -> world -> Prop) C w :
  (forall d fs, frame [stateTmp; statePath StateDir] (files w) d -> stateOf d = stored st ->
     Q (Ok tt) (World d (clock w) (ticks w) fs)) ->
  (forall d fs e, frame [stateTmp] (files w) d ->
     Q (Err e) (World d (clock w) (ticks w) fs) /\ C d) ->
  wp (Save StateDir st) Q C w.
Proof.
  intros Hok Hbad. unfold Save. wp_step.
  wp_step; [|by apply Hbad|by apply (Hbad _ [] ErrIO)].
  destruct (MarshalIndent st) as [raw|] eqn:E; [|by apply Hbad].
  apply wp_WriteRename; cbn [files with_faults clock ticks]; [|done].
  intros d fs0 f Hf Hl Hd. apply Hok; [done|]. unfold stateOf. rewrite Hl, Hd.
  by rewrite (json_roundtrip _ _ E).
Qed.

Lemma stateOf_frame ps d d' :
  frame ps d d' -> statePath StateDir ∉ ps -> stateOf d' = stateOf d.
Proof. intros Hf Hp. unfold stateOf. by rewrite (Hf _ Hp). Qed.

Lemma deniedRaw_frame ps d d' :
  frame ps d d' -> deniedPath StateDir ∉ ps -> deniedRaw d' = deniedRaw d.
Proof. intros Hf Hp. unfold deniedRaw. by rewrite (Hf _ Hp). Qed.
End tracker_lemmas.

(** *** Denylist *)

Lemma elem_of_addDenied out x v :
  v ∈ addDenied out x <-> v ∈ out \/ (v ≠ [] /\ TrimSpace x = v).
Proof.
  unfold addDenied. destruct (bool_decide (TrimSpace x = [])) eqn:E1; simpl; bool_cases.
  - split; [by left|]. intros [?|[? Hx]]; [done|]. congruence.
  - destruct (bool_decide (TrimSpace x ∈ out)) eqn:E2; bool_cases.
    + split; [by left|]. intros [?|[? <-]]; done.
    + rewrite elem_of_app, list_elem_of_singleton. naive_solver.
Qed.

Lemma elem_of_fold_addDenied l out v :
  v ∈ fold_left addDenied l out <-> v ∈ out \/ (v ≠ [] /\ exists x, x ∈ l /\ TrimSpace x = v).
Proof.
  revert out. induction l as [|x l IH]; intros out; simpl; [set_solver|].
  rewrite IH, elem_of_addDenied. setoid_rewrite elem_of_cons. naive_solver.
Qed.

Lemma addDenied_NoDup out x : NoDup out -> NoDup (addDenied out x).
Proof.
  intros Ho. unfold addDenied.
  destruct (bool_decide (TrimSpace x = [])) eqn:E1; simpl; [done|].
  destruct (bool_decide (TrimSpace x ∈ out)) eqn:E2; bool_cases; [done|].
  apply NoDup_app. split; [done|]. split; [set_solver | apply NoDup_singleton].
Qed.

Lemma fold_addDenied_NoDup l out : NoDup out -> NoDup (fold_left addDenied l out).
Proof.
  revert out. induction l as [|x l IH]; intros out Ho; simpl; [done|].
  apply IH. by apply addDenied_NoDup.
Qed.

Lemma addDenied_length out x : (length (addDenied out x) <= S (length out))%nat.
Proof.
  unfold addDenied. destruct (_ || _); [lia|]. rewrite length_app. simpl. lia.
Qed.

Lemma fold_addDenied_length l out :
  (length (fold_left addDenied l out) <= length out + length l)%nat.
Proof.
  revert out. induction l as [|x l IH]; intros out; simpl; [lia|].
  specialize (IH (addDenied out x)). pose proof (addDenied_length out x). lia.
Qed.

Definition rawLines (raw : option bytes) : list bytes :=
  match raw with Some raw => Split nl raw | None => [] end.

Lemma mergeDenied_eq recorded raw :
  mergeDenied recorded raw =
  keep_last maxDeniedTracked (fold_left addDenied (recorded ++ rawLines raw) []).
Proof. unfold mergeDenied, rawLines. rewrite fold_left_app. by destruct raw. Qed.

Lemma mergeDenied_small recorded raw v :
  (length recorded + length (rawLines raw) <= maxDeniedTracked)%nat ->
  v ∈ mergeDenied recorded raw <->
  v ≠ [] /\ exists x, (x ∈ recorded \/ x ∈ rawLines raw) /\ TrimSpace x = v.
Proof.
  intros Hlen. rewrite mergeDenied_eq, keep_last_all.
  - rewrite elem_of_fold_addDenied. setoid_rewrite elem_of_app. set_solver.
  - etransitivity; [apply fold_addDenied_length|]. rewrite length_app. simpl. lia.
Qed.

(** The denylist the agent consults is duplicate free, holds at most
    [maxDeniedTracked] versions, never a blank one, and only versions that the
    state file or the guard's list names. *)
Theorem mergeDenied_wellformed recorded raw :
  NoDup (mergeDenied recorded raw) /\
  (length (mergeDenied recorded raw) <= maxDeniedTracked)%nat /\
  forall v, v ∈ mergeDenied recorded raw ->
    v ≠ [] /\ exists x, (x ∈ recorded \/ x ∈ rawLines raw) /\ TrimSpace x = v.
Proof.
  rewrite mergeDenied_eq. split; [|split].
  - apply keep_last_NoDup, fold_addDenied_NoDup, NoDup_nil_2.
  - apply keep_last_le.
  - intros v Hv. apply elem_of_keep_last, elem_of_fold_addDenied in Hv as [Hv|Hv]; [set_solver|].
    setoid_rewrite elem_of_app in Hv. done.
Qed.

(** The two records of a sequence of rollbacks: the state file's list and the
    plain-text file [Deny] appends to. *)
Definition recordedDenied (vs : list bytes) : list bytes := fold_left appendDenied vs [].
Definition deniedText (vs : list bytes) : bytes := flat_map (fun v => TrimSpace v ++ [nl]) vs.

(** A version without surrounding blanks or line breaks. *)
Definition clean (v : bytes) : Prop := v ≠ [] /\ TrimSpace v = v /\ nl ∉ v.

Lemma Split_deniedText vs :
  Forall clean vs -> Split nl (deniedText vs) = vs ++ [[]].
Proof.
  induction 1 as [|v vs [Hv [Ht Hn]] Hvs IH]; [done|].
  cbn [deniedText flat_map]. rewrite Ht, <- app_assoc. simpl.
  rewrite Split_app_sep, Split_no_sep by done. simpl. f_equal. exact IH.
Qed.

Lemma recordedDenied_small vs out :
  Forall clean vs -> NoDup (out ++ vs) -> (length (out ++ vs) <= maxDeniedTracked)%nat ->
  fold_left appendDenied vs out = out ++ vs.
Proof.
  intros Hc. revert out. induction Hc as [|v vs [Hv [Ht Hn]] Hvs IH]; intros out Hnd Hlen; simpl.
  - by rewrite app_nil_r.
  - replace (out ++ v :: vs) with ((out ++ [v]) ++ vs) in * by (by rewrite <- app_assoc).
    rewrite <- IH by done. f_equal. unfold appendDenied.
    rewrite Ht, !bool_decide_eq_false_2; [|apply NoDup_app in Hnd as [Hnd _];
      apply NoDup_app in Hnd; set_solver|done].
    apply keep_last_all. rewrite !length_app in *. lia.
Qed.

Lemma fold_addDenied_fresh vs out :
  Forall clean vs -> NoDup (out ++ vs) -> fold_left addDenied vs out = out ++ vs.
Proof.
  intros Hc. revert out. induction Hc as [|v vs [Hv [Ht Hn]] Hvs IH]; intros out Hnd; simpl.
  - by rewrite app_nil_r.
  - replace (out ++ v :: vs) with ((out ++ [v]) ++ vs) in * by (by rewrite <- app_assoc).
    rewrite <- IH by done. f_equal. unfold addDenied. rewrite Ht, !bool_decide_eq_false_2; [done| |done].
    apply NoDup_app in Hnd as [Hnd _]. apply NoDup_app in Hnd. set_solver.
Qed.

Lemma fold_addDenied_seen vs out :
  Forall (fun v => TrimSpace v = [] \/ TrimSpace v ∈ out) vs -> fold_left addDenied vs out = out.
Proof.
  induction 1 as [|v vs Hv Hvs IH]; simpl; [done|].
  replace (addDenied out v) with out; [done|]. unfold addDenied.
  destruct Hv as [Hv|Hv]; [by rewrite (bool_decide_eq_true_2 (TrimSpace v = []))|].
  by rewrite (bool_decide_eq_true_2 (TrimSpace v ∈ out)), orb_true_r.
Qed.

(** A host that has rolled back at most [maxDeniedTracked] distinct
    versions denies exactly those versions, in order. *)
Theorem denylist_is_exact_within_the_cap vs :
  Forall clean vs -> NoDup vs -> (length vs <= maxDeniedTracked)%nat ->
  mergeDenied (recordedDenied vs) (Some (deniedText vs)) = vs.
Proof.
  intros Hc Hnd Hlen. unfold mergeDenied, recordedDenied.
  rewrite (recordedDenied_small vs []) by done. simpl.
  rewrite (fold_addDenied_fresh vs []) by done. simpl.
  rewrite Split_deniedText by done. rewrite fold_left_app.
  rewrite (fold_addDenied_seen vs vs); [by apply keep_last_all|].
  apply Forall_forall. intros v Hv. right. rewrite Forall_forall in Hc.
  by destruct (Hc v Hv) as (_ & -> & _).
Qed.

(** Versions [v1], [v2], ... for the examples. *)
Definition version_n (n : nat) : bytes := str "v" ++ Itoa (Z.of_nat n).

(** Past the cap the newest rollback is the one forgotten.  After
    sixty-four distinct versions were rolled back, the state file keeps the
    newest thirty-two, the text file lists all of them, and merging re-appends
    the oldest behind the newest before cutting: the version that was just
    rolled back is not denied. *)
Theorem denylist_forgets_the_newest_past_the_cap :
  let vs := map version_n (seq 1 64) in
  version_n 64 ∈ recordedDenied vs /\
  version_n 64 ∉ mergeDenied (recordedDenied vs) (Some (deniedText vs)).
Proof.
  split.
  - apply (bool_decide_eq_true_1 _). by vm_compute.
  - apply (bool_decide_eq_true_1 (_ ∉ _)). by vm_compute.
Qed.
