(* ===== verification/Rollback.v ===== *)
(** * Rollback: the theorems about the update tracker

    What survives a crash, what the denylist is worth, when the previous
    binary comes back and when a build may be called healthy.  The
    definitions are those of [Tracker]; [demo_json] is a concrete codec for
    the examples. *)
From S2P Require Import Prelude GoLib GoOS Swap Tracker.

(** ** A concrete codec *)

Definition state_tuple (s : State) :=
  (PendingVersion s, PreviousVersion s, Target s, Backup s, SwappedAt s, Starts s,
   (Healthy s, HealthyAt s, RolledBack s, Unproven s, Denied s,
    (Finalizing s, FinalizerPID s, FinalizeErr s, FinalizedAt s))).

Definition tuple_state t : State :=
  match t with
  | (a, b, c, d, e, f, (g, h, i, j, k, (l, m, n, o))) => mkState a b c d e f g h i j k l m n o
  end.

#[global] Instance State_eq_dec : EqDecision State.
Proof. solve_decision. Defined.

#[global] Instance State_countable : Countable State :=
  inj_countable' state_tuple tuple_state ltac:(by intros []).

#[export] Instance demo_json : JSON State := countable_json decoded_stored.

(** ** Operations without faults *)

Section quiet.
Context `{Platform} {JS : JSON State}.
Context (StateDir : path).
Implicit Types (d : disk) (c : Z) (ts : list Z) (st : State).

Abbreviation load d := (stateOf StateDir d).

Lemma Load_quiet d c ts :
  Load StateDir (World d c ts []) = (Ret (Ok (load d)), World d c ts []).
Proof.
  unfold Load, stateOf, bind, ReadFile, syscall. cbn [faults files clock ticks].
  destruct (d !! statePath StateDir) as [f|]; cbn beta iota; [|done].
  by destruct (Unmarshal (f_data f)).
Qed.

Lemma Save_quiet d c ts st raw :
  MarshalIndent st = Some raw ->
  exists d', Save StateDir st (World d c ts []) = (Ret (Ok tt), World d' c ts []) /\
    frame [stateTmp StateDir; statePath StateDir] d d' /\ load d' = stored st.
Proof.
  intros Hm.
  destruct (Save StateDir st (World d c ts [])) as [o w'] eqn:E. pose proof E as E'.
  unfold Save, try_as, bind, MkdirAll, WriteRename, WriteFile, Rename, syscall in E'.
  rewrite Hm in E'. cbn [faults files clock ticks ret try_as bind] in E'.
  unfold try_as, bind in E'. cbn [faults files clock ticks ret] in E'.
  rewrite lookup_insert_eq in E'. cbn in E'. injection E' as <- <-.
  eexists. split; [reflexivity|].
  assert (Hwp : wp (Save StateDir st)
    (fun r w' => r = Ok tt -> frame [stateTmp StateDir; statePath StateDir] d (files w') /\
       load (files w') = stored st) (fun _ => True) (World d c ts [])).
  { apply wp_Save; cbn [files]; [done|]. split; [done|done]. }
  unfold wp in Hwp. rewrite E in Hwp. by apply Hwp.
Qed.

Lemma RemoveAll_quiet wrap ps d c ts :
  exists d', RemoveAll wrap ps (World d c ts []) = (Ret (Ok tt), World d' c ts []) /\
    frame ps d d' /\ (forall p, p ∈ ps -> d' !! p = None) /\
    (forall p, d !! p = None -> d' !! p = None).
Proof.
  revert d. induction ps as [|p ps IH]; intros d; simpl.
  - exists d. split; [done|]. split; [apply frame_refl|]. split; [set_solver | done].
  - destruct (d !! p) as [f|] eqn:E.
    + destruct (IH (delete p d)) as (d' & Hr & Hf & Hn & Hk). exists d'.
      unfold bind, Remove, syscall. cbn [faults files clock ticks]. rewrite E. split; [exact Hr|].
      split; [|split].
      * apply (frame_trans _ _ (delete p d)); [apply frame_delete; set_solver|].
        eapply frame_weaken; [|done]. set_solver.
      * intros q [->|Hq]%elem_of_cons; [|by apply Hn]. apply Hk. apply lookup_delete_eq.
      * intros q Hq. apply Hk. rewrite lookup_delete. by case_decide.
    + destruct (IH d) as (d' & Hr & Hf & Hn & Hk). exists d'.
      unfold bind, Remove, syscall. cbn [faults files clock ticks]. rewrite E.
      cbn beta iota. change (IsNotExist ErrNotExist) with true. split; [exact Hr|].
      split; [eapply frame_weaken; [|done]; set_solver|]. split; [|done].
      intros q [->|Hq]%elem_of_cons; [by apply Hk | by apply Hn].
Qed.

Lemma RestoreBackup_quiet target bk d c ts :
  d !! BackupPath target = Some bk -> f_reg bk = true ->
  RestoreBackup target (World d c ts []) =
    (Ret (Ok tt), World (<[target := File (f_data bk) true 493]> (delete (BackupPath target) d)) c ts []).
Proof.
  intros Hb Hr. unfold RestoreBackup, bind, try_as, Stat, Rename, Chmod, syscall.
  cbn [faults files clock ticks]. unfold bind. cbn [faults files clock ticks].
  rewrite Hb. cbn beta iota. rewrite Hr. cbn [negb faults files clock ticks].
  rewrite Hb. cbn beta iota. cbn [faults files clock ticks]. rewrite lookup_insert_eq.
  by rewrite insert_insert_eq, Hr.
Qed.

Lemma Deny_quiet v d c ts :
  clean v ->
  exists d', Deny StateDir v (World d c ts []) = (Ret (Ok tt), World d' c ts []) /\
    frame [deniedPath StateDir] d d' /\
    deniedRaw StateDir d' = Some (default [] (deniedRaw StateDir d) ++ v ++ [nl]).
Proof.
  intros (Hv & Ht & _). unfold Deny. rewrite Ht, bool_decide_eq_false_2 by done.
  eexists. split.
  { unfold try_as, bind, MkdirAll, AppendFile, syscall. cbn [faults files clock ticks]. reflexivity. }
  split.
  - eapply frame_trans; apply frame_insert; set_solver.
  - unfold deniedRaw. rewrite lookup_insert_eq. simpl. f_equal. unfold extended at 1.
    rewrite lookup_insert_eq. unfold extended. destruct (d !! deniedPath StateDir); simpl; [|done].
    by rewrite app_nil_r.
Qed.

Lemma finishRollback_quiet d c ts st raw :
  MarshalIndent st = Some raw ->
  exists d', finishRollback StateDir st (World d c ts []) = (Ret (Ok tt), World d' c ts []) /\
    frame [stateTmp StateDir; statePath StateDir; probationPath StateDir; startsPath StateDir] d d' /\
    load d' = stored st /\ d' !! probationPath StateDir = None /\ d' !! startsPath StateDir = None.
Proof.
  intros Hm. destruct (Save_quiet d c ts st raw Hm) as (d1 & Hs & Hf1 & Hl).
  destruct (RemoveAll_quiet (stateErr "remove") [probationPath StateDir; startsPath StateDir] d1 c ts)
    as (d2 & Hr & Hf2 & Hn & _).
  exists d2. unfold finishRollback. rewrite (try_Ok _ _ _ _ _ Hs). split; [done|].
  split; [|split; [|split]].
  - apply (frame_trans _ _ d1); (eapply frame_weaken; [|done]); set_solver.
  - rewrite <- Hl. eapply stateOf_frame; [done|]. unfold statePath, probationPath, startsPath.
    intros [Hp|[Hp|[]%not_elem_of_nil]%elem_of_cons]%elem_of_cons; by apply Join_inj in Hp.
  - apply Hn. set_solver.
  - apply Hn. set_solver.
Qed.
End quiet.

(** ** Paths of the state directory are distinct *)

Lemma Join_app dir a b : Join dir a ++ b = Join dir (a ++ b).
Proof. unfold Join. destruct dir; [done|]. by rewrite <- !app_assoc. Qed.

(** The files the tracker owns, apart from the append-only denylist. *)
Definition own_files (StateDir : path) : list path :=
  [statePath StateDir; stateTmp StateDir; markerPath StateDir; probationPath StateDir;
   probationTmp StateDir; startsPath StateDir].

Ltac path_ne :=
  unfold own_files, stateTmp, probationTmp in *;
  unfold statePath, markerPath, probationPath, startsPath, deniedPath in *;
  repeat match goal with
  | |- _ ∉ _ => intros ?
  | |- _ ≠ _ => intros ?
  | H : _ ∈ _ :: _ |- _ => apply elem_of_cons in H as [H|H]
  | H : _ ∈ [] |- _ => by apply not_elem_of_nil in H
  | H : Join _ _ = Join _ _ |- _ => apply Join_inj in H; discriminate H
  | H : context [Join _ _ ++ _] |- _ => rewrite Join_app in H
  end.

Section claims.
Context `{Platform} {JS : JSON State}.
Context (StateDir : path).
Implicit Types (d : disk) (st : State) (w : world).

Abbreviation load d := (stateOf StateDir d).

(** [Save] is atomic.  Whatever fails, and wherever the process dies,
    the next [Load] sees the record that was there before or the complete
    new one (its texts as valid UTF-8); a nil error means the new one; and no file but the state file
    and its temporary sibling is touched. *)
Theorem Save_is_crash_atomic st w :
  wp (Save StateDir st)
    (fun r w' => load (files w') = (if is_ok r then stored st else load (files w)) /\
       frame [stateTmp StateDir; statePath StateDir] (files w) (files w'))
    (fun d => load d = load (files w) /\
       frame [stateTmp StateDir; statePath StateDir] (files w) d) w.
Proof.
  assert (Hkeep : forall d, frame [stateTmp StateDir] (files w) d ->
    load d = load (files w) /\ frame [stateTmp StateDir; statePath StateDir] (files w) d).
  { intros d Hf. split; [eapply stateOf_frame; [done | path_ne]|].
    eapply frame_weaken; [|done]. set_solver. }
  apply wp_Save; auto.
Qed.

Lemma wp_writeProbation st (Q : res error unit -> world -> Prop) C w :
  (forall d' fs f, frame (own_files StateDir) (files w) d' -> load d' = load (files w) ->
     d' !! probationPath StateDir = Some f -> f_data f = renderProbation st ->
     Q (Ok tt) (World d' (clock w) (ticks w) fs)) ->
  (forall d' fs e, frame (own_files StateDir) (files w) d' -> load d' = load (files w) ->
     Q (Err e) (World d' (clock w) (ticks w) fs) /\ C d') ->
  wp (writeProbation StateDir st) Q C w.
Proof.
  intros Hok Hbad. unfold writeProbation.
  assert (Hload : forall d', frame [probationTmp StateDir; probationPath StateDir] (files w) d' ->
    frame (own_files StateDir) (files w) d' /\ load d' = load (files w)).
  { intros d' Hf. split; [|eapply stateOf_frame; [done | path_ne]].
    eapply frame_weaken; [|done]. unfold own_files. set_solver. }
  wp_step. wp_step; [|by apply Hbad|by apply (Hbad _ [] ErrIO)].
  apply wp_WriteRename; cbn [files with_faults clock ticks].
  - intros d' fs' f Hf Hl Hd. destruct (Hload d' Hf). by apply Hok with f.
  - intros d' fs' e Hf. destruct (Hload d').
    { eapply frame_weaken; [|done]. unfold probationTmp. set_solver. }
    by apply Hbad.
Qed.

(** The disk still holds the same record and only owned files differ. *)
Definition keeps d d' : Prop :=
  frame (own_files StateDir) d d' /\ load d' = load d.

#[local] Instance keeps_preorder : PreOrder keeps.
Proof.
  split.
  - intros d. split; [apply frame_refl | done].
  - intros d1 d2 d3 [H1 E1] [H2 E2]. split; [exact (frame_trans _ _ _ _ H1 H2) | congruence].
Qed.

Lemma keeps_frame ps d d' :
  frame ps d d' -> ps ⊆ own_files StateDir -> statePath StateDir ∉ ps -> keeps d d'.
Proof.
  intros Hf Hs Hp. split; [by eapply frame_weaken|]. by eapply stateOf_frame.
Qed.

(** Dropping a stale companion file keeps the record. *)
Lemma wp_forget (p : path) {B} (k : io B) (Q : B -> world -> Prop) (C : disk -> Prop) w :
  p ∈ [markerPath StateDir; startsPath StateDir; probationPath StateDir] ->
  (forall d fs, keeps (files w) d -> wp k Q C (World d (clock w) (ticks w) fs)) ->
  C (files w) -> wp (let* _ := ignore (Remove p) in k) Q C w.
Proof.
  intros Hp Hk HC.
  assert (Hdel : keeps (files w) (delete p (files w))).
  { apply (keeps_frame [p]); [apply frame_delete; set_solver| |].
    - unfold own_files. set_solver.
    - intros Hs%list_elem_of_singleton. subst p. path_ne. }
  do 3 wp_step; [..|done]; wp_step; apply Hk; [done | reflexivity].
Qed.

(** Writing the record and then its probation file. *)
Lemma wp_saveAndProbation st (Q : res error unit -> world -> Prop) C w :
  (forall d' fs f, frame (own_files StateDir) (files w) d' -> load d' = stored st ->
     d' !! probationPath StateDir = Some f -> f_data f = renderProbation st ->
     Q (Ok tt) (World d' (clock w) (ticks w) fs)) ->
  (forall d' fs e, frame (own_files StateDir) (files w) d' ->
     (load d' = load (files w) \/ load d' = stored st) ->
     Q (Err e) (World d' (clock w) (ticks w) fs) /\ C d') ->
  wp (try* _ := Save StateDir st in writeProbation StateDir st) Q C w.
Proof.
  intros Hok Hbad. wp_step. apply wp_Save.
  - intros d fs Hf Hl.
    assert (Hfd : frame (own_files StateDir) (files w) d).
    { eapply frame_weaken; [|done]. unfold own_files. set_solver. }
    apply wp_writeProbation; cbn [files clock ticks]; rewrite Hl; intros.
    + eapply Hok; [exact (frame_trans _ _ _ _ Hfd H0)|done|done|done].
    + apply Hbad; [exact (frame_trans _ _ _ _ Hfd H0) | by right].
  - intros d fs e Hf. assert (Hk : keeps (files w) d).
    { eapply keeps_frame; [done|unfold own_files; set_solver|path_ne]. }
    destruct Hk. apply Hbad; [done | by left].
Qed.

(** The record [BeginUpdate] makes, on every path. *)
Lemma wp_BeginUpdate newVersion prevVersion target backup w :
  let st := mkState newVersion prevVersion target backup (clock w) [] false zero_time false false
              (Denied (load (files w))) false 0 [] zero_time in
  wp (BeginUpdate StateDir newVersion prevVersion target backup)
    (fun r w' =>
       frame (own_files StateDir) (files w) (files w') /\
       Denied (load (files w')) = Denied (load (files w)) /\
       (r = Ok tt -> load (files w') = stored st /\
          exists f, files w' !! probationPath StateDir = Some f /\ f_data f = renderProbation st))
    (fun d => frame (own_files StateDir) (files w) d /\
              Denied (load d) = Denied (load (files w))) w.
Proof.
  intros st. unfold BeginUpdate. wp_step. apply wp_Load; [|done|done]. intros fs0.
  apply wp_forget; [set_solver| |done]. intros d1 fs1 K1. cbn [files with_faults] in K1.
  apply wp_forget; [set_solver| |by destruct K1 as [Hk1 E1]; cbn [files]; rewrite E1].
  intros d2 fs2 K2. cbn [files clock ticks with_faults] in *.
  assert (keeps (files w) d2) as [Hf Hl] by (by etransitivity).
  do 2 wp_step. fold st. apply wp_saveAndProbation; cbn [files clock ticks].
  - intros d' fs' f Hf' Hl' Hp Hd. rewrite Hl'. split; [exact (frame_trans _ _ _ _ Hf Hf')|].
    split; [exact (stored_Denied StateDir (files w))|]. intros _. split; [done|]. by exists f.
  - intros d' fs' e Hf' Hl'. pose proof (frame_trans _ _ _ _ Hf Hf').
    assert (Denied (load d') = Denied (load (files w))) by (destruct Hl' as [->| ->]; [by rewrite Hl | exact (stored_Denied StateDir (files w))]).
    done.
Qed.

(** A completed [BeginUpdate] leaves exactly one record: the new version
    on probation since now with no starts counted, and a probation file that
    renders it for the guard.  Whatever else happens, on an error or a crash
    the versions already denied are still denied. *)
Theorem BeginUpdate_records_the_update newVersion prevVersion target backup w :
  let st := mkState newVersion prevVersion target backup (clock w) [] false zero_time false false
              (Denied (load (files w))) false 0 [] zero_time in
  wp (BeginUpdate StateDir newVersion prevVersion target backup)
    (fun r w' =>
       frame (own_files StateDir) (files w) (files w') /\
       Denied (load (files w')) = Denied (load (files w)) /\
       (r = Ok tt -> load (files w') = stored st /\
          exists f, files w' !! probationPath StateDir = Some f /\ f_data f = renderProbation st))
    (fun d => frame (own_files StateDir) (files w) d /\
              Denied (load d) = Denied (load (files w))) w.
Proof. apply wp_BeginUpdate. Qed.

(** *** Bookkeeping touches only its own files *)

Inductive bookkeeping : Type :=
  | OpClear
  | OpBeginUpdate (newVersion prevVersion : bytes) (target backup : path)
  | OpBeginFinalize (pid : Z)
  | OpFinalizeOutcome (failure : option bytes)
  | OpRecordStart
  | OpMark (unproven : bool)
  | OpWatch (cfg : WatchConfig) (alive : bool) (rounds : list round)
  | OpReport.

Definition exec (op : bookkeeping) : io unit :=
  let drop {A} (m : io A) := let* _ := m in ret tt in
  match op with
  | OpClear => drop (Clear StateDir)
  | OpBeginUpdate v p t b => drop (BeginUpdate StateDir v p t b)
  | OpBeginFinalize pid => drop (BeginFinalize StateDir pid)
  | OpFinalizeOutcome f => drop (FinalizeOutcome StateDir f)
  | OpRecordStart => drop (RecordStart StateDir)
  | OpMark u => drop (markHealthy StateDir u)
  | OpWatch cfg alive rounds => drop (Watch StateDir cfg alive rounds)
  | OpReport => drop (ReportStatus StateDir)
  end.

(** One run of one operation, possibly cut short, on a disk; the clock and
    the faults are the environment's choice each time. *)
Inductive step : disk -> disk -> Prop :=
  | step_exec op w o w' : exec op w = (o, w') -> step (files w) (files w').

Abbreviation own := (own_files StateDir).

Lemma confined_Save st : confined own (Save StateDir st).
Proof.
  intros w. apply wp_Save.
  - intros d fs Hf _. eapply frame_weaken; [|done]. unfold own_files. set_solver.
  - intros d fs e Hf. assert (frame own (files w) d); [|done].
    eapply frame_weaken; [|done]. unfold own_files. set_solver.
Qed.

Lemma confined_writeProbation st : confined own (writeProbation StateDir st).
Proof. intros w. by apply wp_writeProbation. Qed.

Lemma confined_markHealthy u : confined own (markHealthy StateDir u).
Proof.
  unfold markHealthy.
  repeat (confined_step || apply confined_Load || apply confined_Save
    || (apply confined_WriteFile; unfold own_files; set_solver)
    || (apply confined_RemoveAll; unfold own_files; set_solver)).
Qed.

Lemma confined_watch_loop probe deadline rounds :
  confined own (watch_loop StateDir probe deadline rounds).
Proof.
  assert (Hmark : forall u, confined own (mark StateDir u)).
  { intros u. unfold mark. apply confined_bind; [apply confined_markHealthy|]. intros [|e].
    - apply confined_ret.
    - destruct (Is e ErrFinalizePending); apply confined_ret. }
  induction rounds as [|r rounds IH]; cbn [watch_loop]; [apply confined_ret|].
  repeat (apply IH || apply Hmark || confined_step).
Qed.

Lemma confined_exec op : confined own (exec op).
Proof.
  destruct op; cbn [exec];
    unfold Clear, BeginUpdate, BeginFinalize, FinalizeOutcome, RecordStart, Watch, sleepUntil,
      ReportStatus, DeniedList;
    repeat (apply confined_Load || apply confined_Save || apply confined_writeProbation
      || apply confined_markHealthy || apply confined_watch_loop || confined_step
      || (apply confined_RemoveAll; unfold own_files; set_solver)
      || (apply confined_ignore, confined_Remove; unfold own_files; set_solver)).
  intros w. unfold wp, SleepTo. apply frame_refl.
Qed.

(** No sequence of bookkeeping operations, whatever fails in them and
    wherever the process is killed between or inside them, touches a file
    other than the tracker's own: the denylist file, the binary and its
    backup are exactly as they were.  In particular ending a probation never
    deletes the previous binary. *)
Theorem bookkeeping_touches_only_its_files d d' p :
  rtc step d d' -> p ∉ own_files StateDir -> d' !! p = d !! p.
Proof.
  intros Hsteps Hp. induction Hsteps as [d|d1 d2 d3 Hstep _ IH]; [done|].
  rewrite IH. destruct Hstep as [op w o w' Hex].
  pose proof (confined_exec op w) as Hc. unfold wp in Hc. rewrite Hex in Hc.
  destruct o; by apply Hc.
Qed.

(** While a finalizer is outstanding nothing can be declared healthy:
    both verdicts are refused with [ErrFinalizePending] (or the state file
    could not be read) and not a single file changes. *)
Theorem no_verdict_while_finalizing unproven w :
  Finalizing (load (files w)) = true ->
  wp (markHealthy StateDir unproven)
    (fun r w' => files w' = files w /\
       exists e, r = Err e /\ (Is e ErrFinalizePending = true \/ Is e ErrState = true))
    (fun d => d = files w) w.
Proof.
  intros Hfin. unfold markHealthy. wp_step. unfold Load, stateOf in *.
  wp_step. wp_step; [|rewrite Is_IO_NotExist; wp_step; eauto|done].
  destruct (files w !! statePath StateDir) as [f|].
  - destruct (Unmarshal (f_data f)) as [st|]; simpl in Hfin; [|done].
    wp_step. rewrite Hfin. wp_step. eauto.
  - done.
Qed.

(** The probation record ends exactly once and for the reason given: a
    completed [markHealthy] on a build on probation leaves it healthy, with
    the verdict recorded and the counters cleared, and still remembers both
    versions, the backup and the denylist. *)
Theorem markHealthy_ends_probation unproven w :
  Pending (load (files w)) = true ->
  wp (markHealthy StateDir unproven)
    (fun r w' => r = Ok tt ->
       let st := load (files w) in let st' := load (files w') in
       Pending st' = false /\ Healthy st' = true /\ Unproven st' = unproven /\ Starts st' = [] /\
       HealthyAt st' = clock w /\ PendingVersion st' = PendingVersion st /\
       PreviousVersion st' = PreviousVersion st /\ Backup st' = Backup st /\
       Denied st' = Denied st)
    (fun _ => True) w.
Proof.
  intros Hp. unfold markHealthy. wp_step. apply wp_Load; [|done|done]. intros fs.
  destruct (Finalizing (load (files w))); [by wp_step|].
  wp_step. wp_step; [|done|done]. wp_step. wp_step. wp_step. wp_step; [|done].
  rewrite Hp. cbn [negb]. wp_step. apply wp_Save; [|done]. intros d fs9 Hf Hl.
  eapply wp_mono; [apply confined_RemoveAll; reflexivity| |done].
  cbn [files]. intros r w' Hf' _. rewrite (stateOf_frame StateDir _ _ _ Hf') by path_ne.
  rewrite Hl. pose proof (stored_stateOf StateDir (files w)) as Hs. simpl. split; [unfold Pending; simpl; by rewrite andb_false_r|].
  repeat split; [exact (f_equal PendingVersion Hs)|exact (f_equal PreviousVersion Hs)|exact (f_equal Backup Hs)|exact (f_equal Denied Hs)].
Qed.

(** The server can stop tracking an update exactly when nothing is
    outstanding: the report is terminal iff no finalizer is running and the
    build is not on probation, where a failed finalize and a recorded
    rollback also end the probation. *)
Theorem report_terminal_iff st denied :
  rp_Terminal (reportOf st denied) = true <->
  Finalizing st = false /\
  (FinalizeErr st ≠ [] \/ RolledBack st = true \/ Pending st = false).
Proof.
  unfold reportOf, statusOf. simpl.
  destruct (Finalizing st); simpl; [naive_solver|].
  destruct (bool_decide (FinalizeErr st = [])) eqn:E; bool_cases; simpl; [|naive_solver].
  destruct (RolledBack st); simpl; [naive_solver|].
  destruct (Pending st) eqn:Ep; simpl; [naive_solver|].
  destruct (Healthy st), (Unproven st); naive_solver.
Qed.
End claims.

(** ** The rollback decision *)

Definition recent (now s : Z) : Prop := s <= now /\ now - s <= CrashWindow.

#[global] Instance recent_dec now s : Decision (recent now s).
Proof. unfold recent. apply _. Defined.

Lemma inWindow_spec now s : inWindow now s = true <-> recent now s.
Proof.
  unfold inWindow, recent, After, Sub. rewrite andb_true_iff, negb_true_iff, Z.ltb_ge, Z.leb_le.
  rewrite sat64_le by (by vm_compute). change CrashWindow with 120000000000.
  unfold max_int64. lia.
Qed.

Lemma countStarts_filter starts now :
  countStarts starts now = length (filter (recent now) starts).
Proof.
  induction starts as [|s starts IH]; simpl; [done|].
  rewrite filter_cons. destruct (inWindow now s) eqn:E.
  - apply inWindow_spec in E. rewrite decide_True by done. simpl. by rewrite IH.
  - rewrite decide_False; [done|]. intros Hr. apply inWindow_spec in Hr. congruence.
Qed.

Lemma countStarts_snoc starts now :
  countStarts (starts ++ [now]) now = S (countStarts starts now).
Proof.
  rewrite !countStarts_filter, filter_app, length_app, filter_cons_True; [simpl; lia|].
  unfold recent. change CrashWindow with 120000000000. lia.
Qed.

Lemma Pending_spec st : Pending st = true <-> PendingVersion st ≠ [] /\ Healthy st = false.
Proof. unfold Pending. rewrite andb_true_iff, !negb_true_iff, bool_decide_eq_false. done. Qed.

Lemma shouldRollback_count st external now :
  shouldRollback st external now = true <->
  Pending st = true /\ Backup st ≠ [] /\ Target st ≠ [] /\ RolledBack st = false /\
  (CrashLimit < countStarts (Starts st) now \/ CrashLimit < countStarts external now)%nat.
Proof.
  unfold shouldRollback. destruct (Pending st); simpl; [|naive_solver].
  destruct (bool_decide (Backup st = [])) eqn:E1; bool_cases; simpl; [naive_solver|].
  destruct (bool_decide (Target st = [])) eqn:E2; bool_cases; simpl; [naive_solver|].
  destruct (RolledBack st); [naive_solver|].
  destruct (Nat.ltb_spec (countStarts (Starts st) now) (countStarts external now));
    rewrite Nat.ltb_lt; split; try naive_solver lia.
Qed.

(** The rollback decision, as a proposition: the build is on probation,
    knows its target and backup and was not rolled back already, and more than
    [CrashLimit] launches, by its own count or by the guard's, lie in the two
    minutes before now.  Launches in the future never count. *)
Theorem shouldRollback_iff st external now :
  shouldRollback st external now = true <->
  PendingVersion st ≠ [] /\ Healthy st = false /\ RolledBack st = false /\
  Backup st ≠ [] /\ Target st ≠ [] /\
  (CrashLimit < length (filter (recent now) (Starts st)) \/
   CrashLimit < length (filter (recent now) external))%nat.
Proof.
  rewrite shouldRollback_count, Pending_spec, !countStarts_filter. naive_solver.
Qed.

(** *** Line counts of the denylist file *)

Lemma Split_length_app sep a b :
  S (length (Split sep (a ++ b))) = (length (Split sep a) + length (Split sep b))%nat.
Proof.
  induction a as [|c a IH]; simpl; [done|]. case_decide; simpl.
  - by rewrite <- IH.
  - destruct (Split sep a) eqn:E1; [by apply Split_not_nil in E1|].
    destruct (Split sep (a ++ b)) eqn:E2; [by apply Split_not_nil in E2|]. simpl in *. lia.
Qed.

Lemma rawLines_append raw v :
  nl ∉ v -> (length (rawLines (Some (default [] raw ++ v ++ [nl]))) <= length (rawLines raw) + 2)%nat.
Proof.
  intros Hv. assert (Hl : length (Split nl (v ++ [nl])) = 2%nat).
  { by rewrite Split_app_sep, Split_no_sep. }
  destruct raw as [raw|]; simpl; [|lia].
  pose proof (Split_length_app nl raw (v ++ [nl])). lia.
Qed.

Lemma appendDenied_elem l v : clean v -> v ∈ appendDenied l v.
Proof.
  intros (Hv & Ht & _). unfold appendDenied. rewrite Ht, bool_decide_eq_false_2 by done.
  destruct (bool_decide (v ∈ l)) eqn:E; bool_cases; [done|].
  apply keep_last_last. unfold maxDeniedTracked. lia.
Qed.

Lemma appendDenied_length l v : (length (appendDenied l v) <= S (length l))%nat.
Proof.
  unfold appendDenied. destruct (bool_decide _); [lia|]. destruct (bool_decide _); [lia|].
  rewrite keep_last_length, length_app. cbn [length]. lia.
Qed.

Section rollback.
Context `{Platform} {JS : JSON State}.
Context (StateDir : path).
Abbreviation load d := (stateOf StateDir d).

(** A binary outside the state directory's files. *)
Definition outside (t : path) : Prop :=
  t ∉ deniedPath StateDir :: own_files StateDir /\
  BackupPath t ∉ deniedPath StateDir :: own_files StateDir.

(** The record as [RecordStart] leaves it. *)
Definition started (st : State) (now : Z) : State :=
  set_Starts (keep_last maxStartsTracked (Starts st ++ [now])) st.

Lemma writable_started st c : writable st -> writableTime c -> writable (started st c).
Proof.
  intros [Hf Hs]%Forall_app Hc. apply Forall_app. split; [done|]. cbn [started Starts set_Starts].
  apply Forall_forall. intros x Hx%elem_of_keep_last. revert x Hx. apply Forall_forall, Forall_app. split; [done|by constructor].
Qed.

Lemma writable_rolledBack st : writable st -> writable (rolledBackState st).
Proof. intros [Hf _]%Forall_app. apply Forall_app. by split; [|constructor]. Qed.

Lemma decoded_started st c : decoded st -> decoded (started st c).
Proof. done. Qed.

Lemma decoded_rolledBack st : clean (PendingVersion st) -> decoded st -> decoded (rolledBackState st).
Proof.
  intros (_ & Ht & _) [Hf Hd]%Forall_app. apply Forall_app. split; [repeat apply Forall_cons in Hf as [? Hf]; by repeat constructor|].
  change (Denied (rolledBackState st)) with (appendDenied (Denied st) (PendingVersion st)). unfold appendDenied. rewrite Ht. destruct (bool_decide _); [done|]. destruct (bool_decide _); [done|].
  apply Forall_forall. intros x Hx%elem_of_keep_last. revert x Hx. apply Forall_forall, Forall_app. split; [done|].
  apply Forall_cons in Hf as [Hv _]. by constructor.
Qed.

Lemma RecordStart_quiet d c :
  writable (load d) -> writableTime c -> Pending (load d) = true ->
  exists d1, RecordStart StateDir (World d c [] []) =
      (Ret (Ok (started (load d) c)), World d1 c [] []) /\
    frame [stateTmp StateDir; statePath StateDir] d d1 /\ load d1 = started (load d) c.
Proof.
  intros Hw Hc Hp. destruct (json_writes (started (load d) c)) as [raw Hraw]; [by apply writable_started|].
  destruct (Save_quiet StateDir d c [] _ raw Hraw) as (d1 & Hs & Hf & Hl).
  rewrite stored_decoded in Hl by apply decoded_started, stateOf_decoded.
  exists d1. split; [|done]. unfold RecordStart.
  rewrite (try_Ok _ _ _ _ _ (Load_quiet StateDir d c [])). rewrite Hp. cbn [negb].
  rewrite (bind_Ret Now _ (World d c [] []) c (World d c [] [])) by done.
  fold (started (load d) c). by rewrite (try_Ok _ _ _ _ _ Hs).
Qed.

Lemma reconcile_on_probation d c :
  d !! probationPath StateDir ≠ None ->
  reconcileGuardRollback StateDir (World d c [] []) = (Ret (false, None), World d c [] []).
Proof.
  intros Hpr. unfold reconcileGuardRollback.
  rewrite (bind_Ret _ _ _ _ _ (Load_quiet StateDir d c [])).
  destruct (negb (Pending (load d)) || RolledBack (load d)); [done|].
  unfold bind, Stat, syscall. cbn [faults files clock ticks].
  destruct (d !! probationPath StateDir); done.
Qed.

Lemma externalStarts_quiet d c :
  exists ext, externalStarts StateDir (World d c [] []) = (Ret ext, World d c [] []).
Proof.
  unfold externalStarts, bind, ReadFile, syscall. cbn [faults files clock ticks].
  destruct (d !! startsPath StateDir); eauto.
Qed.

(** The third launch inside the crash window, step by step. *)
Lemma rollback_run d c bk :
  let st := load d in let v := PendingVersion st in let t := Target st in
  writable st -> writableTime c -> Pending st = true -> clean v -> RolledBack st = false ->
  Backup st ≠ [] -> t ≠ [] -> outside t ->
  d !! probationPath StateDir ≠ None ->
  (length (Starts st) < maxStartsTracked)%nat -> (CrashLimit <= countStarts (Starts st) c)%nat ->
  d !! BackupPath t = Some bk -> f_reg bk = true ->
  exists d', CheckAndRollback StateDir (World d c [] []) = (Ret (true, None), World d' c [] []) /\
    d' !! t = Some (File (f_data bk) true 493) /\
    load d' = rolledBackState (started st c) /\
    deniedRaw StateDir d' = Some (default [] (deniedRaw StateDir d) ++ v ++ [nl]) /\
    d' !! probationPath StateDir = None /\ d' !! startsPath StateDir = None.
Proof.
  intros st v t Hw Hc Hp Hv Hrb Hb Ht [Ho1 Ho2] Hpr Hlen Hcnt Hbk Hreg.
  destruct (RecordStart_quiet d c Hw Hc Hp) as (d1 & Hrs & Hf1 & Hl1).
  destruct (externalStarts_quiet d1 c) as [ext Hext].
  assert (Hsr : shouldRollback (started st c) ext c = true).
  { apply shouldRollback_count. do 4 (split; [done|]). left.
    change (Starts (started st c)) with (keep_last maxStartsTracked (Starts st ++ [c])).
    rewrite keep_last_all by (rewrite length_app; cbn [length]; lia).
    rewrite countStarts_snoc. lia. }
  assert (Hown : forall p, p ∉ own_files StateDir -> d1 !! p = d !! p).
  { intros p Hpn. apply Hf1. revert Hpn. unfold own_files. set_solver. }
  assert (Hbk1 : d1 !! BackupPath t = Some bk) by (rewrite Hown by set_solver; done).
  set (d2 := <[t := File (f_data bk) true 493]> (delete (BackupPath t) d1)).
  destruct (Deny_quiet StateDir v d2 c [] Hv) as (d3 & Hd3 & Hf3 & Hraw3).
  destruct (json_writes (rolledBackState (started st c))) as [raw Hraw]; [by apply writable_rolledBack, writable_started|].
  destruct (finishRollback_quiet StateDir d3 c [] _ raw Hraw) as (d4 & Hd4 & Hf4 & Hl4 & Hp4 & Hs4).
  rewrite stored_decoded in Hl4 by (apply decoded_rolledBack, decoded_started, stateOf_decoded; exact Hv).
  exists d4. split.
  { unfold CheckAndRollback. rewrite (bind_Ret _ _ _ _ _ (reconcile_on_probation d c Hpr)).
    cbn beta iota. cbn [orb]. rewrite (bind_Ret _ _ _ _ _ Hrs), (bind_Ret _ _ _ _ _ Hext).
    rewrite (bind_Ret Now _ (World d1 c [] []) c (World d1 c [] [])) by done.
    fold st. rewrite Hsr. cbn [negb].
    rewrite (bind_Ret _ _ _ _ _ (RestoreBackup_quiet t bk d1 c [] Hbk1 Hreg)). fold d2.
    change (PendingVersion (started st c)) with v. rewrite (bind_Ret _ _ _ _ _ Hd3).
    by rewrite (bind_Ret _ _ _ _ _ Hd4). }
  split; [|split; [done|split; [|done]]].
  - rewrite Hf4 by (revert Ho1; unfold own_files; set_solver). rewrite Hf3 by set_solver.
    apply lookup_insert_eq.
  - rewrite (deniedRaw_frame _ _ _ _ Hf4) by path_ne. rewrite Hraw3. do 3 f_equal.
    unfold deniedRaw, d2. rewrite lookup_insert_ne, lookup_delete_ne by set_solver.
    rewrite Hown by path_ne. done.
Qed.

(** C16: The third launch of a build on probation inside two minutes brings
    the previous binary back.  [CheckAndRollback] returns true, the target
    holds the backup's bytes and is executable, the record says rolled back,
    the guard's files are gone, and the version is on the denylist the agent
    consults (as long as that list and the list of starts are not at their caps).
    The version is one line without surrounding blanks, the binary and its
    backup are not the tracker's own files, the clock and the record's times
    can be written as JSON, and no call fails. *)
Theorem third_start_restores_the_previous_binary d c bk :
  let st := load d in let v := PendingVersion st in let t := Target st in
  writable st -> writableTime c -> Pending st = true -> clean v -> RolledBack st = false ->
  Backup st ≠ [] -> t ≠ [] -> outside t ->
  d !! probationPath StateDir ≠ None ->
  (length (Starts st) < maxStartsTracked)%nat -> (CrashLimit <= countStarts (Starts st) c)%nat ->
  d !! BackupPath t = Some bk -> f_reg bk = true ->
  (length (Denied st) + length (rawLines (deniedRaw StateDir d)) + 3 <= maxDeniedTracked)%nat ->
  exists d', CheckAndRollback StateDir (World d c [] []) = (Ret (true, None), World d' c [] []) /\
    d' !! t = Some (File (f_data bk) true 493) /\
    Pending (load d') = false /\ RolledBack (load d') = true /\
    d' !! probationPath StateDir = None /\ d' !! startsPath StateDir = None /\
    v ∈ deniedOf StateDir d'.
Proof.
  intros st v t Hw Hc Hp Hv Hrb Hb Ht Ho Hpr Hlen Hcnt Hbk Hreg Hcap.
  destruct (rollback_run d c bk Hw Hc Hp Hv Hrb Hb Ht Ho Hpr Hlen Hcnt Hbk Hreg)
    as (d' & Hrun & Ht' & Hl & Hraw & Hp' & Hs').
  exists d'. do 2 (split; [done|]). rewrite Hl. do 2 (split; [done|]). do 2 (split; [done|]).
  unfold deniedOf. rewrite Hl, Hraw. fold st v.
  pose proof (appendDenied_elem (Denied st) v Hv) as Hin.
  pose proof (appendDenied_length (Denied st) v) as Hl1.
  pose proof (rawLines_append (deniedRaw StateDir d) v (proj2 (proj2 Hv))) as Hl2.
  apply mergeDenied_small.
  - change (Denied (rolledBackState (started st c))) with (appendDenied (Denied st) v). lia.
  - destruct Hv as (Hv0 & Htr & _). split; [done|]. exists v. split; [by left | done].
Qed.

(** *** Rollback under faults *)

(** The backed-up binary is where it was, or has been put back. *)
Definition intact (t : path) (d0 d : disk) : Prop := d !! t = d0 !! t /\ d !! BackupPath t = d0 !! BackupPath t.
Definition restored (t : path) (bk : file) (d : disk) : Prop :=
  (exists f, d !! t = Some f /\ f_data f = f_data bk) /\ d !! BackupPath t = None.

Lemma intact_frame t d0 d d' :
  outside t -> intact t d0 d -> frame (deniedPath StateDir :: own_files StateDir) d d' ->
  intact t d0 d'.
Proof. intros [Ho1 Ho2] [H1 H2] Hf. split; rewrite Hf by done; done. Qed.

Lemma restored_frame t bk d d' :
  outside t -> restored t bk d -> frame (deniedPath StateDir :: own_files StateDir) d d' ->
  restored t bk d'.
Proof. intros [Ho1 Ho2] [H1 H2] Hf. split; rewrite Hf by done; done. Qed.

Abbreviation all_files := (deniedPath StateDir :: own_files StateDir).

Lemma confined_own_all {A} (m : io A) : confined (own_files StateDir) m -> confined all_files m.
Proof. apply confined_weaken. set_solver. Qed.

Lemma confined_finishRollback st : confined all_files (finishRollback StateDir st).
Proof.
  apply confined_own_all. unfold finishRollback.
  apply confined_try; [apply confined_Save|]. intros _.
  apply confined_RemoveAll. unfold own_files. set_solver.
Qed.

Lemma confined_Deny v : confined all_files (Deny StateDir v).
Proof.
  unfold Deny. repeat (confined_step || (apply confined_AppendFile; set_solver)).
Qed.

Lemma confined_reconcile : confined all_files (reconcileGuardRollback StateDir).
Proof.
  unfold reconcileGuardRollback, IsDenied, DeniedList.
  repeat (apply confined_Load || apply confined_finishRollback || confined_step).
Qed.

Lemma confined_reads_only {A} (m : io A) w :
  confined [] m ->
  wp m (fun _ w' => files w' = files w) (fun d => d = files w) w.
Proof.
  intros Hm. eapply wp_mono; [apply Hm| |]; intros; apply map_eq; intros p; apply H0, not_elem_of_nil.
Qed.

Lemma IsDenied_reads_only v w :
  wp (IsDenied StateDir v) (fun _ w' => files w' = files w) (fun d => d = files w) w.
Proof.
  apply confined_reads_only. unfold IsDenied, DeniedList.
  repeat (apply confined_Load || confined_step).
Qed.

(** Reconciliation writes only when it reports that it handled the launch. *)
Lemma reconcile_false w :
  wp (reconcileGuardRollback StateDir)
    (fun r w' => frame all_files (files w) (files w') /\
       (r.1 = false -> load (files w') = load (files w)))
    (frame all_files (files w)) w.
Proof.
  pose proof (frame_refl all_files (files w)) as Hr.
  unfold reconcileGuardRollback. wp_step. apply wp_Load; [|done|done]. intros fs.
  destruct (negb _ || _); [by wp_step|]. wp_step. wp_step; [|change (negb (IsNotExist ErrIO)) with true; by wp_step|done].
  destruct (files w !! probationPath StateDir); [cbn [negb]; by wp_step|].
  change (negb (IsNotExist ErrNotExist)) with false. cbn beta iota zeta. wp_step.
  eapply wp_mono; [apply IsDenied_reads_only| |].
  2: { intros d ->. done. }
  intros denied w1 Hw1. cbn [files with_faults] in Hw1.
  destruct (negb denied); [wp_step; by rewrite Hw1|].
  wp_step. eapply wp_mono; [apply confined_finishRollback| |]; rewrite Hw1; [|done].
  intros [u|e] w2 Hf; by wp_step.
Qed.

(** [RecordStart] hands back the record on disk with one more start. *)
Lemma RecordStart_target w :
  wp (RecordStart StateDir)
    (fun r w' => frame all_files (files w) (files w') /\
       forall st, r = Ok st -> Target st = Target (load (files w)))
    (frame all_files (files w)) w.
Proof.
  unfold RecordStart. wp_step. apply wp_Load; [|split; [apply frame_refl | done]|apply frame_refl].
  intros fs. destruct (Pending (load (files w))); cbn [negb];
    [|wp_step; split; [apply frame_refl|]; by intros st [= <-]].
  wp_step. wp_step. wp_step. eapply wp_mono; [apply (confined_own_all _ (confined_Save _ _))| |done].
  intros [u|e] w' Hf; [wp_step|]; (split; [done|]); [by intros st [= <-] | done].
Qed.

Lemma restored_put_back (t : path) (bk : file) (mode : Z) (d0 d : disk) :
  outside t ->
  frame all_files (<[t := File (f_data bk) (f_reg bk) mode]> (delete (BackupPath t) d0)) d ->
  restored t bk d.
Proof.
  intros Ho Hf. eapply restored_frame; [done| |done].
  split; [eexists; split; [apply lookup_insert_eq | done]|].
  rewrite lookup_insert_ne by (apply not_eq_sym, BackupPath_ne). apply lookup_delete_eq.
Qed.

(** Everything after the decision. *)
Lemma rollback_tail bk st t d0 w :
  outside t -> frame all_files d0 (files w) ->
  files w !! BackupPath t = Some bk -> f_reg bk = true ->
  wp (let* r := RestoreBackup t in
      match r with
      | Err e =>
          let* r := finishRollback StateDir (set_PendingVersion [] (set_RolledBack true st)) in
          match r with Err saveErr => ret (false, Some saveErr) | Ok _ => ret (false, Some e) end
      | Ok _ =>
          let* r := Deny StateDir (PendingVersion st) in
          match r with
          | Err e => ret (true, Some e)
          | Ok _ =>
              let* r := finishRollback StateDir (rolledBackState st) in
              match r with Err e => ret (true, Some e) | Ok _ => ret (true, None) end
          end
      end)
    (fun '(rolled, _) w' =>
       (intact t d0 (files w') \/ restored t bk (files w')) /\
       (rolled = true -> restored t bk (files w')))
    (fun d => intact t d0 d \/ restored t bk d) w.
Proof.
  intros Ho Hf0 Hbk Hreg.
  set (put := <[t := bk]> (delete (BackupPath t) (files w))).
  assert (Hput : put = <[t := File (f_data bk) (f_reg bk) (f_mode bk)]> (delete (BackupPath t) (files w)))
    by (by destruct bk).
  assert (Hi : forall d, frame all_files (files w) d -> intact t d0 d).
  { intros d Hf. apply (intact_frame t d0 d0); [done|done|]. exact (frame_trans _ _ _ _ Hf0 Hf). }
  assert (Hr : forall d, frame all_files put d -> restored t bk d).
  { intros d. rewrite Hput. by apply restored_put_back. }
  wp_step. eapply wp_mono; [by apply (restore_spec t bk)| |].
  2: { intros d [->| ->]; auto using frame_refl. }
  intros [u|e] w1 Hw1; simpl in Hw1; wp_step.
  - assert (Hr1 : forall d, frame all_files (files w1) d -> restored t bk d).
    { intros d Hf. rewrite Hw1, insert_insert_eq in Hf. by eapply restored_put_back. }
    eapply wp_mono; [apply confined_Deny| |by auto].
    intros [u'|e'] w2 Hf2; [|wp_step; auto].
    wp_step. eapply wp_mono; [apply confined_finishRollback| |].
    2: { intros d Hf3. right. apply Hr1. exact (frame_trans _ _ _ _ Hf2 Hf3). }
    intros [u''|e''] w3 Hf3; pose proof (frame_trans _ _ _ _ Hf2 Hf3); wp_step; auto.
  - assert (Hir : forall d, frame all_files (files w1) d -> intact t d0 d \/ restored t bk d).
    { intros d Hf. destruct Hw1 as [Hw1|Hw1]; rewrite Hw1 in Hf; auto. }
    eapply wp_mono; [apply confined_finishRollback| |by auto].
    intros [u'|e'] w2 Hf2; wp_step; (split; [auto | discriminate]).
Qed.

(** Whatever fails and wherever the process dies in [CheckAndRollback],
    the backed-up binary is never lost: the target and the backup are both
    untouched, or the backup's bytes are at the target.  A true return means
    the second. *)
Theorem CheckAndRollback_never_loses_the_backup bk w :
  let t := Target (load (files w)) in
  outside t -> files w !! BackupPath t = Some bk -> f_reg bk = true ->
  wp (CheckAndRollback StateDir)
    (fun '(rolled, _) w' =>
       (intact t (files w) (files w') \/ restored t bk (files w')) /\
       (rolled = true -> restored t bk (files w')))
    (fun d => intact t (files w) d \/ restored t bk d) w.
Proof.
  intros t Ho Hbk Hreg.
  assert (Hi : forall d, frame all_files (files w) d -> intact t (files w) d).
  { intros d Hf. by apply (intact_frame t (files w) (files w)). }
  unfold CheckAndRollback. wp_step.
  eapply wp_mono; [apply reconcile_false| |by auto].
  intros [handled err] w1 [Hf1 Hl1]. cbn beta iota. cbn [fst] in Hl1.
  destruct (handled || _) eqn:Edone.
  { wp_step. split; [auto | discriminate]. }
  destruct handled; [discriminate Edone|]. specialize (Hl1 eq_refl). wp_step.
  eapply wp_mono; [apply RecordStart_target| |].
  2: { intros d Hf. left. apply Hi. exact (frame_trans _ _ _ _ Hf1 Hf). }
  intros r w2 [Hf2 Ht]. pose proof (frame_trans _ _ _ _ Hf1 Hf2) as Hf02.
  destruct r as [st|e]; [|wp_step; split; [auto | discriminate]].
  specialize (Ht st eq_refl). rewrite Hl1 in Ht. wp_step. unfold externalStarts.
  eapply wp_mono; [apply (confined_reads_only _ w2)| |].
  { repeat confined_step. }
  2: { intros d ->. auto. }
  intros ext w3 Hw3. wp_step. wp_step.
  destruct (shouldRollback st ext (clock w3)); cbn [negb].
  2: { wp_step. rewrite Hw3. split; [auto | discriminate]. }
  rewrite Ht. fold t. rewrite <- Hw3 in Hf02.
  apply (rollback_tail bk st t (files w)); [done|done| |done]. cbn [files].
  rewrite Hf02 by apply Ho. done.
Qed.
End rollback.

(** ** Watching a probation *)

Section watch.
Context `{Platform} {JS : JSON State}.
Context (StateDir : path).
Implicit Types (d : disk) (w : world).
Abbreviation load d := (stateOf StateDir d).

(** A clock that does not run backwards. *)
Definition steady w : Prop := Forall (fun dt => 0 <= dt) (ticks w).

(** The only two records a watched probation can leave when no probe
    succeeds: the one it found, or an unproven verdict no earlier than the
    deadline. *)
Definition unconfirmed (st0 : State) (deadline : Z) d : Prop :=
  load d = st0 \/
  (Healthy (load d) = true /\ Unproven (load d) = true /\ deadline <= HealthyAt (load d)).

Lemma unconfirmed_frame st0 deadline ps d d' :
  unconfirmed st0 deadline d -> frame ps d d' -> statePath StateDir ∉ ps ->
  unconfirmed st0 deadline d'.
Proof. intros Hu Hf Hp. unfold unconfirmed. by rewrite (stateOf_frame StateDir _ _ _ Hf Hp). Qed.

Lemma markUnproven_verdict st0 deadline w :
  load (files w) = st0 -> deadline <= clock w ->
  wp (markHealthy StateDir true)
    (fun _ w' => unconfirmed st0 deadline (files w')) (unconfirmed st0 deadline) w.
Proof.
  intros Hl Hc. unfold markHealthy.
  assert (Hkeep : forall d, load d = st0 -> unconfirmed st0 deadline d) by (by left).
  wp_step. apply wp_Load; auto. intros fs.
  destruct (Finalizing (load (files w))); [wp_step; auto|].
  wp_step. wp_step; [|auto|auto]. wp_step. wp_step. wp_step.
  assert (Hm : forall d, (d = files w \/ exists f, d = <[markerPath StateDir := f]> (files w)) ->
    load d = st0).
  { intros d Hd. rewrite <- Hl. apply (stateOf_frame StateDir [markerPath StateDir]); [|path_ne].
    eapply frame_write; [|done]. set_solver. }
  wp_step; [|auto].
  destruct (Pending (load (files w))); cbn [negb]; [|wp_step; apply Hkeep, Hm; eauto].
  wp_step. apply wp_Save; cbn [files clock ticks].
  - intros d fs9 Hf Hs.
    assert (Hu : unconfirmed st0 deadline d) by (right; rewrite Hs; done).
    eapply wp_mono; [apply confined_RemoveAll; reflexivity| |]; cbn [files];
      intros; eapply unconfirmed_frame; eauto; path_ne.
  - intros d fs9 e Hf. assert (unconfirmed st0 deadline d); [|done].
    eapply unconfirmed_frame; [|exact Hf|path_ne]. left. apply Hm. eauto.
Qed.

Lemma mark_verdict st0 deadline w :
  load (files w) = st0 -> deadline <= clock w ->
  wp (mark StateDir true)
    (fun _ w' => unconfirmed st0 deadline (files w')) (unconfirmed st0 deadline) w.
Proof.
  intros Hl Hc. unfold mark. wp_step.
  eapply wp_mono; [by eapply markUnproven_verdict| |done].
  intros [u|e] w' Hu; [by wp_step|]. destruct (Is e ErrFinalizePending); by wp_step.
Qed.

Lemma wp_Now_steady {B} (k : Z -> io B) Q C w :
  steady w ->
  (forall w', files w' = files w -> clock w <= clock w' -> steady w' ->
     wp (k (clock w)) Q C w') ->
  wp (let* now := Now in k now) Q C w.
Proof.
  intros Hs Hk. apply wp_bind. unfold wp, Now, steady in *.
  destruct (ticks w) as [|dt ts] eqn:E.
  - apply Hk; [done|lia|by rewrite E].
  - inversion Hs; subst. apply Hk; simpl; [done|lia|done].
Qed.

Lemma watch_loop_unconfirmed probe deadline rounds st0 w :
  Forall (fun r => probe && rd_probe_ok r = false) rounds ->
  load (files w) = st0 -> steady w ->
  wp (watch_loop StateDir probe deadline rounds)
    (fun _ w' => unconfirmed st0 deadline (files w')) (unconfirmed st0 deadline) w.
Proof.
  intros Hr. revert w. induction Hr as [|r rounds Hr Hrs IH]; intros w Hl Hs; cbn [watch_loop].
  { wp_step. by left. }
  rewrite Hr. destruct (probe && rd_cancelled r); [wp_step; by left|].
  apply wp_Now_steady; [done|]. intros w1 Hw1 Hc1 Hs1.
  unfold Before. destruct (Z.ltb_spec (clock w) deadline); cbn [negb].
  - destruct (rd_stop r); [wp_step; left; by rewrite Hw1|]. apply IH; [by rewrite Hw1 | done].
  - wp_step. eapply wp_mono; [apply (mark_verdict st0 deadline); [by rewrite Hw1 | lia]| |done].
    intros [b [e|]] w2 Hu; by wp_step.
Qed.

(** A build is never confirmed healthy without evidence.  If no probe is
    wired, or none of its calls succeeds, then however long [Watch] runs and
    whatever fails under it the record is the one it found, or it says
    unproven, no earlier than [MaxProbation] after the swap. *)
Theorem no_confirmation_without_evidence cfg alive rounds w :
  let st := load (files w) in
  SwappedAt st ≠ zero_time -> steady w ->
  (wc_Probe cfg = false \/ Forall (fun r => rd_probe_ok r = false) rounds) ->
  wp (Watch StateDir cfg alive rounds)
    (fun _ w' => unconfirmed st (SwappedAt st + wc_MaxProbation (normalized cfg)) (files w'))
    (unconfirmed st (SwappedAt st + wc_MaxProbation (normalized cfg))) w.
Proof.
  intros st Hz Hs Hev. unfold Watch. wp_step. apply wp_Load; [|by left|by left]. intros fs.
  destruct (Pending (load (files w))); cbn [negb]; [|wp_step; by left].
  unfold IsZero. rewrite (proj2 (Z.eqb_neq (SwappedAt (load (files w))) zero_time) Hz). wp_step. wp_step. wp_step.
  set (when := _ + wc_MinProbation _).
  assert (Hrest : forall w1, load (files w1) = st -> steady w1 ->
    wp (watch_loop StateDir (wc_Probe (normalized cfg))
          (SwappedAt (load (files w)) + wc_MaxProbation (normalized cfg)) rounds)
      (fun _ w' => unconfirmed st (SwappedAt st + wc_MaxProbation (normalized cfg)) (files w'))
      (unconfirmed st (SwappedAt st + wc_MaxProbation (normalized cfg))) w1).
  { intros w1 Hl1 Hs1. apply watch_loop_unconfirmed; [|done|done].
    destruct Hev as [Hev|Hev]; [apply Forall_forall; simpl; by rewrite Hev|].
    eapply Forall_impl; [exact Hev|]. simpl. intros r ->. apply andb_false_r. }
  unfold sleepUntil. apply wp_Now_steady; [done|]. intros w1 Hw1 _ Hs1.
  cbn [files with_faults] in Hw1.
  destruct (when - clock _ <=? 0); destruct alive; repeat wp_step; cbn [negb].
  - apply Hrest; [by rewrite Hw1 | done].
  - wp_step. left. by rewrite Hw1.
  - unfold wp at 1, SleepTo. cbn beta iota. wp_step. cbn [negb].
    apply Hrest; cbn [files]; [by rewrite Hw1 | done].
  - wp_step. left. by rewrite Hw1.
Qed.
End watch.

(** ** Witnesses *)

Definition demo_dir : path := str "/etc/everwas".
Definition demo_now : Z := 1753876543 * Second.

(** Version 2.0 on probation, with two launches in the last minute. *)
Definition demo_state : State :=
  mkState (str "2.0") (str "1.0") (str "/opt/agent") (str "/opt/agent.old") (demo_now - 40 * Second)
    [demo_now - 40 * Second; demo_now - 20 * Second] false zero_time false false [] false 0 []
    zero_time.

Definition demo_file (st : State) : file := File (pos_bytes (encode st) ++ [nl]) true 384.

Definition demo_update_disk : disk :=
  <[statePath demo_dir := demo_file demo_state]>
  (<[probationPath demo_dir := File (renderProbation demo_state) true 384]>
  (<[str "/opt/agent" := File (str "new") true 493]>
  (<[str "/opt/agent.old" := File (str "old") true 493]> ∅))).

Lemma third_start_restores_the_previous_binary_witness :
  let d := demo_update_disk in
  let st := stateOf demo_dir d in
  exists d', CheckAndRollback demo_dir (World d demo_now [] []) =
      (Ret (true, None), World d' demo_now [] []) /\
    d' !! Target st = Some (File (str "old") true 493) /\
    Pending (stateOf demo_dir d') = false /\ RolledBack (stateOf demo_dir d') = true /\
    d' !! probationPath demo_dir = None /\ d' !! startsPath demo_dir = None /\
    PendingVersion st ∈ deniedOf demo_dir d'.
Proof.
  apply (third_start_restores_the_previous_binary demo_dir demo_update_disk demo_now
           (File (str "old") true 493)).
  - apply (bool_decide_eq_true_1 (Forall _ _)). vm_compute; reflexivity.
  - apply (bool_decide_eq_true_1 (writableTime _)). vm_compute; reflexivity.
  - vm_compute; reflexivity.
  - split; [vm_compute; discriminate|]. split; [vm_compute; reflexivity|].
    apply (bool_decide_eq_true_1 (_ ∉ _)). vm_compute; reflexivity.
  - vm_compute; reflexivity.
  - vm_compute; discriminate.
  - vm_compute; discriminate.
  - split; apply (bool_decide_eq_true_1 (_ ∉ _)); vm_compute; reflexivity.
  - vm_compute; discriminate.
  - apply Nat.ltb_lt. vm_compute; reflexivity.
  - apply Nat.leb_le. vm_compute; reflexivity.
  - vm_compute; reflexivity.
  - reflexivity.
  - apply Nat.leb_le. vm_compute; reflexivity.
Defined.

Lemma CheckAndRollback_never_loses_the_backup_witness :
  let w := World demo_update_disk demo_now [] [Proceed; Fails 0; Dies 3] in
  let t := Target (stateOf demo_dir (files w)) in
  wp (CheckAndRollback demo_dir)
    (fun '(rolled, _) w' =>
       (intact t (files w) (files w') \/ restored t (File (str "old") true 493) (files w')) /\
       (rolled = true -> restored t (File (str "old") true 493) (files w')))
    (fun d => intact t (files w) d \/ restored t (File (str "old") true 493) d) w.
Proof.
  apply (CheckAndRollback_never_loses_the_backup demo_dir (File (str "old") true 493)
           (World demo_update_disk demo_now [] [Proceed; Fails 0; Dies 3])).
  - split; apply (bool_decide_eq_true_1 (_ ∉ _)); vm_compute; reflexivity.
  - vm_compute; reflexivity.
  - reflexivity.
Defined.

Lemma no_confirmation_without_evidence_witness :
  let w := World demo_update_disk demo_now [] [] in
  let st := stateOf demo_dir (files w) in
  let cfg := {| wc_Probe := true; wc_MinProbation := 0; wc_MaxProbation := 0; wc_ProbeInterval := 0 |} in
  wp (Watch demo_dir cfg true [{| rd_probe_ok := false; rd_cancelled := false; rd_stop := false |}])
    (fun _ w' => unconfirmed demo_dir st (SwappedAt st + wc_MaxProbation (normalized cfg)) (files w'))
    (unconfirmed demo_dir st (SwappedAt st + wc_MaxProbation (normalized cfg))) w.
Proof.
  apply (no_confirmation_without_evidence demo_dir
    {| wc_Probe := true; wc_MinProbation := 0; wc_MaxProbation := 0; wc_ProbeInterval := 0 |} true
    [{| rd_probe_ok := false; rd_cancelled := false; rd_stop := false |}]
    (World demo_update_disk demo_now [] [])).
  - vm_compute; discriminate.
  - constructor.
  - right. repeat constructor.
Defined.

Lemma markHealthy_ends_probation_witness :
  let w := World demo_update_disk demo_now [] [] in
  wp (markHealthy demo_dir true)
    (fun r w' => r = Ok tt ->
       let st := stateOf demo_dir (files w) in let st' := stateOf demo_dir (files w') in
       Pending st' = false /\ Healthy st' = true /\ Unproven st' = true /\ Starts st' = [] /\
       HealthyAt st' = clock w /\ PendingVersion st' = PendingVersion st /\
       PreviousVersion st' = PreviousVersion st /\ Backup st' = Backup st /\ Denied st' = Denied st)
    (fun _ => True) w.
Proof.
  apply (markHealthy_ends_probation demo_dir true (World demo_update_disk demo_now [] [])).
  vm_compute; reflexivity.
Defined.

(** The same host with the swap handed to a finalizer. *)
Definition demo_finalizing : disk :=
  <[statePath demo_dir := demo_file (set_finalizer true 4242 [] zero_time demo_state)]>
    demo_update_disk.

Lemma no_verdict_while_finalizing_witness :
  let w := World demo_finalizing demo_now [] [] in
  wp (markHealthy demo_dir false)
    (fun r w' => files w' = files w /\
       exists e, r = Err e /\ (Is e ErrFinalizePending = true \/ Is e ErrState = true))
    (fun d => d = files w) w.
Proof.
  apply (no_verdict_while_finalizing demo_dir false (World demo_finalizing demo_now [] [])).
  vm_compute; reflexivity.
Defined.

Lemma bookkeeping_touches_only_its_files_witness :
  (exec demo_dir (OpMark false) (World demo_update_disk demo_now [] [])).2.(files) !! str "/opt/agent.old"
  = demo_update_disk !! str "/opt/agent.old".
Proof.
  apply (bookkeeping_touches_only_its_files demo_dir).
  - apply rtc_once.
    apply (step_exec demo_dir (OpMark false) (World demo_update_disk demo_now [] [])
      (exec demo_dir (OpMark false) (World demo_update_disk demo_now [] [])).1).
    by destruct (exec _ _ _).
  - apply (bool_decide_eq_true_1 (_ ∉ _)). vm_compute; reflexivity.
Defined.

Lemma denylist_is_exact_within_the_cap_witness :
  mergeDenied (recordedDenied [str "2.0"; str "2.1"]) (Some (deniedText [str "2.0"; str "2.1"]))
  = [str "2.0"; str "2.1"].
Proof.
  apply (denylist_is_exact_within_the_cap [str "2.0"; str "2.1"]).
  - repeat constructor; try discriminate; apply (bool_decide_eq_true_1 _); vm_compute; reflexivity.
  - apply (bool_decide_eq_true_1 _). vm_compute; reflexivity.
  - apply Nat.leb_le. reflexivity.
Defined.
