(* ===== verification/Guard.v ===== *)
(** * Guard: the external rollback guard (agent/internal/svc/guard.go)

    [GuardScript] is the /bin/sh program the service manager runs before the
    agent.  It shares three plain-text files with the tracker: the probation
    file, the list of starts and the denylist.  This file models the script
    and proves that the two halves of the rollback agree on those files and on
    the decision. *)
From S2P Require Import Prelude GoLib GoOS Swap Tracker Rollback.

(** ** The script's text tools *)

(** [sed -n "s/^key=//p" file | head -n 1] *)
Fixpoint firstField (key : bytes) (lines : list bytes) : bytes :=
  match lines with
  | [] => []
  | l :: lines' =>
      match strip_prefix (key ++ str "=") l with
      | Some v => v
      | None => firstField key lines'
      end
  end.

Definition probationField (key raw : bytes) : bytes := firstField key (Split nl raw).

(** The lines of a text file: the piece after the last newline is a line only
    when it is not empty. *)
Fixpoint textLines (pieces : list bytes) : list bytes :=
  match pieces with
  | [] => []
  | [l] => if bool_decide (l = []) then [] else [l]
  | l :: pieces' => l :: textLines pieces'
  end.

(** [tail -n KEEP], which keeps the line structure; a last line without a
    newline is completed here, which the next append would do anyway. *)
Definition KEEP : nat := 16.
Definition tailLines (raw : bytes) : bytes := unlines (keep_last KEEP (textLines (Split nl raw))).

(** The awk program: lines of digits no later than [now] and at most [WINDOW]
    seconds old. *)
Definition WINDOW : Z := 120.
Definition LIMIT : nat := 2.

Definition all_digits (l : bytes) : bool := negb (bool_decide (l = [])) && forallb is_digit l.

(** awk computes with doubles, which are these integers below 2^53. *)
Definition awkCounts (now : Z) (l : bytes) : bool :=
  all_digits l &&
  match parse_digits 0 l with
  | Some s => (s <=? now) && (now - s <=? WINDOW)
  | None => false
  end.

Definition recentStarts (now : Z) (raw : bytes) : nat :=
  length (filter (fun l => awkCounts now l = true) (textLines (Split nl raw))).

(** ** The script *)

Section guard.
Context (StateDir : path).

Definition PROBATION : path := probationPath StateDir.
Definition STARTS : path := startsPath StateDir.
Definition DENIED : path := deniedPath StateDir.

(** [[ -f p ]] *)
Definition test_f (p : path) : io bool :=
  let* r := Stat p in match r with Ok f => ret (f_reg f) | Err _ => ret false end.

(** [[ -x p ]] *)
Definition test_x (p : path) : io bool :=
  let* r := Stat p in
  match r with Ok f => ret (negb (Z.land (f_mode f) 73 =? 0)) | Err _ => ret false end.

Definition probation_field (key : bytes) : io bytes :=
  let* present := test_f PROBATION in
  if negb present then ret []
  else
    let* r := ReadFile PROBATION in
    match r with Ok raw => ret (probationField key raw) | Err _ => ret [] end.

(** [restore]; the script ignores its status. *)
Definition restore (target backup : path) : io unit :=
  let* have := test_f backup in
  if negb have then ret tt
  else
    let* r := Rename backup target in
    match r with
    | Err _ => ret tt
    | Ok _ =>
        let* _ := ignore (Chmod target 493) in
        let* version := probation_field (str "version") in
        let* _ := (if negb (bool_decide (version = []))
                   then ignore (AppendFile DENIED (version ++ [nl]) 420) else ret tt) in
        let* _ := ignore (Remove PROBATION) in
        ignore (Remove STARTS)
    end.

(** [date -u +%s 2>/dev/null || echo 0] *)
Definition date : io Z :=
  let* r := syscall (fun d => (Ok tt, d)) atomic in
  match r with Ok _ => let* t := Now in ret (Unix t) | Err _ => ret 0 end.

Definition countAndRestore (target backup : path) : io unit :=
  let* present := test_f PROBATION in
  let* finalizing := (if (present : bool) then probation_field (str "finalizing") else ret []) in
  if negb (present && negb (bool_decide (finalizing = str "true"))) then ret tt
  else
    let* now := date in
    if now =? 0 then ret tt
    else
      let* _ := ignore (AppendFile STARTS (Itoa now ++ [nl]) 420) in
      let* have := test_f STARTS in
      if negb have then ret tt
      else
        let* r := ReadFile STARTS in
        let* _ :=
          match r with
          | Ok raw =>
              let* t := WriteFile (STARTS ++ str ".tmp") (tailLines raw) 420 in
              match t with
              | Ok _ =>
                  let* m := Rename (STARTS ++ str ".tmp") STARTS in
                  match m with
                  | Ok _ => ret tt
                  | Err _ => ignore (Remove (STARTS ++ str ".tmp"))
                  end
              | Err _ => ret tt
              end
          | Err _ => ret tt
          end in
        let* r := ReadFile STARTS in
        let recent := match r with Ok raw => recentStarts now raw | Err _ => 0%nat end in
        if (LIMIT <? recent)%nat then restore target backup else ret tt.

(** [agent-guard.sh check target] *)
Definition guard_check (target : path) : io unit :=
  if bool_decide (target = []) then ret tt
  else
    let* backup := probation_field (str "backup") in
    let backup := if bool_decide (backup = []) then target ++ str ".old" else backup in
    let* x := test_x target in
    let* _ := (if negb x then restore target backup else ret tt) in
    countAndRestore target backup.
End guard.

(** ** The probation file *)

(** The lines [renderProbation] writes, for fields without line breaks. *)
Definition one_line (st : State) : Prop :=
  nl ∉ PendingVersion st /\ nl ∉ PreviousVersion st /\ nl ∉ Target st /\ nl ∉ Backup st.

Lemma Split_line l rest : nl ∉ l -> Split nl (l ++ nl :: rest) = l :: Split nl rest.
Proof. intros Hl. by rewrite Split_app_sep, Split_no_sep. Qed.

Lemma probationLine_split key v rest :
  nl ∉ key -> nl ∉ v ->
  Split nl (probationLine key v ++ rest) = (key ++ str "=" ++ v) :: Split nl rest.
Proof.
  intros Hk Hv. unfold probationLine.
  replace ((key ++ str "=" ++ v ++ [nl]) ++ rest) with ((key ++ str "=" ++ v) ++ nl :: rest)
    by (by rewrite <- !app_assoc).
  apply Split_line. rewrite !not_elem_of_app. split_and!; [done| |done].
  apply (bool_decide_eq_true_1 (_ ∉ _)). by vm_compute.
Qed.

Ltac plain_key := apply (bool_decide_eq_true_1 (_ ∉ _)); by vm_compute.

Lemma renderProbation_lines st :
  one_line st ->
  Split nl (renderProbation st) =
  [str "# written by everwas-agent, read by agent-guard.sh";
   str "version=" ++ PendingVersion st; str "previous=" ++ PreviousVersion st;
   str "target=" ++ Target st; str "backup=" ++ Backup st;
   str "swapped_at=" ++ Itoa (Unix (SwappedAt st));
   str "finalizing=" ++ FormatBool (Finalizing st); []].
Proof.
  intros (Hv & Hp & Ht & Hb). unfold renderProbation.
  etransitivity; [apply Split_line; plain_key|]. f_equal.
  do 5 (rewrite probationLine_split; [|plain_key|done || apply Itoa_no_nl]; f_equal).
  rewrite <- (app_nil_r (probationLine (str "finalizing") _)).
  rewrite probationLine_split; [done|plain_key|]. destruct (Finalizing st); plain_key.
Qed.

Lemma probation_fields st :
  one_line st ->
  probationField (str "version") (renderProbation st) = PendingVersion st /\
  probationField (str "backup") (renderProbation st) = Backup st /\
  probationField (str "finalizing") (renderProbation st) = FormatBool (Finalizing st).
Proof. intros Hst. unfold probationField. by rewrite renderProbation_lines by done. Qed.

(** What the agent writes is what the guard reads: for every record whose
    text has no line break, each field the script extracts from the rendered
    probation file is the record's. *)
Theorem probation_roundtrip st :
  one_line st ->
  let raw := renderProbation st in
  probationField (str "version") raw = PendingVersion st /\
  probationField (str "previous") raw = PreviousVersion st /\
  probationField (str "target") raw = Target st /\
  probationField (str "backup") raw = Backup st /\
  probationField (str "swapped_at") raw = Itoa (Unix (SwappedAt st)) /\
  probationField (str "finalizing") raw = FormatBool (Finalizing st).
Proof.
  intros Hst. unfold probationField. rewrite renderProbation_lines by done. done.
Qed.

Lemma probation_roundtrip_witness :
  let raw := renderProbation demo_state in
  probationField (str "version") raw = str "2.0" /\
  probationField (str "previous") raw = str "1.0" /\
  probationField (str "target") raw = str "/opt/agent" /\
  probationField (str "backup") raw = str "/opt/agent.old" /\
  probationField (str "swapped_at") raw = Itoa (Unix (SwappedAt demo_state)) /\
  probationField (str "finalizing") raw = str "false".
Proof.
  apply (probation_roundtrip demo_state).
  split_and!; apply (bool_decide_eq_true_1 (_ ∉ _)); vm_compute; reflexivity.
Defined.

(** ** The starts file *)

Lemma textLines_snoc ls : textLines (ls ++ [[]]) = ls.
Proof.
  induction ls as [|l ls IH]; [done|]. simpl. rewrite IH.
  destruct (ls ++ [[]]) eqn:E; [by destruct ls|done].
Qed.

Lemma textLines_unlines ls :
  Forall (fun l => nl ∉ l) ls -> textLines (Split nl (unlines ls)) = ls.
Proof. intros Hls. rewrite Split_unlines by done. apply textLines_snoc. Qed.

Definition stampLines (ns : list Z) : list bytes := map Itoa ns.

Lemma stampLines_no_nl ns : Forall (fun l => nl ∉ l) (stampLines ns).
Proof. apply Forall_forall. intros l [n [-> _]]%list_elem_of_fmap. apply Itoa_no_nl. Qed.

Lemma tailLines_stamps ns :
  tailLines (unlines (stampLines ns)) = unlines (stampLines (keep_last KEEP ns)).
Proof.
  unfold tailLines. rewrite textLines_unlines by apply stampLines_no_nl.
  f_equal. unfold keep_last, stampLines. by rewrite length_map, skipn_map.
Qed.

(** A seconds stamp the guard writes. *)
Definition stamp (n : Z) : Prop := 0 <= n <= max_int64 - unixToInternal.

Lemma utoa_digits fuel n acc :
  0 <= n -> forallb is_digit acc = true -> forallb is_digit (utoa_fuel fuel n acc) = true.
Proof.
  assert (Hd : forall d, 0 <= d <= 9 -> is_digit (digit_char d) = true).
  { intros d Hd. unfold is_digit, between, digit_char. rewrite code_chr by lia.
    change (code "0") with 48. change (code "9") with 57. lia. }
  revert n acc. induction fuel as [|fuel IH]; intros n acc Hn Hacc; cbn [utoa_fuel]; [done|].
  destruct (Z.ltb_spec n 10); [simpl; by rewrite Hd by lia|].
  pose proof (Z.mod_pos_bound n 10 ltac:(lia)).
  apply IH; [apply Z.div_pos; lia|]. simpl. by rewrite Hd by lia.
Qed.

Lemma awkCounts_stamp now n :
  stamp n -> awkCounts now (Itoa n) = (n <=? now) && (now - n <=? WINDOW).
Proof.
  unfold stamp. intros Hn. assert (Hn' : 0 <= n < 10 ^ 20).
  { unfold max_int64, unixToInternal in Hn. lia. }
  unfold awkCounts, all_digits. rewrite bool_decide_eq_false_2 by apply Itoa_not_nil.
  unfold Itoa. destruct (Z.ltb_spec n 0); [lia|].
  rewrite utoa_digits by (done || lia). rewrite parse_digits_utoa by lia. done.
Qed.

Lemma recentStarts_stamps now ns :
  Forall stamp ns ->
  recentStarts now (unlines (stampLines ns)) =
  length (filter (fun n => n <= now /\ now - n <= WINDOW) ns).
Proof.
  intros Hns. unfold recentStarts. rewrite textLines_unlines by apply stampLines_no_nl.
  induction Hns as [|n ns Hn Hns IH]; [done|]. cbn [stampLines map].
  rewrite !filter_cons, awkCounts_stamp by done.
  destruct (Z.leb_spec n now), (Z.leb_spec (now - n) WINDOW); cbn [andb];
    repeat case_decide; first [lia | done | exact IH | cbn [length]; f_equal; exact IH].
Qed.

Lemma parseStart_stamp n : stamp n -> parseStart (Itoa n) = Some (n * Second).
Proof.
  unfold stamp, unixToInternal. intros Hn. unfold parseStart.
  rewrite TrimSpace_Itoa, bool_decide_eq_false_2 by apply Itoa_not_nil.
  rewrite ParseInt_Itoa_nonneg by lia. unfold UnixTime, unixToInternal.
  rewrite wrap64_id by (unfold in_int64, min_int64, max_int64 in *; lia). f_equal. lia.
Qed.

Lemma parseStarts_stamps ns :
  Forall stamp ns ->
  parseStarts (unlines (stampLines ns)) = keep_last maxStartsTracked (map (fun n => n * Second) ns).
Proof.
  intros Hns. unfold parseStarts. rewrite Split_unlines by apply stampLines_no_nl. f_equal.
  rewrite omap_app. simpl. change (parseStart []) with (@None Z). simpl. rewrite app_nil_r.
  induction Hns as [|n ns Hn Hns IH]; [done|]. cbn [stampLines map omap list_omap].
  rewrite parseStart_stamp by done. f_equal. exact IH.
Qed.

(** C28: The guard's awk count and the agent's [countStarts] are the same
    decision.  On the same list of launches the guard never counts fewer than
    the agent does at any instant inside the second, and at a whole second
    they count exactly the same. *)
Theorem guard_and_agent_count_the_same ns now :
  Forall stamp ns -> (length ns <= maxStartsTracked)%nat ->
  let raw := unlines (stampLines ns) in
  (countStarts (parseStarts raw) now <= recentStarts (Unix now) raw)%nat /\
  (now = Unix now * Second -> countStarts (parseStarts raw) now = recentStarts (Unix now) raw).
Proof.
  intros Hns Hlen raw. unfold raw. rewrite parseStarts_stamps, recentStarts_stamps by done.
  rewrite keep_last_all by (by rewrite length_map).
  rewrite countStarts_filter. clear Hlen raw.
  assert (Hu : Second * Unix now <= now < Second * Unix now + Second).
  { unfold Unix. pose proof (Z.mul_div_le now Second ltac:(done)).
    pose proof (Z.mul_succ_div_gt now Second ltac:(done)). lia. }
  unfold Second in *.
  induction Hns as [|n ns Hn Hns [IH1 IH2]]; [done|]. cbn [map].
  rewrite !filter_cons. unfold recent, WINDOW in *.
  change CrashWindow with 120000000000 in *. unfold Second in *.
  split; [|intros Hnow; specialize (IH2 Hnow)]; repeat case_decide; simpl; lia.
Qed.

Lemma guard_and_agent_count_the_same_witness :
  let raw := unlines (stampLines [100; 150; 215]) in
  (countStarts (parseStarts raw) (220 * Second) <= recentStarts (Unix (220 * Second)) raw)%nat /\
  (220 * Second = Unix (220 * Second) * Second ->
   countStarts (parseStarts raw) (220 * Second) = recentStarts (Unix (220 * Second)) raw).
Proof.
  apply (guard_and_agent_count_the_same [100; 150; 215] (220 * Second)).
  - repeat constructor; vm_compute; discriminate.
  - apply Nat.leb_le. reflexivity.
Defined.

(** ** Running the script without faults *)

Section guard_quiet.
Context (StateDir : path).
Implicit Types (d : disk) (c : Z).

Abbreviation q d c := (World d c [] []).

(** The files the guard works on besides the binary and its backup. *)
Definition guard_files : list path :=
  [PROBATION StateDir; STARTS StateDir; STARTS StateDir ++ str ".tmp"; DENIED StateDir].

Lemma test_f_quiet p d c :
  test_f p (q d c) = (Ret (match d !! p with Some f => f_reg f | None => false end), q d c).
Proof.
  unfold test_f, bind, Stat, syscall. cbn [faults files clock ticks]. by destruct (d !! p).
Qed.

Lemma test_x_quiet p f d c :
  d !! p = Some f -> test_x p (q d c) = (Ret (negb (Z.land (f_mode f) 73 =? 0)), q d c).
Proof. intros Hp. unfold test_x, bind, Stat, syscall. cbn [faults files clock ticks]. by rewrite Hp. Qed.

Lemma ReadFile_quiet p f d c :
  d !! p = Some f -> ReadFile p (q d c) = (Ret (Ok (f_data f)), q d c).
Proof. intros Hp. unfold ReadFile, syscall. cbn [faults files clock ticks]. by rewrite Hp. Qed.

Lemma probation_field_quiet key f d c :
  d !! PROBATION StateDir = Some f -> f_reg f = true ->
  probation_field StateDir key (q d c) = (Ret (probationField key (f_data f)), q d c).
Proof.
  intros Hp Hr. unfold probation_field. rewrite (bind_Ret _ _ _ _ _ (test_f_quiet _ d c)).
  rewrite Hp, Hr. cbn [negb]. by rewrite (bind_Ret _ _ _ _ _ (ReadFile_quiet _ f d c Hp)).
Qed.

Lemma ignore_Remove_quiet p d c : ignore (Remove p) (q d c) = (Ret tt, q (delete p d) c).
Proof.
  unfold ignore, bind, Remove, syscall. cbn [faults files clock ticks].
  destruct (d !! p) eqn:E; [done|]. by rewrite delete_id.
Qed.

(** The disk a completed restore leaves. *)
Definition restored_disk (target backup : path) (bk : file) (version : bytes) d : disk :=
  let d1 := <[target := File (f_data bk) (f_reg bk) 493]> (delete backup d) in
  delete (STARTS StateDir) (delete (PROBATION StateDir)
    (<[DENIED StateDir := extended d1 (DENIED StateDir) (version ++ [nl]) 420]> d1)).

Lemma restore_quiet target backup bk f d c :
  target ∉ guard_files -> backup ∉ guard_files ->
  d !! backup = Some bk -> f_reg bk = true ->
  d !! PROBATION StateDir = Some f -> f_reg f = true ->
  probationField (str "version") (f_data f) ≠ [] ->
  restore StateDir target backup (q d c) =
    (Ret tt, q (restored_disk target backup bk (probationField (str "version") (f_data f)) d) c).
Proof.
  intros Ht Hb Hbk Hr Hp Hpr Hv. unfold restore.
  rewrite (bind_Ret _ _ _ _ _ (test_f_quiet _ d c)), Hbk, Hr. cbn [negb].
  rewrite (bind_Ret (Rename backup target) _ (q d c) (Ok tt) (q (<[target := bk]> (delete backup d)) c)).
  2: { unfold Rename, syscall. cbn [faults files clock ticks]. by rewrite Hbk. }
  set (d1 := <[target := File (f_data bk) (f_reg bk) 493]> (delete backup d)).
  rewrite (bind_Ret (ignore (Chmod target 493)) _ (q (<[target := bk]> (delete backup d)) c) tt (q d1 c)).
  2: { unfold ignore, bind, Chmod, syscall. cbn [faults files clock ticks].
       rewrite lookup_insert_eq, insert_insert_eq. done. }
  assert (Hp1 : d1 !! PROBATION StateDir = Some f).
  { unfold d1, guard_files in *. rewrite lookup_insert_ne, lookup_delete_ne by set_solver. done. }
  rewrite (bind_Ret _ _ _ _ _ (probation_field_quiet _ f d1 c Hp1 Hpr)).
  rewrite bool_decide_eq_false_2 by done. cbn [negb].
  rewrite (bind_Ret _ _ _ tt (q (<[DENIED StateDir := extended d1 (DENIED StateDir)
    (probationField (str "version") (f_data f) ++ [nl]) 420]> d1) c)) by done.
  rewrite (bind_Ret _ _ _ _ _ (ignore_Remove_quiet _ _ c)). apply ignore_Remove_quiet.
Qed.

(** [startsAre d ns]: the starts file lists exactly the stamps [ns]. *)
Definition startsAre d (ns : list Z) : Prop :=
  d !! (STARTS StateDir ++ str ".tmp") = None /\
  match d !! STARTS StateDir with
  | Some f => f_reg f = true /\ f_data f = unlines (stampLines ns)
  | None => ns = []
  end.

(** The middle of the script: trim the starts file and count. *)
Definition trimAndCount (n : Z) : io nat :=
  let* r := ReadFile (STARTS StateDir) in
  let* _ :=
    match r with
    | Ok raw =>
        let* t := WriteFile (STARTS StateDir ++ str ".tmp") (tailLines raw) 420 in
        match t with
        | Ok _ =>
            let* m := Rename (STARTS StateDir ++ str ".tmp") (STARTS StateDir) in
            match m with
            | Ok _ => ret tt
            | Err _ => ignore (Remove (STARTS StateDir ++ str ".tmp"))
            end
        | Err _ => ret tt
        end
    | Err _ => ret tt
    end in
  let* r := ReadFile (STARTS StateDir) in
  ret (match r with Ok raw => recentStarts n raw | Err _ => 0%nat end).

(** A build on probation as the guard sees it. *)
Record onProbation (st : State) (bk tg : file) d : Prop := {
  op_file : exists f, d !! PROBATION StateDir = Some f /\ f_reg f = true /\
                      f_data f = renderProbation st;
  op_lines : one_line st;
  op_version : PendingVersion st ≠ [];
  op_final : Finalizing st = false;
  op_backup : Backup st ≠ [] /\ d !! Backup st = Some bk /\ f_reg bk = true;
  op_target : Target st ≠ [] /\ d !! Target st = Some tg /\ Z.land (f_mode tg) 73 ≠ 0;
  op_apart : Target st ∉ guard_files /\ Backup st ∉ guard_files /\ Target st ≠ Backup st;
}.

(** Appending one start and trimming the list. *)
Lemma trimAndCount_quiet d c f ns n :
  d !! (STARTS StateDir ++ str ".tmp") = None ->
  d !! STARTS StateDir = Some f -> f_data f = unlines (stampLines ns) ->
  (length ns <= KEEP)%nat ->
  exists d', trimAndCount n (q d c) = (Ret (recentStarts n (unlines (stampLines ns))), q d' c) /\
    frame [STARTS StateDir; STARTS StateDir ++ str ".tmp"] d d' /\ startsAre d' ns.
Proof.
  intros HT HS Hd Hlen. set (S := STARTS StateDir) in *. set (T := S ++ str ".tmp") in *.
  assert (HST : S ≠ T) by (apply not_eq_sym; by apply app_suffix_ne).
  set (g := File (unlines (stampLines ns)) true 420).
  assert (Ht : tailLines (f_data f) = unlines (stampLines ns)).
  { by rewrite Hd, tailLines_stamps, keep_last_all. }
  exists (<[S := g]> (delete T (<[T := g]> d))).
  assert (HS' : (<[S := g]> (delete T (<[T := g]> d))) !! S = Some g) by apply lookup_insert_eq.
  split; [|split].
  - unfold trimAndCount. fold S. fold T. rewrite (bind_Ret _ _ _ _ _ (ReadFile_quiet S f d c HS)).
    cbn beta iota. rewrite (bind_Ret _ _ (q d c) tt (q (<[S := g]> (delete T (<[T := g]> d))) c)).
    + by rewrite (bind_Ret _ _ _ _ _ (ReadFile_quiet S g _ c HS')).
    + rewrite Ht. unfold bind, WriteFile, Rename, syscall, written.
      cbn [faults files clock ticks]. rewrite HT. fold g. by rewrite lookup_insert_eq.
  - apply (frame_trans _ _ (<[T := g]> d)); [apply frame_insert; set_solver|].
    apply (frame_trans _ _ (delete T (<[T := g]> d))); [apply frame_delete|apply frame_insert]; set_solver.
  - unfold startsAre. fold S. fold T. rewrite HS'. split; [|done].
    rewrite lookup_insert_ne by done. apply lookup_delete_eq.
Qed.

Lemma countAndRestore_eq target backup w :
  countAndRestore StateDir target backup w =
  (let* present := test_f (PROBATION StateDir) in
   let* finalizing := (if (present : bool) then probation_field StateDir (str "finalizing") else ret []) in
   if negb (present && negb (bool_decide (finalizing = str "true"))) then ret tt
   else
     let* now := date in
     if now =? 0 then ret tt
     else
       let* _ := ignore (AppendFile (STARTS StateDir) (Itoa now ++ [nl]) 420) in
       let* have := test_f (STARTS StateDir) in
       if negb have then ret tt
       else
         let* recent := trimAndCount now in
         if (LIMIT <? recent)%nat then restore StateDir target backup else ret tt) w.
Proof.
  unfold countAndRestore, trimAndCount, bind.
  repeat first
    [ reflexivity
    | match goal with |- (let (_, _) := ?x in _) = _ => destruct x as [[?|] ?]; cbn beta iota zeta end
    | match goal with |- (if ?b then _ else _) _ = _ => destruct b end ].
Qed.

(** One run of the guard on a build on probation: it counts the launch and,
    past the limit, restores. *)
Lemma guard_run st bk tg d c ns :
  onProbation st bk tg d -> startsAre d ns -> (length ns < KEEP)%nat -> Unix c ≠ 0 ->
  exists d', frame [STARTS StateDir; STARTS StateDir ++ str ".tmp"] d d' /\
    startsAre d' (ns ++ [Unix c]) /\
    guard_check StateDir (Target st) (q d c) =
      (Ret tt,
       q (if (LIMIT <? recentStarts (Unix c) (unlines (stampLines (ns ++ [Unix c]))))%nat
          then restored_disk (Target st) (Backup st) bk (PendingVersion st) d' else d') c).
Proof.
  intros [(fp & Hp & Hpr & Hpd) Hol Hv Hfin (Hb0 & Hbk & Hbr) (Ht0 & Htg & Hx) (A1 & A2 & A3)]
    [HT Hs] Hlen Hc.
  destruct (probation_fields st Hol) as (Rv & Rb & Rf). rewrite <- Hpd in Rv, Rb, Rf.
  set (S := STARTS StateDir) in *. set (f1 := extended d S (Itoa (Unix c) ++ [nl]) 420).
  assert (Hf1 : f_reg f1 = true /\ f_data f1 = unlines (stampLines (ns ++ [Unix c]))).
  { unfold f1, extended, stampLines. rewrite map_app. cbn [map]. rewrite <- unlines_snoc. destruct (d !! S) as [f|].
    - destruct Hs as [Hr Hd]. split; [done|]. simpl. by rewrite Hd.
    - by subst ns. }
  destruct Hf1 as [Hr1 Hd1]. set (d1 := <[S := f1]> d).
  assert (HST : S ≠ S ++ str ".tmp") by (apply not_eq_sym; by apply app_suffix_ne).
  destruct (trimAndCount_quiet d1 c f1 (ns ++ [Unix c]) (Unix c)) as (d2 & Hrun & Hfr & Hs2).
  { unfold d1. by rewrite lookup_insert_ne. }
  { apply lookup_insert_eq. }
  { done. }
  { rewrite length_app. simpl. lia. }
  exists d2. assert (Hfr2 : frame [S; S ++ str ".tmp"] d d2).
  { apply (frame_trans _ _ d1); [apply frame_insert; set_solver | done]. }
  split; [done|]. split; [done|]. unfold guard_check. rewrite bool_decide_eq_false_2 by done.
  rewrite (bind_Ret _ _ _ _ _ (probation_field_quiet _ fp d c Hp Hpr)), Rb.
  rewrite bool_decide_eq_false_2 by done. cbn beta zeta.
  rewrite (bind_Ret _ _ _ _ _ (test_x_quiet _ tg d c Htg)).
  rewrite (proj2 (Z.eqb_neq _ _) Hx). cbn [negb].
  rewrite (bind_Ret (ret tt) _ (q d c) tt (q d c)) by done. rewrite countAndRestore_eq.
  rewrite (bind_Ret _ _ _ _ _ (test_f_quiet _ d c)), Hp, Hpr.
  rewrite (bind_Ret _ _ _ _ _ (probation_field_quiet _ fp d c Hp Hpr)), Rf, Hfin.
  cbn [FormatBool]. change (bool_decide (str "false" = str "true")) with false. cbn [negb andb].
  rewrite (bind_Ret date _ (q d c) (Unix c) (q d c)) by done.
  rewrite (proj2 (Z.eqb_neq _ _) Hc).
  rewrite (bind_Ret (ignore (AppendFile S (Itoa (Unix c) ++ [nl]) 420)) _ (q d c) tt (q d1 c)) by done.
  rewrite (bind_Ret _ _ _ _ _ (test_f_quiet _ d1 c)).
  assert (Hl1 : d1 !! STARTS StateDir = Some f1) by apply lookup_insert_eq. rewrite Hl1, Hr1. cbn [negb].
  rewrite (bind_Ret _ _ _ _ _ Hrun). destruct (LIMIT <? _)%nat; [|done].
  rewrite <- Rv. apply restore_quiet; try done.
  - rewrite Hfr2; [done|]. revert A2. unfold guard_files. fold S. set_solver.
  - rewrite Hfr2; [done|]. unfold S, STARTS, PROBATION. path_ne.
  - by rewrite Rv.
Qed.

Lemma onProbation_frame st bk tg d d' :
  onProbation st bk tg d -> frame [STARTS StateDir; STARTS StateDir ++ str ".tmp"] d d' ->
  onProbation st bk tg d'.
Proof.
  intros [(fp & Hp & Hpr & Hpd) Hol Hv Hfin (Hb0 & Hbk & Hbr) (Ht0 & Htg & Hx) (A1 & A2 & A3)] Hf.
  assert (Hk : forall p, p ∉ guard_files -> d' !! p = d !! p).
  { intros p Hp'. apply Hf. revert Hp'. unfold guard_files. set_solver. }
  split; try done.
  - exists fp. split; [|done]. rewrite Hf; [done|]. unfold STARTS, PROBATION. path_ne.
  - by rewrite Hk.
  - by rewrite Hk.
Qed.

Lemma few_starts_below_limit now ns :
  Forall stamp ns -> (length ns <= LIMIT)%nat ->
  (LIMIT <? recentStarts now (unlines (stampLines ns)))%nat = false.
Proof.
  intros Hns Hl. apply Nat.ltb_ge. rewrite recentStarts_stamps by done.
  etransitivity; [apply length_filter | done].
Qed.

Lemma guard_count_run st bk tg d c ns :
  onProbation st bk tg d -> startsAre d ns -> Unix c ≠ 0 ->
  Forall stamp (ns ++ [Unix c]) -> (length ns < LIMIT)%nat ->
  exists d', guard_check StateDir (Target st) (q d c) = (Ret tt, q d' c) /\
    frame [STARTS StateDir; STARTS StateDir ++ str ".tmp"] d d' /\
    onProbation st bk tg d' /\ startsAre d' (ns ++ [Unix c]).
Proof.
  intros Hop Hs Hc Hst Hl. unfold LIMIT in Hl.
  destruct (guard_run st bk tg d c ns Hop Hs) as (d' & Hf & Hs' & Hrun); [unfold KEEP; lia|done|].
  rewrite few_starts_below_limit in Hrun; [|done|rewrite length_app; unfold LIMIT; simpl; lia].
  exists d'. split; [done|]. split; [done|]. split; [by eapply onProbation_frame | done].
Qed.

(** A build that dies before any of its own code runs is still rolled
    back.  With nothing but the guard running, the first two launches only
    count, and the third inside the window puts the backed-up bytes back at
    the target, executable, records the version in the denylist and takes
    the probation and the counter away. *)
Theorem guard_restores_on_the_third_start st bk tg d c1 c2 c3 :
  onProbation st bk tg d -> startsAre d [] ->
  0 < Unix c1 -> Unix c1 <= Unix c2 <= Unix c3 -> Unix c3 - Unix c1 <= WINDOW ->
  Unix c3 <= max_int64 - unixToInternal ->
  exists d1 d2 d3,
    guard_check StateDir (Target st) (q d c1) = (Ret tt, q d1 c1) /\
    guard_check StateDir (Target st) (q d1 c2) = (Ret tt, q d2 c2) /\
    guard_check StateDir (Target st) (q d2 c3) = (Ret tt, q d3 c3) /\
    d1 !! Target st = Some tg /\ d2 !! Target st = Some tg /\
    d3 !! Target st = Some (File (f_data bk) true 493) /\
    d3 !! Backup st = None /\ d3 !! PROBATION StateDir = None /\ d3 !! STARTS StateDir = None /\
    deniedRaw StateDir d3 =
      Some (default [] (deniedRaw StateDir d) ++ PendingVersion st ++ [nl]).
Proof.
  intros Hop Hs H1 H2 H3 H4.
  assert (Hst : Forall stamp [Unix c1; Unix c2; Unix c3]) by (repeat constructor; lia).
  pose proof Hst as Hall. inversion_clear Hst as [|? ? S1 Hst']. inversion_clear Hst' as [|? ? S2 Hst''].
  destruct (guard_count_run st bk tg d c1 []) as (d1 & R1 & F1 & O1 & A1);
    [done|done|lia|by constructor|unfold LIMIT; simpl; lia|].
  destruct (guard_count_run st bk tg d1 c2 [Unix c1]) as (d2 & R2 & F2 & O2 & A2);
    [done|done|lia|by apply Forall_cons; split; [|apply Forall_singleton]|unfold LIMIT; simpl; lia|].
  destruct (guard_run st bk tg d2 c3 [Unix c1; Unix c2]) as (d' & F3 & _ & R3);
    [done|done|unfold KEEP; simpl; lia|lia|].
  pose proof (onProbation_frame _ _ _ _ _ O2 F3) as [_ _ _ _ (_ & _ & Hbr) _ (B1 & B2 & B3)].
  replace (LIMIT <? _)%nat with true in R3.
  2: { symmetry. apply Nat.ltb_lt. rewrite recentStarts_stamps by exact Hall.
       unfold LIMIT, WINDOW in *. simpl. rewrite !filter_cons, !decide_True by lia. simpl. lia. }
  exists d1, d2. eexists. do 3 (split; [done|]).
  split; [by destruct (op_target _ _ _ _ O1) as (_ & ? & _)|].
  split; [by destruct (op_target _ _ _ _ O2) as (_ & ? & _)|].
  unfold restored_disk, guard_files in *.
  rewrite !not_elem_of_cons in B1, B2. destruct_and!.
  assert (NPS : PROBATION StateDir ≠ STARTS StateDir) by (unfold PROBATION, STARTS; path_ne).
  assert (NPD : PROBATION StateDir ≠ DENIED StateDir) by (unfold PROBATION, DENIED; path_ne).
  assert (NSD : STARTS StateDir ≠ DENIED StateDir) by (unfold STARTS, DENIED; path_ne).
  split; [rewrite !lookup_delete_ne, lookup_insert_ne, lookup_insert_eq, Hbr by done; done|].
  split; [rewrite !lookup_delete_ne, !lookup_insert_ne, lookup_delete_eq by done; done|].
  split; [rewrite lookup_delete_ne, lookup_delete_eq by done; done|].
  split; [apply lookup_delete_eq|].
  unfold deniedRaw. fold (DENIED StateDir).
  rewrite !lookup_delete_ne, lookup_insert_eq by done. simpl. f_equal. unfold extended.
  rewrite lookup_insert_ne, lookup_delete_ne by done.
  assert (Hd : d' !! DENIED StateDir = d !! DENIED StateDir).
  { rewrite F3, F2, F1; [done|..]; unfold STARTS, DENIED; path_ne. }
  rewrite Hd. by destruct (d !! DENIED StateDir).
Qed.

(** *** When the guard stays out of the way *)

(** With no update on probation and an executable binary in place the
    guard changes nothing at all, even when a backup of an earlier update is
    still on disk. *)
Theorem guard_is_inert_without_probation target tg d c :
  d !! PROBATION StateDir = None ->
  d !! target = Some tg -> Z.land (f_mode tg) 73 ≠ 0 ->
  guard_check StateDir target (q d c) = (Ret tt, q d c).
Proof.
  intros Hp Ht Hx. unfold guard_check. destruct (bool_decide (target = [])); [done|].
  assert (Hpf : forall key, probation_field StateDir key (q d c) = (Ret [], q d c)).
  { intros key. unfold probation_field. rewrite (bind_Ret _ _ _ _ _ (test_f_quiet _ d c)). by rewrite Hp. }
  rewrite (bind_Ret _ _ _ _ _ (Hpf _)). cbn beta zeta.
  rewrite (bind_Ret _ _ _ _ _ (test_x_quiet _ tg d c Ht)), (proj2 (Z.eqb_neq _ _) Hx). cbn [negb].
  rewrite (bind_Ret (ret tt) _ (q d c) tt (q d c)) by done. unfold countAndRestore.
  rewrite (bind_Ret _ _ _ _ _ (test_f_quiet _ d c)), Hp. done.
Qed.
End guard_quiet.

(** ** The agent's half: reconciling what the guard did *)

Section reconcile.
Context `{Platform} {JS : JSON State}.
Context (StateDir : path).
Abbreviation load d := (stateOf StateDir d).

Lemma IsDenied_quiet v d c :
  v ≠ [] ->
  IsDenied StateDir v (World d c [] []) =
    (Ret (bool_decide (v ∈ deniedOf StateDir d)), World d c [] []).
Proof.
  intros Hv. unfold IsDenied. rewrite bool_decide_eq_false_2 by done.
  unfold DeniedList, bind at 1. rewrite (bind_Ret _ _ _ _ _ (Load_quiet StateDir d c [])).
  unfold bind, ReadFile, syscall. cbn [faults files clock ticks]. unfold deniedOf, deniedRaw.
  by destruct (d !! deniedPath StateDir).
Qed.

(** The agent notices a rollback the guard performed before it existed.
    With the probation file gone and the pending version denied,
    [CheckAndRollback] counts nothing and restores nothing; it records the
    rollback and keeps the version denied in its own record. *)
Theorem guard_rollback_is_recorded d c :
  let st := load d in
  writable st -> Pending st = true -> RolledBack st = false -> clean (PendingVersion st) ->
  d !! probationPath StateDir = None -> PendingVersion st ∈ deniedOf StateDir d ->
  exists d', CheckAndRollback StateDir (World d c [] []) = (Ret (false, None), World d' c [] []) /\
    frame (own_files StateDir) d d' /\
    Pending (load d') = false /\ RolledBack (load d') = true /\
    statusOf (load d') = (if Finalizing st then StatusFinalizing
                          else if bool_decide (FinalizeErr st = []) then StatusRolledBack
                          else StatusFinalizeFailed) /\
    PendingVersion st ∈ Denied (load d').
Proof.
  intros st Hw Hp Hrb Hv Hpr Hden.
  destruct (json_writes (rolledBackState st)) as [raw Hraw]; [by apply writable_rolledBack|].
  destruct (finishRollback_quiet StateDir d c [] _ raw Hraw) as (d' & Hrun & Hf & Hl & _).
  rewrite stored_decoded in Hl by (apply decoded_rolledBack, stateOf_decoded; exact Hv).
  exists d'. split.
  - unfold CheckAndRollback, reconcileGuardRollback.
    rewrite (bind_Ret _ _ _ (true, None) (World d' c [] [])); [done|].
    rewrite (bind_Ret _ _ _ _ _ (Load_quiet StateDir d c [])). fold st. rewrite Hp, Hrb. cbn [negb orb].
    rewrite (bind_Ret _ _ _ (Err ErrNotExist) (World d c [] [])).
    2: { unfold Stat, syscall. cbn [faults files clock ticks]. by rewrite Hpr. }
    cbn beta iota zeta. change (negb (IsNotExist ErrNotExist)) with false. cbn beta iota.
    rewrite (bind_Ret _ _ _ _ _ (IsDenied_quiet (PendingVersion st) d c (proj1 Hv))).
    rewrite bool_decide_eq_true_2 by done. cbn [negb]. by rewrite (bind_Ret _ _ _ _ _ Hrun).
  - split; [eapply frame_weaken; [|done]; unfold own_files; set_solver|].
    rewrite Hl. do 2 (split; [done|]). split; [|by apply appendDenied_elem].
    unfold statusOf. simpl. destruct (Finalizing st); [done|].
    by destruct (bool_decide (FinalizeErr st = [])).
Qed.
End reconcile.

(** ** Witnesses *)

Definition demo_never_runs : disk :=
  <[probationPath demo_dir := File (renderProbation demo_state) true 384]>
  (<[str "/opt/agent" := File (str "new") true 493]>
  (<[str "/opt/agent.old" := File (str "old") true 493]> ∅)).

Lemma demo_onProbation :
  onProbation demo_dir demo_state (File (str "old") true 493) (File (str "new") true 493) demo_never_runs.
Proof.
  split.
  - exists (File (renderProbation demo_state) true 384). by vm_compute.
  - split_and!; apply (bool_decide_eq_true_1 (_ ∉ _)); by vm_compute.
  - done.
  - done.
  - done.
  - done.
  - split_and!; [apply (bool_decide_eq_true_1 (_ ∉ _)); by vm_compute..|done].
Qed.

Lemma guard_restores_on_the_third_start_witness :
  exists d1 d2 d3,
    guard_check demo_dir (str "/opt/agent") (World demo_never_runs demo_now [] []) =
      (Ret tt, World d1 demo_now [] []) /\
    guard_check demo_dir (str "/opt/agent") (World d1 demo_now [] []) =
      (Ret tt, World d2 demo_now [] []) /\
    guard_check demo_dir (str "/opt/agent") (World d2 demo_now [] []) =
      (Ret tt, World d3 demo_now [] []) /\
    d1 !! str "/opt/agent" = Some (File (str "new") true 493) /\
    d2 !! str "/opt/agent" = Some (File (str "new") true 493) /\
    d3 !! str "/opt/agent" = Some (File (str "old") true 493) /\
    d3 !! str "/opt/agent.old" = None /\ d3 !! PROBATION demo_dir = None /\
    d3 !! STARTS demo_dir = None /\
    deniedRaw demo_dir d3 = Some (default [] (deniedRaw demo_dir demo_never_runs) ++ str "2.0" ++ [nl]).
Proof.
  apply (guard_restores_on_the_third_start demo_dir demo_state (File (str "old") true 493)
           (File (str "new") true 493) demo_never_runs demo_now demo_now demo_now).
  - exact demo_onProbation.
  - split; reflexivity.
  - vm_compute; reflexivity.
  - split; vm_compute; discriminate.
  - vm_compute; discriminate.
  - vm_compute; discriminate.
Defined.

Lemma guard_is_inert_without_probation_witness :
  guard_check demo_dir (str "/opt/agent") (World demo_disk demo_now [] []) =
    (Ret tt, World demo_disk demo_now [] []).
Proof.
  apply (guard_is_inert_without_probation demo_dir (str "/opt/agent") (File (str "old") true 493)).
  - vm_compute; reflexivity.
  - vm_compute; reflexivity.
  - vm_compute; discriminate.
Defined.

(** The disk after the guard restored and denied version 2.0. *)
Definition demo_guard_done : disk :=
  <[statePath demo_dir := demo_file demo_state]>
  (<[deniedPath demo_dir := File (str "2.0" ++ [nl]) true 420]>
  (<[str "/opt/agent" := File (str "old") true 493]> ∅)).

Lemma guard_rollback_is_recorded_witness :
  let st := stateOf demo_dir demo_guard_done in
  exists d', CheckAndRollback demo_dir (World demo_guard_done demo_now [] []) =
      (Ret (false, None), World d' demo_now [] []) /\
    frame (own_files demo_dir) demo_guard_done d' /\
    Pending (stateOf demo_dir d') = false /\ RolledBack (stateOf demo_dir d') = true /\
    statusOf (stateOf demo_dir d') =
      (if Finalizing st then StatusFinalizing
       else if bool_decide (FinalizeErr st = []) then StatusRolledBack else StatusFinalizeFailed) /\
    PendingVersion st ∈ Denied (stateOf demo_dir d').
Proof.
  apply (guard_rollback_is_recorded demo_dir demo_guard_done demo_now).
  - apply (bool_decide_eq_true_1 (Forall _ _)). vm_compute; reflexivity.
  - vm_compute; reflexivity.
  - vm_compute; reflexivity.
  - split; [vm_compute; discriminate|]. split; [vm_compute; reflexivity|].
    apply (bool_decide_eq_true_1 (_ ∉ _)). vm_compute; reflexivity.
  - vm_compute; reflexivity.
  - apply (bool_decide_eq_true_1 (_ ∈ _)). vm_compute; reflexivity.
Defined.
