(* ===== verification/Verify.v ===== *)
(** * Verify: minisign keys, signatures and trust
    (agent/internal/update/verify.go)

    Parsing of minisign public keys and signature files, the verification of
    an artifact against the trusted keys, and how the set of trusted keys is
    built from the key embedded in the binary and the keys the server names.
    [ed25519.Verify] and [sha256.Sum256] are parameters: nothing below depends
    on how they compute. *)
From S2P Require Import Prelude GoLib GoOS.

Definition algLen : nat := 2.
Definition keyIDLen : nat := 8.
Definition PublicKeySize : nat := 32.
Definition SignatureSize : nat := 64.
Definition pubKeyBodyLen : nat := algLen + keyIDLen + PublicKeySize.
Definition sigBodyLen : nat := algLen + keyIDLen + SignatureSize.

Definition algEdDSA : bytes := str "Ed".
Definition algHashedEdDSA : bytes := str "ED".

Definition ErrMalformedKey : error := Sentinel "update: malformed public key".
Definition ErrMalformedSignature : error := Sentinel "update: malformed signature".
Definition ErrUnsupportedAlg : error := Sentinel "update: unsupported signature algorithm".
Definition ErrPrehashedSignature : error :=
  Sentinel "update: prehashed minisign signature (sign without -H)".
Definition ErrKeyIDMismatch : error :=
  Sentinel "update: signature key id does not match public key".
Definition ErrBadSignature : error := Sentinel "update: signature verification failed".
Definition ErrChecksumMismatch : error := Sentinel "update: sha256 checksum mismatch".
Definition ErrNoPublicKey : error := Sentinel "update: no signing public key available".
Definition ErrNoTrustAnchor : error :=
  Sentinel "update: this build has no embedded signing key, so it cannot verify an update".

Record PublicKey := {
  pk_Algorithm : bytes;
  pk_KeyID : bytes;
  pk_Key : bytes;
}.

Record Signature := {
  sig_Algorithm : bytes;
  sig_KeyID : bytes;
  sig_Sig : bytes;
  sig_TrustedComment : bytes;
  sig_GlobalSig : option bytes;
}.

#[global] Instance PublicKey_eq_dec : EqDecision PublicKey.
Proof. solve_decision. Defined.

(** [keyIDHex] *)
Definition keyIDHex (id : bytes) : bytes := ToUpper (HexEncode (rev id)).

(** [nonEmptyLines] *)
Definition nonEmptyLines (s : bytes) : list bytes :=
  filter (fun l => l ≠ []) (map (fun l => TrimRightChar cr (TrimSpace l)) (Split nl s)).

(** [lastNonEmptyLine] *)
Definition lastNonEmptyLine (s : bytes) : option bytes := last (nonEmptyLines s).

(** [ParsePublicKey] *)
Definition ParsePublicKey (s : bytes) : res error PublicKey :=
  match lastNonEmptyLine s with
  | None => Err (Errorf "empty" ErrMalformedKey)
  | Some body =>
      match Base64Decode body with
      | None => Err (Errorf "base64" ErrMalformedKey)
      | Some raw =>
          if negb (length raw =? pubKeyBodyLen)%nat then Err (Errorf "length" ErrMalformedKey)
          else
            let pk := {| pk_Algorithm := take algLen raw;
                         pk_KeyID := take keyIDLen (drop algLen raw);
                         pk_Key := drop (algLen + keyIDLen) raw |} in
            if bool_decide (pk_Algorithm pk = algEdDSA) || bool_decide (pk_Algorithm pk = algHashedEdDSA)
            then Ok pk
            else Err (Errorf "key algorithm" ErrUnsupportedAlg)
      end
  end.

(** The loop of [ParseSignature] over the lines after the signature. *)
Fixpoint parseTrailer (sig : Signature) (lines : list bytes) : res error Signature :=
  match lines with
  | [] => Ok sig
  | l :: lines' =>
      match CutPrefix l (str "trusted comment:") with
      | Some rest =>
          parseTrailer {| sig_Algorithm := sig_Algorithm sig; sig_KeyID := sig_KeyID sig;
                          sig_Sig := sig_Sig sig; sig_TrustedComment := TrimSpace rest;
                          sig_GlobalSig := sig_GlobalSig sig |} lines'
      | None =>
          if negb (bool_decide (sig_TrustedComment sig = [])) &&
             match sig_GlobalSig sig with None => true | Some _ => false end
          then
            match Base64Decode l with
            | None => Err (Errorf "global sig base64" ErrMalformedSignature)
            | Some g =>
                if negb (length g =? SignatureSize)%nat
                then Err (Errorf "global sig length" ErrMalformedSignature)
                else
                  parseTrailer {| sig_Algorithm := sig_Algorithm sig; sig_KeyID := sig_KeyID sig;
                                  sig_Sig := sig_Sig sig;
                                  sig_TrustedComment := sig_TrustedComment sig;
                                  sig_GlobalSig := Some g |} lines'
            end
          else parseTrailer sig lines'
      end
  end.

(** [ParseSignature] *)
Definition ParseSignature (b : bytes) : res error Signature :=
  match nonEmptyLines b with
  | _ :: l1 :: rest =>
      match Base64Decode l1 with
      | None => Err (Errorf "base64" ErrMalformedSignature)
      | Some raw =>
          if negb (length raw =? sigBodyLen)%nat then Err (Errorf "length" ErrMalformedSignature)
          else
            parseTrailer {| sig_Algorithm := take algLen raw;
                            sig_KeyID := take keyIDLen (drop algLen raw);
                            sig_Sig := drop (algLen + keyIDLen) raw;
                            sig_TrustedComment := [];
                            sig_GlobalSig := None |} rest
      end
  | _ => Err (Errorf "want at least 2 lines" ErrMalformedSignature)
  end.

Section verify.
(** [ed25519.Verify(publicKey, message, sig)] and [sha256.Sum256(data)]. *)
Context (ed25519_Verify : bytes -> bytes -> bytes -> bool) (sha256_Sum256 : bytes -> bytes).

(** [VerifyParsed]; [None] is a nil error. *)
Definition VerifyParsed (pub : PublicKey) (message : bytes) (sig : Signature) : option error :=
  if bool_decide (sig_Algorithm sig = algEdDSA) then
    if negb (bool_decide (sig_KeyID sig = pk_KeyID pub))
    then Some (Errorf "signed by another key" ErrKeyIDMismatch)
    else if negb (length (pk_Key pub) =? PublicKeySize)%nat
    then Some (Errorf "key length" ErrMalformedKey)
    else if negb (ed25519_Verify (pk_Key pub) message (sig_Sig sig))
    then Some ErrBadSignature
    else
      match sig_GlobalSig sig with
      | Some g =>
          if negb (ed25519_Verify (pk_Key pub) (sig_Sig sig ++ sig_TrustedComment sig) g)
          then Some (Errorf "trusted comment" ErrBadSignature)
          else None
      | None => None
      end
  else if bool_decide (sig_Algorithm sig = algHashedEdDSA)
  then Some (Errorf "key id" ErrPrehashedSignature)
  else Some (Errorf "signature algorithm" ErrUnsupportedAlg).

(** [Verify] *)
Definition Verify (pub : PublicKey) (message signature : bytes) : option error :=
  match ParseSignature signature with
  | Err e => Some e
  | Ok sig => VerifyParsed pub message sig
  end.

(** The loop of [VerifyAny]. *)
Fixpoint verifyLoop (last : option error) (pubs : list PublicKey) (message signature : bytes) :
    option error :=
  match pubs with
  | [] => last
  | pub :: pubs' =>
      match Verify pub message signature with
      | None => None
      | Some err =>
          let last := match last with
                      | None => Some err
                      | Some l => if Is l ErrKeyIDMismatch then Some err else Some l
                      end in
          verifyLoop last pubs' message signature
      end
  end.

Definition VerifyAny (pubs : list PublicKey) (message signature : bytes) : option error :=
  match pubs with
  | [] => Some ErrNoPublicKey
  | _ => verifyLoop None pubs message signature
  end.

(** [VerifySHA256] *)
Definition VerifySHA256 (data want : bytes) : option error :=
  let want := ToLower (TrimSpace want) in
  if bool_decide (want = []) then Some (Errorf "no expected digest given" ErrChecksumMismatch)
  else
    let got := HexEncode (sha256_Sum256 data) in
    if negb (bool_decide (got = want)) then Some (Errorf "digest" ErrChecksumMismatch) else None.
End verify.

(** The loop of [TrustedKeys]; [seen] is the set of key ids already in
    [keys]. *)
Fixpoint collectKeys (keys : list PublicKey) (ss : list bytes) : res error (list PublicKey) :=
  match ss with
  | [] => Ok keys
  | s :: ss' =>
      if bool_decide (TrimSpace s = []) then collectKeys keys ss'
      else
        match ParsePublicKey s with
        | Err e => Err e
        | Ok pk =>
            if bool_decide (pk_KeyID pk ∈ map pk_KeyID keys) then collectKeys keys ss'
            else collectKeys (keys ++ [pk]) ss'
        end
  end.

(** [TrustedKeys]; the two build-time variables are arguments. *)
Definition TrustedKeys (EmbeddedPublicKey DevBuild : bytes) (extra : list bytes) :
    res error (list PublicKey) :=
  if bool_decide (TrimSpace EmbeddedPublicKey = []) && negb (bool_decide (TrimSpace DevBuild = str "true"))
  then Err ErrNoTrustAnchor
  else
    match collectKeys [] (EmbeddedPublicKey :: extra) with
    | Err e => Err e
    | Ok [] => Err ErrNoPublicKey
    | Ok keys => Ok keys
    end.

(** ** Lemmas and theorems *)

Lemma parseTrailer_keeps sig lines sig' :
  parseTrailer sig lines = Ok sig' ->
  sig_Algorithm sig' = sig_Algorithm sig /\ sig_KeyID sig' = sig_KeyID sig /\
  sig_Sig sig' = sig_Sig sig /\
  (forall g, sig_GlobalSig sig' = Some g -> sig_GlobalSig sig = Some g \/ length g = SignatureSize).
Proof.
  revert sig. induction lines as [|l lines IH]; intros sig; cbn [parseTrailer].
  - intros [= ->]. auto.
  - destruct (CutPrefix l (str "trusted comment:")) as [rest|];
      [intros Hp; apply IH in Hp; simpl in Hp; exact Hp|].
    destruct (_ && _); [|apply IH].
    destruct (Base64Decode l) as [g|]; [|discriminate].
    destruct (Nat.eqb_spec (length g) SignatureSize) as [Hg|]; [|discriminate].
    intros (HA & HK & HS & HG)%IH. simpl in *. split_and!; try done.
    intros g' Hg'. destruct (HG g' Hg') as [[= <-]|]; auto.
Qed.

(** What parses has the shape of minisign: two algorithm bytes, an eight
    byte key id, a 32 byte key, a 64 byte signature, and a global signature of
    64 bytes when there is one. *)
Theorem parsed_sizes :
  (forall s pk, ParsePublicKey s = Ok pk ->
     length (pk_KeyID pk) = keyIDLen /\ length (pk_Key pk) = PublicKeySize /\
     (pk_Algorithm pk = algEdDSA \/ pk_Algorithm pk = algHashedEdDSA)) /\
  (forall b sig, ParseSignature b = Ok sig ->
     length (sig_Algorithm sig) = algLen /\ length (sig_KeyID sig) = keyIDLen /\
     length (sig_Sig sig) = SignatureSize /\
     forall g, sig_GlobalSig sig = Some g -> length g = SignatureSize).
Proof.
  split.
  - intros s pk. unfold ParsePublicKey. destruct (lastNonEmptyLine s) as [body|]; [|done].
    destruct (Base64Decode body) as [raw|]; [|done].
    destruct (Nat.eqb_spec (length raw) pubKeyBodyLen) as [Hl|]; [|done]. cbn [negb pk_Algorithm].
    destruct (_ || _) eqn:E; [|done]. intros [= <-]. cbn [pk_KeyID pk_Key pk_Algorithm].
    rewrite length_take, !length_drop, Hl. split_and!; [done..|].
    apply orb_true_iff in E as [E|E]; bool_cases; auto.
  - intros b sig. unfold ParseSignature. destruct (nonEmptyLines b) as [|l0 [|l1 rest]]; try done.
    destruct (Base64Decode l1) as [raw|]; [|done].
    destruct (Nat.eqb_spec (length raw) sigBodyLen) as [Hl|]; [|done]. cbn [negb].
    intros (-> & -> & -> & HG)%parseTrailer_keeps. simpl.
    rewrite !length_take, !length_drop, Hl. split_and!; [done..|].
    intros g Hg. by destruct (HG g Hg).
Qed.

Section trust.
Context (ed25519_Verify : bytes -> bytes -> bytes -> bool).

(** A key accepts a message: the signature file parses, is in the supported
    mode, names that key, and both of its signatures check. *)
Definition accepts (pub : PublicKey) (message signature : bytes) : Prop :=
  exists sig, ParseSignature signature = Ok sig /\
    sig_Algorithm sig = algEdDSA /\ sig_KeyID sig = pk_KeyID pub /\
    length (pk_Key pub) = PublicKeySize /\
    ed25519_Verify (pk_Key pub) message (sig_Sig sig) = true /\
    forall g, sig_GlobalSig sig = Some g ->
      ed25519_Verify (pk_Key pub) (sig_Sig sig ++ sig_TrustedComment sig) g = true.

Lemma VerifyParsed_None pub message sig :
  VerifyParsed ed25519_Verify pub message sig = None <->
    sig_Algorithm sig = algEdDSA /\ sig_KeyID sig = pk_KeyID pub /\
    length (pk_Key pub) = PublicKeySize /\
    ed25519_Verify (pk_Key pub) message (sig_Sig sig) = true /\
    forall g, sig_GlobalSig sig = Some g ->
      ed25519_Verify (pk_Key pub) (sig_Sig sig ++ sig_TrustedComment sig) g = true.
Proof.
  unfold VerifyParsed. case_bool_decide as E1.
  2: { case_bool_decide; split; [done|intros (? & _); done| done| intros (? & _); done]. }
  case_bool_decide as E2; cbn [negb]; [|split; [done|intros (? & ? & _); done]].
  destruct (Nat.eqb_spec (length (pk_Key pub)) PublicKeySize) as [E3|E3]; cbn [negb];
    [|split; [done|intros (? & ? & ? & _); done]].
  destruct (ed25519_Verify (pk_Key pub) message (sig_Sig sig)) eqn:E4; cbn [negb];
    [|split; [done|intros (? & ? & ? & ? & _); done]].
  destruct (sig_GlobalSig sig) as [g|] eqn:E5; [|split; [|done]; intros _; split_and!; done].
  destruct (ed25519_Verify (pk_Key pub) _ g) eqn:E6; cbn [negb]; split; intros H; try done.
  - split_and!; try done. by intros g' [= <-].
  - destruct H as (_ & _ & _ & _ & Hg). specialize (Hg g eq_refl). congruence.
Qed.

Lemma Verify_None pub message signature :
  Verify ed25519_Verify pub message signature = None <-> accepts pub message signature.
Proof.
  unfold Verify, accepts. destruct (ParseSignature signature) as [sig|e].
  - rewrite VerifyParsed_None. split; [eauto|]. by intros (sig' & [= <-] & ?).
  - split; [done|]. by intros (? & [=] & _).
Qed.

Lemma verifyLoop_None last pubs message signature :
  pubs ≠ [] \/ last ≠ None ->
  verifyLoop ed25519_Verify last pubs message signature = None <->
  exists pub, pub ∈ pubs /\ accepts pub message signature.
Proof.
  revert last. induction pubs as [|pub pubs IH]; intros last Hne; cbn [verifyLoop].
  - destruct Hne as [?|Hl]; [done|]. split; [done|]. intros (p & Hp & _). by apply not_elem_of_nil in Hp.
  - setoid_rewrite elem_of_cons. destruct (Verify ed25519_Verify pub message signature) as [e|] eqn:E.
    + rewrite IH.
      2: { right. destruct last as [l|]; [|done]. by destruct (Is l ErrKeyIDMismatch). }
      split; [naive_solver|]. intros (p & [->|Hp] & Ha); [|eauto].
      apply Verify_None in Ha. congruence.
    + apply Verify_None in E. naive_solver.
Qed.

Lemma VerifyAny_None pubs message signature :
  VerifyAny ed25519_Verify pubs message signature = None <->
  exists pub, pub ∈ pubs /\ accepts pub message signature.
Proof.
  unfold VerifyAny. destruct pubs as [|pub pubs].
  - split; [done|]. intros (p & Hp & _). by apply not_elem_of_nil in Hp.
  - apply verifyLoop_None. by left.
Qed.

(** An artifact passes [VerifyAny] exactly when one of the given keys
    signed those bytes: the signature is in the non-prehashed mode, names
    that key, its ed25519 signature checks over the artifact, and a trusted
    comment with a global signature checks too.  No key list, no pass. *)
Theorem VerifyAny_iff_signed pubs message signature :
  VerifyAny ed25519_Verify pubs message signature = None <->
  exists pub, pub ∈ pubs /\ accepts pub message signature.
Proof. apply VerifyAny_None. Qed.

(** The digest check passes exactly when the expected text, trimmed and
    in lower case, is the hex digest of the data; an empty expectation never
    passes. *)
Theorem VerifySHA256_iff (sha256_Sum256 : bytes -> bytes) data want :
  VerifySHA256 sha256_Sum256 data want = None <->
  ToLower (TrimSpace want) ≠ [] /\ ToLower (TrimSpace want) = HexEncode (sha256_Sum256 data).
Proof.
  unfold VerifySHA256. destruct (bool_decide (_ = [])) eqn:E; bool_cases; [naive_solver|].
  destruct (bool_decide (HexEncode _ = _)) eqn:E2; bool_cases; cbn [negb]; naive_solver.
Qed.

(** Which failure [VerifyAny] reports.  The first key that fails for any
    reason other than a key id mismatch fixes the error, whatever the later
    keys say; a mismatch is reported only when every key mismatched. *)
Theorem VerifyAny_reports_first_non_mismatch pubs pub rest message signature e :
  Forall (fun p => exists e', Verify ed25519_Verify p message signature = Some e' /\
                   Is e' ErrKeyIDMismatch = true) pubs ->
  Verify ed25519_Verify pub message signature = Some e -> Is e ErrKeyIDMismatch = false ->
  Forall (fun p => Verify ed25519_Verify p message signature ≠ None) rest ->
  VerifyAny ed25519_Verify (pubs ++ pub :: rest) message signature = Some e.
Proof.
  intros Hmis Hv He Hrest.
  assert (Hstick : verifyLoop ed25519_Verify (Some e) rest message signature = Some e).
  { induction Hrest as [|p rest Hp Hrest IH]; cbn [verifyLoop]; [done|].
    destruct (Verify ed25519_Verify p message signature); [|done]. by rewrite He. }
  assert (Hloop : forall last, match last with None => True | Some l => Is l ErrKeyIDMismatch = true end ->
    verifyLoop ed25519_Verify last (pubs ++ pub :: rest) message signature = Some e).
  { induction Hmis as [|p pubs (e' & Hp & He') Hmis IH]; intros last Hlast; cbn [app verifyLoop].
    - rewrite Hv. destruct last as [l|]; [by rewrite Hlast | done].
    - rewrite Hp. apply IH. destruct last as [l|]; [by rewrite Hlast | done]. }
  unfold VerifyAny. destruct (pubs ++ pub :: rest) eqn:E; [by destruct pubs|].
  by apply Hloop.
Qed.
End trust.

(** *** The trusted set *)

Lemma collectKeys_spec keys ss keys' :
  NoDup (map pk_KeyID keys) -> collectKeys keys ss = Ok keys' ->
  NoDup (map pk_KeyID keys') /\
  exists more, keys' = keys ++ more /\
    forall pk, pk ∈ more -> exists s, s ∈ ss /\ ParsePublicKey s = Ok pk.
Proof.
  revert keys keys'. induction ss as [|s ss IH]; intros keys keys' Hnd; cbn [collectKeys].
  - intros [= <-]. split; [done|]. exists []. rewrite app_nil_r. split; [done|].
    intros pk []%not_elem_of_nil.
  - assert (Hskip : forall r, collectKeys keys ss = Ok r -> NoDup (map pk_KeyID r) /\
      exists more, r = keys ++ more /\
        forall pk, pk ∈ more -> exists s', s' ∈ s :: ss /\ ParsePublicKey s' = Ok pk).
    { intros r (Hr & more & -> & Hm)%IH; [|done]. split; [done|]. exists more. split; [done|].
      intros pk (s' & Hs & Hp)%Hm. exists s'. set_solver. }
    destruct (bool_decide (TrimSpace s = [])); [apply Hskip|].
    destruct (ParsePublicKey s) as [pk|e] eqn:Ep; [|done].
    destruct (bool_decide (pk_KeyID pk ∈ _)) eqn:Ed; bool_cases; [apply Hskip|].
    intros (Hr & more & -> & Hm)%IH.
    + split; [done|]. exists (pk :: more). rewrite <- app_assoc. split; [done|].
      intros pk' [->|Hin]%elem_of_cons; [exists s; set_solver|].
      destruct (Hm pk' Hin) as (s' & Hs & Hp). exists s'. set_solver.
    + rewrite map_app. apply NoDup_app. split; [done|]. split; [|apply NoDup_singleton].
      intros x Hx ->%list_elem_of_singleton. done.
Qed.

(** The trust anchor.  A build with an embedded key always trusts exactly
    that key first, and keys the server names are only added behind it under
    other key ids, so none can shadow or replace it.  A build without one, not
    marked as a development build, trusts nothing, whatever the server
    names. *)
Theorem trust_anchor embedded dev extra :
  (TrimSpace embedded = [] -> TrimSpace dev ≠ str "true" ->
     TrustedKeys embedded dev extra = Err ErrNoTrustAnchor) /\
  (TrimSpace embedded ≠ [] -> forall keys, TrustedKeys embedded dev extra = Ok keys ->
     exists anchor added, ParsePublicKey embedded = Ok anchor /\ keys = anchor :: added /\
       NoDup (map pk_KeyID keys) /\
       forall pk, pk ∈ added -> pk_KeyID pk ≠ pk_KeyID anchor /\
         exists s, s ∈ extra /\ ParsePublicKey s = Ok pk).
Proof.
  unfold TrustedKeys. split.
  - intros He Hd. by rewrite bool_decide_eq_true_2, bool_decide_eq_false_2.
  - intros He keys. rewrite (bool_decide_eq_false_2 (TrimSpace embedded = [])) by done.
    cbn [andb collectKeys]. rewrite (bool_decide_eq_false_2 (TrimSpace embedded = [])) by done.
    destruct (ParsePublicKey embedded) as [anchor|e] eqn:Ep; [|done].
    rewrite bool_decide_eq_false_2 by apply not_elem_of_nil. simpl.
    destruct (collectKeys [anchor] extra) as [ks|e] eqn:Ec; [|done].
    apply collectKeys_spec in Ec as (Hnd & added & -> & Hm); [|apply NoDup_singleton].
    intros [= <-]. exists anchor, added. split_and!; [done|done|done|].
    intros pk Hpk. split; [|by apply Hm].
    simpl in Hnd. apply NoDup_cons in Hnd as [Hnin _]. intros Heq. apply Hnin. rewrite <- Heq.
    by apply (list_elem_of_fmap_2 pk_KeyID).
Qed.

(** *** A concrete signature

    A signature file of the key [ABCDEFGH], and two public keys in the format
    a release build embeds. *)
Definition demo_minisig : bytes :=
  str "untrusted comment: signature" ++ [nl] ++
  str "RWRBQkNERUZHSHNzc3Nzc3Nzc3Nzc3Nzc3Nzc3Nzc3Nzc3Nzc3Nzc3Nzc3Nzc3Nzc3Nzc3Nzc3Nzc3Nzc3Nzc3Nzc3Nzc3Nzc3M=" ++ [nl].
Definition demo_pub : bytes :=
  str "untrusted comment: minisign public key" ++ [nl] ++
  str "RWRBQkNERUZHSGtra2tra2tra2tra2tra2tra2tra2tra2tra2tra2tr".
Definition demo_pub2 : bytes := str "RWQxMjM0NTY3OHFxcXFxcXFxcXFxcXFxcXFxcXFxcXFxcXFxcXFxcXFx".

Definition demo_key (s : bytes) : PublicKey :=
  match ParsePublicKey s with
  | Ok pk => pk
  | Err _ => {| pk_Algorithm := []; pk_KeyID := []; pk_Key := [] |}
  end.

Lemma parsed_sizes_witness :
  ParsePublicKey demo_pub = Ok (demo_key demo_pub) /\
  length (pk_KeyID (demo_key demo_pub)) = keyIDLen.
Proof.
  assert (Hp : ParsePublicKey demo_pub = Ok (demo_key demo_pub)) by (vm_compute; reflexivity).
  split; [exact Hp|]. exact (proj1 (proj1 parsed_sizes demo_pub _ Hp)).
Defined.

Lemma VerifyAny_reports_first_non_mismatch_witness :
  VerifyAny (fun _ _ _ => false) [demo_key demo_pub2; demo_key demo_pub; demo_key demo_pub2]
    (str "payload") demo_minisig = Some ErrBadSignature.
Proof.
  apply (VerifyAny_reports_first_non_mismatch (fun _ _ _ => false) [demo_key demo_pub2]
           (demo_key demo_pub) [demo_key demo_pub2] (str "payload") demo_minisig ErrBadSignature).
  - constructor; [|constructor].
    exists (Errorf "signed by another key" ErrKeyIDMismatch). split; vm_compute; reflexivity.
  - vm_compute; reflexivity.
  - reflexivity.
  - constructor; [|constructor]. vm_compute; discriminate.
Defined.

Lemma trust_anchor_witness :
  TrustedKeys [] [] [demo_pub] = Err ErrNoTrustAnchor /\
  exists anchor added, ParsePublicKey demo_pub = Ok anchor /\
    [demo_key demo_pub; demo_key demo_pub2] = anchor :: added.
Proof.
  split.
  - apply (trust_anchor [] [] [demo_pub]); [reflexivity | vm_compute; discriminate].
  - destruct (proj2 (trust_anchor demo_pub [] [demo_pub2; demo_pub]))
      with (keys := [demo_key demo_pub; demo_key demo_pub2]) as (a & l & Hp & Hl & _).
    + vm_compute; discriminate.
    + vm_compute; reflexivity.
    + exists a, l. split; [exact Hp | exact Hl].
Defined.
