(* ===== verification/Download.v ===== *)
(** * Download: fetching and staging release artifacts
    (agent/internal/update/download.go)

    [Download] resumes a partial transfer into [dest.part] and renames it to
    [dest] when it is complete; [Fetch] reads a small companion file.  The
    HTTP client is the interface [Client]: it answers a request with a status,
    the bytes the body delivers and the error it ends with, if any.  Nothing
    is assumed of the server, except in the theorem that says what an honest
    one obtains. *)
From S2P Require Import Prelude GoLib GoOS Swap.

Definition DefaultMaxBytes : Z := Z.shiftl 256 20.

Definition ErrDownload : error := Sentinel "update: download failed".
Definition ErrTooLarge : error := Sentinel "update: artifact exceeds size cap".
Definition ErrNotHTTPS : error := Sentinel "update: artifact URL must be https".
Definition ErrBadStatus : error := Sentinel "update: unexpected HTTP status".
Definition ErrEmptyResult : error := Sentinel "update: server returned no bytes".

Record Downloader := {
  MaxBytes : Z;
  AllowInsecureHTTP : bool;
}.

(** The zero value, which [Apply] uses when none is given. *)
Definition zeroDownloader : Downloader := {| MaxBytes := 0; AllowInsecureHTTP := false |}.

Definition maxBytes (d : Downloader) : Z :=
  if 0 <? MaxBytes d then MaxBytes d else DefaultMaxBytes.

(** ** net/http *)

Record HTTPRequest := {
  rq_URL : bytes;
  rq_Range : option Z;    (** [Range: bytes=k-] *)
}.

Record Response := {
  StatusCode : Z;
  Body : bytes;             (** what reading the body delivers *)
  BodyErr : option error;   (** how it ends: [None] is [io.EOF] *)
}.

Definition StatusOK : Z := 200.
Definition StatusPartialContent : Z := 206.
Definition StatusRequestedRangeNotSatisfiable : Z := 416.

(** [http.NewRequestWithContext] may refuse a URL; [Do] sends the request.
    Neither touches the disk. *)
Class Client := {
  NewRequest : bytes -> option error;
  Do : HTTPRequest -> io (res error Response);
  Do_quiet : forall r w, exists resp c ts,
    Do r w = (Ret resp, World (files w) c ts (faults w));
}.

(** [io.LimitReader(body, n)] read to its end: the bytes and the error. *)
Definition LimitReader (resp : Response) (n : Z) : bytes * option error :=
  if blen (Body resp) <? n then (Body resp, BodyErr resp)
  else (take (Z.to_nat n) (Body resp), None).

(** ** Staging *)

Definition StagingDir (stateDir : path) : path := Join stateDir (str "staging").

(** The [keep] function of [sanitizeVersion] on an ASCII rune. *)
Definition keepRune (r : ascii) : ascii :=
  if is_digit r || is_lower r || is_upper r then r
  else if bool_decide (r ∈ [".";"-";"_";"+"]%char) then r
  else "_"%char.

Definition sanitizeVersion (v : bytes) : bytes :=
  if bool_decide (v = []) then str "unknown"
  else
    let s := MapRunes keepRune "_"%char (length v) v in
    if (64 <? length s)%nat then take 64 s else s.

(** [filepath.Base] of a non-empty cleaned path. *)
Definition Base (p : path) : bytes := default [] (last (Split "/"%char p)).

(** The names [os.ReadDir] returns for the plain files of a directory. *)
Definition entryName (dir p : path) : option bytes :=
  match CutPrefix p (Join dir []) with
  | Some name => if bool_decide (name = []) || bool_decide ("/"%char ∈ name) then None else Some name
  | None => None
  end.

Definition ReadDir (dir : path) : io (res error (list bytes)) :=
  syscall (fun d => (Ok (omap (entryName dir) (map_to_list d).*1), d)) atomic.

Section download.
Context `{HP : Platform} `{HC : Client}.

Definition StagedPath (stateDir version : bytes) : path :=
  Join (StagingDir stateDir) (str "everwas-agent-" ++ sanitizeVersion version ++ ExeExt).

(** The https-only rule. *)
Definition refusesURL (d : Downloader) (url : bytes) : bool :=
  negb (AllowInsecureHTTP d) && negb (HasPrefix (ToLower url) (str "https://")).

(** The transfer into the opened part file and what follows it. *)
Definition receive (d : Downloader) (dest : path) (have : Z) (resp : Response) :
    io (res error Z) :=
  let part := dest ++ str ".part" in
  let remaining := wrap64 (maxBytes d - have) in
  let '(chunk, readErr) := LimitReader resp (wrap64 (remaining + 1)) in
  let written := blen chunk in
  let* copied := AppendFile part chunk 448 in
  let* closed := Sync part in
  match copied, readErr, closed with
  | Err e, _, _ => ret (Err (JoinErr ErrDownload e))
  | Ok _, Some e, _ => ret (Err (JoinErr ErrDownload e))
  | Ok _, None, Err _ => ret (Err (Errorf "close staging file" ErrDownload))
  | Ok _, None, Ok _ =>
      let total := wrap64 (have + written) in
      if remaining <? written then
        let* _ := ignore (Remove part) in
        ret (Err (Errorf "over the cap" ErrTooLarge))
      else if total =? 0 then
        let* _ := ignore (Remove part) in
        ret (Err ErrEmptyResult)
      else
        try* _ := Rename part dest orelse (fun _ => Errorf "stage artifact" ErrDownload) in
        try* _ := Chmod dest 448 orelse (fun _ => Errorf "chmod staged artifact" ErrDownload) in
        ret (Ok total)
  end.

(** Opening the part file, to append to or from zero, and the transfer. *)
Definition openPart (d : Downloader) (dest : path) (have : Z) (appending : bool)
    (resp : Response) : io (res error Z) :=
  let part := dest ++ str ".part" in
  let openErr (_ : error) := Errorf "open staging file" ErrDownload in
  if appending then
    try* _ := AppendFile part [] 448 orelse openErr in receive d dest have resp
  else
    try* _ := WriteFile part [] 448 orelse openErr in receive d dest 0 resp.

(** What the status of the response leads to. *)
Definition onResponse (d : Downloader) (dest : path) (have : Z) (resp : Response) :
    io (res error Z) :=
  if StatusCode resp =? StatusOK then openPart d dest have false resp
  else if StatusCode resp =? StatusPartialContent then openPart d dest have (0 <? have) resp
  else if StatusCode resp =? StatusRequestedRangeNotSatisfiable then
    let* _ := ignore (Remove (dest ++ str ".part")) in
    ret (Err (Errorf "stale partial download discarded, retry" ErrDownload))
  else ret (Err (Errorf "status" ErrBadStatus)).

(** The size of a usable partial transfer; one over the cap is removed. *)
Definition partSize (d : Downloader) (part : path) : io Z :=
  let* fi := Stat part in
  let have := match fi with Ok f => if f_reg f then blen (f_data f) else 0 | Err _ => 0 end in
  if maxBytes d <? have then let* _ := ignore (Remove part) in ret 0
  else ret have.

Definition Download (d : Downloader) (url : bytes) (dest : path) : io (res error Z) :=
  if refusesURL d url then ret (Err (Errorf "url" ErrNotHTTPS))
  else
    try* _ := MkdirAll dest orelse (fun _ => Errorf "staging dir" ErrDownload) in
    let part := dest ++ str ".part" in
    let* have := partSize d part in
    match NewRequest url with
    | Some _ => ret (Err (Errorf "request" ErrDownload))
    | None =>
        let range := if 0 <? have then Some have else None in
        try* resp := Do {| rq_URL := url; rq_Range := range |} orelse JoinErr ErrDownload in
        onResponse d dest have resp
    end.

Definition Fetch (d : Downloader) (url : bytes) (limit : Z) : io (res error bytes) :=
  if refusesURL d url then ret (Err (Errorf "url" ErrNotHTTPS))
  else
    match NewRequest url with
    | Some _ => ret (Err (Errorf "request" ErrDownload))
    | None =>
        try* resp := Do {| rq_URL := url; rq_Range := None |} orelse JoinErr ErrDownload in
        if negb (StatusCode resp =? StatusOK) then ret (Err (Errorf "status" ErrBadStatus))
        else
          let '(body, readErr) := LimitReader resp (wrap64 (limit + 1)) in
          match readErr with
          | Some e => ret (Err (JoinErr ErrDownload e))
          | None =>
              if limit <? blen body then ret (Err (Errorf "companion file" ErrTooLarge))
              else ret (Ok body)
          end
    end.

(** The loop of [CleanStaging] over the entries. *)
Fixpoint cleanEntries (dir : path) (kept : list bytes) (names : list bytes) : io unit :=
  match names with
  | [] => ret tt
  | n :: names' =>
      if bool_decide (n ∈ kept) then cleanEntries dir kept names'
      else let* _ := ignore (Remove (Join dir n)) in cleanEntries dir kept names'
  end.

Definition CleanStaging (stateDir : path) (keep : list path) : io unit :=
  let dir := StagingDir stateDir in
  let* entries := ReadDir dir in
  match entries with
  | Err _ => ret tt
  | Ok names =>
      let kept := map Base (filter (fun k => k ≠ []) keep) in
      cleanEntries dir kept names
  end.
End download.

(** ** Lemmas *)

(** The bytes a file name made from a version may hold. *)
Definition safeChar (c : ascii) : bool :=
  is_digit c || is_lower c || is_upper c || bool_decide (c ∈ [".";"-";"_";"+"]%char).

Lemma keepRune_safe c : safeChar (keepRune c) = true.
Proof.
  unfold keepRune, safeChar. destruct (is_digit c || is_lower c || is_upper c) eqn:E; [by rewrite E|].
  destruct (bool_decide (c ∈ _)) eqn:E2; [by rewrite E, E2 | reflexivity].
Qed.

Lemma MapRunes_safe fuel s :
  Forall (fun c => safeChar c = true) (MapRunes keepRune "_"%char fuel s).
Proof.
  revert s. induction fuel as [|fuel IH]; intros [|c s]; cbn [MapRunes]; [constructor..|].
  constructor; [|apply IH]. destruct (code c <? 128); [apply keepRune_safe | reflexivity].
Qed.

Lemma maxBytes_range d : in_int64 (MaxBytes d) -> 0 < maxBytes d <= max_int64.
Proof.
  unfold in_int64, maxBytes, DefaultMaxBytes. intros Hd.
  destruct (Z.ltb_spec 0 (MaxBytes d)); [lia|]. vm_compute. split; congruence.
Qed.

Lemma LimitReader_take resp n : exists k, (LimitReader resp n).1 = take k (Body resp).
Proof.
  unfold LimitReader. destruct (_ <? _); cbn [fst]; [|eauto].
  exists (length (Body resp)). by rewrite firstn_all.
Qed.

(** Reading within the allowance delivers the whole body and its end. *)
Lemma LimitReader_within resp max have chunk e :
  0 <= have <= max -> 0 < max <= max_int64 ->
  LimitReader resp (wrap64 (wrap64 (max - have) + 1)) = (chunk, e) ->
  (blen chunk <= wrap64 (max - have) /\ wrap64 (have + blen chunk) ≠ 0) ->
  chunk = Body resp /\ e = BodyErr resp /\ 0 < have + blen chunk <= max /\
  wrap64 (have + blen chunk) = have + blen chunk.
Proof.
  intros Hh Hm. rewrite (wrap64_id (max - have)) by (unfold in_int64, min_int64; lia).
  pose proof (blen_nonneg chunk) as Hc. unfold LimitReader.
  destruct (Z.ltb_spec (blen (Body resp)) (wrap64 (max - have + 1))) as [Hlt|Hge].
  - intros [= <- <-] [Hle Hnz]. rewrite (wrap64_id (have + _)) in *
      by (unfold in_int64, min_int64; lia). pose proof (blen_nonneg (Body resp)). split_and!; lia || done.
  - intros [= <- <-] [Hle Hnz]. exfalso. destruct (Z.eq_dec (max - have) max_int64) as [E|E].
    + rewrite E in *. change (wrap64 (max_int64 + 1)) with min_int64 in *. apply Hnz.
      change (Z.to_nat min_int64) with 0%nat. rewrite take_0.
      replace have with 0 by lia. reflexivity.
    + rewrite (wrap64_id (max - have + 1)) in * by (unfold in_int64, min_int64, max_int64 in *; lia).
      unfold blen in Hle, Hge. rewrite length_take in Hle. lia.
Qed.

Lemma Do_wp `{Client} r (Q : res error Response -> world -> Prop) C w :
  (forall resp c ts, Do r w = (Ret resp, World (files w) c ts (faults w)) ->
     Q resp (World (files w) c ts (faults w))) -> wp (Do r) Q C w.
Proof.
  intros HQ. destruct (Do_quiet r w) as (resp & c & ts & E). unfold wp. rewrite E. by apply HQ.
Qed.

Section transfer.
Context (dest : path) (base : bytes) (resp : Response) (max : Z) (d0 : disk).

Abbreviation part := (dest ++ str ".part").

(** A transfer that did not complete: [dest] is as it was, and the part
    file is gone or holds what it had plus a prefix of the body. *)
Definition underway (d : disk) : Prop :=
  d !! dest = d0 !! dest /\
  (d !! part = None \/
   exists g k, d !! part = Some g /\ f_data g = base ++ take k (Body resp)).

(** A completed one: [dest] holds what the part file had plus the whole
    body, and is within the cap. *)
Definition complete (d : disk) : Prop :=
  d !! part = None /\ BodyErr resp = None /\
  exists f, d !! dest = Some f /\ f_data f = base ++ Body resp /\ 0 < blen (f_data f) <= max.

Lemma part_ne : part ≠ dest.
Proof. by apply app_suffix_ne. Qed.

Lemma underway_write d g k :
  underway d -> f_data g = base ++ take k (Body resp) -> underway (<[part := g]> d).
Proof.
  intros [Hd _] Hg. split.
  - rewrite lookup_insert_ne; [done | apply part_ne].
  - right. exists g, k. by rewrite lookup_insert_eq.
Qed.

Lemma underway_delete d : underway d -> underway (delete part d).
Proof.
  intros [Hd _]. split.
  - rewrite lookup_delete_ne; [done | apply part_ne].
  - left. apply lookup_delete_eq.
Qed.

(** Appending a piece of the body to the part file: completed or not. *)
Lemma wp_append_chunk (n : nat) (f : file) (Q : res error unit -> world -> Prop)
    (C : disk -> Prop) (w : world) :
  let chunk := take n (Body resp) in
  files w !! part = Some f -> f_data f = base -> underway (files w) ->
  (forall g fs, f_data g = base ++ chunk ->
     Q (Ok tt) (World (<[part := g]> (files w)) (clock w) (ticks w) fs)) ->
  (forall d fs, frame [part] (files w) d -> underway d ->
     Q (Err ErrIO) (World d (clock w) (ticks w) fs) /\ C d) ->
  wp (AppendFile part chunk 448) Q C w.
Proof.
  intros chunk Hp Hf Hu Hok Hbad.
  assert (Hpart : forall k, f_data (extended (files w) part (take k chunk) 448) =
                  base ++ take (k `min` n) (Body resp)).
  { intros k. unfold extended. rewrite Hp. simpl. by rewrite Hf, <- take_take. }
  assert (Hk : forall k fs, let d := match k with O => files w
                 | S k' => <[part := extended (files w) part (take k' chunk) 448]> (files w) end in
               Q (Err ErrIO) (World d (clock w) (ticks w) fs) /\ C d).
  { intros [|k] fs; apply Hbad; [apply frame_refl|done|apply frame_insert; set_solver|].
    eapply underway_write; [done | apply Hpart]. }
  apply wp_syscall; [|intros; apply Hk|intros; apply (Hk k [])].
  intros fs. apply Hok. unfold extended. rewrite Hp. simpl. by rewrite Hf.
Qed.
End transfer.

Section download_specs.
Context `{HC : Client}.
Implicit Types (dest : path) (w : world) (resp : Response) (dl : Downloader)
  (url base : bytes) (range : option Z) (d : disk).

Abbreviation partOf dest := (dest ++ str ".part").

(** Removing the part file after a refused transfer. *)
Lemma wp_drop_part {A} dest base resp d0 (e : error) (Q : res error A -> world -> Prop) C w :
  frame [partOf dest; dest] d0 (files w) -> underway dest base resp d0 (files w) ->
  (forall d fs, frame [partOf dest; dest] d0 d -> underway dest base resp d0 d ->
     Q (Err e) (World d (clock w) (ticks w) fs) /\ C d) ->
  wp (let* _ := ignore (Remove (partOf dest)) in ret (Err e)) Q C w.
Proof.
  intros Hf Hu HQ. do 3 wp_step.
  - do 2 wp_step. apply HQ; [|by apply underway_delete].
    apply (frame_trans _ _ (files w)); [done | apply frame_delete; set_solver].
  - do 2 wp_step. by apply HQ.
  - by apply (HQ _ []).
Qed.

(** Renaming the complete part file into place. *)
Lemma wp_stage dest base resp max d0 (g : file) (total : Z) (Q : res error Z -> world -> Prop) C w :
  frame [partOf dest; dest] d0 (files w) -> underway dest base resp d0 (files w) ->
  files w !! partOf dest = Some g -> f_data g = base ++ Body resp ->
  BodyErr resp = None -> 0 < blen (f_data g) <= max ->
  (forall d fs e, frame [partOf dest; dest] d0 d ->
     (underway dest base resp d0 d \/ complete dest base resp max d) ->
     Q (Err e) (World d (clock w) (ticks w) fs) /\ C d) ->
  (forall d fs (f : file), frame [partOf dest; dest] d0 d -> complete dest base resp max d ->
     d !! dest = Some f -> f_mode f = 448 -> f_data f = f_data g ->
     Q (Ok total) (World d (clock w) (ticks w) fs)) ->
  wp (try* _ := Rename (partOf dest) dest orelse (fun _ => Errorf "stage artifact" ErrDownload) in
      try* _ := Chmod dest 448 orelse (fun _ => Errorf "chmod staged artifact" ErrDownload) in
      ret (Ok total)) Q C w.
Proof.
  intros Hf Hu Hg Hd He Hm Hbad Hok. pose proof (part_ne dest) as N.
  wp_step. wp_step; [|by apply Hbad; [|left]|by apply (Hbad _ [] ErrIO); [|left]].
  rewrite Hg in Hf0. injection Hf0 as <-.
  set (d1 := <[dest := g]> (delete (partOf dest) (files w))).
  assert (Hf1 : frame [partOf dest; dest] d0 d1).
  { apply (frame_trans _ _ (files w)); [done|].
    apply (frame_trans _ _ (delete (partOf dest) (files w)));
      [apply frame_delete | apply frame_insert]; set_solver. }
  assert (Hall : forall g', f_data g' = f_data g -> complete dest base resp max (<[dest := g']> d1)).
  { intros g' Hg'. split_and!; [|done|].
    - unfold d1. rewrite !lookup_insert_ne by done. apply lookup_delete_eq.
    - exists g'. rewrite lookup_insert_eq, Hg'. done. }
  assert (Hc1 : complete dest base resp max d1).
  { specialize (Hall g eq_refl). unfold d1 in *. by rewrite insert_insert_eq in Hall. }
  wp_step. wp_step; [|by apply Hbad; [|right]|by apply (Hbad _ [] ErrIO); [|right]].
  assert (f = g) as -> by (unfold d1 in Hf0; rewrite lookup_insert_eq in Hf0; congruence).
  wp_step. eapply Hok; [|by apply Hall|by rewrite lookup_insert_eq|done|done].
  apply (frame_trans _ _ d1); [done | apply frame_insert; set_solver].
Qed.

(** What [receive] leaves behind, given a part file of [have] bytes. *)
Lemma receive_spec dl dest base resp d0 (f : file) (Q : res error Z -> world -> Prop) C w :
  in_int64 (MaxBytes dl) -> blen base <= maxBytes dl ->
  frame [partOf dest; dest] d0 (files w) -> underway dest base resp d0 (files w) ->
  files w !! partOf dest = Some f -> f_data f = base ->
  (forall d fs e, frame [partOf dest; dest] d0 d ->
     (underway dest base resp d0 d \/ complete dest base resp (maxBytes dl) d) ->
     Q (Err e) (World d (clock w) (ticks w) fs) /\ C d) ->
  (forall d fs (f : file), frame [partOf dest; dest] d0 d -> complete dest base resp (maxBytes dl) d ->
     d !! dest = Some f -> f_mode f = 448 ->
     Q (Ok (blen (f_data f))) (World d (clock w) (ticks w) fs)) ->
  wp (receive dl dest (blen base) resp) Q C w.
Proof.
  intros Hin Hle Hfr Hu Hp Hb Hbad Hok. pose proof (maxBytes_range dl Hin) as Hmax.
  unfold receive. destruct (LimitReader _ _) as [chunk re] eqn:EL.
  assert (exists n, chunk = take n (Body resp)) as [n ->].
  { destruct (LimitReader_take resp (wrap64 (wrap64 (maxBytes dl - blen base) + 1))) as [n Hn].
    rewrite EL in Hn. eauto. }
  assert (Hfin : forall d fs e, frame [partOf dest] (files w) d -> underway dest base resp d0 d ->
    Q (Err e) (World d (clock w) (ticks w) fs) /\ C d).
  { intros d fs e Hd Hud. apply Hbad; [|by left]. apply (frame_trans _ _ (files w)); [done|].
    eapply frame_weaken; [|done]. set_solver. }
  wp_step. eapply wp_append_chunk; [done|done|done| |].
  2: { intros d fs Hd Hud. split; [|by apply (Hfin d fs ErrIO)].
       do 2 wp_step; [by apply Hfin|by apply Hfin|by apply (Hfin d [] ErrIO)]. }
  intros g fs Hg. set (d1 := <[_ := g]> (files w)).
  assert (Hd1 : frame [partOf dest] (files w) d1) by (apply frame_insert; set_solver).
  assert (Hu1 : underway dest base resp d0 d1) by (by eapply underway_write).
  assert (Hd1' : frame [partOf dest; dest] d0 d1).
  { apply (frame_trans _ _ (files w)); [done|]. eapply frame_weaken; [|done]. set_solver. }
  wp_step. wp_step; [|by destruct re; apply Hfin|by apply (Hfin d1 [] ErrIO)].
  destruct re as [e|]; [by apply Hfin|].
  destruct (Z.ltb_spec (wrap64 (maxBytes dl - blen base)) (blen (take n (Body resp)))) as [Hgt|Hsz].
  { eapply wp_drop_part; [done|done|]. intros d fs' Hd Hud. apply Hbad; [done | by left]. }
  destruct (Z.eqb_spec (wrap64 (blen base + blen (take n (Body resp)))) 0) as [|Hnz].
  { eapply wp_drop_part; [done|done|]. intros d fs' Hd Hud. apply Hbad; [done | by left]. }
  apply (LimitReader_within resp (maxBytes dl) (blen base)) in EL as (Hch & Hre & Hrng & Hw);
    [|split; [apply blen_nonneg | lia]|done|done].
  rewrite Hch in *. rewrite Hw.
  eapply (wp_stage dest base resp (maxBytes dl) d0 g);
    [done|done|apply lookup_insert_eq|done|done| |by apply Hbad|].
  - rewrite Hg, blen_app. lia.
  - intros d fs' f' Hd Hc Hl Hmode Hdat. rewrite <- blen_app, <- Hg, <- Hdat. by apply Hok.
Qed.

(** A response the client gave for a request of [url]. *)
Definition answers (url : bytes) (range : option Z) (resp : Response) : Prop :=
  exists w1 w2, Do {| rq_URL := url; rq_Range := range |} w1 = (Ret (Ok resp), w2).

(** What a transfer starts from: nothing, or the part file it asked the
    server to continue. *)
Definition based (d0 : disk) dest base range resp : Prop :=
  (base = [] /\ (StatusCode resp = StatusOK \/
                 (StatusCode resp = StatusPartialContent /\ range = None))) \/
  (StatusCode resp = StatusPartialContent /\ range = Some (blen base) /\
   exists f, d0 !! partOf dest = Some f /\ f_data f = base).

(** A disk that an attempt to download can leave: nothing but the part file
    was touched and it was at most removed, or a transfer is underway or
    complete. *)
Definition attempted dl url dest (d0 d : disk) : Prop :=
  frame [partOf dest; dest] d0 d /\
  ((d !! dest = d0 !! dest /\ (d !! partOf dest = d0 !! partOf dest \/ d !! partOf dest = None)) \/
   exists base range resp, answers url range resp /\ based d0 dest base range resp /\
     (underway dest base resp d0 d \/ complete dest base resp (maxBytes dl) d)).

Definition downloaded dl url dest (d0 d : disk) (n : Z) : Prop :=
  frame [partOf dest; dest] d0 d /\
  exists base range resp f, answers url range resp /\ based d0 dest base range resp /\
    complete dest base resp (maxBytes dl) d /\
    d !! dest = Some f /\ f_mode f = 448 /\ blen (f_data f) = n.

Definition download_post dl url dest (d0 : disk) (r : res error Z) (d : disk) : Prop :=
  match r with Ok n => downloaded dl url dest d0 d n | Err _ => attempted dl url dest d0 d end.

Lemma attempted_refl dl url dest d : attempted dl url dest d d.
Proof. split; [apply frame_refl|]. left. auto. Qed.

Lemma attempted_delete dl url dest d : attempted dl url dest d (delete (partOf dest) d).
Proof.
  split; [apply frame_delete; set_solver|]. left. split.
  - rewrite lookup_delete_ne; [done | apply part_ne].
  - right. apply lookup_delete_eq.
Qed.

Lemma receive_download dl url dest base range resp (d0 : disk) (f : file) w :
  in_int64 (MaxBytes dl) -> blen base <= maxBytes dl ->
  answers url range resp -> based d0 dest base range resp ->
  frame [partOf dest; dest] d0 (files w) -> underway dest base resp d0 (files w) ->
  files w !! partOf dest = Some f -> f_data f = base ->
  wp (receive dl dest (blen base) resp)
    (fun r w' => download_post dl url dest d0 r (files w')) (attempted dl url dest d0) w.
Proof.
  intros Hin Hle Ha Hb Hf Hu Hp Hd. eapply receive_spec; [done|done|done|done|done|done| |].
  - intros d fs e Hfd Hs. assert (attempted dl url dest d0 d); [|done].
    split; [done|]. right. by exists base, range, resp.
  - intros d fs f' Hfd Hc Hl Hm. split; [done|]. by exists base, range, resp, f'.
Qed.

Lemma openPart_download dl url dest have range resp (appending : bool) d0 w :
  in_int64 (MaxBytes dl) -> 0 <= have <= maxBytes dl ->
  range = (if 0 <? have then Some have else None) ->
  answers url range resp ->
  (if appending then StatusCode resp = StatusPartialContent /\ 0 < have
   else StatusCode resp = StatusOK \/ (StatusCode resp = StatusPartialContent /\ have = 0)) ->
  attempted dl url dest d0 (files w) -> files w !! dest = d0 !! dest ->
  (0 < have -> files w = d0 /\ exists f, d0 !! partOf dest = Some f /\ blen (f_data f) = have) ->
  wp (openPart dl dest have appending resp)
    (fun r w' => download_post dl url dest d0 r (files w')) (attempted dl url dest d0) w.
Proof.
  intros Hin Hh Hr Ha Hs Hat Hdst Hpart. unfold openPart. destruct appending.
  - destruct Hs as [Hs Hpos]. destruct (Hpart Hpos) as (Hw & f & Hf & Hl).
    assert (Hb : based d0 dest (f_data f) range resp).
    { right. rewrite Hr. destruct (Z.ltb_spec 0 have); [|lia]. rewrite Hl. eauto. }
    assert (Hu : underway dest (f_data f) resp d0 (files w)).
    { rewrite Hw. split; [done|]. right. exists f, 0%nat. by rewrite take_0, app_nil_r. }
    wp_step. change [] with (take 0 (Body resp)).
    eapply wp_append_chunk; [by rewrite Hw|done|exact Hu| |].
    + intros g fs Hg. rewrite take_0, app_nil_r in Hg. rewrite <- Hl.
      eapply receive_download; cbn [files]; [done|lia|done|done| | |by rewrite lookup_insert_eq|done].
      * rewrite Hw. apply frame_insert. set_solver.
      * eapply underway_write; [done|]. rewrite take_0, app_nil_r. done.
    + intros d fs Hd Hu'. assert (attempted dl url dest d0 d); [|done].
      split; [rewrite <- Hw; eapply frame_weaken; [|done]; set_solver|].
      right. by exists (f_data f), range, resp; auto.
  - assert (Hb : based d0 dest [] range resp).
    { left. split; [done|]. destruct Hs as [?|[? ->]]; [by left|right]. done. }
    assert (Hw : forall g, f_data g = [] -> underway dest [] resp d0 (<[partOf dest := g]> (files w)) /\
      frame [partOf dest; dest] d0 (<[partOf dest := g]> (files w))).
    { intros g Hg. split.
      - split; [rewrite lookup_insert_ne; [done | apply part_ne]|].
        right. exists g, 0%nat. by rewrite lookup_insert_eq, take_0.
      - destruct Hat as [Hat _]. apply (frame_trans _ _ (files w)); [done|].
        apply frame_insert. set_solver. }
    assert (He : f_data (written (files w) (partOf dest) [] 448) = [])
      by (unfold written; by destruct (files w !! partOf dest)).
    assert (Hk : forall g, f_data g = [] -> attempted dl url dest d0 (<[partOf dest := g]> (files w))).
    { intros g Hg. destruct (Hw g Hg). split; [done|]. right. exists [], range, resp. auto. }
    wp_step. apply wp_syscall.
    + intros fs. change 0 with (blen []).
      eapply receive_download; cbn [files fst snd]; [done| |done|done|by apply Hw|by apply Hw
        |apply lookup_insert_eq|done].
      pose proof (maxBytes_range dl Hin). change (blen []) with 0. lia.
    + intros [|k] fs; [done|]. rewrite take_nil. by apply Hk.
    + intros [|k]; [done|]. rewrite take_nil. by apply Hk.
Qed.

Lemma wp_partSize dl dest (Q : Z -> world -> Prop) (C : disk -> Prop) w :
  in_int64 (MaxBytes dl) ->
  (forall have fs, 0 <= have <= maxBytes dl ->
     (0 < have -> exists f, files w !! partOf dest = Some f /\ blen (f_data f) = have) ->
     Q have (with_faults w fs)) ->
  (forall fs, Q 0 (World (delete (partOf dest) (files w)) (clock w) (ticks w) fs)) ->
  C (files w) -> wp (partSize dl (partOf dest)) Q C w.
Proof.
  intros Hin Hhave Hdel HCr. pose proof (maxBytes_range dl Hin) as Hmax.
  assert (H0 : forall fs, Q 0 (with_faults w fs)) by (intros; apply Hhave; lia).
  assert (Hsome : forall have fs, 0 <= have ->
    (0 < have -> exists f, files w !! partOf dest = Some f /\ blen (f_data f) = have) ->
    wp (if maxBytes dl <? have then let* _ := ignore (Remove (partOf dest)) in ret 0 else ret have)
      Q C (with_faults w fs)).
  { intros have fs Hn Hf. destruct (Z.ltb_spec (maxBytes dl) have).
    - do 3 wp_step; [| |done]; do 2 wp_step; auto. apply H0.
    - wp_step. apply Hhave; [lia | done]. }
  unfold partSize. wp_step. wp_step; [| |done].
  - destruct (files w !! partOf dest) as [f|] eqn:E; [|by apply Hsome].
    destruct (f_reg f); apply Hsome; eauto using blen_nonneg; lia.
  - by apply Hsome.
Qed.

Lemma onResponse_download dl url dest have range resp d0 w :
  in_int64 (MaxBytes dl) -> 0 <= have <= maxBytes dl ->
  range = (if 0 <? have then Some have else None) ->
  answers url range resp ->
  attempted dl url dest d0 (files w) -> files w !! dest = d0 !! dest ->
  (0 < have -> files w = d0 /\ exists f, d0 !! partOf dest = Some f /\ blen (f_data f) = have) ->
  attempted dl url dest d0 (delete (partOf dest) (files w)) ->
  wp (onResponse dl dest have resp)
    (fun r w' => download_post dl url dest d0 r (files w')) (attempted dl url dest d0) w.
Proof.
  intros Hin Hh Hr Ha Hat Hd Hp Hdel. unfold onResponse.
  destruct (Z.eqb_spec (StatusCode resp) StatusOK); [eapply openPart_download; eauto; by left|].
  destruct (Z.eqb_spec (StatusCode resp) StatusPartialContent).
  { eapply openPart_download; eauto. destruct (Z.ltb_spec 0 have); [done|right].
    split; [done | lia]. }
  destruct (_ =? _); [|done]. do 3 wp_step; [| |done]; do 2 wp_step; done.
Qed.

Lemma Download_spec dl url dest w :
  in_int64 (MaxBytes dl) ->
  wp (Download dl url dest)
    (fun r w' => download_post dl url dest (files w) r (files w'))
    (attempted dl url dest (files w)) w.
Proof.
  intros Hin. unfold Download. pose proof (maxBytes_range dl Hin) as Hmax.
  assert (Hrefl := attempted_refl dl url dest (files w)).
  assert (Hdel := attempted_delete dl url dest (files w)).
  destruct (refusesURL dl url); [done|]. wp_step. wp_step; [|done|done].
  wp_step. apply wp_partSize; cbn [files with_faults]; [done| | |done].
  - intros have fs' Hh Hpart. destruct (NewRequest url); [done|]. wp_step. apply Do_wp.
    intros [resp|e] c ts E; [|done]. eapply onResponse_download; eauto. by eexists _, _.
  - intros fs'. destruct (NewRequest url); [done|]. wp_step. apply Do_wp.
    intros [resp|e] c ts E; [|done]. eapply onResponse_download; cbn [files]; eauto; try lia.
    + by eexists _, _.
    + rewrite lookup_delete_ne; [done | apply part_ne].
    + by rewrite delete_delete_eq.
Qed.
End download_specs.

(** Nothing outside the staging directory is touched by the clean-up. *)
Lemma CleanStaging_scope stateDir keep (p : path) (w : world) :
  (forall n, p ≠ Join (StagingDir stateDir) n) ->
  wp (CleanStaging stateDir keep) (fun _ w' => files w' !! p = files w !! p)
    (fun d => d !! p = files w !! p) w.
Proof.
  intros Hp.
  assert (Hloop : forall kept names (w : world),
    wp (cleanEntries (StagingDir stateDir) kept names) (fun _ w' => files w' !! p = files w !! p)
      (fun d => d !! p = files w !! p) w).
  { intros kept names. induction names as [|n names IH]; intros w1; cbn [cleanEntries]; [done|].
    destruct (bool_decide (n ∈ kept)); [apply IH|].
    assert (Hdel : delete (Join (StagingDir stateDir) n) (files w1) !! p = files w1 !! p).
    { rewrite lookup_delete_ne; [done|]. intros E. by apply (Hp n). }
    do 3 wp_step; [..|done]; wp_step; (eapply wp_mono; [apply IH| |]); cbn [files with_faults];
      intros; congruence. }
  unfold CleanStaging. wp_step. apply wp_syscall; [|done|done]. intros fs.
  apply (Hloop _ _ (World (files w) (clock w) (ticks w) fs)).
Qed.

Section download_claims.
Context `{HC : Client}.

(** The file name a version is staged under.  Whatever the server sends
    as a version, the name has between one and sixty-four bytes, all of them
    letters, digits or one of [.-_+]: it cannot leave the staging
    directory. *)
Theorem sanitizeVersion_is_a_plain_name v :
  (0 < length (sanitizeVersion v) <= 64)%nat /\
  Forall (fun c => safeChar c = true) (sanitizeVersion v) /\ "/"%char ∉ sanitizeVersion v.
Proof.
  assert (Hall : (0 < length (sanitizeVersion v) <= 64)%nat /\
    Forall (fun c => safeChar c = true) (sanitizeVersion v)).
  { unfold sanitizeVersion. case_bool_decide as Hv; [split; [vm_compute; lia | by repeat constructor]|].
    pose proof (MapRunes_safe (length v) v) as Hs.
    assert (0 < length (MapRunes keepRune "_"%char (length v) v))%nat.
    { destruct v; [done|]. cbn [length MapRunes]. lia. }
    destruct (Nat.ltb_spec 64 (length (MapRunes keepRune "_"%char (length v) v))).
    - rewrite length_take. split; [lia | by apply Forall_take].
    - split; [lia | done]. }
  destruct Hall as [Hl Hs]. split_and!; [lia|lia|done|].
  intros Hin. rewrite Forall_forall in Hs. by apply Hs in Hin.
Qed.

(** A download is all or nothing.  Whatever the server answers, whatever
    fails and wherever the process dies, only the destination and its part
    file can change; a returned size is that of a non-empty file within the
    cap, staged private and executable with no part file left; after an
    error or a crash the destination is what it was or such a complete
    file. *)
Theorem Download_all_or_nothing dl url (dest : path) (w : world) :
  let whole (d : disk) := d !! (dest ++ str ".part") = None /\
    exists f, d !! dest = Some f /\ 0 < blen (f_data f) <= maxBytes dl in
  in_int64 (MaxBytes dl) ->
  wp (Download dl url dest)
    (fun r w' =>
       frame [dest ++ str ".part"; dest] (files w) (files w') /\
       match r with
       | Ok n => whole (files w') /\
                 exists f, files w' !! dest = Some f /\ blen (f_data f) = n /\ f_mode f = 448
       | Err _ => files w' !! dest = files w !! dest \/ whole (files w')
       end)
    (fun d => frame [dest ++ str ".part"; dest] (files w) d /\
              (d !! dest = files w !! dest \/ whole d)) w.
Proof.
  intros whole Hin.
  assert (Hwhole : forall base resp d, complete dest base resp (maxBytes dl) d -> whole d).
  { intros base resp d (Hp & _ & f & Hf & _ & Hl). split; eauto. }
  assert (Hatt : forall d, attempted dl url dest (files w) d ->
    frame [dest ++ str ".part"; dest] (files w) d /\ (d !! dest = files w !! dest \/ whole d)).
  { intros d [Hf Hs]. split; [done|].
    destruct Hs as [[? _]|(b & rg & rs & _ & _ & [[? _]|Hc])]; eauto. }
  eapply wp_mono; [by apply Download_spec| |done].
  intros [n|e] w' Hr; [|by apply Hatt]. destruct Hr as (Hf & b & rg & rs & f & _ & _ & Hc & Hl & Hm & Hn).
  eauto 10.
Qed.

(** An honest server of the artifact [A]: a full answer delivers a prefix of
    it and ends cleanly only with all of it, a partial one delivers a prefix
    of what follows the offset asked for. *)
Definition honest (A : bytes) (range : option Z) (resp : Response) : Prop :=
  let due := if StatusCode resp =? StatusPartialContent
             then drop (Z.to_nat (default 0 range)) A else A in
  Body resp `prefix_of` due /\ (BodyErr resp = None -> Body resp = due).

Lemma honest_extends (A : bytes) (range : option Z) (resp : Response) (d0 : disk) (dest : path)
    (base : bytes) (k : nat) :
  honest A range resp -> based d0 dest base range resp ->
  (forall f, d0 !! (dest ++ str ".part") = Some f -> f_data f `prefix_of` A) ->
  base ++ take k (Body resp) `prefix_of` A /\ (BodyErr resp = None -> base ++ Body resp = A).
Proof.
  intros [Hpre Hall] Hb Hpart.
  assert (Hdue : exists due, A = base ++ due /\ Body resp `prefix_of` due /\
                   (BodyErr resp = None -> Body resp = due)).
  { destruct Hb as [(-> & Hs)|(Hs & -> & f & Hf & <-)].
    - exists A. split; [done|]. destruct Hs as [Hs|[Hs ->]]; rewrite Hs in *; done.
    - destruct (Hpart f Hf) as [due ->]. exists due. split; [done|]. rewrite Hs in *.
      simpl in Hpre, Hall. unfold blen in *. rewrite Nat2Z.id, drop_app_length in *. done. }
  destruct Hdue as (due & -> & [more ->] & Hd). split.
  - apply prefix_app. exists (drop k (Body resp) ++ more). by rewrite app_assoc, take_drop.
  - intros He. f_equal. by apply Hd.
Qed.

(** C32: Resuming is correct.  Against an honest server of [A], if the part
    file (when there is one) is a prefix of [A], a download that returns
    has staged exactly [A]; and whatever goes wrong, the part file left
    behind is again a prefix of [A], so the next attempt can resume. *)
Theorem Download_resumes_the_artifact dl url (A : bytes) (dest : path) (w : world) :
  in_int64 (MaxBytes dl) ->
  (forall range resp, answers url range resp -> honest A range resp) ->
  (forall f, files w !! (dest ++ str ".part") = Some f -> f_data f `prefix_of` A) ->
  wp (Download dl url dest)
    (fun r w' =>
       (forall f, files w' !! (dest ++ str ".part") = Some f -> f_data f `prefix_of` A) /\
       (forall n, r = Ok n -> n = blen A /\ exists f, files w' !! dest = Some f /\ f_data f = A))
    (fun d => forall f, d !! (dest ++ str ".part") = Some f -> f_data f `prefix_of` A) w.
Proof.
  intros Hin Hhon Hpart.
  assert (Hatt : forall d, attempted dl url dest (files w) d ->
    forall f, d !! (dest ++ str ".part") = Some f -> f_data f `prefix_of` A).
  { intros d [_ Hs] f Hf. destruct Hs as [[_ [Hs|Hs]]|(b & rg & rs & Ha & Hb & Hs)];
      [apply Hpart; congruence|congruence|].
    destruct Hs as [[_ [?|(g & k & Hg & Hd)]]|[? _]]; [congruence| |congruence].
    replace f with g by congruence. rewrite Hd. by eapply honest_extends; [apply Hhon| |]. }
  eapply wp_mono; [by apply Download_spec| |done].
  intros [n|e] w' Hr; [|split; [by apply Hatt | done]].
  destruct Hr as (_ & b & rg & rs & f & Ha & Hb & (Hnone & He & g & Hg & Hgd & _) & Hl & _ & Hn).
  replace g with f in * by congruence.
  assert (f_data f = A) as HA.
  { rewrite Hgd. eapply (honest_extends A rg rs (files w) dest b 0); [by apply Hhon|done|done|done]. }
  split; [congruence|]. intros n' [= <-]. split; [congruence | eauto].
Qed.
End download_claims.

(** *** Witnesses: a server of one artifact *)

Definition demo_serve (A : bytes) (r : HTTPRequest) : Response :=
  match rq_Range r with
  | Some k => {| StatusCode := StatusPartialContent; Body := drop (Z.to_nat k) A; BodyErr := None |}
  | None => {| StatusCode := StatusOK; Body := A; BodyErr := None |}
  end.

Program Definition demo_client (A : bytes) : Client := {|
  NewRequest _ := None;
  Do r w := (Ret (Ok (demo_serve A r)), w);
|}.
Next Obligation. intros A r w. exists (Ok (demo_serve A r)), (clock w), (ticks w). by destruct w. Qed.

Definition demo_partial : world :=
  World {[ str "/s/a.part" := File (str "pay") true 448 ]} 0 [] [].

Lemma Download_all_or_nothing_witness :
  let '(r, w') := Download (HC := demo_client (str "payload")) zeroDownloader
                    (str "https://x") (str "/s/a") demo_partial in
  r = Ret (Ok 7) /\ exists f, files w' !! str "/s/a" = Some f /\ blen (f_data f) = 7 /\ f_mode f = 448.
Proof.
  pose proof (Download_all_or_nothing (HC := demo_client (str "payload")) zeroDownloader
    (str "https://x") (str "/s/a") demo_partial ltac:(split; vm_compute; discriminate)) as Hwp.
  unfold wp in Hwp.
  destruct (Download _ _ _ _) as [r w'] eqn:E.
  assert (r = Ret (Ok 7)) as -> by (apply (f_equal fst) in E; vm_compute in E; exact (eq_sym E)).
  split; [reflexivity|]. exact (proj2 (proj2 Hwp)).
Defined.

Lemma Download_resumes_the_artifact_witness :
  let '(r, w') := Download (HC := demo_client (str "payload")) zeroDownloader
                    (str "https://x") (str "/s/a") demo_partial in
  r = Ret (Ok 7) /\ exists f, files w' !! str "/s/a" = Some f /\ f_data f = str "payload".
Proof.
  assert (Hwp := Download_resumes_the_artifact (HC := demo_client (str "payload")) zeroDownloader
    (str "https://x") (str "payload") (str "/s/a") demo_partial
    ltac:(split; vm_compute; discriminate)).
  unfold wp in Hwp.
  destruct (Download _ _ _ _) as [r w'] eqn:E.
  assert (r = Ret (Ok 7)) as -> by (apply (f_equal fst) in E; vm_compute in E; exact (eq_sym E)).
  split; [reflexivity|]. apply Hwp with (n := 7); [| |reflexivity].
  - intros range resp (w1 & w2 & Hdo). injection Hdo as <- <-. destruct range as [k|]; split; done.
  - intros f Hf. vm_compute in Hf. injection Hf as <-. by exists (str "load").
Defined.
