(* ===== verification/Apply.v ===== *)
(** * Apply: the update pipeline (agent/internal/update/update.go)

    Validation, the denylist, the trust anchor, the download, both checks, the
    record and the swap, composed as [Apply] composes them over the models of
    its parts.  The theorems are about the whole pipeline: what can ever come
    to stand at the target path, and what is refused before the network is
    touched. *)
From S2P Require Import Prelude GoLib GoOS Swap Tracker Rollback Verify Download.
From Stdlib Require String.
Import String.StringSyntax.

Inductive Step : Type :=
  | StepValidate | StepKeys | StepDownload | StepChecksum | StepSignature | StepStage | StepSwap.

(** [*Error], or an error returned without a step. *)
Inductive ApplyError : Type :=
  | StepErr (step : Step) (e : error)
  | Plain (e : error).

Definition ErrAlreadyCurrent : error :=
  Sentinel "update: already running the requested version".
Definition ErrVersionDenied : error :=
  Sentinel "update: this version was rolled back on this host".

Record Request := {
  req_Version : bytes;
  req_ArtifactURL : bytes;
  req_SHA256 : bytes;
  req_Signature : bytes;
  req_SignatureURL : bytes;
  req_PublicKeys : list bytes;
  req_Force : bool;
}.

Record Options := {
  opt_StateDir : path;
  opt_TargetPath : path;
  opt_CurrentVersion : bytes;
  opt_Downloader : option Downloader;
}.

Record Result := {
  res_Version : bytes;
  res_Target : path;
  res_Backup : path;
  res_StagedPath : path;
  res_Bytes : Z;
  res_Finalizing : bool;
  res_FinalizerPID : Z;
  res_Status : bytes;
}.

Definition maxSignatureBytes : Z := Z.shiftl 8 10.

(** The checks of a request that need nothing but the request. *)
Definition validate (req : Request) (opts : Options) : option ApplyError :=
  let invalid msg := Some (StepErr StepValidate (Sentinel msg)) in
  if bool_decide (req_Version req = []) then invalid "no version given"%string
  else if bool_decide (req_ArtifactURL req = []) then invalid "no artifact URL given"%string
  else if bool_decide (req_SHA256 req = []) then invalid "no sha256 given"%string
  else if bool_decide (req_Signature req = []) && bool_decide (req_SignatureURL req = [])
  then invalid "no signature given"%string
  else if bool_decide (opt_StateDir opts = []) then invalid "no state dir given"%string
  else if negb (bool_decide (opt_CurrentVersion opts = [])) &&
          bool_decide (req_Version req = opt_CurrentVersion opts)
  then Some (Plain ErrAlreadyCurrent)
  else None.

Definition discard (p : path) : io unit :=
  if bool_decide (p = []) then ret tt
  else
    let* _ := ignore (Remove p) in
    ignore (Remove (p ++ str ".part")).

(** [os.Executable] and [filepath.EvalSymlinks] are the system's. *)
Definition ExecutablePath (executable : res error path) (evalSymlinks : path -> res error path) :
    res error path :=
  match executable with
  | Err e => Err e
  | Ok exe => match evalSymlinks exe with Ok resolved => Ok resolved | Err _ => Ok exe end
  end.

Section apply.
Context `{HP : Platform} {HJ : JSON State} `{HC : Client}.
Context (ed25519_Verify : bytes -> bytes -> bytes -> bool) (sha256_Sum256 : bytes -> bytes).
Context (EmbeddedPublicKey DevBuild : bytes).
Context (executable : res error path) (evalSymlinks : path -> res error path).

Definition fail {A} (step : Step) (e : error) : io (res ApplyError A) :=
  ret (Err (StepErr step e)).

(** Drop the staged artifact and fail. *)
Definition failStaged {A} (staged : path) (step : Step) (e : error) : io (res ApplyError A) :=
  let* _ := discard staged in fail step e.

(** The part of [Apply] after the artifact is verified. *)
Definition install (req : Request) (opts : Options) (target staged : path) (n : Z) :
    io (res ApplyError Result) :=
  let dir := opt_StateDir opts in
  let backup := BackupPath target in
  let result finalizing pid status t b :=
    {| res_Version := req_Version req; res_Target := t; res_Backup := b;
       res_StagedPath := staged; res_Bytes := n; res_Finalizing := finalizing;
       res_FinalizerPID := pid; res_Status := status |} in
  let* begun := BeginUpdate dir (req_Version req) (opt_CurrentVersion opts) target backup in
  match begun with
  | Err e => failStaged staged StepStage e
  | Ok _ =>
      let* swapped := Swap target staged in
      match swapped with
      | Ok res =>
          let* _ := CleanStaging dir [] in
          ret (Ok (result false 0 (str "applied") (sr_Target res) (sr_Backup res)))
      | Err swapErr =>
          let* helper := (if NeedsFinalizer
                          then SpawnFinalizer staged target dir (req_Version req)
                          else ret (Err swapErr)) in
          match helper with
          | Ok pid =>
              let* _ := ignore (BeginFinalize dir pid) in
              ret (Ok (result true pid (str "finalizing") target backup))
          | Err fErr =>
              let* _ := ignore (Clear dir) in
              failStaged staged StepSwap (if NeedsFinalizer then JoinErr swapErr fErr else swapErr)
          end
      end
  end.

(** The part of [Apply] from the download on. *)
Definition fetchVerify (req : Request) (opts : Options) (target : path) (keys : list PublicKey) :
    io (res ApplyError Result) :=
  let dl := default zeroDownloader (opt_Downloader opts) in
  let staged := StagedPath (opt_StateDir opts) (req_Version req) in
  let* r := Download dl (req_ArtifactURL req) staged in
  match r with
  | Err e => fail StepDownload e
  | Ok n =>
      let* r := ReadFile staged in
      match r with
      | Err e => failStaged staged StepStage (Errorf "read staged artifact" e)
      | Ok body =>
          match VerifySHA256 sha256_Sum256 body (req_SHA256 req) with
          | Some e => failStaged staged StepChecksum e
          | None =>
              let* sig := (if bool_decide (req_Signature req = [])
                           then Fetch dl (req_SignatureURL req) maxSignatureBytes
                           else ret (Ok (req_Signature req))) in
              match sig with
              | Err e => failStaged staged StepSignature e
              | Ok sig =>
                  match VerifyAny ed25519_Verify keys body sig with
                  | Some e => failStaged staged StepSignature e
                  | None => install req opts target staged n
                  end
              end
          end
      end
  end.

Definition Apply (req : Request) (opts : Options) : io (res ApplyError Result) :=
  match validate req opts with
  | Some e => ret (Err e)
  | None =>
      let dir := opt_StateDir opts in
      let* denied := (if req_Force req then ret false else IsDenied dir (req_Version req)) in
      if (denied : bool) then fail StepValidate (Errorf "send force to override" ErrVersionDenied)
      else
        let* prior := Load dir in
        if match prior with Ok st => Finalizing st && negb (req_Force req) | Err _ => false end
        then fail StepValidate (Errorf "version" ErrFinalizePending)
        else
          match (if bool_decide (opt_TargetPath opts = [])
                 then ExecutablePath executable evalSymlinks
                 else Ok (opt_TargetPath opts)) with
          | Err e => fail StepValidate (Errorf "resolve running binary" e)
          | Ok target =>
              match TrustedKeys EmbeddedPublicKey DevBuild (req_PublicKeys req) with
              | Err e => fail StepKeys e
              | Ok keys => fetchVerify req opts target keys
              end
          end
  end.
End apply.

(** ** Lemmas *)

Section apply_lemmas.
Context `{HP : Platform} {HJ : JSON State} `{HC : Client}.
Implicit Types (dir staged target : path) (w : world).

Lemma confined_Do ps r : confined ps (Do r).
Proof. intros w. apply Do_wp. intros. apply frame_refl. Qed.

Lemma confined_ReadDir ps dir : confined ps (ReadDir dir).
Proof. intros w. by apply wp_syscall. Qed.

Lemma confined_receive dl dest have resp :
  confined [dest ++ str ".part"; dest] (receive dl dest have resp).
Proof. unfold receive. repeat confined_step. Qed.

Lemma confined_Download dl url dest : confined [dest ++ str ".part"; dest] (Download dl url dest).
Proof.
  unfold Download, partSize, onResponse, openPart.
  repeat (apply confined_receive || apply confined_Do || confined_step).
Qed.

Lemma confined_Fetch dl url n : confined [] (Fetch dl url n).
Proof. unfold Fetch. repeat (apply confined_Do || confined_step). Qed.

Lemma confined_discard staged : confined [staged ++ str ".part"; staged] (discard staged).
Proof. unfold discard. repeat confined_step. Qed.

Lemma confined_failStaged {A} staged step e :
  confined [staged ++ str ".part"; staged] (failStaged (A := A) staged step e).
Proof. unfold failStaged. apply confined_bind; [apply confined_discard|]. intros; apply confined_ret. Qed.

Lemma confined_IsDenied dir v : confined [] (IsDenied dir v).
Proof. unfold IsDenied, DeniedList. repeat (apply confined_Load || confined_step). Qed.

Ltac own_step dir :=
  repeat (apply confined_Load || apply confined_Save || apply confined_writeProbation
    || confined_step
    || (apply confined_RemoveAll; unfold own_files; set_solver)
    || (apply confined_ignore, confined_Remove; unfold own_files; set_solver)).

Lemma confined_BeginUpdate dir v p t b : confined (own_files dir) (BeginUpdate dir v p t b).
Proof. unfold BeginUpdate. own_step dir. Qed.

Lemma confined_BeginFinalize dir pid : confined (own_files dir) (BeginFinalize dir pid).
Proof. unfold BeginFinalize. own_step dir. Qed.

Lemma confined_Clear dir : confined (own_files dir) (Clear dir).
Proof. unfold Clear. own_step dir. Qed.

Lemma confined_SpawnFinalizer s t d v : confined [] (SpawnFinalizer s t d v).
Proof.
  intros w. eapply wp_mono; [apply SpawnFinalizer_frame| |]; simpl; intros; [|by subst].
  rewrite H. apply frame_refl.
Qed.
End apply_lemmas.

(** *** Runs without faults *)

(** An operation that returns, and meets no fault, when there is none. *)
Definition calm {A} (m : io A) : Prop :=
  forall w, faults w = [] -> exists a w', m w = (Ret a, w') /\ faults w' = [].

Section calm.
Context {A B : Type}.

Lemma calm_ret (a : A) : calm (ret a).
Proof. intros w Hw. by exists a, w. Qed.

Lemma calm_bind (m : io A) (k : A -> io B) : calm m -> (forall a, calm (k a)) -> calm (bind m k).
Proof.
  intros Hm Hk w Hw. destruct (Hm w Hw) as (a & w1 & E & Hw1). unfold bind. rewrite E. by apply Hk.
Qed.

Lemma calm_syscall (full : disk -> res error A * disk) part : calm (syscall full part).
Proof.
  intros w Hw. unfold syscall. rewrite Hw. destruct (full (files w)) as [r d]. by eexists _, _.
Qed.

Lemma wp_calm (m : io A) (Q : A -> world -> Prop) (C : disk -> Prop) w :
  calm m -> faults w = [] -> (forall a w', faults w' = [] -> Q a w') -> wp m Q C w.
Proof. intros Hm Hw HQ. destruct (Hm w Hw) as (a & w' & E & Hw'). unfold wp. rewrite E. auto. Qed.
End calm.

Lemma calm_Do `{HC : Client} r : calm (Do r).
Proof.
  intros w Hw. destruct (Do_quiet r w) as (resp & c & ts & E). rewrite E. by eexists _, _.
Qed.

Ltac calm_step :=
  cbn beta iota zeta;
  lazymatch goal with
  | |- calm (bind _ _) => apply calm_bind; [|intros ?]
  | |- calm (try _ _) => unfold try at 1
  | |- calm (try_as _ _ _) => unfold try_as at 1
  | |- calm (if ?b then _ else _) => destruct b
  | |- calm (match ?x with _ => _ end) => destruct x
  | |- calm (ignore _) => unfold ignore
  | |- calm (ret _) => apply calm_ret
  | |- calm (Do _) => apply calm_Do
  | |- calm _ => apply calm_syscall
  end.

Lemma calm_Download `{HC : Client} dl url dest : calm (Download dl url dest).
Proof. unfold Download, partSize, onResponse, openPart, receive. repeat calm_step. Qed.

Lemma calm_Fetch `{HC : Client} dl url n : calm (Fetch dl url n).
Proof. unfold Fetch. repeat calm_step. Qed.

Lemma calm_IsDenied {HJ : JSON State} dir v : calm (IsDenied dir v).
Proof. unfold IsDenied, DeniedList, Load. repeat calm_step. Qed.

Lemma calm_Load {HJ : JSON State} dir : calm (Load dir).
Proof. unfold Load. repeat calm_step. Qed.

(** Without faults a removed file is gone, and stays gone. *)
Lemma Remove_calm p (Q : res error unit -> world -> Prop) C w :
  faults w = [] ->
  (forall r w', faults w' = [] -> files w' = delete p (files w) -> Q r w') ->
  wp (Remove p) Q C w.
Proof.
  intros Hw HQ. unfold wp, Remove, syscall. rewrite Hw.
  destruct (files w !! p) eqn:E; apply HQ; try done. cbn [files]. by rewrite delete_id.
Qed.

Lemma failStaged_calm {A : Type} (p : path) (step : Step) (e : error) (C : disk -> Prop) w :
  p ≠ [] -> faults w = [] ->
  wp (failStaged (A := A) p step e)
    (fun r w' => r = Err (StepErr step e) /\ files w' !! p = None /\
       files w' !! (p ++ str ".part") = None) C w.
Proof.
  intros Hp Hw. unfold failStaged, discard. rewrite bool_decide_eq_false_2 by done.
  do 3 wp_step. apply Remove_calm; [done|]. intros r w1 Hw1 E1. do 2 wp_step.
  apply Remove_calm; [done|]. intros r2 w2 Hw2 E2. wp_step. unfold fail. wp_step.
  split; [done|]. rewrite E2, E1. split.
  - rewrite lookup_delete_ne by (by apply app_suffix_ne). apply lookup_delete_eq.
  - apply lookup_delete_eq.
Qed.

Lemma wp_skip {A} (m : io A) (Q : A -> world -> Prop) w :
  (forall a w', Q a w') -> wp m Q (fun _ => True) w.
Proof. intros HQ. unfold wp. destruct (m w) as [[a|] w']; auto. Qed.

Section apply_claims.
Context `{HP : Platform} {HJ : JSON State} `{HC : Client}.
Context (ed25519_Verify : bytes -> bytes -> bytes -> bool) (sha256_Sum256 : bytes -> bytes).
Context (EmbeddedPublicKey DevBuild : bytes).
Context (executable : res error path) (evalSymlinks : path -> res error path).
Context (req : Request) (opts : Options).
Implicit Types (target p : path) (old : file) (ps : list path) (w : world).

Abbreviation dir := (opt_StateDir opts).
Abbreviation staged := (StagedPath dir (req_Version req)).
Abbreviation run := (Apply ed25519_Verify sha256_Sum256 EmbeddedPublicKey DevBuild
                       executable evalSymlinks req opts).

(** The names a swap uses are not among the agent's own state files and not
    in its staging directory. *)
Definition apart (target : path) : Prop :=
  target ≠ [] /\
  forall p, p ∈ swap_paths target ->
    p ∉ own_files dir /\ forall n, p ≠ Join (StagingDir dir) n.

(** Bytes the pipeline may install: their digest is the one requested, and a
    key of the trusted set signed them. *)
Definition authentic (data : bytes) : Prop :=
  ToLower (TrimSpace (req_SHA256 req)) = HexEncode (sha256_Sum256 data) /\
  exists keys pub sig, TrustedKeys EmbeddedPublicKey DevBuild (req_PublicKeys req) = Ok keys /\
    pub ∈ keys /\ accepts ed25519_Verify pub data sig /\
    (req_Signature req ≠ [] -> sig = req_Signature req).

(** Where the pipeline may leave the target. *)
Definition sound_target (target : path) (old : file) (d : disk) : Prop :=
  survives target old d \/
  exists new, authentic new /\ installed target old new d.

Definition apply_files : list path := [staged ++ str ".part"; staged] ++ own_files dir.

Lemma staged_in_dir : exists n, staged = Join (StagingDir dir) n.
Proof. unfold StagedPath. eauto. Qed.

Lemma staged_part_in_dir : exists n, staged ++ str ".part" = Join (StagingDir dir) n.
Proof. unfold StagedPath. rewrite Join_app. eauto. Qed.

Lemma Join_Join d a b : d ≠ [] -> Join (Join d a) b = Join d (a ++ str "/" ++ b).
Proof.
  unfold Join. destruct d as [|c d]; [done|]. intros _. cbn [app]. by rewrite <- !app_assoc.
Qed.

Lemma staging_not_own n : dir ≠ [] -> Join (StagingDir dir) n ∉ own_files dir.
Proof. intros Hd. unfold StagingDir. rewrite Join_Join by done. path_ne. Qed.

Lemma swap_paths_apart target p : apart target -> p ∈ swap_paths target -> p ∉ apply_files.
Proof.
  intros [_ Ha] Hp. destruct (Ha p Hp) as [Hown Hst].
  destruct staged_in_dir as [n Hn], staged_part_in_dir as [n' Hn'].
  unfold apply_files. rewrite Hn', Hn. intros Hin.
  apply elem_of_app in Hin as [Hin|Hin]; [|done].
  apply elem_of_cons in Hin as [Hin|Hin]; [by apply (Hst n')|].
  apply list_elem_of_singleton in Hin. by apply (Hst n).
Qed.

Lemma sound_frame target old ps (d d' : disk) :
  apart target -> ps ⊆ apply_files -> frame ps d d' ->
  (survives target old d -> survives target old d') /\
  (forall new, installed target old new d -> installed target old new d').
Proof.
  intros Ha Hps Hf.
  assert (Hk : forall p, p ∈ swap_paths target -> d' !! p = d !! p).
  { intros p Hp. apply Hf. intros Hin. eapply swap_paths_apart; eauto. }
  unfold survives, installed. rewrite !Hk by (unfold swap_paths; set_solver). done.
Qed.

(** An operation confined to the pipeline's own files keeps the installed
    binary where it is. *)
Lemma wp_quiet {A} ps target old (m : io A) (Q : A -> world -> Prop) w :
  apart target -> ps ⊆ apply_files -> confined ps m -> survives target old (files w) ->
  (forall a w', frame ps (files w) (files w') -> survives target old (files w') -> Q a w') ->
  wp m Q (sound_target target old) w.
Proof.
  intros Ha Hps Hm Hs HQ. eapply wp_mono; [apply Hm| |].
  - intros a w' Hf. apply HQ; [done|]. by apply (sound_frame target old ps _ _ Ha Hps Hf).
  - intros d Hf. left. by apply (sound_frame target old ps _ _ Ha Hps Hf).
Qed.

Lemma failStaged_keeps {A} target old step e (Q : res ApplyError A -> world -> Prop) w :
  apart target -> survives target old (files w) ->
  (forall w', survives target old (files w') -> Q (Err (StepErr step e)) w') ->
  wp (failStaged staged step e) Q (sound_target target old) w.
Proof.
  intros Ha Hs HQ. unfold failStaged, fail. wp_step.
  eapply (wp_quiet [staged ++ str ".part"; staged]); [done| |apply confined_discard|done|].
  - unfold apply_files. set_solver.
  - intros a w' _ Hs'. by apply HQ.
Qed.

(** What the caller of [Apply] is told. *)
Definition apply_post target old (r : res ApplyError Result) (d : disk) : Prop :=
  match r with
  | Ok res =>
      if res_Finalizing res then survives target old d
      else exists new, authentic new /\ installed target old new d
  | Err _ => survives target old d
  end.

Lemma install_spec target old (new : file) (n : Z) w :
  dir ≠ [] -> apart target ->
  files w !! target = Some old -> files w !! staged = Some new -> authentic (f_data new) ->
  wp (install req opts target staged n)
    (fun r w' => apply_post target old r (files w')) (sound_target target old) w.
Proof.
  intros Hd Ha Ht Hst Hauth. unfold install.
  assert (Hown : own_files dir ⊆ apply_files) by (unfold apply_files; set_solver).
  destruct staged_in_dir as [nm Hnm].
  wp_step. eapply (wp_quiet (own_files dir)); [done|done|apply confined_BeginUpdate|by left|].
  intros [[]|e] w1 Hf1 Hs1; [|by apply (failStaged_keeps target old)].
  assert (Ht1 : files w1 !! target = Some old).
  { rewrite Hf1; [done|]. apply Ha. unfold swap_paths. set_solver. }
  assert (Hst1 : files w1 !! staged = Some new).
  { rewrite Hf1; [done|]. rewrite Hnm. by apply staging_not_own. }
  wp_step. eapply wp_mono; [eapply swap_spec; [by destruct Ha| | |exact Ht1|exact Hst1]| |].
  { rewrite Hnm. unfold StagingDir. rewrite Join_Join by done. unfold Join. by destruct dir. }
  { intros Hin. destruct Ha as [_ Ha]. by apply (Ha staged Hin) in Hnm. }
  2: { intros d [_ Hs]. by left. }
  intros [sr|e] w2 [_ Hr].
  - destruct Hr as [-> Hin]. wp_step. eapply wp_mono.
    { apply wp_and; [apply (CleanStaging_scope dir [] target) |
                     apply (CleanStaging_scope dir [] (BackupPath target))];
        apply Ha; unfold swap_paths; set_solver. }
    + intros [] w3 [E1 E2]. simpl. exists (f_data new). split; [done|].
      unfold installed. by rewrite E1, E2.
    + intros d [E1 E2]. right. exists (f_data new). split; [done|].
      unfold installed. by rewrite E1, E2.
  - wp_step. eapply (wp_quiet []); [done|set_solver| |done|].
    { destruct NeedsFinalizer; [apply confined_SpawnFinalizer | apply confined_ret]. }
    intros [pid|fe] w3 _ Hs3; wp_step.
    + eapply (wp_quiet (own_files dir)); [done|done|apply confined_ignore, confined_BeginFinalize|done|].
      by intros [] w4 _ Hs4.
    + eapply (wp_quiet (own_files dir)); [done|done|apply confined_ignore, confined_Clear|done|].
      intros [] w4 _ Hs4. by apply (failStaged_keeps target old).
Qed.

Lemma fetchVerify_spec target old keys w :
  dir ≠ [] -> apart target ->
  TrustedKeys EmbeddedPublicKey DevBuild (req_PublicKeys req) = Ok keys ->
  files w !! target = Some old ->
  wp (fetchVerify ed25519_Verify sha256_Sum256 req opts target keys)
    (fun r w' => apply_post target old r (files w')) (sound_target target old) w.
Proof.
  intros Hd Ha Hk Ht. unfold fetchVerify.
  assert (Hkeep : forall w', survives target old (files w') ->
    forall step e, wp (failStaged staged step e)
      (fun r w' => apply_post target old r (files w')) (sound_target target old) w').
  { intros w' Hs step e. by apply (failStaged_keeps target old). }
  wp_step. eapply (wp_quiet [staged ++ str ".part"; staged]);
    [done|unfold apply_files; set_solver|apply confined_Download|by left|].
  intros [n|e] w1 Hf1 Hs1; [|done].
  assert (Ht1 : files w1 !! target = Some old).
  { rewrite Hf1; [done|]. intros Hin.
    apply (swap_paths_apart target target Ha); [unfold swap_paths; set_solver|].
    unfold apply_files. set_solver. }
  wp_step. wp_step; [|by apply Hkeep|by left].
  destruct (files w1 !! staged) as [new|] eqn:Hst; [|by apply Hkeep].
  destruct (VerifySHA256 sha256_Sum256 (f_data new) (req_SHA256 req)) as [e|] eqn:Hsha;
    [by apply Hkeep|].
  wp_step. apply (wp_mono _ (fun r w' => files w' = files w1 /\
              (forall sig, r = Ok sig -> req_Signature req ≠ [] -> sig = req_Signature req)) _
              (fun d => d = files w1)).
  { case_bool_decide as Hsig; [|by wp_step; split; [|congruence]].
    eapply wp_mono; [apply confined_Fetch| |].
    - intros r w' Hf. split; [|done]. apply map_eq. intros p. apply Hf. set_solver.
    - intros d Hf. apply map_eq. intros p. apply Hf. set_solver. }
  2: { intros d ->. by left. }
  intros [sig|e] w2 [E2 Hsig]; [|apply Hkeep; by rewrite E2].
  destruct (VerifyAny ed25519_Verify keys (f_data new) sig) as [e|] eqn:Hv;
    [apply Hkeep; by rewrite E2|].
  apply install_spec with new; [done|done|by rewrite E2|by rewrite E2|].
  apply VerifyAny_None in Hv as (pub & Hpub & Hacc). split; [|exists keys, pub, sig; auto].
  revert Hsha. unfold VerifySHA256. case_bool_decide; [done|]. by case_bool_decide.
Qed.

(** C1: Only authentic bytes are ever installed.  For every request, every
    server, every fault and every point the process may die at: the target
    still holds the previous binary (or it is at the backup path, with
    nothing at the target), or it holds bytes whose SHA-256 is the one
    requested and that a trusted key signed, with the previous binary as
    backup.  A refused or failed update never leaves the new binary in
    place, and a reported success always does. *)
Theorem Apply_installs_only_authentic_bytes target old w :
  (if bool_decide (opt_TargetPath opts = []) then ExecutablePath executable evalSymlinks
   else Ok (opt_TargetPath opts)) = Ok target ->
  apart target -> files w !! target = Some old ->
  wp run
    (fun r w' =>
       match r with
       | Ok res => if res_Finalizing res then survives target old (files w')
                   else exists new, authentic new /\ installed target old new (files w')
       | Err _ => survives target old (files w')
       end)
    (fun d => survives target old d \/ exists new, authentic new /\ installed target old new d) w.
Proof.
  intros Htgt Ha Ht. unfold Apply. destruct (validate req opts) as [e|] eqn:Hval; [by left|].
  assert (Hd : dir ≠ []).
  { intros Hd. revert Hval. unfold validate. rewrite (bool_decide_eq_true_2 (dir = [])) by done.
    by repeat case_bool_decide. }
  assert (Hread : forall A (m : io A) (w1 : world) (Q : A -> world -> Prop), confined [] m ->
    files w1 = files w -> (forall a w', files w' = files w -> Q a w') ->
    wp m Q (sound_target target old) w1).
  { intros A m w1 Q Hm E1 HQ. eapply (wp_quiet []); [done|set_solver|done|rewrite E1; by left|].
    intros a w' Hf _. apply HQ. rewrite <- E1. apply map_eq. intros p. apply Hf. set_solver. }
  fold (sound_target target old). wp_step. apply Hread; [|done|].
  { destruct (req_Force req); [apply confined_ret | apply confined_IsDenied]. }
  intros [] w1 E1; [by left; rewrite E1|]. wp_step. apply Hread; [apply confined_Load|done|].
  intros prior w2 E2. destruct (match prior with Ok _ => _ | Err _ => _ end); [by left; rewrite E2|].
  rewrite Htgt. destruct (TrustedKeys _ _ _) as [keys|e] eqn:Hk; [|by left; rewrite E2].
  apply (fetchVerify_spec target old keys); [done|done|done|by rewrite E2].
Qed.

Lemma staged_not_nil : staged ≠ [].
Proof.
  unfold StagedPath, StagingDir, Join. destruct dir; [done|]. cbn [app]. done.
Qed.

Lemma install_steps target st n w :
  wp (install req opts target st n)
    (fun r _ => match r with
                | Err (StepErr s _) => s = StepStage \/ s = StepSwap
                | Err (Plain _) => False
                | Ok _ => True
                end) (fun _ => True) w.
Proof.
  unfold install, failStaged, fail. wp_step. apply wp_skip. intros [u|e] w1.
  2: { wp_step. apply wp_skip. intros. wp_step. by left. }
  wp_step. apply wp_skip. intros [sr|e] w2; wp_step; apply wp_skip; [intros; by wp_step|].
  intros [pid|fe] w3; wp_step; apply wp_skip; intros; wp_step; [done|].
  apply wp_skip. intros. wp_step. by right.
Qed.

(** A rejected artifact does not stay on disk.  In a run without
    faults, an update refused for its checksum or its signature has removed
    the staged artifact and its part file. *)
Theorem Apply_discards_rejected_artifacts w :
  faults w = [] ->
  wp run
    (fun r w' => forall s e, r = Err (StepErr s e) -> s = StepChecksum \/ s = StepSignature ->
       files w' !! staged = None /\ files w' !! (staged ++ str ".part") = None)
    (fun _ => True) w.
Proof.
  intros Hw. unfold Apply. destruct (validate req opts) as [ve|] eqn:Hval.
  { wp_step. intros s e [= ->]. revert Hval. unfold validate. intros Hval [->| ->];
      repeat case_bool_decide; simpl in Hval; congruence. }
  wp_step. apply wp_calm; [destruct (req_Force req); [apply calm_ret | apply calm_IsDenied]|done|].
  intros [] w1 Hw1; [unfold fail; wp_step; intros s e [= <- <-]; naive_solver|].
  wp_step. apply wp_calm; [apply calm_Load|done|]. intros prior w2 Hw2.
  destruct (match prior with Ok _ => _ | Err _ => _ end);
    [unfold fail; wp_step; intros s e [= <- <-]; naive_solver|].
  destruct (if bool_decide _ then _ else _) as [target|te];
    [|unfold fail; wp_step; intros s e [= <- <-]; naive_solver].
  destruct (TrustedKeys _ _ _) as [keys|ke]; [|unfold fail; wp_step; intros s e [= <- <-]; naive_solver].
  assert (Hfail : forall step0 e0 (w' : world), faults w' = [] ->
    wp (failStaged staged step0 e0)
      (fun (r : res ApplyError Result) w' =>
         forall s e, r = Err (StepErr s e) -> s = StepChecksum \/ s = StepSignature ->
         files w' !! staged = None /\ files w' !! (staged ++ str ".part") = None)
      (fun _ => True) w').
  { intros step0 e0 w' Hw'. eapply wp_mono; [apply (failStaged_calm _ _ _ (fun _ => True)); [apply staged_not_nil|done]| |done].
    intros r w3 (_ & ? & ?) s e _ _. done. }
  unfold fetchVerify. wp_step. apply wp_calm; [apply calm_Download|done|].
  intros [n|de] w3 Hw3; [|unfold fail; wp_step; intros s e [= <- <-]; naive_solver].
  wp_step. apply wp_calm; [apply calm_syscall|done|]. intros [body|re] w4 Hw4; [|by apply Hfail].
  destruct (VerifySHA256 _ _ _); [by apply Hfail|].
  wp_step. apply wp_calm; [case_bool_decide; [apply calm_Fetch | apply calm_ret]|done|].
  intros [sig|se] w5 Hw5; [|by apply Hfail].
  destruct (VerifyAny _ _ _ _); [by apply Hfail|].
  eapply wp_mono; [apply install_steps| |done].
  intros r w6 Hr s e -> [->| ->]; destruct Hr; discriminate.
Qed.

Lemma confined_Swap target st : confined (swap_paths target) (Swap target st).
Proof.
  unfold Swap, swap_paths.
  repeat (apply confined_sameFile || confined_step
    || (eapply confined_weaken; [|apply copyFile_confined]; set_solver)
    || (apply confined_ignore, confined_Rename; set_solver)).
Qed.

Lemma own_not_staged p : dir ≠ [] -> p ∈ own_files dir -> forall n, p ≠ Join (StagingDir dir) n.
Proof. intros Hd Hp n ->. by apply (staging_not_own n). Qed.

(** The record a successful update leaves for the rollback paths, up to what
    writing and reading JSON makes of its texts. *)
Definition armed target (d : disk) : Prop :=
  exists st, stateOf dir d = stored st /\
  PendingVersion st = req_Version req /\ PreviousVersion st = opt_CurrentVersion opts /\
  Target st = target /\ Backup st = BackupPath target /\
  Starts st = [] /\ Healthy st = false /\ RolledBack st = false /\ Finalizing st = false /\
  exists f, d !! probationPath dir = Some f /\ f_data f = renderProbation st.

Lemma armed_frame target (d d' : disk) :
  (forall p, p ∈ own_files dir -> d' !! p = d !! p) -> armed target d -> armed target d'.
Proof.
  intros Hf. assert (Hst : stateOf dir d' = stateOf dir d).
  { unfold stateOf. rewrite Hf; [done|]. unfold own_files. set_solver. }
  intros (st & Hs & H). exists st. rewrite Hst, Hf; [done|]. unfold own_files. set_solver.
Qed.

Lemma install_arms target n w :
  dir ≠ [] -> apart target ->
  wp (install req opts target staged n)
    (fun r w' => forall res, r = Ok res -> res_Finalizing res = false -> armed target (files w'))
    (fun _ => True) w.
Proof.
  intros Hd Ha. unfold install, failStaged, fail. wp_step.
  eapply wp_mono; [apply wp_BeginUpdate| |done].
  intros [[]|e] w1 (_ & _ & Hok).
  2: { wp_step. apply wp_skip. intros. by wp_step. }
  destruct (Hok eq_refl) as (Hst & f & Hpf & Hfd).
  assert (Harm : armed target (files w1)).
  { eexists. split; [exact Hst|]. split_and!; try done. eauto. }
  wp_step. eapply wp_mono; [apply confined_Swap| |done]. intros [sr|se] w2 Hf2.
  - assert (Harm2 : armed target (files w2)).
    { eapply armed_frame; [|done]. intros p Hp. apply Hf2. intros Hin.
      by destruct (proj2 Ha p Hin). }
    wp_step. apply (wp_mono _ (fun _ w' => forall p, p ∈ own_files dir -> files w' !! p = files w2 !! p)
      _ (fun _ => True)); [| |done].
    + unfold wp. destruct (CleanStaging dir [] w2) as [[[]|] w3] eqn:E; [|done].
      intros p Hp. pose proof (CleanStaging_scope dir [] p w2 (own_not_staged p Hd Hp)) as Hs.
      unfold wp in Hs. by rewrite E in Hs.
    + intros [] w3 Hf3. wp_step. intros res _ _. by eapply armed_frame.
  - wp_step. apply wp_skip. intros [pid|fe] w3; wp_step; apply wp_skip; intros.
    + wp_step. by intros res [= <-] ?.
    + wp_step. apply wp_skip. intros. by wp_step.
Qed.

(** A reported success is always covered by the rollback.  When [Apply]
    returns a completed swap, whatever failed on the way, the state file
    names this version as pending, the version it replaced, the target and
    the backup, with no starts counted and no verdict, and the probation
    file renders that same record for the guard. *)
Theorem Apply_success_arms_the_rollback target w :
  (if bool_decide (opt_TargetPath opts = []) then ExecutablePath executable evalSymlinks
   else Ok (opt_TargetPath opts)) = Ok target ->
  apart target ->
  wp run
    (fun r w' => forall res, r = Ok res -> res_Finalizing res = false -> armed target (files w'))
    (fun _ => True) w.
Proof.
  intros Htgt Ha. unfold Apply, fail. destruct (validate req opts) as [e|] eqn:Hval; [done|].
  assert (Hd : dir ≠ []).
  { intros Hd. revert Hval. unfold validate. rewrite (bool_decide_eq_true_2 (dir = [])) by done.
    by repeat case_bool_decide. }
  wp_step. apply wp_skip. intros [] w1; [done|]. wp_step. apply wp_skip. intros prior w2.
  destruct (match prior with Ok _ => _ | Err _ => _ end); [done|].
  rewrite Htgt. destruct (TrustedKeys _ _ _) as [keys|e]; [|done].
  unfold fetchVerify, failStaged, fail. wp_step. apply wp_skip. intros [n|e] w3; [|done].
  assert (Hfail : forall s e (w' : world), wp (let* _ := discard staged in ret (Err (StepErr s e)))
    (fun r w' => forall res : Result, r = Ok res -> res_Finalizing res = false -> armed target (files w'))
    (fun _ => True) w').
  { intros s e w'. wp_step. apply wp_skip. intros. by wp_step. }
  wp_step. apply wp_skip. intros [body|e] w4; [|apply Hfail].
  destruct (VerifySHA256 _ _ _); [apply Hfail|]. wp_step. apply wp_skip. intros [sig|e] w5; [|apply Hfail].
  destruct (VerifyAny _ _ _ _); [apply Hfail|]. by apply install_arms.
Qed.

(** What is refused before the network.  Without [force], on a host
    that can read its records, a version on the denylist is refused as such,
    and any version is refused while a finalizer is outstanding; both
    leave the world untouched and send no request, whatever the client. *)
Theorem Apply_refuses_before_downloading (d : disk) (c : Z) (ts : list Z) :
  validate req opts = None -> req_Force req = false ->
  (req_Version req ∈ deniedOf dir d ->
     exists e, run (World d c ts []) = (Ret (Err (StepErr StepValidate e)), World d c ts []) /\
       Is e ErrVersionDenied = true) /\
  (req_Version req ∉ deniedOf dir d -> Finalizing (stateOf dir d) = true ->
     exists e, run (World d c ts []) = (Ret (Err (StepErr StepValidate e)), World d c ts []) /\
       Is e ErrFinalizePending = true).
Proof.
  intros Hval Hforce.
  assert (Hv : req_Version req ≠ []).
  { intros Hv. revert Hval. unfold validate. by rewrite (bool_decide_eq_true_2 (req_Version req = [])). }
  assert (Hden : IsDenied dir (req_Version req) (World d c ts []) =
    (Ret (bool_decide (req_Version req ∈ deniedOf dir d)), World d c ts [])).
  { unfold IsDenied. rewrite bool_decide_eq_false_2 by done. unfold DeniedList.
    rewrite (bind_Ret _ _ _ (mergeDenied (Denied (stateOf dir d)) (deniedRaw dir d)) (World d c ts []));
      [done|].
    rewrite (bind_Ret _ _ _ _ _ (Load_quiet dir d c ts)).
    unfold deniedRaw, bind, ReadFile, syscall. cbn [faults files clock ticks].
    by destruct (d !! deniedPath dir). }
  unfold Apply. rewrite Hval, Hforce, (bind_Ret _ _ _ _ _ Hden). split.
  - intros Hin. rewrite bool_decide_eq_true_2 by done. by eexists.
  - intros Hin Hfin. rewrite bool_decide_eq_false_2 by done.
    rewrite (bind_Ret _ _ _ _ _ (Load_quiet dir d c ts)), Hfin. by eexists.
Qed.
End apply_claims.

(** *** Witnesses: an update of a concrete host *)

Definition demo_ed25519 (key message sig : bytes) : bool :=
  bool_decide (sig = repeat "s"%char 64) && bool_decide (message = str "payload").

Definition demo_req (sha : bytes) : Request := {|
  req_Version := str "2.0"; req_ArtifactURL := str "https://x/a"; req_SHA256 := sha;
  req_Signature := demo_minisig; req_SignatureURL := []; req_PublicKeys := [demo_pub2];
  req_Force := false |}.

Definition demo_opts : Options := {|
  opt_StateDir := str "/var/lib/everwas"; opt_TargetPath := str "/opt/agent";
  opt_CurrentVersion := str "1.0"; opt_Downloader := None |}.

Definition demo_world : world := World demo_disk 1000 [1] [].

(** A digest function for the examples; any function will do. *)
Definition demo_sum (data : bytes) : bytes := rev data.

Definition demo_run (sha : bytes) : io (res ApplyError Result) :=
  Apply (HC := demo_client (str "payload")) demo_ed25519 demo_sum demo_pub []
    (Err ErrIO) (fun p => Ok p) (demo_req sha) demo_opts.

Lemma demo_apart : apart demo_opts (str "/opt/agent").
Proof.
  split; [discriminate|]. intros p Hp. split.
  - revert p Hp. apply Forall_forall.
    apply (bool_decide_eq_true_1
      (Forall (fun p => p ∉ own_files (str "/var/lib/everwas")) (swap_paths (str "/opt/agent")))).
    vm_compute. reflexivity.
  - intros n ->. unfold swap_paths in Hp.
    repeat (apply elem_of_cons in Hp as [Hp|Hp]; [discriminate Hp|]). by apply not_elem_of_nil in Hp.
Qed.

Lemma demo_success :
  (demo_run (HexEncode (demo_sum (str "payload"))) demo_world).1 =
  Ret (Ok {| res_Version := str "2.0"; res_Target := str "/opt/agent";
             res_Backup := str "/opt/agent.old";
             res_StagedPath := str "/var/lib/everwas/staging/everwas-agent-2.0";
             res_Bytes := 7; res_Finalizing := false; res_FinalizerPID := 0;
             res_Status := str "applied" |}).
Proof. vm_compute. reflexivity. Qed.

Lemma Apply_installs_only_authentic_bytes_witness :
  let sha := HexEncode (demo_sum (str "payload")) in
  let d := files (demo_run sha demo_world).2 in
  exists new, authentic demo_ed25519 demo_sum demo_pub [] (demo_req sha) new /\
    installed (str "/opt/agent") (File (str "old") true 493) new d.
Proof.
  intros sha d.
  pose proof (Apply_installs_only_authentic_bytes (HC := demo_client (str "payload"))
    demo_ed25519 demo_sum demo_pub [] (Err ErrIO) (fun p => Ok p) (demo_req sha) demo_opts
    (str "/opt/agent") (File (str "old") true 493) demo_world eq_refl demo_apart eq_refl) as Hwp.
  unfold wp in Hwp. fold (demo_run sha) in Hwp. subst d. pose proof demo_success as Hr.
  fold sha in Hr. destruct (demo_run sha demo_world) as [r w']. simpl in Hr. subst r. exact Hwp.
Defined.

Lemma Apply_success_arms_the_rollback_witness :
  let sha := HexEncode (demo_sum (str "payload")) in
  armed (demo_req sha) demo_opts (str "/opt/agent") (files (demo_run sha demo_world).2).
Proof.
  intros sha.
  pose proof (Apply_success_arms_the_rollback (HC := demo_client (str "payload"))
    demo_ed25519 demo_sum demo_pub [] (Err ErrIO) (fun p => Ok p) (demo_req sha) demo_opts
    (str "/opt/agent") demo_world eq_refl demo_apart) as Hwp.
  unfold wp in Hwp. fold (demo_run sha) in Hwp. pose proof demo_success as Hr.
  fold sha in Hr. destruct (demo_run sha demo_world) as [r w']. simpl in Hr. subst r.
  eapply Hwp; reflexivity.
Defined.

Lemma Apply_discards_rejected_artifacts_witness :
  let '(r, w') := demo_run (str "00") demo_world in
  r = Ret (Err (StepErr StepChecksum (Errorf "digest" ErrChecksumMismatch))) /\
  files w' !! str "/var/lib/everwas/staging/everwas-agent-2.0" = None.
Proof.
  pose proof (Apply_discards_rejected_artifacts (HC := demo_client (str "payload"))
    demo_ed25519 demo_sum demo_pub [] (Err ErrIO) (fun p => Ok p) (demo_req (str "00")) demo_opts
    demo_world eq_refl) as Hwp.
  unfold wp in Hwp. fold (demo_run (str "00")) in Hwp.
  destruct (demo_run (str "00") demo_world) as [r w'] eqn:E.
  assert (r = Ret (Err (StepErr StepChecksum (Errorf "digest" ErrChecksumMismatch)))) as ->
    by (apply (f_equal fst) in E; vm_compute in E; exact (eq_sym E)).
  split; [reflexivity|]. destruct (Hwp _ _ eq_refl (or_introl eq_refl)) as [Hs _]. exact Hs.
Defined.

Definition demo_denied_disk : disk :=
  <[str "/var/lib/everwas/update-denied" := File (str "2.0" ++ [nl]) true 384]> demo_disk.

Lemma Apply_refuses_before_downloading_witness :
  let w := World demo_denied_disk 1000 [] [] in
  exists e, demo_run (str "00") w = (Ret (Err (StepErr StepValidate e)), w) /\
    Is e ErrVersionDenied = true.
Proof.
  apply (proj1 (Apply_refuses_before_downloading (HC := demo_client (str "payload"))
    demo_ed25519 demo_sum demo_pub [] (Err ErrIO) (fun p => Ok p) (demo_req (str "00")) demo_opts
    demo_denied_disk 1000 [] ltac:(vm_compute; reflexivity) ltac:(reflexivity))).
  apply (bool_decide_eq_true_1 _). vm_compute. reflexivity.
Defined.
