(* ===== verification/Wire.v ===== *)
(** * Wire: identifiers, subjects and message ids (agent/internal/wire)

    Every id the server sends becomes a token of a NATS subject or part of a
    file name.  [ValidIdentifier] is the gate; the theorems say what it buys:
    a subject built from accepted ids is literal, matches nothing but itself,
    and a message id is the base-32 numeral of its time and randomness. *)
From S2P Require Import Prelude GoLib GoOS.

(** ** identifier.go *)

Definition MaxIdentifierLen : nat := 128.
Definition ErrInvalidIdentifier : error := Sentinel "wire: invalid identifier".

(** The loop over the runes; a rune outside ASCII is refused like any other
    unlisted one, so the first refused rune starts at the first refused byte. *)
Fixpoint checkRunes (s : bytes) : option error :=
  match s with
  | [] => None
  | r :: s' =>
      if is_lower r || is_upper r || is_digit r then checkRunes s'
      else if bool_decide (r ∈ [".";"_";"-"]%char) then checkRunes s'
      else if bool_decide (r ∈ ["*";">"]%char)
      then Some (Errorf "contains the NATS wildcard" ErrInvalidIdentifier)
      else if bool_decide (r ∈ [" "%char; chr 9; chr 13; chr 10; chr 11; chr 12])
      then Some (Errorf "contains whitespace" ErrInvalidIdentifier)
      else Some (Errorf "contains" ErrInvalidIdentifier)
  end.

(** [None] is a nil error. *)
Definition ValidIdentifier (s : bytes) : option error :=
  if bool_decide (s = []) then Some (Errorf "empty" ErrInvalidIdentifier)
  else if (MaxIdentifierLen <? length s)%nat then Some (Errorf "bytes" ErrInvalidIdentifier)
  else
    match checkRunes s with
    | Some e => Some e
    | None =>
        if existsb (fun tok => bool_decide (tok = [])) (Split "."%char s)
        then Some (Errorf "has an empty dot-separated segment" ErrInvalidIdentifier)
        else None
    end.

Definition CheckIdentifier (field s : bytes) : option error :=
  match ValidIdentifier s with
  | Some e => Some (Errorf "field" e)
  | None => None
  end.

(** ** subjects.go *)

Definition ProtocolVersion : Z := 1.

Definition dot (a b : bytes) : bytes := a ++ str "." ++ b.

Definition Heartbeat (agentID : bytes) : bytes := dot (str "agents") (dot agentID (str "heartbeat")).
Definition Telemetry (agentID : bytes) : bytes := dot (str "agents") (dot agentID (str "telemetry")).
Definition Inventory (agentID kind : bytes) : bytes :=
  dot (str "agents") (dot agentID (dot (str "inventory") kind)).
Definition JobProgress (agentID jobID : bytes) : bytes :=
  dot (str "agents") (dot agentID (dot (str "jobs") (dot jobID (str "progress")))).
Definition JobOutput (agentID jobID : bytes) : bytes :=
  dot (str "agents") (dot agentID (dot (str "jobs") (dot jobID (str "output")))).
Definition JobResult (agentID jobID : bytes) : bytes :=
  dot (str "agents") (dot agentID (dot (str "jobs") (dot jobID (str "result")))).
Definition Events (agentID : bytes) : bytes := dot (str "agents") (dot agentID (str "events")).
Definition ShellOut (agentID sessionID : bytes) : bytes :=
  dot (str "agents") (dot agentID (dot (str "shell") (dot sessionID (str "out")))).
Definition ShellCtl (agentID sessionID : bytes) : bytes :=
  dot (str "agents") (dot agentID (dot (str "shell") (dot sessionID (str "ctl")))).
Definition JobsQueue (agentID : bytes) : bytes := dot (str "jobs") agentID.
Definition Cmd (agentID op : bytes) : bytes := dot (str "cmd") (dot agentID op).
Definition CmdWildcard (agentID : bytes) : bytes := dot (str "cmd") (dot agentID (str ">")).
Definition ShellIn (agentID sessionID : bytes) : bytes :=
  dot (str "agents") (dot agentID (dot (str "shell") (dot sessionID (str "in")))).
Definition ShellResize (agentID sessionID : bytes) : bytes :=
  dot (str "agents") (dot agentID (dot (str "shell") (dot sessionID (str "rsz")))).
Definition InboxPrefix (agentID : bytes) : bytes := str "_INBOX_" ++ agentID.

(** ** msgid.go

    Bytes are integers in [0, 255]. *)

Definition crockford : bytes := str "0123456789ABCDEFGHJKMNPQRSTVWXYZ".
Definition crock (i : Z) : ascii := nth (Z.to_nat i) crockford "0"%char.

Definition byte_of (z : Z) : Z := Z.land z 255.

(** The eight characters of five bytes, the pattern of lines [out[2..9]],
    [out[10..17]] and [out[18..25]]. *)
Definition group (a b c d e : Z) : list Z :=
  [ Z.shiftr (Z.land a 248) 3;
    Z.lor (Z.shiftl (Z.land a 7) 2) (Z.shiftr (Z.land b 192) 6);
    Z.shiftr (Z.land b 62) 1;
    Z.lor (Z.shiftl (Z.land b 1) 4) (Z.shiftr (Z.land c 240) 4);
    Z.lor (Z.shiftl (Z.land c 15) 1) (Z.shiftr (Z.land d 128) 7);
    Z.shiftr (Z.land d 124) 2;
    Z.lor (Z.shiftl (Z.land d 3) 3) (Z.shiftr (Z.land e 224) 5);
    Z.land e 31 ].

(** The six timestamp bytes of [ms := uint64(time.Now().UnixMilli())]. *)
Definition stamp (now_ms : Z) : list Z :=
  let ms := wrapu64 now_ms in
  map (fun k => byte_of (Z.shiftr ms k)) [40; 32; 24; 16; 8; 0].

(** [NewMsgID] from the clock and the ten random bytes. *)
Definition NewMsgID (now_ms : Z) (rnd : list Z) : bytes :=
  match stamp now_ms ++ rnd with
  | [b0; b1; b2; b3; b4; b5; b6; b7; b8; b9; b10; b11; b12; b13; b14; b15] =>
      map crock
        ([Z.shiftr (Z.land b0 224) 5; Z.land b0 31] ++
         group b1 b2 b3 b4 b5 ++ group b6 b7 b8 b9 b10 ++ group b11 b12 b13 b14 b15)
  | _ => []
  end.

(** ** envelope.go *)

Record Envelope := {
  env_V : Z;
  env_Type : bytes;
  env_AgentID : bytes;
  env_MsgID : bytes;
  env_TS : Z;
  env_Data : bytes;
}.

(** [json.Marshal] of the payload is an argument, [None] when it fails. *)
Definition NewEnvelope (msgType agentID msgID : bytes) (data : option bytes) (now : Z) :
    option Envelope :=
  match data with
  | None => None
  | Some raw => Some {| env_V := ProtocolVersion; env_Type := msgType; env_AgentID := agentID;
                        env_MsgID := msgID; env_TS := now; env_Data := raw |}
  end.

(** ** NATS subjects

    A subscription is matched token by token: [*] stands for one token and a
    final [>] for one or more.  A subject with an empty token is not a
    subject. *)
Fixpoint matchTokens (pat subj : list bytes) : bool :=
  match pat, subj with
  | [], [] => true
  | [p], _ :: _ => if bool_decide (p = str ">") then true
                   else match subj with
                        | [t] => bool_decide (p = str "*") || bool_decide (p = t)
                        | _ => false
                        end
  | p :: pat', t :: subj' =>
      (bool_decide (p = str "*") || bool_decide (p = t)) && matchTokens pat' subj'
  | _, _ => false
  end.

Definition subject_match (pat subj : bytes) : bool :=
  forallb (fun t => negb (bool_decide (t = []))) (Split "."%char subj) &&
  matchTokens (Split "."%char pat) (Split "."%char subj).

(** A token that stands for itself. *)
Definition literal (t : bytes) : Prop := t ≠ [] /\ t ≠ str "*" /\ t ≠ str ">".

(** ** Lemmas *)

Fixpoint unsplit (sep : ascii) (ls : list bytes) : bytes :=
  match ls with
  | [] => []
  | [l] => l
  | l :: ls' => l ++ sep :: unsplit sep ls'
  end.

Lemma unsplit_Split sep s : unsplit sep (Split sep s) = s.
Proof.
  induction s as [|c s IH]; simpl; [done|]. pose proof (Split_not_nil sep s) as Hn.
  case_decide as Hc; destruct (Split sep s) as [|l ls]; [done| |done|].
  - subst c. rewrite <- IH. done.
  - rewrite <- IH. by destruct ls.
Qed.

Lemma Split_inj sep a b : Split sep a = Split sep b -> a = b.
Proof. intros H. rewrite <- (unsplit_Split sep a), <- (unsplit_Split sep b). by rewrite H. Qed.

Lemma Split_dot a b : Split "."%char (dot a b) = Split "."%char a ++ Split "."%char b.
Proof. unfold dot. apply Split_app_sep. Qed.

(** The tokens of a subject. *)
Definition tokens (s : bytes) : Prop := Forall (fun t => t ≠ []) (Split "."%char s).

Lemma tokens_spec s : forallb (fun t => negb (bool_decide (t = []))) (Split "."%char s) = true <-> tokens s.
Proof.
  unfold tokens. rewrite forallb_forall, Forall_forall. setoid_rewrite list_elem_of_In.
  setoid_rewrite negb_true_iff. by setoid_rewrite bool_decide_eq_false.
Qed.

Lemma matchTokens_literal pat subj :
  Forall literal pat -> matchTokens pat subj = true <-> subj = pat.
Proof.
  intros Hp. revert subj. induction Hp as [|p pat (Hn & Hstar & Hgt) Hp IH]; intros subj.
  - by destruct subj.
  - destruct subj as [|t subj]; [by destruct pat|].
    assert (Hone : matchTokens (p :: pat) (t :: subj) = bool_decide (p = t) && matchTokens pat subj).
    { destruct pat as [|p' pat]; cbn [matchTokens].
      - rewrite (bool_decide_eq_false_2 (p = str ">")), (bool_decide_eq_false_2 (p = str "*")) by done.
        destruct subj; [by rewrite andb_true_r | by rewrite andb_false_r].
      - by rewrite (bool_decide_eq_false_2 (p = str "*")). }
    rewrite Hone, andb_true_iff, bool_decide_eq_true, IH. split; [by intros [-> ->]|].
    by intros [= -> ->].
Qed.

Lemma subject_match_literal pat subj :
  Forall literal (Split "."%char pat) -> subject_match pat subj = true <-> subj = pat.
Proof.
  intros Hp. unfold subject_match. rewrite andb_true_iff, tokens_spec, matchTokens_literal by done.
  split; [intros [_ H]; by apply Split_inj in H|]. intros ->. split; [|done].
  apply (Forall_impl _ _ _ Hp). by intros t [].
Qed.

Lemma unsplit_app sep a b : a ≠ [] -> b ≠ [] -> unsplit sep (a ++ b) = unsplit sep a ++ sep :: unsplit sep b.
Proof.
  intros Ha Hb. induction a as [|x a IH]; [done|]. destruct a as [|y a].
  - by destruct b.
  - change (unsplit sep ((x :: y :: a) ++ b)) with (x ++ sep :: unsplit sep ((y :: a) ++ b)). rewrite IH by done.
    change (unsplit sep (x :: y :: a)) with (x ++ sep :: unsplit sep (y :: a)). by rewrite <- app_assoc.
Qed.

Lemma Split_elements sep s : Forall (fun t => sep ∉ t) (Split sep s).
Proof.
  induction s as [|c s IH]; simpl; [repeat constructor; apply not_elem_of_nil|].
  pose proof (Split_not_nil sep s). destruct (Split sep s) as [|l ls]; [done|]. apply Forall_cons in IH as [Hl Hls].
  case_decide; repeat constructor; try done; [apply not_elem_of_nil|]. set_solver.
Qed.

Lemma Split_unsplit sep ls : ls ≠ [] -> Forall (fun t => sep ∉ t) ls -> Split sep (unsplit sep ls) = ls.
Proof.
  intros Hne. induction 1 as [|l ls Hl Hls IH]; [done|]. destruct ls as [|m ls]; [by apply Split_no_sep|].
  change (unsplit sep (l :: m :: ls)) with (l ++ sep :: unsplit sep (m :: ls)).
  by rewrite Split_app_sep, Split_no_sep, IH.
Qed.

(** A subscription that ends in [>]. *)
Lemma matchTokens_open pre subj :
  Forall literal pre -> matchTokens (pre ++ [str ">"]) subj = true <-> exists ts, subj = pre ++ ts /\ ts ≠ [].
Proof.
  intros Hp. revert subj. induction Hp as [|p pre (Hn & Hstar & Hgt) Hp IH]; intros subj.
  - cbn [app matchTokens]. destruct subj as [|t subj]; [split; [done|by intros (ts & <- & ?)]|].
    rewrite bool_decide_eq_true_2 by done. split; [by eexists|done].
  - cbn [app]. destruct subj as [|t subj].
    { destruct (pre ++ _); (split; [done|by intros (ts & ? & _)]). }
    assert (Hone : matchTokens (p :: pre ++ [str ">"]) (t :: subj) = bool_decide (p = t) && matchTokens (pre ++ [str ">"]) subj).
    { destruct (pre ++ [str ">"]) eqn:E; [by destruct pre|]. cbn [matchTokens]. by rewrite (bool_decide_eq_false_2 (p = str "*")). }
    rewrite Hone, andb_true_iff, bool_decide_eq_true, IH. split.
    + intros [-> (ts & -> & ?)]. by exists ts.
    + intros (ts & [= -> ->] & ?). split; [done|]. by exists ts.
Qed.

Lemma subject_match_open pre subj :
  Forall literal (Split "."%char pre) ->
  subject_match (dot pre (str ">")) subj = true <-> exists rest, subj = dot pre rest /\ tokens rest.
Proof.
  intros Hp. unfold subject_match. rewrite andb_true_iff, tokens_spec, Split_dot.
  change (Split "."%char (str ">")) with [str ">"]. rewrite matchTokens_open by done. unfold tokens. split.
  - intros [Ht (ts & Hs & Hne)]. exists (unsplit "."%char ts).
    assert (Hts : Split "."%char (unsplit "."%char ts) = ts).
    { apply Split_unsplit; [done|]. pose proof (Split_elements "."%char subj) as He. rewrite Hs in He. by apply Forall_app in He as [_ He]. }
    split; [|rewrite Hts; rewrite Hs in Ht; by apply Forall_app in Ht as [_ Ht]].
    rewrite <- (unsplit_Split "."%char subj), Hs, unsplit_app, unsplit_Split by (done || apply Split_not_nil). done.
  - intros (rest & -> & Hr). rewrite Split_dot. split.
    + apply Forall_app. split; [apply (Forall_impl _ _ _ Hp); by intros t []|done].
    + eexists. split; [done|apply Split_not_nil].
Qed.

(** The bytes an accepted id is made of. *)
Definition idChar (c : ascii) : bool :=
  is_lower c || is_upper c || is_digit c || bool_decide (c ∈ [".";"_";"-"]%char).

Lemma checkRunes_None s : checkRunes s = None <-> Forall (fun c => idChar c = true) s.
Proof.
  induction s as [|c s IH]; cbn [checkRunes]; [by split; [constructor|]|].
  rewrite Forall_cons, <- IH. unfold idChar.
  destruct (is_lower c || is_upper c || is_digit c); cbn [orb]; [tauto|].
  destruct (bool_decide (c ∈ [".";"_";"-"]%char)); [tauto|].
  destruct (bool_decide (c ∈ ["*";">"]%char)); [split; [done|by intros []]|].
  destruct (bool_decide _); split; [done|by intros []|done|by intros []].
Qed.

Lemma ValidIdentifier_None s :
  ValidIdentifier s = None <->
  (0 < length s <= MaxIdentifierLen)%nat /\ Forall (fun c => idChar c = true) s /\
  Forall (fun tok => tok ≠ []) (Split "."%char s).
Proof.
  unfold ValidIdentifier. case_bool_decide as Hs; [subst; simpl; split; [done|lia]|].
  assert (0 < length s)%nat by (destruct s; simpl; [done|lia]).
  destruct (Nat.ltb_spec MaxIdentifierLen (length s)); [split; [done|lia]|].
  rewrite <- checkRunes_None. destruct (checkRunes s); [split; [done|by intros (_ & ? & _)]|].
  destruct (existsb _ _) eqn:E; (split; [|]); try done.
  - intros (_ & _ & Hall). apply existsb_exists in E as (tok & Hin & Ht%bool_decide_eq_true).
    rewrite Forall_forall in Hall. apply list_elem_of_In in Hin. by destruct (Hall tok Hin).
  - intros _. split_and!; [lia|lia|done|]. apply Forall_forall. intros tok Hin Ht.
    assert (existsb (fun tok => bool_decide (tok = [])) (Split "."%char s) = true) as E'; [|congruence].
    apply existsb_exists. exists tok. split; [by apply list_elem_of_In|by apply bool_decide_eq_true].
Qed.

Lemma elem_of_piece sep s tok c : tok ∈ Split sep s -> c ∈ tok -> c ∈ s.
Proof.
  revert tok. induction s as [|x s IH]; intros tok; simpl.
  - intros ->%list_elem_of_singleton. set_solver.
  - pose proof (Split_not_nil sep s) as Hn. case_decide as Hx.
    + intros [->|Hin]%elem_of_cons; [set_solver|]. intros Hc. right. by eapply IH.
    + destruct (Split sep s) as [|l ls]; [done|].
      intros [->|Hin]%elem_of_cons Hc.
      * apply elem_of_cons in Hc as [->|Hc]; [by left|]. right. eapply (IH l); [by left|done].
      * right. eapply (IH tok); [by right | done].
Qed.

Lemma valid_literal s : ValidIdentifier s = None -> Forall literal (Split "."%char s).
Proof.
  intros (_ & Hc & Ht)%ValidIdentifier_None. apply Forall_forall. intros tok Hin.
  rewrite Forall_forall in Hc. rewrite Forall_forall in Ht.
  assert (Hno : forall c, idChar c = false -> tok ≠ [c]).
  { intros c Hf ->. assert (c ∈ s) by (eapply elem_of_piece; [done | by left]).
    rewrite (Hc c) in Hf by done. discriminate. }
  split; [by apply Ht|]. split; by apply Hno.
Qed.

(** Prove that every token of a subject is literal. *)
Ltac literals :=
  repeat rewrite Split_dot;
  repeat (apply Forall_app; split); auto using valid_literal;
  apply (bool_decide_eq_true_1 (Forall _ _)); vm_compute; reflexivity.

#[global] Instance literal_dec t : Decision (literal t).
Proof. unfold literal. apply _. Defined.

(** What the gate accepts.  Exactly the ids of one to 128 bytes drawn from
    letters, digits, dot, dash and underscore with no empty dot-separated
    segment; so an accepted id has no wildcard, no blank and no path separator
    and is neither [.] nor [..]. *)
Theorem ValidIdentifier_accepts_exactly s :
  (ValidIdentifier s = None <->
     (0 < length s <= MaxIdentifierLen)%nat /\ Forall (fun c => idChar c = true) s /\
     Forall (fun tok => tok ≠ []) (Split "."%char s)) /\
  (ValidIdentifier s = None ->
     Forall (fun c => c ∉ ["*";">";"/";" "]%char) s /\ s ≠ str "." /\ s ≠ str "..").
Proof.
  split; [apply ValidIdentifier_None|]. intros Hv.
  pose proof (proj1 (ValidIdentifier_None s) Hv) as (_ & Hc & _). split_and!.
  - eapply Forall_impl; [exact Hc|]. intros c Hi Hin.
    repeat (apply elem_of_cons in Hin as [->|Hin]; [discriminate|]). by apply not_elem_of_nil in Hin.
  - intros ->. discriminate.
  - intros ->. discriminate.
Qed.

(** C38: Subjects built from accepted ids are literal.  A subscription to a
    session's input or resize subject, and a publish to any job or session
    subject, concerns that subject and no other; only the command
    subscription is wide, and it matches exactly the subjects [cmd.<agent>.<op>]
    of this agent, where the operation is one or more tokens, none empty. *)
Theorem subjects_are_literal agentID id :
  ValidIdentifier agentID = None -> ValidIdentifier id = None ->
  (forall pat subj,
     pat ∈ [ShellIn agentID id; ShellResize agentID id; ShellOut agentID id; ShellCtl agentID id;
            JobProgress agentID id; JobOutput agentID id; JobResult agentID id; JobsQueue agentID;
            Heartbeat agentID; Telemetry agentID; Events agentID; Inventory agentID id] ->
     subject_match pat subj = true <-> subj = pat) /\
  (forall subj, subject_match (CmdWildcard agentID) subj = true <-> exists op, subj = Cmd agentID op /\ tokens op).
Proof.
  intros Ha Hi. split.
  - intros pat subj Hin. apply subject_match_literal.
    repeat (apply elem_of_cons in Hin as [->|Hin]; [unfold ShellIn, ShellResize, ShellOut, ShellCtl,
      JobProgress, JobOutput, JobResult, JobsQueue, Heartbeat, Telemetry, Events, Inventory; literals|]).
    by apply not_elem_of_nil in Hin.
  - intros subj. unfold CmdWildcard, Cmd.
    assert (Hdot : forall x, dot (str "cmd") (dot agentID x) = dot (dot (str "cmd") agentID) x)
      by (intros x; unfold dot; by rewrite <- app_assoc).
    rewrite Hdot. setoid_rewrite Hdot. apply subject_match_open. rewrite Split_dot. literals.
Qed.

Lemma subjects_are_literal_witness :
  (subject_match (ShellIn (str "a1") (str "s.1")) (ShellIn (str "a1") (str "s.2")) = true <->
   ShellIn (str "a1") (str "s.2") = ShellIn (str "a1") (str "s.1")) /\
  subject_match (CmdWildcard (str "a1")) (Cmd (str "a1") (str "job.cancel")) = true /\
  subject_match (CmdWildcard (str "a1")) (Cmd (str "a1") []) = false.
Proof.
  destruct (subjects_are_literal (str "a1") (str "s.1") ltac:(vm_compute; reflexivity) ltac:(vm_compute; reflexivity)) as [H1 H2].
  split; [apply H1; by left|]. split.
  - apply H2. exists (str "job.cancel"). split; [reflexivity|]. repeat constructor; discriminate.
  - vm_compute. reflexivity.
Defined.

Lemma ValidIdentifier_accepts_exactly_witness :
  ValidIdentifier (str "job-1.a_B") = None /\ str "job-1.a_B" ≠ str "..".
Proof.
  assert (Hv : ValidIdentifier (str "job-1.a_B") = None) by (vm_compute; reflexivity).
  split; [exact Hv|]. exact (proj2 (proj2 (proj2 (ValidIdentifier_accepts_exactly _) Hv))).
Defined.

(** ** Message ids *)

Definition is_byte (z : Z) : Prop := 0 <= z < 256.

(** The number a big-endian list of base-[b] digits stands for. *)
Definition numeral (b : Z) (ds : list Z) : Z := fold_left (fun n d => b * n + d) ds 0.

Lemma numeral_app b ds es :
  numeral b (ds ++ es) = b ^ Z.of_nat (length es) * numeral b ds + numeral b es.
Proof.
  unfold numeral. rewrite fold_left_app. generalize (fold_left (fun n d => b * n + d) ds 0) as n.
  assert (Hgen : forall n m, fold_left (fun n d => b * n + d) es (n + m) =
    b ^ Z.of_nat (length es) * n + fold_left (fun n d => b * n + d) es m).
  { induction es as [|e es IH]; intros n m; cbn [fold_left length]; [lia|].
    replace (b * (n + m) + e) with (b * n + (b * m + e)) by lia. rewrite IH.
    rewrite Nat2Z.inj_succ, Z.pow_succ_r by lia. lia. }
  intros n. rewrite <- (Z.add_0_r n) at 1. rewrite Hgen. lia.
Qed.

(** A property of every byte, by enumeration. *)
Lemma byte_cases (P : Z -> bool) :
  forallb P (map Z.of_nat (seq 0 256)) = true -> forall z, is_byte z -> P z = true.
Proof.
  intros H z Hz. rewrite forallb_forall in H. apply H. apply in_map_iff.
  exists (Z.to_nat z). unfold is_byte in Hz. split; [lia|]. apply in_seq. lia.
Qed.

Lemma masks a :
  is_byte a ->
  Z.shiftr (Z.land a 248) 3 = a / 8 /\ Z.land a 7 = a mod 8 /\
  Z.shiftr (Z.land a 192) 6 = a / 64 /\ Z.shiftr (Z.land a 62) 1 = (a / 2) mod 32 /\
  Z.land a 1 = a mod 2 /\ Z.shiftr (Z.land a 240) 4 = a / 16 /\ Z.land a 15 = a mod 16 /\
  Z.shiftr (Z.land a 128) 7 = a / 128 /\ Z.shiftr (Z.land a 124) 2 = (a / 4) mod 32 /\
  Z.land a 3 = a mod 4 /\ Z.shiftr (Z.land a 224) 5 = a / 32 /\ Z.land a 31 = a mod 32.
Proof.
  intros Ha.
  assert (Hall : forallb (fun a =>
    (Z.shiftr (Z.land a 248) 3 =? a / 8) && (Z.land a 7 =? a mod 8) &&
    (Z.shiftr (Z.land a 192) 6 =? a / 64) && (Z.shiftr (Z.land a 62) 1 =? (a / 2) mod 32) &&
    (Z.land a 1 =? a mod 2) && (Z.shiftr (Z.land a 240) 4 =? a / 16) && (Z.land a 15 =? a mod 16) &&
    (Z.shiftr (Z.land a 128) 7 =? a / 128) && (Z.shiftr (Z.land a 124) 2 =? (a / 4) mod 32) &&
    (Z.land a 3 =? a mod 4) && (Z.shiftr (Z.land a 224) 5 =? a / 32) && (Z.land a 31 =? a mod 32))
    (map Z.of_nat (seq 0 256)) = true) by (vm_compute; reflexivity).
  pose proof (byte_cases _ Hall a Ha) as H. cbv beta in H.
  repeat (apply andb_true_iff in H as [H ?]). rewrite !Z.eqb_eq in *. split_and!; done.
Qed.

(** [x << k | y] with [y] below the shift is [x * 2^k + y]. *)
Lemma lor_disjoint x y k : 0 <= k -> 0 <= y < 2 ^ k -> Z.lor (Z.shiftl x k) y = x * 2 ^ k + y.
Proof.
  intros Hk Hy. rewrite Z.shiftl_mul_pow2 by lia. rewrite <- Z.lxor_lor.
  - rewrite Z.add_nocarry_lxor; [done|]. apply Z.bits_inj'. intros n Hn.
    rewrite Z.land_spec, Z.bits_0. destruct (Z.ltb_spec n k).
    + rewrite Z.mul_pow2_bits_low by lia. done.
    + rewrite <- (Z.mod_small y (2 ^ k)) by lia. rewrite Z.mod_pow2_bits_high by lia.
      apply andb_false_r.
  - apply Z.bits_inj'. intros n Hn. rewrite Z.land_spec, Z.bits_0. destruct (Z.ltb_spec n k).
    + rewrite Z.mul_pow2_bits_low by lia. done.
    + rewrite <- (Z.mod_small y (2 ^ k)) by lia. rewrite Z.mod_pow2_bits_high by lia.
      apply andb_false_r.
Qed.

Lemma group_arith a b c d e :
  is_byte a -> is_byte b -> is_byte c -> is_byte d -> is_byte e ->
  group a b c d e =
  [a / 8; (a mod 8) * 4 + b / 64; (b / 2) mod 32; (b mod 2) * 16 + c / 16;
   (c mod 16) * 2 + d / 128; (d / 4) mod 32; (d mod 4) * 8 + e / 32; e mod 32].
Proof.
  intros Ha Hb Hc Hd He. unfold group.
  destruct (masks a Ha) as (-> & -> & _).
  destruct (masks b Hb) as (_ & _ & -> & -> & -> & _).
  destruct (masks c Hc) as (_ & _ & _ & _ & _ & -> & -> & _).
  destruct (masks d Hd) as (_ & _ & _ & _ & _ & _ & _ & -> & -> & -> & _).
  destruct (masks e He) as (_ & _ & _ & _ & _ & _ & _ & _ & _ & _ & -> & ->).
  unfold is_byte in *.
  rewrite !lor_disjoint by (split || idtac; (lia || (apply Z.div_pos; lia) || (apply Z.div_lt_upper_bound; lia))).
  reflexivity.
Qed.

Lemma group_spec a b c d e :
  is_byte a -> is_byte b -> is_byte c -> is_byte d -> is_byte e ->
  numeral 32 (group a b c d e) = numeral 256 [a; b; c; d; e] /\
  Forall (fun x => 0 <= x < 32) (group a b c d e).
Proof.
  intros Ha Hb Hc Hd He. rewrite group_arith by done. unfold is_byte, numeral in *.
  cbn [fold_left]. Z.to_euclidean_division_equations. split; [lia|].
  repeat (constructor; [lia|]). constructor.
Qed.

Lemma stamp_spec ms :
  0 <= ms < 2 ^ 48 -> numeral 256 (stamp ms) = ms /\ Forall is_byte (stamp ms).
Proof.
  intros Hms. unfold stamp, wrapu64. rewrite Z.mod_small by lia.
  assert (Hb : forall k, 0 <= k -> byte_of (Z.shiftr ms k) = (ms / 2 ^ k) mod 256).
  { intros k Hk. unfold byte_of. rewrite Z.shiftr_div_pow2 by lia.
    change 255 with (Z.ones 8). by rewrite Z.land_ones by lia. }
  cbn [map]. rewrite !Hb by lia. unfold numeral. cbn [fold_left]. split.
  - change (2 ^ 40) with 1099511627776. change (2 ^ 32) with 4294967296.
    change (2 ^ 24) with 16777216. change (2 ^ 16) with 65536. change (2 ^ 8) with 256.
    change (2 ^ 0) with 1. change (2 ^ 48) with 281474976710656 in Hms.
    Z.to_euclidean_division_equations. lia.
  - unfold is_byte. repeat (constructor; [apply Z.mod_pos_bound; lia|]). constructor.
Qed.

Lemma numeral_range b ds :
  0 < b -> Forall (fun d => 0 <= d < b) ds -> 0 <= numeral b ds < b ^ Z.of_nat (length ds).
Proof.
  intros Hb. induction ds as [|d ds IH] using rev_ind; intros Hds; [unfold numeral; simpl; lia|].
  apply Forall_app in Hds as [Hds Hd]. apply Forall_cons in Hd as [Hd _].
  rewrite numeral_app, length_app. specialize (IH Hds). cbn [length].
  rewrite Nat2Z.inj_add. rewrite Z.pow_add_r by lia. change (Z.of_nat 1) with 1.
  rewrite Z.pow_1_r. unfold numeral at 2 4. cbn [fold_left].
  change (fold_left (fun n d => b * n + d) ds 0) with (numeral b ds) in *. nia.
Qed.

(** Byte-wise order of two texts. *)
Fixpoint text_lt (s t : list Z) : Prop :=
  match s, t with
  | [], _ :: _ => True
  | a :: s', b :: t' => a < b \/ (a = b /\ text_lt s' t')
  | _, [] => False
  end.

Lemma numeral_cons b d ds : numeral b (d :: ds) = b ^ Z.of_nat (length ds) * d + numeral b ds.
Proof. change (d :: ds) with ([d] ++ ds). rewrite numeral_app. replace (numeral b [d]) with d by (unfold numeral; cbn [fold_left]; lia). lia. Qed.

(** On numerals of one length, value order is text order and value determines
    text. *)
Lemma numeral_order b ds es :
  0 < b -> Forall (fun d => 0 <= d < b) ds -> Forall (fun d => 0 <= d < b) es ->
  length ds = length es ->
  (numeral b ds < numeral b es -> text_lt ds es) /\ (numeral b ds = numeral b es -> ds = es).
Proof.
  intros Hb Hds. revert es. induction Hds as [|d ds Hd Hds IH]; intros [|e es] Hes Hl; try done.
  apply Forall_cons in Hes as [He Hes]. injection Hl as Hl. rewrite !numeral_cons, Hl.
  pose proof (numeral_range b ds Hb Hds) as R1. pose proof (numeral_range b es Hb Hes) as R2.
  rewrite Hl in R1. destruct (IH es Hes Hl) as [Hlt Heq].
  assert (Hp : 0 < b ^ Z.of_nat (length es)) by (apply Z.pow_pos_nonneg; lia).
  destruct (Z.lt_trichotomy d e) as [Hde|[->|Hde]].
  - split; [by left|]. nia.
  - split; [intros; right; split; [done|]; apply Hlt; lia|].
    intros. f_equal. apply Heq. lia.
  - split; nia.
Qed.

Lemma crock_mono i j : 0 <= i < 32 -> 0 <= j < 32 -> i < j -> code (crock i) < code (crock j).
Proof.
  intros Hi Hj Hij.
  assert (Hall : forallb (fun i => forallb (fun j => negb (i <? j) || (code (crock i) <? code (crock j)))
    (map Z.of_nat (seq 0 32))) (map Z.of_nat (seq 0 32)) = true) by (vm_compute; reflexivity).
  assert (Hin : forall z, 0 <= z < 32 -> In z (map Z.of_nat (seq 0 32))).
  { intros z Hz. apply in_map_iff. exists (Z.to_nat z). split; [lia|]. apply in_seq. lia. }
  rewrite forallb_forall in Hall. specialize (Hall i (Hin i Hi)).
  rewrite forallb_forall in Hall. specialize (Hall j (Hin j Hj)). cbv beta in Hall.
  destruct (Z.ltb_spec i j); [|lia]. simpl in Hall. lia.
Qed.

Lemma crock_text ds es :
  Forall (fun d => 0 <= d < 32) ds -> Forall (fun d => 0 <= d < 32) es ->
  (text_lt ds es -> text_lt (map code (map crock ds)) (map code (map crock es))) /\
  (map crock ds = map crock es -> ds = es).
Proof.
  intros Hds. revert es. induction Hds as [|d ds Hd Hds IH]; intros [|e es] Hes; try done.
  apply Forall_cons in Hes as [He Hes]. destruct (IH es Hes) as [Hlt Heq].
  cbn [map text_lt]. split.
  - intros [Hde|[-> Ht]]; [left; by apply crock_mono | right; auto].
  - intros [= Hc Hr]. f_equal; [|auto].
    destruct (Z.lt_trichotomy d e) as [Hde|[->|Hde]]; [|done|];
      apply crock_mono in Hde; try done; rewrite Hc in Hde; lia.
Qed.

(** A message id is the 26-digit base-32 numeral of its 128 bits. *)
Lemma NewMsgID_digits ms rnd :
  0 <= ms < 2 ^ 48 -> Forall is_byte rnd -> length rnd = 10%nat ->
  exists ds, NewMsgID ms rnd = map crock ds /\ length ds = 26%nat /\
    Forall (fun d => 0 <= d < 32) ds /\ numeral 32 ds = 2 ^ 80 * ms + numeral 256 rnd.
Proof.
  intros Hms Hr Hl. destruct (stamp_spec ms Hms) as [Hn Hs].
  assert (Hnum : numeral 256 (stamp ms ++ rnd) = 2 ^ 80 * ms + numeral 256 rnd).
  { rewrite numeral_app, Hl, Hn. reflexivity. }
  assert (Hall : Forall is_byte (stamp ms ++ rnd)) by (by apply Forall_app).
  assert (Hlen : length (stamp ms ++ rnd) = 16%nat) by (rewrite length_app, Hl; reflexivity).
  unfold NewMsgID. revert Hnum Hall Hlen. generalize (stamp ms ++ rnd) as bs. intros bs Hnum Hall Hlen.
  do 16 (destruct bs as [|? bs]; [discriminate Hlen|]). destruct bs; [|discriminate Hlen].
  repeat match goal with H : Forall is_byte (_ :: _) |- _ => apply Forall_cons in H as [? H] end.
  eexists. split; [reflexivity|]. split; [reflexivity|].
  match goal with |- context [group ?a ?b ?c ?d ?e ++ group ?f ?g ?h ?i ?j ++ group ?k ?l ?m ?n ?o] =>
    destruct (group_spec a b c d e) as [E1 F1]; [done..|];
    destruct (group_spec f g h i j) as [E2 F2]; [done..|];
    destruct (group_spec k l m n o) as [E3 F3]; [done..|] end.
  match goal with H : is_byte z |- _ => destruct (masks z H) as
    (_ & _ & _ & _ & _ & _ & _ & _ & _ & _ & -> & ->); unfold is_byte in H end.
  split.
  - repeat (apply Forall_app; split); try done.
    repeat (constructor; [Z.to_euclidean_division_equations; lia|]). constructor.
  - rewrite <- Hnum, !numeral_app, E1, E2, E3. unfold numeral. cbn [fold_left length group app].
    change (Z.of_nat 8) with 8. change (Z.of_nat 16) with 16.
    Z.to_euclidean_division_equations. lia.
Qed.

(** Message ids sort by time and never collide on distinct inputs.  Up to
    the year 10889, an id has 26 characters of the Crockford alphabet; an
    earlier millisecond gives a smaller id in byte order, whatever the
    randomness; and two ids are equal only if both the millisecond and the
    eighty random bits are. *)
Theorem NewMsgID_sorts_by_time ms ms' rnd rnd' :
  0 <= ms < 2 ^ 48 -> 0 <= ms' < 2 ^ 48 ->
  Forall is_byte rnd -> Forall is_byte rnd' -> length rnd = 10%nat -> length rnd' = 10%nat ->
  length (NewMsgID ms rnd) = 26%nat /\
  (ms < ms' -> text_lt (map code (NewMsgID ms rnd)) (map code (NewMsgID ms' rnd'))) /\
  (NewMsgID ms rnd = NewMsgID ms' rnd' -> ms = ms' /\ rnd = rnd').
Proof.
  intros Hm Hm' Hr Hr' Hl Hl'.
  destruct (NewMsgID_digits ms rnd Hm Hr Hl) as (ds & -> & Hds & Fds & Nds).
  destruct (NewMsgID_digits ms' rnd' Hm' Hr' Hl') as (es & -> & Hes & Fes & Nes).
  destruct (crock_text ds es Fds Fes) as [Hlt Heq].
  destruct (numeral_order 32 ds es) as [Olt Oeq]; [lia|done|done|congruence|].
  pose proof (numeral_range 256 rnd ltac:(lia) Hr) as R. rewrite Hl in R.
  pose proof (numeral_range 256 rnd' ltac:(lia) Hr') as R'. rewrite Hl' in R'.
  change (256 ^ Z.of_nat 10) with (2 ^ 80) in *. split_and!.
  - by rewrite length_map.
  - intros Hms. apply Hlt, Olt. rewrite Nds, Nes. nia.
  - intros He. apply Heq in He. rewrite He, Nes in Nds.
    assert (ms = ms') by nia. split; [done|]. subst ms'.
    destruct (numeral_order 256 rnd rnd') as [_ Req]; [lia|done|done|congruence|].
    apply Req. lia.
Qed.

Lemma NewMsgID_sorts_by_time_witness :
  text_lt (map code (NewMsgID 1700000000000 (repeat 255 10)))
          (map code (NewMsgID 1700000000001 (repeat 0 10))).
Proof.
  apply (NewMsgID_sorts_by_time 1700000000000 1700000000001 (repeat 255 10) (repeat 0 10));
    first [ reflexivity | lia | (apply Forall_forall; intros x Hx; apply list_elem_of_In, repeat_spec in Hx;
            unfold is_byte; lia) ].
Defined.
