(* ===== verification/Scripts.v ===== *)
(** * Scripts: job output, results and environment (agent/internal/scripts)

    The chunk sink that frames a job's output (chunk.go), the publishing of
    output and terminal results (publish.go), the environment a job inherits
    (env.go), and the pure parts of the runner (runner.go): the mapping from
    an exit to a status, the timeout clamp and the first-reason box.  Whether
    a publish succeeds is the connection's choice: an oracle indexed by the
    attempt. *)
From S2P Require Import Prelude GoLib GoOS Env.
From Stdlib Require Import Sorted.

(** ** Job data (runner.go) *)

Definition StatusSucceeded : bytes := str "succeeded".
Definition StatusFailed : bytes := str "failed".
Definition StatusTimeout : bytes := str "timeout".
Definition StatusCancelled : bytes := str "cancelled".

Definition KindScriptRun : bytes := str "script.run".
Definition KindInventoryRefresh : bytes := str "inventory.refresh".
Definition KindPatchScan : bytes := str "patch.scan".
Definition KindPatchInstall : bytes := str "patch.install".
Definition KindAgentUpdate : bytes := str "agent.update".

Definition PhaseStarted : bytes := str "started".
Definition PhaseRunning : bytes := str "running".
Definition PhaseFinished : bytes := str "finished".

Record JobSpec := {
  JobID : bytes;
  Kind : bytes;
  Shell : bytes;
  js_Body : bytes;
  TimeoutS : Z;
  js_Env : gmap bytes bytes;
  RequestedBy : bytes;
  EntryID : bytes;
}.

(** The part of the result a job of any kind fills in. *)
Record Result := {
  jr_Status : bytes;
  jr_ExitCode : Z;
  jr_DurationMS : Z;
  jr_Truncated : bool;
  jr_EntryID : bytes;
  jr_UpdatedTo : bytes;
  jr_Finalizing : bool;
}.

(** A result literal with only a status and an exit code. *)
Definition plainResult (status : bytes) (exit : Z) : Result :=
  {| jr_Status := status; jr_ExitCode := exit; jr_DurationMS := 0; jr_Truncated := false;
     jr_EntryID := []; jr_UpdatedTo := []; jr_Finalizing := false |}.

Definition with_entry (entryID : bytes) (r : Result) : Result :=
  {| jr_Status := jr_Status r; jr_ExitCode := jr_ExitCode r; jr_DurationMS := jr_DurationMS r;
     jr_Truncated := jr_Truncated r; jr_EntryID := entryID; jr_UpdatedTo := jr_UpdatedTo r;
     jr_Finalizing := jr_Finalizing r |}.

(** ** runner.go, the pure parts *)

Definition DefaultTimeout : Z := 300 * Second.
Definition MaxTimeout : Z := 24 * Hour.

(** [jobTimeout]: the multiplication is on 64 bits. *)
Definition jobTimeout (sec : Z) : Z :=
  if sec <=? 0 then DefaultTimeout
  else
    let d := wrap64 (sec * Second) in
    if d <? MaxTimeout then d else MaxTimeout.

(** How [cmd.Wait] ended: cleanly, with an [*exec.ExitError], or with another
    error. *)
Inductive waitResult : Type := WaitOk | WaitExit (code : Z) | WaitOther.

Definition result (waitErr : waitResult) (reason : bytes) : Result :=
  let exit := match waitErr with WaitOk => 0 | WaitExit c => c | WaitOther => -1 end in
  if negb (bool_decide (reason = [])) then plainResult reason (if exit =? 0 then -1 else exit)
  else if negb (exit =? 0) then plainResult StatusFailed exit
  else plainResult StatusSucceeded 0.

(** [reasonBox.set]: the box after the call and whether it was taken. *)
Definition reason_set (box reason : bytes) : bytes * bool :=
  if bool_decide (box = []) then (reason, true) else (box, false).

(** ** chunk.go *)

Definition MaxChunkBytes : Z := 256 * 1024.
Definition MaxJobOutputBytes : Z := 8 * 1024 * 1024.

Definition StreamStdout : bytes := str "stdout".
Definition StreamStderr : bytes := str "stderr".

Record Chunk := {
  c_JobID : bytes;
  c_Stream : bytes;
  c_Seq : nat;
  c_Data : bytes;
  c_EOF : bool;
  c_EntryID : bytes;
}.

(** The sink; [sent] is the log of the chunks handed to [emit], with whether
    it took them. *)
Record chunkSink := {
  s_jobID : bytes;
  s_entryID : bytes;
  maxChunk : Z;
  capBytes : Z;
  s_seq : nat;
  s_written : Z;
  truncated : bool;
  stopped : bool;
  sent : list (Chunk * bool);
}.

Definition newChunkSink (jobID entryID : bytes) : chunkSink :=
  {| s_jobID := jobID; s_entryID := entryID; maxChunk := MaxChunkBytes;
     capBytes := MaxJobOutputBytes; s_seq := 0; s_written := 0; truncated := false;
     stopped := false; sent := [] |}.

Definition set_written (n : Z) (s : chunkSink) : chunkSink :=
  {| s_jobID := s_jobID s; s_entryID := s_entryID s; maxChunk := maxChunk s;
     capBytes := capBytes s; s_seq := s_seq s; s_written := n; truncated := truncated s;
     stopped := stopped s; sent := sent s |}.

Definition set_truncated (s : chunkSink) : chunkSink :=
  {| s_jobID := s_jobID s; s_entryID := s_entryID s; maxChunk := maxChunk s;
     capBytes := capBytes s; s_seq := s_seq s; s_written := s_written s; truncated := true;
     stopped := stopped s; sent := sent s |}.

Section sink.
(** [emit]'s answer to the chunk with a given sequence number. *)
Context (emit : nat -> option error).

Definition send (s : chunkSink) (stream data : bytes) (eof : bool) : option error * chunkSink :=
  let seq := S (s_seq s) in
  let c := {| c_JobID := s_jobID s; c_Stream := stream; c_Seq := seq; c_Data := data;
              c_EOF := eof; c_EntryID := s_entryID s |} in
  let ok := match emit seq with None => true | Some _ => false end in
  (emit seq,
   {| s_jobID := s_jobID s; s_entryID := s_entryID s; maxChunk := maxChunk s;
      capBytes := capBytes s; s_seq := seq; s_written := s_written s;
      truncated := truncated s; stopped := stopped s; sent := sent s ++ [(c, ok)] |}).

(** The framing loop of [write]; each round takes at least one byte. *)
Fixpoint sendAll (fuel : nat) (s : chunkSink) (stream p : bytes) : option error * chunkSink :=
  match fuel, p with
  | S fuel', _ :: _ =>
      let n := Z.min (blen p) (maxChunk s) in
      let '(err, s1) := send s stream (take (Z.to_nat n) p) false in
      match err with
      | Some e => (Some e, s1)
      | None => sendAll fuel' (set_written (s_written s1 + n) s1) stream (drop (Z.to_nat n) p)
      end
  | _, _ => (None, s)
  end.

Definition write (s : chunkSink) (stream p : bytes) : option error * chunkSink :=
  if bool_decide (p = []) || truncated s || stopped s then (None, s)
  else
    let remaining := capBytes s - s_written s in
    if remaining <? blen p
    then
      let p := take (Z.to_nat remaining) p in
      sendAll (length p) (set_truncated s) stream p
    else sendAll (length p) s stream p.

Definition eof (s : chunkSink) (stream : bytes) : option error * chunkSink :=
  send s stream [] true.

Definition stop (s : chunkSink) : chunkSink :=
  {| s_jobID := s_jobID s; s_entryID := s_entryID s; maxChunk := maxChunk s;
     capBytes := capBytes s; s_seq := s_seq s; s_written := s_written s;
     truncated := truncated s; stopped := true; sent := sent s |}.

Definition isTruncated (s : chunkSink) : bool := truncated s.

(** [PublishStderr]: the chunks it sends for a job. *)
Definition PublishStderr (job : JobSpec) (text : bytes) : list (Chunk * bool) :=
  let sink := newChunkSink (JobID job) (EntryID job) in
  let '(_, sink) := write sink StreamStderr text in
  let '(_, sink) := eof sink StreamStdout in
  let '(_, sink) := eof sink StreamStderr in
  sent sink.

(** The reading loop of [pump] over what the pipe delivers. *)
Definition pump (s : chunkSink) (stream : bytes) (reads : list bytes) : chunkSink :=
  fold_left (fun s buf => if bool_decide (buf = []) then s else (write s stream buf).2) reads s.
End sink.

(** ** publish.go *)

Definition resultAttempts : nat := 3.
Definition resultBackoff : Z := 250 * 1000000.

(** [publishAck]: [ack i] is the outcome of the [i]-th attempt ([None]: the
    server acknowledged).  Returns the final error, the attempts made and the
    time slept between them. *)
Fixpoint publishAck_loop (ack : nat -> option error) (attempt left : nat) (err : option error)
    (slept : Z) : option error * nat * Z :=
  match left with
  | O => (err, attempt, slept)
  | S left' =>
      let slept := if (0 <? attempt)%nat then slept + Z.of_nat attempt * resultBackoff else slept in
      match ack attempt with
      | None => (None, S attempt, slept)
      | Some e => publishAck_loop ack (S attempt) left' (Some e) slept
      end
  end.

Definition publishAck (ack : nat -> option error) : option error * nat * Z :=
  publishAck_loop ack 0 resultAttempts None 0.

(** [PublishResult]: the result that leaves, carrying the entry of its job. *)
Definition PublishResult (job : JobSpec) (res : Result) : bytes * Result :=
  (JobID job, with_entry (EntryID job) res).

(** ** env.go *)

Definition envAllowlist : list bytes :=
  [str "PATH"; str "HOME"; str "USER"; str "LOGNAME"; str "LANG"; str "LC_ALL"; str "TZ";
   str "SHELL"; str "TMPDIR";
   str "TEMP"; str "TMP"; str "SystemRoot"; str "SystemDrive"; str "ComSpec"; str "PATHEXT";
   str "windir"; str "USERPROFILE"; str "USERNAME"; str "PROGRAMFILES"; str "PROGRAMDATA";
   str "APPDATA"; str "LOCALAPPDATA"; str "NUMBER_OF_PROCESSORS"; str "PROCESSOR_ARCHITECTURE"].

Definition envAllowSet (name : bytes) : bool := bool_decide (name ∈ map ToLower envAllowlist).

Definition scrubEnv : list bytes -> gmap bytes bytes -> list bytes := scrubWith envAllowSet.

(** ** The sink *)

(** The calls a job's readers and reporter make on a sink. *)
Inductive sinkOp : Type :=
  | OWrite (stream p : bytes)
  | OEof (stream : bytes)
  | OStop.

Definition sinkStep (emit : nat -> option error) (s : chunkSink) (op : sinkOp) : chunkSink :=
  match op with
  | OWrite stream p => (write emit s stream p).2
  | OEof stream => (eof emit s stream).2
  | OStop => stop s
  end.

Definition sinkRun (emit : nat -> option error) (s : chunkSink) (ops : list sinkOp) : chunkSink :=
  fold_left (sinkStep emit) ops s.

(** The bytes a list of chunks carries, each with its stream. *)
Definition tagged (cs : list (Chunk * bool)) : list (bytes * ascii) :=
  flat_map (fun c => map (fun x => (c_Stream c.1, x)) (c_Data c.1)) cs.

(** The bytes that are written until the sink is stopped. *)
Fixpoint offered (ops : list sinkOp) : list (bytes * ascii) :=
  match ops with
  | [] => []
  | OWrite stream p :: ops' => map (fun x => (stream, x)) p ++ offered ops'
  | OEof _ :: ops' => offered ops'
  | OStop :: _ => []
  end.

(** Bytes of the chunks [emit] took. *)
Definition accepted (cs : list (Chunk * bool)) : Z :=
  fold_right (fun c n => (if c.2 : bool then blen (c_Data c.1) else 0) + n) 0 cs.

(** A well-formed sink: sequence numbers run from 1 without gaps, chunks are
    framed within the limit and carry their job, and the accepted bytes are
    the ones counted, within the cap. *)
Record sink_ok (s : chunkSink) : Prop := {
  ok_seq : map (fun c => c_Seq c.1) (sent s) = seq 1 (s_seq s);
  ok_frames : Forall (fun c => c_JobID c.1 = s_jobID s /\ c_EntryID c.1 = s_entryID s /\
                if c_EOF c.1 then c_Data c.1 = [] else 0 < blen (c_Data c.1) <= maxChunk s) (sent s);
  ok_count : accepted (sent s) = s_written s;
  ok_cap : 0 <= s_written s <= capBytes s;
  ok_max : 0 < maxChunk s;
}.

Lemma accepted_app a b : accepted (a ++ b) = accepted a + accepted b.
Proof. induction a as [|x a IH]; cbn [app accepted fold_right]; [done|]. unfold accepted in *. lia. Qed.

Lemma tagged_app a b : tagged (a ++ b) = tagged a ++ tagged b.
Proof. apply flat_map_app. Qed.

Section sink_lemmas.
Context (emit : nat -> option error).
Implicit Types (s : chunkSink) (stream p : bytes).

Lemma sink_ok_truncated s :
  sink_ok s -> sink_ok (set_truncated s).
Proof. intros []. by constructor. Qed.

Lemma send_data s stream p :
  sink_ok s -> 0 < blen p <= maxChunk s -> s_written s + blen p <= capBytes s ->
  let '(err, s') := send emit s stream p false in
  match err with
  | None => sink_ok (set_written (s_written s' + blen p) s')
  | Some _ => sink_ok s'
  end.
Proof.
  intros [Hq Hf Hc Hcap Hm] Hp Hroom. unfold send.
  assert (Hq' : forall c : Chunk * bool, c_Seq c.1 = S (s_seq s) ->
    map (fun c => c_Seq c.1) (sent s ++ [c]) = seq 1 (S (s_seq s))).
  { intros c Hcs. rewrite map_app, Hq, seq_S. cbn [map]. by rewrite Hcs. }
  destruct (emit (S (s_seq s))) eqn:E.
  - constructor; cbn [sent s_seq s_jobID s_entryID maxChunk s_written capBytes]; [by apply Hq'| | |done|done].
    + apply Forall_app. split; [done|]. apply Forall_singleton. cbn. split_and!; done || lia.
    + rewrite accepted_app, Hc. cbn. lia.
  - constructor; cbn [sent s_seq s_jobID s_entryID maxChunk s_written capBytes set_written];
      [by apply Hq'| | |lia|done].
    + apply Forall_app. split; [done|]. apply Forall_singleton. cbn. split_and!; done || lia.
    + rewrite accepted_app, Hc. cbn. lia.
Qed.

Lemma sendAll_ok fuel s stream p :
  sink_ok s -> s_written s + blen p <= capBytes s -> sink_ok (sendAll emit fuel s stream p).2.
Proof.
  revert s p. induction fuel as [|fuel IH]; intros s p Hs Hroom; [done|].
  destruct p as [|x p]; [done|]. cbn [sendAll]. set (q := x :: p) in *.
  set (n := Z.min (blen q) (maxChunk s)).
  assert (Hq : 0 < blen q) by (unfold q, blen; cbn [length]; lia).
  assert (Hn : 0 < n <= blen q) by (unfold n; destruct Hs; lia).
  assert (Hl : blen (take (Z.to_nat n) q) = n) by (unfold blen in *; rewrite length_take; lia).
  pose proof (send_data s stream (take (Z.to_nat n) q) Hs) as Hsend. rewrite Hl in Hsend.
  specialize (Hsend ltac:(unfold n in *; lia) ltac:(lia)). unfold send in *.
  destruct (emit (S (s_seq s))); [done|]. apply IH; [done|].
  cbn [s_written set_written capBytes]. unfold blen in *. rewrite length_drop. lia.
Qed.

Lemma sinkStep_ok s op : sink_ok s -> sink_ok (sinkStep emit s op).
Proof.
  intros Hs. destruct op as [stream p|stream|]; cbn [sinkStep].
  - unfold write. destruct (_ || _); [done|]. pose proof (ok_cap s Hs).
    destruct (Z.ltb_spec (capBytes s - s_written s) (blen p)).
    + apply sendAll_ok; [by apply sink_ok_truncated|]. cbn [s_written capBytes set_truncated].
      unfold blen in *. rewrite length_take. lia.
    + apply sendAll_ok; [done | lia].
  - destruct Hs as [Hq Hf Hc Hcap Hm]. unfold eof, send.
    constructor; cbn [snd sent s_seq s_jobID s_entryID maxChunk s_written capBytes]; try done.
    + rewrite map_app, Hq, seq_S. done.
    + apply Forall_app. split; [done|]. apply Forall_singleton. cbn. split_and!; done || lia.
    + rewrite accepted_app, Hc. unfold accepted. cbn [fold_right fst snd c_Data]. change (blen []) with 0. destruct (emit _); lia.
  - destruct Hs. by constructor.
Qed.

Lemma sendAll_same fuel stream p s :
  capBytes (sendAll emit fuel s stream p).2 = capBytes s /\
  maxChunk (sendAll emit fuel s stream p).2 = maxChunk s.
Proof.
  revert p s. induction fuel as [|fuel IH]; intros p s; [done|]. destruct p as [|x p]; [done|].
  cbn [sendAll]. unfold send. destruct (emit _); [done|].
  match goal with |- context [sendAll _ _ ?s1 _ ?q] => destruct (IH q s1) as [-> ->] end. done.
Qed.
End sink_lemmas.

Section reliable.
Abbreviation yes := (fun _ : nat => @None error).
Implicit Types (s : chunkSink) (stream p : bytes) (pre : list (bytes * ascii)).

Definition tag stream p : list (bytes * ascii) := map (fun x => (stream, x)) p.

Lemma sendAll_reliable fuel s stream p :
  0 < maxChunk s -> (length p <= fuel)%nat ->
  let s' := (sendAll yes fuel s stream p).2 in
  tagged (sent s') = tagged (sent s) ++ tag stream p /\
  s_written s' = s_written s + blen p /\ truncated s' = truncated s /\ stopped s' = stopped s.
Proof.
  revert s p. induction fuel as [|fuel IH]; intros s p Hm Hl.
  - assert (p = []) as -> by (destruct p; simpl in Hl; [done|lia]). cbn.
    rewrite app_nil_r. change (blen []) with 0. split_and!; done || lia.
  - destruct p as [|x p]; cbn [sendAll].
    { cbn. rewrite app_nil_r. change (blen []) with 0. split_and!; done || lia. }
    set (q := x :: p) in *. set (n := Z.min (blen q) (maxChunk s)).
    assert (Hq : 0 < blen q) by (unfold q, blen; cbn [length]; lia).
    assert (Hlen : length (drop (Z.to_nat n) q) = (length q - Z.to_nat n)%nat) by apply length_drop.
    unfold send. cbn beta iota zeta.
    match goal with |- context [sendAll _ fuel ?s1 _ ?r] =>
      destruct (IH s1 r) as (Ht & Hw & Htr & Hst) end.
    + done.
    + rewrite Hlen. unfold n, blen in *. lia.
    + cbn beta iota zeta. rewrite Ht, Hw, Htr, Hst. cbn [sent s_written truncated stopped set_written].
      split_and!; try done.
      * rewrite tagged_app, <- app_assoc. f_equal. unfold tagged. cbn [flat_map fst c_Stream c_Data].
        rewrite app_nil_r. unfold tag. rewrite <- map_app. by rewrite take_drop.
      * unfold blen in *. rewrite Hlen. unfold n. lia.
Qed.

(** What has been sent is the capped prefix of what was offered so far. *)
Definition prefix_sent s pre : Prop :=
  tagged (sent s) = take (Z.to_nat (capBytes s)) pre /\
  truncated s = (capBytes s <? Z.of_nat (length pre)) /\
  s_written s = Z.min (capBytes s) (Z.of_nat (length pre)) /\
  0 < maxChunk s /\ 0 <= capBytes s.

Lemma write_reliable s stream p pre :
  prefix_sent s pre -> stopped s = false ->
  prefix_sent (write yes s stream p).2 (pre ++ tag stream p) /\
  stopped (write yes s stream p).2 = false.
Proof.
  intros (Ht & Htr & Hw & Hm & Hc) Hst.
  assert (Htag : length (tag stream p) = length p) by apply length_map.
  unfold write. rewrite Hst, orb_false_r. case_bool_decide as Hp.
  { subst p. cbn. rewrite app_nil_r. done. }
  assert (Hlen : Z.of_nat (length (pre ++ tag stream p)) = Z.of_nat (length pre) + blen p).
  { rewrite length_app, Htag. unfold blen. lia. }
  cbn [orb]. rewrite Htr. destruct (Z.ltb_spec (capBytes s) (Z.of_nat (length pre))) as [Hgt|Hle].
  { cbn [snd]. split; [|done]. unfold prefix_sent. rewrite Hlen, Htr. unfold blen.
    split_and!; [|lia..]. rewrite Ht, take_app_le by lia. done. }
  assert (E : capBytes s - s_written s = capBytes s - Z.of_nat (length pre)) by lia. rewrite E.
  rewrite take_ge in Ht by lia.
  destruct (Z.ltb_spec (capBytes s - Z.of_nat (length pre)) (blen p)) as [Hover|Hfits].
  - set (p' := take _ p).
    destruct (sendAll_reliable (length p') (set_truncated s) stream p' Hm) as (A & B & C & D); [done|].
    assert (Hl' : blen p' = capBytes s - Z.of_nat (length pre)).
    { unfold p', blen in *. rewrite length_take. lia. }
    assert (Hsame : capBytes (sendAll yes (length p') (set_truncated s) stream p').2 = capBytes s /\
      maxChunk (sendAll yes (length p') (set_truncated s) stream p').2 = maxChunk s).
    { apply (sendAll_same yes (length p') stream p' (set_truncated s)). }
    destruct Hsame as [Hcs Hms]. rewrite D. split; [|done].
    unfold prefix_sent. rewrite Hcs, Hms, A, B, C, Hlen. cbn [set_truncated sent s_written truncated].
    split_and!; [|lia|lia|done|lia]. rewrite Ht, take_app_ge by lia. f_equal.
    unfold tag, p'. rewrite <- firstn_map. f_equal. lia.
  - destruct (sendAll_reliable (length p) s stream p Hm) as (A & B & C & D); [done|].
    destruct (sendAll_same yes (length p) stream p s) as [Hcs Hms].
    rewrite D. split; [|done]. unfold prefix_sent. rewrite Hcs, Hms, A, B, C, Hlen, Htr.
    split_and!; [|lia|lia|done|lia]. rewrite Ht, take_ge; [done|]. rewrite length_app, Htag.
    unfold blen in *. lia.
Qed.
End reliable.

(** Job output is framed.  Whatever the readers write, in whatever order,
    with stops and end markers in between and whichever publishes fail, the
    chunks of a job are numbered 1, 2, 3, ... without gaps across both
    streams, each carries its job and entry, data chunks are non-empty and at
    most [MaxChunkBytes], end markers are empty, and the bytes accepted never
    exceed [MaxJobOutputBytes]. *)
Theorem sink_frames_output emit jobID entryID ops :
  let s := sinkRun emit (newChunkSink jobID entryID) ops in
  sink_ok s /\ accepted (sent s) <= MaxJobOutputBytes.
Proof.
  assert (Hrun : forall s, sink_ok s -> sink_ok (sinkRun emit s ops) /\
    capBytes (sinkRun emit s ops) = capBytes s).
  { induction ops as [|op ops IH]; intros s Hs; [done|]. cbn [sinkRun fold_left].
    destruct (IH _ (sinkStep_ok emit s op Hs)) as [Ho Hc]. split; [done|]. unfold sinkRun in Hc.
    rewrite Hc. destruct op as [st p|st|]; [|done|done]. cbn [sinkStep]. unfold write.
    destruct (_ || _); [done|]. destruct (_ <? _);
      [apply (sendAll_same emit _ _ _ (set_truncated s)) | apply sendAll_same]. }
  destruct (Hrun (newChunkSink jobID entryID)) as [Hs Hc].
  { constructor; cbn; [done|constructor|done|done|done]. }
  cbv zeta. split; [done|]. rewrite (ok_count _ Hs). destruct (ok_cap _ Hs). by rewrite Hc in *.
Qed.

(** With a connection that takes every chunk, the server receives exactly
    the first [MaxJobOutputBytes] bytes of what was written before the sink
    was stopped, in order and each on its stream, and the result is flagged
    truncated exactly when bytes were dropped by the cap. *)
Theorem sink_delivers_the_capped_output jobID entryID ops :
  let s := sinkRun (fun _ => None) (newChunkSink jobID entryID) ops in
  tagged (sent s) = take (Z.to_nat MaxJobOutputBytes) (offered ops) /\
  isTruncated s = (MaxJobOutputBytes <? Z.of_nat (length (offered ops))).
Proof.
  assert (Hgen : forall s pre, prefix_sent s pre -> stopped s = false ->
    tagged (sent (sinkRun (fun _ => None) s ops)) = take (Z.to_nat (capBytes s)) (pre ++ offered ops) /\
    truncated (sinkRun (fun _ => None) s ops) = (capBytes s <? Z.of_nat (length (pre ++ offered ops)))).
  { induction ops as [|op ops IH]; intros s pre Hp Hst.
    { cbn [sinkRun fold_left offered]. rewrite app_nil_r. by destruct Hp as (? & ? & _). }
    cbn [sinkRun fold_left]. fold (sinkRun (fun _ => None) (sinkStep (fun _ => None) s op) ops).
    destruct op as [st p|st|]; cbn [sinkStep offered].
    - destruct (write_reliable s st p pre Hp Hst) as [Hp' Hst'].
      destruct (IH _ _ Hp' Hst') as [-> ->]. fold (tag st p). rewrite app_assoc.
      assert (Hcap : capBytes (write (fun _ => None) s st p).2 = capBytes s).
      { unfold write. destruct (_ || _); [done|]. destruct (_ <? _);
          [apply (sendAll_same _ _ _ _ (set_truncated s)) | apply sendAll_same]. }
      by rewrite Hcap.
    - destruct Hp as (Ht & Hr). apply (IH (eof (fun _ => None) s st).2 pre); [|done].
      split; [|done]. cbn [eof send snd sent capBytes]. rewrite tagged_app. cbn. by rewrite app_nil_r.
    - rewrite app_nil_r. destruct Hp as (Ht & Htr & _).
      assert (Hstop : forall s, stopped s = true ->
        tagged (sent (sinkRun (fun _ => None) s ops)) = tagged (sent s) /\
        truncated (sinkRun (fun _ => None) s ops) = truncated s).
      { clear. induction ops as [|op ops IH]; intros s Hs; [done|]. cbn [sinkRun fold_left].
        fold (sinkRun (fun _ => None) (sinkStep (fun _ => None) s op) ops).
        destruct op as [st p|st|]; cbn [sinkStep].
        - unfold write. rewrite Hs, orb_true_r. by apply IH.
        - destruct (IH (eof (fun _ => None) s st).2 Hs) as [-> ->]. cbn [eof send snd sent truncated].
          rewrite tagged_app. cbn. by rewrite app_nil_r.
        - by apply (IH (stop s)). }
      destruct (Hstop (stop s) eq_refl) as [-> ->]. done. }
  apply (Hgen (newChunkSink jobID entryID) []); [|done].
  unfold prefix_sent. cbn [newChunkSink sent truncated s_written capBytes maxChunk tagged flat_map length].
  rewrite take_nil. split_and!; done.
Qed.

(** The timeout of a job.  For every positive number of seconds whose
    nanoseconds fit 64 bits it is the given time capped at [MaxTimeout], and
    it is the default for zero and negative ones; but the multiplication is
    not checked, and a large enough number of seconds gives a negative
    timeout, which kills the job as soon as it starts. *)
Theorem jobTimeout_clamps_until_it_overflows sec :
  (sec <= 0 -> jobTimeout sec = DefaultTimeout) /\
  (0 < sec <= 9223372036 -> jobTimeout sec = Z.min (sec * Second) MaxTimeout /\
                            0 < jobTimeout sec <= MaxTimeout) /\
  jobTimeout 10000000000 < 0.
Proof.
  unfold jobTimeout, DefaultTimeout, MaxTimeout, Hour, Minute, Second. split_and!.
  - intros. destruct (Z.leb_spec sec 0); lia.
  - intros. destruct (Z.leb_spec sec 0); [lia|].
    rewrite wrap64_id by (unfold in_int64, min_int64, max_int64; lia).
    destruct (Z.ltb_spec (sec * 1000000000) (24 * (60 * (60 * 1000000000)))); lia.
  - vm_compute. reflexivity.
Qed.

(** A terminal status is truthful.  A job that nothing killed succeeded
    exactly when its process exited zero; a killed one reports the reason it
    was killed for and never exit code zero; and the first reason wins. *)
Theorem result_is_truthful w reason :
  (jr_Status (result w []) = StatusSucceeded <-> w = WaitOk \/ w = WaitExit 0) /\
  (jr_Status (result w []) = StatusSucceeded <-> jr_ExitCode (result w []) = 0) /\
  (reason ≠ [] -> jr_Status (result w reason) = reason /\ jr_ExitCode (result w reason) ≠ 0) /\
  (forall other, reason ≠ [] -> reason_set (reason_set [] reason).1 other = (reason, false)).
Proof.
  unfold result, reason_set. split_and!.
  - cbn. destruct w as [|c|]; cbn; [intuition|destruct (Z.eqb_spec c 0) as [->|Hc]; cbn|].
    + intuition.
    + split; [discriminate|]. intros [?|[= ->]]; done.
    + split; [discriminate|]. intros [?|?]; discriminate.
  - cbn. destruct w as [|c|]; cbn; [done|destruct (Z.eqb_spec c 0) as [->|Hc]; cbn; [done|]|];
      split; try discriminate; congruence.
  - intros Hr. rewrite bool_decide_eq_false_2 by done. cbn [negb plainResult jr_Status jr_ExitCode].
    split; [done|]. destruct (Z.eqb_spec (match w with WaitOk => 0 | WaitExit c => c | WaitOther => -1 end) 0); lia.
  - intros other Hr. cbn. by rewrite bool_decide_eq_false_2.
Qed.

(** ** The environment of a job *)

(** A job's environment holds nothing it was not given.  Every entry is
    either one the server asked for, under a name that cannot forge a second
    variable, or an allowlisted variable of the host that the server did not
    override; every well-named extra is present; and the list is sorted. *)
Theorem scrubEnv_leaks_nothing (host : list bytes) (extra : gmap bytes bytes) :
  let kept (k v : bytes) := k ++ "="%char :: v ∈ scrubEnv host extra in
  (forall e, e ∈ scrubEnv host extra -> exists k v, e = k ++ "="%char :: v /\ k ≠ [] /\ "="%char ∉ k /\
     (extra !! k = Some v \/
      (envAllowSet (ToLower k) = true /\ (extra !! k = None \/ forges k = true) /\
       k ++ "="%char :: v ∈ host))) /\
  (forall k v, extra !! k = Some v -> forges k = false -> kept k v) /\
  Sorted (fun a b => bytes_le a b = true) (scrubEnv host extra).
Proof. exact (scrubWith_spec envAllowSet host extra). Qed.

(** A terminal result is retried and then given up on.  At most
    [resultAttempts] publishes are made; the outcome is nil exactly when one
    of them was acknowledged; and the waits add up to at most
    three backoffs. *)
Theorem publishAck_bounded ack :
  let '(err, attempts, slept) := publishAck ack in
  (attempts <= resultAttempts)%nat /\
  (err = None <-> exists i, (i < resultAttempts)%nat /\ ack i = None) /\
  0 <= slept <= 3 * resultBackoff.
Proof.
  unfold publishAck, resultAttempts. cbn [publishAck_loop].
  assert (Hthree : forall i, (i < 3)%nat -> i = 0%nat \/ i = 1%nat \/ i = 2%nat) by lia.
  destruct (ack 0%nat) eqn:E0.
  2: { split; [lia|]. split; [split; [intros _; exists 0%nat; split; [lia|done]|done]|].
       split; vm_compute; discriminate. }
  destruct (ack 1%nat) eqn:E1.
  2: { split; [lia|]. split; [split; [intros _; exists 1%nat; split; [lia|done]|done]|].
       split; vm_compute; discriminate. }
  destruct (ack 2%nat) eqn:E2.
  2: { split; [lia|]. split; [split; [intros _; exists 2%nat; split; [lia|done]|done]|].
       split; vm_compute; discriminate. }
  split; [lia|]. split; [split; [done|]|split; vm_compute; discriminate].
  intros (i & Hi & Ha). destruct (Hthree i Hi) as [->|[->| ->]]; congruence.
Qed.
