(* ===== verification/Jobs.v ===== *)
(** * Jobs: the in-flight registry (agent/internal/jobs/inflight.go,
    consumer.go, jobs.go, commands.go)

    Deliveries, schedule fires and update commands all run through [reserve]:
    a bounded number of worker slots, one registry entry per running job id,
    and a bounded memory of the job ids that finished.  Each goroutine is a
    [thread] that takes one atomic step at a time (a critical section under
    [m.mu], a channel operation), the steps of different threads interleave
    freely, and [sys] is the registry with all its threads.  The theorems are
    about every reachable state. *)
From S2P Require Import Prelude GoLib GoOS Wire Env Scripts.

Definition maxConcurrentJobs : nat := 3.
Definition recentlyDoneCap : nat := 1024.
Definition defaultShutdownGrace : Z := 30 * Second.
Definition defaultCancelGrace : Z := 5 * Second.

Inductive reserveErr : Type := errJobRunning | errJobDone | errStopping.

(** ** The registry *)

(** Contexts are numbered; a job's context is done when it or the base it
    derives from has been cancelled. *)
Record jobHandle := {
  h_spec : JobSpec;
  h_ctx : nat;
}.

Record registry := {
  inflight : gmap bytes jobHandle;
  done : gset bytes;
  doneOrder : list bytes;
  slots : nat;                 (** tokens in the [slots] channel *)
  base : option nat;           (** [None]: not built yet *)
  cancelled : gset nat;
  next : nat;                  (** the next fresh context *)
  stopping : bool;
  wg : nat;
}.

Definition zeroModule : registry :=
  {| inflight := ∅; done := ∅; doneOrder := []; slots := 0; base := None; cancelled := ∅;
     next := 0; stopping := false; wg := 0 |}.

(** [context.WithCancel(context.Background())] as the new base. *)
Definition freshBase (r : registry) : registry :=
  {| inflight := inflight r; done := done r; doneOrder := doneOrder r; slots := slots r;
     base := Some (next r); cancelled := cancelled r; next := S (next r);
     stopping := stopping r; wg := wg r |}.

Definition ensure (r : registry) : registry :=
  match base r with None => freshBase r | Some _ => r end.

Definition set_stopping (b : bool) (r : registry) : registry :=
  {| inflight := inflight r; done := done r; doneOrder := doneOrder r; slots := slots r;
     base := base r; cancelled := cancelled r; next := next r; stopping := b; wg := wg r |}.

Definition ctx_done (r : registry) (c : nat) : bool := bool_decide (c ∈ cancelled r).

Definition startJobs (r : registry) : registry :=
  let r := ensure r in
  if stopping r || match base r with Some b => ctx_done r b | None => false end
  then set_stopping false (freshBase r)
  else r.

(** [cancel()] of a context. *)
Definition cancel (c : nat) (r : registry) : registry :=
  {| inflight := inflight r; done := done r; doneOrder := doneOrder r; slots := slots r;
     base := base r; cancelled := {[c]} ∪ cancelled r; next := next r;
     stopping := stopping r; wg := wg r |}.

Definition set_slots (n : nat) (r : registry) : registry :=
  {| inflight := inflight r; done := done r; doneOrder := doneOrder r; slots := n;
     base := base r; cancelled := cancelled r; next := next r; stopping := stopping r; wg := wg r |}.

Definition set_wg (n : nat) (r : registry) : registry :=
  {| inflight := inflight r; done := done r; doneOrder := doneOrder r; slots := slots r;
     base := base r; cancelled := cancelled r; next := next r; stopping := stopping r; wg := n |}.

Definition set_inflight (m : gmap bytes jobHandle) (r : registry) : registry :=
  {| inflight := m; done := done r; doneOrder := doneOrder r; slots := slots r;
     base := base r; cancelled := cancelled r; next := next r; stopping := stopping r; wg := wg r |}.

(** The first critical section of [reserve]: the base it will wait on. *)
Definition reserveCheck (jobID : bytes) (r : registry) : registry * (reserveErr + nat) :=
  let r := ensure r in
  if stopping r then (r, inl errStopping)
  else match inflight r !! jobID with
       | Some _ => (r, inl errJobRunning)
       | None => (r, inr (default 0%nat (base r)))
       end.

(** What the second critical section decides. *)
Inductive commit : Type :=
  | GiveBack (e : reserveErr)     (** [<-slots], then return the error *)
  | Return (e : reserveErr)       (** return the error at once *)
  | Run (ctx : nat).

Definition reserveCommit (spec : JobSpec) (r : registry) : registry * commit :=
  if stopping r then (r, GiveBack errStopping)
  else match inflight r !! JobID spec with
       | Some _ => (r, GiveBack errJobRunning)
       | None =>
           if bool_decide (JobID spec ∈ done r) then (r, Return errJobDone)
           else
             let ctx := next r in
             ({| inflight := <[JobID spec := {| h_spec := spec; h_ctx := ctx |}]> (inflight r);
                 done := done r; doneOrder := doneOrder r; slots := slots r; base := base r;
                 cancelled := cancelled r; next := S ctx; stopping := stopping r;
                 wg := S (wg r) |}, Run ctx)
       end.

(** [reserve] as its caller sees it.  [others] is what the other goroutines do
    to the registry while it is at the select; when a slot is free and the base
    is cancelled, [alt] says which case is taken; [None]: neither is ready, and
    it waits on.  The error for a job already done keeps the slot. *)
Definition reserve (others : registry -> registry) (alt : bool) (spec : JobSpec) (r : registry) :
    registry * option (reserveErr + nat) :=
  match reserveCheck (JobID spec) r with
  | (r, inl e) => (r, Some (inl e))
  | (r, inr b) =>
      let r := others r in
      let free := (slots r <? maxConcurrentJobs)%nat in
      if ctx_done r b && (alt || negb free) then (r, Some (inl errStopping))
      else if negb free then (r, None)
      else match reserveCommit spec (set_slots (S (slots r)) r) with
           | (r, GiveBack e) => (set_slots (pred (slots r)) r, Some (inl e))
           | (r, Return e) => (r, Some (inl e))
           | (r, Run ctx) => (r, Some (inr ctx))
           end
  end.

(** The eviction loop of [markDone]. *)
Fixpoint evict (fuel : nat) (d : gset bytes) (order : list bytes) : gset bytes * list bytes :=
  match fuel, order with
  | S fuel', o :: order' =>
      if (recentlyDoneCap <? length order)%nat then evict fuel' (d ∖ {[o]}) order'
      else (d, order)
  | _, _ => (d, order)
  end.

Definition markDone (jobID : bytes) (r : registry) : registry :=
  if bool_decide (jobID ∈ done r) then r
  else
    let order := doneOrder r ++ [jobID] in
    let '(d, order) := evict (length order) ({[jobID]} ∪ done r) order in
    {| inflight := inflight r; done := d; doneOrder := order; slots := slots r; base := base r;
       cancelled := cancelled r; next := next r; stopping := stopping r; wg := wg r |}.

Definition alreadyDone (jobID : bytes) (r : registry) : bool := bool_decide (jobID ∈ done r).

(** [CancelJob]; [scripts] says whether the script runner found the job. *)
Definition CancelJob (scripts : bytes -> bool) (jobID : bytes) (r : registry) : registry * bool :=
  let h := inflight r !! jobID in
  let r := match h with Some h => cancel (h_ctx h) r | None => r end in
  (r, scripts jobID || match h with Some _ => true | None => false end).

Definition RunningJobs (r : registry) : list bytes := sortStrings (map fst (map_to_list (inflight r))).

(** [graces] *)
Definition graces (shutdownGrace cancelGrace : Z) : Z * Z :=
  (if shutdownGrace <=? 0 then defaultShutdownGrace else shutdownGrace,
   if cancelGrace <=? 0 then defaultCancelGrace else cancelGrace).

(** ** Threads *)

Inductive origin : Type := FromQueue | FromSchedule | FromCommand.

Inductive tstate : Type :=
  | TInit                        (** before [reserve] *)
  | TWait (b : nat)              (** at the select *)
  | TSlot (b : nat)              (** holds a token, before the second section *)
  | TBack (e : reserveErr)       (** about to give the token back *)
  | TRun (ctx : nat)             (** running the job *)
  | TMark (ctx : nat)            (** finished, about to mark it done *)
  | TRelease (ctx : nat)         (** about to leave the registry *)
  | TFree                        (** about to give the token back *)
  | TWg                          (** about to leave the wait group *)
  | TRefused (e : reserveErr)
  | TEnd.

Record thread := {
  t_origin : origin;
  t_spec : JobSpec;
  t_state : tstate;
}.

Definition at_state (t : thread) (s : tstate) : thread :=
  {| t_origin := t_origin t; t_spec := t_spec t; t_state := s |}.

(** One step of one thread; [None] when it cannot move.  At the select, and
    when both cases are ready, [alt] chooses the cancelled base. *)
Definition tstep (alt : bool) (t : thread) (r : registry) : option (registry * tstate) :=
  let id := JobID (t_spec t) in
  match t_state t with
  | TInit =>
      let '(r, res) := reserveCheck id r in
      Some (r, match res with inl e => TRefused e | inr b => TWait b end)
  | TWait b =>
      if alt then (if ctx_done r b then Some (r, TRefused errStopping) else None)
      else if (slots r <? maxConcurrentJobs)%nat then Some (set_slots (S (slots r)) r, TSlot b)
      else None
  | TSlot b =>
      let '(r, c) := reserveCommit (t_spec t) r in
      Some (r, match c with GiveBack e => TBack e | Return e => TRefused e | Run ctx => TRun ctx end)
  | TBack e => Some (set_slots (pred (slots r)) r, TRefused e)
  | TRun ctx => Some (r, match t_origin t with FromQueue => TMark ctx | _ => TRelease ctx end)
  | TMark ctx => Some (markDone id r, TRelease ctx)
  | TRelease ctx => Some (set_inflight (delete id (inflight r)) (cancel ctx r), TFree)
  | TFree => Some (set_slots (pred (slots r)) r, TWg)
  | TWg => Some (set_wg (pred (wg r)) r, TEnd)
  | TRefused _ | TEnd => None
  end.

(** ** The system *)

Inductive action : Type :=
  | ASpawn (tid : nat) (o : origin) (spec : JobSpec)   (** a delivery, a fire, a command *)
  | AThread (tid : nat) (alt : bool)
  | AStart                                             (** [startJobs] *)
  | AStopping                                          (** [drainJobs]: no more work *)
  | AStopBase                                          (** [drainJobs]: cancel what runs *)
  | ACancel (jobID : bytes).

(** [started] and [finished] are the history: the jobs that began to run, and
    the queue jobs that were marked done. *)
Record sys := {
  reg : registry;
  threads : gmap nat thread;
  started : list (origin * bytes);
  finished : list bytes;
}.

Definition init : sys := {| reg := zeroModule; threads := ∅; started := []; finished := [] |}.

Definition set_reg (s : sys) (r : registry) : sys :=
  {| reg := r; threads := threads s; started := started s; finished := finished s |}.

(** The history entries of a thread's step from [a] to [b]. *)
Definition begins (t : thread) (b : tstate) : list (origin * bytes) :=
  match t_state t, b with TSlot _, TRun _ => [(t_origin t, JobID (t_spec t))] | _, _ => [] end.
Definition marks (t : thread) : list bytes :=
  match t_state t with TMark _ => [JobID (t_spec t)] | _ => [] end.

Definition sysStep (a : action) (s : sys) : option sys :=
  match a with
  | ASpawn tid o spec =>
      match threads s !! tid with
      | Some _ => None
      | None => Some {| reg := reg s;
                        threads := <[tid := {| t_origin := o; t_spec := spec; t_state := TInit |}]> (threads s);
                        started := started s; finished := finished s |}
      end
  | AThread tid alt =>
      match threads s !! tid with
      | None => None
      | Some t =>
          match tstep alt t (reg s) with
          | None => None
          | Some (r, st) =>
              Some {| reg := r; threads := <[tid := at_state t st]> (threads s);
                      started := started s ++ begins t st; finished := finished s ++ marks t |}
          end
      end
  | AStart => Some (set_reg s (startJobs (reg s)))
  | AStopping => Some (set_reg s (set_stopping true (reg s)))
  | AStopBase => Some (set_reg s (match base (reg s) with Some b => cancel b (reg s) | None => reg s end))
  | ACancel id => Some (set_reg s (CancelJob (fun _ => false) id (reg s)).1)
  end.

Definition step (s s' : sys) : Prop := exists a, sysStep a s = Some s'.

Inductive reachable : sys -> Prop :=
  | reach_init : reachable init
  | reach_step s s' : reachable s -> step s s' -> reachable s'.

Fixpoint exec (actions : list action) (s : sys) : option sys :=
  match actions with
  | [] => Some s
  | a :: actions' => match sysStep a s with Some s' => exec actions' s' | None => None end
  end.

Lemma exec_reachable actions s s' : reachable s -> exec actions s = Some s' -> reachable s'.
Proof.
  revert s. induction actions as [|a actions IH]; intros s Hr; cbn [exec]; [by intros [= <-]|].
  destruct (sysStep a s) as [s1|] eqn:E; [|done]. apply IH. eapply reach_step; [done|]. by exists a.
Qed.

(** ** Counting threads *)

Definition total (w : thread -> nat) (m : gmap nat thread) : nat :=
  map_fold (fun _ t n => (w t + n)%nat) 0%nat m.

Lemma total_insert_new w m i t : m !! i = None -> total w (<[i := t]> m) = (w t + total w m)%nat.
Proof.
  intros Hi. unfold total. rewrite map_fold_insert_L; [done| |done].
  intros. lia.
Qed.

Lemma total_insert w m i t0 t :
  m !! i = Some t0 -> (total w (<[i := t]> m) + w t0 = total w m + w t)%nat.
Proof.
  intros Hi.
  assert (Hm : m = <[i := t0]> (delete i m)) by (symmetry; by apply insert_delete_id).
  pose proof (total_insert_new w (delete i m) i t0 (lookup_delete_eq m i)) as H0.
  pose proof (total_insert_new w (delete i m) i t (lookup_delete_eq m i)) as H1.
  rewrite <- Hm in H0. rewrite insert_delete_eq in H1. lia.
Qed.

Lemma total_le w w' m : (forall t, (w t <= w' t)%nat) -> (total w m <= total w' m)%nat.
Proof.
  intros Hw. induction m as [|i t m Hi IH] using map_ind; [done|].
  rewrite !total_insert_new by done. specialize (Hw t). lia.
Qed.

Lemma total_zero w m : (forall i t, m !! i = Some t -> w t = 0%nat) -> total w m = 0%nat.
Proof.
  induction m as [|i t m Hi IH] using map_ind; intros Hw; [done|].
  rewrite total_insert_new by done. rewrite (Hw i t) by apply lookup_insert_eq.
  rewrite IH; [done|]. intros j t' Hj. apply (Hw j). rewrite lookup_insert_ne; [done|]. congruence.
Qed.

(** A thread that runs a job, and so is in the registry. *)
Definition registered (t : thread) : bool :=
  match t_state t with TRun _ | TMark _ | TRelease _ => true | _ => false end.

(** A thread that holds a token. *)
Definition holds (t : thread) : bool :=
  match t_state t with
  | TSlot _ | TBack _ | TRun _ | TMark _ | TRelease _ | TFree => true
  | _ => false
  end.

(** A thread refused as already done kept the token it had taken. *)
Definition leaked (t : thread) : bool :=
  match t_state t with TRefused errJobDone => true | _ => false end.

Definition weight (t : thread) : nat := if holds t || leaked t then 1 else 0.
Definition running (t : thread) : nat := if registered t then 1 else 0.

(** A queue job that runs or has run but is not marked done yet. *)
Definition unmarked (t : thread) : bool :=
  match t_origin t, t_state t with FromQueue, (TRun _ | TMark _) => true | _, _ => false end.

Definition tid_of (t : thread) : bytes := JobID (t_spec t).

(** ** The invariant *)

Record inv (s : sys) : Prop := {
  inv_slots : slots (reg s) = total weight (threads s);
  inv_cap : (slots (reg s) <= maxConcurrentJobs)%nat;
  inv_registered : forall i t, threads s !! i = Some t -> registered t = true ->
    exists h, inflight (reg s) !! tid_of t = Some h /\ h_spec h = t_spec t;
  inv_unique : forall i j t u, threads s !! i = Some t -> threads s !! j = Some u ->
    registered t = true -> registered u = true -> tid_of t = tid_of u -> i = j;
  inv_owned : forall id h, inflight (reg s) !! id = Some h ->
    exists i t, threads s !! i = Some t /\ registered t = true /\ tid_of t = id;
  inv_back : forall i t, threads s !! i = Some t -> t_state t ≠ TBack errJobDone;
}.

(** A step that leaves registry entries and registered threads alone. *)
Lemma inv_same s s' :
  inv s -> inflight (reg s') = inflight (reg s) -> threads s' = threads s ->
  slots (reg s') = slots (reg s) -> inv s'.
Proof.
  intros [H1 H2 H3 H4 H5 H6] E1 E2 E3. constructor; rewrite ?E1, ?E2, ?E3; done.
Qed.

Lemma ensure_same r : inflight (ensure r) = inflight r /\ slots (ensure r) = slots r /\
  done (ensure r) = done r /\ doneOrder (ensure r) = doneOrder r /\ stopping (ensure r) = stopping r.
Proof. unfold ensure. by destruct (base r). Qed.

(** A job admitted to the registry [r] as [ctx]. *)
Definition admitted (spec : JobSpec) (ctx : nat) (r : registry) : registry :=
  {| inflight := <[JobID spec := {| h_spec := spec; h_ctx := ctx |}]> (inflight r); done := done r;
     doneOrder := doneOrder r; slots := S (slots r); base := base r; cancelled := cancelled r; next := S (next r);
     stopping := stopping r; wg := S (wg r) |}.

(** What a reservation leaves, on every branch. *)
Lemma reserve_effect others alt spec r :
  let r1 := others (ensure r) in
  match reserve others alt spec r with
  | (r', Some (inr ctx)) => r' = admitted spec ctx r1 /\ inflight r1 !! JobID spec = None /\ JobID spec ∉ done r1 /\
      stopping r1 = false /\ (slots r1 < maxConcurrentJobs)%nat
  | (r', Some (inl e)) => r' = ensure r \/ r' = r1 \/
      e = errJobDone /\ JobID spec ∈ done r1 /\ r' = set_slots (S (slots r1)) r1
  | (r', None) => r' = r1 /\ (maxConcurrentJobs <= slots r1)%nat
  end.
Proof.
  cbv zeta. unfold reserve, reserveCheck. set (r0 := ensure r).
  destruct (stopping r0); [by left|]. destruct (inflight r0 !! JobID spec); [by left|].
  set (r1 := others r0). clearbody r1. destruct (Nat.ltb_spec (slots r1) maxConcurrentJobs) as [Hlt|Hge]; cbn [negb].
  - destruct (ctx_done r1 _ && (alt || false)); [by right; left|]. unfold reserveCommit. cbn [stopping set_slots inflight done].
    destruct (stopping r1) eqn:Es; [right; left; by destruct r1|].
    destruct (inflight r1 !! JobID spec) eqn:Ei; [right; left; by destruct r1|].
    case_bool_decide as Hd; [by right; right|]. split_and!; try done. unfold admitted. by rewrite Es.
  - destruct (ctx_done r1 _ && (alt || true)); [by right; left|done].
Qed.

Lemma markDone_same id r : inflight (markDone id r) = inflight r /\ slots (markDone id r) = slots r.
Proof. unfold markDone. destruct (bool_decide _); [done|]. by destruct (evict _ _ _). Qed.

(** Updating the thread at [i], which is not registered before or after. *)
Lemma inv_move s i t st r :
  inv s -> threads s !! i = Some t ->
  registered t = registered (at_state t st) -> st ≠ TBack errJobDone ->
  inflight r = inflight (reg s) ->
  (slots r + weight t = slots (reg s) + weight (at_state t st))%nat ->
  (slots r <= maxConcurrentJobs)%nat ->
  forall st' fi, inv {| reg := r; threads := <[i := at_state t st]> (threads s);
                        started := st'; finished := fi |}.
Proof.
  intros [H1 H2 H3 H4 H5 H6] Ht Hreg Hst Hin Hsl Hcap st' fi.
  pose proof (total_insert weight (threads s) i t (at_state t st) Ht) as Hw.
  assert (Hback : forall j u, <[i := at_state t st]> (threads s) !! j = Some u ->
    registered u = true -> exists u', threads s !! j = Some u' /\ registered u' = true /\
      tid_of u' = tid_of u /\ t_spec u' = t_spec u).
  { intros j u Hj Hu. destruct (decide (i = j)) as [->|Hne].
    - rewrite lookup_insert_eq in Hj. injection Hj as <-. exists t. rewrite Hreg. done.
    - rewrite lookup_insert_ne in Hj by done. eauto. }
  constructor; cbn [reg threads].
  - lia.
  - done.
  - intros j u Hj Hu. destruct (Hback j u Hj Hu) as (u' & Hj' & Hu' & Hid & Hsp).
    rewrite Hin, <- Hid, <- Hsp. by eapply H3.
  - intros j k u v Hj Hk Hu Hv Hid.
    destruct (Hback j u Hj Hu) as (u' & Hj' & Hu' & Hid1 & _).
    destruct (Hback k v Hk Hv) as (v' & Hk' & Hv' & Hid2 & _).
    eapply H4; eauto. congruence.
  - intros id h Hh. rewrite Hin in Hh. destruct (H5 id h Hh) as (j & u & Hj & Hu & Hid).
    destruct (decide (i = j)) as [->|Hne].
    + exists j, (at_state t st). rewrite lookup_insert_eq. replace u with t in * by congruence.
      rewrite <- Hreg. done.
    + exists j, u. by rewrite lookup_insert_ne.
  - intros j u Hj. destruct (decide (i = j)) as [->|Hne].
    + rewrite lookup_insert_eq in Hj. by injection Hj as <-.
    + rewrite lookup_insert_ne in Hj by done. by eapply H6.
Qed.

(** Entering the registry. *)
Lemma inv_enter s i t c :
  inv s -> threads s !! i = Some t -> registered t = false ->
  inflight (reg s) !! tid_of t = None ->
  forall r ctx st' fi, registered (at_state t (TRun ctx)) = true ->
    inflight r = <[tid_of t := {| h_spec := t_spec t; h_ctx := c |}]> (inflight (reg s)) ->
    slots r = slots (reg s) -> weight t = 1%nat ->
    inv {| reg := r; threads := <[i := at_state t (TRun ctx)]> (threads s);
           started := st'; finished := fi |}.
Proof.
  intros [H1 H2 H3 H4 H5 H6] Ht Hreg Hnone r ctx st' fi Hreg' Hin Hsl Hw1.
  pose proof (total_insert weight (threads s) i t (at_state t (TRun ctx)) Ht) as Hw.
  change (weight (at_state t (TRun ctx))) with 1%nat in Hw.
  assert (Hno : forall j u, threads s !! j = Some u -> registered u = true -> tid_of u ≠ tid_of t).
  { intros j u Hj Hu E. destruct (H3 j u Hj Hu) as (h & Hh & _). congruence. }
  constructor; cbn [reg threads].
  - lia.
  - lia.
  - intros j u Hj Hu. rewrite Hin. destruct (decide (i = j)) as [->|Hne].
    + rewrite lookup_insert_eq in Hj. injection Hj as <-. change (tid_of (at_state t (TRun ctx))) with (tid_of t).
      rewrite lookup_insert_eq. by eexists.
    + rewrite lookup_insert_ne in Hj by done. rewrite lookup_insert_ne; [by eapply H3|].
      intros E. by apply (Hno j u).
  - intros j k u v Hj Hk Hu Hv Hid.
    destruct (decide (j = i)) as [->|Hne], (decide (k = i)) as [->|Hne']; try done.
    + rewrite lookup_insert_eq in Hj. rewrite lookup_insert_ne in Hk by done. injection Hj as <-.
      exfalso. by apply (Hno k v).
    + rewrite lookup_insert_eq in Hk. rewrite lookup_insert_ne in Hj by done. injection Hk as <-.
      exfalso. by apply (Hno j u).
    + rewrite lookup_insert_ne in Hj, Hk by done. by eapply H4.
  - intros id h Hh. rewrite Hin in Hh. destruct (decide (tid_of t = id)) as [<-|Hne].
    + exists i, (at_state t (TRun ctx)). rewrite lookup_insert_eq. done.
    + rewrite lookup_insert_ne in Hh by done. destruct (H5 id h Hh) as (j & u & Hj & Hu & Hid).
      exists j, u. rewrite lookup_insert_ne; [done|]. intros ->. congruence.
  - intros j u Hj. destruct (decide (i = j)) as [->|Hne].
    + rewrite lookup_insert_eq in Hj. by injection Hj as <-.
    + rewrite lookup_insert_ne in Hj by done. by eapply H6.
Qed.

(** Leaving it. *)
Lemma inv_leave s i t r :
  inv s -> threads s !! i = Some t -> registered t = true ->
  inflight r = delete (tid_of t) (inflight (reg s)) -> slots r = slots (reg s) ->
  forall st' fi, inv {| reg := r; threads := <[i := at_state t TFree]> (threads s);
                        started := st'; finished := fi |}.
Proof.
  intros [H1 H2 H3 H4 H5 H6] Ht Hreg Hin Hsl st' fi.
  pose proof (total_insert weight (threads s) i t (at_state t TFree) Ht) as Hw.
  assert (weight t = 1%nat) as Hw1.
  { unfold weight, registered, holds in *. by destruct (t_state t). }
  change (weight (at_state t TFree)) with 1%nat in Hw.
  constructor; cbn [reg threads].
  - lia.
  - lia.
  - intros j u Hj Hu. destruct (decide (i = j)) as [->|Hne].
    { rewrite lookup_insert_eq in Hj. injection Hj as <-. discriminate. }
    rewrite lookup_insert_ne in Hj by done. rewrite Hin, lookup_delete_ne; [by eapply H3|].
    intros E. apply Hne. by eapply (H4 i j t u).
  - intros j k u v Hj Hk Hu Hv Hid.
    destruct (decide (j = i)) as [->|Hne], (decide (k = i)) as [->|Hne']; try done.
    + rewrite lookup_insert_eq in Hj. injection Hj as <-. discriminate.
    + rewrite lookup_insert_eq in Hk. injection Hk as <-. discriminate.
    + rewrite lookup_insert_ne in Hj, Hk by done. by eapply H4.
  - intros id h Hh. rewrite Hin in Hh. apply lookup_delete_Some in Hh as [Hne Hh].
    destruct (H5 id h Hh) as (j & u & Hj & Hu & Hid). exists j, u.
    rewrite lookup_insert_ne; [done|]. intros ->. congruence.
  - intros j u Hj. destruct (decide (i = j)) as [->|Hne].
    + rewrite lookup_insert_eq in Hj. by injection Hj as <-.
    + rewrite lookup_insert_ne in Hj by done. by eapply H6.
Qed.

Lemma inv_init : inv init.
Proof.
  constructor; cbn [init reg threads zeroModule slots inflight].
  - reflexivity.
  - unfold maxConcurrentJobs. lia.
  - intros i t Hi. by rewrite lookup_empty in Hi.
  - intros i j t u Hi. by rewrite lookup_empty in Hi.
  - intros id h Hh. by rewrite lookup_empty in Hh.
  - intros i t Hi. by rewrite lookup_empty in Hi.
Qed.

Lemma inv_spawn s i t :
  inv s -> threads s !! i = None -> registered t = false -> weight t = 0%nat ->
  t_state t ≠ TBack errJobDone ->
  inv {| reg := reg s; threads := <[i := t]> (threads s);
         started := started s; finished := finished s |}.
Proof.
  intros [H1 H2 H3 H4 H5 H6] Hi Hr Hw Hb.
  assert (Hold : forall j u, <[i := t]> (threads s) !! j = Some u -> registered u = true ->
    threads s !! j = Some u).
  { intros j u Hj Hu. destruct (decide (i = j)) as [->|Hne].
    - rewrite lookup_insert_eq in Hj. congruence.
    - by rewrite lookup_insert_ne in Hj. }
  constructor; cbn [reg threads].
  - rewrite total_insert_new by done. lia.
  - done.
  - intros j u Hj Hu. apply (H3 j); auto.
  - intros j k u v Hj Hk Hu Hv Hid. apply (H4 j k u v); auto.
  - intros id h Hh. destruct (H5 id h Hh) as (j & u & Hj & Hu & Hid). exists j, u.
    rewrite lookup_insert_ne; [done|]. congruence.
  - intros j u Hj. destruct (decide (i = j)) as [->|Hne].
    + rewrite lookup_insert_eq in Hj. by injection Hj as <-.
    + rewrite lookup_insert_ne in Hj by done. by eapply H6.
Qed.

Lemma inv_tstep s i t alt r st :
  inv s -> threads s !! i = Some t -> tstep alt t (reg s) = Some (r, st) ->
  forall st' fi, inv {| reg := r; threads := <[i := at_state t st]> (threads s);
                        started := st'; finished := fi |}.
Proof.
  intros Hinv Ht Hstep st' fi. pose proof (inv_cap s Hinv) as Hcap.
  destruct (ensure_same (reg s)) as (Ein & Esl & _).
  assert (Hpos : holds t = true -> (0 < slots (reg s))%nat).
  { intros Hh. rewrite (inv_slots s Hinv).
    pose proof (total_insert weight (threads s) i t (at_state t TEnd) Ht) as Hw.
    assert (weight t = 1%nat) by (unfold weight; by rewrite Hh).
    change (weight (at_state t TEnd)) with 0%nat in Hw. lia. }
  destruct t as [o spec ts]. unfold tstep in Hstep. cbn [t_state t_spec t_origin] in Hstep.
  destruct ts as [|b|b|e|ctx|ctx|ctx| | |e|]; try done.
  - unfold reserveCheck in Hstep. destruct (stopping (ensure (reg s)));
      [|destruct (inflight (ensure (reg s)) !! JobID spec)]; injection Hstep as <- <-;
      apply inv_move with (1 := Hinv) (2 := Ht); cbn; rewrite ?Ein, ?Esl; done.
  - destruct alt.
    + destruct (ctx_done (reg s) b); [|done]. injection Hstep as <- <-.
      apply inv_move with (1 := Hinv) (2 := Ht); done.
    + destruct (Nat.ltb_spec (slots (reg s)) maxConcurrentJobs); [|done]. injection Hstep as <- <-.
      apply inv_move with (1 := Hinv) (2 := Ht); cbn; done || lia.
  - unfold reserveCommit in Hstep. destruct (stopping (reg s)).
    { injection Hstep as <- <-. apply inv_move with (1 := Hinv) (2 := Ht); done. }
    destruct (inflight (reg s) !! JobID spec) eqn:Hin.
    { injection Hstep as <- <-. apply inv_move with (1 := Hinv) (2 := Ht); done. }
    destruct (bool_decide (JobID spec ∈ done (reg s))); injection Hstep as <- <-.
    { apply inv_move with (1 := Hinv) (2 := Ht); done. }
    eapply inv_enter with (1 := Hinv) (2 := Ht); done.
  - injection Hstep as <- <-. specialize (Hpos eq_refl).
    pose proof (inv_back s Hinv i _ Ht) as Hback.
    apply inv_move with (1 := Hinv) (2 := Ht); cbn; try done; [|lia].
    unfold weight. cbn. destruct e; cbn; lia || done.
  - injection Hstep as <- <-. apply inv_move with (1 := Hinv) (2 := Ht); try done; by destruct o.
  - injection Hstep as <- <-. destruct (markDone_same (JobID spec) (reg s)) as [Em Es].
    apply inv_move with (1 := Hinv) (2 := Ht); rewrite ?Em, ?Es; done.
  - injection Hstep as <- <-. by apply inv_leave with (1 := Hinv) (2 := Ht).
  - injection Hstep as <- <-. specialize (Hpos eq_refl).
    apply inv_move with (1 := Hinv) (2 := Ht); cbn; try done; lia.
  - injection Hstep as <- <-. apply inv_move with (1 := Hinv) (2 := Ht); done.
Qed.

Lemma inv_step s s' : inv s -> step s s' -> inv s'.
Proof.
  intros Hinv [a Ha]. destruct a as [tid o spec|tid alt| | | |id]; cbn [sysStep] in Ha.
  - destruct (threads s !! tid) eqn:E; [done|]. injection Ha as <-. by apply inv_spawn.
  - destruct (threads s !! tid) as [t|] eqn:E; [|done].
    destruct (tstep alt t (reg s)) as [[r st]|] eqn:Et; [|done]. injection Ha as <-.
    by eapply inv_tstep.
  - injection Ha as <-. unfold startJobs. destruct (ensure_same (reg s)) as (? & ? & _).
    destruct (_ || _); apply inv_same with s; done.
  - injection Ha as <-. by apply inv_same with s.
  - injection Ha as <-. destruct (base (reg s)); by apply inv_same with s.
  - injection Ha as <-. unfold CancelJob. destruct (inflight (reg s) !! id); by apply inv_same with s.
Qed.

Lemma reachable_inv s : reachable s -> inv s.
Proof. induction 1; [apply inv_init | by eapply inv_step]. Qed.

(** ** The history *)

#[global] Instance origin_eq_dec : EqDecision origin.
Proof. solve_decision. Defined.

(** The queue jobs that began to run, oldest first. *)
Definition queueStarts (s : sys) : list bytes :=
  map snd (filter (fun x => x.1 = FromQueue) (started s)).

Lemma evict_fits fuel d order : (length order <= recentlyDoneCap)%nat -> evict fuel d order = (d, order).
Proof.
  intros Hl. destruct fuel as [|fuel]; [done|]. destruct order as [|o order]; [done|].
  cbn [evict]. destruct (Nat.ltb_spec recentlyDoneCap (length (o :: order))); [lia | done].
Qed.

(** As long as the memory of finished jobs has not overflowed, it holds all of
    them, and every queue job that began is running or remembered. *)
Record remembers (s : sys) : Prop := {
  rem_order : doneOrder (reg s) = finished s;
  rem_done : done (reg s) = list_to_set (finished s);
  rem_once : NoDup (queueStarts s);
  rem_starts : forall id, id ∈ queueStarts s <->
    id ∈ finished s \/ exists i t, threads s !! i = Some t /\ unmarked t = true /\ tid_of t = id;
  rem_fresh : forall i t, threads s !! i = Some t -> unmarked t = true -> tid_of t ∉ finished s;
}.

Lemma unmarked_registered t : unmarked t = true -> registered t = true.
Proof. unfold unmarked, registered. by destruct (t_origin t), (t_state t). Qed.

(** Steps that neither begin nor mark a queue job. *)
Lemma remembers_move s i t st r :
  remembers s -> threads s !! i = Some t -> unmarked (at_state t st) = unmarked t ->
  done r = done (reg s) -> doneOrder r = doneOrder (reg s) ->
  forall b, filter (fun x => x.1 = FromQueue) b = [] ->
  remembers {| reg := r; threads := <[i := at_state t st]> (threads s);
               started := started s ++ b; finished := finished s |}.
Proof.
  intros [H1 H2 H3 H4 H5] Ht Hun Hd Ho b Hb.
  assert (Hq : queueStarts {| reg := r; threads := <[i := at_state t st]> (threads s);
    started := started s ++ b; finished := finished s |} = queueStarts s).
  { unfold queueStarts. cbn [started]. rewrite filter_app, Hb, app_nil_r. done. }
  constructor; rewrite ?Hq; cbn [reg threads finished].
  - by rewrite Ho.
  - by rewrite Hd.
  - done.
  - intros id. rewrite H4. split; (intros [Hf|(j & u & Hj & Hu & Hid)]; [by left|right]);
      destruct (decide (i = j)) as [->|Hne].
    + exists j, (at_state t st). rewrite lookup_insert_eq, Hun. replace u with t in * by congruence. done.
    + exists j, u. by rewrite lookup_insert_ne.
    + rewrite lookup_insert_eq in Hj. injection Hj as <-. exists j, t. by rewrite <- Hun.
    + rewrite lookup_insert_ne in Hj by done. eauto.
  - intros j u Hj Hu. destruct (decide (i = j)) as [->|Hne].
    + rewrite lookup_insert_eq in Hj. injection Hj as <-. rewrite Hun in Hu. by apply (H5 j t).
    + rewrite lookup_insert_ne in Hj by done. by apply (H5 j u).
Qed.

(** A queue job begins. *)
Lemma remembers_begin s i t ctx r :
  inv s -> remembers s -> threads s !! i = Some t -> unmarked t = false ->
  t_origin t = FromQueue -> inflight (reg s) !! tid_of t = None -> tid_of t ∉ done (reg s) ->
  done r = done (reg s) -> doneOrder r = doneOrder (reg s) ->
  remembers {| reg := r; threads := <[i := at_state t (TRun ctx)]> (threads s);
               started := started s ++ [(FromQueue, tid_of t)]; finished := finished s |}.
Proof.
  intros Hinv [H1 H2 H3 H4 H5] Ht Hun Ho Hin Hdone Hd Hor.
  assert (Hun' : unmarked (at_state t (TRun ctx)) = true) by (unfold unmarked; cbn; by rewrite Ho).
  assert (Hnot : tid_of t ∉ finished s) by (rewrite H2 in Hdone; set_solver).
  assert (Hnone : forall j u, threads s !! j = Some u -> unmarked u = true -> tid_of u ≠ tid_of t).
  { intros j u Hj Hu E. destruct (inv_registered s Hinv j u Hj) as (h & Hh & _);
      [by apply unmarked_registered | congruence]. }
  assert (Hfresh : tid_of t ∉ queueStarts s).
  { rewrite H4. intros [?|(j & u & Hj & Hu & Hid)]; [done|]. by apply (Hnone j u). }
  assert (Hq : queueStarts {| reg := r; threads := <[i := at_state t (TRun ctx)]> (threads s);
    started := started s ++ [(FromQueue, tid_of t)]; finished := finished s |} =
    queueStarts s ++ [tid_of t]).
  { unfold queueStarts. cbn [started]. rewrite filter_app, map_app. done. }
  constructor; rewrite ?Hq; cbn [reg threads finished].
  - by rewrite Hor.
  - by rewrite Hd.
  - apply NoDup_app. split; [done|]. split; [|apply NoDup_singleton].
    intros x Hx ->%list_elem_of_singleton. done.
  - intros id. rewrite elem_of_app, list_elem_of_singleton, H4. split.
    + intros [[Hf|(j & u & Hj & Hu & Hid)]| ->]; [by left|right..].
      * exists j, u. rewrite lookup_insert_ne; [done|]. intros ->. congruence.
      * exists i, (at_state t (TRun ctx)). by rewrite lookup_insert_eq.
    + intros [Hf|(j & u & Hj & Hu & Hid)]; [auto|]. destruct (decide (i = j)) as [->|Hne].
      * rewrite lookup_insert_eq in Hj. injection Hj as <-. by right.
      * rewrite lookup_insert_ne in Hj by done. left. right. eauto.
  - intros j u Hj Hu. destruct (decide (i = j)) as [->|Hne].
    + rewrite lookup_insert_eq in Hj. by injection Hj as <-.
    + rewrite lookup_insert_ne in Hj by done. by apply (H5 j u).
Qed.

(** A finished queue job is marked. *)
Lemma remembers_mark s i t ctx :
  inv s -> remembers s -> threads s !! i = Some t -> t_state t = TMark ctx ->
  t_origin t = FromQueue -> (length (finished s ++ [tid_of t]) <= recentlyDoneCap)%nat ->
  remembers {| reg := markDone (tid_of t) (reg s);
               threads := <[i := at_state t (TRelease ctx)]> (threads s);
               started := started s ++ []; finished := finished s ++ [tid_of t] |}.
Proof.
  intros Hinv [H1 H2 H3 H4 H5] Ht Hst Ho Hlen. rewrite app_nil_r.
  assert (Hun : unmarked t = true) by (unfold unmarked; by rewrite Ho, Hst).
  pose proof (H5 i t Ht Hun) as Hnot.
  assert (Hmd : doneOrder (markDone (tid_of t) (reg s)) = finished s ++ [tid_of t] /\
                done (markDone (tid_of t) (reg s)) = list_to_set (finished s ++ [tid_of t])).
  { unfold markDone. rewrite bool_decide_eq_false_2 by (rewrite H2; set_solver).
    rewrite H1, evict_fits by done. cbn [doneOrder done]. split; [done|]. rewrite H2. set_solver. }
  destruct Hmd as [Hmo Hms].
  assert (Hother : forall j u, threads s !! j = Some u -> unmarked u = true -> i ≠ j ->
    tid_of u ≠ tid_of t).
  { intros j u Hj Hu Hne E. apply Hne. eapply (inv_unique s Hinv i j t u); eauto using unmarked_registered. }
  constructor; cbn [reg threads finished]; [done|done|exact H3| |].
  - intros id. change (queueStarts _) with (queueStarts s). rewrite H4, elem_of_app, list_elem_of_singleton.
    split.
    + intros [Hf|(j & u & Hj & Hu & Hid)]; [by left; left|]. destruct (decide (i = j)) as [->|Hne].
      * left. right. congruence.
      * right. exists j, u. by rewrite lookup_insert_ne.
    + intros [[Hf| ->]|(j & u & Hj & Hu & Hid)]; [by left|right; eauto|].
      destruct (decide (i = j)) as [->|Hne].
      * rewrite lookup_insert_eq in Hj. injection Hj as <-. unfold unmarked in Hu. cbn in Hu.
        by rewrite Ho in Hu.
      * rewrite lookup_insert_ne in Hj by done. right. eauto.
  - intros j u Hj Hu. destruct (decide (i = j)) as [->|Hne].
    + rewrite lookup_insert_eq in Hj. injection Hj as <-. unfold unmarked in Hu. cbn in Hu. by rewrite Ho in Hu.
    + rewrite lookup_insert_ne in Hj by done. rewrite not_elem_of_app, list_elem_of_singleton.
      split; [by apply (H5 j u)|]. by eapply Hother.
Qed.

(** Only queue jobs are marked done. *)
Definition marks_queue (s : sys) : Prop :=
  forall i t ctx, threads s !! i = Some t -> t_state t = TMark ctx -> t_origin t = FromQueue.

Lemma marks_queue_step s s' : marks_queue s -> step s s' -> marks_queue s'.
Proof.
  intros Hm [a Ha]. destruct a as [tid o spec|tid alt| | | |id]; cbn [sysStep] in Ha;
    try (injection Ha as <-; exact Hm).
  - destruct (threads s !! tid) eqn:E; [done|]. injection Ha as <-. intros i t ctx Hi Hst.
    cbn [threads] in Hi. destruct (decide (tid = i)) as [->|Hne].
    + rewrite lookup_insert_eq in Hi. injection Hi as <-. discriminate.
    + rewrite lookup_insert_ne in Hi by done. by eapply Hm.
  - destruct (threads s !! tid) as [t|] eqn:E; [|done].
    destruct (tstep alt t (reg s)) as [[r st]|] eqn:Et; [|done]. injection Ha as <-.
    intros i u ctx Hi Hst. cbn [threads] in Hi. destruct (decide (tid = i)) as [->|Hne].
    2: { rewrite lookup_insert_ne in Hi by done. by eapply Hm. }
    rewrite lookup_insert_eq in Hi. injection Hi as <-. cbn in Hst. subst st.
    destruct t as [o spec ts]. cbn [t_origin at_state]. unfold tstep in Et. cbn [t_state t_spec t_origin] in Et.
    destruct ts as [|b|b|e|c|c|c| | |e|]; try discriminate.
    + destruct (reserveCheck _ _) as [r' [e|b]]; discriminate.
    + destruct alt; [destruct (ctx_done _ _)|destruct (_ <? _)%nat]; discriminate.
    + destruct (reserveCommit _ _) as [r' [e|e|c]]; discriminate.
    + by destruct o.
Qed.

Lemma remembers_tstep s i t alt r st :
  inv s -> marks_queue s -> remembers s -> threads s !! i = Some t ->
  tstep alt t (reg s) = Some (r, st) ->
  (length (finished s ++ marks t) <= recentlyDoneCap)%nat ->
  remembers {| reg := r; threads := <[i := at_state t st]> (threads s);
               started := started s ++ begins t st; finished := finished s ++ marks t |}.
Proof.
  intros Hinv Hmq Hrem Ht Hstep Hlen. destruct (ensure_same (reg s)) as (_ & _ & Ed & Eo & _).
  destruct t as [o spec ts]. unfold tstep in Hstep. cbn [t_state t_spec t_origin] in Hstep.
  assert (Hmove : forall st' r', unmarked (at_state {| t_origin := o; t_spec := spec; t_state := ts |} st') =
      unmarked {| t_origin := o; t_spec := spec; t_state := ts |} ->
    done r' = done (reg s) -> doneOrder r' = doneOrder (reg s) ->
    marks {| t_origin := o; t_spec := spec; t_state := ts |} = [] ->
    forall b, filter (fun x => x.1 = FromQueue) b = [] ->
    remembers {| reg := r'; threads := <[i := at_state {| t_origin := o; t_spec := spec; t_state := ts |} st']> (threads s);
      started := started s ++ b; finished := finished s ++ marks {| t_origin := o; t_spec := spec; t_state := ts |} |}).
  { intros st' r' Hu Hd Hor Hm b Hb. rewrite Hm, app_nil_r. by apply remembers_move. }
  destruct ts as [|b|b|e|ctx|ctx|ctx| | |e|]; try done.
  - unfold reserveCheck in Hstep. destruct (stopping (ensure (reg s)));
      [|destruct (inflight (ensure (reg s)) !! JobID spec)]; injection Hstep as <- <-;
      apply Hmove; cbn; rewrite ?Ed, ?Eo; done || by destruct o.
  - destruct alt; [destruct (ctx_done (reg s) b)|destruct (_ <? _)%nat]; try done;
      injection Hstep as <- <-; apply Hmove; done || by destruct o.
  - unfold reserveCommit in Hstep. destruct (stopping (reg s)).
    { injection Hstep as <- <-. apply Hmove; done || by destruct o. }
    destruct (inflight (reg s) !! JobID spec) eqn:Hin.
    { injection Hstep as <- <-. apply Hmove; done || by destruct o. }
    destruct (bool_decide (JobID spec ∈ done (reg s))) eqn:Hd; bool_cases; injection Hstep as <- <-.
    { apply Hmove; done || by destruct o. }
    destruct o; [|apply Hmove; done..].
    cbn [marks t_state]. rewrite app_nil_r.
    by apply (remembers_begin s i {| t_origin := FromQueue; t_spec := spec; t_state := TSlot b |}).
  - injection Hstep as <- <-. apply Hmove; done || by destruct o.
  - injection Hstep as <- <-. apply Hmove; done || by destruct o.
  - injection Hstep as <- <-. pose proof (Hmq i _ ctx Ht eq_refl) as Ho. cbn in Ho. subst o.
    by apply (remembers_mark s i {| t_origin := FromQueue; t_spec := spec; t_state := TMark ctx |} ctx).
  - injection Hstep as <- <-. apply Hmove; done || by destruct o.
  - injection Hstep as <- <-. apply Hmove; done || by destruct o.
  - injection Hstep as <- <-. apply Hmove; done || by destruct o.
Qed.

Lemma remembers_spawn s i t :
  remembers s -> threads s !! i = None -> unmarked t = false ->
  remembers {| reg := reg s; threads := <[i := t]> (threads s);
               started := started s; finished := finished s |}.
Proof.
  intros [H1 H2 H3 H4 H5] Hi Hun. constructor; cbn [reg threads finished]; [done|done|exact H3| |].
  - intros id. change (queueStarts _) with (queueStarts s). rewrite H4.
    split; (intros [Hf|(j & u & Hj & Hu & Hid)]; [by left|right]).
    + exists j, u. rewrite lookup_insert_ne; [done|]. congruence.
    + destruct (decide (i = j)) as [->|Hne]; [rewrite lookup_insert_eq in Hj; congruence|].
      rewrite lookup_insert_ne in Hj by done. eauto.
  - intros j u Hj Hu. destruct (decide (i = j)) as [->|Hne]; [rewrite lookup_insert_eq in Hj; congruence|].
    rewrite lookup_insert_ne in Hj by done. by apply (H5 j u).
Qed.

Lemma remembers_reg s r :
  remembers s -> done r = done (reg s) -> doneOrder r = doneOrder (reg s) -> remembers (set_reg s r).
Proof. intros [H1 H2 H3 H4 H5] Ed Eo. constructor; cbn [set_reg reg threads finished]; congruence || done. Qed.

Lemma remembers_step s s' :
  inv s -> marks_queue s -> remembers s -> step s s' ->
  (length (finished s') <= recentlyDoneCap)%nat -> remembers s'.
Proof.
  intros Hinv Hmq Hrem [a Ha] Hlen. destruct a as [tid o spec|tid alt| | | |id]; cbn [sysStep] in Ha.
  - destruct (threads s !! tid) eqn:E; [done|]. injection Ha as <-.
    apply remembers_spawn; [done|done|by destruct o].
  - destruct (threads s !! tid) as [t|] eqn:E; [|done].
    destruct (tstep alt t (reg s)) as [[r st]|] eqn:Et; [|done]. injection Ha as <-.
    by apply remembers_tstep with alt.
  - injection Ha as <-. unfold startJobs. destruct (ensure_same (reg s)) as (_ & _ & Ed & Eo & _).
    destruct (_ || _); by apply remembers_reg.
  - injection Ha as <-. by apply remembers_reg.
  - injection Ha as <-. destruct (base (reg s)); by apply remembers_reg.
  - injection Ha as <-. unfold CancelJob. destruct (inflight (reg s) !! id); by apply remembers_reg.
Qed.

Lemma finished_grows s s' : step s s' -> (length (finished s) <= length (finished s'))%nat.
Proof.
  intros [a Ha]. destruct a as [tid o spec|tid alt| | | |id]; cbn [sysStep] in Ha;
    try (injection Ha as <-; done).
  - destruct (threads s !! tid); [done|]. by injection Ha as <-.
  - destruct (threads s !! tid) as [t|]; [|done]. destruct (tstep alt t (reg s)) as [[r st]|]; [|done].
    injection Ha as <-. cbn [finished]. rewrite length_app. lia.
Qed.

Lemma reachable_remembers s :
  reachable s -> marks_queue s /\ ((length (finished s) <= recentlyDoneCap)%nat -> remembers s).
Proof.
  induction 1 as [|s s' Hr [Hmq IH] Hs].
  - split; [intros i t ctx Hi; cbn [init threads] in Hi; by rewrite lookup_empty in Hi|]. intros _.
    constructor; cbn [init reg threads finished]; [done|done|constructor| |].
    + intros id. split; [intros Hq; by apply not_elem_of_nil in Hq|].
      intros [Hf|(i & t & Hi & _)]; [by apply not_elem_of_nil in Hf | by rewrite lookup_empty in Hi].
    + intros i t Hi. by rewrite lookup_empty in Hi.
  - split; [by eapply marks_queue_step|]. intros Hlen. pose proof (finished_grows s s' Hs).
    apply remembers_step with s; try done; [by apply reachable_inv | apply IH; lia].
Qed.

(** Concurrency is bounded and exclusive.  In every reachable state at
    most [maxConcurrentJobs] jobs run at once, no two goroutines run the same
    job id, the registry lists exactly the running job ids, each with the
    spec its goroutine runs, and every token in the channel is held by a
    goroutine between [reserve] and [release] or was kept by one that was
    refused as already done. *)
Theorem concurrency_is_bounded s :
  reachable s ->
  (total running (threads s) <= maxConcurrentJobs)%nat /\
  slots (reg s) = total weight (threads s) /\
  (forall i j t u, threads s !! i = Some t -> threads s !! j = Some u ->
     registered t = true -> registered u = true -> tid_of t = tid_of u -> i = j) /\
  (forall id, is_Some (inflight (reg s) !! id) <->
     exists i t, threads s !! i = Some t /\ registered t = true /\ tid_of t = id).
Proof.
  intros Hinv%reachable_inv. destruct Hinv as [H1 H2 H3 H4 H5 H6]. split_and!.
  - transitivity (total weight (threads s)); [|lia]. apply total_le. intros t.
    unfold running, weight, registered, holds. by destruct (t_state t); cbn; lia.
  - done.
  - done.
  - intros id. split; [intros [h Hh]; by eapply H5|].
    intros (i & t & Hi & Hr & <-). destruct (H3 i t Hi Hr) as (h & -> & _). eauto.
Qed.

(** C4: A queued job runs at most once.  However deliveries, redeliveries,
    schedule fires, cancellations and restarts of the consumer interleave, no
    job id delivered on the queue begins to run twice, as long as at most
    [recentlyDoneCap] queue jobs have finished. *)
Theorem queue_jobs_run_at_most_once s :
  reachable s -> (length (finished s) <= recentlyDoneCap)%nat -> NoDup (queueStarts s).
Proof. intros [_ Hr]%reachable_remembers Hlen. by apply rem_once, Hr. Qed.

(** Once the module is stopping, no step of any goroutine begins a job,
    whatever it was waiting for; only [startJobs] reopens the registry. *)
Theorem stopping_begins_nothing s s' a :
  stopping (reg s) = true -> a ≠ AStart -> sysStep a s = Some s' ->
  started s' = started s /\ stopping (reg s') = true.
Proof.
  intros Hst Hna Ha. destruct (ensure_same (reg s)) as (_ & _ & _ & _ & Es).
  destruct a as [tid o spec|tid alt| | | |id]; cbn [sysStep] in Ha; try done.
  - destruct (threads s !! tid); [done|]. by injection Ha as <-.
  - destruct (threads s !! tid) as [t|]; [|done].
    destruct (tstep alt t (reg s)) as [[r st]|] eqn:Et; [|done]. injection Ha as <-. cbn [started reg].
    destruct t as [o spec ts]. unfold tstep in Et. cbn [t_state t_spec t_origin] in Et.
    assert (Hmd : stopping (markDone (JobID spec) (reg s)) = true).
    { unfold markDone. destruct (bool_decide _); [done|]. by destruct (evict _ _ _). }
    destruct ts as [|b|b|e|c|c|c| | |e|]; try done;
      try (injection Et as <- <-; cbn; rewrite app_nil_r; done).
    + unfold reserveCheck in Et. rewrite Es, Hst in Et. injection Et as <- <-.
      cbn. rewrite app_nil_r, Es. done.
    + destruct alt; [destruct (ctx_done _ _)|destruct (_ <? _)%nat]; try done; injection Et as <- <-;
        cbn; rewrite app_nil_r; done.
    + unfold reserveCommit in Et. rewrite Hst in Et. injection Et as <- <-. cbn. rewrite app_nil_r. done.
  - by injection Ha as <-.
  - injection Ha as <-. by destruct (base (reg s)).
  - injection Ha as <-. unfold CancelJob. by destruct (inflight (reg s) !! id).
Qed.

(** ** Redeliveries of completed jobs *)

Definition leaks (t : thread) : nat := if leaked t then 1 else 0.
Definition holding (t : thread) : nat := if holds t then 1 else 0.

Lemma total_split m : total weight m = (total leaks m + total holding m)%nat.
Proof.
  induction m as [|i t m Hi IH] using map_ind; [done|]. rewrite !total_insert_new, IH by done.
  unfold weight, leaks, holding, holds, leaked. destruct (t_state t) as [| | | | | | | | |[] |]; cbn; lia.
Qed.

Lemma total_pos w m i t : m !! i = Some t -> (w t <= total w m)%nat.
Proof.
  intros Hi. rewrite <- (insert_delete_id m i t Hi).
  rewrite total_insert_new by apply lookup_delete_eq. lia.
Qed.

(** A kept token never comes back. *)
Lemma leaks_grow s s' : step s s' -> (total leaks (threads s) <= total leaks (threads s'))%nat.
Proof.
  intros [a Ha]. destruct a as [tid o spec|tid alt| | | |id]; cbn [sysStep] in Ha;
    try (injection Ha as <-; done).
  - destruct (threads s !! tid) eqn:E; [done|]. injection Ha as <-. cbn [threads].
    rewrite total_insert_new by done. lia.
  - destruct (threads s !! tid) as [t|] eqn:E; [|done].
    destruct (tstep alt t (reg s)) as [[r st]|] eqn:Et; [|done]. injection Ha as <-. cbn [threads].
    pose proof (total_insert leaks (threads s) tid t (at_state t st) E) as Hw.
    assert (leaks t = 0%nat) by (unfold leaks, leaked; unfold tstep in Et; by destruct (t_state t)). lia.
Qed.

(** With every token kept, no goroutine is past the select. *)
Lemma all_leaked_begins_nothing s s' :
  inv s -> (maxConcurrentJobs <= total leaks (threads s))%nat -> step s s' -> started s' = started s.
Proof.
  intros Hinv Hl [a Ha]. pose proof (inv_slots s Hinv) as Hs. pose proof (inv_cap s Hinv) as Hc.
  rewrite total_split in Hs.
  destruct a as [tid o spec|tid alt| | | |id]; cbn [sysStep] in Ha; try (injection Ha as <-; done).
  - destruct (threads s !! tid); [done|]. by injection Ha as <-.
  - destruct (threads s !! tid) as [t|] eqn:E; [|done].
    destruct (tstep alt t (reg s)) as [[r st]|]; [|done]. injection Ha as <-. cbn [started].
    pose proof (total_pos holding (threads s) tid t E) as Hh.
    assert (Hz : holding t = 0%nat) by lia. unfold holding, holds in Hz.
    unfold begins. destruct (t_state t); by rewrite app_nil_r || discriminate Hz.
Qed.

Lemma leaked_forever s s' :
  inv s -> (maxConcurrentJobs <= total leaks (threads s))%nat -> rtc step s s' -> started s' = started s.
Proof.
  intros Hinv Hl Hs. induction Hs as [s|s s1 s2 H1 H2 IH]; [done|].
  rewrite IH; [by apply all_leaked_begins_nothing|by eapply inv_step|].
  pose proof (leaks_grow s s1 H1). lia.
Qed.

Definition demo_spec (id : bytes) : JobSpec :=
  {| JobID := id; Kind := KindScriptRun; Shell := []; js_Body := []; TimeoutS := 0; js_Env := ∅;
     RequestedBy := []; EntryID := [] |}.

(** Deliver a job and let its goroutine take [n] steps. *)
Definition deliver (tid : nat) (id : bytes) (n : nat) : list action :=
  ASpawn tid FromQueue (demo_spec id) :: repeat (AThread tid false) n.

(** One job that ran to its end, then three redeliveries of it. *)
Definition three_redeliveries : list action :=
  deliver 0 (str "j1") 8 ++ deliver 1 (str "j1") 3 ++ deliver 2 (str "j1") 3 ++ deliver 3 (str "j1") 3.

(** Every goroutine has returned and nothing is in flight. *)
Definition returned (t : thread) : bool :=
  match t_state t with TEnd | TRefused errJobDone => true | _ => false end.
Definition wedged (s : sys) : bool :=
  forallb (fun x => returned x.2) (map_to_list (threads s)) && (size (inflight (reg s)) =? 0)%nat &&
  (slots (reg s) =? maxConcurrentJobs)%nat && (total leaks (threads s) =? maxConcurrentJobs)%nat.

(** C40: [reserve] returns [errJobDone] without giving its token back.  After
    one job has finished and been redelivered three times, nothing is running
    and every goroutine has returned, yet the three slots are taken for good:
    whatever happens next, no job ever begins again. *)
Theorem redeliveries_wedge_the_agent :
  exists s, reachable s /\ inflight (reg s) = ∅ /\
    (forall i t, threads s !! i = Some t -> t_state t = TEnd \/ t_state t = TRefused errJobDone) /\
    slots (reg s) = maxConcurrentJobs /\
    forall s', rtc step s s' -> started s' = started s.
Proof.
  assert (Hc : match exec three_redeliveries init with Some s => wedged s | None => false end = true)
    by (vm_compute; reflexivity).
  destruct (exec three_redeliveries init) as [s|] eqn:E; [|done]. unfold wedged in Hc. bool_cases.
  rewrite !Nat.eqb_eq in *. exists s.
  assert (Hr : reachable s) by (by eapply exec_reachable; [apply reach_init|]).
  split_and!; [done|by apply map_size_empty_inv| |done|].
  - intros i t Hi%elem_of_map_to_list%list_elem_of_In. rewrite forallb_forall in *.
    assert (Ht : returned t = true) by (by eapply (H (i, t))). unfold returned in Ht.
    destruct (t_state t) as [| | | | | | | | |[] |]; auto || discriminate Ht.
  - intros s' Hs. apply leaked_forever; [by apply reachable_inv|lia|done].
Qed.

(** ** The memory of finished jobs *)

Record done_wf (r : registry) : Prop := {
  dw_set : done r = list_to_set (doneOrder r);
  dw_nodup : NoDup (doneOrder r);
  dw_cap : (length (doneOrder r) <= recentlyDoneCap)%nat;
}.

Lemma evict_one d o order :
  (length order = recentlyDoneCap)%nat -> evict (length (o :: order)) d (o :: order) = (d ∖ {[o]}, order).
Proof.
  intros Hl. cbn [evict length]. destruct (Nat.ltb_spec recentlyDoneCap (S (length order))); [|lia].
  apply evict_fits. lia.
Qed.

Lemma markDone_spec id r :
  done_wf r -> id ∉ doneOrder r ->
  done_wf (markDone id r) /\ doneOrder (markDone id r) = keep_last recentlyDoneCap (doneOrder r ++ [id]).
Proof.
  intros [Hs Hn Hc] Hid. unfold markDone.
  rewrite bool_decide_eq_false_2 by (rewrite Hs; set_solver).
  assert (Hnd : NoDup (doneOrder r ++ [id])).
  { apply NoDup_app. split; [done|]. split; [|apply NoDup_singleton]. intros x Hx ->%list_elem_of_singleton. done. }
  destruct (Nat.le_gt_cases (length (doneOrder r ++ [id])) recentlyDoneCap) as [Hfit|Hover].
  - rewrite evict_fits, keep_last_all by done. cbn [doneOrder]. split; [|done].
    constructor; cbn [done doneOrder]; [|done|done]. rewrite Hs. set_solver.
  - rewrite length_app in Hover. cbn [length] in Hover.
    destruct (doneOrder r) as [|o order] eqn:Eo; [unfold recentlyDoneCap in Hover; cbn in Hover; lia|].
    assert (Hlen : length (order ++ [id]) = recentlyDoneCap) by (rewrite length_app; cbn [length] in *; lia).
    change ((o :: order) ++ [id]) with (o :: (order ++ [id])) in *. rewrite evict_one by done.
    apply NoDup_cons in Hnd as [Hno Hnd]. cbn [done doneOrder]. split.
    + constructor; cbn [done doneOrder]; [|done|lia]. rewrite Hs.
      apply set_eq. intros x. rewrite elem_of_difference, elem_of_union, elem_of_singleton, !elem_of_list_to_set,
        elem_of_cons, elem_of_app, list_elem_of_singleton, elem_of_singleton.
      rewrite elem_of_app, list_elem_of_singleton in Hno. naive_solver.
    + unfold keep_last. cbn [length]. rewrite Hlen.
      replace (S recentlyDoneCap - recentlyDoneCap)%nat with 1%nat by lia. done.
Qed.

(** The memory of finished jobs is a sliding window.  Marking distinct new
    jobs one after the other keeps exactly the last [recentlyDoneCap] of all
    those marked, in order; so a finished job is recognised until that many
    others have finished after it, and the set never grows past the cap. *)
Theorem markDone_keeps_the_newest ids r :
  done_wf r -> NoDup (doneOrder r ++ ids) ->
  let r' := fold_left (fun r id => markDone id r) ids r in
  done_wf r' /\ doneOrder r' = keep_last recentlyDoneCap (doneOrder r ++ ids) /\
  forall id, alreadyDone id r' = true <-> id ∈ keep_last recentlyDoneCap (doneOrder r ++ ids).
Proof.
  intros Hwf Hnd. cbv zeta.
  assert (Hmain : forall ids r, done_wf r -> NoDup (doneOrder r ++ ids) ->
    done_wf (fold_left (fun r id => markDone id r) ids r) /\
    doneOrder (fold_left (fun r id => markDone id r) ids r) = keep_last recentlyDoneCap (doneOrder r ++ ids)).
  { clear. induction ids as [|id ids IH]; intros r Hwf Hnd; cbn [fold_left].
    - rewrite app_nil_r, keep_last_all by apply Hwf. done.
    - assert (Hid : id ∉ doneOrder r).
      { apply NoDup_app in Hnd as (_ & Hdis & _). intros Hin. apply (Hdis id Hin). by left. }
      destruct (markDone_spec id r Hwf Hid) as [Hwf' Ho].
      assert (Hassoc : doneOrder r ++ id :: ids = (doneOrder r ++ [id]) ++ ids) by (by rewrite <- app_assoc).
      rewrite Hassoc in Hnd |- *.
      destruct (IH (markDone id r) Hwf') as [Hw Hd].
      + rewrite Ho. unfold keep_last. destruct (Nat.le_gt_cases (length (doneOrder r ++ [id])) recentlyDoneCap).
        * replace (_ - _)%nat with 0%nat by lia. by rewrite drop_0.
        * rewrite <- (take_drop (length (doneOrder r ++ [id]) - recentlyDoneCap) (doneOrder r ++ [id])) in Hnd.
          rewrite <- app_assoc in Hnd. by apply NoDup_app in Hnd as (_ & _ & Hnd).
      + split; [done|]. rewrite Hd, Ho. unfold keep_last. rewrite !length_app, length_drop, length_app.
        cbn [length]. pose proof (dw_cap r Hwf).
        destruct (Nat.le_gt_cases (length (doneOrder r) + 1) recentlyDoneCap).
        * replace (length (doneOrder r) + 1 - recentlyDoneCap)%nat with 0%nat by lia. rewrite drop_0.
          f_equal. lia.
        * assert (length (doneOrder r) = recentlyDoneCap) as El by lia. rewrite El.
          replace (recentlyDoneCap + 1 - recentlyDoneCap)%nat with 1%nat by lia.
          assert (Hd1 : forall (A : Type) (l k : list A) n, (1 <= length l)%nat -> drop n (drop 1 l ++ k) = drop (1 + n) (l ++ k)).
          { intros A l k n Hl. rewrite <- drop_drop. f_equal. by rewrite drop_app_le. }
          rewrite Hd1 by (rewrite length_app; cbn; lia). f_equal. lia. }
  destruct (Hmain ids r Hwf Hnd) as [Hw Hd]. split; [done|]. split; [done|].
  intros id. unfold alreadyDone. rewrite bool_decide_eq_true, (dw_set _ Hw), Hd. set_solver.
Qed.

(** *** Witnesses *)

(** Two jobs delivered; the first has finished, the second is running. *)
Definition demo_actions : list action := deliver 0 (str "j1") 8 ++ deliver 1 (str "j2") 3.
Definition demo_sys : sys := default init (exec demo_actions init).

Lemma demo_exec : exec demo_actions init = Some demo_sys.
Proof. vm_compute. reflexivity. Qed.

Lemma demo_reachable : reachable demo_sys.
Proof. eapply exec_reachable; [apply reach_init | apply demo_exec]. Qed.

Lemma concurrency_is_bounded_witness :
  total running (threads demo_sys) = 1%nat /\
  (total running (threads demo_sys) <= maxConcurrentJobs)%nat.
Proof.
  split; [vm_compute; reflexivity|]. exact (proj1 (concurrency_is_bounded demo_sys demo_reachable)).
Defined.

Lemma queue_jobs_run_at_most_once_witness :
  queueStarts demo_sys = [str "j1"; str "j2"] /\ NoDup (queueStarts demo_sys).
Proof.
  split; [vm_compute; reflexivity|]. apply (queue_jobs_run_at_most_once demo_sys demo_reachable).
  apply Nat.leb_le. vm_compute. reflexivity.
Defined.

Lemma stopping_begins_nothing_witness :
  let s := default init (exec (deliver 0 (str "j1") 2 ++ [AStopping]) init) in
  exists s', sysStep (AThread 0 false) s = Some s' /\ started s' = started s.
Proof.
  intros s. destruct (sysStep (AThread 0 false) s) as [s'|] eqn:E; [|vm_compute in E; discriminate].
  exists s'. split; [reflexivity|].
  apply (stopping_begins_nothing s s' (AThread 0 false)); [vm_compute; reflexivity|discriminate|exact E].
Defined.

Lemma markDone_keeps_the_newest_witness :
  alreadyDone (str "a") (markDone (str "b") (markDone (str "a") zeroModule)) = true.
Proof.
  apply (markDone_keeps_the_newest [str "a"; str "b"] zeroModule).
  - constructor; [reflexivity | apply NoDup_nil_2 | apply Nat.leb_le; vm_compute; reflexivity].
  - apply (bool_decide_eq_true_1 _). vm_compute. reflexivity.
  - apply (bool_decide_eq_true_1 _). vm_compute. reflexivity.
Defined.
