(* ===== verification/Handlers.v ===== *)
(** * Handlers: what the agent does with a delivery, a fire, a command and a
    shutdown (agent/internal/jobs/consumer.go, jobs.go, commands.go,
    update_wire.go)

    The registry itself is [Jobs]; here are the handlers around it: decoding
    and acknowledging a queued job, building the spec of a scheduled one,
    answering commands, reporting what a shutdown cut short, and the
    [agent.update] job around [Apply].  What a handler publishes is its list
    of [event]s, in order. *)
From S2P Require Import Prelude GoLib GoOS Swap Tracker Verify Download Apply Wire Env Scripts Jobs.

(** ** Events *)

Inductive event : Type :=
  | EvProgress (jobID : bytes) (pct : Z) (phase note : bytes)
  | EvStderr (spec : JobSpec) (text : bytes)
  | EvResult (jobID : bytes) (res : Scripts.Result)
  | EvAudit (name jobID : bytes)
  | EvRestart (reason : bytes)
  | EvHandoff (reason : bytes).

Definition publishResult (spec : JobSpec) (res : Scripts.Result) : event :=
  let '(id, r) := PublishResult spec res in EvResult id r.

(** ** Decoding (consumer.go) *)

Section decode.
(** [json.Unmarshal] into an envelope and into a job spec. *)
Context (unmarshalEnvelope : bytes -> option Envelope).
Context (unmarshalSpec : JobSpec -> bytes -> option JobSpec).

Definition zeroSpec : JobSpec :=
  {| JobID := []; Kind := []; Shell := []; js_Body := []; TimeoutS := 0; js_Env := ∅;
     RequestedBy := []; EntryID := [] |}.

Definition commandData (raw : bytes) : bytes :=
  match unmarshalEnvelope raw with
  | Some env => if (0 <? env_V env) && negb (bool_decide (env_Data env = [])) then env_Data env else raw
  | None => raw
  end.

Definition decodeJob (raw : bytes) : option JobSpec := unmarshalSpec zeroSpec (commandData raw).

(** What happens to the JetStream message. *)
Inductive disposition : Type := Ack | Nak | Term.

(** [handleJob]: [reserve] is the outcome of the reservation, [None] when the
    job was started. *)
Definition handleJob (raw : bytes) (reserve : JobSpec -> option reserveErr) :
    disposition * option JobSpec :=
  match decodeJob raw with
  | None => (Term, None)
  | Some spec =>
      match CheckIdentifier (str "job_id") (JobID spec) with
      | Some _ => (Term, None)
      | None =>
          match reserve spec with
          | Some errJobDone => (Ack, None)
          | Some errJobRunning => (Ack, None)
          | Some errStopping => (Nak, None)
          | None => (Ack, Some spec)
          end
      end
  end.

(** [RunScheduled] up to the reservation: the spec of a fired entry. *)
Definition scheduledSpec (jobID entryID kind payload : bytes) : option JobSpec :=
  let spec := {| JobID := []; Kind := kind; Shell := []; js_Body := []; TimeoutS := 0;
                 js_Env := ∅; RequestedBy := []; EntryID := [] |} in
  match (if bool_decide (payload = []) then Some spec else unmarshalSpec spec payload) with
  | None => None
  | Some spec =>
      Some {| JobID := jobID;
              Kind := if bool_decide (Kind spec = []) then kind else Kind spec;
              Shell := Shell spec; js_Body := js_Body spec; TimeoutS := TimeoutS spec;
              js_Env := js_Env spec;
              RequestedBy := if bool_decide (RequestedBy spec = [])
                             then str "schedule:" ++ entryID else RequestedBy spec;
              EntryID := entryID |}
  end.
End decode.

(** ** Shutdown (inflight.go) *)

Definition reportInterruptedSpec (spec : JobSpec) : list event :=
  [EvStderr spec (str "everwas-agent: the agent stopped before this job finished" ++ [nl]);
   publishResult spec (plainResult StatusCancelled (-1))].

Definition reportInterrupted (r : registry) (jobID : bytes) : list event :=
  let spec := match inflight r !! jobID with
              | Some h => h_spec h
              | None => {| JobID := jobID; Kind := []; Shell := []; js_Body := []; TimeoutS := 0;
                           js_Env := ∅; RequestedBy := []; EntryID := [] |}
              end in
  reportInterruptedSpec spec.

(** The end of [drainJobs]: what is still running when both graces are
    over. *)
Definition drainReport (r : registry) : list event := flat_map (reportInterrupted r) (RunningJobs r).

(** ** Ends of jobs the runner does not execute (jobs.go) *)

Definition jobPanicked (spec : JobSpec) (cause : bytes) : list event :=
  [EvStderr spec (str "everwas-agent: job failed with an internal error: " ++ cause ++ [nl]);
   publishResult spec (plainResult StatusFailed (-1));
   EvAudit (str "job.panicked") (JobID spec)].

Definition with_duration (ms : Z) (r : Scripts.Result) : Scripts.Result :=
  {| jr_Status := jr_Status r; jr_ExitCode := jr_ExitCode r; jr_DurationMS := ms;
     jr_Truncated := jr_Truncated r; jr_EntryID := jr_EntryID r; jr_UpdatedTo := jr_UpdatedTo r;
     jr_Finalizing := jr_Finalizing r |}.

(** [refresh]: [None] when no refresh is wired, else whether it succeeded. *)
Definition runInventoryRefresh (spec : JobSpec) (refresh : option bool) (ms : Z) : list event :=
  let res := match refresh with
             | None => plainResult StatusFailed (-1)
             | Some false => plainResult StatusFailed (-1)
             | Some true => plainResult StatusSucceeded 0
             end in
  [EvProgress (JobID spec) 0 PhaseStarted (Kind spec);
   EvProgress (JobID spec) 100 PhaseFinished (jr_Status res);
   publishResult spec (with_duration ms res)].

Definition unsupportedJob (version : bytes) (spec : JobSpec) : list event :=
  let note := str "job kind " ++ Kind spec ++ str " is not supported by agent " ++ version in
  [EvProgress (JobID spec) 0 PhaseStarted (Kind spec);
   EvStderr spec (str "everwas-agent: " ++ note ++ [nl]);
   EvProgress (JobID spec) 100 PhaseFinished StatusFailed;
   publishResult spec (plainResult StatusFailed (-1));
   EvAudit (str "command.unsupported") (JobID spec)].

(** ** The agent.update job (update_wire.go) *)

Definition exitAlreadyCurrent : Z := 64.
Definition exitVersionDenied : Z := 65.
Definition exitFinalizePending : Z := 66.

Definition ErrDeadlineExceeded : error := Sentinel "context deadline exceeded".
Definition ErrCanceled : error := Sentinel "context canceled".

(** [errors.Is] through [*Error]. *)
Definition IsApply (e : option ApplyError) (target : error) : bool :=
  match e with
  | Some (StepErr _ e) | Some (Plain e) => Is e target
  | None => false
  end.

Definition updateResult (status : bytes) (exit : Z) (updatedTo : bytes) (finalizing : bool) :
    Scripts.Result :=
  {| jr_Status := status; jr_ExitCode := exit; jr_DurationMS := 0; jr_Truncated := false;
     jr_EntryID := []; jr_UpdatedTo := updatedTo; jr_Finalizing := finalizing |}.

(** [updateOutcome]: the wire result of the pipeline's pair. *)
Definition updateOutcome (current : bytes) (out : option Apply.Result) (err : option ApplyError) :
    Scripts.Result :=
  if IsApply err ErrAlreadyCurrent then updateResult StatusSucceeded exitAlreadyCurrent current false
  else if IsApply err ErrVersionDenied then updateResult StatusFailed exitVersionDenied [] false
  else if IsApply err ErrFinalizePending then updateResult StatusFailed exitFinalizePending [] false
  else if IsApply err ErrDeadlineExceeded then updateResult StatusTimeout (-1) [] false
  else if IsApply err ErrCanceled then updateResult StatusCancelled (-1) [] false
  else match err, out with
       | Some _, _ => updateResult StatusFailed (-1) [] false
       | None, None => updateResult StatusFailed (-1) [] false
       | None, Some out =>
           if res_Finalizing out then updateResult StatusSucceeded 0 (res_Version out) true
           else updateResult StatusSucceeded 0 (res_Version out) false
       end.

(** Its text; [text] is [err.Error()]. *)
Definition updateSummary (text : ApplyError -> bytes) (current version : bytes) (out : option Apply.Result)
    (err : option ApplyError) : bytes :=
  if IsApply err ErrAlreadyCurrent then str "agent update: already running " ++ current ++ str ", nothing to do"
  else if IsApply err ErrVersionDenied then
    str "agent update refused: this host rolled " ++ version ++ str " back already; send force to override"
  else if IsApply err ErrFinalizePending then str "agent update refused: a previous update is still finalizing"
  else if IsApply err ErrDeadlineExceeded then
    str "agent update timed out: " ++ match err with Some e => text e | None => [] end
  else if IsApply err ErrCanceled then str "agent update cancelled"
  else match err, out with
       | Some e, _ => str "agent update failed: " ++ text e
       | None, None => str "agent update failed: the update pipeline reported neither a result nor an error"
       | None, Some out =>
           if res_Finalizing out
           then str "agent update staged " ++ res_Version out ++ str "; a helper process (pid " ++
                Itoa (res_FinalizerPID out) ++
                str ") completes the swap after this one exits, so the host is still on " ++ current ++
                str " until it reports back"
           else str "agent update applied " ++ current ++ str " -> " ++ res_Version out ++ str "; restarting"
       end.

(** The fields that are pointers or functions are booleans: whether they are
    set.  [Apply] is the pipeline given to [Execute]. *)
Record UpdateDeps := {
  ud_StateDir : bytes;
  ud_Version : bytes;
  ud_Runner : bool;
  ud_Audit : bool;
  ud_Restart : bool;
  ud_Handoff : bool;
}.

(** [UpdateDeps.ready]: the error's text. *)
Definition ready (d : UpdateDeps) : option bytes :=
  if bool_decide (ud_StateDir d = []) then Some (str "self-update is not wired: no state dir")
  else if negb (ud_Restart d) then Some (str "self-update is not wired: no restart hook")
  else None.

Definition finish (d : UpdateDeps) (spec : JobSpec) (res : Scripts.Result) (summary : bytes)
    (ms : Z) (version : bytes) (out : option Apply.Result) : list event :=
  let res := with_duration ms res in
  (if ud_Runner d then [EvStderr spec (str "everwas-agent: " ++ summary ++ [nl])] else []) ++
  EvProgress (JobID spec) 100 PhaseFinished (jr_Status res) ::
  (if ud_Runner d then [publishResult spec res] else []) ++
  (if ud_Audit d then [EvAudit (str "agent.updated") (JobID spec)] else []) ++
  match out with
  | None => []
  | Some _ =>
      if negb (bool_decide (jr_Status res = StatusSucceeded)) then []
      else if jr_Finalizing res && ud_Handoff d
      then [EvHandoff (str "update finalizer is waiting to swap to " ++ version)]
      else if negb (jr_Finalizing res) && ud_Restart d then [EvRestart (str "updated to " ++ version)]
      else []
  end.

(** [UpdateDeps.Execute]; [parse] is the decoded request, or the text of the
    decoder's error, [apply] the pipeline run on it, [ms] how long it took. *)
Definition Execute (d : UpdateDeps) (spec : JobSpec) (parse : res bytes Request)
    (apply : Request -> Options -> option Apply.Result * option ApplyError) (text : ApplyError -> bytes) (ms : Z) :
    list event :=
  EvProgress (JobID spec) 0 PhaseStarted (Kind spec) ::
  match parse with
  | Err msg => finish d spec (plainResult StatusFailed (-1)) (str "agent update: bad request payload: " ++ msg) ms [] None
  | Ok req =>
      match ready d with
      | Some msg => finish d spec (plainResult StatusFailed (-1)) (str "agent update: " ++ msg) ms (req_Version req) None
      | None =>
          EvProgress (JobID spec) 10 PhaseRunning (str "downloading " ++ req_Version req) ::
          let '(out, err) := apply req {| opt_StateDir := ud_StateDir d; opt_TargetPath := [];
                                          opt_CurrentVersion := ud_Version d; opt_Downloader := None |} in
          finish d spec (updateOutcome (ud_Version d) out err)
            (updateSummary text (ud_Version d) (req_Version req) out err) ms (req_Version req) out
      end
  end.

(** [runAgentUpdate]: what the module adds to the dependencies it was given. *)
Definition updateDepsOf (scripts audit : bool) (version : bytes) (d : UpdateDeps) : UpdateDeps :=
  {| ud_StateDir := ud_StateDir d;
     ud_Version := if bool_decide (ud_Version d = []) then version else ud_Version d;
     ud_Runner := ud_Runner d || scripts; ud_Audit := ud_Audit d || audit;
     ud_Restart := ud_Restart d; ud_Handoff := ud_Handoff d |}.

(** ** Commands (commands.go) *)

Record reply := {
  rp_Accepted : bool;
  rp_JobID : bytes;
  rp_Error : bytes;
  rp_Cancelled : option bool;
}.

Definition refuse (jobID msg : bytes) : reply :=
  {| rp_Accepted := false; rp_JobID := jobID; rp_Error := msg; rp_Cancelled := None |}.

(** [cmdJobCancel] on a decoded request, or the text of the decoder's error. *)
Definition cmdJobCancel (scripts : bytes -> bool) (req : res bytes bytes) (r : registry) :
    registry * reply * list event :=
  match req with
  | Err msg => (r, refuse [] (str "bad job.cancel payload: " ++ msg), [])
  | Ok jobID =>
      let '(r, cancelled) := CancelJob scripts jobID r in
      if negb cancelled
      then (r, {| rp_Accepted := false; rp_JobID := jobID; rp_Error := str "job not running";
                  rp_Cancelled := Some false |}, [])
      else (r, {| rp_Accepted := true; rp_JobID := jobID; rp_Error := []; rp_Cancelled := Some true |},
            [EvAudit (str "job.cancelled") jobID])
  end.

(** The text of a refused reservation. *)
Definition reserveText (e : reserveErr) : bytes :=
  match e with
  | errJobRunning => str "job is already running"
  | errJobDone => str "job has already run"
  | errStopping => str "agent is shutting down"
  end.

(** [cmdAgentUpdate]: the registry it leaves, the reply, and the spec handed to
    the job goroutine when it is accepted; no reply while it waits for a slot.
    [text] is [err.Error()]. *)
Definition cmdAgentUpdate (text : error -> bytes) (d : UpdateDeps) (req : res bytes (bytes * bytes)) (data : bytes)
    (others : registry -> registry) (alt : bool) (r : registry) : registry * option (reply * option JobSpec) :=
  match req with
  | Err msg => (r, Some (refuse [] (str "bad agent.update payload: " ++ msg), None))
  | Ok (jobID, requestedBy) =>
      match CheckIdentifier (str "job_id") jobID with
      | Some err => (r, Some (refuse [] (text err), None))
      | None =>
          match ready d with
          | Some msg => (r, Some (refuse jobID msg, None))
          | None =>
            let slot := {| JobID := jobID; Kind := KindAgentUpdate; Shell := []; js_Body := [];
                           TimeoutS := 0; js_Env := ∅; RequestedBy := []; EntryID := [] |} in
            match reserve others alt slot r with
            | (r, None) => (r, None)
            | (r, Some (inl err)) => (r, Some (refuse jobID (reserveText err), None))
            | (r, Some (inr _)) =>
                (r, Some
                ({| rp_Accepted := true; rp_JobID := jobID; rp_Error := []; rp_Cancelled := None |},
                 Some {| JobID := jobID; Kind := KindAgentUpdate; Shell := []; js_Body := data;
                         TimeoutS := 0; js_Env := ∅; RequestedBy := requestedBy; EntryID := [] |}))
            end
          end
      end
  end.

(** ** Theorems *)

(** The terminal results a handler publishes. *)
Definition resultsOf (evs : list event) : list (bytes * Scripts.Result) :=
  omap (fun e => match e with EvResult id r => Some (id, r) | _ => None end) evs.

Lemma resultsOf_app a b : resultsOf (a ++ b) = resultsOf a ++ resultsOf b.
Proof. apply omap_app. Qed.

Section decode_claims.
Context (unmarshalEnvelope : bytes -> option Envelope).
Context (unmarshalSpec : JobSpec -> bytes -> option JobSpec).

(** What becomes of a delivered job.  A message is terminated exactly
    when it does not decode or its job id cannot be a subject token; it is
    left for the next process exactly when the agent is stopping; it is
    acknowledged otherwise, and a job that starts always has a usable id. *)
Theorem handleJob_disposes_of_every_message raw reserve :
  let h := handleJob unmarshalEnvelope unmarshalSpec raw reserve in
  let job := decodeJob unmarshalEnvelope unmarshalSpec raw in
  (h.1 = Term <-> match job with Some spec => ValidIdentifier (JobID spec) ≠ None | None => True end) /\
  (h.1 = Nak <-> exists spec, job = Some spec /\ ValidIdentifier (JobID spec) = None /\
                  reserve spec = Some errStopping) /\
  (forall spec, h.2 = Some spec <->
     job = Some spec /\ ValidIdentifier (JobID spec) = None /\ reserve spec = None) /\
  (is_Some h.2 -> h.1 = Ack).
Proof.
  cbv zeta. unfold handleJob, CheckIdentifier.
  destruct (decodeJob unmarshalEnvelope unmarshalSpec raw) as [spec|]; cbn [fst snd].
  2: { split_and!; [done|split; [done|by intros (? & ? & _)]|intros; split; [done|by intros []]|by intros []]. }
  destruct (ValidIdentifier (JobID spec)) as [e|] eqn:Hv; cbn [fst snd].
  { split_and!; [done|split; [done|intros (? & [= <-] & ? & _); congruence]| |by intros []].
    intros spec'. split; [done|]. intros ([= <-] & ? & _). congruence. }
  destruct (reserve spec) as [[]|] eqn:Hr; cbn [fst snd];
    (split_and!; [split; congruence
      |split; [intros; try discriminate; eauto|intros (? & [= <-] & _ & ?); congruence]
      |intros spec'; split; [intros; try discriminate|intros ([= <-] & _ & ?); congruence]
      |try done; by intros []]).
  by injection H as <-.
Qed.

(** A scheduled run is attributed to its schedule.  Whatever the
    server-supplied payload says, the job carries the scheduler's job id and
    entry id; it has a requester; and its kind is the payload's only when
    the payload names one. *)
Theorem scheduled_spec_is_attributed jobID entryID kind payload spec :
  scheduledSpec unmarshalSpec jobID entryID kind payload = Some spec ->
  JobID spec = jobID /\ EntryID spec = entryID /\ RequestedBy spec ≠ [] /\
  (payload = [] -> Kind spec = kind /\ RequestedBy spec = str "schedule:" ++ entryID) /\
  (Kind spec = [] -> kind = []).
Proof.
  unfold scheduledSpec. case_bool_decide as Hp.
  - intros [= <-]. cbn. split_and!; try done; [by case_bool_decide|]. by case_bool_decide.
  - destruct (unmarshalSpec _ payload) as [s|]; [|done]. intros [= <-].
    cbn [JobID EntryID RequestedBy Kind]. split_and!; try done.
    + case_bool_decide; done.
    + case_bool_decide; done.
Qed.
End decode_claims.

(** *** Shutdown *)

Lemma reachable_ids s id h :
  reachable s -> inflight (reg s) !! id = Some h -> JobID (h_spec h) = id.
Proof.
  intros Hr Hh. pose proof (reachable_inv s Hr) as Hinv.
  destruct (inv_owned s Hinv id h Hh) as (i & t & Hi & Ht & <-).
  destruct (inv_registered s Hinv i t Hi Ht) as (h' & Hh' & Hs). replace h with h' by congruence.
  unfold tid_of. by rewrite Hs.
Qed.

(** A shutdown leaves no job without an end.  Whatever is still running
    when both graces are over is reported exactly once: one cancelled result
    per registry entry, under its job id and carrying the schedule entry it
    belongs to, and nothing else is reported. *)
Theorem drain_reports_every_running_job s :
  reachable s ->
  resultsOf (drainReport (reg s)) ≡ₚ
  map (fun x => (x.1, with_entry (EntryID (h_spec x.2)) (plainResult StatusCancelled (-1))))
      (map_to_list (inflight (reg s))).
Proof.
  intros Hr. unfold drainReport, RunningJobs.
  assert (Hone : forall ids, (forall id, id ∈ ids -> is_Some (inflight (reg s) !! id)) ->
    resultsOf (flat_map (reportInterrupted (reg s)) ids) =
    omap (fun id => match inflight (reg s) !! id with
                    | Some h => Some (id, with_entry (EntryID (h_spec h)) (plainResult StatusCancelled (-1)))
                    | None => None end) ids).
  { induction ids as [|id ids IH]; intros Hall; [done|]. cbn [flat_map]. rewrite resultsOf_app, IH
      by (intros; apply Hall; by right).
    destruct (Hall id (list_elem_of_here _ _)) as [h Hh]. cbn [omap list_omap]. rewrite Hh.
    unfold reportInterrupted. rewrite Hh. cbn. by rewrite (reachable_ids s id h Hr Hh). }
  rewrite Hone.
  2: { intros id Hid. rewrite sortStrings_perm, list_elem_of_fmap in Hid.
       destruct Hid as ([k h] & -> & Hkh). apply elem_of_map_to_list in Hkh. eauto. }
  rewrite sortStrings_perm.
  assert (Hgen : forall l : list (bytes * jobHandle),
    (forall k h, (k, h) ∈ l -> inflight (reg s) !! k = Some h) ->
    omap (fun id => match inflight (reg s) !! id with
                    | Some h => Some (id, with_entry (EntryID (h_spec h)) (plainResult StatusCancelled (-1)))
                    | None => None end) (map fst l) =
    map (fun x => (x.1, with_entry (EntryID (h_spec x.2)) (plainResult StatusCancelled (-1)))) l).
  { induction l as [|[k h] l IH]; intros Hall; [done|]. cbn [map omap list_omap fst snd].
    rewrite (Hall k h) by by left. f_equal. apply IH. intros. apply Hall. by right. }
  rewrite Hgen; [done|]. intros k h Hkh. by apply elem_of_map_to_list.
Qed.

(** *** The update job *)

(** The pipeline's pair as Go returns it: a result or an error. *)
Definition goPair (r : res ApplyError Apply.Result) : option Apply.Result * option ApplyError :=
  match r with Ok out => (Some out, None) | Err e => (None, Some e) end.

Definition exits (e : event) : Prop := match e with EvRestart _ | EvHandoff _ => True | _ => False end.

(** What [finish] publishes before anything that ends the process. *)
Lemma finish_shape d spec res summary ms version out :
  ud_Runner d = true ->
  exists pre, finish d spec res summary ms version out = pre ++
    match out with
    | Some _ =>
        if negb (bool_decide (jr_Status res = StatusSucceeded)) then []
        else if jr_Finalizing res && ud_Handoff d
        then [EvHandoff (str "update finalizer is waiting to swap to " ++ version)]
        else if negb (jr_Finalizing res) && ud_Restart d then [EvRestart (str "updated to " ++ version)] else []
    | None => []
    end /\
  resultsOf pre = [(JobID spec, with_entry (EntryID spec) (with_duration ms res))] /\ Forall (fun e => ~ exits e) pre.
Proof.
  intros Hr. unfold finish. rewrite Hr. cbn [app].
  exists ([EvStderr spec (str "everwas-agent: " ++ summary ++ [nl]);
           EvProgress (JobID spec) 100 PhaseFinished (jr_Status (with_duration ms res));
           publishResult spec (with_duration ms res)] ++
          (if ud_Audit d then [EvAudit (str "agent.updated") (JobID spec)] else [])).
  split; [by rewrite <- app_assoc|]. split; [|destruct (ud_Audit d); repeat constructor; by intros []].
  rewrite resultsOf_app. by destruct (ud_Audit d).
Qed.

(** The process exits only over an update that happened, and only after
    saying so.  Every run of the job publishes exactly one terminal result.  A
    restart is requested exactly when the hook is wired and the pipeline
    completed the swap in process, a handoff exactly when it left the swap to
    the helper (and that hook is wired); and whichever it is comes last, after
    a succeeded result naming the new version. *)
Theorem update_exits_only_after_reporting d spec parse f text ms :
  ud_Runner d = true ->
  let evs := Execute d spec parse (fun req opts => goPair (f req opts)) text ms in
  length (resultsOf evs) = 1%nat /\
  (Exists exits evs ->
     exists req out pre last, parse = Ok req /\ ready d = None /\
       f req {| opt_StateDir := ud_StateDir d; opt_TargetPath := [];
                opt_CurrentVersion := ud_Version d; opt_Downloader := None |} = Ok out /\
       evs = pre ++ [last] /\
       last = (if res_Finalizing out then EvHandoff (str "update finalizer is waiting to swap to " ++ req_Version req)
               else EvRestart (str "updated to " ++ req_Version req)) /\
       resultsOf pre = [(JobID spec,
         with_entry (EntryID spec) (with_duration ms
           (updateResult StatusSucceeded 0 (res_Version out) (res_Finalizing out))))]).
Proof.
  intros Hr. cbv zeta. unfold Execute.
  assert (Hno : forall front res summary version, Forall (fun e => ~ exits e) front -> resultsOf front = [] ->
    let evs := front ++ finish d spec res summary ms version None in length (resultsOf evs) = 1%nat /\ ~ Exists exits evs).
  { intros front res summary version Hf Hz. destruct (finish_shape d spec res summary ms version None Hr) as (pre & -> & Hp & Hq).
    cbv zeta. rewrite app_nil_r, resultsOf_app, Hz, Hp. split; [done|]. apply Forall_not_Exists, Forall_app; by split. }
  destruct parse as [req|msg].
  2: { destruct (Hno [EvProgress (JobID spec) 0 PhaseStarted (Kind spec)] (plainResult StatusFailed (-1))
         (str "agent update: bad request payload: " ++ msg) []) as [H1 H2]; [by repeat constructor; intros []|done|].
       split; [exact H1|]. intros He. by destruct H2. }
  destruct (ready d) as [msg|] eqn:Hready.
  { destruct (Hno [EvProgress (JobID spec) 0 PhaseStarted (Kind spec)] (plainResult StatusFailed (-1))
      (str "agent update: " ++ msg) (req_Version req)) as [H1 H2]; [by repeat constructor; intros []|done|].
    split; [exact H1|]. intros He. by destruct H2. }
  set (front := [EvProgress (JobID spec) 0 PhaseStarted (Kind spec);
    EvProgress (JobID spec) 10 PhaseRunning (str "downloading " ++ req_Version req)]).
  assert (Hfront : Forall (fun e => ~ exits e) front) by (by repeat constructor; intros []).
  destruct (f req _) as [out|e] eqn:Hf; cbn [goPair].
  2: { match goal with |- context [finish d spec ?res ?sm ms ?v None] => destruct (Hno front res sm v) as [H1 H2] end; [done|done|].
       split; [exact H1|]. intros He. by destruct H2. }
  match goal with |- context [finish d spec ?res ?sm ms ?v (Some out)] =>
    destruct (finish_shape d spec res sm ms v (Some out) Hr) as (pre & -> & Hp & Hq) end.
  assert (Hrestart : ud_Restart d = true).
  { unfold ready in Hready. case_bool_decide; [done|]. by destruct (ud_Restart d). }
  change (EvProgress (JobID spec) 0 PhaseStarted (Kind spec) ::
    EvProgress (JobID spec) 10 PhaseRunning (str "downloading " ++ req_Version req) :: ?x) with (front ++ x).
  match goal with |- context [front ++ pre ++ ?x] => set (tail := x) end.
  assert (Htail : resultsOf tail = []) by (unfold tail; repeat case_match; done).
  rewrite !resultsOf_app, Hp, Htail. split; [done|]. intros He.
  assert (Hout : updateOutcome (ud_Version d) (Some out) None =
    updateResult StatusSucceeded 0 (res_Version out) (res_Finalizing out)).
  { unfold updateOutcome. cbn [IsApply]. by destruct (res_Finalizing out). }
  unfold tail in *. clear tail Htail. rewrite Hout in *. cbn [updateResult jr_Status jr_Finalizing] in *.
  rewrite bool_decide_eq_true_2 in * by done. destruct (res_Finalizing out) eqn:Hfin; cbn [negb andb] in *.
  - destruct (ud_Handoff d) eqn:Hh; cbn [andb] in *.
    + exists req, out, (front ++ pre), (EvHandoff (str "update finalizer is waiting to swap to " ++ req_Version req)).
      by rewrite Hfin.
    + exfalso. rewrite app_nil_r in He. revert He. apply Forall_not_Exists, Forall_app; by split.
  - rewrite Hrestart. exists req, out, (front ++ pre), (EvRestart (str "updated to " ++ req_Version req)).
    by rewrite Hfin.
Qed.

(** Cancelling reaches every kind of job.  The reply says the job was
    cancelled exactly when it is in the registry or the script runner knows
    it; a registered job's context is cancelled, nothing else of the registry
    changes, and an audit event is emitted exactly for an accepted cancel. *)
Theorem cancel_reaches_registered_jobs scripts jobID r :
  let '(r', rep, evs) := cmdJobCancel scripts (Ok jobID) r in
  (rp_Accepted rep = true <-> is_Some (inflight r !! jobID) \/ scripts jobID = true) /\
  (forall h, inflight r !! jobID = Some h -> ctx_done r' (h_ctx h) = true) /\
  inflight r' = inflight r /\ slots r' = slots r /\ done r' = done r /\
  evs = (if rp_Accepted rep then [EvAudit (str "job.cancelled") jobID] else []).
Proof.
  unfold cmdJobCancel, CancelJob. destruct (inflight r !! jobID) as [h|] eqn:E.
  - rewrite orb_true_r. cbn. split_and!; try done.
    + split; [by left; eauto | done].
    + intros h' [= <-]. unfold ctx_done. cbn. apply bool_decide_eq_true_2. set_solver.
  - rewrite orb_false_r. destruct (scripts jobID) eqn:Es; cbn; split_and!; try done.
    + split; [by right | done].
    + split; [done|]. intros [[h Hh]|?]; done.
Qed.

(** *** Witnesses *)

Lemma scheduled_spec_is_attributed_witness :
  exists spec, scheduledSpec (fun _ _ => None) (str "id") (str "e1") (str "script.run") [] = Some spec /\
    EntryID spec = str "e1".
Proof.
  eexists. split; [reflexivity|].
  apply (scheduled_spec_is_attributed (fun _ _ => None) (str "id") (str "e1") (str "script.run") []).
  reflexivity.
Defined.

Lemma drain_reports_every_running_job_witness :
  resultsOf (drainReport (reg demo_sys)) ≡ₚ
  [(str "j2", with_entry [] (plainResult StatusCancelled (-1)))].
Proof. exact (drain_reports_every_running_job demo_sys demo_reachable). Defined.

Lemma handleJob_disposes_of_every_message_witness :
  (handleJob (fun _ => None) (fun s _ => Some (demo_spec (str ">"))) (str "{}") (fun _ => None)).1 = Term.
Proof.
  apply (handleJob_disposes_of_every_message (fun _ => None) (fun s _ => Some (demo_spec (str ">")))
    (str "{}") (fun _ => None)).
  vm_compute. discriminate.
Defined.

Lemma update_exits_only_after_reporting_witness :
  let d := {| ud_StateDir := str "/s"; ud_Version := str "1"; ud_Runner := true; ud_Audit := true;
              ud_Restart := true; ud_Handoff := false |} in
  let out := {| res_Version := str "2"; res_Target := []; res_Backup := []; res_StagedPath := [];
                res_Bytes := 1; res_Finalizing := false; res_FinalizerPID := 0; res_Status := [] |} in
  let evs := Execute d (demo_spec (str "u")) (Ok (demo_req [])) (fun _ _ => goPair (Ok out)) (fun _ => []) 5 in
  exists pre last, evs = pre ++ [last] /\ last = EvRestart (str "updated to " ++ req_Version (demo_req [])).
Proof.
  intros d out evs.
  destruct (proj2 (update_exits_only_after_reporting d (demo_spec (str "u")) (Ok (demo_req []))
    (fun _ _ => Ok out) (fun _ => []) 5 eq_refl)) as (req & out' & pre & last & Hq & _ & Hf & He & Hl & _).
  - repeat first [apply Exists_cons_hd; exact I | apply Exists_cons_tl].
  - exists pre, last. split; [exact He|]. injection Hf as <-. injection Hq as <-. exact Hl.
Defined.
