(* ===== verification/Heap.v ===== *)
(** * Heap: the scheduler's queue of pending fires
    (agent/internal/sched/heap.go over container/heap)

    [fireHeap] implements [heap.Interface]; the sifting loops of the standard
    library are transcribed, and proved to keep the heap ordered by the time
    an item is to run, to lose and invent nothing, and to deliver the
    earliest. *)
From S2P Require Import Prelude GoLib.

Record fireItem := {
  it_entryID : bytes;
  it_base : Z;
  it_at : Z;
}.

Abbreviation fireHeap := (list fireItem).

#[global] Instance fireItem_eq_dec : EqDecision fireItem.
Proof. solve_decision. Defined.

Definition zeroItem : fireItem := {| it_entryID := []; it_base := zero_time; it_at := zero_time |}.

Definition get (h : fireHeap) (i : nat) : fireItem := nth i h zeroItem.

Definition Less (h : fireHeap) (i j : nat) : bool := Before (it_at (get h i)) (it_at (get h j)).

Definition Swap (h : fireHeap) (i j : nat) : fireHeap := <[i := get h j]> (<[j := get h i]> h).

Definition peek (h : fireHeap) : option fireItem :=
  match h with [] => None | it :: _ => Some it end.

(** ** container/heap *)

(** [up(h, j)]; each round at least halves [j]. *)
Fixpoint up (fuel : nat) (h : fireHeap) (j : nat) : fireHeap :=
  match fuel with
  | O => h
  | S fuel' =>
      let i := ((j - 1) / 2)%nat in
      if (i =? j)%nat || negb (Less h j i) then h
      else up fuel' (Swap h i j) i
  end.

(** [down(h, i, n)]; each round moves to a child. *)
Fixpoint down (fuel : nat) (h : fireHeap) (i n : nat) : fireHeap :=
  match fuel with
  | O => h
  | S fuel' =>
      let j1 := (2 * i + 1)%nat in
      if (n <=? j1)%nat then h
      else
        let j2 := (j1 + 1)%nat in
        let j := if (j2 <? n)%nat && Less h j2 j1 then j2 else j1 in
        if negb (Less h j i) then h
        else down fuel' (Swap h i j) j n
  end.

(** [heap.Push] *)
Definition Push (h : fireHeap) (x : fireItem) : fireHeap :=
  let h := h ++ [x] in
  up (length h) h (length h - 1).

(** [heap.Pop]: what is left, and what was removed. *)
Definition Pop (h : fireHeap) : fireHeap * fireItem :=
  let n := (length h - 1)%nat in
  let h := down (length h) (Swap h 0 n) 0 n in
  (take n h, get h n).

(** The loop of [heap.Init], from [i - 1] down to 0. *)
Fixpoint heapify (h : fireHeap) (i : nat) : fireHeap :=
  match i with
  | O => h
  | S i' => heapify (down (length h) h i' (length h)) i'
  end.

(** [heap.Init] *)
Definition Init (h : fireHeap) : fireHeap := heapify h (length h / 2).

(** ** Order *)

Definition key (h : fireHeap) (i : nat) : Z := it_at (get h i).

Definition parent (k : nat) : nat := ((k - 1) / 2)%nat.

(** Every item of the first [n] runs no earlier than its parent, for parents
    from [lo] on. *)
Definition heap_from (lo n : nat) (h : fireHeap) : Prop :=
  forall k, (0 < k < n)%nat -> (lo <= parent k)%nat -> key h (parent k) <= key h k.

Definition is_heap (h : fireHeap) : Prop := heap_from 0 (length h) h.

Lemma parent_spec k : (0 < k)%nat -> (k = 2 * parent k + 1 \/ k = 2 * parent k + 2)%nat.
Proof.
  intros Hk. unfold parent. pose proof (Nat.div_mod_eq (k - 1) 2) as Hd.
  pose proof (Nat.mod_upper_bound (k - 1) 2 ltac:(lia)). lia.
Qed.

Lemma parent_lt k : (0 < k)%nat -> (parent k < k)%nat.
Proof. intros Hk. destruct (parent_spec k Hk); lia. Qed.

Lemma Swap_length h i j : length (Swap h i j) = length h.
Proof. unfold Swap. by rewrite !length_insert. Qed.

Lemma get_insert h i x k :
  (i < length h)%nat -> get (<[i := x]> h) k = if decide (k = i) then x else get h k.
Proof.
  intros Hi. unfold get. case_decide as Hk.
  - subst. apply nth_lookup_Some. by apply list_lookup_insert_eq.
  - rewrite !nth_lookup. by rewrite list_lookup_insert_ne.
Qed.

Lemma key_Swap h i j k :
  (i < length h)%nat -> (j < length h)%nat ->
  key (Swap h i j) k = if decide (k = i) then key h j else if decide (k = j) then key h i else key h k.
Proof.
  intros Hi Hj. unfold key, Swap. rewrite get_insert by (by rewrite length_insert).
  case_decide; [done|]. rewrite get_insert by done. by case_decide.
Qed.

Lemma insert_perm (t : fireHeap) j x y : t !! j = Some y -> y :: <[j := x]> t ≡ₚ x :: t.
Proof.
  revert j. induction t as [|z t IH]; intros [|j] Hj; simplify_eq/=; [apply Permutation_swap|].
  rewrite (Permutation_swap z y), IH by done. apply Permutation_swap.
Qed.

Lemma swap_perm (h : fireHeap) i j x y :
  i ≠ j -> h !! i = Some x -> h !! j = Some y -> <[i := y]> (<[j := x]> h) ≡ₚ h.
Proof.
  revert i j. induction h as [|z h IH]; intros [|i] [|j] Hne Hi Hj; simplify_eq/=.
  - by apply insert_perm.
  - by apply insert_perm.
  - constructor. apply IH; congruence.
Qed.

Lemma Swap_perm h i j : (i < length h)%nat -> (j < length h)%nat -> Swap h i j ≡ₚ h.
Proof.
  intros Hi Hj. unfold Swap, get.
  destruct (lookup_lt_is_Some_2 h i Hi) as [x Hx]. destruct (lookup_lt_is_Some_2 h j Hj) as [y Hy].
  rewrite (nth_lookup_Some h i zeroItem x Hx), (nth_lookup_Some h j zeroItem y Hy).
  destruct (decide (i = j)) as [->|Hne]; [|by apply swap_perm].
  replace y with x by congruence. rewrite list_insert_insert_eq. by rewrite list_insert_id.
Qed.

(** *** Sifting up *)

(** Ordered but for the item at [j], which may be too early. *)
Definition heap_up (n j : nat) (h : fireHeap) : Prop :=
  (forall k, (0 < k < n)%nat -> k ≠ j -> key h (parent k) <= key h k) /\
  (forall k, (0 < k < n)%nat -> parent k = j -> (0 < j)%nat -> key h (parent j) <= key h k).

Lemma Less_spec h i j : Less h i j = true <-> key h i < key h j.
Proof. unfold Less, Before, key. apply Z.ltb_lt. Qed.

Lemma up_spec fuel h j :
  (j < length h)%nat -> (j < fuel)%nat -> heap_up (length h) j h ->
  is_heap (up fuel h j) /\ up fuel h j ≡ₚ h /\ length (up fuel h j) = length h.
Proof.
  revert h j. induction fuel as [|fuel IH]; intros h j Hj Hf [H1 H2]; [lia|]. cbn [up].
  change ((j - 1) / 2)%nat with (parent j).
  destruct (Nat.eqb_spec (parent j) j) as [Ej|Ej]; cbn [orb].
  { assert (j = 0)%nat as -> by (destruct (decide (0 < j)%nat) as [Hp|]; [pose proof (parent_lt j Hp)|]; lia).
    split_and!; [|done|done]. intros k Hk _. apply H1; lia. }
  assert (Hj0 : (0 < j)%nat) by (destruct j; [done|lia]).
  pose proof (parent_lt j Hj0) as Hpj.
  destruct (Less h j (parent j)) eqn:El; cbn [negb].
  - apply Less_spec in El.
    assert (Hkey := key_Swap h (parent j) j). 
    destruct (IH (Swap h (parent j) j) (parent j)) as (A & B & C); rewrite ?Swap_length; [lia|lia| |].
    + split.
      * intros k Hk Hne. rewrite !Hkey by lia. pose proof (parent_lt k ltac:(lia)).
        destruct (decide (k = parent j)) as [|]; [lia|].
        destruct (decide (k = j)) as [->|Hkj].
        { rewrite decide_True by done. lia. }
        destruct (decide (parent k = parent j)) as [Ep|Ep].
        { specialize (H1 k Hk Hkj). rewrite Ep in H1. lia. }
        destruct (decide (parent k = j)) as [Ep'|Ep']; [by apply H2 | by apply H1].
      * intros k Hk Hp Hp0. rewrite !Hkey by lia.
        pose proof (parent_lt (parent j) Hp0). pose proof (parent_lt k ltac:(lia)).
        destruct (decide (k = parent j)) as [|]; [lia|].
        rewrite (decide_False (P := parent (parent j) = parent j)) by lia.
        rewrite (decide_False (P := parent (parent j) = j)) by lia.
        assert (Hpp : key h (parent (parent j)) <= key h (parent j)) by (apply H1; lia).
        destruct (decide (k = j)) as [|Hkj]; [done|].
        specialize (H1 k Hk Hkj). rewrite Hp in H1. lia.
    + split_and!; [done| |by rewrite C, Swap_length]. rewrite B. apply Swap_perm; lia.
  - split_and!; [|done|done]. intros k Hk _. destruct (decide (k = j)) as [->|Hne]; [|by apply H1].
    destruct (Z.lt_ge_cases (key h j) (key h (parent j))) as [Hlt|]; [|done].
    apply Less_spec in Hlt. congruence.
Qed.

(** *** Sifting down *)

(** Ordered from [lo] on but for the item at [i], which may be too late. *)
Definition heap_down (lo n i : nat) (h : fireHeap) : Prop :=
  (forall k, (0 < k < n)%nat -> (lo <= parent k)%nat -> parent k ≠ i -> key h (parent k) <= key h k) /\
  (forall k, (0 < k < n)%nat -> parent k = i -> (0 < i)%nat -> (lo <= parent i)%nat ->
     key h (parent i) <= key h k).

Lemma children i k : (0 < k)%nat -> parent k = i <-> (k = 2 * i + 1 \/ k = 2 * i + 2)%nat.
Proof.
  intros Hk. split; [intros <-; by apply parent_spec|]. intros Hc.
  destruct (parent_spec k Hk); lia.
Qed.

(** The child [down] looks at is the earlier one. *)
Lemma down_child h i n :
  (2 * i + 1 < n)%nat ->
  let j := if (2 * i + 1 + 1 <? n)%nat && Less h (2 * i + 1 + 1) (2 * i + 1)
           then (2 * i + 1 + 1)%nat else (2 * i + 1)%nat in
  (j < n)%nat /\ parent j = i /\ (i < j)%nat /\
  forall k, (0 < k < n)%nat -> parent k = i -> key h j <= key h k.
Proof.
  intros Hn. cbv zeta.
  destruct (Nat.ltb_spec (2 * i + 1 + 1) n) as [H2|H2]; cbn [andb].
  - destruct (Less h (2 * i + 1 + 1) (2 * i + 1)) eqn:El.
    + apply Less_spec in El. split_and!; [lia|apply children; lia|lia|].
      intros k Hk Hp. rewrite children in Hp by lia. destruct Hp as [->| ->].
      * lia.
      * replace (2 * i + 2)%nat with (2 * i + 1 + 1)%nat by lia. lia.
    + assert (key h (2 * i + 1) <= key h (2 * i + 1 + 1)).
      { destruct (Z.lt_ge_cases (key h (2 * i + 1 + 1)) (key h (2 * i + 1))) as [Hlt|]; [|done].
        apply Less_spec in Hlt. congruence. }
      split_and!; [lia|apply children; lia|lia|].
      intros k Hk Hp. rewrite children in Hp by lia. destruct Hp as [->| ->].
      * lia.
      * replace (2 * i + 2)%nat with (2 * i + 1 + 1)%nat by lia. lia.
  - split_and!; [lia|apply children; lia|lia|].
    intros k Hk Hp. rewrite children in Hp by lia. destruct Hp as [->| ->]; lia.
Qed.

Lemma down_spec fuel h lo i n :
  (n <= length h)%nat -> (n <= fuel + i)%nat -> (lo <= i)%nat -> heap_down lo n i h ->
  heap_from lo n (down fuel h i n) /\ down fuel h i n ≡ₚ h /\ length (down fuel h i n) = length h /\
  forall k, (n <= k)%nat -> get (down fuel h i n) k = get h k.
Proof.
  revert h i. induction fuel as [|fuel IH]; intros h i Hn Hf Hlo [H1 H2].
  { cbn [down]. split_and!; [|done|done|done]. intros k Hk Hl. apply H1; [done|done|].
    pose proof (parent_lt k ltac:(lia)). lia. }
  cbn [down]. destruct (Nat.leb_spec n (2 * i + 1)) as [Hle|Hgt].
  { split_and!; [|done|done|done]. intros k Hk Hl. apply H1; [done|done|].
    intros Hp. rewrite children in Hp by lia. lia. }
  pose proof (down_child h i n Hgt) as Hchild. cbv zeta in Hchild.
  set (j := if _ && _ then _ else _) in *. destruct Hchild as (Hjn & Hpj & Hij & Hmin).
  destruct (Less h j i) eqn:El; cbn [negb].
  - apply Less_spec in El.
    assert (Hkey := fun k => key_Swap h i j k ltac:(lia) ltac:(lia)).
    destruct (IH (Swap h i j) j) as (A & B & C & D); rewrite ?Swap_length; [lia|lia|lia| |].
    + split.
      * intros k Hk Hl Hp. rewrite !Hkey. pose proof (parent_lt k ltac:(lia)) as Hpk.
        destruct (decide (k = i)) as [->|Hki].
        { rewrite (decide_False (P := parent i = i)), (decide_False (P := parent i = j)) by lia.
          apply H2; [lia|done|lia|done]. }
        destruct (decide (k = j)) as [->|Hkj]; [rewrite decide_True by done; lia|].
        destruct (decide (parent k = i)) as [Epi|Epi]; [by apply Hmin|].
        rewrite decide_False by done. by apply H1.
      * intros k Hk Hp Hj0 Hl. rewrite !Hkey, Hpj. rewrite decide_True by done.
        pose proof (parent_lt k ltac:(lia)).
        rewrite (decide_False (P := k = i)), (decide_False (P := k = j)) by lia.
        rewrite <- Hp. apply H1; [done|lia|lia].
    + split_and!; [done| |by rewrite C, Swap_length|].
      * rewrite B. apply Swap_perm; lia.
      * intros k Hk. rewrite D by done. unfold Swap.
        rewrite get_insert by (rewrite length_insert; lia). rewrite decide_False by lia.
        rewrite get_insert by lia. by rewrite decide_False by lia.
  - split_and!; [|done|done|done]. intros k Hk Hl.
    destruct (decide (parent k = i)) as [Ep|Ep]; [|by apply H1]. rewrite Ep.
    specialize (Hmin k Hk Ep).
    destruct (Z.lt_ge_cases (key h j) (key h i)) as [Hlt|]; [|lia].
    apply Less_spec in Hlt. congruence.
Qed.

(** ** The operations *)

Lemma Push_spec h x : is_heap h -> is_heap (Push h x) /\ Push h x ≡ₚ x :: h.
Proof.
  intros Hh. unfold Push. set (h' := h ++ [x]).
  assert (Hl : length h' = S (length h)) by (unfold h'; rewrite length_app; cbn; lia).
  assert (Hget : forall k, (k < length h)%nat -> key h' k = key h k).
  { intros k Hk. unfold key, get, h'. by rewrite app_nth1. }
  destruct (up_spec (length h') h' (length h' - 1)) as (A & B & _); [lia|lia| |].
  - split.
    + intros k Hk Hne. pose proof (parent_lt k ltac:(lia)). rewrite !Hget by lia. apply Hh; lia.
    + intros k Hk Hp. pose proof (parent_lt k ltac:(lia)). lia.
  - split; [done|]. rewrite B. unfold h'. by rewrite Permutation_app_comm.
Qed.

Lemma Pop_spec h : is_heap h -> h ≠ [] ->
  is_heap (Pop h).1 /\ h ≡ₚ (Pop h).2 :: (Pop h).1 /\ peek h = Some (Pop h).2.
Proof.
  intros Hh Hne. unfold Pop. set (n := (length h - 1)%nat).
  assert (Hl : (n < length h)%nat) by (destruct h; [done|]; unfold n; cbn; lia).
  destruct (down_spec (length h) (Swap h 0 n) 0 0 n) as (A & B & C & D);
    rewrite ?Swap_length; [lia|lia|lia| |].
  { split; [|lia]. intros k Hk _ Hp. rewrite !key_Swap by lia. pose proof (parent_lt k ltac:(lia)).
    rewrite !decide_False by lia. apply Hh; lia. }
  set (h' := down (length h) (Swap h 0 n) 0 n) in *. rewrite Swap_length in C. cbn [fst snd].
  assert (Hlast : get h' n = get h 0).
  { rewrite D by lia. unfold Swap. rewrite get_insert by (rewrite length_insert; lia).
    case_decide as E; [|rewrite get_insert by lia; by rewrite decide_True].
    rewrite <- E. done. }
  assert (Hlen : length (take n h') = n) by (rewrite length_take; lia).
  split_and!.
  - intros k Hk _. rewrite Hlen in Hk. pose proof (parent_lt k ltac:(lia)).
    assert (Htk : forall m, (m < n)%nat -> key (take n h') m = key h' m).
    { intros m Hm. unfold key, get. rewrite !nth_lookup. by rewrite lookup_take_lt. }
    rewrite !Htk by lia. apply A; lia.
  - rewrite <- (Swap_perm h 0 n) by lia. rewrite <- B.
    rewrite <- (take_drop n h') at 1. rewrite Permutation_app_comm.
    assert (drop n h' = [get h' n]) as ->; [|done].
    destruct (drop n h') as [|x [|y t]] eqn:E.
    + apply (f_equal length) in E. rewrite length_drop in E. cbn in E. lia.
    + unfold get. f_equal. symmetry. apply nth_lookup_Some.
      rewrite <- (Nat.add_0_r n), <- lookup_drop, E. done.
    + apply (f_equal length) in E. rewrite length_drop in E. cbn in E. lia.
  - rewrite Hlast. by destruct h.
Qed.

Lemma heapify_spec h i :
  (i <= length h)%nat -> heap_from i (length h) h ->
  is_heap (heapify h i) /\ heapify h i ≡ₚ h /\ length (heapify h i) = length h.
Proof.
  revert h. induction i as [|i IH]; intros h Hi Hh; cbn [heapify]; [done|].
  destruct (down_spec (length h) h i i (length h)) as (A & B & C & _); [lia|lia|lia| |].
  { split; [|intros k Hk Hp Hi0 Hl; pose proof (parent_lt i Hi0); lia].
    intros k Hk Hl Hp. apply Hh; [done|lia]. }
  destruct (IH (down (length h) h i (length h))) as (A' & B' & C'); rewrite ?C; [lia|done|].
  split_and!; [done|by rewrite B'|by rewrite C'].
Qed.

Lemma Init_spec h : is_heap (Init h) /\ Init h ≡ₚ h.
Proof.
  destruct (heapify_spec h (length h / 2)) as (A & B & _).
  - apply Nat.Div0.div_le_upper_bound. lia.
  - intros k Hk Hl. exfalso. pose proof (Nat.div_mod_eq (length h) 2).
    pose proof (Nat.mod_upper_bound (length h) 2 ltac:(lia)).
    destruct (parent_spec k ltac:(lia)); lia.
  - done.
Qed.

(** The root is the earliest item. *)
Lemma heap_min h it x : is_heap h -> peek h = Some it -> x ∈ h -> it_at it <= it_at x.
Proof.
  intros Hh Hp Hx. apply list_elem_of_lookup in Hx as [k Hk].
  assert (Hroot : forall m, (m < length h)%nat -> key h 0 <= key h m).
  { intros m. induction m as [m IH] using lt_wf_ind. intros Hm.
    destruct (decide (m = 0)%nat) as [->|Hm0]; [lia|].
    pose proof (parent_lt m ltac:(lia)). specialize (IH (parent m) ltac:(lia) ltac:(lia)).
    pose proof (Hh m ltac:(lia) ltac:(lia)). lia. }
  specialize (Hroot k (lookup_lt_Some _ _ _ Hk)). unfold key, get in Hroot.
  rewrite (nth_lookup_Some h k zeroItem x Hk) in Hroot. destruct h as [|y h]; [done|].
  cbn in Hp. injection Hp as <-. exact Hroot.
Qed.

(** C29: The queue of fires is a priority queue.  [heap.Init] orders any list,
    [heap.Push] and [heap.Pop] keep it ordered, none of them loses or invents
    an item, and what [peek] shows and [heap.Pop] removes is an item that
    runs no later than any other. *)
Theorem fireHeap_is_a_priority_queue h :
  (is_heap (Init h) /\ Init h ≡ₚ h) /\
  (is_heap h ->
     (forall x, is_heap (Push h x) /\ Push h x ≡ₚ x :: h) /\
     (h ≠ [] -> is_heap (Pop h).1 /\ h ≡ₚ (Pop h).2 :: (Pop h).1 /\ peek h = Some (Pop h).2 /\
        forall x, x ∈ h -> it_at (Pop h).2 <= it_at x)).
Proof.
  split; [apply Init_spec|]. intros Hh. split; [intros x; by apply Push_spec|].
  intros Hne. destruct (Pop_spec h Hh Hne) as (A & B & C). split_and!; try done.
  intros x Hx. by apply (heap_min h (Pop h).2 x Hh C Hx).
Qed.

Definition demo_item (n : Z) : fireItem := {| it_entryID := str "e"; it_base := n; it_at := n |}.

Lemma fireHeap_is_a_priority_queue_witness :
  let h := Init (map demo_item [5; 3; 9; 1; 4]) in
  (Pop h).2 = demo_item 1 /\ forall x, x ∈ h -> it_at (Pop h).2 <= it_at x.
Proof.
  intros h. split; [vm_compute; reflexivity|].
  apply (fireHeap_is_a_priority_queue h).
  - apply (fireHeap_is_a_priority_queue (map demo_item [5; 3; 9; 1; 4])).
  - vm_compute. discriminate.
Defined.
