(* ===== verification/Sched.v ===== *)
(** * Sched: the offline scheduler (agent/internal/sched)

    The schedule cache and its misfire bookkeeping (store.go, sched.go), the
    misfire policy (misfire.go), the deterministic jitter (jitter.go) and the
    loop that fires what is due.  The cron library and the time zone database
    are parameters: a parsed schedule is a function from an instant to the
    next fire after it, the zero time when there is none.  What the scheduler
    does to the outside is its list of [sev]s. *)
From S2P Require Import Prelude GoLib GoOS Env Tracker Wire Heap.

(** ** store.go *)

Record Entry := {
  e_EntryID : bytes;
  e_Cron : bytes;
  e_TZ : bytes;
  e_Kind : bytes;
  e_Payload : bytes;
  JitterS : Z;
  MisfireGraceS : Z;
  Enabled : bool;
}.

Record Document := {
  doc_Version : Z;
  doc_Entries : list Entry;
}.

Record state := {
  ScheduleVersion : Z;
  st_Entries : list Entry;
  LastFired : gmap bytes Z;
}.

Definition emptyState : state := {| ScheduleVersion := 0; st_Entries := []; LastFired := ∅ |}.

Definition FileName : bytes := str "schedule.json".

(** [json.RawMessage]: a value that is kept as its text.  Written out it is
    compacted, escaped and indented with what is around it, so it comes back
    as another text of the same value; an empty one is written as [null]. *)
Class RawMessage := {
  validRaw : bytes -> Prop;
  reformatted : bytes -> bytes;
  reformatted_valid : forall p, validRaw p -> validRaw (reformatted p);
  null_valid : validRaw (str "null");
}.

(** An entry as the decoder makes them. *)
Definition readEntry `{RawMessage} (e : Entry) : Prop :=
  Forall (fun x => utf8Text x = x) [e_EntryID e; e_Cron e; e_TZ e; e_Kind e] /\
  (e_Payload e = [] \/ validRaw (e_Payload e)).

Definition storedEntry `{RawMessage} (e : Entry) : Entry :=
  {| e_EntryID := utf8Text (e_EntryID e); e_Cron := utf8Text (e_Cron e); e_TZ := utf8Text (e_TZ e);
     e_Kind := utf8Text (e_Kind e);
     e_Payload := if bool_decide (e_Payload e = []) then str "null" else reformatted (e_Payload e);
     JitterS := JitterS e; MisfireGraceS := MisfireGraceS e; Enabled := Enabled e |}.

(** A map is written in the order of its keys; of two keys that read alike
    the later one counts. *)
Definition storeKey {A} (m m' : gmap bytes A) (k : bytes) : gmap bytes A :=
  match m !! k with Some v => <[utf8Text k := v]> m' | None => m' end.
Definition storedKeys {A} (m : gmap bytes A) : gmap bytes A :=
  fold_left (storeKey m) (sortStrings (map fst (map_to_list m))) ∅.

#[export] Instance state_encoding `{RawMessage} : Encoding state := {|
  stored st := {| ScheduleVersion := ScheduleVersion st; st_Entries := map storedEntry (st_Entries st);
                  LastFired := storedKeys (LastFired st) |};
  writable st := Forall (fun e => e_Payload e = [] \/ validRaw (e_Payload e)) (st_Entries st);
  decoded st := Forall readEntry (st_Entries st) /\ forall k, is_Some (LastFired st !! k) -> utf8Text k = k;
|}.

Section store.
Context {RM : RawMessage} {HJ : JSON state}.

(** [loadState] *)
Definition loadState (p : path) : io (res error state * state) :=
  let* r := ReadFile p in
  match r with
  | Err e => if Is e ErrNotExist then ret (Ok emptyState, emptyState) else ret (Err e, emptyState)
  | Ok raw =>
      match Unmarshal raw with
      | Some st => ret (Ok st, st)
      | None => ret (Err (Sentinel "bad schedule"), emptyState)
      end
  end.

(** [saveState] *)
Definition saveState (p : path) (st : state) : io (res error unit) :=
  try* _ := MkdirAll p in
  match MarshalIndent st with
  | None => ret (Err (Sentinel "encode schedule"))
  | Some raw => WriteRename p (raw ++ [nl]) 384 (fun e => e) (fun e => e)
  end.
End store.

(** ** jitter.go *)

Definition MisfireJitterS : Z := 60.

(** [fnv.New64]: FNV-1, 64 bits. *)
Definition fnv_offset : Z := 14695981039346656037.
Definition fnv_prime : Z := 1099511628211.
Definition fnv_write (h : Z) (s : bytes) : Z :=
  fold_left (fun h c => Z.lxor (wrapu64 (h * fnv_prime)) (code c)) s h.

Definition Jitter (agentID entryID : bytes) (jitterS : Z) : Z :=
  if jitterS <=? 0 then 0
  else
    let h := fnv_write (fnv_write fnv_offset agentID) entryID in
    wrap64 ((h mod jitterS) * Second).

(** ** misfire.go *)

Definition maxScan : nat := 20 * 1000.
Definition fireSlack : Z := 60 * Second.

Inductive misfireAction : Type := misfireNone | misfireRun | misfireSkip.

Definition decideMisfire (missedAt now graceS : Z) : misfireAction :=
  if IsZero missedAt then misfireNone
  else if graceS <=? 0 then misfireSkip
  else if Sub now missedAt <=? wrap64 (graceS * Second) then misfireRun
  else misfireSkip.

(** The loop of [lastMissed]. *)
Fixpoint scan (next : Z -> Z) (now : Z) (limit : nat) (last t : Z) (count : Z) : Z * Z :=
  match limit with
  | O => (last, count)
  | S limit' =>
      let n := next t in
      if IsZero n || negb (After n t) || After n now then (last, count)
      else scan next now limit' n n (count + 1)
  end.

Definition lastMissed (next : Z -> Z) (since now : Z) (scanLimit : nat) : Z * Z :=
  scan next now scanLimit zero_time since 0.

(** ** sched.go *)

Definition schedNamespace : list Z :=
  [6; 202; 222; 237; 138; 48; 80; 171; 135; 245; 122; 39; 176; 67; 186; 45].

Definition hexByte (z : Z) : bytes := HexEncode [chr z].
Definition hexBytes (zs : list Z) : bytes := flat_map hexByte zs.

(** [uuidV5]; [sha1] maps the hashed bytes to the digest's. *)
Definition uuidV5 (sha1 : list Z -> list Z) (ns : list Z) (name : bytes) : bytes :=
  let u := take 16 (sha1 (ns ++ map code name)) in
  let u := <[6%nat := Z.lor (Z.land (nth 6 u 0) 15) 80]> u in
  let u := <[8%nat := Z.lor (Z.land (nth 8 u 0) 63) 128]> u in
  hexBytes (take 4 u) ++ str "-" ++ hexBytes (take 2 (drop 4 u)) ++ str "-" ++
  hexBytes (take 2 (drop 6 u)) ++ str "-" ++ hexBytes (take 2 (drop 8 u)) ++ str "-" ++
  hexBytes (take 6 (drop 10 u)).

Record Rejection := { rj_EntryID : bytes; rj_Reason : bytes }.

(** What a scheduler does: persist its state, start a run, audit a skip, wake
    its run loop. *)
Inductive sev : Type :=
  | SvSave (st : state)
  | SvRun (jobID : bytes) (e : Entry) (fireAt : Z)
  | SvSkip (entryID : bytes) (missed : Z) (scheduledFor : Z) (lateBy : Z)
  | SvWake.   (** the run loop is told to rebuild *)

Record scheduler := {
  sc_st : state;
  sc_pq : fireHeap;
}.

Section scheduler.
Context {L : Type} (UTC : L) (LoadLocation : bytes -> option L).
Context (Parse : bytes -> option (L -> Z -> Z)).
Context (sha1 : list Z -> list Z) (agentID : bytes).

Definition JobID (entryID : bytes) (base : Z) : bytes :=
  uuidV5 sha1 schedNamespace (entryID ++ str ":" ++ Itoa (Unix base)).

(** [schedule]: the next-fire function of an entry in its time zone. *)
Definition schedule (e : Entry) : option (Z -> Z) :=
  match (if bool_decide (e_TZ e = []) then Some UTC else LoadLocation (e_TZ e)) with
  | None => None
  | Some loc => match Parse (e_Cron e) with Some sch => Some (sch loc) | None => None end
  end.

Definition with_pq (s : scheduler) (pq : fireHeap) : scheduler := {| sc_st := sc_st s; sc_pq := pq |}.

Definition entry (s : scheduler) (entryID : bytes) : option Entry :=
  match find (fun e => bool_decide (e_EntryID e = entryID)) (st_Entries (sc_st s)) with
  | Some e => if Enabled e then Some e else None
  | None => None
  end.

Definition markFired (entryID : bytes) (at_ : Z) (s : scheduler) : scheduler * list sev :=
  let st := {| ScheduleVersion := ScheduleVersion (sc_st s); st_Entries := st_Entries (sc_st s);
               LastFired := <[entryID := Unix at_]> (LastFired (sc_st s)) |} in
  ({| sc_st := st; sc_pq := sc_pq s |}, [SvSave st]).

Definition lastFired (s : scheduler) (entryID : bytes) : option Z :=
  match LastFired (sc_st s) !! entryID with Some ts => Some (UnixTime ts) | None => None end.

Definition itemFor (e : Entry) (now : Z) : option fireItem :=
  match schedule e with
  | None => None
  | Some next =>
      let base := next now in
      if IsZero base then None
      else Some {| it_entryID := e_EntryID e; it_base := base;
                   it_at := base + Jitter agentID (e_EntryID e) (JitterS e) |}
  end.

Definition push (e : Entry) (now : Z) (s : scheduler) : scheduler :=
  match itemFor e now with None => s | Some it => with_pq s (Push (sc_pq s) it) end.

Definition pop (s : scheduler) : scheduler :=
  match sc_pq s with [] => s | _ => with_pq s (Pop (sc_pq s)).1 end.

Definition tooLate (e : Entry) (item : fireItem) (now : Z) : bool :=
  if Sub now (it_at item) <=? fireSlack then false
  else match decideMisfire (it_base item) now (MisfireGraceS e) with misfireSkip => true | _ => false end.

Definition skipLate (e : Entry) (item : fireItem) (now : Z) (s : scheduler) : scheduler * list sev :=
  let '(s, evs) := markFired (e_EntryID e) (it_base item) s in
  (s, evs ++ [SvSkip (e_EntryID e) 1 (it_base item) (Z.quot (Sub now (it_base item)) Second)]).

Definition dispatch (e : Entry) (base : Z) (s : scheduler) : scheduler * list sev :=
  let jobID := JobID (e_EntryID e) base in
  let '(s, evs) := markFired (e_EntryID e) base s in
  (s, evs ++ [SvRun jobID e base]).

(** [fireDue]: one round per due item. *)
Fixpoint fireDue (fuel : nat) (now : Z) (s : scheduler) : scheduler * list sev :=
  match fuel with
  | O => (s, [])
  | S fuel' =>
      match peek (sc_pq s) with
      | None => (s, [])
      | Some item =>
          if After (it_at item) now then (s, [])
          else
            let s := pop s in
            match entry s (it_entryID item) with
            | None => fireDue fuel' now s
            | Some e =>
                let '(s, evs) := if tooLate e item now then skipLate e item now s
                                 else dispatch e (it_base item) s in
                let '(s, evs') := fireDue fuel' now (push e now s) in
                (s, evs ++ evs')
            end
      end
  end.

(** One entry of [catchUp]'s loop. *)
Definition catchUpEntry (now : Z) (e : Entry) (s : scheduler) : scheduler * list sev :=
  if negb (Enabled e) then (s, [])
  else
    match schedule e with
    | None => (s, [])
    | Some next =>
        match lastFired s (e_EntryID e) with
        | None => markFired (e_EntryID e) now s
        | Some since =>
            let '(missedAt, count) := lastMissed next since now maxScan in
            match decideMisfire missedAt now (MisfireGraceS e) with
            | misfireRun =>
                let at_ := now + Jitter agentID (e_EntryID e) MisfireJitterS in
                (with_pq s (Push (sc_pq s) {| it_entryID := e_EntryID e; it_base := missedAt;
                                              it_at := at_ |}), [])
            | misfireSkip =>
                let '(s, evs) := markFired (e_EntryID e) missedAt s in
                (s, evs ++ [SvSkip (e_EntryID e) count missedAt (Z.quot (Sub now missedAt) Second)])
            | misfireNone => (s, [])
            end
        end
    end.

Definition catchUp (now : Z) (s : scheduler) : scheduler * list sev :=
  fold_left (fun '(s, evs) e => let '(s, evs') := catchUpEntry now e s in (s, evs ++ evs'))
    (st_Entries (sc_st s)) (s, []).

Definition rebuild (now : Z) (s : scheduler) : scheduler :=
  let carried := filter (fun it => Before (it_base it) now = true) (sc_pq s) in
  let fresh := omap (fun e => if Enabled e then itemFor e now else None) (st_Entries (sc_st s)) in
  with_pq s (Init (fresh ++ carried)).

(** [Sync]; [saveOk] is whether the write of the cache succeeds, and [reason] the
    text of the error [schedule] returns for an entry.  Returns the scheduler,
    the version it reports, the rejections, and whether there was an error. *)
Context (reason : Entry -> bytes).

Definition Sync (doc : Document) (now : Z) (saveOk : bool) (s : scheduler) :
    scheduler * (Z * list Rejection * bool) * list sev :=
  if existsb (fun e => match CheckIdentifier (str "entry_id") (e_EntryID e) with
                       | Some _ => true | None => false end) (doc_Entries doc)
  then (s, (ScheduleVersion (sc_st s), [], true), [])
  else
    let ok e := match schedule e with Some _ => true | None => false end in
    let kept := filter (fun e => ok e = true) (doc_Entries doc) in
    let rejected := map (fun e => {| rj_EntryID := e_EntryID e; rj_Reason := reason e |})
                        (filter (fun e => ok e = false) (doc_Entries doc)) in
    let lastFired :=
      fold_left (fun m e => <[e_EntryID e := match LastFired (sc_st s) !! e_EntryID e with
                                             | Some prev => prev | None => Unix now end]> m) kept ∅ in
    let st := {| ScheduleVersion := doc_Version doc; st_Entries := kept; LastFired := lastFired |} in
    ({| sc_st := st; sc_pq := sc_pq s |}, (doc_Version doc, rejected, negb saveOk),
     if saveOk then [SvSave st; SvWake] else []).
End scheduler.

(** ** Jitter and ids *)

(** Jitter spreads within its window.  The offset of an entry is a
    function of the agent and the entry alone, whole seconds, at least zero
    and less than the window; there is none when the window is not
    positive. *)
Theorem Jitter_within_window agentID entryID jitterS :
  (jitterS <= 0 -> Jitter agentID entryID jitterS = 0) /\
  (0 < jitterS <= 9223372036 ->
     0 <= Jitter agentID entryID jitterS < jitterS * Second /\
     Jitter agentID entryID jitterS mod Second = 0).
Proof.
  unfold Jitter. split; intros Hj; destruct (Z.leb_spec jitterS 0); try lia.
  set (h := fnv_write _ _). pose proof (Z.mod_pos_bound h jitterS ltac:(lia)) as Hm.
  assert (0 <= h mod jitterS * Second < jitterS * Second) by (unfold Second; lia).
  rewrite wrap64_id by (unfold in_int64, min_int64, max_int64, Second in *; lia).
  split; [done|]. apply Z.mod_mul. unfold Second. lia.
Qed.

Lemma hexBytes_spec zs : length (hexBytes zs) = (2 * length zs)%nat /\
  Forall (fun c => idChar c = true /\ c ≠ "."%char) (hexBytes zs).
Proof.
  assert (Hd : forall c : ascii, let s := HexEncode [c] in
    length s = 2%nat /\ Forall (fun c => idChar c = true /\ c ≠ "."%char) s).
  { intros c. split; [done|]. apply (bool_decide_eq_true_1 (Forall _ _)).
    destruct c as [[] [] [] [] [] [] [] []]; vm_compute; reflexivity. }
  induction zs as [|z zs [IHl IHf]]; [done|]. cbn [hexBytes flat_map].
  destruct (Hd (chr z)) as [Hl Hf]. split.
  - rewrite length_app. fold (hexBytes zs). unfold hexByte. rewrite Hl, IHl. cbn [length]. lia.
  - apply Forall_app. done.
Qed.

(** A scheduled run's id is usable everywhere.  Whatever the digest, it is
    a 36 character identifier of five hexadecimal groups that passes the
    subject gate, and it depends on the fire time only through its Unix
    second. *)
Theorem JobID_is_a_valid_identifier sha1 entryID base :
  (forall l, length (sha1 l) = 20%nat) ->
  length (JobID sha1 entryID base) = 36%nat /\ ValidIdentifier (JobID sha1 entryID base) = None /\
  forall base', Unix base' = Unix base -> JobID sha1 entryID base' = JobID sha1 entryID base.
Proof.
  intros Hsha. unfold JobID. split_and!; [| |by intros base' ->];
    set (name := entryID ++ _); unfold uuidV5; set (u := take 16 _);
    assert (Hu : length u = 16%nat) by (unfold u; rewrite length_take, Hsha; lia);
    set (v := <[8%nat := _]> _); assert (Hv : length v = 16%nat) by (unfold v; rewrite !length_insert; lia).
  - rewrite !length_app, !(proj1 (hexBytes_spec _)), !length_take, !length_drop, Hv. reflexivity.
  - apply ValidIdentifier_None.
    assert (Hall : Forall (fun c => idChar c = true /\ c ≠ "."%char)
      (hexBytes (take 4 v) ++ str "-" ++ hexBytes (take 2 (drop 4 v)) ++ str "-" ++
       hexBytes (take 2 (drop 6 v)) ++ str "-" ++ hexBytes (take 2 (drop 8 v)) ++ str "-" ++
       hexBytes (take 6 (drop 10 v)))).
    { repeat (apply Forall_app; split); try apply hexBytes_spec; by repeat constructor. }
    split; [|split].
    + rewrite !length_app, !(proj1 (hexBytes_spec _)), !length_take, !length_drop, Hv.
      vm_compute. lia.
    + eapply Forall_impl; [exact Hall|]. naive_solver.
    + rewrite Split_no_sep.
      * constructor; [|constructor]. intros E%(f_equal length).
        rewrite !length_app, !(proj1 (hexBytes_spec _)), !length_take, !length_drop, Hv in E. discriminate.
      * intros Hin. rewrite Forall_forall in Hall. by destruct (Hall _ Hin).
Qed.

(** ** Misfires *)

(** The misfire policy.  With a grace whose nanoseconds fit 64 bits, a
    missed fire is caught up exactly when there was one, the grace is
    positive, and it is no older than the grace; otherwise a fire that was
    missed is skipped. *)
Theorem decideMisfire_policy missedAt now graceS :
  graceS < 9223372036 ->
  (decideMisfire missedAt now graceS = misfireNone <-> missedAt = zero_time) /\
  (decideMisfire missedAt now graceS = misfireRun <->
     missedAt ≠ zero_time /\ 0 < graceS /\ now - missedAt <= graceS * Second).
Proof.
  intros Hg. unfold decideMisfire, IsZero. destruct (Z.eqb_spec missedAt zero_time) as [->|Hz].
  { split; [done|]. split; [done|]. by intros []. }
  destruct (Z.leb_spec graceS 0).
  { split; [done|]. split; [done|]. lia. }
  assert (Hin : in_int64 (graceS * Second)) by (unfold in_int64, min_int64, max_int64, Second; lia).
  rewrite wrap64_id by done. unfold Sub.
  assert (Hle : sat64 (now - missedAt) <= graceS * Second <-> now - missedAt <= graceS * Second).
  { rewrite sat64_le by done. split; [intros [?|E]; [done|]|by left].
    unfold Second, max_int64 in E. lia. }
  destruct (Z.leb_spec (sat64 (now - missedAt)) (graceS * Second)) as [Hs|Hs].
  - split; [done|]. split; [intros _; split_and!; [done|done|by apply Hle] | done].
  - split; [done|]. split; [done|]. intros (_ & _ & Hn). apply Hle in Hn. lia.
Qed.

Section scan_spec.
(** The instants a schedule fires at, and its next-fire function: the least
    fire after an instant, or the zero time when there is none. *)
Context (fires : Z -> Prop) (next : Z -> Z).

Definition next_fire : Prop :=
  ~ fires zero_time /\
  forall t, (next t = zero_time /\ forall f, fires f -> f <= t) \/
            (t < next t /\ fires (next t) /\ forall f, fires f -> t < f -> next t <= f).

Lemma scan_spec now limit last t count :
  next_fire ->
  let '(l, c) := scan next now limit last t count in
  count <= c <= count + Z.of_nat limit /\
  (c = count -> l = last) /\
  (count < c -> fires l /\ t < l <= now) /\
  (c < count + Z.of_nat limit -> forall f, fires f -> t < f <= now -> count < c /\ f <= l).
Proof.
  intros [Hz Hnext]. revert last t count. induction limit as [|limit IH]; intros last t count; cbn [scan].
  { split_and!; lia || done. }
  unfold IsZero, After. destruct (Hnext t) as [[E Hnone]|(Hlt & Hf & Hleast)].
  { rewrite E, Z.eqb_refl. cbn [orb]. split_and!; try lia; try done.
    intros _ f Hff Hr. specialize (Hnone f Hff). lia. }
  destruct (Z.eqb_spec (next t) zero_time) as [E|Hne]; [by rewrite E in Hf|].
  destruct (Z.ltb_spec t (next t)); [|lia]. cbn [orb negb].
  destruct (Z.ltb_spec now (next t)) as [Hlate|Hok].
  { split_and!; try lia; try done. intros _ f Hff Hr. specialize (Hleast f Hff ltac:(lia)). lia. }
  specialize (IH (next t) (next t) (count + 1)).
  destruct (scan next now limit (next t) (next t) (count + 1)) as [l c].
  destruct IH as (Hc & Hsame & Hmore & Hall). split_and!; try lia.
  - intros _. destruct (Z.eq_dec c (count + 1)) as [E|E]; [rewrite (Hsame E); done|].
    destruct (Hmore ltac:(lia)) as [? ?]. split; [done|lia].
  - intros Hlim f Hff Hr. split; [lia|]. destruct (Z.le_gt_cases f (next t)) as [Hfn|Hfn].
    + destruct (Z.eq_dec c (count + 1)) as [E|E]; [rewrite (Hsame E); done|].
      destruct (Hmore ltac:(lia)). lia.
    + apply (Hall ltac:(lia) f Hff). lia.
Qed.
End scan_spec.

(** What was missed.  Against a schedule's own fire times, when the scan
    did not run into its limit the fire it returns is the most recent one
    after [since] and up to [now], and the zero time exactly when there was
    none; the count never exceeds the limit. *)
Theorem lastMissed_is_the_most_recent fires next since now limit :
  next_fire fires next ->
  let '(last, count) := lastMissed next since now limit in
  0 <= count <= Z.of_nat limit /\
  (0 < count -> fires last /\ since < last <= now) /\
  (count = 0 -> last = zero_time) /\
  (count < Z.of_nat limit -> forall f, fires f -> since < f <= now -> f <= last /\ 0 < count).
Proof.
  intros Hn. pose proof (scan_spec fires next now limit zero_time since 0 Hn) as Hs.
  unfold lastMissed. destruct (scan next now limit zero_time since 0) as [l c].
  destruct Hs as (H1 & H2 & H3 & H4). split_and!; try lia; try done.
  intros Hl f Hf Hr. destruct (H4 ltac:(lia) f Hf Hr). done.
Qed.

(** A schedule that fires every [p], at its multiples. *)
Definition every (p t : Z) : Z := (t / p + 1) * p.

Lemma every_next_fire p : 0 < p -> zero_time mod p ≠ 0 -> next_fire (fun f => f mod p = 0) (every p).
Proof.
  intros Hp Hz. split; [done|]. intros t. right. unfold every.
  pose proof (Z.div_mod t p ltac:(lia)). pose proof (Z.mod_pos_bound t p ltac:(lia)). split_and!.
  - lia.
  - apply Z.mod_mul. lia.
  - intros f Hf Hlt. pose proof (Z.div_mod f p ltac:(lia)). rewrite Hf in *.
    assert (t / p < f / p) by nia. nia.
Qed.

(** Past the limit the answer is not the most recent fire.  An agent that
    was off for longer than [maxScan] fires of a per-minute entry gets the
    fire at the limit instead, days before the one that is a few seconds old,
    and skips a run that is inside its grace. *)
Theorem lastMissed_is_stale_past_the_limit :
  let next := every Minute in
  let since := 1700000000 * Second in
  let now := since + Z.of_nat maxScan * Minute + 7 * 24 * Hour in
  let '(last, count) := lastMissed next since now maxScan in
  count = Z.of_nat maxScan /\ 6 * 24 * Hour < now - last /\
  decideMisfire last now 3600 = misfireSkip /\
  exists f, f mod Minute = 0 /\ last < f <= now /\ decideMisfire f now 3600 = misfireRun.
Proof.
  intros next since now. destruct (lastMissed next since now maxScan) as [last count] eqn:E.
  vm_compute in E. injection E as <- <-. split; [vm_compute; reflexivity|].
  split; [vm_compute; reflexivity|]. split; [vm_compute; reflexivity|].
  exists (now / Minute * Minute). split; [vm_compute; reflexivity|].
  split; [|vm_compute; reflexivity]. split; [vm_compute; reflexivity|vm_compute; discriminate].
Qed.

(** ** Firing *)

Section firing.
Context {L : Type} (UTC : L) (LoadLocation : bytes -> option L).
Context (Parse : bytes -> option (L -> Z -> Z)).
Context (sha1 : list Z -> list Z) (agentID : bytes).
Implicit Types (s : scheduler) (now : Z) (e : Entry) (it : fireItem).

Abbreviation sched := (schedule UTC LoadLocation Parse).
Abbreviation fire := (fireDue UTC LoadLocation Parse sha1 agentID).
Abbreviation nextItem := (itemFor UTC LoadLocation Parse agentID).

(** What is documented of a parsed schedule: the next fire is later. *)
Definition progresses : Prop :=
  forall e next t, sched e = Some next -> next t = zero_time \/ t < next t.

(** Windows whose nanoseconds fit 64 bits. *)
Definition sane_jitter (es : list Entry) : Prop := Forall (fun e => JitterS e <= 9223372036) es.

Definition due now (h : fireHeap) : list fireItem := filter (fun it => it_at it <= now) h.

Lemma itemFor_later e now it :
  progresses -> JitterS e <= 9223372036 -> nextItem e now = Some it -> now < it_at it.
Proof.
  intros Hp Hj. unfold itemFor. destruct (sched e) as [next|] eqn:E; [|done].
  unfold IsZero. destruct (Z.eqb_spec (next now) zero_time) as [|Hne]; [done|]. intros [= <-]. cbn.
  destruct (Hp e next now E) as [?|?]; [done|]. unfold Jitter.
  destruct (Z.leb_spec (JitterS e) 0); [lia|].
  set (h := fnv_write _ _). pose proof (Z.mod_pos_bound h (JitterS e) ltac:(lia)).
  rewrite wrap64_id by (unfold in_int64, min_int64, max_int64, Second in *; lia). unfold Second. lia.
Qed.

Lemma due_perm now h h' : h ≡ₚ h' -> due now h ≡ₚ due now h'.
Proof. intros Hp. unfold due. by rewrite Hp. Qed.

Lemma due_none now h : due now h = [] <-> forall it, it ∈ h -> now < it_at it.
Proof.
  split.
  - intros Hd it Hin. destruct (Z.le_gt_cases (it_at it) now) as [Hle|]; [|lia]. exfalso.
    assert (it ∈ due now h) as Hin' by (by apply list_elem_of_filter). rewrite Hd in Hin'. by apply not_elem_of_nil in Hin'.
  - intros Hl. destruct (due now h) as [|it l] eqn:E; [done|]. assert (Hin : it ∈ due now h) by (rewrite E; by left).
    apply list_elem_of_filter in Hin as [Hle Hin]. apply Hl in Hin. lia.
Qed.

Lemma entry_Some s id e :
  entry s id = Some e -> e ∈ st_Entries (sc_st s) /\ Enabled e = true /\ e_EntryID e = id.
Proof.
  unfold entry. destruct (find _ _) as [e'|] eqn:E; [|done]. destruct (Enabled e') eqn:En; [|done].
  intros [= <-]. apply find_some in E as [Hin Hid]. bool_cases. by rewrite list_elem_of_In.
Qed.

Lemma push_spec e now s :
  is_heap (sc_pq s) -> progresses -> JitterS e <= 9223372036 ->
  let s' := push UTC LoadLocation Parse agentID e now s in
  is_heap (sc_pq s') /\ sc_st s' = sc_st s /\ due now (sc_pq s') ≡ₚ due now (sc_pq s).
Proof.
  intros Hh Hp Hj. unfold push. destruct (nextItem e now) as [it|] eqn:E; [|done].
  pose proof (itemFor_later e now it Hp Hj E) as Hlate. cbn [sc_pq sc_st with_pq].
  destruct (Push_spec (sc_pq s) it Hh) as [A B]. split_and!; [done|done|].
  rewrite (due_perm _ _ _ B). unfold due. by rewrite filter_cons_False by lia.
Qed.

Lemma pop_spec s now it :
  is_heap (sc_pq s) -> peek (sc_pq s) = Some it -> it_at it <= now ->
  is_heap (sc_pq (pop s)) /\ sc_st (pop s) = sc_st s /\ due now (sc_pq s) ≡ₚ it :: due now (sc_pq (pop s)).
Proof.
  intros Hh Hp Hle. unfold pop. destruct (sc_pq s) as [|y h] eqn:E; [done|].
  rewrite <- E in *. assert (Hne : sc_pq s ≠ []) by (rewrite E; done). cbn [sc_pq sc_st with_pq].
  destruct (Pop_spec (sc_pq s) Hh Hne) as (A & B & C). destruct (Pop (sc_pq s)) as [h' x].
  cbn [fst snd] in *. rewrite Hp in C. injection C as <-. split_and!; [done|done|].
  rewrite (due_perm now _ _ B). unfold due. by rewrite filter_cons_True by done.
Qed.

(** What should become of a due item: nothing when its entry is gone or
    disabled, a skip when it is too late, a run otherwise. *)
Definition outcome now (es : list Entry) (it : fireItem) : option sev :=
  match find (fun e => bool_decide (e_EntryID e = it_entryID it)) es with
  | Some e =>
      if negb (Enabled e) then None
      else if tooLate e it now
      then Some (SvSkip (e_EntryID e) 1 (it_base it) (Z.quot (Sub now (it_base it)) Second))
      else Some (SvRun (JobID sha1 (e_EntryID e) (it_base it)) e (it_base it))
  | None => None
  end.

(** The runs and skips among the events. *)
Definition decided (evs : list sev) : list sev :=
  flat_map (fun ev => match ev with SvRun _ _ _ | SvSkip _ _ _ _ => [ev] | _ => [] end) evs.

(** What [fireDue] leaves when it started from the entries [es] and the heap
    [h] at [now]. *)
Definition fired now (es : list Entry) (h : fireHeap) (out : scheduler * list sev) : Prop :=
  is_heap (sc_pq out.1) /\ st_Entries (sc_st out.1) = es /\ due now (sc_pq out.1) = [] /\
  decided out.2 ≡ₚ omap (outcome now es) (due now h).

(** One round: an item was popped, its events come first and, when its entry is
    still there, the next fire is pushed. *)
Lemma fired_push fuel now s s1 s2 e it ev evs :
  progresses -> JitterS e <= 9223372036 ->
  (forall s, sane_jitter (st_Entries (sc_st s)) -> is_heap (sc_pq s) ->
    (length (due now (sc_pq s)) <= fuel)%nat ->
    fired now (st_Entries (sc_st s)) (sc_pq s) (fire fuel now s)) ->
  sane_jitter (st_Entries (sc_st s)) -> is_heap (sc_pq s1) ->
  (length (due now (sc_pq s1)) <= fuel)%nat -> due now (sc_pq s) ≡ₚ it :: due now (sc_pq s1) ->
  sc_pq s2 = sc_pq s1 -> st_Entries (sc_st s2) = st_Entries (sc_st s) ->
  outcome now (st_Entries (sc_st s)) it = Some ev -> decided evs = [ev] ->
  fired now (st_Entries (sc_st s)) (sc_pq s)
    (let '(s', evs') := fire fuel now (push UTC LoadLocation Parse agentID e now s2) in
     (s', evs ++ evs')).
Proof.
  intros Hp Hje IH Hj Hh1 Hd1 Hdue Hpq Hes Hev Hevs.
  destruct (push_spec e now s2) as (A & B & C); [by rewrite Hpq|done|done|].
  rewrite Hpq in C. set (s3 := push _ _ _ _ _ _ _) in *. specialize (IH s3).
  rewrite B, Hes, C in IH. specialize (IH Hj A Hd1).
  destruct (fire fuel now s3) as [s' evs']. destruct IH as (H1 & H2 & H3 & H4). split_and!; [done|done|done|].
  cbn [snd] in *. unfold decided in *. rewrite flat_map_app, Hevs, H4, Hdue. cbn [omap list_omap]. by rewrite Hev, C.
Qed.

Lemma fireDue_spec fuel now s :
  progresses -> sane_jitter (st_Entries (sc_st s)) -> is_heap (sc_pq s) ->
  (length (due now (sc_pq s)) <= fuel)%nat ->
  fired now (st_Entries (sc_st s)) (sc_pq s) (fire fuel now s).
Proof.
  intros Hp. revert s. induction fuel as [|fuel IH]; intros s Hj Hh Hd; cbn [fireDue].
  { assert (Hz : due now (sc_pq s) = []) by (destruct (due now (sc_pq s)); [done|cbn in Hd; lia]).
    split_and!; try done. by rewrite Hz. }
  destruct (peek (sc_pq s)) as [item|] eqn:Epk.
  2: { assert (Hz : sc_pq s = []) by (by destruct (sc_pq s)). unfold fired. cbn [fst snd]. by rewrite Hz in *. }
  unfold After. destruct (Z.ltb_spec now (it_at item)) as [Hlate|Hdue].
  { assert (Hz : due now (sc_pq s) = []).
    { apply due_none. intros it Hin. pose proof (heap_min _ _ _ Hh Epk Hin). lia. }
    split_and!; try done. by rewrite Hz. }
  destruct (pop_spec s now item Hh Epk Hdue) as (Hh1 & Hst1 & Hd1). set (s1 := pop s) in *.
  assert (Hlen : (length (due now (sc_pq s1)) <= fuel)%nat) by (rewrite Hd1 in Hd; cbn in Hd; lia).
  assert (Hfind : entry s1 (it_entryID item) =
    match find (fun e => bool_decide (e_EntryID e = it_entryID item)) (st_Entries (sc_st s)) with
    | Some e => if Enabled e then Some e else None | None => None end) by (unfold entry; by rewrite Hst1).
  destruct (entry s1 (it_entryID item)) as [e|] eqn:Ee.
  2: { assert (Hno : outcome now (st_Entries (sc_st s)) item = None).
       { unfold outcome. destruct (find _ _) as [e|]; [|done]. by destruct (Enabled e). }
       specialize (IH s1). rewrite Hst1 in IH. specialize (IH Hj Hh1 Hlen).
       destruct (fire fuel now s1) as [s' evs']. destruct IH as (H1 & H2 & H3 & H4). split_and!; [done|done|done|].
       cbn [snd] in *. rewrite H4, Hd1. cbn [omap list_omap]. by rewrite Hno. }
  apply entry_Some in Ee as (Hin & Hen & Hid). rewrite Hst1 in Hin.
  assert (Hje : JitterS e <= 9223372036).
  { unfold sane_jitter in Hj. rewrite Forall_forall in Hj. by apply Hj. }
  assert (Hout : outcome now (st_Entries (sc_st s)) item =
    if tooLate e item now then Some (SvSkip (e_EntryID e) 1 (it_base item) (Z.quot (Sub now (it_base item)) Second))
    else Some (SvRun (JobID sha1 (e_EntryID e) (it_base item)) e (it_base item))).
  { unfold outcome. destruct (find _ _) as [e'|]; [|done]. destruct (Enabled e'); [|done]. by injection Hfind as <-. }
  destruct (tooLate e item now) eqn:Et;
    [unfold skipLate, markFired|unfold dispatch, markFired]; cbn beta iota zeta;
    eapply (fired_push fuel now s s1 _ e item); eauto; cbn; by rewrite Hst1.
Qed.

(** C34: Firing terminates and does exactly what is due.  As long as schedules
    progress and windows fit 64 bits, one round per due item is enough:
    afterwards nothing in the queue is due and the queue is still ordered; and
    the runs started and the skips reported are, one for one, those of the items
    that were due: none for an entry that is gone or disabled, a skip for one
    later than its grace allows, and for every other a run under the id of its
    entry and fire time. *)
Theorem fireDue_fires_what_is_due now s :
  progresses -> sane_jitter (st_Entries (sc_st s)) -> is_heap (sc_pq s) ->
  let '(s', evs) := fire (length (sc_pq s)) now s in
  is_heap (sc_pq s') /\ st_Entries (sc_st s') = st_Entries (sc_st s) /\
  (forall it, it ∈ sc_pq s' -> now < it_at it) /\
  decided evs ≡ₚ omap (outcome now (st_Entries (sc_st s))) (due now (sc_pq s)).
Proof.
  intros Hp Hj Hh. pose proof (fireDue_spec (length (sc_pq s)) now s Hp Hj Hh (length_filter _ _)) as Hs.
  destruct (fire (length (sc_pq s)) now s) as [s' evs]. destruct Hs as (A & B & C & D).
  split_and!; [done|done|by apply due_none|done].
Qed.

(** A sync is all or nothing on identifiers and explicit about the rest.
    A document with an unusable entry id changes nothing.  Otherwise the
    entries in force are exactly the schedulable ones, the others are all
    named as rejected, and every entry in force has a last-fired time, kept
    if it had one and now if it is new; so a new entry has nothing to catch
    up.  The run loop is woken to rebuild its queue exactly when the document
    could be saved. *)
Theorem Sync_is_explicit reason doc now saveOk s :
  let '(s', (version, rejected, failed), evs) := Sync UTC LoadLocation Parse reason doc now saveOk s in
  let usable := forallb (fun e => match ValidIdentifier (e_EntryID e) with None => true | Some _ => false end)
                  (doc_Entries doc) in
  (usable = false -> s' = s /\ failed = true /\ evs = []) /\
  (usable = true ->
     (forall e, e ∈ st_Entries (sc_st s') <-> e ∈ doc_Entries doc /\ is_Some (sched e)) /\
     (forall e, e ∈ doc_Entries doc -> sched e = None -> {| rj_EntryID := e_EntryID e; rj_Reason := reason e |} ∈ rejected) /\
     (forall e, e ∈ st_Entries (sc_st s') ->
        LastFired (sc_st s') !! e_EntryID e =
        Some (default (Unix now) (LastFired (sc_st s) !! e_EntryID e))) /\
     (SvWake ∈ evs <-> saveOk = true)).
Proof.
  unfold Sync.
  assert (Hex : existsb (fun e => match CheckIdentifier (str "entry_id") (e_EntryID e) with
      | Some _ => true | None => false end) (doc_Entries doc) =
    negb (forallb (fun e => match ValidIdentifier (e_EntryID e) with None => true | Some _ => false end)
      (doc_Entries doc))).
  { induction (doc_Entries doc) as [|e es IH]; [done|]. cbn [existsb forallb]. rewrite IH.
    unfold CheckIdentifier. by destruct (ValidIdentifier (e_EntryID e)). }
  rewrite Hex. destruct (forallb _ _); cbn [negb]; (split; [|]); try done.
  intros _. cbn [sc_st st_Entries LastFired]. split_and!.
  - intros e. rewrite list_elem_of_filter. destruct (sched e) as [n|].
    + split; [intros [_ ?]|intros [? _]]; by split.
    + split; [by intros []|]. intros [_ [x Hx]]. done.
  - intros e He Hs. apply (list_elem_of_fmap_2 (fun e => {| rj_EntryID := e_EntryID e; rj_Reason := reason e |})).
    apply list_elem_of_filter. by rewrite Hs.
  - intros e He.
    assert (Hfold : forall l (m : gmap bytes Z),
      (e ∈ l \/ m !! e_EntryID e = Some (default (Unix now) (LastFired (sc_st s) !! e_EntryID e))) ->
      fold_left (fun m e => <[e_EntryID e := match LastFired (sc_st s) !! e_EntryID e with
        | Some prev => prev | None => Unix now end]> m) l m !! e_EntryID e =
      Some (default (Unix now) (LastFired (sc_st s) !! e_EntryID e))).
    { induction l as [|x l IH]; intros m Hm; [by destruct Hm as [?%not_elem_of_nil|]|].
      cbn [fold_left]. apply IH. destruct (decide (e_EntryID x = e_EntryID e)) as [Ex|Ex].
      - right. rewrite Ex, lookup_insert_eq. by destruct (LastFired (sc_st s) !! e_EntryID e).
      - rewrite lookup_insert_ne by done. destruct Hm as [[->|Hm]%elem_of_cons|Hm];
          [done|by left|by right]. }
    apply Hfold. by left.
  - destruct saveOk; [split; [done|]; intros _; right; left|]. split; [|done].
    by intros ?%not_elem_of_nil.
Qed.
End firing.

(** ** An entry owed a catch-up is scheduled twice *)

(** A host with one hourly entry, last fired two hours ago. *)
Definition demo_parse (_ : bytes) : option (unit -> Z -> Z) := Some (fun _ => every Hour).
Definition demo_entry : Entry :=
  {| e_EntryID := str "nightly"; e_Cron := str "0 * * * *"; e_TZ := []; e_Kind := str "script.run";
     e_Payload := []; JitterS := 0; MisfireGraceS := 3600; Enabled := true |}.
Definition demo_sched : scheduler :=
  {| sc_st := {| ScheduleVersion := 1; st_Entries := [demo_entry];
                 LastFired := {[ str "nightly" := 1699996800 ]} |};
     sc_pq := [] |}.
Definition demo_sha1 (l : list Z) : list Z := map (fun k => fold_left Z.add l k mod 256) (map Z.of_nat (seq 0 20)).

Abbreviation demo_fire := (fireDue tt (fun _ => Some tt) demo_parse demo_sha1 (str "agent")).

(** Start-up at [t0], then the two rounds of firing: one minute later, when
    the catch-up has run, and at the next full hour. *)
Definition demo_startup (t0 : Z) : scheduler :=
  rebuild tt (fun _ => Some tt) demo_parse (str "agent") t0
    (catchUp tt (fun _ => Some tt) demo_parse (str "agent") t0 demo_sched).1.

Definition runsOf (evs : list sev) : list bytes :=
  omap (fun ev => match ev with SvRun id _ _ => Some id | _ => None end) evs.

(** A caught-up entry fires twice from then on.  [catchUp] queues the
    missed run and [rebuild] the entry's next fire; when the missed run fires,
    [fireDue] queues that next fire once more.  At the next hour the same job
    id is started twice, and two runs start at the hour after that. *)
Theorem catch_up_duplicates_later_fires :
  let t0 := 1700006400 * Second + 10 * Minute in
  let next := 1700006400 * Second + Hour in
  let '(s1, evs1) := demo_fire 4 (t0 + Minute) (demo_startup t0) in
  let '(s2, evs2) := demo_fire 4 next s1 in
  let '(s3, evs3) := demo_fire 4 (next + Hour) s2 in
  length (runsOf evs1) = 1%nat /\
  runsOf evs2 = [JobID demo_sha1 (str "nightly") next; JobID demo_sha1 (str "nightly") next] /\
  length (runsOf evs3) = 2%nat.
Proof. vm_compute. split; [reflexivity|]. split; reflexivity. Qed.

(** *** Witnesses *)

Lemma demo_progresses : progresses tt (fun _ => Some tt) demo_parse.
Proof.
  intros e next t. unfold schedule. intros He.
  assert (next = every Hour) as ->.
  { revert He. case_bool_decide; cbn; by intros [= <-]. }
  right. unfold every. pose proof (Z.div_mod t Hour ltac:(done)).
  pose proof (Z.mod_pos_bound t Hour ltac:(reflexivity)). lia.
Qed.

Lemma fireDue_fires_what_is_due_witness :
  let t0 := 1700006400 * Second + 10 * Minute in
  let s := demo_startup t0 in
  let '(s', evs) := demo_fire (length (sc_pq s)) (t0 + Minute) s in
  forall it, it ∈ sc_pq s' -> t0 + Minute < it_at it.
Proof.
  intros t0 s.
  pose proof (fireDue_fires_what_is_due tt (fun _ => Some tt) demo_parse demo_sha1 (str "agent")
    (t0 + Minute) s demo_progresses) as Hf.
  destruct (demo_fire (length (sc_pq s)) (t0 + Minute) s) as [s' evs].
  apply Hf.
  - apply (bool_decide_eq_true_1 (Forall _ _)). vm_compute. reflexivity.
  - apply (Init_spec (_ ++ _)).
Defined.

Lemma Jitter_within_window_witness :
  0 <= Jitter (str "agent-1") (str "nightly") 900 < 900 * Second.
Proof. apply (proj2 (Jitter_within_window (str "agent-1") (str "nightly") 900)). split; reflexivity || discriminate. Defined.

Lemma JobID_is_a_valid_identifier_witness :
  ValidIdentifier (JobID demo_sha1 (str "nightly") (1700006400 * Second)) = None.
Proof. apply (JobID_is_a_valid_identifier demo_sha1). reflexivity. Defined.

Lemma decideMisfire_policy_witness :
  decideMisfire (100 * Second) (160 * Second) 60 = misfireRun.
Proof.
  apply (decideMisfire_policy (100 * Second) (160 * Second) 60); [reflexivity|].
  split; [discriminate|]. split; [reflexivity | discriminate].
Defined.

Lemma lastMissed_is_the_most_recent_witness :
  let '(last, count) := lastMissed (every 7) 0 100 50 in
  0 < count -> last mod 7 = 0 /\ 0 < last <= 100.
Proof.
  pose proof (lastMissed_is_the_most_recent (fun f => f mod 7 = 0) (every 7) 0 100 50
    (every_next_fire 7 eq_refl ltac:(vm_compute; discriminate))) as Hm.
  destruct (lastMissed (every 7) 0 100 50) as [last count]. apply Hm.
Defined.
