(* ===== verification/Shell.v ===== *)
(** * Shell: one interactive session (agent/internal/shell)

    The byte-level flow control (flow.go), the drop-oldest buffer that bridges
    a NATS outage (ring.go) and the session that joins them (session.go): the
    read pump, the control channel, the three timeouts and the teardown.  The
    goroutines of a session are the states of a [machine]; an action is one
    step of one of them (a flush or a publish under [outMu], a critical section
    of [s.mu], a callback), so an interleaving of them is a list of actions.
    The two halves of a monitor tick are separate actions, in any order.  What the PTY delivers, what the connection answers and what the
    clock says come with the action. *)
From S2P Require Import Prelude GoLib GoOS Wire.

(** ** flow.go *)

Definition MaxFrameBytes : Z := 32 * 1024.
Definition PauseAbove : Z := 512 * 1024.
Definition ResumeBelow : Z := 256 * 1024.

(** A channel is a number; [gates] counts the ones made, [shut] holds the
    closed ones.  [panicked] records a [close] of a nil or closed channel. *)
Record flowController := {
  pauseAbove : Z;
  resumeBelow : Z;
  unacked : Z;
  paused : bool;
  gate : option nat;
  gates : nat;
  shut : gset nat;
  panicked : bool;
}.

Definition newFlowControllerWith (pauseAbove resumeBelow : Z) : flowController :=
  {| pauseAbove := pauseAbove; resumeBelow := resumeBelow; unacked := 0; paused := false;
     gate := None; gates := 0; shut := ∅; panicked := false |}.

Definition newFlowController : flowController := newFlowControllerWith PauseAbove ResumeBelow.

Definition set_unacked (n : Z) (f : flowController) : flowController :=
  {| pauseAbove := pauseAbove f; resumeBelow := resumeBelow f; unacked := n; paused := paused f;
     gate := gate f; gates := gates f; shut := shut f; panicked := panicked f |}.

(** [f.paused = true; f.gate = make(chan struct{})]. *)
Definition pause (f : flowController) : flowController :=
  {| pauseAbove := pauseAbove f; resumeBelow := resumeBelow f; unacked := unacked f;
     paused := true; gate := Some (gates f); gates := S (gates f); shut := shut f;
     panicked := panicked f |}.

(** [f.paused = false; close(f.gate); f.gate = nil]. *)
Definition resume (f : flowController) : flowController :=
  {| pauseAbove := pauseAbove f; resumeBelow := resumeBelow f; unacked := unacked f;
     paused := false; gate := None; gates := gates f;
     shut := match gate f with Some g => {[g]} ∪ shut f | None => shut f end;
     panicked := panicked f ||
       match gate f with Some g => bool_decide (g ∈ shut f) | None => true end |}.

Definition sent (n : Z) (f : flowController) : bool * flowController :=
  let f := set_unacked (wrap64 (unacked f + n)) f in
  let f := if negb (paused f) && (pauseAbove f <? unacked f) then pause f else f in
  (paused f, f).

Definition ack (n : Z) (f : flowController) : bool * flowController :=
  if n <=? 0 then (false, f)
  else
    let left := wrap64 (unacked f - n) in
    let f := set_unacked (if left <? 0 then 0 else left) f in
    if paused f && (unacked f <=? resumeBelow f) then (true, resume f) else (false, f).

Definition release (f : flowController) : flowController :=
  if paused f then resume f else f.

Definition isPaused (f : flowController) : bool := paused f.
Definition unackedBytes (f : flowController) : Z := unacked f.

(** [wait] reads the gate under the lock and then blocks on what it read:
    [None] returns at once, a channel lets it through once it is closed. *)
Definition waitGate (f : flowController) : option nat := gate f.
Definition waitPasses (g : nat) (f : flowController) : bool := bool_decide (g ∈ shut f).

(** ** ring.go *)

Definition RingBytes : Z := 256 * 1024.

Record ring := { rmax : Z; rbuf : bytes; dropped : bool }.

Definition newRing (max : Z) : ring := {| rmax := max; rbuf := []; dropped := false |}.

Definition write (p : bytes) (r : ring) : ring :=
  if bool_decide (p = []) then r
  else if rmax r <=? blen p
  then {| rmax := rmax r; rbuf := drop (Z.to_nat (blen p - rmax r)) p; dropped := true |}
  else
    let buf := rbuf r ++ p in
    let over := blen buf - rmax r in
    if 0 <? over
    then {| rmax := rmax r; rbuf := drop (Z.to_nat over) buf; dropped := true |}
    else {| rmax := rmax r; rbuf := buf; dropped := dropped r |}.

Definition drain (r : ring) : bytes * bool * ring := (rbuf r, dropped r, newRing (rmax r)).

Definition ring_size (r : ring) : Z := blen (rbuf r).

(** ** session.go *)

Inductive reason : Type :=
  | reasonExit | reasonIdle | reasonDisconnected | reasonServerGone | reasonRequested
  | reasonShutdown.

(** The agent's own control events, and everything a session publishes. *)
Inductive ctlEvent : Type :=
  | CtlGap
  | CtlClosed (r : reason) (code : Z).

Inductive message : Type :=
  | MOut (subject data : bytes)
  | MCtl (subject : bytes) (e : ctlEvent).

Definition pingTimeout : Z := 65 * Second.
Definition firstPingGrace : Z := 90 * Second.
Definition disconnectGrace : Z := 60 * Second.
Definition DefaultIdleTimeout : Z := 15 * Minute.

(** [log] is every publish in order, with the answer it got; [ptyIn] what the
    child was sent. *)
Record session := {
  s_id : bytes;
  s_agentID : bytes;
  idleTime : Z;
  startedAt : Z;
  flow : flowController;
  buf : ring;
  lastInput : Z;
  lastPing : Z;
  sawPing : bool;
  disconnectedAt : Z;
  bytesIn : Z;
  bytesOut : Z;
  closing : bool;
  subs : list bytes;
  cancelled : bool;
  ptyOpen : bool;
  ptyIn : bytes;
  log : list (message * bool);
}.

Definition set_flow (f : flowController) (s : session) : session :=
  {| s_id := s_id s; s_agentID := s_agentID s; idleTime := idleTime s; startedAt := startedAt s;
     flow := f; buf := buf s; lastInput := lastInput s; lastPing := lastPing s;
     sawPing := sawPing s; disconnectedAt := disconnectedAt s; bytesIn := bytesIn s;
     bytesOut := bytesOut s; closing := closing s; subs := subs s; cancelled := cancelled s;
     ptyOpen := ptyOpen s; ptyIn := ptyIn s; log := log s |}.
Definition set_buf (b : ring) (s : session) : session :=
  {| s_id := s_id s; s_agentID := s_agentID s; idleTime := idleTime s; startedAt := startedAt s;
     flow := flow s; buf := b; lastInput := lastInput s; lastPing := lastPing s;
     sawPing := sawPing s; disconnectedAt := disconnectedAt s; bytesIn := bytesIn s;
     bytesOut := bytesOut s; closing := closing s; subs := subs s; cancelled := cancelled s;
     ptyOpen := ptyOpen s; ptyIn := ptyIn s; log := log s |}.
Definition set_disconnectedAt (t : Z) (s : session) : session :=
  {| s_id := s_id s; s_agentID := s_agentID s; idleTime := idleTime s; startedAt := startedAt s;
     flow := flow s; buf := buf s; lastInput := lastInput s; lastPing := lastPing s;
     sawPing := sawPing s; disconnectedAt := t; bytesIn := bytesIn s;
     bytesOut := bytesOut s; closing := closing s; subs := subs s; cancelled := cancelled s;
     ptyOpen := ptyOpen s; ptyIn := ptyIn s; log := log s |}.
Definition set_bytesOut (n : Z) (s : session) : session :=
  {| s_id := s_id s; s_agentID := s_agentID s; idleTime := idleTime s; startedAt := startedAt s;
     flow := flow s; buf := buf s; lastInput := lastInput s; lastPing := lastPing s;
     sawPing := sawPing s; disconnectedAt := disconnectedAt s; bytesIn := bytesIn s;
     bytesOut := n; closing := closing s; subs := subs s; cancelled := cancelled s;
     ptyOpen := ptyOpen s; ptyIn := ptyIn s; log := log s |}.
Definition set_log (l : list (message * bool)) (s : session) : session :=
  {| s_id := s_id s; s_agentID := s_agentID s; idleTime := idleTime s; startedAt := startedAt s;
     flow := flow s; buf := buf s; lastInput := lastInput s; lastPing := lastPing s;
     sawPing := sawPing s; disconnectedAt := disconnectedAt s; bytesIn := bytesIn s;
     bytesOut := bytesOut s; closing := closing s; subs := subs s; cancelled := cancelled s;
     ptyOpen := ptyOpen s; ptyIn := ptyIn s; log := l |}.
(** [lastInput], [bytesIn] and the PTY's input, set together by [onInput]. *)
Definition set_input (t n : Z) (p : bytes) (s : session) : session :=
  {| s_id := s_id s; s_agentID := s_agentID s; idleTime := idleTime s; startedAt := startedAt s;
     flow := flow s; buf := buf s; lastInput := t; lastPing := lastPing s;
     sawPing := sawPing s; disconnectedAt := disconnectedAt s; bytesIn := n;
     bytesOut := bytesOut s; closing := closing s; subs := subs s; cancelled := cancelled s;
     ptyOpen := ptyOpen s; ptyIn := p; log := log s |}.
Definition set_ping (t : Z) (s : session) : session :=
  {| s_id := s_id s; s_agentID := s_agentID s; idleTime := idleTime s; startedAt := startedAt s;
     flow := flow s; buf := buf s; lastInput := lastInput s; lastPing := t;
     sawPing := true; disconnectedAt := disconnectedAt s; bytesIn := bytesIn s;
     bytesOut := bytesOut s; closing := closing s; subs := subs s; cancelled := cancelled s;
     ptyOpen := ptyOpen s; ptyIn := ptyIn s; log := log s |}.
Definition set_closing (s : session) : session :=
  {| s_id := s_id s; s_agentID := s_agentID s; idleTime := idleTime s; startedAt := startedAt s;
     flow := flow s; buf := buf s; lastInput := lastInput s; lastPing := lastPing s;
     sawPing := sawPing s; disconnectedAt := disconnectedAt s; bytesIn := bytesIn s;
     bytesOut := bytesOut s; closing := true; subs := subs s; cancelled := cancelled s;
     ptyOpen := ptyOpen s; ptyIn := ptyIn s; log := log s |}.
(** [unsubscribe], [s.cancel()] and [s.pty.Close()]: the irreversible part of
    [close]. *)
Definition shutDown (s : session) : session :=
  {| s_id := s_id s; s_agentID := s_agentID s; idleTime := idleTime s; startedAt := startedAt s;
     flow := flow s; buf := buf s; lastInput := lastInput s; lastPing := lastPing s;
     sawPing := sawPing s; disconnectedAt := disconnectedAt s; bytesIn := bytesIn s;
     bytesOut := bytesOut s; closing := closing s; subs := []; cancelled := true;
     ptyOpen := false; ptyIn := ptyIn s; log := log s |}.

(** [start], once the PTY runs and the subscriptions succeeded. *)
Definition started (id agentID : bytes) (idle now : Z) : session :=
  {| s_id := id; s_agentID := agentID; idleTime := idle; startedAt := now;
     flow := newFlowController; buf := newRing RingBytes; lastInput := now;
     lastPing := zero_time; sawPing := false; disconnectedAt := zero_time; bytesIn := 0;
     bytesOut := 0; closing := false;
     subs := [ShellIn agentID id; ShellResize agentID id; ShellCtl agentID id];
     cancelled := false; ptyOpen := true; ptyIn := []; log := [] |}.

(** [start]: the id is checked before anything is spawned; [pty] is what
    [startPTY] answers and [subscribe] what the connection answers to each
    subscription.  A failed subscription closes the PTY again. *)
Fixpoint subscribeAll (subscribe : bytes -> option error) (subjects : list bytes) : option error :=
  match subjects with
  | [] => None
  | p :: rest => match subscribe p with Some e => Some e | None => subscribeAll subscribe rest end
  end.

Definition start (pty : option error) (subscribe : bytes -> option error)
    (id agentID : bytes) (idle now : Z) : res error session :=
  match CheckIdentifier (str "session_id") id with
  | Some e => Err e
  | None =>
      match pty with
      | Some e => Err e
      | None =>
          let s := started id agentID idle now in
          match subscribeAll subscribe (subs s) with
          | Some e => Err e
          | None => Ok s
          end
      end
  end.

Section session.
(** The connection's answer to the n-th publish; [None] is success. *)
Context (publish : nat -> option error).

Definition Publish (m : message) (s : session) : bool * session :=
  let ok := match publish (length (log s)) with None => true | Some _ => false end in
  (ok, set_log (log s ++ [(m, ok)]) s).

Definition publishCtl (e : ctlEvent) (s : session) : session :=
  (Publish (MCtl (ShellCtl (s_agentID s) (s_id s)) e) s).2.

(** Each round takes at least one byte, so [length data] rounds are enough. *)
Fixpoint publishFrames_loop (fuel : nat) (data : bytes) (s : session) : session :=
  match fuel, data with
  | S fuel', _ :: _ =>
      let n := Z.min (blen data) MaxFrameBytes in
      let '(ok, s) :=
        Publish (MOut (ShellOut (s_agentID s) (s_id s)) (take (Z.to_nat n) data)) s in
      if ok then
        let s := set_flow (sent n (flow s)).2 s in
        let s := set_bytesOut (wrap64 (bytesOut s + n)) s in
        publishFrames_loop fuel' (drop (Z.to_nat n) data) s
      else s
  | _, _ => s
  end.

Definition publishFrames (data : bytes) (s : session) : session :=
  publishFrames_loop (length data) data s.

Definition markDisconnected (now : Z) (s : session) : session :=
  if IsZero (disconnectedAt s) then set_disconnectedAt now s else s.

Definition flushLocked (s : session) : session :=
  let wasDown := negb (IsZero (disconnectedAt s)) in
  let s := set_disconnectedAt zero_time s in
  if negb wasDown then s
  else
    let '(pending, dropped, r) := drain (buf s) in
    let s := set_buf r s in
    let s := if dropped then publishCtl CtlGap s else s in
    publishFrames pending s.

Definition emit (connected : bool) (now : Z) (data : bytes) (s : session) : session :=
  if negb connected
  then let s := markDisconnected now s in set_buf (write data (buf s)) s
  else publishFrames data (flushLocked s).

(** [onInput]; the PTY takes the whole write or reports an error. *)
Definition onInput (now : Z) (data : bytes) (writes : bool) (s : session) : session :=
  if bool_decide (data = []) then s
  else set_input now (wrap64 (bytesIn s + blen data))
         (if writes then ptyIn s ++ data else ptyIn s) s.

(** [onCtl] on the decoded frame; [None] is a frame that does not decode. *)
Definition onCtl (now : Z) (ctl : option (option Z * bytes)) (s : session) : session :=
  match ctl with
  | None => s
  | Some (a, event) =>
      let s := match a with Some n => set_flow (ack n (flow s)).2 s | None => s end in
      if bool_decide (event = str "ping") then set_ping now s else s
  end.

(** A frame the decoder can deliver: its ack is an [int64]. *)
Definition decoded (ctl : option (option Z * bytes)) : bool :=
  match ctl with
  | Some (Some n, _) => (min_int64 <=? n) && (n <=? max_int64)
  | _ => true
  end.

(** The verdict [checkTimeouts] reaches under [s.mu]. *)
Definition verdict (now : Z) (s : session) : option reason :=
  if negb (IsZero (disconnectedAt s)) && (disconnectGrace <? Sub now (disconnectedAt s))
  then Some reasonDisconnected
  else if idleTime s <? Sub now (lastInput s) then Some reasonIdle
  else
    let '(since, deadline) :=
      if sawPing s then (lastPing s, pingTimeout) else (startedAt s, firstPingGrace) in
    if deadline <? Sub now since then Some reasonServerGone else None.

(** Its first half: drive the connection state machine. *)
Definition trackLink (connected : bool) (now : Z) (s : session) : session :=
  if connected then flushLocked s else markDisconnected now s.

Definition checkTimeouts (connected : bool) (now : Z) (s : session) : option reason * session :=
  let s := trackLink connected now s in (verdict now s, s).

(** The part of [close] under [s.mu]: only the first caller goes on. *)
Definition closeBegin (s : session) : option session :=
  if closing s then None else Some (set_closing s).

(** The rest of [close] up to [onClose]. *)
Definition closeTeardown (r : reason) (code : Z) (s : session) : session :=
  let s := publishCtl (CtlClosed r code) s in
  shutDown (set_flow (release (flow s)) s).

(** ** The goroutines of a session *)

(** Where the read pump is: at [wait], blocked on a gate, in [pty.Read],
    holding what a read returned (and whether it also reported an error), or
    gone. *)
Inductive pump : Type :=
  | PWait
  | PBlocked (g : nat)
  | PRead
  | PHave (data : bytes) (failed : bool)
  | PDone.

(** The goroutine that won [close], if any. *)
Inductive closer : Type :=
  | CNone
  | CTeardown (r : reason) (code : Z)
  | CForget
  | CDone.

(** [seen] is the history: the bytes the pump handed to [emit]. *)
Record machine := {
  sess : session;
  at_ : pump;
  cl : closer;
  seen : bytes;
}.

Definition spawn (s : session) : machine :=
  {| sess := s; at_ := PWait; cl := CNone; seen := [] |}.

Definition set_sess (s : session) (m : machine) : machine :=
  {| sess := s; at_ := at_ m; cl := cl m; seen := seen m |}.
Definition set_at (p : pump) (m : machine) : machine :=
  {| sess := sess m; at_ := p; cl := cl m; seen := seen m |}.
Definition set_cl (c : closer) (m : machine) : machine :=
  {| sess := sess m; at_ := at_ m; cl := c; seen := seen m |}.

Inductive action : Type :=
  | AWait                                        (** the pump reaches [flow.wait] *)
  | APass                                        (** its gate is closed *)
  | AGiveUp                                      (** its context is cancelled *)
  | ARead (data : bytes) (failed : bool)         (** [pty.Read] returns *)
  | AEmit (connected : bool) (now : Z)           (** [emit], and back to the loop head *)
  | AInput (now : Z) (data : bytes) (writes : bool)
  | ACtl (now : Z) (ctl : option (option Z * bytes))
  | ALink (connected : bool) (now : Z)           (** a tick's [trackLink] *)
  | AVerdict (now : Z)                           (** a tick's [verdict] *)
  | AClose (r : reason) (code : Z)               (** any caller of [close] *)
  | ATeardown                                    (** the winner's teardown *)
  | AForget.                                     (** the winner's [onClose] *)

(** [close] up to and including its critical section. *)
Definition callClose (r : reason) (code : Z) (m : machine) : machine :=
  match closeBegin (sess m) with
  | None => m
  | Some s => set_cl (CTeardown r code) (set_sess s m)
  end.

(** The clock never reads the zero time, and [pty.Read] fills a buffer of
    [MaxFrameBytes]. *)
Definition mstep (a : action) (m : machine) : option machine :=
  match a, at_ m, cl m with
  | AWait, PWait, _ =>
      Some (set_at (match waitGate (flow (sess m)) with None => PRead | Some g => PBlocked g end) m)
  | APass, PBlocked g, _ => if waitPasses g (flow (sess m)) then Some (set_at PRead m) else None
  | AGiveUp, PBlocked _, _ => if cancelled (sess m) then Some (set_at PDone m) else None
  | ARead data failed, PRead, _ =>
      if blen data <=? MaxFrameBytes then Some (set_at (PHave data failed) m) else None
  | AEmit connected now, PHave data failed, _ =>
      if IsZero now then None else
      let s := if bool_decide (data = []) then sess m else emit connected now data (sess m) in
      Some {| sess := s; at_ := if failed then PDone else PWait; cl := cl m;
              seen := seen m ++ data |}
  | AInput now data writes, _, _ => Some (set_sess (onInput now data writes (sess m)) m)
  | ACtl now ctl, _, _ => if decoded ctl then Some (set_sess (onCtl now ctl (sess m)) m) else None
  | ALink connected now, _, _ =>
      if IsZero now then None else Some (set_sess (trackLink connected now (sess m)) m)
  | AVerdict now, _, _ =>
      Some (match verdict now (sess m) with Some r => callClose r (-1) m | None => m end)
  | AClose r code, _, _ => Some (callClose r code m)
  | ATeardown, _, CTeardown r code =>
      Some (set_cl CForget (set_sess (closeTeardown r code (sess m)) m))
  | AForget, _, CForget => Some (set_cl CDone m)
  | _, _, _ => None
  end.

Fixpoint mexec (actions : list action) (m : machine) : option machine :=
  match actions with
  | [] => Some m
  | a :: rest => match mstep a m with Some m' => mexec rest m' | None => None end
  end.
End session.

(** ** Flow control *)

(** The gate exists exactly while the reads are paused, and every channel ever
    made is either the gate or closed. *)
Record flow_ok (f : flowController) : Prop := {
  fo_gate : paused f = match gate f with Some _ => true | None => false end;
  fo_open : forall g, gate f = Some g -> (g < gates f)%nat;
  fo_shut : forall g, g ∈ shut f <-> (g < gates f)%nat /\ gate f <> Some g;
  fo_panic : panicked f = false;
}.

Lemma newFlowController_ok p r : flow_ok (newFlowControllerWith p r).
Proof. split; cbn; try done. intros g. split; [set_solver|]. lia. Qed.

Lemma set_unacked_ok n f : flow_ok f -> flow_ok (set_unacked n f).
Proof. intros [? ? ? ?]. by split. Qed.

Lemma pause_ok f : flow_ok f -> paused f = false -> flow_ok (pause f).
Proof.
  intros [Hg Ho Hs Hp] Hf. rewrite Hf in Hg. destruct (gate f) eqn:E; [done|].
  split; cbn; [done| |  |done].
  - intros g [= <-]. lia.
  - intros g. rewrite Hs. split; [intros [? _]; split; [lia|intros [= <-]; lia]|].
    intros [? Hn]. split; [|done]. destruct (decide (g = gates f)); [congruence|lia].
Qed.

Lemma resume_ok f : flow_ok f -> paused f = true -> flow_ok (resume f).
Proof.
  intros [Hg Ho Hs Hp] Hf. rewrite Hf in Hg. destruct (gate f) as [g|] eqn:E; [|done].
  specialize (Ho g eq_refl). split; cbn; rewrite ?E; [done|done| |].
  - intros x. rewrite elem_of_union, elem_of_singleton, Hs. split.
    + intros [->|[? _]]; done.
    + intros [? _]. destruct (decide (x = g)); [by left|]. right. split; [done|congruence].
  - rewrite Hp. cbn. apply bool_decide_eq_false. rewrite Hs. intros [_ ?]. done.
Qed.

Lemma sent_ok n f : flow_ok f -> flow_ok (sent n f).2.
Proof.
  intros Hf. unfold sent. cbn. destruct (negb (paused f) && _) eqn:E.
  - bool_cases. apply pause_ok; [by apply set_unacked_ok|done].
  - by apply set_unacked_ok.
Qed.

Lemma ack_ok n f : flow_ok f -> flow_ok (ack n f).2.
Proof.
  intros Hf. unfold ack. destruct (n <=? 0); [done|]. cbn. destruct (paused f && _) eqn:E.
  - bool_cases. apply resume_ok; [by apply set_unacked_ok|done].
  - by apply set_unacked_ok.
Qed.

Lemma release_ok f : flow_ok f -> flow_ok (release f).
Proof. intros Hf. unfold release. destruct (paused f) eqn:E; [by apply resume_ok|done]. Qed.

(** The thresholds never change, and a pass of [sent] or [ack] keeps the
    hysteresis: below the pause threshold unless paused. *)
Record level (p r : Z) (f : flowController) : Prop := {
  lv_pause : pauseAbove f = p;
  lv_resume : resumeBelow f = r;
  lv_nonneg : 0 <= unacked f;
  lv_run : paused f = false -> unacked f <= p;
  lv_wait : paused f = true -> r < unacked f;
}.

Lemma sent_level p r n f :
  level p r f -> r <= p -> 0 <= n -> unacked f + n <= max_int64 ->
  level p r (sent n f).2 /\ unacked (sent n f).2 = unacked f + n /\
  shut (sent n f).2 = shut f.
Proof.
  intros [Hp Hr H0 Hrun Hwait] Hrp Hn Hmax. unfold sent. cbn.
  rewrite wrap64_id by (unfold in_int64, min_int64; lia).
  destruct (paused f) eqn:E; cbn.
  - specialize (Hwait eq_refl). split; [|done]. split; cbn; [done|done|lia|congruence|lia].
  - destruct (Z.ltb_spec (pauseAbove f) (unacked f + n)); cbn;
      (split; [|done]); split; cbn; first [done | lia | congruence].
Qed.

Lemma ack_level p r n f :
  level p r f -> r <= p -> n <= max_int64 -> unacked f <= max_int64 ->
  level p r (ack n f).2 /\ unacked (ack n f).2 <= unacked f.
Proof.
  intros [Hp Hr H0 Hrun Hwait] Hrp Hn Hm. unfold ack. destruct (Z.leb_spec n 0).
  { split; [by split|cbn; lia]. }
  rewrite wrap64_id by (unfold in_int64, min_int64, max_int64 in *; lia).
  assert (Hu : (if unacked f - n <? 0 then 0 else unacked f - n) = Z.max 0 (unacked f - n))
    by (destruct (Z.ltb_spec (unacked f - n) 0); lia).
  rewrite Hu. cbn. destruct (paused f) eqn:E; cbn.
  - destruct (Z.leb_spec (Z.max 0 (unacked f - n)) (resumeBelow f)); cbn; (split; [|lia]);
      split; cbn; try done; first [lia | congruence].
  - split; [|lia]. split; cbn; first [done | lia | congruence].
Qed.

Lemma ack_wakes p r n f g :
  level p r f -> flow_ok f -> gate f = Some g -> g ∈ shut (ack n f).2 ->
  unacked (ack n f).2 <= r.
Proof.
  intros [Hp Hr H0 Hrun Hwait] Hf Hg Hin.
  assert (Hn : g ∉ shut f) by (rewrite (fo_shut f Hf); intros [_ ?]; done).
  revert Hin. unfold ack. destruct (n <=? 0); [done|]. cbn.
  destruct (paused f && _) eqn:E; cbn; [|done]. bool_cases. intros _.
  match goal with H : (_ <=? _) = true |- _ => apply Z.leb_le in H; lia end.
Qed.

(** ** The ring *)

Record ring_ok (max : Z) (r : ring) : Prop := {
  ro_max : rmax r = max;
  ro_len : blen (rbuf r) <= max;
}.

(** [write] in one equation: the newest [rmax] bytes, and a flag that is raised
    when the buffer overflows or is overwritten whole. *)
Lemma write_keeps max p r :
  ring_ok max r -> p <> [] ->
  rbuf (write p r) = keep_last (Z.to_nat max) (rbuf r ++ p) /\
  dropped (write p r) = (dropped r || (max <=? blen p) || (max <? blen (rbuf r ++ p)))%bool /\
  rmax (write p r) = max.
Proof.
  intros [<- Hlen] Hp. pose proof (blen_nonneg (rbuf r)) as H0.
  unfold write. rewrite bool_decide_false by done. unfold keep_last.
  destruct (Z.leb_spec (rmax r) (blen p)) as [Hbig|Hsmall]; cbn.
  - split; [|split; [by rewrite orb_true_r|done]].
    rewrite drop_app. rewrite (drop_ge (rbuf r)) by (rewrite length_app; unfold blen in *; lia).
    cbn. f_equal. rewrite length_app. unfold blen in *. lia.
  - rewrite orb_false_r. destruct (Z.ltb_spec 0 (blen (rbuf r ++ p) - rmax r)) as [Ho|Ho]; cbn.
    + split; [f_equal; unfold blen in *; lia|]. split; [|done].
      rewrite (proj2 (Z.ltb_lt _ _)) by lia. by rewrite orb_true_r.
    + split; [|split; [|done]].
      * replace (length (rbuf r ++ p) - Z.to_nat (rmax r))%nat with 0%nat by (unfold blen in *; lia).
        done.
      * rewrite (proj2 (Z.ltb_ge _ _)) by lia. by rewrite orb_false_r.
Qed.

Lemma write_nil r : write [] r = r.
Proof. done. Qed.

Lemma write_ok max p r : 0 <= max -> ring_ok max r -> ring_ok max (write p r).
Proof.
  intros Hm Hr. destruct (decide (p = [])) as [->|Hp]; [done|].
  destruct (write_keeps max p r Hr Hp) as (Hb & _ & Hx). split; [done|].
  rewrite Hb. unfold blen. pose proof (keep_last_le (Z.to_nat max) (rbuf r ++ p)). lia.
Qed.

Lemma newRing_ok max : 0 <= max -> ring_ok max (newRing max).
Proof. intros. by split. Qed.

(** ** What the output path leaves alone *)

Definition core (s : session) :=
  (s_id s, s_agentID s, idleTime s, startedAt s, lastInput s, lastPing s, sawPing s,
   (closing s, subs s, cancelled s, ptyOpen s, ptyIn s, bytesIn s)).

(** The closing reports a session has sent. *)
Definition isClosed (m : message * bool) : bool :=
  match m.1 with MCtl _ (CtlClosed _ _) => true | _ => false end.
Definition closeds (l : list (message * bool)) : nat := length (List.filter isClosed l).

Lemma closeds_snoc l m : closeds (l ++ [m]) = (closeds l + if isClosed m then 1 else 0)%nat.
Proof.
  unfold closeds. rewrite List.filter_app, length_app. cbn. by destruct (isClosed m).
Qed.

Section output.
Context (publish : nat -> option error).

Lemma publishFrames_loop_core fuel : forall data s,
  let s' := publishFrames_loop publish fuel data s in
  core s' = core s /\ buf s' = buf s /\ disconnectedAt s' = disconnectedAt s /\
  (flow_ok (flow s) -> flow_ok (flow s')) /\ shut (flow s') = shut (flow s) /\
  (gates (flow s) <= gates (flow s'))%nat /\ closeds (log s') = closeds (log s).
Proof.
  induction fuel as [|fuel IH]; intros data s; cbn [publishFrames_loop]; [done|].
  destruct data as [|c data]; [done|]. unfold Publish.
  destruct (publish _) as [e|].
  { split_and!; try done. cbn [log set_log snd]. rewrite closeds_snoc. cbn. lia. }
  set (n := Z.min _ _).
  match goal with |- context [publishFrames_loop _ _ ?d ?s1] => specialize (IH d s1) end.
  cbn zeta in IH |- *. destruct IH as (-> & -> & -> & Hf & -> & Hg & ->).
  split_and!; try done.
  - intros Hok. apply Hf. cbn -[sent]. by apply sent_ok.
  - unfold sent. cbn. by destruct (_ && _).
  - etrans; [|exact Hg]. unfold sent. cbn. destruct (_ && _); cbn; lia.
  - cbn [log set_log set_flow set_bytesOut snd]. rewrite closeds_snoc. cbn. lia.
Qed.

Lemma publishFrames_loop_level p r fuel : forall data s,
  r <= p -> level p r (flow s) -> unacked (flow s) + blen data <= max_int64 ->
  let s' := publishFrames_loop publish fuel data s in
  level p r (flow s') /\
  unacked (flow s) <= unacked (flow s') <= unacked (flow s) + blen data.
Proof.
  induction fuel as [|fuel IH]; intros data s Hrp Hl Hm; cbn [publishFrames_loop];
    pose proof (blen_nonneg data); [by split; [|lia]|].
  destruct data as [|c data]; [by split; [|lia]|]. unfold Publish.
  destruct (publish _) as [e|]; [split; [done|cbn in *; lia]|].
  set (n := Z.min (blen (c :: data)) MaxFrameBytes).
  assert (Hn : 0 <= n <= blen (c :: data)) by (unfold n, MaxFrameBytes; lia).
  destruct (sent_level p r n (flow s) Hl Hrp) as (Hl' & Hu & _); [lia..|].
  match goal with |- context [publishFrames_loop _ _ ?d ?s1] => specialize (IH d s1) end.
  cbn -[sent blen] in IH. rewrite Hu, blen_drop, Z2Nat.id in IH by lia.
  cbn zeta. destruct IH as [IH1 IH2]; [done|done|lia|]. split; [done|]. cbn -[sent blen] in *. lia.
Qed.
End output.

(** ** What the console sees *)

Definition frameData (m : message * bool) : bytes :=
  match m with (MOut _ d, true) => d | _ => [] end.

Definition isGap (m : message * bool) : bool :=
  match m with (MCtl _ CtlGap, true) => true | _ => false end.

(** All the output delivered, and the output delivered after the last gap. *)
Definition text (l : list (message * bool)) : bytes := concat (map frameData l).
Definition sinceGap (l : list (message * bool)) : bytes :=
  fold_left (fun acc m => if isGap m then [] else acc ++ frameData m) l [].
Definition gapped (l : list (message * bool)) : bool := existsb isGap l.

(** An output frame of a session: delivered on its subject, never empty, never
    above the frame limit. *)
Definition frame_ok (subject : bytes) (m : message * bool) : Prop :=
  exists d, m = (MOut subject d, true) /\ 0 < blen d <= MaxFrameBytes.

Lemma text_app a b : text (a ++ b) = text a ++ text b.
Proof. unfold text. by rewrite map_app, concat_app. Qed.

Lemma gapped_app a b : gapped (a ++ b) = gapped a || gapped b.
Proof. apply existsb_app. Qed.

Lemma frames_no_gap subject l : Forall (frame_ok subject) l -> gapped l = false.
Proof. induction 1 as [|m l (d & -> & _) _ IH]; [done|]. exact IH. Qed.

Lemma sinceGap_snoc l m :
  sinceGap (l ++ [m]) = if isGap m then [] else sinceGap l ++ frameData m.
Proof. unfold sinceGap. by rewrite fold_left_app. Qed.

Lemma sinceGap_frames subject l fr :
  Forall (frame_ok subject) fr -> sinceGap (l ++ fr) = sinceGap l ++ text fr.
Proof.
  intros Hfr. revert l. induction Hfr as [|m fr (d & -> & _) Hfr IH]; intros l.
  { by rewrite !app_nil_r. }
  rewrite cons_middle, app_assoc, IH, sinceGap_snoc. cbn. by rewrite <- app_assoc.
Qed.

Section delivered.
Context (publish : nat -> option error) (Hpub : forall n, publish n = None).

Lemma publishFrames_loop_log fuel : forall data s,
  (length data <= fuel)%nat ->
  let s' := publishFrames_loop publish fuel data s in
  exists fr, log s' = log s ++ fr /\ text fr = data /\
    Forall (frame_ok (ShellOut (s_agentID s) (s_id s))) fr.
Proof using Hpub.
  induction fuel as [|fuel IH]; intros data s Hlen; cbn [publishFrames_loop].
  { destruct data; [|cbn in Hlen; lia]. exists []. by rewrite app_nil_r. }
  destruct data as [|c data]; [exists []; by rewrite app_nil_r|].
  unfold Publish. rewrite Hpub. set (n := Z.min (blen (c :: data)) MaxFrameBytes).
  assert (Hn : 0 < n <= blen (c :: data) /\ n <= MaxFrameBytes)
    by (unfold n, MaxFrameBytes, blen; cbn; lia).
  match goal with |- context [publishFrames_loop _ _ ?d ?s1] => specialize (IH d s1) end.
  destruct IH as (fr & Hl & Ht & Hf).
  { rewrite length_drop. cbn in Hlen |- *. unfold blen in Hn. lia. }
  eexists (_ :: fr). cbn zeta. rewrite Hl. cbn -[take drop sent]. rewrite <- app_assoc.
  split; [reflexivity|]. split.
  - unfold text in *. cbn -[take drop]. rewrite Ht. apply take_drop.
  - constructor; [|exact Hf]. eexists. split; [reflexivity|].
    unfold blen in *. rewrite length_take. lia.
Qed.

Lemma publishFrames_log data s :
  exists fr, log (publishFrames publish data s) = log s ++ fr /\ text fr = data /\
    Forall (frame_ok (ShellOut (s_agentID s) (s_id s))) fr.
Proof using Hpub. by apply publishFrames_loop_log. Qed.
End delivered.

(** ** One step of the output path *)

(** What is neither acknowledged nor gone: the bytes in flight and in the ring. *)
Definition load (s : session) : Z := unacked (flow s) + blen (rbuf (buf s)).

(** Bytes are held back, or were dropped, only while the link counts as down. *)
Definition held (s : session) : Prop :=
  rbuf (buf s) <> [] \/ dropped (buf s) = true -> IsZero (disconnectedAt s) = false.

Record outstep (n : Z) (s s' : session) : Prop := {
  os_core : core s' = core s;
  os_ok : flow_ok (flow s) -> flow_ok (flow s');
  os_shut : shut (flow s') = shut (flow s);
  os_gates : (gates (flow s) <= gates (flow s'))%nat;
  os_ring : ring_ok RingBytes (buf s) -> ring_ok RingBytes (buf s');
  os_held : held s -> held s';
  os_closed : closeds (log s') = closeds (log s);
  os_level : level PauseAbove ResumeBelow (flow s) -> load s + n <= max_int64 ->
    level PauseAbove ResumeBelow (flow s') /\ load s' <= load s + n;
}.

Lemma outstep_refl n s : 0 <= n -> outstep n s s.
Proof. intros. split; try done. intros ? ?. split; [done|lia]. Qed.

Lemma outstep_trans a b s1 s2 s3 :
  0 <= b -> outstep a s1 s2 -> outstep b s2 s3 -> outstep (a + b) s1 s3.
Proof.
  intros Hb [c1 f1 h1 g1 r1 d1 k1 l1] [c2 f2 h2 g2 r2 d2 k2 l2]. split; try (by auto); try congruence; try lia.
  intros Hl Hm. destruct l1 as [L1 U1]; [done|lia|]. destruct l2 as [L2 U2]; [done|lia|].
  split; [done|lia].
Qed.

Section outsteps.
Context (publish : nat -> option error).

Lemma publishFrames_outstep data s : outstep (blen data) s (publishFrames publish data s).
Proof.
  unfold publishFrames.
  destruct (publishFrames_loop_core publish (length data) data s) as (Hc & Hb & Hd & Hf & Hs & Hg & Hk).
  split; try done.
  - by rewrite Hb.
  - unfold held. by rewrite Hb, Hd.
  - unfold load. intros Hl Hm. pose proof (blen_nonneg (rbuf (buf s))).
    destruct (publishFrames_loop_level publish PauseAbove ResumeBelow (length data) data s) as [Hl' Hu];
      [done|done|lia|].
    split; [done|]. rewrite Hb. lia.
Qed.

Lemma publishGap_outstep s : outstep 0 s (publishCtl publish CtlGap s).
Proof.
  split; try done.
  - unfold publishCtl, Publish. cbn [log set_log snd]. rewrite closeds_snoc. cbn. lia.
  - intros ? ?. split; [done|]. unfold load, publishCtl. cbn. lia.
Qed.

Lemma flushLocked_outstep s : held s -> outstep 0 s (flushLocked publish s).
Proof.
  intros Hheld. unfold flushLocked. cbn -[publishFrames publishCtl].
  destruct (IsZero (disconnectedAt s)) eqn:Ez; cbn -[publishFrames publishCtl].
  { assert (disconnectedAt s = zero_time) by by apply Z.eqb_eq. split; try done.
    - intros _ Hx. specialize (Hheld Hx). congruence.
    - intros ? ?. split; [done|]. unfold load. cbn. lia. }
  set (s1 := set_buf _ _).
  assert (Hrest : outstep (blen (rbuf (buf s))) s1
    (publishFrames publish (rbuf (buf s))
      (if dropped (buf s) then publishCtl publish CtlGap s1 else s1))).
  { eapply (outstep_trans 0); [apply blen_nonneg| |apply publishFrames_outstep].
    destruct (dropped (buf s)); [apply publishGap_outstep|by apply outstep_refl]. }
  destruct Hrest as [c f h g r d k l]. split; try done.
  - intros Hr. apply r. cbn. destruct Hr as [-> _]. by apply newRing_ok.
  - intros _. apply d. cbn. intros [?|?]; done.
  - intros Hl Hm. assert (H1 : load s1 = unacked (flow s)) by (unfold load, s1, blen; cbn; lia).
    rewrite H1 in l. unfold load in Hm. destruct l as [Hl' Hu]; [done|lia|].
    split; [done|]. unfold load at 2. lia.
Qed.

Lemma markDisconnected_outstep now s : outstep 0 s (markDisconnected now s).
Proof.
  unfold markDisconnected. destruct (IsZero (disconnectedAt s)) eqn:E; [|by apply outstep_refl].
  split; try done.
  - unfold held. cbn. intros H Hx. specialize (H Hx). congruence.
  - unfold load. cbn. intros ? ?. split; [done|lia].
Qed.

Lemma trackLink_outstep c now s : held s -> outstep 0 s (trackLink publish c now s).
Proof.
  intros H. destruct c; [by apply flushLocked_outstep|apply markDisconnected_outstep].
Qed.

Lemma emit_outstep c now data s :
  IsZero now = false -> held s -> ring_ok RingBytes (buf s) ->
  outstep (blen data) s (emit publish c now data s).
Proof.
  intros Hnow Hheld Hring. unfold emit. destruct c; cbn -[publishFrames markDisconnected].
  { eapply (outstep_trans 0); [apply blen_nonneg|by apply flushLocked_outstep|].
    apply publishFrames_outstep. }
  pose proof (markDisconnected_outstep now s) as [c f h g r d k l].
  assert (Hz : IsZero (disconnectedAt (markDisconnected now s)) = false)
    by (unfold markDisconnected; destruct (IsZero (disconnectedAt s)) eqn:E; [exact Hnow|exact E]).
  split; try done.
  - intros Hr. by apply write_ok; [|apply r].
  - intros _ _. exact Hz.
  - intros Hl Hm. pose proof (blen_nonneg data).
    destruct l as [L U]; [exact Hl|lia|]. split; [exact L|]. unfold load in *.
    cbn -[markDisconnected write blen].
    destruct (decide (data = [])) as [->|Hne]; [rewrite write_nil; lia|].
    destruct (write_keeps RingBytes data (buf (markDisconnected now s))) as (-> & _); [by apply r|done|].
    assert (blen (keep_last (Z.to_nat RingBytes) (rbuf (buf (markDisconnected now s)) ++ data)) <=
            blen (rbuf (buf (markDisconnected now s))) + blen data)
      by (rewrite <- blen_app; unfold blen; rewrite keep_last_length; lia).
    lia.
Qed.
End outsteps.

(** ** The invariant of a session *)

(** The pump may still hand a read to [emit] without passing [wait] again. *)
Definition armed (m : machine) : Prop :=
  match at_ m with
  | PRead | PHave _ _ => True
  | PBlocked g => g ∈ shut (flow (sess m))
  | _ => False
  end.

Definition torn (c : closer) : bool := match c with CForget | CDone => true | _ => false end.

Record minv (m : machine) : Prop := {
  mi_flow : flow_ok (flow (sess m));
  mi_ring : ring_ok RingBytes (buf (sess m));
  mi_held : held (sess m);
  mi_blocked : forall g, at_ m = PBlocked g -> (g < gates (flow (sess m)))%nat;
  mi_data : forall d b, at_ m = PHave d b -> blen d <= MaxFrameBytes;
  mi_closing : closing (sess m) = match cl m with CNone => false | _ => true end;
  mi_pty : ptyOpen (sess m) = negb (torn (cl m));
  mi_subs : torn (cl m) = true -> subs (sess m) = [];
  mi_cancelled : cancelled (sess m) = torn (cl m);
  mi_closed : closeds (log (sess m)) = if torn (cl m) then 1%nat else 0%nat;
  mi_bound : closing (sess m) = false ->
    level PauseAbove ResumeBelow (flow (sess m)) /\
    load (sess m) <= PauseAbove + RingBytes + MaxFrameBytes /\
    (armed m -> load (sess m) <= PauseAbove + RingBytes);
}.

Lemma spawn_inv id agentID idle now : minv (spawn (started id agentID idle now)).
Proof.
  split; cbn; try done.
  - apply newFlowController_ok.
  - by intros [?|?].
Qed.

Lemma core_eq s s' : core s' = core s ->
  closing s' = closing s /\ subs s' = subs s /\ cancelled s' = cancelled s /\
  ptyOpen s' = ptyOpen s /\ s_id s' = s_id s /\ s_agentID s' = s_agentID s.
Proof. unfold core. intros [= ]. split_and!; done. Qed.

(** A step of the output path of [n] bytes, which leaves the pump at [p]. *)
Lemma minv_outstep n s' p m x :
  minv m -> outstep n (sess m) s' -> 0 <= n <= MaxFrameBytes ->
  (forall g, p = PBlocked g -> at_ m = p) ->
  (forall d b, p = PHave d b -> at_ m = p) ->
  (n = 0 /\ p = at_ m \/ armed m /\ p <> PRead /\ (forall g, p <> PBlocked g) /\ (forall d b, p <> PHave d b)) ->
  minv {| sess := s'; at_ := p; cl := cl m; seen := x |}.
Proof.
  intros [mf mr mh mb md mc mp ms mx mk mbd] [oc off oh og orr od ok ol] Hn Hp Hd Harm.
  destruct (core_eq _ _ oc) as (Ec & Es & Ex & Ep & _ & _).
  split; cbn; rewrite ?Ec, ?Es, ?Ex, ?Ep, ?ok; auto.
  - intros g ->. specialize (mb g (Hp g eq_refl)). lia.
  - intros d b ->. eapply md, Hd. done.
  - intros Hcl. destruct (mbd Hcl) as (L & B & A).
    destruct Harm as [[-> ->]|(Ha & H1 & H2 & H3)].
    + destruct ol as [L' U]; [done|unfold PauseAbove, RingBytes, MaxFrameBytes, max_int64 in *; lia|].
      split; [done|]. split; [lia|]. intros Ha. unfold armed in *. cbn in Ha. rewrite oh in Ha.
      specialize (A Ha). lia.
    + specialize (A Ha).
      destruct ol as [L' U]; [done|unfold PauseAbove, RingBytes, MaxFrameBytes, max_int64 in *; lia|].
      split; [done|]. split; [lia|]. unfold armed; cbn. by destruct p; naive_solver.
Qed.

(** A move of the pump alone. *)
Lemma minv_at p m :
  minv m ->
  (forall g, p = PBlocked g -> (g < gates (flow (sess m)))%nat) ->
  (forall d b, p = PHave d b -> blen d <= MaxFrameBytes) ->
  (closing (sess m) = false -> armed (set_at p m) -> load (sess m) <= PauseAbove + RingBytes) ->
  minv (set_at p m).
Proof.
  intros [? ? ? ? ? ? ? ? ? ? mbd] Hg Hd Ha. split; cbn; auto.
  intros Hc. destruct (mbd Hc) as (L & B & _). auto.
Qed.

Lemma minv_wait m :
  minv m ->
  minv (set_at (match gate (flow (sess m)) with None => PRead | Some g => PBlocked g end) m).
Proof.
  intros Hm. pose proof (mi_flow m Hm) as Hf. apply minv_at; [done| | |].
  - intros g. destruct (gate (flow (sess m))) as [g'|] eqn:E; [|done]. intros [= <-].
    by apply (fo_open _ Hf).
  - intros d b. by destruct (gate (flow (sess m))).
  - intros Hc. destruct (mi_bound m Hm Hc) as ([_ _ _ Hrun _] & _ & _).
    unfold armed. cbn. destruct (gate (flow (sess m))) as [g|] eqn:E.
    + rewrite (fo_shut _ Hf). intros [_ ?]. done.
    + intros _. pose proof (fo_gate _ Hf) as Hg. rewrite E in Hg. specialize (Hrun Hg).
      destruct (mi_ring m Hm) as [_ Hr]. unfold load. lia.
Qed.

Lemma minv_ack n m :
  minv m -> n <= max_int64 -> minv (set_sess (set_flow (ack n (flow (sess m))).2 (sess m)) m).
Proof.
  intros Hm Hn. pose proof (mi_flow m Hm) as Hf.
  assert (Hg : gates (ack n (flow (sess m))).2 = gates (flow (sess m)))
    by (unfold ack; destruct (n <=? 0); cbn; [done|destruct (_ && _); done]).
  destruct Hm as [mf mr mh mb md mc mp ms mx mk mbd]. split; cbn -[ack]; auto.
  - by apply ack_ok.
  - rewrite Hg. exact mb.
  - intros Hc. destruct (mbd Hc) as (L & B & A).
    pose proof (blen_nonneg (rbuf (buf (sess m)))).
    destruct (ack_level PauseAbove ResumeBelow n (flow (sess m))) as [L' U]; [done..| |].
    { unfold load, PauseAbove, RingBytes, MaxFrameBytes, max_int64 in *. lia. }
    split; [done|]. unfold load in *. cbn -[ack]. split; [lia|].
    unfold armed in *. cbn -[ack] in *. destruct (at_ m) as [|g| | |] eqn:Eat; try lia.
    intros Hin. destruct (decide (gate (flow (sess m)) = Some g)) as [Eg|Eg].
    + pose proof (ack_wakes _ _ n _ g L Hf Eg Hin). destruct mr as [_ Hr].
      unfold PauseAbove, ResumeBelow in *. lia.
    + assert (g ∈ shut (flow (sess m))) by (rewrite (fo_shut _ Hf); split; [by apply mb|done]).
      specialize (A ltac:(done)). lia.
Qed.

Lemma minv_callClose r code m : minv m -> minv (callClose r code m).
Proof.
  intros Hm. unfold callClose, closeBegin. destruct (closing (sess m)) eqn:E; [done|].
  destruct Hm as [mf mr mh mb md mc mp ms mx mk mbd]. rewrite E in mc.
  by destruct (cl m).
Qed.

Lemma minv_teardown publish r code m :
  minv m -> cl m = CTeardown r code ->
  minv (set_cl CForget (set_sess (closeTeardown publish r code (sess m)) m)).
Proof.
  intros [mf mr mh mb md mc mp ms mx mk mbd] Ecl. rewrite Ecl in *.
  split; cbn -[closeds]; auto.
  - by apply release_ok.
  - intros g Hg. specialize (mb g Hg). unfold release. by destruct (paused _).
  - rewrite closeds_snoc, mk. done.
  - by rewrite mc.
Qed.

Theorem mstep_inv publish a m m' : minv m -> mstep publish a m = Some m' -> minv m'.
Proof.
  intros Hm Hs. destruct a; cbn -[emit trackLink closeTeardown callClose] in Hs.
  - destruct (at_ m) eqn:E; try done. injection Hs as <-. by apply minv_wait.
  - destruct (at_ m) as [|g| | |] eqn:E; try done. unfold waitPasses in Hs.
    case_bool_decide as Hin; [|done]. injection Hs as <-. apply minv_at; try done.
    intros Hc _. apply (mi_bound m Hm Hc). unfold armed. by rewrite E.
  - destruct (at_ m) eqn:E; try done. destruct (cancelled (sess m)); [|done].
    injection Hs as <-. by apply minv_at.
  - destruct (at_ m) eqn:E; try done. destruct (Z.leb_spec (blen data) MaxFrameBytes); [|done].
    injection Hs as <-. apply minv_at; try done.
    + by intros d b [= <- <-].
    + intros Hc _. apply (mi_bound m Hm Hc). unfold armed. by rewrite E.
  - destruct (at_ m) as [| | |data failed|] eqn:E; try done.
    destruct (IsZero now) eqn:Ez; [done|]. injection Hs as <-.
    pose proof (mi_data m Hm _ _ E). pose proof (blen_nonneg data).
    eapply (minv_outstep (blen data)); [done| |done|by destruct failed..|].
    + case_bool_decide as Hd; [subst; by apply outstep_refl|].
      apply emit_outstep; [done|apply Hm..].
    + right. split; [unfold armed; by rewrite E|]. by destruct failed.
  - injection Hs as <-. unfold onInput. destruct (bool_decide _); [by destruct m|].
    destruct Hm. by split.
  - destruct (decoded ctl) eqn:Ed; [|done]. injection Hs as <-. unfold onCtl.
    destruct ctl as [[[n|] ev]|]; cbn in Ed.
    + bool_cases. assert (Hm' := minv_ack n m Hm ltac:(by apply Z.leb_le)).
      destruct (bool_decide _); [|done]. destruct Hm'. by split.
    + destruct (bool_decide _); destruct Hm; by split.
    + by destruct m.
  - destruct (IsZero now); [done|]. injection Hs as <-.
    eapply (minv_outstep 0); [done|apply trackLink_outstep, Hm|done|done|done|by left].
  - injection Hs as <-. destruct (verdict now (sess m)); [by apply minv_callClose|done].
  - injection Hs as <-. by apply minv_callClose.
  - destruct (cl m) eqn:E; try done; destruct (at_ m); try done; injection Hs as <-;
      by apply minv_teardown.
  - destruct (cl m) eqn:E; try done; destruct (at_ m); try done; injection Hs as <-;
      destruct Hm as [mf mr mh mb md mc mp ms mx mk mbd]; rewrite E in *; by split.
Qed.

Lemma mexec_inv publish actions : forall m m',
  minv m -> mexec publish actions m = Some m' -> minv m'.
Proof.
  induction actions as [|a actions IH]; intros m m' Hm; cbn [mexec]; [by intros [= <-]|].
  destruct (mstep publish a m) as [m1|] eqn:E; [|done]. apply IH. by eapply mstep_inv.
Qed.

(** ** Claims *)

(** C31: In every interleaving of the pump, the monitor, the control channel
    and the callers of [close], as long as the session is not closing, the
    bytes published and not acknowledged stay between 0 and the pause threshold
    plus one ring plus one frame, whatever the connection answers; a pump that
    waits is waiting for more than [ResumeBelow] bytes to be acknowledged or
    can go on at once (no wake-up is lost); and no channel is ever closed
    twice. *)
Theorem flow_control_bounds_the_output publish id agentID idle now actions m :
  mexec publish actions (spawn (started id agentID idle now)) = Some m ->
  panicked (flow (sess m)) = false /\
  (closing (sess m) = false ->
    0 <= unackedBytes (flow (sess m)) <= PauseAbove + RingBytes + MaxFrameBytes) /\
  (forall g, at_ m = PBlocked g ->
    is_Some (mstep publish APass m) \/
    isPaused (flow (sess m)) = true /\
    (closing (sess m) = false -> ResumeBelow < unackedBytes (flow (sess m)))).
Proof.
  intros Hx. assert (Hm : minv m) by (eapply mexec_inv; [apply spawn_inv|exact Hx]).
  pose proof (mi_flow m Hm) as Hf. pose proof (blen_nonneg (rbuf (buf (sess m)))).
  split; [apply Hf|]. split.
  - intros Hc. destruct (mi_bound m Hm Hc) as ([_ _ L _ _] & B & _). unfold load in B.
    unfold unackedBytes. lia.
  - intros g Hg. pose proof (mi_blocked m Hm g Hg).
    destruct (decide (gate (flow (sess m)) = Some g)) as [Eg|Eg].
    + right. pose proof (fo_gate _ Hf) as Hp. rewrite Eg in Hp. split; [done|].
      intros Hc. by apply (mi_bound m Hm Hc).
    + left. cbn. rewrite Hg. unfold waitPasses. rewrite bool_decide_true; [eauto|].
      by apply (fo_shut _ Hf).
Qed.

(** The machine after a read of two bytes on a live link. *)
Definition demo_actions : list action := [AWait; ARead (str "hi") false; AEmit true 5].
Definition demo_session : session := started (str "s1") (str "a") 0 0.
Definition always_ok (_ : nat) : option error := None.

Lemma flow_control_bounds_the_output_witness :
  exists m, mexec always_ok demo_actions (spawn demo_session) = Some m /\
    0 <= unackedBytes (flow (sess m)) <= PauseAbove + RingBytes + MaxFrameBytes.
Proof.
  eexists. split; [vm_compute; reflexivity|].
  apply (flow_control_bounds_the_output always_ok (str "s1") (str "a") 0 0 demo_actions);
    vm_compute; reflexivity.
Defined.

(** Whatever is written, the ring holds exactly the newest [max] bytes of
    it; if nothing was reported dropped it holds all of it, and a reported drop
    means at least [max] bytes were written. *)
Theorem ring_keeps_the_newest max ps :
  0 < max ->
  let r := fold_left (fun r p => write p r) ps (newRing max) in
  rbuf r = keep_last (Z.to_nat max) (concat ps) /\
  (dropped r = false -> rbuf r = concat ps) /\
  (dropped r = true -> max <= blen (concat ps)).
Proof.
  intros Hmax. cbn zeta. induction ps as [|p ps IH] using rev_ind; [done|].
  rewrite fold_left_app, concat_app. cbn [fold_left concat]. rewrite app_nil_r.
  set (r := fold_left _ ps _) in *. destruct IH as (Hb & Hd & Hl).
  assert (Hok : ring_ok max r).
  { split; [|rewrite Hb; unfold blen; pose proof (keep_last_le (Z.to_nat max) (concat ps)); lia].
    subst r. clear. induction ps as [|p ps IH] using rev_ind; [done|].
    rewrite fold_left_app. cbn. unfold write. by repeat case_match. }
  destruct (decide (p = [])) as [->|Hp]; [by rewrite write_nil, app_nil_r|].
  destruct (write_keeps max p r Hok Hp) as (Eb & Ed & _). rewrite Eb, Ed.
  assert (Ek : keep_last (Z.to_nat max) (rbuf r ++ p) = keep_last (Z.to_nat max) (concat ps ++ p))
    by (rewrite Hb; apply keep_last_app).
  split; [done|]. pose proof (blen_nonneg (concat ps)). split.
  - intros Hf. bool_cases. rewrite Ek, keep_last_all; [done|].
    match goal with H : (max <? _) = false |- _ => apply Z.ltb_ge in H; rewrite Hd in H by done end.
    unfold blen in *. lia.
  - intros Hf. rewrite blen_app. apply orb_true_iff in Hf as [Hf|Hf].
    + apply orb_true_iff in Hf as [Hf|Hf]; [specialize (Hl Hf)|apply Z.leb_le in Hf]; 
        pose proof (blen_nonneg p); lia.
    + apply Z.ltb_lt in Hf. rewrite blen_app in Hf. rewrite Hb in Hf.
      assert (blen (keep_last (Z.to_nat max) (concat ps)) <= blen (concat ps))
        by (unfold blen; rewrite keep_last_length; lia). lia.
Qed.

Lemma ring_keeps_the_newest_witness :
  rbuf (fold_left (fun r p => write p r) [str "abc"; str "de"] (newRing 4)) =
  keep_last 4 (str "abcde").
Proof. apply (ring_keeps_the_newest 4 [str "abc"; str "de"]). reflexivity. Defined.

(** What the console was told of the output [x]: nothing out of order, all of
    it unless a gap was announced or is pending, and everything since the last
    gap. *)
Record told (s : session) (x : bytes) : Prop := {
  t_sub : sublist (text (log s) ++ rbuf (buf s)) x;
  t_all : gapped (log s) = false -> dropped (buf s) = false -> text (log s) ++ rbuf (buf s) = x;
  t_tail : (if dropped (buf s) then rbuf (buf s) else sinceGap (log s) ++ rbuf (buf s)) `suffix_of` x;
}.

Section told.
Context (publish : nat -> option error) (Hpub : forall n, publish n = None).

Lemma told_same s s' x : told s x -> log s' = log s -> buf s' = buf s -> told s' x.
Proof. intros [? ? ?] El Eb. split; by rewrite ?El, ?Eb. Qed.

(** Frames published while the ring is empty. *)
Lemma told_frames data s x :
  told s x -> rbuf (buf s) = [] -> dropped (buf s) = false ->
  told (publishFrames publish data s) (x ++ data).
Proof using Hpub.
  intros [Hs Ha Ht] Hb Hd. rewrite Hb, Hd, ?app_nil_r in *.
  destruct (publishFrames_log publish Hpub data s) as (fr & El & Et & Hf).
  destruct (publishFrames_loop_core publish (length data) data s) as (_ & Eb & _).
  unfold publishFrames in *. split; rewrite ?El, ?Eb, ?Hb, ?Hd, ?app_nil_r, ?text_app, ?Et.
  - by apply sublist_app.
  - rewrite gapped_app, (frames_no_gap _ _ Hf), orb_false_r. intros Hg _. by rewrite Ha.
  - rewrite (sinceGap_frames _ _ _ Hf), Et. destruct Ht as [k ->]. exists k. by rewrite app_assoc.
Qed.

(** A message that carries no output, with or without a gap. *)
Lemma told_ctl e s x :
  told s x -> (e = CtlGap -> dropped (buf s) = true) ->
  told (set_buf (buf s) (publishCtl publish e s)) x.
Proof using Hpub.
  intros [Hs Ha Ht] He. unfold publishCtl, Publish. rewrite Hpub.
  split; cbn [log buf set_buf set_log snd].
  - by rewrite text_app, (app_nil_r (text _)).
  - rewrite gapped_app, text_app, (app_nil_r (text _)). intros Hg%orb_false_iff. tauto.
  - rewrite sinceGap_snoc. destruct e; cbn; [by rewrite He in *|]. by rewrite app_nil_r.
Qed.

Lemma flushLocked_empties s :
  held s -> rbuf (buf (flushLocked publish s)) = [] /\ dropped (buf (flushLocked publish s)) = false.
Proof.
  intros Hh. unfold flushLocked. cbn -[publishFrames publishCtl].
  destruct (IsZero (disconnectedAt s)) eqn:Ez; cbn -[publishFrames publishCtl].
  - unfold held in Hh. destruct (rbuf (buf s)) eqn:Eb, (dropped (buf s)) eqn:Ed; cbn; try done;
      (discriminate Hh || (specialize (Hh ltac:(auto)); congruence)).
  - set (s1 := if dropped (buf s) then _ else _). unfold publishFrames.
    destruct (publishFrames_loop_core publish (length (rbuf (buf s))) (rbuf (buf s)) s1) as (_ & Eb & _).
    rewrite Eb. subst s1. by destruct (dropped (buf s)).
Qed.

Lemma told_flush s x : told s x -> told (flushLocked publish s) x.
Proof using Hpub.
  intros [Hs Ha Ht]. unfold flushLocked. cbn -[publishFrames publishCtl].
  destruct (IsZero (disconnectedAt s)); cbn -[publishFrames publishCtl]; [by split|].
  set (s1 := if dropped (buf s) then _ else _).
  assert (El1 : log s1 = log s ++
      if dropped (buf s) then [(MCtl (ShellCtl (s_agentID s) (s_id s)) CtlGap, true)] else []).
  { subst s1. unfold publishCtl, Publish. rewrite Hpub.
    destruct (dropped (buf s)); cbn; by rewrite ?app_nil_r. }
  assert (Eb1 : buf s1 = newRing (rmax (buf s))) by (subst s1; by destruct (dropped (buf s))).
  destruct (publishFrames_log publish Hpub (rbuf (buf s)) s1) as (fr & El & Et & Hf).
  destruct (publishFrames_loop_core publish (length (rbuf (buf s))) (rbuf (buf s)) s1) as (_ & Eb & _).
  fold (publishFrames publish (rbuf (buf s)) s1) in Eb.
  split; rewrite ?El, ?Eb, ?Eb1; cbn [newRing rbuf dropped]; rewrite ?app_nil_r, ?text_app, ?Et, ?El1.
  - rewrite text_app. destruct (dropped (buf s)); cbn; by rewrite ?app_nil_r.
  - rewrite gapped_app, (frames_no_gap _ _ Hf), orb_false_r, gapped_app, text_app.
    destruct (dropped (buf s)) eqn:Ed; cbn; rewrite ?orb_true_r, ?orb_false_r; [done|].
    rewrite app_nil_r. auto.
  - rewrite (sinceGap_frames _ _ _ Hf), Et. destruct (dropped (buf s)).
    + by rewrite sinceGap_snoc.
    + by rewrite app_nil_r.
Qed.

Lemma told_write max p s x :
  ring_ok max (buf s) -> told s x -> told (set_buf (write p (buf s)) s) (x ++ p).
Proof.
  intros Hr [Hs Ha Ht]. destruct (decide (p = [])) as [->|Hp].
  { rewrite write_nil, app_nil_r. by split. }
  destruct (write_keeps max p (buf s) Hr Hp) as (Eb & Ed & _).
  pose proof (keep_last_suffix (Z.to_nat max) (rbuf (buf s) ++ p)) as Hsuf.
  assert (Hall : dropped (write p (buf s)) = false ->
    dropped (buf s) = false /\ rbuf (write p (buf s)) = rbuf (buf s) ++ p).
  { rewrite Ed, Eb. intros Hf. bool_cases. split; [done|]. apply keep_last_all.
    match goal with H : (max <? _) = false |- _ => apply Z.ltb_ge in H end. unfold blen in *. lia. }
  split; cbn [log buf set_buf].
  - trans (text (log s) ++ (rbuf (buf s) ++ p)).
    + apply sublist_app; [done|]. rewrite Eb. apply sublist_drop.
    + rewrite app_assoc. by apply sublist_app.
  - intros Hg Hd. destruct (Hall Hd) as [H0 ->]. by rewrite app_assoc, Ha.
  - destruct (dropped (write p (buf s))) eqn:E.
    + rewrite Eb. etrans; [exact Hsuf|].
      assert (Hb : rbuf (buf s) `suffix_of` x).
      { destruct (dropped (buf s)); [done|]. etrans; [|exact Ht]. by exists (sinceGap (log s)). }
      destruct Hb as [k ->]. exists k. by rewrite app_assoc.
    + destruct (Hall eq_refl) as [H0 ->]. rewrite H0 in Ht. destruct Ht as [k ->].
      exists k. by rewrite !app_assoc.
Qed.

Lemma told_emit c now data s x :
  held s -> ring_ok RingBytes (buf s) -> told s x ->
  told (emit publish c now data s) (x ++ data).
Proof using Hpub.
  intros Hh Hr Ht. unfold emit. destruct c; cbn [negb].
  - destruct (flushLocked_empties s Hh). apply told_frames; [by apply told_flush|done..].
  - assert (Ht' : told (markDisconnected now s) x)
      by (eapply told_same; [exact Ht|unfold markDisconnected; by destruct (IsZero _)..]).
    eapply told_write; [|done]. unfold markDisconnected. destruct (IsZero _); exact Hr.
Qed.

Lemma told_mstep a m m' :
  minv m -> mstep publish a m = Some m' -> told (sess m) (seen m) -> told (sess m') (seen m').
Proof using Hpub.
  intros Hm Hs Ht. destruct a; cbn -[emit trackLink closeTeardown callClose onInput onCtl] in Hs.
  1-4: destruct (at_ m); try done; repeat case_match; try done; by injection Hs as <-.
  - destruct (at_ m) as [| | |d failed|]; try done. destruct (IsZero now); [done|].
    injection Hs as <-. cbn -[emit]. case_bool_decide as Hd.
    + subst. by rewrite app_nil_r.
    + apply told_emit; [apply Hm..|done].
  - injection Hs as <-. eapply told_same; [exact Ht|unfold onInput; cbn; by destruct (bool_decide _)..].
  - destruct (decoded ctl); [|done]. injection Hs as <-.
    eapply told_same; [exact Ht|unfold onCtl; cbn; repeat case_match; done..].
  - destruct (IsZero now); [done|]. injection Hs as <-. cbn. unfold trackLink. destruct connected.
    + by apply told_flush.
    + eapply told_same; [exact Ht|unfold markDisconnected; by destruct (IsZero _)..].
  - injection Hs as <-. destruct (verdict now (sess m)); [|done].
    unfold callClose, closeBegin. destruct (closing (sess m)); [done|]. by eapply told_same.
  - injection Hs as <-. unfold callClose, closeBegin.
    destruct (closing (sess m)); [done|]. by eapply told_same.
  - destruct (cl m); try done; destruct (at_ m); try done; injection Hs as <-;
      (eapply told_same; [by apply (told_ctl (CtlClosed r code))|done|done]).
  - destruct (cl m); try done; destruct (at_ m); try done; by injection Hs as <-.
Qed.
End told.

(** C30: While every publish is accepted, in every interleaving, what the
    console received on the output subject, followed by what the ring still
    holds, is the PTY's output in order with pieces elided; nothing is elided
    unless a gap was announced or one is pending; and everything delivered
    since the last announced gap is the contiguous end of the output. *)
Theorem output_is_never_lost_silently publish id agentID idle now actions m :
  (forall n, publish n = None) ->
  mexec publish actions (spawn (started id agentID idle now)) = Some m ->
  let s := sess m in
  sublist (text (log s) ++ rbuf (buf s)) (seen m) /\
  (gapped (log s) = false -> dropped (buf s) = false -> text (log s) ++ rbuf (buf s) = seen m) /\
  (dropped (buf s) = false -> sinceGap (log s) ++ rbuf (buf s) `suffix_of` seen m).
Proof.
  intros Hpub Hx. cbn zeta.
  assert (Ht : told (sess m) (seen m)).
  { assert (H0 : minv (spawn (started id agentID idle now))) by apply spawn_inv.
    assert (H1 : told (sess (spawn (started id agentID idle now))) (seen (spawn (started id agentID idle now))))
      by (split; [constructor|done|by exists []]).
    revert H0 H1 Hx. generalize (spawn (started id agentID idle now)).
    induction actions as [|a actions IH]; intros m0 H0 H1; cbn [mexec]; [by intros [= <-]|].
    destruct (mstep publish a m0) as [m1|] eqn:E; [|done].
    apply IH; [by eapply mstep_inv|by eapply told_mstep]. }
  destruct Ht as [? ? Htl]. split; [done|]. split; [done|]. intros E. by rewrite E in Htl.
Qed.

Lemma output_is_never_lost_silently_witness :
  exists m, mexec always_ok demo_actions (spawn demo_session) = Some m /\
    text (log (sess m)) ++ rbuf (buf (sess m)) = seen m.
Proof.
  eexists. split; [vm_compute; reflexivity|].
  apply (output_is_never_lost_silently always_ok (str "s1") (str "a") 0 0 demo_actions);
    try done; vm_compute; reflexivity.
Defined.

(** ** Timeouts *)

Lemma trackLink_core publish c now s : held s -> core (trackLink publish c now s) = core s.
Proof. intros H. by apply trackLink_outstep. Qed.

Lemma trackLink_down publish c now s :
  disconnectedAt (trackLink publish c now s) =
  if c then zero_time else if IsZero (disconnectedAt s) then now else disconnectedAt s.
Proof.
  destruct c; unfold trackLink, markDisconnected; [|by destruct (IsZero _)].
  unfold flushLocked. cbn -[publishFrames publishCtl].
  destruct (IsZero (disconnectedAt s)); cbn -[publishFrames publishCtl]; [done|].
  set (s1 := if dropped (buf s) then _ else _). unfold publishFrames.
  destruct (publishFrames_loop_core publish (length (rbuf (buf s))) (rbuf (buf s)) s1) as (_ & _ & -> & _).
  subst s1. by destruct (dropped (buf s)).
Qed.

Lemma Sub_gt now t d : min_int64 <= d < max_int64 -> (d <? Sub now t) = (d <? now - t).
Proof.
  intros Hd. unfold Sub. apply eq_iff_eq_true. rewrite !Z.ltb_lt. by apply sat64_gt.
Qed.

Lemma link_overdue (c : bool) now down :
  IsZero now = false ->
  negb (IsZero (if c then zero_time else if IsZero down then now else down)) &&
    (disconnectGrace <? Sub now (if c then zero_time else if IsZero down then now else down)) = true <->
  ~ (c = true \/ IsZero down = true \/ now - down <= disconnectGrace).
Proof.
  intros Hnow. rewrite Sub_gt by (unfold disconnectGrace, Second, min_int64, max_int64; lia).
  destruct c; [cbn; split; [done|tauto]|]. unfold disconnectGrace, Second.
  destruct (IsZero down) eqn:Ez; rewrite ?Hnow, ?Ez; cbn [negb andb]; rewrite Z.ltb_lt.
  - split; [lia|tauto].
  - split; [intros ? [?|[?|?]]; try done; lia|]. intros Hn. apply Z.nle_gt. tauto.
Qed.

(** In any state an interleaving can reach, a monitor tick leaves the
    session alone exactly when the link is up or went down at most 60 s ago,
    the last key press is within the idle timeout, and the bridge pinged within
    65 s, or never pinged but the session is at most 90 s old; otherwise it
    names the first of these that fails, in this order. *)
Theorem tick_closes_exactly_overdue_sessions publish id agentID idle now0 actions m c now :
  mexec publish actions (spawn (started id agentID idle now0)) = Some m ->
  min_int64 <= idleTime (sess m) < max_int64 -> IsZero now = false ->
  let s := sess m in
  let linkOk := c = true \/ IsZero (disconnectedAt s) = true \/ now - disconnectedAt s <= disconnectGrace in
  let idleOk := now - lastInput s <= idleTime s in
  let pingOk := if sawPing s then now - lastPing s <= pingTimeout
                else now - startedAt s <= firstPingGrace in
  match (checkTimeouts publish c now s).1 with
  | None => linkOk /\ idleOk /\ pingOk
  | Some reasonDisconnected => ~ linkOk
  | Some reasonIdle => linkOk /\ ~ idleOk
  | Some reasonServerGone => linkOk /\ idleOk /\ ~ pingOk
  | Some _ => False
  end.
Proof.
  intros Hx Hi Hnow. assert (Hm : minv m) by (eapply mexec_inv; [apply spawn_inv|exact Hx]).
  cbn zeta. unfold checkTimeouts. cbn [fst].
  assert (Hc := trackLink_core publish c now (sess m) (mi_held m Hm)).
  assert (Hd := trackLink_down publish c now (sess m)).
  set (s' := trackLink publish c now (sess m)) in *.
  assert (Ecore : lastInput s' = lastInput (sess m) /\ idleTime s' = idleTime (sess m) /\
    sawPing s' = sawPing (sess m) /\ lastPing s' = lastPing (sess m) /\
    startedAt s' = startedAt (sess m)) by (unfold core in Hc; by injection Hc).
  destruct Ecore as (E1 & E2 & E3 & E4 & E5). unfold verdict. rewrite E1, E2, E3, E4, E5, Hd.
  clear Hc Hd E1 E2 E3 E4 E5. rewrite (Sub_gt _ _ (idleTime (sess m))) by done.
  pose proof (link_overdue c now (disconnectedAt (sess m)) Hnow) as Hlink.
  destruct (negb _ && _) eqn:El; [by apply Hlink|].
  assert (Hok : c = true \/ IsZero (disconnectedAt (sess m)) = true \/
       now - disconnectedAt (sess m) <= disconnectGrace).
  { destruct (decide (c = true)); [tauto|].
    destruct (decide (IsZero (disconnectedAt (sess m)) = true)); [tauto|].
    destruct (decide (now - disconnectedAt (sess m) <= disconnectGrace)); [tauto|].
    assert (false = true) by tauto. done. }
  destruct (Z.ltb_spec (idleTime (sess m)) (now - lastInput (sess m))); [split; [done|lia]|].
  destruct (sawPing (sess m)); cbn -[Sub pingTimeout firstPingGrace];
    rewrite Sub_gt by (unfold pingTimeout, firstPingGrace, Second, min_int64, max_int64; lia);
    match goal with |- context [?a <? ?b] => destruct (Z.ltb_spec a b) end; split_and!; done || lia.
Qed.

(** Ninety-one seconds after its start, a session whose bridge never pinged is
    closed, though the user was typing. *)
Definition demo_typing : list action := [AInput (91 * Second) (str "ls") true].
Definition demo_quiet_bridge : machine :=
  match mexec always_ok demo_typing (spawn (started (str "s1") (str "a") DefaultIdleTimeout 0)) with
  | Some m => m
  | None => spawn demo_session
  end.

Lemma tick_closes_exactly_overdue_sessions_witness :
  (checkTimeouts always_ok true (91 * Second) (sess demo_quiet_bridge)).1 = Some reasonServerGone /\
  ~ (91 * Second - startedAt (sess demo_quiet_bridge) <= firstPingGrace).
Proof.
  assert (E : (checkTimeouts always_ok true (91 * Second) (sess demo_quiet_bridge)).1 =
    Some reasonServerGone) by (vm_compute; reflexivity).
  split; [exact E|].
  pose proof (tick_closes_exactly_overdue_sessions always_ok (str "s1") (str "a")
    DefaultIdleTimeout 0 demo_typing demo_quiet_bridge true (91 * Second)
    ltac:(vm_compute; reflexivity) ltac:(vm_compute; split; congruence) ltac:(reflexivity)) as H.
  cbn zeta in H. rewrite E in H. exact (proj2 (proj2 H)).
Defined.
