(* ===== verification/Sessions.v ===== *)
(** * Sessions: the shell module (agent/internal/shell/shell.go)

    [Module] owns the table of live sessions.  Opening, closing on request,
    shutting down and the [onClose] callback of a finished session all go
    through the module's lock; everything a session does in between is a step
    of its [machine].  The system below runs any number of sessions in any
    order, and the theorems hold in every state it can reach. *)
From S2P Require Import Prelude GoLib GoOS Wire Shell.

Definition MaxSessions : nat := 5.

Definition ErrTooManySessions : error := Sentinel "too many concurrent shell sessions".
Definition ErrSessionExists : error := Sentinel "shell session already open".
Definition ErrNoSession : error := Sentinel "no such shell session".
Definition ErrShuttingDown : error := Sentinel "agent is shutting down".

(** The fields of [OpenSpec] that decide anything here. *)
Record OpenSpec := {
  SessionID : bytes;
  IdleTimeoutS : Z;
}.

(** [sessions] maps an id to the handle of its session object. *)
Record Module_ := {
  m_agentID : bytes;
  maxSessions : nat;
  sessions : gmap bytes nat;
  closed : bool;
}.

Definition New (agentID : bytes) : Module_ :=
  {| m_agentID := agentID; maxSessions := MaxSessions; sessions := ∅; closed := false |}.

Definition set_sessions (t : gmap bytes nat) (mo : Module_) : Module_ :=
  {| m_agentID := m_agentID mo; maxSessions := maxSessions mo; sessions := t; closed := closed mo |}.

Definition idleTimeout (sec : Z) : Z :=
  if sec <=? 0 then DefaultIdleTimeout else wrap64 (sec * Second).

(** [OpenSession], which holds the lock from the first test to the insertion;
    [h] is the new object, [pty] and [subscribe] what [start] meets. *)
Definition OpenSession (pty : option error) (subscribe : bytes -> option error) (now : Z)
    (h : nat) (spec : OpenSpec) (mo : Module_) : res error (session * Module_) :=
  match CheckIdentifier (str "session_id") (SessionID spec) with
  | Some e => Err e
  | None =>
      if closed mo then Err ErrShuttingDown
      else
        match sessions mo !! SessionID spec with
        | Some _ => Err ErrSessionExists
        | None =>
            if (maxSessions mo <=? size (sessions mo))%nat
            then Err (Errorf "limit" ErrTooManySessions)
            else
              match start pty subscribe (SessionID spec) (m_agentID mo)
                      (idleTimeout (IdleTimeoutS spec)) now with
              | Err e => Err e
              | Ok s => Ok (s, set_sessions (<[SessionID spec := h]> (sessions mo)) mo)
              end
        end
  end.

(** [Open]: the default idle timeout. *)
Definition Open (pty : option error) (subscribe : bytes -> option error) (now : Z)
    (h : nat) (sessionID : bytes) (mo : Module_) : res error (session * Module_) :=
  OpenSession pty subscribe now h {| SessionID := sessionID; IdleTimeoutS := 0 |} mo.

(** [Close]: the session it calls [close] on. *)
Definition Close (sessionID : bytes) (mo : Module_) : res error nat :=
  match sessions mo !! sessionID with
  | None => Err ErrNoSession
  | Some h => Ok h
  end.

Definition Count (mo : Module_) : nat := size (sessions mo).

(** The part of [shutdown] under the lock: no more sessions, and the list of
    the ones to close. *)
Definition shutdown (mo : Module_) : list nat * Module_ :=
  ((map_to_list (sessions mo)).*2,
   {| m_agentID := m_agentID mo; maxSessions := maxSessions mo; sessions := sessions mo;
      closed := true |}).

Definition forget (sessionID : bytes) (mo : Module_) : Module_ :=
  set_sessions (delete sessionID (sessions mo)) mo.

(** ** The system *)

(** [toClose] is what [shutdown] has still to call [close] on. *)
Record system := {
  mod_ : Module_;
  objs : gmap nat machine;
  toClose : list nat;
}.

Inductive saction : Type :=
  | SOpen (h : nat) (spec : OpenSpec) (pty : option error) (subscribe : bytes -> option error) (now : Z)
  | SRequest (sessionID : bytes)               (** [Close] *)
  | SShutdown                                  (** [shutdown], under the lock *)
  | SShutNext                                  (** [shutdown]'s loop: the next [close] *)
  | SRun (h : nat) (a : action).               (** a step of a session *)

Section system.
(** What the connection answers to the n-th publish of a session. *)
Context (publish : nat -> nat -> option error).

Definition set_obj (h : nat) (m : machine) (y : system) : system :=
  {| mod_ := mod_ y; objs := <[h := m]> (objs y); toClose := toClose y |}.

(** A session's own step; its last one runs the [onClose] callback. *)
Definition runObj (h : nat) (a : action) (y : system) : option system :=
  match objs y !! h with
  | None => None
  | Some m =>
      match mstep (publish h) a m with
      | None => None
      | Some m' =>
          Some {| mod_ := match a with AForget => forget (s_id (sess m)) (mod_ y) | _ => mod_ y end;
                  objs := <[h := m']> (objs y); toClose := toClose y |}
      end
  end.

Definition sstep (a : saction) (y : system) : option system :=
  match a with
  | SOpen h spec pty subscribe now =>
      match objs y !! h with
      | Some _ => None
      | None =>
          match OpenSession pty subscribe now h spec (mod_ y) with
          | Err _ => Some y
          | Ok (s, mo) =>
              Some {| mod_ := mo; objs := <[h := spawn s]> (objs y); toClose := toClose y |}
          end
      end
  | SRequest id =>
      match Close id (mod_ y) with
      | Err _ => Some y
      | Ok h => runObj h (AClose reasonRequested (-1)) y
      end
  | SShutdown =>
      let '(live, mo) := shutdown (mod_ y) in
      Some {| mod_ := mo; objs := objs y; toClose := toClose y ++ live |}
  | SShutNext =>
      match toClose y with
      | [] => None
      | h :: rest =>
          runObj h (AClose reasonShutdown (-1))
            {| mod_ := mod_ y; objs := objs y; toClose := rest |}
      end
  | SRun h a => runObj h a y
  end.

Definition sinit (agentID : bytes) : system :=
  {| mod_ := New agentID; objs := ∅; toClose := [] |}.

Inductive sreach (agentID : bytes) : system -> Prop :=
  | sreach_init : sreach agentID (sinit agentID)
  | sreach_step a y y' : sreach agentID y -> sstep a y = Some y' -> sreach agentID y'.

Fixpoint sexec (actions : list saction) (y : system) : option system :=
  match actions with
  | [] => Some y
  | a :: rest => match sstep a y with Some y' => sexec rest y' | None => None end
  end.

Lemma sexec_reach agentID actions : forall y y',
  sreach agentID y -> sexec actions y = Some y' -> sreach agentID y'.
Proof.
  induction actions as [|a actions IH]; intros y y' Hr; cbn [sexec]; [by intros [= <-]|].
  destruct (sstep a y) as [y1|] eqn:E; [|done]. apply IH. by eapply sreach_step.
Qed.
End system.

(** ** What a session's step keeps *)

Lemma mstep_id publish a m m' :
  minv m -> mstep publish a m = Some m' ->
  s_id (sess m') = s_id (sess m) /\ s_agentID (sess m') = s_agentID (sess m).
Proof.
  intros Hm Hs. destruct a; cbn -[emit trackLink closeTeardown callClose onInput onCtl] in Hs.
  1-4: destruct (at_ m); try done; repeat case_match; try done; by injection Hs as <-.
  - destruct (at_ m) as [| | |d failed|]; try done. destruct (IsZero now) eqn:Ez; [done|].
    injection Hs as <-. cbn -[emit]. case_bool_decide; [done|].
    destruct (emit_outstep publish connected now d (sess m) Ez) as [Hc _ _ _ _ _ _ _]; [apply Hm..|].
    apply core_eq in Hc. tauto.
  - injection Hs as <-. unfold onInput. cbn. by destruct (bool_decide _).
  - destruct (decoded ctl); [|done]. injection Hs as <-. unfold onCtl. cbn. by repeat case_match.
  - destruct (IsZero now); [done|]. injection Hs as <-. cbn.
    pose proof (trackLink_core publish connected now (sess m) (mi_held m Hm)) as Hc.
    apply core_eq in Hc. tauto.
  - injection Hs as <-. destruct (verdict now (sess m)); [|done].
    unfold callClose, closeBegin. by destruct (closing (sess m)).
  - injection Hs as <-. unfold callClose, closeBegin. by destruct (closing (sess m)).
  - destruct (cl m); try done; destruct (at_ m); try done; by injection Hs as <-.
  - destruct (cl m); try done; destruct (at_ m); try done; by injection Hs as <-.
Qed.

(** Only the last step ends a session, and nothing restarts one. *)
Lemma callClose_cl r code m : minv m ->
  cl (callClose r code m) = match cl m with CNone => CTeardown r code | c => c end.
Proof.
  intros Hm. pose proof (mi_closing m Hm) as Hc. unfold callClose, closeBegin.
  destruct (closing (sess m)); destruct (cl m) eqn:E; try done; by rewrite ?E.
Qed.

Lemma mstep_cl publish a m m' :
  minv m -> mstep publish a m = Some m' ->
  match a with
  | AForget => cl m = CForget /\ cl m' = CDone
  | ATeardown => (exists r code, cl m = CTeardown r code) /\ cl m' = CForget
  | _ => cl m' = cl m \/ cl m = CNone /\ exists r code, cl m' = CTeardown r code
  end.
Proof.
  intros Hm Hs. destruct a; cbn -[emit trackLink closeTeardown callClose onInput onCtl] in Hs.
  1-5: destruct (at_ m); try done; repeat case_match; try done; injection Hs as <-; by left.
  - injection Hs as <-. by left.
  - destruct (decoded ctl); [|done]. injection Hs as <-. by left.
  - destruct (IsZero now); [done|]. injection Hs as <-. by left.
  - injection Hs as <-. destruct (verdict now (sess m)); [|by left].
    rewrite callClose_cl by done. destruct (cl m); eauto.
  - injection Hs as <-. rewrite callClose_cl by done. destruct (cl m); eauto.
  - destruct (cl m); try done; destruct (at_ m); try done; injection Hs as <-; eauto.
  - destruct (cl m); try done; destruct (at_ m); try done; by injection Hs as <-.
Qed.

(** ** The invariant *)

Record sinv (y : system) : Prop := {
  si_minv : forall h m, objs y !! h = Some m -> minv m;
  si_map : forall id h, sessions (mod_ y) !! id = Some h ->
    exists m, objs y !! h = Some m /\ s_id (sess m) = id /\ cl m <> CDone;
  si_live : forall h m, objs y !! h = Some m -> cl m <> CDone ->
    sessions (mod_ y) !! s_id (sess m) = Some h;
  si_id : forall h m, objs y !! h = Some m -> ValidIdentifier (s_id (sess m)) = None;
  si_size : (size (sessions (mod_ y)) <= maxSessions (mod_ y))%nat;
  si_max : maxSessions (mod_ y) = MaxSessions;
  si_closed : closed (mod_ y) = true -> forall h m, objs y !! h = Some m ->
    cl m = CNone -> h ∈ toClose y;
}.

Lemma sinit_inv agentID : sinv (sinit agentID).
Proof. split; cbn; try done. rewrite map_size_empty. unfold MaxSessions. lia. Qed.

Lemma OpenSession_ok pty subscribe now h spec mo s mo' :
  OpenSession pty subscribe now h spec mo = Ok (s, mo') ->
  ValidIdentifier (SessionID spec) = None /\ closed mo = false /\
  sessions mo !! SessionID spec = None /\ (size (sessions mo) < maxSessions mo)%nat /\
  s = started (SessionID spec) (m_agentID mo) (idleTimeout (IdleTimeoutS spec)) now /\
  mo' = set_sessions (<[SessionID spec := h]> (sessions mo)) mo.
Proof.
  unfold OpenSession, start, CheckIdentifier.
  destruct (ValidIdentifier (SessionID spec)); [done|]. destruct (closed mo); [done|].
  destruct (sessions mo !! SessionID spec); [done|].
  destruct (Nat.leb_spec (maxSessions mo) (size (sessions mo))); [done|].
  destruct pty; [done|]. destruct (subscribeAll _ _); [done|]. intros [= <- <-]. done.
Qed.

Lemma sinv_open pty subscribe now h spec y s mo :
  sinv y -> objs y !! h = None -> OpenSession pty subscribe now h spec (mod_ y) = Ok (s, mo) ->
  sinv {| mod_ := mo; objs := <[h := spawn s]> (objs y); toClose := toClose y |}.
Proof.
  intros [H1 H2 H3 H4 H5 H6 H7] Hh Ho.
  apply OpenSession_ok in Ho as (Hv & Hc & Hn & Hs & -> & ->). split; cbn.
  - intros k m [[<- <-]|[? Hk]]%lookup_insert_Some; [apply spawn_inv|by eapply H1].
  - intros id k [[<- <-]|[? Hk]]%lookup_insert_Some.
    + eexists. rewrite lookup_insert_eq. done.
    + destruct (H2 id k Hk) as (m & Hm & ?). exists m. split; [|done].
      rewrite lookup_insert_ne; [done|congruence].
  - intros k m [[<- <-]|[? Hk]]%lookup_insert_Some Hd; [by rewrite lookup_insert_eq|].
    specialize (H3 k m Hk Hd). rewrite lookup_insert_ne; [done|congruence].
  - intros k m [[<- <-]|[? Hk]]%lookup_insert_Some; [done|by eapply H4].
  - rewrite map_size_insert_None by done. lia.
  - done.
  - congruence.
Qed.

(** A session's step that is not its last one. *)
Lemma sinv_set h m m' y :
  sinv y -> objs y !! h = Some m -> minv m' -> s_id (sess m') = s_id (sess m) ->
  (cl m' = CDone <-> cl m = CDone) -> (cl m' = CNone -> cl m = CNone) ->
  sinv (set_obj h m' y).
Proof.
  intros [H1 H2 H3 H4 H5 H6 H7] Eh Hm' Eid Hd Hn. split; cbn; try done.
  - intros k x [[<- <-]|[? Hk]]%lookup_insert_Some; [done|by eapply H1].
  - intros id k Hk. destruct (H2 id k Hk) as (x & Hx & Ex & Dx).
    destruct (decide (h = k)) as [<-|Hne].
    + exists m'. rewrite lookup_insert_eq. simplify_eq. split; [done|]. split; [done|tauto].
    + exists x. by rewrite lookup_insert_ne.
  - intros k x [[<- <-]|[? Hk]]%lookup_insert_Some Hdx; [|by eapply H3].
    rewrite Eid. apply H3; [done|tauto].
  - intros k x [[<- <-]|[? Hk]]%lookup_insert_Some; [rewrite Eid; by eapply H4|by eapply H4].
  - intros Hc k x [[<- <-]|[? Hk]]%lookup_insert_Some Hx; [|by eapply H7].
    eapply H7; eauto.
Qed.

(** Its last step, with the [onClose] callback. *)
Lemma sinv_forget h m m' y :
  sinv y -> objs y !! h = Some m -> minv m' -> s_id (sess m') = s_id (sess m) ->
  cl m = CForget -> cl m' = CDone ->
  sinv {| mod_ := forget (s_id (sess m)) (mod_ y); objs := <[h := m']> (objs y);
          toClose := toClose y |}.
Proof.
  intros [H1 H2 H3 H4 H5 H6 H7] Eh Hm' Eid Hf Hd.
  assert (Hself : sessions (mod_ y) !! s_id (sess m) = Some h) by (apply H3; [done|congruence]).
  split; cbn; try done.
  - intros k x [[<- <-]|[? Hk]]%lookup_insert_Some; [done|by eapply H1].
  - intros id k [Hne Hk]%lookup_delete_Some. destruct (H2 id k Hk) as (x & Hx & Ex & Dx).
    exists x. rewrite lookup_insert_ne; [done|]. intros <-. simplify_eq.
  - intros k x [[<- <-]|[? Hk]]%lookup_insert_Some Hdx; [done|].
    specialize (H3 k x Hk Hdx). rewrite lookup_delete_ne; [done|]. congruence.
  - intros k x [[<- <-]|[? Hk]]%lookup_insert_Some; [rewrite Eid; by eapply H4|by eapply H4].
  - rewrite map_size_delete, Hself. unfold size in *. lia.
  - intros Hc k x [[<- <-]|[? Hk]]%lookup_insert_Some Hx; [congruence|by eapply H7].
Qed.

Lemma sinv_run publish h a y y' : sinv y -> runObj publish h a y = Some y' -> sinv y'.
Proof.
  intros Hy. unfold runObj. destruct (objs y !! h) as [m|] eqn:Eh; [|done].
  destruct (mstep (publish h) a m) as [m'|] eqn:Em; [|done]. intros [= <-].
  pose proof (si_minv y Hy h m Eh) as Hm. pose proof (mstep_inv _ _ _ _ Hm Em) as Hm'.
  destruct (mstep_id _ _ _ _ Hm Em) as [Eid _]. pose proof (mstep_cl _ _ _ _ Hm Em) as Hcl.
  destruct a; try (destruct Hcl as [Hcl|(Hcl & r0 & code0 & Hcl')];
    apply (sinv_set h m m' y Hy Eh Hm' Eid); rewrite ?Hcl, ?Hcl'; done).
  - destruct Hcl as [(r & code & Hcl) Hcl'].
    apply (sinv_set h m m' y Hy Eh Hm' Eid); rewrite ?Hcl, ?Hcl'; done.
  - destruct Hcl. by apply (sinv_forget h m m' y).
Qed.

(** After a session's [close] was called it is closing. *)
Lemma runObj_close publish h r code y y' :
  sinv y -> runObj publish h (AClose r code) y = Some y' ->
  mod_ y' = mod_ y /\ toClose y' = toClose y /\
  (forall m, objs y' !! h = Some m -> cl m <> CNone) /\
  (forall k, k <> h -> objs y' !! k = objs y !! k).
Proof.
  intros Hy. unfold runObj. destruct (objs y !! h) as [m|] eqn:Eh; [|done].
  cbn -[callClose]. intros [= <-]. cbn -[callClose]. split; [done|]. split; [done|]. split.
  - intros m'. rewrite lookup_insert_eq. intros [= <-].
    rewrite callClose_cl by by eapply si_minv. by destruct (cl m).
  - intros k Hk. by rewrite lookup_insert_ne.
Qed.

Lemma sinv_shutdown y :
  sinv y ->
  sinv {| mod_ := (shutdown (mod_ y)).2; objs := objs y; toClose := toClose y ++ (shutdown (mod_ y)).1 |}.
Proof.
  intros [H1 H2 H3 H4 H5 H6 H7]. split; cbn; try done.
  intros _ h m Hm Hc. apply elem_of_app. right. apply list_elem_of_fmap.
  exists (s_id (sess m), h). split; [done|]. apply elem_of_map_to_list.
  apply H3; [done|congruence].
Qed.

(** Taking a session off the list, given that it is then closed. *)
Lemma sinv_next h rest y publish y' :
  sinv y -> toClose y = h :: rest ->
  runObj publish h (AClose reasonShutdown (-1))
    {| mod_ := mod_ y; objs := objs y; toClose := rest |} = Some y' -> sinv y'.
Proof.
  intros Hy Et Hr.
  assert (Hrun : runObj publish h (AClose reasonShutdown (-1)) y =
    Some {| mod_ := mod_ y'; objs := objs y'; toClose := toClose y |}).
  { revert Hr. unfold runObj. cbn -[callClose]. destruct (objs y !! h); [|done]. by intros [= <-]. }
  destruct (runObj_close _ _ _ _ _ _ Hy Hrun) as (Em & _ & Hself & Hother). cbn in *.
  pose proof (sinv_run _ _ _ _ _ Hy Hrun) as [H1 H2 H3 H4 H5 H6 H7]. cbn in *.
  assert (Hto : toClose y' = rest).
  { revert Hr. unfold runObj. cbn -[callClose]. destruct (objs y !! h); [|done]. by intros [= <-]. }
  split; try done. intros Hc k m Hk Hn. rewrite Hto.
  specialize (H7 Hc k m Hk Hn). rewrite Et in H7. apply elem_of_cons in H7 as [->|?]; [|done].
  by specialize (Hself m Hk).
Qed.

Lemma sstep_inv publish a y y' : sinv y -> sstep publish a y = Some y' -> sinv y'.
Proof.
  intros Hy. destruct a as [h spec pty subscribe now|id| | |h a]; cbn [sstep].
  - destruct (objs y !! h) eqn:Eh; [done|].
    destruct (OpenSession _ _ _ _ _ _) as [[s mo]|e] eqn:E; intros [= <-]; [|done].
    by eapply sinv_open.
  - destruct (Close id (mod_ y)); [|by intros [= <-]]. by apply sinv_run.
  - intros [= <-]. by apply sinv_shutdown.
  - destruct (toClose y) as [|h rest] eqn:Et; [done|]. by apply sinv_next.
  - by apply sinv_run.
Qed.

Lemma sreach_inv publish agentID y : sreach publish agentID y -> sinv y.
Proof. induction 1; [apply sinit_inv|by eapply sstep_inv]. Qed.

(** ** Claims *)

Definition live (y : system) : gmap nat machine :=
  filter (fun hm => ptyOpen (sess hm.2) = true) (objs y).

Lemma live_Some y h m : sinv y ->
  live y !! h = Some m -> objs y !! h = Some m /\ sessions (mod_ y) !! s_id (sess m) = Some h.
Proof.
  intros Hy [Hm Hp]%map_lookup_filter_Some. split; [done|]. apply (si_live y Hy); [done|].
  pose proof (mi_pty m (si_minv y Hy h m Hm)) as Ht. cbn in Hp. rewrite Hp in Ht. by destruct (cl m).
Qed.

(** C15: Whatever the server asks for and however the sessions' goroutines
    interleave, at most [MaxSessions] PTYs are open at once, every open one is
    in the module's table under a valid id, no two share an id, and a session
    reports its end at most once, exactly when its PTY has been closed. *)
Theorem open_ptys_are_bounded_and_owned publish agentID y :
  sreach publish agentID y ->
  (size (live y) <= MaxSessions)%nat /\
  (forall h m, live y !! h = Some m ->
    ValidIdentifier (s_id (sess m)) = None /\ Close (s_id (sess m)) (mod_ y) = Ok h) /\
  (forall h1 h2 m1 m2, live y !! h1 = Some m1 -> live y !! h2 = Some m2 ->
    s_id (sess m1) = s_id (sess m2) -> h1 = h2) /\
  (forall h m, objs y !! h = Some m ->
    closeds (log (sess m)) = if ptyOpen (sess m) then 0%nat else 1%nat).
Proof.
  intros Hr. assert (Hy := sreach_inv _ _ _ Hr). split_and!.
  - etrans; [|rewrite <- (si_max y Hy); apply (si_size y Hy)].
    rewrite <- !length_map_to_list.
    rewrite <- (length_fmap fst (map_to_list (live y))), <- (length_fmap snd (map_to_list (sessions _))).
    apply submseteq_length, NoDup_submseteq; [apply NoDup_fst_map_to_list|].
    intros h ([k m] & -> & Hin)%list_elem_of_fmap. apply elem_of_map_to_list in Hin.
    apply (live_Some y k m Hy) in Hin as [_ Hs]. apply list_elem_of_fmap.
    exists (s_id (sess m), k). split; [done|]. by apply elem_of_map_to_list.
  - intros h m Hl. destruct (live_Some y h m Hy Hl) as [Ho Hs]. split; [by eapply si_id|].
    unfold Close. by rewrite Hs.
  - intros h1 h2 m1 m2 H1 H2 Heq. apply (live_Some y _ _ Hy) in H1 as [_ H1], H2 as [_ H2]. congruence.
  - intros h m Ho. destruct (si_minv y Hy h m Ho) as [_ _ _ _ _ _ Hp _ _ Hk _].
    rewrite Hp, Hk. by destruct (torn (cl m)).
Qed.

Definition demo_open (h : nat) (id : String.string) : saction :=
  SOpen h {| SessionID := str id; IdleTimeoutS := 0 |} None (fun _ => None) 100.

(** Seven requests, of which a duplicate and a sixth session are refused, then
    the orderly end of one session. *)
Definition demo_saction : list saction :=
  [demo_open 1 "s1"; demo_open 2 "s1"; demo_open 3 "s2"; demo_open 4 "s3"; demo_open 5 "s4";
   demo_open 6 "s5"; demo_open 7 "s6"; SRequest (str "s2"); SRun 3 ATeardown; SRun 3 AForget].

Definition demo_system (actions : list saction) : system :=
  match sexec (fun _ => always_ok) actions (sinit (str "a")) with
  | Some y => y
  | None => sinit (str "a")
  end.

Lemma demo_reach actions :
  is_Some (sexec (fun _ => always_ok) actions (sinit (str "a"))) ->
  sreach (fun _ => always_ok) (str "a") (demo_system actions).
Proof.
  intros [y Hy]. unfold demo_system. rewrite Hy.
  eapply sexec_reach; [apply sreach_init|exact Hy].
Qed.

Lemma open_ptys_are_bounded_and_owned_witness :
  (size (live (demo_system demo_saction)) <= MaxSessions)%nat.
Proof.
  apply (open_ptys_are_bounded_and_owned (fun _ => always_ok) (str "a") (demo_system demo_saction)).
  apply demo_reach. vm_compute. by eexists.
Defined.

(** Once [shutdown] has taken the lock and called [close] on everything
    it listed, no session can be opened any more and every session there ever
    was is closing: its teardown is due or done, and after it the PTY is
    closed, the subscriptions are gone and the end has been reported once. *)
Theorem shutdown_closes_every_session publish agentID y :
  sreach publish agentID y -> closed (mod_ y) = true -> toClose y = [] ->
  (forall pty subscribe now h spec, is_ok (OpenSession pty subscribe now h spec (mod_ y)) = false) /\
  (forall h m, objs y !! h = Some m ->
    closing (sess m) = true /\
    (is_Some (mstep (publish h) ATeardown m) \/
     ptyOpen (sess m) = false /\ subs (sess m) = [] /\ cancelled (sess m) = true /\
     closeds (log (sess m)) = 1%nat)).
Proof.
  intros Hr Hc Ht. assert (Hy := sreach_inv _ _ _ Hr). split.
  - intros. unfold OpenSession. destruct (CheckIdentifier _ _); [done|]. by rewrite Hc.
  - intros h m Ho. pose proof (si_closed y Hy Hc h m Ho) as Hn. rewrite Ht in Hn.
    destruct (si_minv y Hy h m Ho) as [_ _ _ _ _ Hcl Hp Hs Hx Hk _].
    destruct (cl m) eqn:E; cbn in *.
    + specialize (Hn eq_refl). set_solver.
    + split; [done|]. left. cbn. rewrite E. by destruct (at_ m).
    + split; [done|]. right. auto.
    + split; [done|]. right. auto.
Qed.

Definition demo_shutdown : list saction :=
  [demo_open 1 "s1"; demo_open 2 "s2"; SShutdown; SShutNext; SShutNext; SRun 1 ATeardown].

Lemma shutdown_closes_every_session_witness :
  is_ok (OpenSession None (fun _ => None) 5 9 {| SessionID := str "s3"; IdleTimeoutS := 0 |}
    (mod_ (demo_system demo_shutdown))) = false.
Proof.
  apply (shutdown_closes_every_session (fun _ => always_ok) (str "a") (demo_system demo_shutdown)).
  - apply demo_reach. vm_compute. by eexists.
  - vm_compute. reflexivity.
  - vm_compute. reflexivity.
Defined.

(** [OpenSession] opens a session exactly when its id is valid, the agent
    is not shutting down, the id is free, fewer than the limit are open, the
    PTY starts and the three subscriptions succeed. *)
Theorem OpenSession_opens_exactly_when pty subscribe now h spec mo :
  is_ok (OpenSession pty subscribe now h spec mo) = true <->
  ValidIdentifier (SessionID spec) = None /\ closed mo = false /\
  sessions mo !! SessionID spec = None /\ (Count mo < maxSessions mo)%nat /\
  pty = None /\
  Forall (fun p => subscribe p = None)
    [ShellIn (m_agentID mo) (SessionID spec); ShellResize (m_agentID mo) (SessionID spec);
     ShellCtl (m_agentID mo) (SessionID spec)].
Proof.
  unfold OpenSession, start, CheckIdentifier, Count.
  destruct (ValidIdentifier (SessionID spec)) eqn:Ev; [naive_solver|].
  destruct (closed mo); [naive_solver|].
  destruct (sessions mo !! SessionID spec); [naive_solver|].
  destruct (Nat.leb_spec (maxSessions mo) (size (sessions mo))) as [Hle|Hlt].
  { split; [done|]. intros (_ & _ & _ & ? & _). lia. }
  destruct pty; [naive_solver|]. cbn [subs started].
  assert (Hall : forall l, subscribeAll subscribe l = None <-> Forall (fun p => subscribe p = None) l).
  { induction l as [|p l IH]; cbn; [by split|]. rewrite Forall_cons, <- IH.
    destruct (subscribe p); naive_solver. }
  destruct (subscribeAll _ _) eqn:Es.
  - split; [done|]. intros (_ & _ & _ & _ & _ & Hf). apply Hall in Hf. congruence.
  - split; [|done]. intros _. apply Hall in Es. auto 10.
Qed.
