(* ===== verification/Patch.v ===== *)
(** * Patch: the shared part of the update backends (agent/internal/patch)

    The data every backend speaks (patch.go), the validation of update ids
    that come off the wire (ids.go), the refusals every install makes before
    it touches a package manager (self.go), and the small helpers of exec.go
    and env.go.  A per-update reason is kept as the error it was made from;
    the source stores its text. *)
From S2P Require Import Prelude GoLib GoText GoOS.

(** ** patch.go *)

Definition KindSecurity : bytes := str "security".
Definition KindFeature : bytes := str "feature".
Definition KindDefinition : bytes := str "definition".
Definition KindOther : bytes := str "other".

Definition SeverityCritical : bytes := str "critical".
Definition SeverityImportant : bytes := str "important".
Definition SeverityModerate : bytes := str "moderate".
Definition SeverityLow : bytes := str "low".
Definition SeverityUnknown : bytes := str "unknown".

Definition PhaseDownload : bytes := str "download".
Definition PhaseInstall : bytes := str "install".

Definition BackendWUA : bytes := str "wua".
Definition BackendAPT : bytes := str "apt".
Definition BackendDNF : bytes := str "dnf".
Definition BackendPacman : bytes := str "pacman".
Definition BackendSoftwareUpdate : bytes := str "softwareupdate".

Definition ErrBusy : error := Sentinel "patch: another install is already in progress".
Definition ErrUnsupported : error := Sentinel "patch: no supported update backend on this host".

Record Update := {
  u_ID : bytes;
  u_Title : bytes;
  u_Kind : bytes;
  u_KBIDs : list bytes;
  u_Severity : bytes;
  u_SizeBytes : Z;
  u_RebootLikely : bool;
  u_Unsupported : bool;
  u_Detail : bytes;
}.

Record InstallProgress := {
  ip_UpdateID : bytes;
  ip_Phase : bytes;
  ip_Pct : Z;
}.

Record InstallResult := {
  Installed : list bytes;
  Failed : gmap bytes error;
  RebootRequired : bool;
}.

Definition newInstallResult : InstallResult :=
  {| Installed := []; Failed := ∅; RebootRequired := false |}.

(** [res.fail(id, err)] keeps the first reason. *)
Definition fail (id : bytes) (e : error) (r : InstallResult) : InstallResult :=
  match Failed r !! id with
  | Some _ => r
  | None =>
      {| Installed := Installed r; Failed := <[id := e]> (Failed r);
         RebootRequired := RebootRequired r |}
  end.

(** [res.Installed = append(res.Installed, id)] *)
Definition installedOne (id : bytes) (r : InstallResult) : InstallResult :=
  {| Installed := Installed r ++ [id]; Failed := Failed r; RebootRequired := RebootRequired r |}.

Definition setReboot (b : bool) (r : InstallResult) : InstallResult :=
  {| Installed := Installed r; Failed := Failed r; RebootRequired := b |}.

(** The gate is an atomic flag: [acquire] is a compare-and-swap. *)
Definition acquire (held : bool) : bool * bool := (negb held, true).
Definition release (_ : bool) : bool := false.

(** [dedupeIDs]: the source keeps what it has seen in a map. *)
Definition dedupeStep (acc : list bytes * gset bytes) (id : bytes) : list bytes * gset bytes :=
  let '(out, seen) := acc in
  if bool_decide (id = []) || bool_decide (id ∈ seen) then (out, seen)
  else (out ++ [id], {[id]} ∪ seen).

Definition dedupeIDs (ids : list bytes) : list bytes := (fold_left dedupeStep ids ([], ∅)).1.

(** ** ids.go: names and versions *)

Definition maxPkgTokenLen : nat := 256.

Definition ErrBadUpdateID : error := Sentinel "patch: unusable update id".
Definition ErrNotOffered : error := Sentinel "patch: update is not currently offered by this host".

Definition pkgAlnum (allowUpper : bool) (r : ascii) : bool :=
  is_lower r || is_digit r || (allowUpper && is_upper r).

Definition pkgNameChar (allowUpper : bool) (r : ascii) : bool :=
  pkgAlnum allowUpper r || bool_decide (r ∈ ["@"; "."; "_"; "+"; "-"]%char).

(** [checkPkgName]: the loop over the runes, which refuses every rune outside
    ASCII, goes over the bytes. *)
Definition checkPkgName (name : bytes) (allowUpper : bool) : option error :=
  match name with
  | [] => Some (Errorf "empty package name" ErrBadUpdateID)
  | r :: rest =>
      if (maxPkgTokenLen <? length name)%nat then Some (Errorf "package name" ErrBadUpdateID)
      else if negb (pkgAlnum allowUpper r)
      then Some (Errorf "must start with a letter or digit" ErrBadUpdateID)
      else if forallb (pkgNameChar allowUpper) rest then None
      else Some (Errorf "contains" ErrBadUpdateID)
  end.

Definition versionChar (r : ascii) : bool :=
  is_lower r || is_upper r || is_digit r ||
  bool_decide (r ∈ ["."; ":"; "+"; "~"; "^"; "_"; "-"]%char).

Definition checkPkgVersion (version : bytes) : option error :=
  if bool_decide (version = []) then Some (Errorf "empty version" ErrBadUpdateID)
  else if (maxPkgTokenLen <? length version)%nat then Some (Errorf "version" ErrBadUpdateID)
  else if HasPrefix version (str "-") then Some (Errorf "starts with a dash" ErrBadUpdateID)
  else if forallb versionChar version then None
  else Some (Errorf "contains" ErrBadUpdateID).

Definition offeredIDs (updates : list Update) : gset bytes := list_to_set (map u_ID updates).

(** ** exec.go: what does not run anything *)

Definition scanTimeout : Z := 15 * Minute.
Definition installTimeout : Z := 2 * Hour.
Definition quickTimeout : Z := 60 * Second.

Record cmdResult := {
  cr_Stdout : bytes;
  cr_Stderr : bytes;
  cr_ExitCode : Z;
  cr_Err : option error;
}.

Definition cmd_ok (r : cmdResult) : bool :=
  match cr_Err r with None => cr_ExitCode r =? 0 | Some _ => false end.

Definition combined (r : cmdResult) : bytes :=
  TrimSpace (TrimSpace (cr_Stdout r) ++ [nl] ++ TrimSpace (cr_Stderr r)).

Definition tail (n : nat) (r : cmdResult) : bytes :=
  let lines := Split nl (TrimRight [nl] (combined r)) in
  TrimSpace (JoinStr [nl] (keep_last n lines)).

(** [finish]: [waitErr] is nil, an exit status, or any other error; [ctxErr] is
    the context's error when the command returned. *)
Inductive waitErr : Type := WaitOK | WaitExit (code : Z) | WaitOther (e : error).

Definition finish (ctxErr : option error) (stdout stderr : bytes) (w : waitErr) : cmdResult :=
  match w with
  | WaitOK => {| cr_Stdout := stdout; cr_Stderr := stderr; cr_ExitCode := 0; cr_Err := None |}
  | _ =>
      match ctxErr with
      | Some e => {| cr_Stdout := stdout; cr_Stderr := stderr; cr_ExitCode := -1; cr_Err := Some e |}
      | None =>
          match w with
          | WaitExit code =>
              {| cr_Stdout := stdout; cr_Stderr := stderr; cr_ExitCode := code; cr_Err := None |}
          | WaitOther e =>
              {| cr_Stdout := stdout; cr_Stderr := stderr; cr_ExitCode := -1; cr_Err := Some e |}
          | WaitOK => {| cr_Stdout := stdout; cr_Stderr := stderr; cr_ExitCode := 0; cr_Err := None |}
          end
      end
  end.

Definition pctOf (seen total : Z) : Z :=
  if total <=? 0 then 10
  else
    let seen := if total <? seen then total else seen in
    10 + Z.quot (80 * seen) total.
