(* ===== verification/PatchParse.v ===== *)
(** * PatchParse: reading what the package managers print

    apt_parse.go, dnf_parse.go and pacman_parse.go of agent/internal/patch:
    each scan's text becomes a list of updates, each verification query a map
    from packages to versions.  A line that makes no sense is skipped. *)
From S2P Require Import Prelude GoLib GoText GoOS Patch.

(** ** apt_parse.go *)

Record aptInst := {
  ai_Name : bytes;
  ai_OldVersion : bytes;
  ai_NewVersion : bytes;
  ai_Origins : bytes;
  ai_Arch : bytes;
}.

Definition aptIsSecurityOrigin (origins : bytes) : bool := Contains (ToLower origins) (str "-security").

Definition aptRebootPrefixes : list bytes :=
  map str ["linux-image"; "linux-generic"; "linux-modules"; "linux-headers"; "linux-aws";
           "linux-azure"; "linux-gcp"; "linux-oracle"; "linux-kvm"; "linux-firmware";
           "linux-lowlatency"]%string.

Definition aptRebootNames : list bytes :=
  map str ["libc6"; "libc-bin"; "systemd"; "udev"; "dbus"; "grub-common"; "grub-pc";
           "grub-efi-amd64"; "xserver-xorg-core"]%string.

Definition aptRebootLikely (name : bytes) : bool :=
  let base := before (str ":") name in
  bool_decide (base ∈ aptRebootNames) || existsb (HasPrefix base) aptRebootPrefixes.

Definition aptUpdate (i : aptInst) : Update :=
  {| u_ID := ai_Name i ++ str "=" ++ ai_NewVersion i;
     u_Title := if bool_decide (ai_OldVersion i = [])
                then ai_Name i ++ str " " ++ ai_NewVersion i
                else ai_Name i ++ str " " ++ ai_OldVersion i ++ str " to " ++ ai_NewVersion i;
     u_Kind := if aptIsSecurityOrigin (ai_Origins i) then KindSecurity else KindOther;
     u_KBIDs := []; u_Severity := SeverityUnknown; u_SizeBytes := 0;
     u_RebootLikely := aptRebootLikely (ai_Name i); u_Unsupported := false; u_Detail := [] |}.

(** The optional [[old-version]] in front of the candidate. *)
Definition aptOldVersion (rest : bytes) : option (bytes * bytes) :=
  match CutPrefix rest (str "[") with
  | None => Some ([], rest)
  | Some r =>
      match Cut (str "]") r with
      | None => None
      | Some (old, after) => Some (TrimSpace old, TrimSpace after)
      end
  end.

(** The text between the first opening and the last closing parenthesis. *)
Definition aptCandidate (rest : bytes) : option bytes :=
  match Cut (str "(") rest with
  | None => None
  | Some (_, r) =>
      match LastCut (str ")") r with
      | None => None
      | Some (body, _) => Some (TrimSpace body)
      end
  end.

(** Origins and architecture of [after]. *)
Definition aptOrigins (after : bytes) : bytes * bytes :=
  let after := TrimSpace after in
  match LastCut (str "[") after with
  | Some (a, b) => (TrimSpace (TrimSpace a), TrimSpace (TrimSuffix (TrimSpace b) (str "]")))
  | None => (TrimSpace after, [])
  end.

Definition parseAptInstLine (line : bytes) : option aptInst :=
  match CutPrefix (TrimSpace line) (str "Inst ") with
  | None => None
  | Some rest =>
      match Cut (str " ") (TrimSpace rest) with
      | None => None
      | Some (name, rest) =>
          if bool_decide (name = []) then None
          else
            match aptOldVersion (TrimSpace rest) with
            | None => None
            | Some (old, rest) =>
                match aptCandidate rest with
                | None => None
                | Some body =>
                    match Cut (str " ") body with
                    | None => None
                    | Some (version, after) =>
                        if bool_decide (version = []) then None
                        else
                          let '(origins, arch) := aptOrigins after in
                          Some {| ai_Name := name; ai_OldVersion := old; ai_NewVersion := version;
                                  ai_Origins := origins; ai_Arch := arch |}
                    end
                end
            end
      end
  end.

Definition parseAptSimulate (out : bytes) : list Update :=
  map aptUpdate (omap parseAptInstLine (Lines out)).

Definition splitPkgVersionID (id : bytes) : option (bytes * bytes) :=
  match Cut (str "=") id with
  | Some (name, version) =>
      if bool_decide (name = []) || bool_decide (version = []) then None else Some (name, version)
  | None => None
  end.

(** A text that contains, in any case, one of the markers. *)
Definition marked (markers : list bytes) (text : bytes) : bool :=
  existsb (Contains (ToLower text)) markers.

Definition aptTransientMarkers : list bytes :=
  map str ["temporary failure resolving"; "could not connect"; "connection timed out";
           "connection failed"; "failed to fetch"; "hash sum mismatch"; "file has unexpected size";
           "unable to connect"; "503 service unavailable"; "502 bad gateway";
           "could not resolve"]%string.
Definition aptIsTransientUpdateError (text : bytes) : bool := marked aptTransientMarkers text.

Definition aptLockMarkers : list bytes :=
  map str ["could not get lock"; "unable to acquire the dpkg frontend lock"; "dpkg frontend lock";
           "resource temporarily unavailable"; "unable to lock the administration directory";
           "another process is using it"; "is another process using it"]%string.
Definition aptIsLockContention (text : bytes) : bool := marked aptLockMarkers text.

Definition parseDpkgLine (line : bytes) : option (bytes * bytes) :=
  match Cut [chr 9] (TrimRight [cr; nl] line) with
  | Some (name, version) =>
      if bool_decide (name = []) || bool_decide (version = []) then None else Some (name, version)
  | None => None
  end.

(** Later lines win, as assignments to the map do. *)
Definition parseDpkgVersions (out : bytes) : gmap bytes bytes :=
  fold_left (fun m kv => <[kv.1 := kv.2]> m) (omap parseDpkgLine (Lines out)) ∅.

Definition aptProgressPhase (line : bytes) : option bytes :=
  if HasPrefix line (str "Get:") then Some PhaseDownload
  else if existsb (HasPrefix line) (map str ["Unpacking "; "Preparing to unpack "; "Setting up "]%string)
  then Some PhaseInstall
  else None.

(** ** dnf_parse.go *)

Definition dnfExitNoUpdates : Z := 0.
Definition dnfExitError : Z := 1.
Definition dnfExitUpdates : Z := 100.

Record dnfEntry := {
  de_Name : bytes;
  de_Arch : bytes;
  de_EVR : bytes;
  de_Repo : bytes;
}.

Definition nvra (e : dnfEntry) : bytes :=
  if bool_decide (de_Arch e = []) then de_Name e ++ str "-" ++ de_EVR e
  else de_Name e ++ str "-" ++ de_EVR e ++ str "." ++ de_Arch e.

Definition dnf_id (e : dnfEntry) : bytes :=
  if bool_decide (de_Arch e = []) then de_Name e ++ str "=" ++ de_EVR e
  else de_Name e ++ str "." ++ de_Arch e ++ str "=" ++ de_EVR e.

Definition dnfArches : list bytes :=
  map str ["x86_64"; "i686"; "i386"; "noarch"; "aarch64"; "armv7hl"; "armv6hl"; "ppc64le";
           "ppc64"; "s390x"; "riscv64"; "src"]%string.

Definition splitNameArch (token : bytes) : bytes * bytes :=
  match LastCut (str ".") token with
  | None => (token, [])
  | Some (name, candidate) =>
      if bool_decide (candidate ∈ dnfArches) then (name, candidate) else (token, [])
  end.

Definition dnfInstallSpec (id : bytes) : res error bytes :=
  match Cut (str "=") id with
  | Some (pkg, evr) =>
      if bool_decide (pkg = []) || bool_decide (evr = [])
      then Err (Sentinel "malformed dnf update id")
      else
        let '(name, arch) := splitNameArch pkg in
        Ok (nvra {| de_Name := name; de_Arch := arch; de_EVR := evr; de_Repo := [] |})
  | None => Err (Sentinel "malformed dnf update id")
  end.

Definition dnfSkipPrefixes : list bytes :=
  map str ["Last metadata expiration check"; "Loaded plugins"; "Dependencies resolved"; "Security:";
           "Obsoleting Packages"; "Updating Subscription Management";
           "Waiting for process with pid"]%string.
Definition dnfSkipLine (line : bytes) : bool := existsb (HasPrefix line) dnfSkipPrefixes.

Definition mkEntry (token evr repo : bytes) : dnfEntry :=
  let '(name, arch) := splitNameArch token in
  {| de_Name := name; de_Arch := arch; de_EVR := evr; de_Repo := repo |}.

(** The loop of [parseDNFCheckUpdate]; [pending] is a wrapped name. *)
Fixpoint checkUpdateLines (pending : bytes) (lines : list bytes) : list dnfEntry :=
  match lines with
  | [] => []
  | raw :: lines' =>
      let trimmed := TrimSpace (TrimRight [cr; nl] raw) in
      if bool_decide (trimmed = []) then checkUpdateLines [] lines'
      else if HasPrefix trimmed (str "Obsoleting Packages") then []
      else if dnfSkipLine trimmed then checkUpdateLines [] lines'
      else
        match bool_decide (pending = []), Fields trimmed with
        | false, [evr; repo] => mkEntry pending evr repo :: checkUpdateLines [] lines'
        | _, [f] =>
            if Contains f (str ".") || Contains f (str "-")
            then checkUpdateLines f lines' else checkUpdateLines pending lines'
        | _, f :: evr :: repo :: _ => mkEntry f evr repo :: checkUpdateLines [] lines'
        | _, _ => checkUpdateLines [] lines'
        end
  end.

Definition parseDNFCheckUpdate (out : bytes) : list dnfEntry := checkUpdateLines [] (Lines out).

Record dnfAdvisory := { adv_Severity : bytes; adv_Security : bool }.

Definition dnfSeverityToken (word : bytes) : option bytes :=
  if bool_decide (word = str "critical") then Some SeverityCritical
  else if bool_decide (word = str "important") then Some SeverityImportant
  else if bool_decide (word = str "moderate") then Some SeverityModerate
  else if bool_decide (word = str "low") then Some SeverityLow
  else None.

(** One part of a field: severity, security and whether it was either. *)
Definition severityPart (acc : bytes * bool * bool) (part : bytes) : bytes * bool * bool :=
  let '(severity, security, ok) := acc in
  let word := ToLower (Trim (str ".,:") part) in
  match dnfSeverityToken word with
  | Some sev => (sev, security, true)
  | None =>
      if bool_decide (word = str "sec") || bool_decide (word = str "security")
      then (severity, true, true) else acc
  end.

Definition dnfSeverityFromFields (fields : list bytes) : bytes * bool * bool :=
  fold_left severityPart (concat (map (Split "/"%char) fields)) (SeverityUnknown, false, false).

Definition severityRank (s : bytes) : Z :=
  if bool_decide (s = SeverityCritical) then 4
  else if bool_decide (s = SeverityImportant) then 3
  else if bool_decide (s = SeverityModerate) then 2
  else if bool_decide (s = SeverityLow) then 1
  else 0.

(** What one line of updateinfo says: the package, its severity, and whether it
    is a security advisory. *)
Definition updateinfoLine (raw : bytes) : option (bytes * dnfAdvisory) :=
  let fields := Fields (TrimSpace raw) in
  if (length fields <? 2)%nat then None
  else
    let '(severity, security, ok) := dnfSeverityFromFields (removelast fields) in
    if (ok : bool)
    then Some (List.last fields [], {| adv_Severity := severity; adv_Security := security |})
    else None.

Definition mergeAdvisory (m : gmap bytes dnfAdvisory) (line : bytes * dnfAdvisory) :
    gmap bytes dnfAdvisory :=
  let '(pkg, adv) := line in
  let adv :=
    match m !! pkg with
    | Some prior =>
        {| adv_Severity := if severityRank (adv_Severity adv) <=? severityRank (adv_Severity prior)
                           then adv_Severity prior else adv_Severity adv;
           adv_Security := adv_Security prior || adv_Security adv |}
    | None => adv
    end in
  <[pkg := adv]> m.

Definition parseDNFUpdateinfo (out : bytes) : gmap bytes dnfAdvisory :=
  fold_left mergeAdvisory (omap updateinfoLine (Lines out)) ∅.

Definition dnfRebootPrefixes : list bytes :=
  map str ["kernel"; "glibc"; "systemd"; "dbus"; "linux-firmware"; "microcode_ctl"; "grub2"; "shim";
           "openssl-libs"]%string.
Definition dnfRebootLikely (name : bytes) : bool :=
  existsb (fun p => bool_decide (name = p) || HasPrefix name (p ++ str "-")) dnfRebootPrefixes.

Definition stripZeroEpoch (spec : bytes) : bytes :=
  match Cut (str "-0:") spec with Some (name, rest) => name ++ str "-" ++ rest | None => spec end.

Definition dnfPluginMissing (text : bytes) : bool :=
  marked (map str ["no such command"; "unknown command"; "command not found"]%string) text.

Definition dnfUpdate (advisories : gmap bytes dnfAdvisory) (e : dnfEntry) : Update :=
  let adv := advisories !! nvra e in
  {| u_ID := dnf_id e; u_Title := nvra e;
     u_Kind := match adv with Some a => if adv_Security a then KindSecurity else KindOther
                         | None => KindOther end;
     u_KBIDs := [];
     u_Severity := match adv with Some a => adv_Severity a | None => SeverityUnknown end;
     u_SizeBytes := 0; u_RebootLikely := dnfRebootLikely (de_Name e);
     u_Unsupported := false; u_Detail := [] |}.

Definition dnfUpdates (entries : list dnfEntry) (advisories : gmap bytes dnfAdvisory) : list Update :=
  map (dnfUpdate advisories) entries.

(** ** pacman_parse.go *)

Definition pacmanRebootNames : list bytes :=
  map str ["linux"; "linux-lts"; "linux-zen"; "linux-hardened"; "linux-firmware"; "systemd";
           "glibc"; "dbus"; "nvidia"; "nvidia-dkms"]%string.

Definition pacmanUpdate (name oldVer newVer : bytes) : Update :=
  {| u_ID := name ++ str "=" ++ newVer;
     u_Title := name ++ str " " ++ oldVer ++ str " to " ++ newVer;
     u_Kind := KindOther; u_KBIDs := []; u_Severity := SeverityUnknown; u_SizeBytes := 0;
     u_RebootLikely := bool_decide (name ∈ pacmanRebootNames);
     u_Unsupported := false; u_Detail := [] |}.

Definition parsePacmanLine (raw : bytes) : option Update :=
  let line := TrimSpace raw in
  if bool_decide (line = []) then None
  else
    match Fields line with
    | name :: oldVer :: arrow :: newVer :: more =>
        if negb (bool_decide (arrow = str "->")) then None
        else if match more with f :: _ => Contains (ToLower f) (str "ignored") | [] => false end
        then None
        else if bool_decide (name = []) || bool_decide (newVer = []) then None
        else Some (pacmanUpdate name oldVer newVer)
    | _ => None
    end.

Definition parsePacmanQu (out : bytes) : list Update := omap parsePacmanLine (Lines out).

Definition parsePacmanQueryLine (raw : bytes) : option (bytes * bytes) :=
  match Cut (str " ") (TrimSpace raw) with
  | Some (name, version) => if bool_decide (name = []) then None else Some (name, TrimSpace version)
  | None => None
  end.

Definition parsePacmanQuery (out : bytes) : gmap bytes bytes :=
  fold_left (fun m kv => <[kv.1 := kv.2]> m) (omap parsePacmanQueryLine (Lines out)) ∅.

(** ** Reading back what apt prints *)

(** A line of [apt-get -s dist-upgrade], the previous version optional. *)
Definition renderInst (i : aptInst) : bytes :=
  str "Inst " ++ ai_Name i ++ [sp] ++
  (if bool_decide (ai_OldVersion i = []) then [] else str "[" ++ ai_OldVersion i ++ str "] ") ++
  str "(" ++ ai_NewVersion i ++ [sp] ++ ai_Origins i ++ str " [" ++ ai_Arch i ++ str "])".

(** Fields as apt has them: words, and an origin list without brackets. *)
Record wfInst (i : aptInst) : Prop := {
  wf_Name : word (ai_Name i);
  wf_Old : ai_OldVersion i = [] \/ word (ai_OldVersion i) /\ "]"%char ∉ ai_OldVersion i;
  wf_New : word (ai_NewVersion i);
  wf_Origins : trimmed (ai_Origins i);
  wf_Arch : word (ai_Arch i) /\ "["%char ∉ ai_Arch i;
}.

Lemma aptOrigins_render origins arch :
  trimmed origins -> word arch -> "["%char ∉ arch ->
  aptOrigins (origins ++ str " [" ++ arch ++ str "]") = (origins, arch).
Proof.
  intros Ho Ha Hn. unfold aptOrigins.
  assert (Ht : trimmed (arch ++ str "]")) by (apply trimmed_app; [by apply word_trimmed|by apply trimmed_char]).
  rewrite (TrimSpace_trimmed (origins ++ _)) by (apply trimmed_around; [done|exact Ht]).
  assert (LastCut (str "[") (origins ++ str " [" ++ arch ++ str "]") = Some (origins ++ [sp], arch ++ str "]")) as ->.
  { apply LastCut_char_spec. split; [by rewrite <- app_assoc|set_solver]. }
  rewrite (TrimSpace_trimmed (arch ++ _)) by done. unfold TrimSuffix.
  rewrite (proj2 (CutSuffix_Some (arch ++ str "]") (str "]") arch) eq_refl). cbn [from_option id].
  rewrite (TrimSpace_trimmed arch) by by apply word_trimmed. rewrite TrimSpace_sp_end by done.
  by rewrite TrimSpace_trimmed.
Qed.

Lemma aptCandidate_render body : trimmed body -> aptCandidate (str "(" ++ body ++ str ")") = Some body.
Proof.
  intros Hb. unfold aptCandidate.
  assert (Cut (str "(") (str "(" ++ body ++ str ")") = Some ([], body ++ str ")")) as ->.
  { apply Cut_char_spec. split; [done|set_solver]. }
  assert (LastCut (str ")") (body ++ str ")") = Some (body, [])) as ->.
  { apply LastCut_char_spec. split; [done|set_solver]. }
  by rewrite TrimSpace_trimmed.
Qed.

Lemma aptOldVersion_render old rest :
  old = [] \/ word old /\ "]"%char ∉ old -> trimmed rest -> HasPrefix rest (str "[") = false ->
  aptOldVersion ((if bool_decide (old = []) then [] else str "[" ++ old ++ str "] ") ++ rest) = Some (old, rest).
Proof.
  intros Hold Hr Hp. unfold aptOldVersion, CutPrefix. case_bool_decide as Hn.
  - subst old. cbn [app]. destruct (strip_prefix (str "[") rest) eqn:E; [|done].
    apply strip_prefix_Some in E. rewrite E in Hp. done.
  - destruct Hold as [?|[Hw Hb]]; [done|].
    assert (strip_prefix (str "[") ((str "[" ++ old ++ str "] ") ++ rest) = Some (old ++ str "] " ++ rest)) as ->.
    { apply strip_prefix_Some. by rewrite <- !app_assoc. }
    assert (Cut (str "]") (old ++ str "] " ++ rest) = Some (old, sp :: rest)) as ->.
    { by apply Cut_char_spec. }
    rewrite TrimSpace_sp, !TrimSpace_trimmed; [done|done|by apply word_trimmed].
Qed.

(** What follows the package name. *)
Definition renderTail (i : aptInst) : bytes :=
  (if bool_decide (ai_OldVersion i = []) then [] else str "[" ++ ai_OldVersion i ++ str "] ") ++
  str "(" ++ (ai_NewVersion i ++ [sp] ++ ai_Origins i ++ str " [" ++ ai_Arch i ++ str "]") ++ str ")".

Lemma renderInst_tail i : renderInst i = str "Inst " ++ ai_Name i ++ [sp] ++ renderTail i.
Proof.
  unfold renderInst, renderTail. change (str "])") with (str "]" ++ str ")"). by rewrite <- !app_assoc.
Qed.

Lemma render_trimmed i : wfInst i ->
  trimmed (ai_NewVersion i ++ [sp] ++ ai_Origins i ++ str " [" ++ ai_Arch i ++ str "]") /\ trimmed (renderTail i).
Proof.
  intros [_ Hold Hnew Ho [Ha _]]. set (body := ai_NewVersion i ++ _). assert (Htb : trimmed body).
  { apply trimmed_around; [by apply word_trimmed|]. apply trimmed_around; [done|].
    apply trimmed_app; [by apply word_trimmed|by apply trimmed_char]. }
  split; [done|]. unfold renderTail. fold body.
  assert (Htr : trimmed (str "(" ++ body ++ str ")")) by (apply (trimmed_around (str "(")); by apply trimmed_char).
  case_bool_decide; [exact Htr|]. by apply trimmed_prefix.
Qed.

(** A line apt prints is read back field by field: for every package,
    previous version (or none), candidate, origin list and architecture made of
    the characters apt uses, parsing the printed line gives them back. *)
Theorem parseAptInstLine_roundtrip (i : aptInst) : wfInst i -> parseAptInstLine (renderInst i) = Some i.
Proof.
  intros Hwf. destruct (render_trimmed i Hwf) as [Htb Htt]. destruct Hwf as [Hn Hold Hnew Ho [Ha Hab]].
  assert (Hname : trimmed (ai_Name i ++ [sp] ++ renderTail i)) by (apply trimmed_around; [by apply word_trimmed|done]).
  unfold parseAptInstLine, CutPrefix. rewrite renderInst_tail, TrimSpace_trimmed by by apply trimmed_prefix.
  rewrite (proj2 (strip_prefix_Some (str "Inst ") _ _) eq_refl), TrimSpace_trimmed by done.
  rewrite (proj2 (Cut_char_spec sp _ (ai_Name i) (renderTail i))) by (split; [done|by apply word_no_sp]).
  rewrite bool_decide_eq_false_2 by apply Hn. rewrite TrimSpace_trimmed by done.
  unfold renderTail. rewrite aptOldVersion_render; [|done|apply (trimmed_around (str "(")); by apply trimmed_char|done].
  rewrite aptCandidate_render by done.
  rewrite (proj2 (Cut_char_spec sp _ (ai_NewVersion i) (ai_Origins i ++ str " [" ++ ai_Arch i ++ str "]")))
    by (split; [done|by apply word_no_sp]).
  rewrite bool_decide_eq_false_2 by apply Hnew. rewrite aptOrigins_render by done. by destruct i.
Qed.

(** The line of a security update of OpenSSL. *)
Definition demoInst : aptInst :=
  {| ai_Name := str "openssl"; ai_OldVersion := str "3.0.2-0ubuntu1"; ai_NewVersion := str "3.0.2-0ubuntu1.18";
     ai_Origins := str "Ubuntu:22.04/jammy-updates, Ubuntu:22.04/jammy-security"; ai_Arch := str "amd64" |}.

Lemma parseAptInstLine_roundtrip_witness :
  wfInst demoInst /\ parseAptInstLine (renderInst demoInst) = Some demoInst /\
  aptIsSecurityOrigin (ai_Origins demoInst) = true.
Proof.
  assert (H : wfInst demoInst).
  { split; unfold word, trimmed; cbn; [|right| | |];
      repeat first [split | done | constructor | (apply not_elem_of_cons; split)]; try done;
      by apply not_elem_of_nil. }
  split; [exact H|]. split; [exact (parseAptInstLine_roundtrip demoInst H)|reflexivity].
Defined.

(** ** dnf *)

Lemma splitNameArch_spec token :
  match splitNameArch token with
  | (name, []) => name = token
  | (name, arch) => token = name ++ str "." ++ arch
  end.
Proof.
  unfold splitNameArch. destruct (LastCut (str ".") token) as [[name cand]|] eqn:E; [|done].
  case_bool_decide as Hc; [|done]. apply LastCut_Some in E. destruct cand; [|done].
  exfalso. unfold dnfArches in Hc. cbn in Hc. set_solver.
Qed.

(** What a dnf scan lists can be asked for.  The id an entry is published
    under gives back, on the way to the command line, exactly the nvra the
    scan looked its advisory up with, whatever the package, architecture and
    version, provided the package token has no equals sign. *)
Theorem dnfInstallSpec_roundtrip (token evr repo : bytes) :
  "="%char ∉ token -> token ≠ [] -> evr ≠ [] ->
  let e := mkEntry token evr repo in
  dnfInstallSpec (dnf_id e) = Ok (nvra e) /\ u_Title (dnfUpdate ∅ e) = nvra e.
Proof.
  intros Heq Hne Hev. cbn zeta. split; [|done].
  assert (Hid : dnf_id (mkEntry token evr repo) = token ++ str "=" ++ evr).
  { unfold dnf_id, mkEntry. pose proof (splitNameArch_spec token) as Hs.
    destruct (splitNameArch token) as [name [|c arch]]; cbn [de_Arch de_Name de_EVR].
    - by rewrite bool_decide_eq_true_2, Hs.
    - rewrite bool_decide_eq_false_2 by done. rewrite Hs. by rewrite <- !app_assoc. }
  unfold dnfInstallSpec. rewrite Hid, (proj2 (Cut_char_spec "="%char _ token evr)) by done.
  rewrite !bool_decide_eq_false_2 by done. cbn [orb]. unfold mkEntry. by destruct (splitNameArch token).
Qed.

Lemma dnfInstallSpec_roundtrip_witness :
  "="%char ∉ str "openssl-libs.x86_64" /\
  dnfInstallSpec (str "openssl-libs.x86_64=1:3.0.7-27.el9") = Ok (str "openssl-libs-1:3.0.7-27.el9.x86_64").
Proof.
  assert (H : "="%char ∉ str "openssl-libs.x86_64") by (apply (bool_decide_unpack _); reflexivity).
  split; [exact H|].
  exact (proj1 (dnfInstallSpec_roundtrip (str "openssl-libs.x86_64") (str "1:3.0.7-27.el9") (str "baseos") H
    ltac:(discriminate) ltac:(discriminate))).
Defined.

(** Advisories merge to the worst of what was seen. *)
Definition worst (lines : list (bytes * dnfAdvisory)) (pkg : bytes) (adv : dnfAdvisory) : Prop :=
  (forall a, (pkg, a) ∈ lines -> severityRank (adv_Severity a) <= severityRank (adv_Severity adv) /\
     (adv_Security a = true -> adv_Security adv = true)) /\
  (exists a, (pkg, a) ∈ lines /\ adv_Severity a = adv_Severity adv) /\
  (adv_Security adv = true -> exists a, (pkg, a) ∈ lines /\ adv_Security a = true).

Lemma worst_other lines pkg adv x : worst lines pkg adv -> x.1 ≠ pkg -> worst (lines ++ [x]) pkg adv.
Proof.
  intros (H1 & (a & Ha & Hs) & H3) Hne. split_and!.
  - intros b [Hb|Hb%list_elem_of_singleton]%elem_of_app; [auto|]. by subst x.
  - exists a. set_solver.
  - intros Hsec. destruct (H3 Hsec) as (b & ? & ?). exists b. set_solver.
Qed.

Lemma worst_merge lines pkg prior adv :
  worst lines pkg prior ->
  worst (lines ++ [(pkg, adv)]) pkg
    {| adv_Severity := if severityRank (adv_Severity adv) <=? severityRank (adv_Severity prior)
                       then adv_Severity prior else adv_Severity adv;
       adv_Security := adv_Security prior || adv_Security adv |}.
Proof.
  intros (H1 & (a & Ha & Hs) & H3). destruct (Z.leb_spec (severityRank (adv_Severity adv))
    (severityRank (adv_Severity prior))) as [Hle|Hgt]; (split_and!; cbn [adv_Severity adv_Security]).
  1, 4: intros b [Hb|Hb%list_elem_of_singleton]%elem_of_app;
    [destruct (H1 b Hb) as [? Hsec]; split; [lia|intros Hb'; by rewrite Hsec]|];
    injection Hb as ->; split; [lia|]; intros ->; apply orb_true_r.
  1: exists a; set_solver.
  2: exists adv; set_solver.
  all: intros [Hsec|Hsec]%orb_true_iff;
    [destruct (H3 Hsec) as (b & ? & ?); exists b; set_solver|exists adv; set_solver].
Qed.

(** Severities are not lost.  For every package updateinfo mentions, what
    the scan reports is the severity of one of its lines and no line has a
    worse one, and it counts as a security update exactly when some line says
    so; a package it does not mention has no entry. *)
Theorem parseDNFUpdateinfo_worst (out pkg : bytes) :
  let lines := omap updateinfoLine (Lines out) in
  match parseDNFUpdateinfo out !! pkg with
  | Some adv => worst lines pkg adv
  | None => forall a, (pkg, a) ∉ lines
  end.
Proof.
  cbn zeta. unfold parseDNFUpdateinfo. set (lines := omap _ _).
  apply (fold_left_inv (fun done (m : gmap bytes dnfAdvisory) =>
    match m !! pkg with Some adv => worst done pkg adv | None => forall a, (pkg, a) ∉ done end)).
  { rewrite lookup_empty. set_solver. }
  intros done [k adv] todo m _ Hm. unfold mergeAdvisory. destruct (decide (k = pkg)) as [->|Hne].
  - rewrite lookup_insert_eq. destruct (m !! pkg) as [prior|]; [by apply worst_merge|].
    split_and!; [|exists adv; set_solver|exists adv; set_solver].
    intros a [Ha|Ha%list_elem_of_singleton]%elem_of_app; [by destruct (Hm a)|]. injection Ha as ->. auto with lia.
  - rewrite lookup_insert_ne by done. destruct (m !! pkg); [by apply worst_other|]. set_solver.
Qed.
