(* ===== verification/PatchPlan.v ===== *)
(** * PatchPlan: from approved ids to command arguments (ids.go, self.go)

    An approval names updates; a plan is what the package manager is told to
    install.  Each backend's loop admits an id or records why it does not. *)
From S2P Require Import Prelude GoLib GoText GoOS Patch PatchParse.

(** ** self.go *)

Definition MinInstallTimeout : Z := 30 * Minute.
Definition ErrTimeoutTooShort : error := Sentinel "patch: install deadline is shorter than the floor".
Definition ErrSelfPackage : error :=
  Sentinel "patch: the agent does not install its own package from a patch job".

Definition selfPackageNames : list bytes := [str "everwas-agent"; str "everwas"].

Definition packageNameOf (id : bytes) : bytes :=
  let id := TrimSpace id in
  if bool_decide (id = []) then []
  else
    let pkg := before (str "=") id in
    let name := (splitNameArch pkg).1 in
    let pkg := if bool_decide (name = []) then pkg else name in
    TrimSpace pkg.

Definition isSelfPackage (id : bytes) : bool :=
  let name := packageNameOf id in
  negb (bool_decide (name = [])) && bool_decide (ToLower name ∈ selfPackageNames).

Definition refuseSelf (acc : list bytes * InstallResult) (id : bytes) : list bytes * InstallResult :=
  let '(out, r) := acc in
  if isSelfPackage id then (out, fail id (Errorf "self" ErrSelfPackage) r) else (out ++ [id], r).

Definition refuseSelfPackages (ids : list bytes) (r : InstallResult) : list bytes * InstallResult :=
  fold_left refuseSelf ids ([], r).

(** [deadline] is the context's, if it has one. *)
Definition checkInstallDeadline (deadline : option Z) (now : Z) : option error :=
  match deadline with
  | None => None
  | Some d => if Sub d now <? MinInstallTimeout then Some (Errorf "left" ErrTimeoutTooShort) else None
  end.

Definition failAll (ids : list bytes) (e : error) (r : InstallResult) : InstallResult :=
  fold_left (fun r id => fail id e r) ids r.

Definition prepareInstall (deadline : option Z) (now : Z) (ids : list bytes) (r : InstallResult) :
    (list bytes * InstallResult) * option error :=
  match checkInstallDeadline deadline now with
  | Some e => (([], failAll ids e r), Some e)
  | None => (refuseSelfPackages ids r, None)
  end.

(** ** ids.go: the plans *)

(** The body of [aptInstallPlan]'s loop up to the point where the id is
    admitted; [pacmanInstallPlan]'s differs in the last test. *)
Definition splitChecked (id : bytes) : res error (bytes * bytes) :=
  match splitPkgVersionID id with
  | None => Err (Errorf "want pkg=version" ErrBadUpdateID)
  | Some (name, version) =>
      match checkPkgName name false with
      | Some e => Err e
      | None => match checkPkgVersion version with Some e => Err e | None => Ok (name, version) end
      end
  end.

Definition aptAdmit (offered : gset bytes) (id : bytes) : res error (bytes * bytes) :=
  match splitChecked id with
  | Err e => Err e
  | Ok nv => if bool_decide (id ∈ offered) then Ok nv else Err (Errorf "apt" ErrNotOffered)
  end.

Record aptPlan := {
  ap_specs : list bytes;
  ap_want : gmap bytes bytes;
  ap_idByName : gmap bytes bytes;
  ap_res : InstallResult;
}.

Definition aptPlanStep (offered : gset bytes) (p : aptPlan) (id : bytes) : aptPlan :=
  match aptAdmit offered id with
  | Err e => {| ap_specs := ap_specs p; ap_want := ap_want p; ap_idByName := ap_idByName p;
                ap_res := fail id e (ap_res p) |}
  | Ok (name, version) =>
      {| ap_specs := ap_specs p ++ [name ++ str "=" ++ version];
         ap_want := <[name := version]> (ap_want p);
         ap_idByName := <[name := id]> (ap_idByName p);
         ap_res := ap_res p |}
  end.

Definition aptInstallPlan (ids : list bytes) (offered : gset bytes) (r : InstallResult) : aptPlan :=
  fold_left (aptPlanStep offered) ids
    {| ap_specs := []; ap_want := ∅; ap_idByName := ∅; ap_res := r |}.

Definition dnfAdmit (offered : gset bytes) (id : bytes) : res error bytes :=
  match Cut (str "=") id with
  | None => Err (Errorf "want name.arch=evr" ErrBadUpdateID)
  | Some (pkg, evr) =>
      if bool_decide (pkg = []) || bool_decide (evr = [])
      then Err (Errorf "want name.arch=evr" ErrBadUpdateID)
      else
        match checkPkgName (splitNameArch pkg).1 true with
        | Some e => Err e
        | None =>
            match checkPkgVersion evr with
            | Some e => Err e
            | None =>
                if bool_decide (id ∈ offered) then dnfInstallSpec id
                else Err (Errorf "dnf" ErrNotOffered)
            end
        end
  end.

Record dnfPlan := {
  dp_specs : list bytes;
  dp_idBySpec : gmap bytes bytes;
  dp_res : InstallResult;
}.

Definition dnfPlanStep (offered : gset bytes) (p : dnfPlan) (id : bytes) : dnfPlan :=
  match dnfAdmit offered id with
  | Err e => {| dp_specs := dp_specs p; dp_idBySpec := dp_idBySpec p; dp_res := fail id e (dp_res p) |}
  | Ok spec => {| dp_specs := dp_specs p ++ [spec]; dp_idBySpec := <[spec := id]> (dp_idBySpec p);
                  dp_res := dp_res p |}
  end.

Definition dnfInstallPlan (ids : list bytes) (offered : gset bytes) (r : InstallResult) : dnfPlan :=
  fold_left (dnfPlanStep offered) ids {| dp_specs := []; dp_idBySpec := ∅; dp_res := r |}.

Definition pacmanAdmit (offeredNames : gset bytes) (id : bytes) : res error bytes :=
  match splitChecked id with
  | Err e => Err e
  | Ok (name, _) =>
      if bool_decide (name ∈ offeredNames) then Ok name else Err (Errorf "pacman" ErrNotOffered)
  end.

Record pacmanPlan := {
  pp_names : list bytes;
  pp_idByName : gmap bytes bytes;
  pp_res : InstallResult;
}.

Definition pacmanPlanStep (offeredNames : gset bytes) (p : pacmanPlan) (id : bytes) : pacmanPlan :=
  match pacmanAdmit offeredNames id with
  | Err e => {| pp_names := pp_names p; pp_idByName := pp_idByName p; pp_res := fail id e (pp_res p) |}
  | Ok name =>
      match pp_idByName p !! name with
      | Some _ => p
      | None => {| pp_names := pp_names p ++ [name]; pp_idByName := <[name := id]> (pp_idByName p);
                   pp_res := pp_res p |}
      end
  end.

Definition pacmanInstallPlan (ids : list bytes) (offeredNames : gset bytes) (r : InstallResult) :
    pacmanPlan :=
  fold_left (pacmanPlanStep offeredNames) ids {| pp_names := []; pp_idByName := ∅; pp_res := r |}.

Definition pacmanOfferedNames (updates : list Update) : gset bytes :=
  list_to_set (omap (fun u => fst <$> splitPkgVersionID (u_ID u)) updates).

(** ** Results that only grow *)

(** Every id in [ids] has an outcome. *)
Definition accounted (ids : list bytes) (r : InstallResult) : Prop :=
  forall id, id ∈ ids -> id ∈ Installed r \/ is_Some (Failed r !! id).

(** [r'] has every outcome [r] has. *)
Record extends (r r' : InstallResult) : Prop := {
  ex_installed : forall id, id ∈ Installed r -> id ∈ Installed r';
  ex_failed : forall id e, Failed r !! id = Some e -> Failed r' !! id = Some e;
}.

#[export] Instance extends_preorder : PreOrder extends.
Proof.
  split; [by split|]. intros a b c [? ?] [? ?]. split; auto.
Qed.

Lemma fail_extends id e r : extends r (fail id e r).
Proof.
  unfold fail. destruct (Failed r !! id) eqn:E; [done|]. split; cbn; [done|].
  intros id' e' H. rewrite lookup_insert_ne; [done|]. congruence.
Qed.

Lemma setReboot_extends b r : extends r (setReboot b r).
Proof. by split. Qed.

Lemma fail_records id e r : is_Some (Failed (fail id e r) !! id).
Proof.
  unfold fail. destruct (Failed r !! id) eqn:E; [by rewrite E; eauto|]. cbn. rewrite lookup_insert_eq. eauto.
Qed.

Lemma fail_installed id e r : Installed (fail id e r) = Installed r.
Proof. unfold fail. by destruct (Failed r !! id). Qed.

Lemma accounted_extends ids r r' : accounted ids r -> extends r r' -> accounted ids r'.
Proof.
  intros Ha [Hi Hf] id Hid. destruct (Ha id Hid) as [H|[e H]]; [left; auto|right; eauto].
Qed.

Lemma failAll_spec ids e r : extends r (failAll ids e r) /\ accounted ids (failAll ids e r) /\
  Installed (failAll ids e r) = Installed r.
Proof.
  revert r. induction ids as [|id ids IH]; intros r; cbn; [split_and!; [done| |done]|].
  { intros x Hx. by apply not_elem_of_nil in Hx. }
  destruct (IH (fail id e r)) as (H1 & H2 & H3). fold (failAll ids e (fail id e r)) in *.
  pose proof (fail_extends id e r). split_and!.
  - by etrans.
  - intros x [->|Hx]%elem_of_cons; [|by apply H2]. right.
    destruct (fail_records id e r) as [y Hy]. exists y. by apply H1.
  - by rewrite H3, fail_installed.
Qed.

(** Into a result without failures, the reason given is the one recorded. *)
Lemma failAll_same ids e r id :
  (forall i x, Failed r !! i = Some x -> x = e) -> id ∈ ids -> Failed (failAll ids e r) !! id = Some e.
Proof.
  revert r. induction ids as [|i ids IH]; intros r Hr; cbn; [by intros ?%not_elem_of_nil|].
  assert (Hf : Failed (fail i e r) !! i = Some e).
  { unfold fail. destruct (Failed r !! i) as [x|] eqn:E; [|apply lookup_insert_eq]. by rewrite E, (Hr i x). }
  intros [->|Hin]%elem_of_cons.
  - by apply (proj1 (failAll_spec ids e (fail i e r))).
  - apply IH; [|done]. intros j x Hx. unfold fail in Hx. destruct (Failed r !! i) eqn:E; [by eapply Hr|].
    cbn in Hx. destruct (decide (i = j)) as [->|Hne]; [|rewrite lookup_insert_ne in Hx by done; by eapply Hr].
    rewrite lookup_insert_eq in Hx. congruence.
Qed.

(** ** What the plans admit *)

(** A character no shell, no option parser and no package manager reads as
    anything but part of a word. *)
Definition specChar (c : ascii) : bool :=
  is_lower c || is_upper c || is_digit c ||
  bool_decide (c ∈ ["@"; "."; "_"; "+"; "-"; ":"; "~"; "^"; "="]%char).

(** An argument that cannot be taken for an option. *)
Definition safeArg (s : bytes) : Prop :=
  Forall (fun c => specChar c = true) s /\
  exists c s', s = c :: s' /\ (is_lower c || is_upper c || is_digit c)%bool = true.

Lemma checkPkgName_None name up :
  checkPkgName name up = None ->
  exists c rest, name = c :: rest /\ pkgAlnum up c = true /\ forallb (pkgNameChar up) rest = true.
Proof.
  unfold checkPkgName. destruct name as [|c rest]; [done|]. destruct (_ <? _)%nat; [done|].
  destruct (pkgAlnum up c) eqn:E; [|done]. cbn. destruct (forallb _ rest) eqn:E2; [|done]. eauto 10.
Qed.

Lemma pkgNameChar_spec up c : pkgNameChar up c = true -> specChar c = true.
Proof.
  unfold pkgNameChar, pkgAlnum, specChar. intros H. apply orb_true_iff in H as [H|H].
  - destruct (is_lower c), (is_digit c), (is_upper c), up; done.
  - apply bool_decide_eq_true in H. rewrite orb_true_iff. right. apply bool_decide_eq_true.
    set_solver.
Qed.

Lemma pkgAlnum_alnum up c : pkgAlnum up c = true -> (is_lower c || is_upper c || is_digit c)%bool = true.
Proof. unfold pkgAlnum. by destruct (is_lower c), (is_digit c), (is_upper c), up. Qed.

Lemma versionChar_spec c : versionChar c = true -> specChar c = true.
Proof.
  unfold versionChar, specChar. intros H. apply orb_true_iff in H as [H|H]; [by rewrite H|].
  apply bool_decide_eq_true in H. rewrite orb_true_iff. right. apply bool_decide_eq_true. set_solver.
Qed.

Lemma checkPkgName_safe name up : checkPkgName name up = None -> safeArg name.
Proof.
  intros (c & rest & -> & Hc & Hr)%checkPkgName_None. split; [|by eauto using pkgAlnum_alnum].
  constructor.
  - apply (pkgNameChar_spec up). unfold pkgNameChar. by rewrite Hc.
  - apply Forall_forall. intros x Hx. apply (pkgNameChar_spec up).
    rewrite forallb_forall in Hr. apply Hr. by apply list_elem_of_In.
Qed.

Lemma checkPkgVersion_safe v : checkPkgVersion v = None -> Forall (fun c => specChar c = true) v.
Proof.
  unfold checkPkgVersion. repeat case_match; try done. intros _. apply Forall_forall. intros x Hx.
  apply versionChar_spec. match goal with H : forallb _ _ = true |- _ => rewrite forallb_forall in H; apply H end.
  by apply list_elem_of_In.
Qed.

Lemma safeArg_app a b : safeArg a -> Forall (fun c => specChar c = true) b -> safeArg (a ++ b).
Proof.
  intros [Ha (c & s & -> & Hc)] Hb. split; [by apply Forall_app|]. exists c, (s ++ b). done.
Qed.

Lemma splitPkgVersionID_Some id name version :
  splitPkgVersionID id = Some (name, version) -> id = name ++ str "=" ++ version /\ "="%char ∉ name.
Proof.
  unfold splitPkgVersionID. destruct (Cut (str "=") id) as [[a b]|] eqn:E; [|done].
  destruct (_ || _); [done|]. intros [= <- <-]. apply Cut_char_spec in E as [-> H]. done.
Qed.

Lemma splitChecked_Ok id name version :
  splitChecked id = Ok (name, version) ->
  id = name ++ str "=" ++ version /\ "="%char ∉ name /\ checkPkgName name false = None /\
  checkPkgVersion version = None.
Proof.
  unfold splitChecked. destruct (splitPkgVersionID id) as [[n v]|] eqn:E; [|done].
  destruct (checkPkgName n false) eqn:En; [done|]. destruct (checkPkgVersion v) eqn:Ev; [done|].
  intros [= <- <-]. apply splitPkgVersionID_Some in E as [-> ?]. done.
Qed.

(** ** The plans as folds *)

(** What a plan does with its ids, whichever the backend: [admit] says which
    ids it takes, [spec] what it passes on for one, [key] under what it files
    it.  [specs] and [index] are the two halves of its result. *)
Record planned (ids : list bytes) (taken : bytes -> bytes -> Prop) (r r' : InstallResult)
    (specs : list bytes) (index : gmap bytes bytes) : Prop := {
  pl_extends : extends r r';
  pl_installed : Installed r' = Installed r;
  pl_reboot : RebootRequired r' = RebootRequired r;
  (** every argument stands for a requested id that was taken *)
  pl_specs : forall x, x ∈ specs -> exists id, id ∈ ids /\ taken id x;
  (** and so does everything filed *)
  pl_index : forall k id, index !! k = Some id -> id ∈ ids /\ exists x, x ∈ specs /\ taken id x;
  (** every id is taken or has a reason *)
  pl_total : forall id, id ∈ ids -> is_Some (Failed r' !! id) \/ exists x, x ∈ specs /\ taken id x;
}.

Lemma fail_reboot id e r : RebootRequired (fail id e r) = RebootRequired r.
Proof. unfold fail. by destruct (Failed r !! id). Qed.

Lemma planned_nil taken r : planned [] taken r r [] ∅.
Proof. split; [done|done|done| | |]; intros; set_solver. Qed.

Lemma planned_refuse ids taken r r' specs index id e :
  planned ids taken r r' specs index -> planned (ids ++ [id]) taken r (fail id e r') specs index.
Proof.
  intros [He Hi Hr Hs Hx Ht]. pose proof (fail_extends id e r') as [_ Hf].
  split; [etrans; [done|apply fail_extends]|by rewrite fail_installed|by rewrite fail_reboot| | |].
  - intros x (i & ? & ?)%Hs. exists i. set_solver.
  - intros k i (? & ?)%Hx. set_solver.
  - intros i [Hi'| ->%list_elem_of_singleton]%elem_of_app; [|left; apply fail_records].
    destruct (Ht i Hi') as [[y Hy]|?]; [left|by right]. exists y. by apply Hf.
Qed.

Lemma planned_take ids (taken : bytes -> bytes -> Prop) r r' specs index id x k :
  planned ids taken r r' specs index -> taken id x ->
  planned (ids ++ [id]) taken r r' (specs ++ [x]) (<[k := id]> index).
Proof.
  intros [He Hi Hr Hs Hx Ht] Htk. split; [done|done|done| | |].
  - intros y [Hy| ->%list_elem_of_singleton]%elem_of_app; [|exists id; set_solver].
    destruct (Hs y Hy) as (i & ? & ?). exists i. set_solver.
  - intros k' i Hk. destruct (decide (k' = k)) as [->|Hne].
    + rewrite lookup_insert_eq in Hk. injection Hk as <-. split; [set_solver|]. exists x. set_solver.
    + rewrite lookup_insert_ne in Hk by done. destruct (Hx k' i Hk) as (? & y & ? & ?).
      split; [set_solver|]. exists y. set_solver.
  - intros i [Hi'| ->%list_elem_of_singleton]%elem_of_app; [|right; exists x; set_solver].
    destruct (Ht i Hi') as [?|(y & ? & ?)]; [by left|right; exists y; set_solver].
Qed.

(** An id that stands for an argument that is already there. *)
Lemma planned_again ids (taken : bytes -> bytes -> Prop) r r' specs index id x :
  planned ids taken r r' specs index -> x ∈ specs -> taken id x ->
  planned (ids ++ [id]) taken r r' specs index.
Proof.
  intros [He Hi Hr Hs Hx Ht] Hin Htk. split; [done|done|done| | |].
  - intros y (i & ? & ?)%Hs. exists i. set_solver.
  - intros k i (? & ?)%Hx. set_solver.
  - intros i [Hi'| ->%list_elem_of_singleton]%elem_of_app; [by apply Ht|right; by exists x].
Qed.

(** *** apt *)

Lemma aptAdmit_Ok offered id name version :
  aptAdmit offered id = Ok (name, version) ->
  splitChecked id = Ok (name, version) /\ id ∈ offered.
Proof.
  unfold aptAdmit. destruct (splitChecked id) as [nv|] eqn:E; [|done].
  case_bool_decide; [|done]. intros [= ->]. done.
Qed.

(** The spec is the id itself. *)
Definition aptTaken (offered : gset bytes) (id spec : bytes) : Prop :=
  spec = id /\ id ∈ offered /\ exists name version, splitChecked id = Ok (name, version).

Lemma aptInstallPlan_planned ids offered r :
  let p := aptInstallPlan ids offered r in
  planned ids (aptTaken offered) r (ap_res p) (ap_specs p) (ap_idByName p).
Proof.
  cbn zeta. unfold aptInstallPlan.
  apply (fold_left_inv (fun done p => planned done (aptTaken offered) r (ap_res p) (ap_specs p) (ap_idByName p)));
    [apply planned_nil|]. intros done id todo p _ Hp. unfold aptPlanStep.
  destruct (aptAdmit offered id) as [[name version]|e] eqn:E; cbn; [|by apply planned_refuse].
  apply aptAdmit_Ok in E as [E Ho]. apply planned_take; [done|].
  split; [|by eauto]. by apply splitChecked_Ok in E as (-> & _).
Qed.

(** [want] and [idByName] agree: the id filed under a name asks for the version
    wanted for it. *)
Lemma aptInstallPlan_want ids offered r :
  let p := aptInstallPlan ids offered r in
  dom (ap_want p) = dom (ap_idByName p) /\
  forall name version id, ap_want p !! name = Some version -> ap_idByName p !! name = Some id ->
    splitChecked id = Ok (name, version).
Proof.
  cbn zeta. unfold aptInstallPlan.
  apply (fold_left_inv (fun _ p => dom (ap_want p) = dom (ap_idByName p) /\
    forall name version id, ap_want p !! name = Some version -> ap_idByName p !! name = Some id ->
    splitChecked id = Ok (name, version))).
  { cbn. split; [by rewrite !dom_empty_L|]. intros name ? ?. by rewrite lookup_empty. }
  intros done id todo p _ [Hd Hp]. unfold aptPlanStep.
  destruct (aptAdmit offered id) as [[name version]|e] eqn:E; cbn; [|done].
  apply aptAdmit_Ok in E as [E _]. split; [by rewrite !dom_insert_L, Hd|].
  intros n v i. destruct (decide (n = name)) as [->|Hne].
  - rewrite !lookup_insert_eq. by intros [= <-] [= <-].
  - rewrite !lookup_insert_ne by done. apply Hp.
Qed.

(** The package an id names. *)
Definition idName (id : bytes) : bytes := before (str "=") id.

Lemma splitChecked_idName id name version : splitChecked id = Ok (name, version) -> idName id = name.
Proof.
  intros (-> & Hn & _)%splitChecked_Ok. unfold idName, before.
  assert (Cut (str "=") (name ++ str "=" ++ version) = Some (name, version)) as -> by by apply Cut_char_spec.
  done.
Qed.

(** *** What is filed under which key *)

(** Every id the plan files under a key is still the one filed there. *)
Definition filed (file : bytes -> option bytes) (ids : list bytes) (index : gmap bytes bytes) : Prop :=
  forall id k, id ∈ ids -> file id = Some k -> index !! k = Some id.

Lemma filed_skip file ids index id :
  filed file ids index -> file id = None -> filed file (ids ++ [id]) index.
Proof.
  intros Hf Hn i k [Hi| ->%list_elem_of_singleton]%elem_of_app Hk; [by apply Hf|congruence].
Qed.

(** [key] is the key an id has whether or not the plan takes it. *)
Lemma filed_take (file key : bytes -> option bytes) ids todo index id k :
  (forall i j, file i = Some j -> key i = Some j) ->
  NoDup (omap key (ids ++ id :: todo)) ->
  filed file ids index -> file id = Some k ->
  filed file (ids ++ [id]) (<[k := id]> index).
Proof.
  intros Hkey Hnd Hf Hk i j [Hi| ->%list_elem_of_singleton]%elem_of_app Hj.
  - rewrite lookup_insert_ne; [by apply Hf|]. intros ->.
    rewrite omap_app in Hnd. apply NoDup_app in Hnd as (_ & Hd & _). apply (Hd j).
    + apply list_elem_of_omap. exists i. auto.
    + apply list_elem_of_omap. exists id. split; [set_solver|auto].
  - replace j with k by congruence. apply lookup_insert_eq.
Qed.

Definition aptFile (offered : gset bytes) (id : bytes) : option bytes :=
  match aptAdmit offered id with Ok (name, _) => Some name | Err _ => None end.
Definition dnfFile (offered : gset bytes) (id : bytes) : option bytes :=
  match dnfAdmit offered id with Ok spec => Some spec | Err _ => None end.
Definition pacmanFile (offeredNames : gset bytes) (id : bytes) : option bytes :=
  match pacmanAdmit offeredNames id with Ok name => Some name | Err _ => None end.

(** The keys themselves. *)
Definition nameKey (id : bytes) : option bytes := Some (idName id).
Definition specKey (id : bytes) : option bytes :=
  match dnfInstallSpec id with Ok spec => Some spec | Err _ => None end.

Lemma aptFile_key offered id k : aptFile offered id = Some k -> nameKey id = Some k.
Proof.
  unfold aptFile. destruct (aptAdmit offered id) as [[n v]|] eqn:E; [|done]. intros [= <-].
  apply aptAdmit_Ok in E as [E _]. unfold nameKey. by rewrite (splitChecked_idName _ _ _ E).
Qed.

Lemma aptInstallPlan_filed ids offered r :
  NoDup (omap nameKey ids) -> filed (aptFile offered) ids (ap_idByName (aptInstallPlan ids offered r)).
Proof.
  intros Hnd. unfold aptInstallPlan.
  apply (fold_left_inv (fun done p => filed (aptFile offered) done (ap_idByName p))); [intros ? ? []%not_elem_of_nil|].
  intros done id todo p Hl Hp. unfold aptPlanStep. pose proof (aptFile_key offered) as Hk.
  destruct (aptAdmit offered id) as [[name version]|e] eqn:E; cbn.
  - eapply filed_take; [exact Hk|by rewrite <- Hl|done|by unfold aptFile; rewrite E].
  - apply filed_skip; [done|]. unfold aptFile. by rewrite E.
Qed.

(** *** dnf *)

Lemma dnfAdmit_Ok offered id spec :
  dnfAdmit offered id = Ok spec ->
  id ∈ offered /\ dnfInstallSpec id = Ok spec /\
  exists pkg evr, Cut (str "=") id = Some (pkg, evr) /\
    checkPkgName (splitNameArch pkg).1 true = None /\ checkPkgVersion evr = None.
Proof.
  unfold dnfAdmit. destruct (Cut (str "=") id) as [[pkg evr]|] eqn:Ec; [|done].
  destruct (_ || _); [done|]. destruct (checkPkgName _ true) eqn:En; [done|].
  destruct (checkPkgVersion evr) eqn:Ev; [done|]. case_bool_decide; [|done]. eauto 10.
Qed.

Definition dnfTaken (offered : gset bytes) (id spec : bytes) : Prop := dnfAdmit offered id = Ok spec.

Lemma dnfInstallPlan_planned ids offered r :
  let p := dnfInstallPlan ids offered r in
  planned ids (dnfTaken offered) r (dp_res p) (dp_specs p) (dp_idBySpec p).
Proof.
  cbn zeta. unfold dnfInstallPlan.
  apply (fold_left_inv (fun done p => planned done (dnfTaken offered) r (dp_res p) (dp_specs p) (dp_idBySpec p)));
    [apply planned_nil|]. intros done id todo p _ Hp. unfold dnfPlanStep.
  destruct (dnfAdmit offered id) as [spec|e] eqn:E; cbn; [|by apply planned_refuse].
  by apply planned_take.
Qed.

Lemma dnfFile_key offered id k : dnfFile offered id = Some k -> specKey id = Some k.
Proof.
  unfold dnfFile. destruct (dnfAdmit offered id) as [s|] eqn:E; [|done]. intros [= <-].
  apply dnfAdmit_Ok in E as (_ & E & _). unfold specKey. by rewrite E.
Qed.

Lemma dnfInstallPlan_filed ids offered r :
  NoDup (omap specKey ids) -> filed (dnfFile offered) ids (dp_idBySpec (dnfInstallPlan ids offered r)).
Proof.
  intros Hnd. unfold dnfInstallPlan.
  apply (fold_left_inv (fun done p => filed (dnfFile offered) done (dp_idBySpec p))); [intros ? ? []%not_elem_of_nil|].
  intros done id todo p Hl Hp. unfold dnfPlanStep. pose proof (dnfFile_key offered) as Hk.
  destruct (dnfAdmit offered id) as [spec|e] eqn:E; cbn.
  - eapply filed_take; [exact Hk|by rewrite <- Hl|done|by unfold dnfFile; rewrite E].
  - apply filed_skip; [done|]. unfold dnfFile. by rewrite E.
Qed.

(** The id filed under a spec has that spec. *)
Lemma dnfInstallPlan_index ids offered r spec id :
  dp_idBySpec (dnfInstallPlan ids offered r) !! spec = Some id -> dnfInstallSpec id = Ok spec.
Proof.
  revert spec id. unfold dnfInstallPlan.
  apply (fold_left_inv (fun _ p => forall spec id, dp_idBySpec p !! spec = Some id -> dnfInstallSpec id = Ok spec)).
  { intros ? ?. cbn. by rewrite lookup_empty. }
  intros done x todo p _ Hp spec id. unfold dnfPlanStep.
  destruct (dnfAdmit offered x) as [s|e] eqn:E; cbn; [|apply Hp].
  destruct (decide (s = spec)) as [->|Hne].
  - rewrite lookup_insert_eq. intros [= <-]. by apply dnfAdmit_Ok in E as (_ & E & _).
  - rewrite lookup_insert_ne by done. apply Hp.
Qed.

(** *** pacman *)

Lemma pacmanAdmit_Ok offered id name :
  pacmanAdmit offered id = Ok name ->
  name ∈ offered /\ exists version, splitChecked id = Ok (name, version).
Proof.
  unfold pacmanAdmit. destruct (splitChecked id) as [[n v]|] eqn:E; [|done].
  case_bool_decide; [|done]. intros [= <-]. eauto.
Qed.

Lemma pacmanFile_key offered id k : pacmanFile offered id = Some k -> nameKey id = Some k.
Proof.
  unfold pacmanFile. destruct (pacmanAdmit offered id) as [n|] eqn:E; [|done]. intros [= <-].
  apply pacmanAdmit_Ok in E as [_ [v E]]. unfold nameKey. by rewrite (splitChecked_idName _ _ _ E).
Qed.

Definition pacmanTaken (offeredNames : gset bytes) (id name : bytes) : Prop :=
  pacmanAdmit offeredNames id = Ok name.

Lemma pacmanInstallPlan_index ids offered r :
  let p := pacmanInstallPlan ids offered r in
  forall k id, pp_idByName p !! k = Some id -> pacmanTaken offered id k.
Proof.
  cbn zeta. unfold pacmanInstallPlan.
  apply (fold_left_inv (fun _ p => forall k id, pp_idByName p !! k = Some id -> pacmanTaken offered id k)).
  { intros ? ?. cbn. by rewrite lookup_empty. }
  intros done x todo p _ Hp k id. unfold pacmanPlanStep.
  destruct (pacmanAdmit offered x) as [name|e] eqn:E; cbn; [|apply Hp].
  destruct (pp_idByName p !! name) eqn:El; [apply Hp|]. cbn.
  destruct (decide (name = k)) as [->|Hne]; [rewrite lookup_insert_eq; by intros [= <-]|].
  rewrite lookup_insert_ne by done. apply Hp.
Qed.

Lemma pacmanInstallPlan_planned ids offered r :
  let p := pacmanInstallPlan ids offered r in
  planned ids (pacmanTaken offered) r (pp_res p) (pp_names p) (pp_idByName p).
Proof.
  cbn zeta. unfold pacmanInstallPlan.
  apply (fold_left_inv (fun done p =>
    planned done (pacmanTaken offered) r (pp_res p) (pp_names p) (pp_idByName p) /\
    forall k, is_Some (pp_idByName p !! k) -> k ∈ pp_names p)).
  { split; [apply planned_nil|]. intros k. cbn. rewrite lookup_empty. by intros []. }
  intros done id todo p _ [Hp Hk]. unfold pacmanPlanStep.
  destruct (pacmanAdmit offered id) as [name|e] eqn:E; cbn; [|split; [by apply planned_refuse|done]].
  destruct (pp_idByName p !! name) eqn:El; cbn.
  - split; [|done]. eapply planned_again; [done|apply Hk; by rewrite El|done].
  - split; [by apply planned_take|]. intros k. destruct (decide (name = k)) as [->|Hne]; [set_solver|].
    rewrite lookup_insert_ne by done. intros ?%Hk. set_solver.
Qed.

Lemma pacmanInstallPlan_filed ids offered r :
  NoDup (omap nameKey ids) -> filed (pacmanFile offered) ids (pp_idByName (pacmanInstallPlan ids offered r)).
Proof.
  intros Hnd. unfold pacmanInstallPlan.
  apply (fold_left_inv (fun done p => filed (pacmanFile offered) done (pp_idByName p) /\
    forall k i, pp_idByName p !! k = Some i -> i ∈ done /\ nameKey i = Some k)).
  { split; [intros ? ? []%not_elem_of_nil|]. intros k i. cbn. by rewrite lookup_empty. }
  intros done id todo p Hl [Hp Hi]. unfold pacmanPlanStep. pose proof (pacmanFile_key offered) as Hk.
  destruct (pacmanAdmit offered id) as [name|e] eqn:E; cbn.
  2: { split; [apply filed_skip; [done|unfold pacmanFile; by rewrite E]|].
       intros k i (? & ?)%Hi. set_solver. }
  assert (Hf : pacmanFile offered id = Some name) by (unfold pacmanFile; by rewrite E).
  destruct (pp_idByName p !! name) as [i|] eqn:El; cbn.
  - exfalso. apply Hi in El as [Hd Hn]. rewrite Hl, omap_app in Hnd.
    apply NoDup_app in Hnd as (_ & Hd' & _). apply (Hd' name).
    + apply list_elem_of_omap. exists i. auto.
    + apply list_elem_of_omap. exists id. split; [set_solver|by apply Hk].
  - split; [eapply filed_take; [exact Hk|by rewrite <- Hl|done..]|].
    intros k i. destruct (decide (name = k)) as [->|Hne].
    + rewrite lookup_insert_eq. intros [= <-]. split; [set_solver|by apply Hk].
    + rewrite lookup_insert_ne by done. intros (? & ?)%Hi. set_solver.
Qed.

(** ** refuseSelfPackages, dedupeIDs *)

Lemma refuseSelf_spec ids out r :
  let '(out', r') := fold_left refuseSelf ids (out, r) in
  out' = out ++ List.filter (fun id => negb (isSelfPackage id)) ids /\
  extends r r' /\ Installed r' = Installed r /\ RebootRequired r' = RebootRequired r /\
  forall id, id ∈ ids -> isSelfPackage id = true -> is_Some (Failed r' !! id).
Proof.
  revert out r. induction ids as [|id ids IH]; intros out r; cbn [fold_left List.filter].
  { rewrite app_nil_r. split_and!; [done..|]. by intros ? ?%not_elem_of_nil. }
  unfold refuseSelf at 2. destruct (isSelfPackage id) eqn:E; cbn [negb].
  - specialize (IH out (fail id (Errorf "self" ErrSelfPackage) r)).
    destruct (fold_left refuseSelf ids _) as [out' r']. destruct IH as (-> & He & Hi & Hr & Hf).
    rewrite fail_installed in Hi. rewrite fail_reboot in Hr.
    pose proof (fail_extends id (Errorf "self" ErrSelfPackage) r).
    split_and!; [done|by etrans|done|done|]. intros i [->|Hin]%elem_of_cons Hs; [|by apply Hf].
    destruct (fail_records id (Errorf "self" ErrSelfPackage) r) as [e He']. exists e. by apply He.
  - specialize (IH (out ++ [id]) r).
    destruct (fold_left refuseSelf ids _) as [out' r']. destruct IH as (-> & He & Hi & Hr & Hf).
    split_and!; [by rewrite <- app_assoc|done..|].
    intros i [->|Hin]%elem_of_cons Hs; [congruence|by apply Hf].
Qed.

(** [dedupeIDs] keeps the first occurrence of every id that is not empty. *)
Lemma dedupeIDs_spec ids :
  NoDup (dedupeIDs ids) /\ (forall id, id ∈ dedupeIDs ids <-> id ∈ ids /\ id ≠ []) /\
  dedupeIDs ids `sublist_of` ids.
Proof.
  unfold dedupeIDs.
  apply (fold_left_inv (fun done acc =>
    (forall id, id ∈ acc.2 <-> id ∈ acc.1) /\
    (NoDup acc.1 /\ (forall id, id ∈ acc.1 <-> id ∈ done /\ id ≠ []) /\ acc.1 `sublist_of` done)));
    [cbn; split; [set_solver|split_and!; [constructor|set_solver|constructor]]|].
  intros done x todo [out seen] _ (Hs & Hn & He & Hsub). cbn in *. unfold dedupeStep.
  destruct (bool_decide (x = []) || bool_decide (x ∈ seen)) eqn:B; cbn.
  - split; [done|]. split_and!; [done| |by apply sublist_inserts_r].
    intros id. rewrite He, elem_of_app, list_elem_of_singleton.
    apply orb_true_iff in B as [B|B]; apply bool_decide_eq_true in B; [naive_solver|].
    rewrite Hs, He in B. naive_solver.
  - bool_cases. split; [intros id; rewrite elem_of_union, elem_of_singleton, elem_of_app, Hs, list_elem_of_singleton; tauto|].
    split_and!.
    + apply NoDup_app. split_and!; [done| |apply NoDup_singleton]. intros y Hy ->%list_elem_of_singleton.
      apply Hs in Hy. done.
    + intros id. rewrite !elem_of_app, He, list_elem_of_singleton. naive_solver.
    + by apply sublist_app.
Qed.

(** ** Arguments that are safe *)

Lemma specChars_app a b :
  Forall (fun c => specChar c = true) (a ++ b) <->
  Forall (fun c => specChar c = true) a /\ Forall (fun c => specChar c = true) b.
Proof. apply Forall_app. Qed.

Lemma splitChecked_safe id name version :
  splitChecked id = Ok (name, version) -> safeArg id /\ safeArg name.
Proof.
  intros (-> & _ & Hn & Hv)%splitChecked_Ok. apply checkPkgName_safe in Hn.
  split; [|done]. apply safeArg_app; [done|]. apply specChars_app. split; [by repeat constructor|].
  by apply checkPkgVersion_safe.
Qed.

Lemma aptTaken_safe offered id spec : aptTaken offered id spec -> safeArg spec.
Proof. intros (-> & _ & name & version & H). by apply splitChecked_safe in H as [? _]. Qed.

Lemma pacmanTaken_safe offered id name : pacmanTaken offered id name -> safeArg name.
Proof. intros [_ [v H]]%pacmanAdmit_Ok. by apply splitChecked_safe in H as [_ ?]. Qed.

Lemma dnfArches_safe arch : arch ∈ dnfArches -> Forall (fun c => specChar c = true) arch.
Proof.
  intros Ha. cut (Forall (fun a => Forall (fun c => specChar c = true) a) dnfArches).
  { rewrite Forall_forall. auto. }
  unfold dnfArches. cbn. by repeat constructor.
Qed.

Lemma splitNameArch_arch token :
  (splitNameArch token).2 = [] \/ (splitNameArch token).2 ∈ dnfArches.
Proof.
  unfold splitNameArch. destruct (LastCut (str ".") token) as [[n c]|]; [|by left].
  case_bool_decide; cbn; auto.
Qed.

Lemma dnfTaken_safe offered id spec : dnfTaken offered id spec -> safeArg spec.
Proof.
  intros (_ & Hs & pkg & evr & Hc & Hn & Hv)%dnfAdmit_Ok. unfold dnfInstallSpec in Hs.
  rewrite Hc in Hs. destruct (_ || _); [done|]. pose proof (splitNameArch_arch pkg) as Ha.
  destruct (splitNameArch pkg) as [name arch]. cbn [fst snd] in *. injection Hs as <-.
  unfold nvra; cbn. apply checkPkgName_safe in Hn. apply checkPkgVersion_safe in Hv.
  case_bool_decide; (apply safeArg_app; [done|]).
  - constructor; [done|done].
  - destruct Ha as [?|Ha]; [done|]. apply dnfArches_safe in Ha.
    constructor; [done|]. apply specChars_app. split; [done|]. by constructor.
Qed.

(** ** An offer that cannot be taken *)

Lemma checkPkgName_colon name up : ":"%char ∈ name -> exists e, checkPkgName name up = Some e /\ Is e ErrBadUpdateID = true.
Proof.
  intros Hc. destruct (checkPkgName name up) as [e|] eqn:E.
  - exists e. split; [done|]. revert E. unfold checkPkgName. repeat case_match; try done; by intros [= <-].
  - exfalso. apply checkPkgName_None in E as (c & rest & -> & Ha & Hf).
    apply elem_of_cons in Hc as [<-|Hc]; [by destruct up|].
    rewrite forallb_forall in Hf. apply list_elem_of_In in Hc. apply Hf in Hc. by destruct up.
Qed.

(** Updates of foreign-architecture packages are offered and always
    refused.  apt prints them as name:arch, the scan publishes them under that
    name, and [checkPkgName] has no colon in its alphabet: whatever the host
    offers, the plan refuses such an id as unusable. *)
Theorem multiarch_updates_are_refused (i : aptInst) (offered : gset bytes) :
  ":"%char ∈ ai_Name i -> "="%char ∉ ai_Name i ->
  exists e, aptAdmit offered (u_ID (aptUpdate i)) = Err e /\ Is e ErrBadUpdateID = true.
Proof.
  intros Hc He. unfold aptAdmit, splitChecked, splitPkgVersionID. cbn [u_ID aptUpdate].
  rewrite (proj2 (Cut_char_spec "="%char _ (ai_Name i) (ai_NewVersion i))) by done.
  destruct (_ || _); [by eexists|]. destruct (checkPkgName_colon _ false Hc) as (e & -> & ?). eauto.
Qed.

Lemma multiarch_updates_are_refused_witness :
  exists i, parseAptInstLine (str "Inst libc6:i386 [2.35-0ubuntu3.1] (2.35-0ubuntu3.8 Ubuntu:22.04/jammy-security [i386])") = Some i /\
  exists e, aptAdmit {[u_ID (aptUpdate i)]} (u_ID (aptUpdate i)) = Err e /\ Is e ErrBadUpdateID = true.
Proof.
  eexists. split; [vm_compute; reflexivity|].
  apply multiarch_updates_are_refused; apply (bool_decide_unpack _); reflexivity.
Defined.
