(* ===== verification/PatchRun.v ===== *)
(** * PatchRun: driving the package managers

    apt_linux.go, dnf_linux.go, pacman_linux.go, softwareupdate_darwin.go and
    the part of exec.go that runs commands.  The host is a parameter: what a
    command prints and how it ends, how long it takes, whether a wait is cut
    short, which binaries and files exist.  Each may depend on everything that
    happened before, so a theorem over all hosts is a theorem over all
    behaviours of the package managers and the network. *)
From S2P Require Import Prelude GoLib GoText GoOS Env Patch PatchParse PatchPlan.

(** ** The host *)

Inductive event : Type :=
  | Ran (argv : list bytes) (env : list bytes)
  | Slept (d : Z)
  | Ticked (p : InstallProgress).

(** How a command ends: its pipe or its start fails; it exits, with the
    context's error at that moment; or the context ends first, in which case
    the wait returns [w] after the kill. *)
Inductive reply : Type :=
  | NoPipe (e : error)
  | NoStart (e : error)
  | Exited (lines : list bytes) (stderr : bytes) (w : waitErr) (ctxErr : option error)
  | Expired (lines : list bytes) (stderr : bytes) (w : waitErr) (ctxErr : error).

Class Host := {
  h_reply : list event -> list bytes -> reply;
  h_took : list event -> N;                           (** nanoseconds, at least 0 *)
  h_wake : list event -> Z -> option error;           (** the context's error, if it ends first *)
  h_look : list event -> bytes -> option bytes;       (** [exec.LookPath] *)
  h_stat : list event -> bytes -> option error;       (** [os.Stat] *)
  h_uname : list event -> res error bytes;
  h_euid : Z;
  h_environ : list bytes;
  h_arm64 : bool;                                     (** [runtime.GOARCH] *)
  (** the order in which a [range] visits a map *)
  h_range : list event -> list (bytes * bytes) -> list (bytes * bytes);
  h_range_perm : forall h l, h_range h l ≡ₚ l;
}.

(** The state of one manager and of the time. *)
Record mstate := MState {
  ms_now : Z;
  ms_log : list event;
  ms_gate : bool;
  ms_rebootPending : bool;
}.

Definition M (A : Type) : Type := mstate -> A * mstate.
Definition mret {A} (a : A) : M A := fun s => (a, s).
Definition mbind {A B} (m : M A) (k : A -> M B) : M B := fun s => let '(a, s') := m s in k a s'.

Notation "'do*' x := m 'in' k" := (mbind m (fun x => k))
  (at level 10, x binder, m at level 100, k at level 200) : everwas_scope.

Definition gets {A} (f : mstate -> A) : M A := fun s => (f s, s).

Definition modify (f : mstate -> mstate) : M unit := fun s => (tt, f s).

Definition logged (es : list event) (s : mstate) : mstate :=
  MState (ms_now s) (ms_log s ++ es) (ms_gate s) (ms_rebootPending s).
Definition passed (d : Z) (s : mstate) : mstate :=
  MState (ms_now s + d) (ms_log s) (ms_gate s) (ms_rebootPending s).
Definition with_gate (g : bool) (s : mstate) : mstate :=
  MState (ms_now s) (ms_log s) g (ms_rebootPending s).
Definition with_pending (b : bool) (s : mstate) : mstate :=
  MState (ms_now s) (ms_log s) (ms_gate s) b.

(** The part of a context the backends look at. *)
Record context := { ctx_deadline : option Z }.

(** ** env.go *)

Definition patchEnvAllowlist : list bytes :=
  map str ["PATH"; "HOME"; "USER"; "LOGNAME"; "LANG"; "LC_ALL"; "TZ"; "TMPDIR";
           "http_proxy"; "https_proxy"; "ftp_proxy"; "no_proxy";
           "HTTP_PROXY"; "HTTPS_PROXY"; "FTP_PROXY"; "NO_PROXY";
           "TEMP"; "TMP"; "SystemRoot"; "SystemDrive"; "ComSpec"; "PATHEXT";
           "windir"; "USERPROFILE"; "USERNAME"; "PROGRAMFILES"; "PROGRAMDATA";
           "APPDATA"; "LOCALAPPDATA"; "NUMBER_OF_PROCESSORS"; "PROCESSOR_ARCHITECTURE"]%string.

Definition patchEnvAllowSet (name : bytes) : bool := bool_decide (name ∈ map ToLower patchEnvAllowlist).

Definition patchScrubEnv : list bytes -> gmap bytes bytes -> list bytes := scrubWith patchEnvAllowSet.

Definition noninteractiveEnv (extra : gmap bytes bytes) : gmap bytes bytes :=
  extra ∪ list_to_map
    [(str "DEBIAN_FRONTEND", str "noninteractive"); (str "LC_ALL", str "C"); (str "LANG", str "C");
     (str "PAGER", str "cat"); (str "TERM", str "dumb")].

(** ** exec.go, scope_linux.go *)

Section run.
Context {H : Host}.

Definition systemdMarker : bytes := str "/run/systemd/system".

Definition scopeCommand (h : list event) (name : bytes) (args : list bytes) : bytes * list bytes :=
  if negb (h_euid =? 0) then (name, args)
  else
    match h_stat h systemdMarker with
    | Some _ => (name, args)
    | None =>
        match h_look h (str "systemd-run") with
        | None => (name, args)
        | Some path =>
            (path, map str ["--scope"; "--quiet"; "--collect";
                            "--description=Everwas patch transaction"; "--"]%string ++ name :: args)
        end
    end.

(** A command's options; the environment is never extended by a backend. *)
Record execOptions := { opt_Scope : bool; opt_LetFinish : bool }.

Definition plainRun : execOptions := {| opt_Scope := false; opt_LetFinish := false |}.
Definition transaction : execOptions := {| opt_Scope := true; opt_LetFinish := true |}.

Definition leftRunning (name : bytes) : bytes :=
  str "everwas-agent: deadline reached, " ++ name ++
  str " was left running so the transaction is not interrupted" ++ [nl].

Definition failedRun (e : error) : cmdResult :=
  {| cr_Stdout := []; cr_Stderr := []; cr_ExitCode := -1; cr_Err := Some e |}.

Definition outcomeOf (opts : execOptions) (name : bytes) (r : reply) : cmdResult :=
  match r with
  | NoPipe e | NoStart e => failedRun e
  | Exited lines err w ctxErr => finish ctxErr (unlines lines) err w
  | Expired lines err w ctxErr =>
      if opt_LetFinish opts
      then {| cr_Stdout := unlines lines; cr_Stderr := err ++ leftRunning name; cr_ExitCode := -1;
              cr_Err := Some ctxErr |}
      else finish (Some ctxErr) (unlines lines) err w
  end.

Definition linesOfReply (r : reply) : list bytes :=
  match r with Exited lines _ _ _ | Expired lines _ _ _ => lines | _ => [] end.

(** The ticks [OnLine] emits for the lines of a command, [seen] counting up
    from 0; a line is classified by [step], given the count so far. *)
Fixpoint ticksOf (step : Z -> bytes -> Z * option InstallProgress) (seen : Z) (lines : list bytes) :
    list InstallProgress :=
  match lines with
  | [] => []
  | l :: lines' =>
      let '(seen', p) := step seen l in
      match p with Some p => [p] | None => [] end ++ ticksOf step seen' lines'
  end.

Definition noLine (seen : Z) (_ : bytes) : Z * option InstallProgress := (seen, None).

Definition runCmd (opts : execOptions) (onLine : Z -> bytes -> Z * option InstallProgress)
    (name : bytes) (args : list bytes) : M cmdResult := fun s =>
  let h := ms_log s in
  let '(runName, runArgs) := if opt_Scope opts then scopeCommand h name args else (name, args) in
  let argv := runName :: runArgs in
  let r := h_reply h argv in
  (outcomeOf opts name r,
   passed (Z.of_N (h_took h))
     (logged (Ran argv (patchScrubEnv h_environ (noninteractiveEnv ∅)) ::
              map Ticked (ticksOf onLine 0 (linesOfReply r))) s)).

Definition have (binary : bytes) : M bool :=
  gets (fun s => match h_look (ms_log s) binary with Some _ => true | None => false end).

Definition fileExists (path : bytes) : M bool :=
  gets (fun s => match h_stat (ms_log s) path with None => true | Some _ => false end).

(** [sleepCtx]: a completed wait lasts at least [d]. *)
Definition sleepCtx (d : Z) : M (option error) := fun s =>
  let h := ms_log s in
  match h_wake h d with
  | Some e => (Some e, passed (Z.of_N (h_took h)) s)
  | None => (None, passed (d + Z.of_N (h_took h)) (logged [Slept d] s))
  end.

(** [for k, v := range m] *)
Definition rangeOf (m : gmap bytes bytes) : M (list (bytes * bytes)) :=
  gets (fun s => h_range (ms_log s) (map_to_list m)).

(** [emitProgress(progress, p)] *)
Definition emitProgress (progress : bool) (p : InstallProgress) : M unit :=
  if progress then modify (logged [Ticked p]) else mret tt.
Definition tick (progress : bool) (p : InstallProgress) : option InstallProgress :=
  if progress then Some p else None.

(** ** The preamble of every Install

    The four backends open with the same statements; [body] is what follows
    [defer m.gate.release()]. *)
Definition guardedInstall (ctx : context) (ids : list bytes)
    (body : list bytes -> InstallResult -> M (InstallResult * option error)) :
    M (InstallResult * option error) :=
  let ids := dedupeIDs ids in
  let r := newInstallResult in
  if bool_decide (ids = []) then mret (r, None)
  else
    do* now := gets ms_now in
    match prepareInstall (ctx_deadline ctx) now ids r with
    | ((_, r), Some e) => mret (r, Some e)
    | ((ids, r), None) =>
        if bool_decide (ids = []) then mret (r, None)
        else
          do* held := gets ms_gate in
          let '(free, gate) := acquire held in
          do* _ := modify (with_gate gate) in
          if negb free then mret (r, Some ErrBusy)
          else
            do* out := body ids r in
            do* _ := modify (fun s => with_gate (release (ms_gate s)) s) in
            mret out
    end.

(** ** apt_linux.go *)

Definition aptUpdateAttempts : nat := 3.
Definition aptLockBudget : Z := 10 * Minute.
Definition rebootRequiredFlag : bytes := str "/var/run/reboot-required".

Definition aptGet : bytes := str "apt-get".

(** The loop of [refresh]: [left] attempts remain. *)
Fixpoint refreshLoop (attempts : nat) (backoff : Z) (last : option error) : M (option error) :=
  match attempts with
  | O => mret last
  | S attempts' =>
      do* res := runCmd plainRun noLine aptGet [str "update"] in
      if cmd_ok res then mret None
      else
        let last := match cr_Err res with
                    | Some e => e | None => Sentinel "apt-get update exited" end in
        if negb (aptIsTransientUpdateError (combined res)) then mret (Some last)
        else if bool_decide (attempts' = 0%nat) then mret (Some last)
        else
          do* woke := sleepCtx backoff in
          match woke with
          | Some e => mret (Some e)
          | None => refreshLoop attempts' (2 * backoff) (Some last)
          end
  end.

Definition apt_refresh : M (option error) := refreshLoop aptUpdateAttempts (3 * Second) None.

Definition apt_Scan : M (res error (list Update)) :=
  do* _ := apt_refresh in
  do* res := runCmd plainRun noLine aptGet (map str ["-s"; "-o"; "Debug::NoLocking=1"; "dist-upgrade"]%string) in
  mret (match cr_Err res with
        | Some e => Err (Errorf "apt-get dist-upgrade simulate" e)
        | None =>
            if negb (cr_ExitCode res =? 0) then Err (Sentinel "apt-get dist-upgrade simulate exited")
            else Ok (parseAptSimulate (cr_Stdout res))
        end).

(** [OnLine] of [runInstall]. *)
Definition aptOnLine (progress : bool) (total seen : Z) (line : bytes) : Z * option InstallProgress :=
  match aptProgressPhase line with
  | None => (seen, None)
  | Some phase =>
      let seen := if bool_decide (phase = PhaseInstall) then seen + 1 else seen in
      (seen, tick progress {| ip_UpdateID := []; ip_Phase := phase; ip_Pct := pctOf seen total |})
  end.

(** The [for] of [runInstall], which only its tests end; [None] when the fuel
    does. *)
Fixpoint runInstallLoop (fuel : nat) (progress : bool) (total deadline backoff : Z)
    (args : list bytes) : M (option (cmdResult * option error)) :=
  match fuel with
  | O => mret None
  | S fuel' =>
      do* res := runCmd transaction (aptOnLine progress total) aptGet args in
      if cmd_ok res then mret (Some (res, None))
      else
        match cr_Err res with
        | Some e => mret (Some (res, Some (Errorf "apt-get install" e)))
        | None =>
            if negb (aptIsLockContention (combined res))
            then mret (Some (res, Some (Sentinel "apt-get install exited")))
            else
              do* now := gets ms_now in
              if deadline <? now
              then mret (Some (res, Some (Sentinel "apt-get install: dpkg lock still held")))
              else
                do* woke := sleepCtx backoff in
                match woke with
                | Some e => mret (Some (res, Some e))
                | None =>
                    runInstallLoop fuel' progress total deadline
                      (if backoff <? Minute then 2 * backoff else backoff) args
                end
        end
  end.

Definition runInstallFuel : nat := 11.

Definition runInstall (progress : bool) (total : Z) (args : list bytes) : M (cmdResult * option error) :=
  do* now := gets ms_now in
  do* out := runInstallLoop runInstallFuel progress total (now + aptLockBudget) (10 * Second) args in
  mret (default (failedRun ErrBusy, Some ErrBusy) out).

Definition attributeApt (idByName installed : gmap bytes bytes) (runErr : option error)
    (r : InstallResult) (nv : bytes * bytes) : InstallResult :=
  let '(name, version) := nv in
  let id := default [] (idByName !! name) in
  match installed !! name with
  | Some got =>
      if bool_decide (got = version) then installedOne id r
      else fail id (Sentinel "installed version differs from the one wanted") r
  | None =>
      match runErr with
      | Some e => fail id (Errorf "dpkg does not have it" e) r
      | None => fail id (Sentinel "package not installed after apt-get install") r
      end
  end.

Definition attributeAptResult (want : list (bytes * bytes)) (idByName installed : gmap bytes bytes)
    (runErr : option error) (r : InstallResult) : InstallResult :=
  fold_left (attributeApt idByName installed runErr) want r.

Definition dpkgFormat : bytes := str "${Package}" ++ [chr 9] ++ str "${Version}" ++ [nl].

Definition apt_installedVersions (want : gmap bytes bytes) : M (gmap bytes bytes) :=
  do* kvs := rangeOf want in
  do* res := runCmd plainRun noLine (str "dpkg-query") ([str "-W"; str "-f"; dpkgFormat] ++ map fst kvs) in
  mret (parseDpkgVersions (cr_Stdout res)).

Definition aptInstallArgs : list bytes :=
  map str ["-y"; "-o"; "Dpkg::Options::=--force-confdef"; "-o"; "Dpkg::Options::=--force-confold";
           "install"; "--"]%string.

Definition apt_body (progress : bool) (ids : list bytes) (r : InstallResult) :
    M (InstallResult * option error) :=
  do* available := apt_Scan in
  match available with
  | Err e => mret (r, Some (Errorf "apt scan before install" e))
  | Ok available =>
      let p := aptInstallPlan ids (offeredIDs available) r in
      let r := ap_res p in
      if bool_decide (ap_specs p = []) then mret (r, None)
      else
        do* out := runInstall progress (Z.of_nat (length (ap_specs p))) (aptInstallArgs ++ ap_specs p) in
        let '(_, runErr) := out in
        do* installed := apt_installedVersions (ap_want p) in
        do* want := rangeOf (ap_want p) in
        let r := attributeAptResult want (ap_idByName p) installed runErr r in
        do* reboot := fileExists rebootRequiredFlag in
        let r := setReboot reboot r in
        mret (r, match runErr with
                 | Some e => if bool_decide (Installed r = []) then Some e else None
                 | None => None
                 end)
  end.

Definition apt_Install (ctx : context) (ids : list bytes) (progress : bool) :
    M (InstallResult * option error) := guardedInstall ctx ids (apt_body progress).

Definition apt_RebootRequired : M (res error bool) :=
  do* b := fileExists rebootRequiredFlag in mret (Ok b).

(** ** dnf_linux.go *)

Section dnf.
Context (bin : bytes).

Definition dnf_command : bytes := if bool_decide (bin = []) then str "dnf" else bin.

Definition dnf_advisories : M (gmap bytes dnfAdvisory) :=
  do* res := runCmd plainRun noLine dnf_command (map str ["-q"; "updateinfo"; "list"; "--with-cve"]%string) in
  mret (match cr_Err res with
        | Some _ => ∅
        | None =>
            if negb (cr_ExitCode res =? 0) && negb (cr_ExitCode res =? dnfExitUpdates) then ∅
            else parseDNFUpdateinfo (cr_Stdout res)
        end).

Definition dnf_Scan : M (res error (list Update)) :=
  do* res := runCmd plainRun noLine dnf_command (map str ["-q"; "check-update"]%string) in
  match cr_Err res with
  | Some e => mret (Err (Errorf "dnf check-update" e))
  | None =>
      if cr_ExitCode res =? dnfExitNoUpdates then mret (Ok [])
      else if cr_ExitCode res =? dnfExitUpdates then
        let entries := parseDNFCheckUpdate (cr_Stdout res) in
        do* adv := dnf_advisories in
        mret (Ok (dnfUpdates entries adv))
      else if cr_ExitCode res =? dnfExitError then mret (Err (Sentinel "dnf check-update failed"))
      else mret (Err (Sentinel "dnf check-update exited"))
  end.

Definition dnf_RebootRequired : M (res error bool) :=
  do* res := runCmd plainRun noLine dnf_command (map str ["needs-restarting"; "-r"]%string) in
  if bool_decide (cr_Err res = None) && negb (dnfPluginMissing (combined res))
  then mret (Ok (cr_ExitCode res =? 1))
  else
    do* there := have (str "needs-restarting") in
    if (there : bool) then
      do* res := runCmd plainRun noLine (str "needs-restarting") [str "-r"] in
      mret (match cr_Err res with
            | None => Ok (cr_ExitCode res =? 1)
            | Some _ => Err (Sentinel "needs-restarting unavailable")
            end)
    else mret (Err (Sentinel "needs-restarting unavailable")).

Definition dnfProgressPhase (line : bytes) : option bytes :=
  let trimmed := TrimSpace line in
  if HasPrefix trimmed (str "Downloading Packages") || HasPrefix trimmed (str "Downloading")
  then Some PhaseDownload
  else if existsb (HasPrefix trimmed)
            (map str ["Installing "; "Upgrading "; "Verifying  "; "Running scriptlet"]%string)
  then Some PhaseInstall
  else None.

Definition dnfOnLine (progress : bool) (total seen : Z) (line : bytes) : Z * option InstallProgress :=
  match dnfProgressPhase line with
  | None => (seen, None)
  | Some phase =>
      let seen := if bool_decide (phase = PhaseInstall) then seen + 1 else seen in
      (seen, tick progress {| ip_UpdateID := []; ip_Phase := phase; ip_Pct := pctOf seen total |})
  end.

Definition rpmFormat : bytes := str "%{NAME}-%{EVR}.%{ARCH}" ++ [nl].

(** The set of specs that [present] holds true. *)
Definition installedSpecs (specs : list bytes) : M (gset bytes) :=
  do* there := have (str "rpm") in
  if negb there then mret (list_to_set specs)
  else
    do* res := runCmd plainRun noLine (str "rpm") ([str "-q"; str "--qf"; rpmFormat] ++ specs) in
    let found : gset bytes := list_to_set (map TrimSpace (Lines (cr_Stdout res))) in
    mret (list_to_set
            (List.filter (fun spec => bool_decide (spec ∈ found) ||
                                      bool_decide (stripZeroEpoch spec ∈ found)) specs)).

Definition attributeDNF (installed : gset bytes) (exit : Z) (r : InstallResult) (si : bytes * bytes) :
    InstallResult :=
  let '(spec, id) := si in
  if bool_decide (spec ∈ installed) then installedOne id r
  else if exit =? 0
  then fail id (Sentinel "dnf reported success but the package is not installed") r
  else fail id (Sentinel "dnf install exited") r.

Definition dnfInstallArgs : list bytes := map str ["-y"; "install"; "--"]%string.

Definition dnf_body (progress : bool) (ids : list bytes) (r : InstallResult) :
    M (InstallResult * option error) :=
  do* available := dnf_Scan in
  match available with
  | Err e => mret (r, Some (Errorf "dnf scan before install" e))
  | Ok available =>
      let p := dnfInstallPlan ids (offeredIDs available) r in
      let r := dp_res p in
      if bool_decide (dp_specs p = []) then mret (r, None)
      else
        do* cmdRes := runCmd transaction (dnfOnLine progress (Z.of_nat (length (dp_specs p)))) dnf_command
                        (dnfInstallArgs ++ dp_specs p) in
        do* reboot := dnf_RebootRequired in
        let r := setReboot (match reboot with Ok b => b | Err _ => false end) r in
        match cr_Err cmdRes with
        | Some e =>
            let err := Errorf "dnf install" e in
            do* kvs := rangeOf (dp_idBySpec p) in
            mret (failAll (map snd kvs) err r, Some err)
        | None =>
            do* installed := installedSpecs (dp_specs p) in
            do* kvs := rangeOf (dp_idBySpec p) in
            let r := fold_left (attributeDNF installed (cr_ExitCode cmdRes)) kvs r in
            mret (r, if negb (cr_ExitCode cmdRes =? 0) && bool_decide (Installed r = [])
                     then Some (Sentinel "dnf install exited") else None)
        end
  end.

Definition dnf_Install (ctx : context) (ids : list bytes) (progress : bool) :
    M (InstallResult * option error) := guardedInstall ctx ids (dnf_body progress).
End dnf.

(** ** pacman_linux.go *)

Definition pacman : bytes := str "pacman".

Definition pacman_Scan : M (res error (list Update)) :=
  do* res := runCmd plainRun noLine pacman [str "-Qu"] in
  mret (match cr_Err res with
        | Some e => Err (Errorf "pacman -Qu" e)
        | None =>
            if negb (cr_ExitCode res =? 0) && bool_decide (TrimSpace (cr_Stdout res) = []) then Ok []
            else Ok (parsePacmanQu (cr_Stdout res))
        end).

Definition pacman_installedVersions (names : list bytes) : M (gmap bytes bytes) :=
  do* res := runCmd plainRun noLine pacman ([str "-Q"] ++ names) in
  mret (parsePacmanQuery (cr_Stdout res)).

Definition pacman_RebootRequired : M (res error bool) :=
  do* uts := gets (fun s => h_uname (ms_log s)) in
  match uts with
  | Err e => mret (Err (Errorf "uname" e))
  | Ok release =>
      let release := TrimRight [chr 0] release in
      if bool_decide (release = []) then mret (Err (Sentinel "empty kernel release"))
      else
        gets (fun s =>
          match h_stat (ms_log s) (str "/usr/lib/modules/" ++ release) with
          | None => Ok false
          | Some e => if IsNotExist e then Ok true else Err e
          end)
  end.

Definition pacmanOnLine (progress : bool) (total seen : Z) (line : bytes) : Z * option InstallProgress :=
  let down := Contains line (str "downloading") in
  let phase := if down then PhaseDownload else PhaseInstall in
  let seen := if down then seen else seen + 1 in
  (seen, tick progress {| ip_UpdateID := []; ip_Phase := phase; ip_Pct := pctOf seen total |}).

Definition attributePacman (before after : gmap bytes bytes) (runErr : option error) (exit : Z)
    (r : InstallResult) (ni : bytes * bytes) : InstallResult :=
  let '(name, id) := ni in
  let changed := match after !! name with
                 | Some got => negb (bool_decide (got = default [] (before !! name))) | None => false end in
  let current := match after !! name, runErr with
                 | Some _, None => exit =? 0 | _, _ => false end in
  if changed || current then installedOne id r
  else match runErr with
       | Some e => fail id e r
       | None => fail id (Sentinel "pacman -S exited") r
       end.

Definition pacmanInstallArgs : list bytes := map str ["-S"; "--noconfirm"; "--needed"; "--"]%string.

Definition pacman_body (progress : bool) (ids : list bytes) (r : InstallResult) :
    M (InstallResult * option error) :=
  do* available := pacman_Scan in
  match available with
  | Err e => mret (r, Some (Errorf "pacman scan before install" e))
  | Ok available =>
      do* before := pacman_installedVersions [] in
      let p := pacmanInstallPlan ids (pacmanOfferedNames available) r in
      let r := pp_res p in
      if bool_decide (pp_names p = []) then mret (r, None)
      else
        do* cmdRes := runCmd transaction (pacmanOnLine progress (Z.of_nat (length (pp_names p)))) pacman
                        (pacmanInstallArgs ++ pp_names p) in
        let runErr := Errorf "pacman -S" <$> cr_Err cmdRes in
        do* after := pacman_installedVersions (pp_names p) in
        do* kvs := rangeOf (pp_idByName p) in
        let r := fold_left (attributePacman before after runErr (cr_ExitCode cmdRes)) kvs r in
        do* reboot := pacman_RebootRequired in
        let r := setReboot (match reboot with Ok b => b | Err _ => false end) r in
        mret (r, match runErr with
                 | Some e => if bool_decide (Installed r = []) then Some e else None
                 | None => None
                 end)
  end.

Definition pacman_Install (ctx : context) (ids : list bytes) (progress : bool) :
    M (InstallResult * option error) := guardedInstall ctx ids (pacman_body progress).

(** ** detect_linux.go *)

Inductive manager : Type := DNF (bin : bytes) | APT | Pacman.

Definition Detect : M (res error manager) :=
  do* dnf := have (str "dnf") in
  if (dnf : bool) then mret (Ok (DNF (str "dnf")))
  else
    do* dnf5 := have (str "dnf5") in
    if (dnf5 : bool) then mret (Ok (DNF (str "dnf5")))
    else
      do* apt := have aptGet in
      if (apt : bool) then mret (Ok APT)
      else
        do* pac := have pacman in
        if (pac : bool) then mret (Ok Pacman) else mret (Err ErrUnsupported).

Definition KindOf (m : manager) : bytes :=
  match m with DNF _ => BackendDNF | APT => BackendAPT | Pacman => BackendPacman end.

(** The interface [Manager]. *)
Definition Scan (m : manager) : M (res error (list Update)) :=
  match m with DNF bin => dnf_Scan bin | APT => apt_Scan | Pacman => pacman_Scan end.
Definition Install (m : manager) (ctx : context) (ids : list bytes) (progress : bool) :
    M (InstallResult * option error) :=
  match m with
  | DNF bin => dnf_Install bin ctx ids progress
  | APT => apt_Install ctx ids progress
  | Pacman => pacman_Install ctx ids progress
  end.
Definition RebootRequiredOf (m : manager) : M (res error bool) :=
  match m with
  | DNF bin => dnf_RebootRequired bin
  | APT => apt_RebootRequired
  | Pacman => pacman_RebootRequired
  end.

End run.
