(* ===== verification/PatchInstall.v ===== *)
(** * PatchInstall: what an install may run and what it must report

    The theorems about the backends of [PatchRun], over every host. *)
From S2P Require Import Prelude GoLib GoText GoOS Env Patch PatchParse PatchPlan PatchRun.

(** ** A program logic for the host monad

    [runs ok m Q s]: [m], started in [s], only adds events that satisfy [ok],
    leaves the gate as it was, and ends with [Q]. *)
Section logic.
Context {A B : Type}.
Implicit Types ok : event -> Prop.

Definition runs ok (m : M A) (Q : A -> mstate -> Prop) (s : mstate) : Prop :=
  exists new, ms_log (m s).2 = ms_log s ++ new /\ Forall ok new /\ ms_gate (m s).2 = ms_gate s /\
    Q (m s).1 (m s).2.
End logic.

Section rules.
Context {A B : Type}.
Implicit Types ok : event -> Prop.

Lemma runs_bind ok (m : M A) (k : A -> M B) Q s :
  runs ok m (fun a s' => runs ok (k a) Q s') s -> runs ok (do* x := m in k x) Q s.
Proof.
  intros (n1 & L1 & F1 & G1 & n2 & L2 & F2 & G2 & HQ). unfold runs, mbind.
  destruct (m s) as [a s1]. cbn in *. exists (n1 ++ n2). rewrite L2, L1, <- app_assoc.
  split_and!; [done|by apply Forall_app|congruence|done].
Qed.

Lemma runs_ret ok (a : A) (Q : A -> mstate -> Prop) s : Q a s -> runs ok (mret a) Q s.
Proof. intros HQ. exists []. rewrite app_nil_r. auto. Qed.

Lemma runs_gets ok (f : mstate -> A) (Q : A -> mstate -> Prop) s : Q (f s) s -> runs ok (gets f) Q s.
Proof. intros HQ. exists []. rewrite app_nil_r. auto. Qed.

Lemma runs_mono ok ok' (m : M A) (Q Q' : A -> mstate -> Prop) s :
  (forall e, ok e -> ok' e) ->
  (forall a s', ms_log s `prefix_of` ms_log s' -> Q a s' -> Q' a s') ->
  runs ok m Q s -> runs ok' m Q' s.
Proof.
  intros Hok HQ (new & L & F & G & Hq). exists new. split_and!; [done|eapply Forall_impl; eauto|done|].
  apply HQ; [|done]. rewrite L. by apply prefix_app_r.
Qed.
End rules.

(** ** Commands *)

Section host.
Context {H : Host}.

Definition pkgEnv : list bytes := patchScrubEnv h_environ (noninteractiveEnv ∅).

Definition argvOf (opts : execOptions) (h : list event) (name : bytes) (args : list bytes) : list bytes :=
  let '(n, a) := if opt_Scope opts then scopeCommand h name args else (name, args) in n :: a.

(** What a plain command prints. *)
Definition printed (h : list event) (name : bytes) (args : list bytes) : bytes :=
  cr_Stdout (outcomeOf plainRun name (h_reply h (name :: args))).

Lemma runs_runCmd (ok : event -> Prop) opts onLine name args (Q : cmdResult -> mstate -> Prop) s :
  ok (Ran (argvOf opts (ms_log s) name args) pkgEnv) ->
  (forall seen lines p, 0 <= seen -> p ∈ ticksOf onLine seen lines -> ok (Ticked p)) ->
  (forall s', (exists new, ms_log s' = ms_log s ++ Ran (argvOf opts (ms_log s) name args) pkgEnv :: new) ->
     ms_gate s' = ms_gate s ->
     Q (outcomeOf opts name (h_reply (ms_log s) (argvOf opts (ms_log s) name args))) s') ->
  runs ok (runCmd opts onLine name args) Q s.
Proof.
  intros Hok Ht HQ. unfold runs, runCmd.
  replace (let '(runName, runArgs) := if opt_Scope opts then scopeCommand (ms_log s) name args else (name, args)
           in runName :: runArgs) with (argvOf opts (ms_log s) name args) by done.
  unfold argvOf in *. destruct (if opt_Scope opts then _ else _) as [n a]. cbn.
  eexists. split_and!; [reflexivity| |done|].
  - constructor; [exact Hok|]. apply Forall_forall. intros e (p & -> & Hp)%list_elem_of_fmap.
    by apply (Ht 0 _ _ ltac:(lia)) in Hp.
  - apply HQ; [|done]. eexists. reflexivity.
Qed.

Lemma noLine_ticks seen lines : ticksOf noLine seen lines = [].
Proof. revert seen. induction lines as [|l lines IH]; intros seen; cbn; auto. Qed.

(** A query: nothing but its own argument vector matters. *)
Lemma runs_query (ok : event -> Prop) name args (Q : cmdResult -> mstate -> Prop) s :
  ok (Ran (name :: args) pkgEnv) ->
  (forall s' res, (exists new, ms_log s' = ms_log s ++ Ran (name :: args) pkgEnv :: new) ->
     cr_Stdout res = printed (ms_log s) name args -> Q res s') ->
  runs ok (runCmd plainRun noLine name args) Q s.
Proof.
  intros Hok HQ. apply runs_runCmd; [done| |].
  - intros seen lines p _. rewrite noLine_ticks. by intros ?%not_elem_of_nil.
  - intros s' Hl _. by apply HQ.
Qed.

Lemma pctOf_range seen total : 0 <= seen -> 10 <= pctOf seen total <= 90.
Proof.
  intros Hs. unfold pctOf. destruct (Z.leb_spec total 0); [lia|].
  set (n := if total <? seen then total else seen).
  assert (Hn : 0 <= n <= total) by (unfold n; destruct (Z.ltb_spec total seen); lia).
  pose proof (Z.quot_pos (80 * n) total ltac:(lia) ltac:(lia)).
  pose proof (Z.quot_le_upper_bound (80 * n) total 80 ltac:(lia) ltac:(nia)). lia.
Qed.

Lemma ticksOf_range (step : Z -> bytes -> Z * option InstallProgress) :
  (forall seen l, 0 <= seen -> 0 <= (step seen l).1 /\
     forall p, (step seen l).2 = Some p -> 10 <= ip_Pct p <= 90) ->
  forall seen lines p, 0 <= seen -> p ∈ ticksOf step seen lines -> 10 <= ip_Pct p <= 90.
Proof.
  intros Hs seen lines. revert seen. induction lines as [|l lines IH]; intros seen p H0; cbn.
  { by intros ?%not_elem_of_nil. }
  specialize (Hs seen l H0). destruct (step seen l) as [seen' [q|]]; cbn in *; destruct Hs as [H1 H2].
  - intros [->|Hp]%elem_of_cons; [auto|]. by apply (IH seen').
  - intros Hp. by apply (IH seen').
Qed.

Lemma tick_Some progress p q : tick progress p = Some q -> q = p.
Proof. unfold tick. destruct progress; congruence. Qed.

Lemma onLine_range progress total :
  let ranged step := forall seen l, 0 <= seen -> 0 <= (step seen l).1 /\
     forall p, (step seen l).2 = Some p -> 10 <= ip_Pct p <= 90 in
  ranged (aptOnLine progress total) /\ ranged (dnfOnLine progress total) /\
  ranged (pacmanOnLine progress total).
Proof.
  split_and!; intros seen l H0;
    unfold aptOnLine, dnfOnLine, pacmanOnLine;
    repeat case_match; cbn -[pctOf]; (split; [lia|]); intros p Hp;
    try discriminate; apply tick_Some in Hp; subst p; cbn -[pctOf]; apply pctOf_range; lia.
Qed.

(** ** The rules *)

(** Commands that change nothing but the package manager's own lists. *)
Definition query (m : manager) (argv : list bytes) : Prop :=
  match m with
  | APT =>
      argv = aptGet :: [str "update"] \/
      argv = aptGet :: map str ["-s"; "-o"; "Debug::NoLocking=1"; "dist-upgrade"]%string \/
      exists names, Forall safeArg names /\
        argv = str "dpkg-query" :: [str "-W"; str "-f"; dpkgFormat] ++ names
  | DNF bin =>
      argv = dnf_command bin :: map str ["-q"; "check-update"]%string \/
      argv = dnf_command bin :: map str ["-q"; "updateinfo"; "list"; "--with-cve"]%string \/
      argv = dnf_command bin :: map str ["needs-restarting"; "-r"]%string \/
      argv = str "needs-restarting" :: [str "-r"] \/
      exists specs, Forall safeArg specs /\
        argv = str "rpm" :: [str "-q"; str "--qf"; rpmFormat] ++ specs
  | Pacman =>
      argv = pacman :: [str "-Qu"] \/
      exists names, Forall safeArg names /\ argv = pacman :: [str "-Q"] ++ names
  end.

(** The one command that changes the host, up to its package arguments. *)
Definition transactionOf (m : manager) : bytes * list bytes :=
  match m with
  | APT => (aptGet, aptInstallArgs)
  | DNF bin => (dnf_command bin, dnfInstallArgs)
  | Pacman => (pacman, pacmanInstallArgs)
  end.

Definition transactionArgv (m : manager) (h : list event) (specs : list bytes) : list bytes :=
  argvOf transaction h (transactionOf m).1 ((transactionOf m).2 ++ specs).

(** The argument [x] stands for the requested id [id], which the scan [us]
    offers. *)
Definition takenBy (m : manager) (us : list Update) : bytes -> bytes -> Prop :=
  match m with
  | APT => aptTaken (offeredIDs us)
  | DNF _ => dnfTaken (offeredIDs us)
  | Pacman => pacmanTaken (pacmanOfferedNames us)
  end.

Definition approved (m : manager) (ids : list bytes) (us : list Update) (x : bytes) : Prop :=
  safeArg x /\ exists id, id ∈ ids /\ isSelfPackage id = false /\ takenBy m us id x.

Inductive allowed (m : manager) (ids : list bytes) (scan : res error (list Update)) : event -> Prop :=
  | allow_query argv : query m argv -> allowed m ids scan (Ran argv pkgEnv)
  | allow_install us h specs :
      scan = Ok us -> specs ≠ [] -> Forall (approved m ids us) specs ->
      allowed m ids scan (Ran (transactionArgv m h specs) pkgEnv)
  | allow_wait d : 0 < d <= 80 * Second -> allowed m ids scan (Slept d)
  | allow_tick p : 10 <= ip_Pct p <= 90 -> allowed m ids scan (Ticked p).

Lemma takenBy_safe m us id x : takenBy m us id x -> safeArg x.
Proof. destruct m; [apply dnfTaken_safe|apply aptTaken_safe|apply pacmanTaken_safe]. Qed.

(** The key under which a plan files an id. *)
Definition keyOf (m : manager) : bytes -> option bytes :=
  match m with DNF _ => specKey | APT | Pacman => nameKey end.

(** After this install's transaction the package manager, asked, had it. *)
Definition verified (m : manager) (s s' : mstate) (id : bytes) : Prop :=
  exists h h0 specs, (ms_log s ++ h) `prefix_of` ms_log s' /\
    Ran (transactionArgv m h0 specs) pkgEnv ∈ h /\
    match m with
    | APT => exists args name version, splitPkgVersionID id = Some (name, version) /\
        parseDpkgVersions (printed (ms_log s ++ h) (str "dpkg-query") args) !! name = Some version
    | DNF _ => exists args spec, dnfInstallSpec id = Ok spec /\
        (h_look (ms_log s ++ h) (str "rpm") = None \/
         exists line, line ∈ Lines (printed (ms_log s ++ h) (str "rpm") args) /\
           (TrimSpace line = spec \/ TrimSpace line = stripZeroEpoch spec))
    | Pacman => exists args name version, splitPkgVersionID id = Some (name, version) /\
        is_Some (parsePacmanQuery (printed (ms_log s ++ h) pacman args) !! name)
    end.

(** What the body of an install leaves behind. *)
Definition reported (m : manager) (ids : list bytes) (r : InstallResult) (s : mstate)
    (out : InstallResult * option error) (s' : mstate) : Prop :=
  extends r out.1 /\
  (forall id, id ∈ Installed out.1 -> id ∈ Installed r \/ id ∈ ids /\ verified m s s' id) /\
  (out.2 = None -> NoDup (omap (keyOf m) ids) -> accounted ids out.1).

(** ** Attribution *)

(** A loop that marks each entry installed or failed. *)
Lemma attribution {X} (idOf : X -> bytes) (good : X -> bool) (f : InstallResult -> X -> InstallResult)
    (l : list X) (r : InstallResult) :
  (forall r x, if good x then f r x = installedOne (idOf x) r
               else exists e, f r x = fail (idOf x) e r) ->
  let r' := fold_left f l r in
  extends r r' /\ Installed r' = Installed r ++ map idOf (List.filter good l) /\
  accounted (map idOf l) r'.
Proof.
  intros Hf. cbn zeta.
  apply (fold_left_inv (fun done r' => extends r r' /\
    Installed r' = Installed r ++ map idOf (List.filter good done) /\ accounted (map idOf done) r')).
  { cbn. rewrite app_nil_r. split_and!; [done|done|]. by intros ? ?%not_elem_of_nil. }
  intros done x todo r' _ (He & Hi & Ha). rewrite List.filter_app, !map_app. cbn.
  specialize (Hf r' x). destruct (good x).
  - rewrite Hf. cbn. split_and!.
    + etrans; [done|]. split; cbn; [set_solver|done].
    + by rewrite Hi, <- app_assoc.
    + intros id [Hin| ->%list_elem_of_singleton]%elem_of_app; [|left; cbn; set_solver].
      destruct (Ha id Hin) as [?|?]; [left; cbn; set_solver|by right].
  - destruct Hf as [e ->]. pose proof (fail_extends (idOf x) e r') as Hx. cbn. rewrite app_nil_r.
    split_and!; [by etrans|by rewrite fail_installed|].
    intros id [Hin| ->%list_elem_of_singleton]%elem_of_app; [|right; apply fail_records].
    eapply accounted_extends; eauto.
Qed.

(** From the attribution of what is filed to the accounting of all ids. *)
Lemma accounted_filed ids (taken : bytes -> bytes -> Prop) file r r' r'' specs index :
  planned ids taken r r' specs index -> extends r' r'' ->
  filed file ids index ->
  (forall id x, taken id x -> is_Some (file id)) ->
  (forall k id, index !! k = Some id -> id ∈ Installed r'' \/ is_Some (Failed r'' !! id)) ->
  accounted ids r''.
Proof.
  intros Hp He Hf Ht Hx id Hid. destruct (pl_total _ _ _ _ _ _ Hp id Hid) as [[e Hfail]|(x & _ & Htk)].
  - right. exists e. by apply He.
  - destruct (Ht _ _ Htk) as [k Hk]. apply (Hx k). by apply Hf.
Qed.

(** ** Scans and queries *)

Lemma runs_self {A} (ok : event -> Prop) (m : M A) Q s :
  runs ok m Q s -> runs ok m (fun a s' => Q a s' /\ a = (m s).1) s.
Proof. intros (new & ? & ? & ? & ?). exists new. auto. Qed.

Lemma runs_sleep (ok : event -> Prop) d (Q : option error -> mstate -> Prop) s :
  ok (Slept d) ->
  (forall a s', ms_log s `prefix_of` ms_log s' -> Q a s') ->
  runs ok (sleepCtx d) Q s.
Proof.
  intros Hok HQ. unfold runs, sleepCtx. destruct (h_wake (ms_log s) d) as [e|]; cbn.
  - exists []. rewrite app_nil_r. split_and!; [done|constructor|done|]. by apply HQ.
  - exists [Slept d]. split_and!; [done|by repeat constructor|done|].
    apply HQ. by apply prefix_app_r.
Qed.

Section scans.
Context (m : manager) (ids : list bytes) (scan : res error (list Update)).
Local Abbreviation ok := (allowed m ids scan).

(** A query whose answer is not looked at. *)
Lemma runs_query_any name args (Q : cmdResult -> mstate -> Prop) s :
  query m (name :: args) -> (forall res s', Q res s') -> runs ok (runCmd plainRun noLine name args) Q s.
Proof. intros Hq HQ. apply runs_query; [by apply allow_query|]. auto. Qed.
End scans.

Lemma refresh_runs ids scan attempts backoff last s :
  0 < backoff -> backoff * 2 ^ Z.of_nat attempts <= 80 * Second ->
  runs (allowed APT ids scan) (refreshLoop attempts backoff last) (fun _ _ => True) s.
Proof.
  revert backoff last s. induction attempts as [|n IH]; intros backoff last s Hb Hle; cbn [refreshLoop].
  { by apply runs_ret. }
  replace (Z.of_nat (S n)) with (Z.of_nat n + 1) in Hle by lia. rewrite Z.pow_add_r, Z.pow_1_r in Hle by lia.
  pose proof (Z.pow_pos_nonneg 2 (Z.of_nat n) ltac:(lia) ltac:(lia)).
  apply runs_bind, runs_query_any; [by left|]. intros res s'.
  destruct (cmd_ok res); [by apply runs_ret|]. destruct (negb _); [by apply runs_ret|].
  case_bool_decide; [by apply runs_ret|].
  apply runs_bind, runs_sleep; [apply allow_wait; nia|]. intros a s'' _.
  destruct a; [by apply runs_ret|]. apply IH; nia.
Qed.

Lemma apt_Scan_runs ids scan s : runs (allowed APT ids scan) apt_Scan (fun _ _ => True) s.
Proof.
  unfold apt_Scan, apt_refresh. apply runs_bind.
  eapply runs_mono; [done| |apply refresh_runs; unfold Second, aptUpdateAttempts; cbn; lia].
  intros _ s' _ _. cbn beta. apply runs_bind, runs_query_any; [by right; left|].
  intros res s''. by apply runs_ret.
Qed.

Lemma dnf_Scan_runs bin ids scan s : runs (allowed (DNF bin) ids scan) (dnf_Scan bin) (fun _ _ => True) s.
Proof.
  unfold dnf_Scan. apply runs_bind, runs_query_any; [by left|]. intros res s'.
  destruct (cr_Err res); [by apply runs_ret|]. destruct (_ =? _); [by apply runs_ret|].
  destruct (_ =? _); [|destruct (_ =? _); by apply runs_ret].
  apply runs_bind, runs_bind, runs_query_any; [by right; left|]. intros res' s''.
  by apply runs_ret, runs_ret.
Qed.

Lemma pacman_Scan_runs ids scan s : runs (allowed Pacman ids scan) pacman_Scan (fun _ _ => True) s.
Proof.
  unfold pacman_Scan. apply runs_bind, runs_query_any; [by left|]. intros res s'. by apply runs_ret.
Qed.

Lemma Scan_runs m ids scan s : runs (allowed m ids scan) (Scan m) (fun a _ => a = (Scan m s).1) s.
Proof.
  eapply runs_mono; [done| |apply runs_self].
  - intros a s' _ [_ Ha]. exact Ha.
  - destruct m; [apply dnf_Scan_runs|apply apt_Scan_runs|apply pacman_Scan_runs].
Qed.

Lemma dnf_RebootRequired_runs bin ids scan s :
  runs (allowed (DNF bin) ids scan) (dnf_RebootRequired bin) (fun _ _ => True) s.
Proof.
  unfold dnf_RebootRequired. apply runs_bind, runs_query_any; [by right; right; left|]. intros res s'.
  destruct (_ && _); [by apply runs_ret|]. apply runs_bind, runs_gets.
  destruct (match h_look _ _ with Some _ => true | None => false end); [|by apply runs_ret].
  apply runs_bind, runs_query_any; [by do 3 right; left|]. intros res' s''. by apply runs_ret.
Qed.

Lemma pacman_RebootRequired_runs ids scan s :
  runs (allowed Pacman ids scan) pacman_RebootRequired (fun _ _ => True) s.
Proof.
  unfold pacman_RebootRequired. apply runs_bind, runs_gets.
  destruct (h_uname _); [|by apply runs_ret]. case_bool_decide; [by apply runs_ret|by apply runs_gets].
Qed.

(** ** The transaction *)

Definition ran (m : manager) (s s' : mstate) : Prop :=
  exists h h0 specs, ms_log s' = ms_log s ++ h /\ Ran (transactionArgv m h0 specs) pkgEnv ∈ h.

Lemma ran_later m s s' s'' : ran m s s' -> ms_log s' `prefix_of` ms_log s'' -> ran m s s''.
Proof.
  intros (h & h0 & sp & E & Hin) [k Hk]. exists (h ++ k), h0, sp.
  rewrite Hk, E, <- app_assoc. split; [done|set_solver].
Qed.

Lemma ran_from m s s1 s' : ran m s1 s' -> ms_log s `prefix_of` ms_log s1 -> ran m s s'.
Proof.
  intros (h & h0 & sp & E & Hin) [k Hk]. exists (k ++ h), h0, sp.
  rewrite E, Hk, <- app_assoc. split; [done|set_solver].
Qed.

Lemma runs_transaction m ids us onLine specs (Q : cmdResult -> mstate -> Prop) s :
  specs ≠ [] -> Forall (approved m ids us) specs ->
  (forall seen l, 0 <= seen -> 0 <= (onLine seen l).1 /\
     forall p, (onLine seen l).2 = Some p -> 10 <= ip_Pct p <= 90) ->
  (forall res s', ran m s s' -> Q res s') ->
  runs (allowed m ids (Ok us)) (runCmd transaction onLine (transactionOf m).1 ((transactionOf m).2 ++ specs)) Q s.
Proof.
  intros Hne Hap Hr HQ. apply runs_runCmd.
  - by eapply (allow_install m ids (Ok us) us).
  - intros seen lines p H0 Hp. apply allow_tick. by eapply (ticksOf_range onLine).
  - intros s' [new Hl] _. apply HQ. eexists _, (ms_log s), specs. split; [exact Hl|]. by left.
Qed.

Definition aptBackoffs : list Z := [10 * Second; 20 * Second; 40 * Second; 80 * Second].

Lemma aptBackoffs_step b : b ∈ aptBackoffs -> 0 < b <= 80 * Second /\
  (if b <? Minute then 2 * b else b) ∈ aptBackoffs.
Proof.
  unfold aptBackoffs. intros Hb. repeat (apply elem_of_cons in Hb as [->|Hb]; [by split; [done|vm_compute; repeat constructor]|]).
  by apply not_elem_of_nil in Hb.
Qed.

Lemma runInstallLoop_runs ids us fuel progress total deadline backoff specs s :
  specs ≠ [] -> Forall (approved APT ids us) specs -> backoff ∈ aptBackoffs ->
  runs (allowed APT ids (Ok us))
    (runInstallLoop (S fuel) progress total deadline backoff (aptInstallArgs ++ specs))
    (fun _ s' => ran APT s s') s.
Proof.
  intros Hne Hap. revert backoff s. induction fuel as [|fuel IH]; intros backoff s Hb;
    cbn [runInstallLoop]; apply runs_bind;
    (apply (runs_transaction APT); [done|done|apply onLine_range|]); intros res s' Hran;
    (destruct (cmd_ok res); [by apply runs_ret|]; destruct (cr_Err res); [by apply runs_ret|];
     destruct (negb _); [by apply runs_ret|]; apply runs_bind, runs_gets;
     destruct (_ <? _); [by apply runs_ret|];
     destruct (aptBackoffs_step backoff Hb) as [? Hb'];
     apply runs_bind, runs_sleep; [by apply allow_wait|]; intros a s'' Hp;
     destruct a; [by eapply runs_ret, ran_later|]).
  - by eapply runs_ret, ran_later.
  - eapply runs_mono; [done| |by apply IH]. cbn. intros _ s3 Hp' _.
    eapply ran_later; [done|by etrans].
Qed.

(** ** The bodies *)

(** What every body is given: ids that were asked for and are not the agent's
    own package. *)
Definition admissible (ids0 ids : list bytes) : Prop :=
  Forall (fun id => id ∈ ids0 /\ isSelfPackage id = false) ids.

Lemma planned_approved m ids0 ids us r r' specs index :
  admissible ids0 ids -> planned ids (takenBy m us) r r' specs index -> Forall (approved m ids0 us) specs.
Proof.
  intros Ha Hp. apply Forall_forall. intros x Hx.
  destruct (pl_specs _ _ _ _ _ _ Hp x Hx) as (id & Hid & Ht). split; [by eapply takenBy_safe|].
  exists id. unfold admissible in Ha. rewrite Forall_forall in Ha. destruct (Ha id Hid). auto.
Qed.

(** A plan that admits nothing has a reason for every id. *)
Lemma reported_empty m ids us r r' index s s' e :
  planned ids (takenBy m us) r r' [] index -> reported m ids r s (r', e) s'.
Proof.
  intros Hp. split_and!; cbn; [apply Hp| |].
  - intros id Hi. left. by rewrite <- (pl_installed _ _ _ _ _ _ Hp).
  - intros _ _ id Hid. destruct (pl_total _ _ _ _ _ _ Hp id Hid) as [?|(x & ?%not_elem_of_nil & _)]; [by right|done].
Qed.

Lemma runs_prefix {A} (ok : event -> Prop) (m : M A) (Q : A -> mstate -> Prop) s :
  (forall a s', ms_log s `prefix_of` ms_log s' -> Q a s') ->
  runs ok m (fun _ _ => True) s -> runs ok m Q s.
Proof. intros HQ. apply runs_mono; [done|]. auto. Qed.

Lemma rangeOf_perm (g : gmap bytes bytes) s : (rangeOf g s).1 ≡ₚ map_to_list g.
Proof. cbn. apply h_range_perm. Qed.

Lemma elem_of_rangeOf (h : list event) (g : gmap bytes bytes) (k v : bytes) :
  (k, v) ∈ h_range h (map_to_list g) <-> g !! k = Some v.
Proof. rewrite h_range_perm. apply elem_of_map_to_list. Qed.

(** Attribution, with what the marked entries have in common. *)
Lemma attribution_good {X} (idOf : X -> bytes) (good : X -> bool) f (l : list X) (r : InstallResult) :
  (forall r x, if good x then f r x = installedOne (idOf x) r
               else exists e, f r x = fail (idOf x) e r) ->
  let r' := fold_left f l r in
  extends r r' /\ accounted (map idOf l) r' /\
  forall id, id ∈ Installed r' -> id ∈ Installed r \/ exists x, x ∈ l /\ good x = true /\ id = idOf x.
Proof.
  intros Hf. destruct (attribution idOf good f l r Hf) as (He & Hi & Ha). cbn zeta in *.
  split_and!; [done|done|]. intros id. rewrite Hi. intros [?|Hid]%elem_of_app; [by left|right].
  apply list_elem_of_fmap in Hid as (x & -> & Hin).
  rewrite list_elem_of_In, filter_In, <- list_elem_of_In in Hin. destruct Hin. eauto.
Qed.

Lemma attributeAptResult_spec want idByName installed runErr r :
  let r' := attributeAptResult want idByName installed runErr r in
  let idOf (nv : bytes * bytes) := default [] (idByName !! nv.1) in
  extends r r' /\ accounted (map idOf want) r' /\
  forall id, id ∈ Installed r' -> id ∈ Installed r \/
    exists nv, nv ∈ want /\ installed !! nv.1 = Some nv.2 /\ id = idOf nv.
Proof.
  cbn zeta. set (idOf := fun nv : bytes * bytes => default [] (idByName !! nv.1)).
  destruct (attribution_good idOf (fun nv => bool_decide (installed !! nv.1 = Some nv.2))
              (attributeApt idByName installed runErr) want r) as (He & Ha & Hi).
  { intros r0 [n v]. unfold attributeApt, idOf; cbn. case_bool_decide as E.
    - rewrite E. by rewrite bool_decide_eq_true_2.
    - destruct (installed !! n) as [got|]; [|destruct runErr; eauto].
      rewrite bool_decide_eq_false_2 by congruence. eauto. }
  split_and!; [done|done|]. intros id [?|(nv & ? & Hg & ?)]%Hi; [by left|right]. bool_cases. eauto.
Qed.

(** The names dpkg is asked about are safe arguments. *)
Lemma aptInstallPlan_safe ids offered r (h : list event) :
  Forall safeArg (map fst (h_range h (map_to_list (ap_want (aptInstallPlan ids offered r))))).
Proof.
  apply Forall_forall. intros x ([n v] & -> & Hin)%list_elem_of_fmap. apply elem_of_rangeOf in Hin.
  destruct (aptInstallPlan_want ids offered r) as [Hdom Hw].
  assert (is_Some (ap_idByName (aptInstallPlan ids offered r) !! n)) as [id Hid].
  { apply elem_of_dom. rewrite <- Hdom. by apply elem_of_dom_2 in Hin. }
  pose proof (Hw n v id Hin Hid) as Hs. by apply splitChecked_safe in Hs as [_ ?].
Qed.

Section apt_report.
Context (ids : list bytes) (us : list Update) (r : InstallResult).
Let p := aptInstallPlan ids (offeredIDs us) r.

(** What dpkg says of a plan decides what the result says. *)
Lemma attributeApt_reported s s1 s' args runErr want :
  let installed := parseDpkgVersions (printed (ms_log s1) (str "dpkg-query") args) in
  ran APT s s1 -> ms_log s1 `prefix_of` ms_log s' -> want ≡ₚ map_to_list (ap_want p) ->
  forall id, id ∈ Installed (attributeAptResult want (ap_idByName p) installed runErr (ap_res p)) ->
  id ∈ Installed r \/ id ∈ ids /\ verified APT s s' id.
Proof.
  intros installed Hran Hs' Hw id Hid.
  pose proof (aptInstallPlan_planned ids (offeredIDs us) r) as Hp. fold p in Hp. cbn zeta in Hp.
  destruct (aptInstallPlan_want ids (offeredIDs us) r) as [Hdom Hwant]. fold p in Hdom, Hwant.
  destruct (attributeAptResult_spec want (ap_idByName p) installed runErr (ap_res p)) as (_ & _ & Hi).
  apply Hi in Hid as [Hid|([n v] & Hin & Hg & ->)]; [left; by rewrite <- (pl_installed _ _ _ _ _ _ Hp)|right].
  rewrite Hw in Hin. apply elem_of_map_to_list in Hin. cbn in *.
  assert (is_Some (ap_idByName p !! n)) as [id Hid].
  { apply elem_of_dom. rewrite <- Hdom. by apply elem_of_dom_2 in Hin. }
  rewrite Hid; cbn. split; [by eapply (pl_index _ _ _ _ _ _ Hp)|].
  destruct Hran as (h & h0 & sp & El & Hev). exists h, h0, sp. rewrite <- El. split_and!; [done|done|].
  exists args, n, v. split; [|done]. pose proof (Hwant n v id Hin Hid) as Hsc. unfold splitChecked in Hsc.
  destruct (splitPkgVersionID id) as [[? ?]|]; [|done]. repeat case_match; congruence.
Qed.

Lemma attributeApt_accounted installed runErr want :
  want ≡ₚ map_to_list (ap_want p) -> NoDup (omap nameKey ids) ->
  accounted ids (attributeAptResult want (ap_idByName p) installed runErr (ap_res p)).
Proof.
  intros Hw Hnd. pose proof (aptInstallPlan_planned ids (offeredIDs us) r) as Hp. cbn zeta in Hp.
  destruct (aptInstallPlan_want ids (offeredIDs us) r) as [Hdom _]. fold p in Hp, Hdom.
  destruct (attributeAptResult_spec want (ap_idByName p) installed runErr (ap_res p)) as (He & Ha & _).
  eapply accounted_filed; [exact Hp|done|by apply aptInstallPlan_filed| |].
  - intros id x (_ & Ho & n & v & E). unfold aptFile, aptAdmit. rewrite E, bool_decide_eq_true_2 by done. eauto.
  - intros k id Hk. apply Ha. apply list_elem_of_fmap.
    assert (is_Some (ap_want p !! k)) as [v Hv] by (apply elem_of_dom; rewrite Hdom; by apply elem_of_dom_2 in Hk).
    exists (k, v). cbn. rewrite Hk. split; [done|]. rewrite Hw. by apply elem_of_map_to_list.
Qed.
End apt_report.

Lemma apt_body_runs ids0 progress ids r s :
  admissible ids0 ids ->
  runs (allowed APT ids0 (Scan APT s).1) (apt_body progress ids r) (reported APT ids r s) s.
Proof.
  intros Had. unfold apt_body. apply runs_bind. eapply runs_mono; [done| |apply (Scan_runs APT)].
  intros a s1 Hs1 ->. destruct (Scan APT s).1 as [us|e]; [|].
  2: { apply runs_ret. split_and!; cbn; [done|auto|done]. }
  pose proof (aptInstallPlan_planned ids (offeredIDs us) r) as Hp. cbn zeta in Hp.
  pose proof (planned_approved APT ids0 ids us _ _ _ _ Had Hp) as Hap.
  case_bool_decide as Hne.
  { rewrite Hne in Hp. by eapply runs_ret, reported_empty. }
  unfold runInstall, runInstallFuel. apply runs_bind, runs_bind, runs_gets, runs_bind.
  eapply runs_mono; [done| |by apply runInstallLoop_runs; [..|left]].
  intros out s2 _ Hran. apply (ran_from APT s) in Hran; [|done]. apply runs_ret.
  destruct (default _ out) as [res runErr]. apply runs_bind. unfold apt_installedVersions.
  apply runs_bind, runs_gets, runs_bind, runs_query.
  - apply allow_query. right; right. eexists. split; [|reflexivity].
    by apply aptInstallPlan_safe.
  - intros s3 q [new Hl] Hq. apply runs_ret. apply runs_bind, runs_gets, runs_bind, runs_gets, runs_ret.
    rewrite Hq. assert (Hpre : ms_log s2 `prefix_of` ms_log s3) by (rewrite Hl; by apply prefix_app_r).
    set (want := h_range (ms_log s3) _). pose proof (h_range_perm (ms_log s3) (map_to_list
      (ap_want (aptInstallPlan ids (offeredIDs us) r)))) as Hw. fold want in Hw.
    split_and!; cbn [fst snd].
    + etrans; [apply Hp|]. etrans; [|apply setReboot_extends]. apply attributeAptResult_spec.
    + intros id Hid. cbn in Hid. eapply attributeApt_reported; [exact Hran|exact Hpre|exact Hw|exact Hid].
    + intros _ Hnd. eapply accounted_extends; [|apply setReboot_extends]. by apply attributeApt_accounted.
Qed.

(** *** dnf *)

Lemma attributeDNF_spec installed exit kvs r :
  let r' := fold_left (attributeDNF installed exit) kvs r in
  extends r r' /\ accounted (map snd kvs) r' /\
  forall id, id ∈ Installed r' -> id ∈ Installed r \/
    exists si, si ∈ kvs /\ si.1 ∈ installed /\ id = si.2.
Proof.
  destruct (attribution_good snd (fun si : bytes * bytes => bool_decide (si.1 ∈ installed))
              (attributeDNF installed exit) kvs r) as (He & Ha & Hi).
  { intros r0 [sp id]. unfold attributeDNF; cbn. case_bool_decide; [done|]. destruct (exit =? 0); eauto. }
  cbn zeta in *. split_and!; [done|done|]. intros id [?|(si & ? & Hg & ?)]%Hi; [by left|right].
  bool_cases. eauto.
Qed.

(** What rpm says of the specs, or nothing when there is no rpm. *)
Definition rpmAnswer (h : list event) (args specs : list bytes) (installed : gset bytes) : Prop :=
  forall spec, spec ∈ installed -> spec ∈ specs /\
    (h_look h (str "rpm") = None \/
     exists line, line ∈ Lines (printed h (str "rpm") args) /\
       (TrimSpace line = spec \/ TrimSpace line = stripZeroEpoch spec)).

Lemma installedSpecs_runs bin ids scan specs s :
  Forall safeArg specs ->
  runs (allowed (DNF bin) ids scan) (installedSpecs specs)
    (fun installed _ => exists args, rpmAnswer (ms_log s) args specs installed) s.
Proof.
  intros Hsafe. unfold installedSpecs. apply runs_bind, runs_gets.
  destruct (h_look (ms_log s) (str "rpm")) as [path|] eqn:El; cbn [negb].
  - apply runs_bind, runs_query; [apply allow_query; do 4 right; by exists specs|].
    intros s' res _ ->. apply runs_ret. exists ([str "-q"; str "--qf"; rpmFormat] ++ specs). intros spec Hin.
    rewrite elem_of_list_to_set, list_elem_of_In, filter_In, <- list_elem_of_In in Hin.
    destruct Hin as [Hin Hb]. split; [done|right].
    apply orb_true_iff in Hb as [Hb|Hb]; apply bool_decide_eq_true in Hb;
      apply elem_of_list_to_set, list_elem_of_fmap in Hb as (line & E & Hl);
      exists line; symmetry in E; auto.
  - apply runs_ret. exists []. intros spec Hin. rewrite elem_of_list_to_set in Hin. auto.
Qed.

Lemma dnf_report_verified bin ids us r s s1 s' args installed exit h :
  let p := dnfInstallPlan ids (offeredIDs us) r in
  ran (DNF bin) s s1 -> ms_log s1 `prefix_of` ms_log s' ->
  rpmAnswer (ms_log s1) args (dp_specs p) installed ->
  forall id b, id ∈ Installed (fold_left (attributeDNF installed exit) (h_range h (map_to_list (dp_idBySpec p)))
    (setReboot b (dp_res p))) ->
  id ∈ Installed r \/ id ∈ ids /\ verified (DNF bin) s s' id.
Proof.
  intros p Hran Hs' Hans id b Hid.
  pose proof (dnfInstallPlan_planned ids (offeredIDs us) r) as Hp. fold p in Hp. cbn zeta in Hp.
  apply attributeDNF_spec in Hid as [Hid|([sp i] & Hin & Hg & ->)];
    [left; cbn in Hid; by rewrite <- (pl_installed _ _ _ _ _ _ Hp)|right].
  apply elem_of_rangeOf in Hin. cbn in *. split; [by eapply (pl_index _ _ _ _ _ _ Hp)|].
  destruct Hran as (h1 & h0 & specs & El & Hev). exists h1, h0, specs. rewrite <- El.
  split_and!; [done|done|]. exists args, sp. split; [|by apply Hans].
  by apply (dnfInstallPlan_index ids (offeredIDs us) r).
Qed.

Lemma dnf_report_accounted ids us r installed exit (h : list event) b :
  let p := dnfInstallPlan ids (offeredIDs us) r in
  NoDup (omap specKey ids) ->
  accounted ids (fold_left (attributeDNF installed exit) (h_range h (map_to_list (dp_idBySpec p)))
    (setReboot b (dp_res p))).
Proof.
  intros p Hnd. pose proof (dnfInstallPlan_planned ids (offeredIDs us) r) as Hp. fold p in Hp. cbn zeta in Hp.
  destruct (attributeDNF_spec installed exit (h_range h (map_to_list (dp_idBySpec p)))
    (setReboot b (dp_res p))) as (He & Ha & _).
  eapply accounted_filed; [exact Hp| |by apply dnfInstallPlan_filed| |].
  - etrans; [apply setReboot_extends|exact He].
  - intros id x E. unfold dnfTaken in E. unfold dnfFile. rewrite E. eauto.
  - intros k id Hk. apply Ha. apply list_elem_of_fmap. exists (k, id). split; [done|]. by apply elem_of_rangeOf.
Qed.

Lemma dnf_body_runs bin ids0 progress ids r s :
  admissible ids0 ids ->
  runs (allowed (DNF bin) ids0 (Scan (DNF bin) s).1) (dnf_body bin progress ids r) (reported (DNF bin) ids r s) s.
Proof.
  intros Had. unfold dnf_body. apply runs_bind. eapply runs_mono; [done| |apply (Scan_runs (DNF bin))].
  intros a s1 Hs1 ->. destruct (Scan (DNF bin) s).1 as [us|e];
    [|by apply runs_ret; split_and!; cbn; [done|auto|done]].
  pose proof (dnfInstallPlan_planned ids (offeredIDs us) r) as Hp. cbn zeta in Hp.
  pose proof (planned_approved (DNF bin) ids0 ids us _ _ _ _ Had Hp) as Hap.
  case_bool_decide as Hne; [rewrite Hne in Hp; by eapply runs_ret, (reported_empty (DNF bin))|].
  apply runs_bind, (runs_transaction (DNF bin)); [done|done|apply onLine_range|].
  intros res s2 Hran. apply (ran_from (DNF bin) s) in Hran; [|done].
  apply runs_bind. eapply runs_prefix; [|apply dnf_RebootRequired_runs]. intros reboot s3 Hs3.
  assert (Hran3 : ran (DNF bin) s s3) by by eapply ran_later.
  set (b := match reboot with Ok b => b | Err _ => false end).
  destruct (cr_Err res) as [e|].
  - apply runs_bind, runs_gets, runs_ret. set (l := map snd _).
    destruct (failAll_spec l (Errorf "dnf install" e) (setReboot b (dp_res (dnfInstallPlan ids (offeredIDs us) r))))
      as (He & _ & Hi). split_and!; cbn [fst snd]; [|rewrite Hi|done].
    + etrans; [apply Hp|]. etrans; [apply setReboot_extends|done].
    + intros id Hid. left. cbn in Hid. by rewrite <- (pl_installed _ _ _ _ _ _ Hp).
  - apply runs_bind. eapply runs_mono; [done| |apply installedSpecs_runs].
    2: { eapply Forall_impl; [exact Hap|]. by intros x [? _]. }
    intros installed s4 Hs4 [args Hans]. apply runs_bind, runs_gets, runs_ret.
    split_and!; cbn [fst snd].
    + etrans; [apply Hp|]. etrans; [apply setReboot_extends|]. apply attributeDNF_spec.
    + intros id. by eapply dnf_report_verified.
    + intros _. apply dnf_report_accounted.
Qed.

(** *** pacman *)

Lemma attributePacman_spec before after runErr exit kvs r :
  let r' := fold_left (attributePacman before after runErr exit) kvs r in
  extends r r' /\ accounted (map snd kvs) r' /\
  forall id, id ∈ Installed r' -> id ∈ Installed r \/
    exists ni, ni ∈ kvs /\ is_Some (after !! ni.1) /\ id = ni.2.
Proof.
  set (good := fun ni : bytes * bytes =>
    match after !! ni.1 with
    | Some got => negb (bool_decide (got = default [] (before !! ni.1))) ||
                  match runErr with None => exit =? 0 | Some _ => false end
    | None => false
    end).
  destruct (attribution_good snd good (attributePacman before after runErr exit) kvs r) as (He & Ha & Hi).
  { intros r0 [n id]. unfold good, attributePacman; cbn.
    destruct (after !! n); cbn; [destruct (_ || _); [done|]|]; destruct runErr; eauto. }
  cbn zeta in *. split_and!; [done|done|]. intros id [?|(ni & ? & Hg & ?)]%Hi; [by left|right].
  exists ni. unfold good in Hg. destruct (after !! ni.1); [eauto|done].
Qed.

Section pacman_report.
Context (ids : list bytes) (us : list Update) (r : InstallResult).
Let p := pacmanInstallPlan ids (pacmanOfferedNames us) r.

Lemma pacman_report_verified s s1 s' args before runErr exit h :
  let after := parsePacmanQuery (printed (ms_log s1) pacman args) in
  ran Pacman s s1 -> ms_log s1 `prefix_of` ms_log s' ->
  forall id, id ∈ Installed (fold_left (attributePacman before after runErr exit)
    (h_range h (map_to_list (pp_idByName p))) (pp_res p)) ->
  id ∈ Installed r \/ id ∈ ids /\ verified Pacman s s' id.
Proof.
  intros after Hran Hs' id Hid.
  pose proof (pacmanInstallPlan_planned ids (pacmanOfferedNames us) r) as Hp. fold p in Hp. cbn zeta in Hp.
  apply attributePacman_spec in Hid as [Hid|([n i] & Hin & Hg & ->)];
    [left; by rewrite <- (pl_installed _ _ _ _ _ _ Hp)|right].
  apply elem_of_rangeOf in Hin. cbn in *. split; [by eapply (pl_index _ _ _ _ _ _ Hp)|].
  destruct Hran as (h1 & h0 & specs & El & Hev). exists h1, h0, specs. rewrite <- El.
  split_and!; [done|done|]. apply pacmanInstallPlan_index in Hin. apply pacmanAdmit_Ok in Hin as [_ [v Hsc]].
  exists args, n, v. split; [|done]. unfold splitChecked in Hsc.
  destruct (splitPkgVersionID i) as [[? ?]|]; [|done]. repeat case_match; congruence.
Qed.

Lemma pacman_report_accounted before after runErr exit (h : list event) :
  NoDup (omap nameKey ids) ->
  accounted ids (fold_left (attributePacman before after runErr exit)
    (h_range h (map_to_list (pp_idByName p))) (pp_res p)).
Proof.
  intros Hnd. pose proof (pacmanInstallPlan_planned ids (pacmanOfferedNames us) r) as Hp.
  fold p in Hp. cbn zeta in Hp.
  destruct (attributePacman_spec before after runErr exit (h_range h (map_to_list (pp_idByName p))) (pp_res p))
    as (He & Ha & _).
  eapply accounted_filed; [exact Hp|exact He|by apply pacmanInstallPlan_filed| |].
  - intros id x E. unfold pacmanTaken in E. unfold pacmanFile. rewrite E. eauto.
  - intros k id Hk. apply Ha. apply list_elem_of_fmap. exists (k, id). split; [done|]. by apply elem_of_rangeOf.
Qed.
End pacman_report.

Lemma pacman_body_runs ids0 progress ids r s :
  admissible ids0 ids ->
  runs (allowed Pacman ids0 (Scan Pacman s).1) (pacman_body progress ids r) (reported Pacman ids r s) s.
Proof.
  intros Had. unfold pacman_body. apply runs_bind. eapply runs_mono; [done| |apply (Scan_runs Pacman)].
  intros a s1 Hs1 ->. destruct (Scan Pacman s).1 as [us|e];
    [|by apply runs_ret; split_and!; cbn; [done|auto|done]].
  apply runs_bind, runs_bind, runs_query; [apply allow_query; right; by exists []|].
  intros s2 q [new Hl] _. apply runs_ret.
  assert (Hs2 : ms_log s `prefix_of` ms_log s2) by (etrans; [exact Hs1|rewrite Hl; by apply prefix_app_r]).
  pose proof (pacmanInstallPlan_planned ids (pacmanOfferedNames us) r) as Hp. cbn zeta in Hp.
  pose proof (planned_approved Pacman ids0 ids us _ _ _ _ Had Hp) as Hap.
  case_bool_decide as Hne; [rewrite Hne in Hp; by eapply runs_ret, (reported_empty Pacman)|].
  apply runs_bind, (runs_transaction Pacman); [done|done|apply onLine_range|].
  intros res s3 Hran. apply (ran_from Pacman s) in Hran; [|done].
  apply runs_bind. unfold pacman_installedVersions at 1. apply runs_bind, runs_query.
  { apply allow_query. right. eexists. split; [|reflexivity]. eapply Forall_impl; [exact Hap|]. by intros x [? _]. }
  intros s4 q' [new' Hl'] ->. apply runs_ret. apply runs_bind, runs_gets, runs_bind.
  eapply runs_prefix; [|apply pacman_RebootRequired_runs]. intros reboot s5 Hs5. apply runs_ret.
  assert (Hs35 : ms_log s3 `prefix_of` ms_log s5) by (etrans; [|exact Hs5]; rewrite Hl'; by apply prefix_app_r).
  split_and!; cbn [fst snd].
  - etrans; [apply Hp|]. etrans; [|apply setReboot_extends]. apply attributePacman_spec.
  - intros id Hid. cbn in Hid. eapply pacman_report_verified; [exact Hran|exact Hs35|exact Hid].
  - intros _ Hnd. eapply accounted_extends; [|apply setReboot_extends]. by apply pacman_report_accounted.
Qed.

(** ** The guard *)

Definition bodyOf (m : manager) (progress : bool) : list bytes -> InstallResult -> M (InstallResult * option error) :=
  match m with DNF bin => dnf_body bin progress | APT => apt_body progress | Pacman => pacman_body progress end.

Lemma Install_guarded m ctx ids progress : Install m ctx ids progress = guardedInstall ctx ids (bodyOf m progress).
Proof. by destruct m. Qed.

Lemma body_runs m ids0 progress ids r s :
  admissible ids0 ids ->
  runs (allowed m ids0 (Scan m s).1) (bodyOf m progress ids r) (reported m ids r s) s.
Proof. destruct m; [apply dnf_body_runs|apply apt_body_runs|apply pacman_body_runs]. Qed.

(** What an install amounts to: refused before anything runs, or the body run
    with the gate held, on the ids that are not the agent's own. *)
Inductive installed_as (body : list bytes -> InstallResult -> M (InstallResult * option error))
    (ids : list bytes) (s : mstate) (out : InstallResult * option error) (s' : mstate) : Prop :=
  | installed_refused e r :
      out = (r, Some e) -> s' = s -> Installed r = [] -> installed_as body ids s out s'
  | installed_nothing r :
      out = (r, None) -> s' = s -> Installed r = [] -> accounted (dedupeIDs ids) r ->
      installed_as body ids s out s'
  | installed_ran ids' r :
      ms_gate s = false ->
      admissible ids ids' -> Installed r = [] ->
      (forall id, id ∈ dedupeIDs ids -> id ∈ ids' \/ is_Some (Failed r !! id)) ->
      ids' `sublist_of` dedupeIDs ids ->
      let run := body ids' r (with_gate true s) in
      out = run.1 -> s' = with_gate false run.2 ->
      installed_as body ids s out s'.

Lemma filter_sublist {A} (f : A -> bool) l : List.filter f l `sublist_of` l.
Proof. induction l as [|x l IH]; [constructor|]. cbn. destruct (f x); by constructor. Qed.

Lemma with_gate_same s : with_gate (ms_gate s) s = s.
Proof. by destruct s. Qed.

Lemma guardedInstall_cases body ctx ids s out s' :
  guardedInstall ctx ids body s = (out, s') -> installed_as body ids s out s'.
Proof.
  unfold guardedInstall.
  destruct (dedupeIDs_spec ids) as (_ & Hde & _). case_bool_decide as Hn.
  { intros [= <- <-]. eapply installed_nothing; [done..|]. rewrite Hn. by intros ? ?%not_elem_of_nil. }
  unfold mbind at 1, gets at 1, prepareInstall. cbn beta iota. destruct (checkInstallDeadline _ _).
  { intros [= <- <-]. eapply installed_refused; [done|done|]. apply failAll_spec. }
  unfold refuseSelfPackages. pose proof (refuseSelf_spec (dedupeIDs ids) [] newInstallResult) as Hrs.
  destruct (fold_left refuseSelf _ _) as [ids' r]. destruct Hrs as (Hids & He & Hi & _ & Hf). cbn in Hids, Hi.
  assert (Hcov : forall id, id ∈ dedupeIDs ids -> id ∈ ids' \/ is_Some (Failed r !! id)).
  { intros id Hid. destruct (isSelfPackage id) eqn:E; [right; auto|left].
    rewrite Hids, list_elem_of_In, filter_In, <- list_elem_of_In, E. done. }
  case_bool_decide as Hn'.
  { intros [= <- <-]. eapply installed_nothing; [done..|]. intros id Hid.
    destruct (Hcov id Hid) as [Hx|?]; [|by right]. rewrite Hn' in Hx. by apply not_elem_of_nil in Hx. }
  unfold mbind, gets, modify, acquire, release, mret. cbn [fst snd].
  destruct (ms_gate s) eqn:Hg; cbn [negb].
  { intros [= <- <-]. eapply installed_refused; [done| |done]. rewrite <- Hg. apply with_gate_same. }
  destruct (body ids' r (with_gate true s)) as [o s1] eqn:Eb. intros [= <- <-].
  eapply (installed_ran body ids s _ _ ids' r); rewrite ?Eb; try done.
  - unfold admissible. rewrite Hids. apply Forall_forall. intros id Hin.
    rewrite list_elem_of_In, filter_In, <- list_elem_of_In in Hin. destruct Hin as [Hin Hneg].
    apply negb_true_iff in Hneg. split; [by apply Hde|done].
  - rewrite Hids. apply filter_sublist.
Qed.

Lemma Install_cases m ctx ids progress s out s' :
  Install m ctx ids progress s = (out, s') -> installed_as (bodyOf m progress) ids s out s'.
Proof. rewrite Install_guarded. apply guardedInstall_cases. Qed.

Lemma sublist_omap {A B} (f : A -> option B) (l k : list A) :
  l `sublist_of` k -> omap f l `sublist_of` omap f k.
Proof.
  induction 1 as [|x l k _ IH|x l k _ IH]; cbn; [done| |]; destruct (f x); by constructor || done.
Qed.

(** The part of a body's run that the theorems below use. *)
Lemma body_result m ids ids' progress r s :
  admissible ids ids' ->
  let run := bodyOf m progress ids' r (with_gate true s) in
  reported m ids' r (with_gate true s) run.1 run.2 /\ ms_gate run.2 = true /\
  exists new, ms_log run.2 = ms_log s ++ new /\ Forall (allowed m ids (Scan m (with_gate true s)).1) new.
Proof.
  intros Had. destruct (body_runs m ids progress ids' r (with_gate true s) Had) as (new & L & F & G & R).
  cbn zeta. split_and!; [done|done|]. by exists new.
Qed.

(** C2: An install runs nothing but what was approved.  Whatever the host
    answers, every command an [Install] of any Linux backend starts is a fixed
    query, or the one transaction of that backend with its options fixed, a
    dash-dash, and arguments each of which stands for a requested update that
    the scan made under the gate offers, is not the agent's own package, and
    cannot be read as an option; waits are at most 80 seconds and progress
    stays within 10 and 90 percent. *)
Theorem Install_runs_only_approved (m : manager) (ctx : context) (ids : list bytes) (progress : bool) (s : mstate) :
  exists new, ms_log (Install m ctx ids progress s).2 = ms_log s ++ new /\
    Forall (allowed m ids (Scan m (with_gate true s)).1) new.
Proof.
  destruct (Install m ctx ids progress s) as [out s'] eqn:E. cbn [snd].
  apply Install_cases in E as [e r _ -> _|r _ -> _ _|ids' r _ Had _ _ _ run _ ->];
    try (exists []; by rewrite app_nil_r).
  by destruct (body_result m ids ids' progress r s Had) as (_ & _ & new & ? & ?); exists new.
Qed.

Lemma Install_accounts (m : manager) (ctx : context) (ids : list bytes) (progress : bool)
    (s : mstate) (r : InstallResult) (s' : mstate) :
  NoDup (omap (keyOf m) (dedupeIDs ids)) ->
  Install m ctx ids progress s = ((r, None), s') ->
  forall id, id ∈ ids -> id ≠ [] -> id ∈ Installed r \/ is_Some (Failed r !! id).
Proof.
  intros Hnd E id Hid Hne. destruct (dedupeIDs_spec ids) as (_ & Hde & _).
  assert (Hd : id ∈ dedupeIDs ids) by by apply Hde.
  apply Install_cases in E as [e r' ? _ _|r' [= <-] _ _ Ha|ids' r' _ Had _ Hcov Hsub run Ho _]; [done|by apply Ha|].
  destruct (body_result m ids ids' progress r' s Had) as ((He & _ & Hacc) & _). fold run in He, Hacc.
  rewrite <- Ho in He, Hacc. cbn in He, Hacc.
  destruct (Hcov id Hd) as [Hin|[e Hf]]; [|right; exists e; by apply He].
  apply Hacc; [done| |done]. eapply sublist_NoDup; [exact Hnd|]. by apply sublist_omap.
Qed.

(** C22: A nil error accounts for every update.  When [Install] returns without
    error and no two requested ids share the key their backend files them
    under (the package name; for dnf the nvra), each id that is not empty is
    reported installed or failed. *)
Theorem Install_accounts_for_every_id (m : manager) (ctx : context) (ids : list bytes) (progress : bool)
    (s : mstate) (r : InstallResult) (s' : mstate) :
  NoDup (omap (keyOf m) (dedupeIDs ids)) ->
  Install m ctx ids progress s = ((r, None), s') ->
  forall id, id ∈ ids -> id ≠ [] -> id ∈ Installed r \/ is_Some (Failed r !! id).
Proof. apply Install_accounts. Qed.

(** What is reported installed is installed.  An id in [Installed] was asked
    for, and after this call's transaction the package database, asked, had
    it: dpkg at exactly the approved version, rpm as exactly the approved nvra
    (with or without its zero epoch) unless the host has no rpm, pacman at some
    version. *)
Theorem Install_reports_only_what_landed (m : manager) (ctx : context) (ids : list bytes) (progress : bool)
    (s : mstate) (id : bytes) :
  id ∈ Installed (Install m ctx ids progress s).1.1 ->
  id ∈ ids /\ verified m s (Install m ctx ids progress s).2 id.
Proof.
  destruct (Install m ctx ids progress s) as [out s'] eqn:E. cbn [fst snd].
  apply Install_cases in E as [e r -> _ Hi|r -> _ Hi _|ids' r _ Had Hi _ _ run -> ->];
    [cbn; rewrite Hi; by intros ?%not_elem_of_nil..|].
  destruct (body_result m ids ids' progress r s Had) as ((_ & Hv & _) & _). fold run in Hv.
  intros [Hin|[Hin Hver]]%Hv; [rewrite Hi in Hin; by apply not_elem_of_nil in Hin|].
  unfold admissible in Had. rewrite Forall_forall in Had. split; [by apply Had|exact Hver].
Qed.

(** One install at a time.  An [Install] that finds the gate held runs
    nothing and installs nothing; any other gives the gate back, whichever way
    it ends. *)
Theorem Install_gate (m : manager) (ctx : context) (ids : list bytes) (progress : bool) (s : mstate) :
  let '(out, s') := Install m ctx ids progress s in
  ms_gate s' = ms_gate s /\ (ms_gate s = true -> s' = s /\ Installed out.1 = []).
Proof.
  destruct (Install m ctx ids progress s) as [out s'] eqn:E.
  by apply Install_cases in E as [e r -> -> Hi|r -> -> Hi _|ids' r Hg _ _ _ _ run -> ->]; rewrite ?Hg.
Qed.

(** ** Termination *)

(** Waiting out the lock from time [now]: with [n] runs left the waits still to
    come would pass the deadline. *)
Fixpoint budget (n : nat) (backoff : Z) : Z :=
  match n with
  | O => 0
  | S n' => backoff + budget n' (if backoff <? Minute then 2 * backoff else backoff)
  end.

Lemma runCmd_time opts onLine name args s : ms_now s <= ms_now (runCmd opts onLine name args s).2.
Proof. unfold runCmd. destruct (if opt_Scope opts then _ else _). cbn. lia. Qed.

Lemma runInstallLoop_returns n progress total deadline backoff args s :
  deadline < ms_now s + budget n backoff ->
  (runInstallLoop (S n) progress total deadline backoff args s).1 ≠ None.
Proof.
  revert backoff s. induction n as [|n IH]; intros backoff s Hd; cbn [runInstallLoop]; unfold mbind at 1;
    pose proof (runCmd_time transaction (aptOnLine progress total) aptGet args s) as Ht;
    destruct (runCmd _ _ _ _ s) as [res s1]; cbn [snd] in Ht;
    (destruct (cmd_ok res); [done|]; destruct (cr_Err res); [done|]; destruct (negb _); [done|];
     unfold mbind at 1, gets at 1; cbn [budget] in Hd; destruct (Z.ltb_spec deadline (ms_now s1)); [done|]).
  - lia.
  - unfold mbind at 1, sleepCtx. destruct (h_wake (ms_log s1) backoff); [done|].
    apply IH. cbn [ms_now logged passed]. lia.
Qed.

(** More fuel changes nothing once the loop returned. *)
Lemma runInstallLoop_fuel n k progress total deadline backoff args s :
  (runInstallLoop n progress total deadline backoff args s).1 ≠ None ->
  runInstallLoop (n + k) progress total deadline backoff args s =
  runInstallLoop n progress total deadline backoff args s.
Proof.
  revert backoff s. induction n as [|n IH]; intros backoff s; [done|].
  cbn [Nat.add runInstallLoop]. unfold mbind. destruct (runCmd _ _ _ _ s) as [res s1].
  destruct (cmd_ok res); [done|]. destruct (cr_Err res); [done|]. destruct (negb _); [done|].
  cbn. destruct (deadline <? ms_now s1); [done|]. destruct (sleepCtx backoff s1) as [[e|] s2]; [done|]. apply IH.
Qed.

(** C23: Waiting for the dpkg lock ends.  The loop of [runInstall], which has no
    counter, returns after at most eleven runs of apt-get whatever the host
    does: with eleven rounds of fuel it has an outcome, and more fuel gives the
    same one. *)
Theorem runInstall_terminates (progress : bool) (total : Z) (args : list bytes) (s : mstate) (k : nat) :
  is_Some (runInstallLoop runInstallFuel progress total (ms_now s + aptLockBudget) (10 * Second) args s).1 /\
  runInstallLoop (runInstallFuel + k) progress total (ms_now s + aptLockBudget) (10 * Second) args s =
  runInstallLoop runInstallFuel progress total (ms_now s + aptLockBudget) (10 * Second) args s.
Proof.
  assert (Hr : (runInstallLoop 11 progress total (ms_now s + aptLockBudget) (10 * Second) args s).1 ≠ None).
  { apply runInstallLoop_returns. change (budget 10 (10 * Second)) with (630 * Second).
    unfold aptLockBudget, Minute, Second. lia. }
  split; [by apply not_eq_None_Some|by apply runInstallLoop_fuel].
Qed.
End host.

(** ** A host *)

Definition quietReply (lines : list bytes) : reply := Exited lines [] WaitOK None.

(** A host that prints [out argv] for each command, at once. *)
Definition scriptedHost (out : list bytes -> list bytes) : Host := {|
  h_reply := fun _ argv => quietReply (out argv);
  h_took := fun _ => 0%N;
  h_wake := fun _ _ => None;
  h_look := fun _ _ => None;
  h_stat := fun _ _ => Some ErrNotExist;
  h_uname := fun _ => Ok (str "6.1.0");
  h_euid := 0;
  h_environ := [];
  h_arm64 := false;
  h_range := fun _ l => l;
  h_range_perm := fun _ l => Permutation_refl l;
|}.

(** apt with one pending update, which it installs. *)
Definition aptHost : Host := scriptedHost (fun argv =>
  if bool_decide (str "-s" ∈ argv) then [renderInst demoInst]
  else if bool_decide (head argv = Some (str "dpkg-query"))
  then [str "openssl" ++ [chr 9] ++ str "3.0.2-0ubuntu1.18"] else []).

(** pacman with a pending kernel, which it installs. *)
Definition pacmanHost : Host := scriptedHost (fun argv =>
  if bool_decide (str "-Qu" ∈ argv) then [str "linux 6.1-1 -> 6.2-1"]
  else if bool_decide (argv = [pacman; str "-Q"]) then [str "linux 6.1-1"]
  else if bool_decide (str "-Q" ∈ argv) then [str "linux 6.2-1"] else []).

Definition idle : mstate := MState 0 [] false false.
Definition forever : context := {| ctx_deadline := None |}.
Definition opensslID : bytes := str "openssl=3.0.2-0ubuntu1.18".

Lemma Install_accounts_for_every_id_witness :
  exists r s', @Install aptHost APT forever [opensslID; str "bash=5"] true idle = ((r, None), s') /\
  (str "bash=5" ∈ Installed r \/ is_Some (Failed r !! str "bash=5")).
Proof.
  eexists _, _. split; [vm_compute; reflexivity|].
  refine (@Install_accounts_for_every_id aptHost APT forever [opensslID; str "bash=5"] true idle _ _ _ _ _ _ _).
  - vm_compute. repeat constructor; rewrite ?elem_of_cons, ?elem_of_nil; intuition discriminate.
  - vm_compute. reflexivity.
  - right. left.
  - discriminate.
Defined.

Lemma Install_reports_only_what_landed_witness :
  opensslID ∈ Installed (@Install aptHost APT forever [opensslID] true idle).1.1 /\
  @verified aptHost APT idle (@Install aptHost APT forever [opensslID] true idle).2 opensslID.
Proof.
  assert (Hin : opensslID ∈ Installed (@Install aptHost APT forever [opensslID] true idle).1.1).
  { apply (bool_decide_unpack _). vm_compute. exact I. }
  split; [exact Hin|]. exact (proj2 (@Install_reports_only_what_landed aptHost APT forever [opensslID] true idle opensslID Hin)).
Defined.

(** A second approval of the same package disappears.  [pacmanInstallPlan]
    skips an id whose package it already has, and nothing records it: asked for
    two versions of the kernel, pacman's [Install] returns without error and
    says nothing of one of them. *)
Theorem pacman_drops_the_second_id :
  let ids := [str "linux=6.1-2"; str "linux=6.2-1"] in
  let '((r, err), _) := @Install pacmanHost Pacman forever ids true idle in
  err = None /\ Installed r = [str "linux=6.1-2"] /\ Failed r !! str "linux=6.2-1" = None.
Proof. vm_compute. done. Qed.
