(* ===== verification/SoftwareUpdate.v ===== *)
(** * SoftwareUpdate: the macOS backend (softwareupdate_parse.go,
    softwareupdate_darwin.go)

    The listing is read block by block; what a block is decides whether the
    agent may install it.  [installLabels] is the loop of [Install]. *)
From S2P Require Import Prelude GoLib GoText GoOS Env Patch PatchParse PatchPlan PatchRun PatchInstall.

(** ** softwareupdate_parse.go *)

Record macOSHost := { AppleSilicon : bool; MajorVersion : Z }.

Record suBlock := { sb_Label : bytes; sb_Attrs : gmap bytes bytes }.

Definition detailAppleSilicon : bytes := str "requires MDM or a local admin session".
Definition detailMajorUpgrade : bytes := str "major macOS upgrades are not installed by the agent".

Definition cutSoftwareUpdateLabel (line : bytes) : option bytes :=
  match CutPrefix line (str "* Label:") with
  | Some rest => Some (TrimSpace rest)
  | None => match CutPrefix line (str "*Label:") with Some rest => Some (TrimSpace rest) | None => None end
  end.

(** One fragment of an attribute line; the state is the map and [lastKey]. *)
Definition attrFragment (acc : gmap bytes bytes * bytes) (frag : bytes) : gmap bytes bytes * bytes :=
  let '(attrs, lastKey) := acc in
  let frag := TrimSpace (TrimSuffix (TrimSpace frag) (str ",")) in
  let extend :=
    if bool_decide (lastKey = []) then acc
    else (<[lastKey := default [] (attrs !! lastKey) ++ str ", " ++ frag]> attrs, lastKey) in
  if bool_decide (frag = []) then acc
  else
    match Cut (str ": ") frag with
    | None => extend
    | Some (key, value) =>
        if ContainsAny key [sp; chr 9] && negb (bool_decide (lastKey = [])) then extend
        else let key := TrimSpace key in (<[key := TrimSpace value]> attrs, key)
    end.

Definition parseSoftwareUpdateAttrs (line : bytes) : gmap bytes bytes :=
  (fold_left attrFragment (SplitStr (str ", ") line) (∅, [])).1.

(** The state of [splitSoftwareUpdateBlocks]. *)
Record splitState := {
  ss_cur : option suBlock;
  ss_blocks : list suBlock;
  ss_degraded : list bytes;
}.

Definition flush (st : splitState) : splitState :=
  match ss_cur st with
  | None => st
  | Some b =>
      if bool_decide (sb_Attrs b = ∅)
      then {| ss_cur := None; ss_blocks := ss_blocks st; ss_degraded := ss_degraded st ++ [sb_Label b] |}
      else {| ss_cur := None; ss_blocks := ss_blocks st ++ [b]; ss_degraded := ss_degraded st |}
  end.

Definition splitLine (st : splitState) (raw : bytes) : splitState :=
  let line := TrimRight [cr; nl] raw in
  let trimmed := TrimSpace line in
  if bool_decide (trimmed = []) then st
  else
    match cutSoftwareUpdateLabel trimmed with
    | Some label =>
        let st := flush st in
        if bool_decide (label = [])
        then {| ss_cur := ss_cur st; ss_blocks := ss_blocks st;
                ss_degraded := ss_degraded st ++ [str "(empty label)"] |}
        else {| ss_cur := Some {| sb_Label := label; sb_Attrs := ∅ |}; ss_blocks := ss_blocks st;
                ss_degraded := ss_degraded st |}
    | None =>
        match ss_cur st with
        | None => st
        | Some b =>
            if bool_decide (line = trimmed) then flush st
            else {| ss_cur := Some {| sb_Label := sb_Label b;
                                      sb_Attrs := parseSoftwareUpdateAttrs trimmed ∪ sb_Attrs b |};
                    ss_blocks := ss_blocks st; ss_degraded := ss_degraded st |}
        end
    end.

Definition splitSoftwareUpdateBlocks (out : bytes) : list suBlock * list bytes :=
  let st := flush (fold_left splitLine (Lines out) {| ss_cur := None; ss_blocks := []; ss_degraded := [] |}) in
  (ss_blocks st, ss_degraded st).

Definition macOSDefinitionPrefixes : list bytes :=
  map str ["XProtect"; "MRTConfigData"; "Gatekeeper"; "ConfigData"; "XProtectPlistConfigData"]%string.

Definition isMajorMacOSUpgrade (version : bytes) (runningMajor : Z) : bool :=
  if runningMajor <=? 0 then true
  else match Atoi (TrimSpace (before (str ".") version)) with
       | None => true
       | Some major => runningMajor <? major
       end.

Definition isOS (label title : bytes) : bool :=
  HasPrefix label (str "macOS ") || HasPrefix title (str "macOS ").

Definition classifySoftwareUpdate (label title version : bytes) (host : macOSHost) : bytes * bool * bytes :=
  let lowLabel := ToLower label in
  let lowTitle := ToLower title in
  if existsb (HasPrefix label) macOSDefinitionPrefixes then (KindDefinition, false, [])
  else
    let kind :=
      if Contains lowTitle (str "security response") || Contains lowTitle (str "security update") ||
         Contains lowLabel (str "securityupd") then KindSecurity
      else if HasPrefix lowLabel (str "safari") || HasPrefix lowTitle (str "safari") then KindSecurity
      else if isOS label title then KindSecurity else KindOther in
    if negb (isOS label title) then (kind, false, [])
    else if isMajorMacOSUpgrade version (MajorVersion host) then (KindFeature, true, detailMajorUpgrade)
    else if AppleSilicon host then (kind, true, detailAppleSilicon)
    else (kind, false, []).

Definition sizeUnits : list (bytes * Z) :=
  [(str "KiB", 1024); (str "MiB", 1024 * 1024); (str "GiB", 1024 * 1024 * 1024);
   (str "KB", 1024); (str "MB", 1024 * 1024); (str "GB", 1024 * 1024 * 1024);
   (str "K", 1024); (str "M", 1024 * 1024); (str "G", 1024 * 1024 * 1024); (str "B", 1)].

Section macos.
Context {H : Host}.

(** [int64(f * float64(mult))] for the [f >= 0] that [strconv.ParseFloat] reads
    in [digits]: the one use of floating point, for a size that is displayed. *)
Context (floatSize : bytes -> Z -> option Z).

Definition parseSizeDigits (digits : bytes) (mult : Z) : Z :=
  match ParseInt digits with
  | Some n => wrap64 (n * mult)
  | None => default 0 (floatSize digits mult)
  end.

Fixpoint sizeBySuffix (units : list (bytes * Z)) (field : bytes) : Z :=
  match units with
  | [] => parseSizeDigits field 1
  | (suffix, mult) :: units' =>
      match CutSuffix field suffix with
      | Some digits => parseSizeDigits (TrimSpace digits) mult
      | None => sizeBySuffix units' field
      end
  end.

Definition parseSoftwareUpdateSize (field : bytes) : Z :=
  let field := TrimSpace field in
  if bool_decide (field = []) then 0 else sizeBySuffix sizeUnits field.

Definition attr (b : suBlock) (k : bytes) : bytes := default [] (sb_Attrs b !! k).

Definition su_update (host : macOSHost) (b : suBlock) : option Update :=
  if bool_decide (sb_Label b = []) || bool_decide (sb_Attrs b = ∅) then None
  else
    let title := attr b (str "Title") in
    let version := attr b (str "Version") in
    let title := if bool_decide (title = []) then sb_Label b else title in
    let title := if negb (bool_decide (version = [])) && negb (Contains title version)
                 then title ++ [sp] ++ version else title in
    let '(kind, unsupported, detail) := classifySoftwareUpdate (sb_Label b) title version host in
    Some {| u_ID := sb_Label b; u_Title := title; u_Kind := kind; u_KBIDs := [];
            u_Severity := SeverityUnknown; u_SizeBytes := parseSoftwareUpdateSize (attr b (str "Size"));
            u_RebootLikely := EqualFold (attr b (str "Action")) (str "restart");
            u_Unsupported := unsupported; u_Detail := detail |}.

Definition parseSoftwareUpdateList (out : bytes) (host : macOSHost) : list Update * list bytes :=
  let '(blocks, bad) := splitSoftwareUpdateBlocks out in
  (omap (su_update host) blocks,
   bad ++ map sb_Label (List.filter (fun b => bool_decide (su_update host b = None)) blocks)).

Definition parseSWVersMajor (out : bytes) : Z :=
  match Atoi (before (str ".") (TrimSpace out)) with
  | Some major => if major <=? 0 then 0 else major
  | None => 0
  end.

Definition softwareUpdateFailureMarkers : list bytes :=
  map str ["failed to install"; "could not be installed"; "an error occurred"; "not authorized";
           "authentication is required"; "must be run as root"; "no such update";
           "update not found"]%string.
Definition softwareUpdateInstallFailed (text : bytes) : bool := marked softwareUpdateFailureMarkers text.

(** ** softwareupdate_darwin.go *)

Definition softwareupdate : bytes := str "softwareupdate".

Definition hostOf : M macOSHost :=
  do* res := runCmd plainRun noLine (str "sw_vers") [str "-productVersion"] in
  mret {| AppleSilicon := h_arm64;
          MajorVersion := if cmd_ok res then parseSWVersMajor (cr_Stdout res) else 0 |}.

Definition su_Scan : M (res error (list Update)) :=
  do* res := runCmd plainRun noLine softwareupdate [str "--list"] in
  match cr_Err res with
  | Some e => mret (Err (Errorf "softwareupdate --list" e))
  | None =>
      do* host := hostOf in
      let '(updates, _) := parseSoftwareUpdateList (cr_Stdout res ++ [nl] ++ cr_Stderr res) host in
      mret (if bool_decide (updates = []) && negb (cr_ExitCode res =? 0) &&
               negb (Contains (combined res) (str "No new software"))
            then Err (Sentinel "softwareupdate --list exited") else Ok updates)
  end.

Definition letFinish : execOptions := {| opt_Scope := false; opt_LetFinish := true |}.

(** [byID]: a later update with the same label wins. *)
Definition byID (available : list Update) : gmap bytes Update :=
  fold_left (fun m u => <[u_ID u := u]> m) available ∅.

Definition labelProgress (id phase : bytes) (i total : Z) : InstallProgress :=
  {| ip_UpdateID := id; ip_Phase := phase; ip_Pct := pctOf i total |}.

(** The loop over the ids from index [i]; the state is the result and
    [restartNeeded]. *)
Fixpoint installLabels (progress : bool) (known : gmap bytes Update) (total i : Z) (ids : list bytes)
    (st : InstallResult * bool) : M (InstallResult * bool) :=
  match ids with
  | [] => mret st
  | id :: ids' =>
      let '(r, restart) := st in
      match known !! id with
      | None =>
          installLabels progress known total (i + 1) ids'
            (fail id (Sentinel "update is no longer offered by softwareupdate") r, restart)
      | Some u =>
          if u_Unsupported u
          then installLabels progress known total (i + 1) ids' (fail id (Sentinel "unsupported") r, restart)
          else
            do* _ := emitProgress progress (labelProgress id PhaseDownload i total) in
            do* out := runCmd letFinish
                         (fun seen _ => (seen, tick progress (labelProgress id PhaseInstall i total)))
                         softwareupdate [str "--install"; id; str "--no-restart"] in
            let st :=
              match cr_Err out with
              | Some e => (fail id (Errorf "softwareupdate --install" e) r, restart)
              | None =>
                  if negb (cr_ExitCode out =? 0) then (fail id (Sentinel "softwareupdate --install exited") r, restart)
                  else if softwareUpdateInstallFailed (combined out)
                  then (fail id (Sentinel "softwareupdate failed") r, restart)
                  else (installedOne id r, restart || u_RebootLikely u)
              end in
            installLabels progress known total (i + 1) ids' st
      end
  end.

Definition su_body (progress : bool) (ids : list bytes) (r : InstallResult) : M (InstallResult * option error) :=
  do* available := su_Scan in
  match available with
  | Err e => mret (r, Some e)
  | Ok available =>
      do* st := installLabels progress (byID available) (Z.of_nat (length ids)) 0 ids (r, false) in
      let '(r, restart) := st in
      do* _ := (if (restart : bool) then modify (with_pending true) else mret tt) in
      mret (setReboot restart r, None)
  end.

Definition su_Install (ctx : context) (ids : list bytes) (progress : bool) : M (InstallResult * option error) :=
  guardedInstall ctx ids (su_body progress).

Definition su_RebootRequired : M (res error bool) := do* b := gets ms_rebootPending in mret (Ok b).
End macos.

(** ** What the classification protects *)

(** The version of the running system must be known and not smaller. *)
Lemma classify_os label title version host :
  HasPrefix label (str "macOS ") = true ->
  (classifySoftwareUpdate label title version host).1.2 = false ->
  AppleSilicon host = false /\ 0 < MajorVersion host /\
  exists major, Atoi (TrimSpace (before (str ".") version)) = Some major /\ major <= MajorVersion host.
Proof.
  intros Hp. unfold classifySoftwareUpdate.
  assert (Hd : existsb (HasPrefix label) macOSDefinitionPrefixes = false).
  { apply HasPrefix_spec in Hp as [r ->]. reflexivity. }
  unfold isOS. rewrite Hd, Hp. cbn [orb negb]. unfold isMajorMacOSUpgrade.
  destruct (Z.leb_spec (MajorVersion host) 0); [done|].
  destruct (Atoi _) as [major|]; [|done]. destruct (Z.ltb_spec (MajorVersion host) major); [done|].
  destruct (AppleSilicon host); [done|]. eauto.
Qed.

Section macos_theorems.
Context {H : Host} (floatSize : bytes -> Z -> option Z).
Local Abbreviation su_update := (su_update floatSize).
Local Abbreviation su_Scan := (su_Scan floatSize).
Local Abbreviation su_body := (su_body floatSize).
Local Abbreviation su_Install := (su_Install floatSize).

Lemma su_update_Some host b u :
  su_update host b = Some u ->
  u_ID u = sb_Label b /\
  exists title version, u_Unsupported u = (classifySoftwareUpdate (sb_Label b) title version host).1.2.
Proof.
  unfold SoftwareUpdate.su_update. destruct (_ || _); [done|]. cbn zeta.
  destruct (classifySoftwareUpdate _ _ _ host) as [[k un] d] eqn:E. intros [= <-]. cbn.
  split; [done|]. eexists _, _. by rewrite E.
Qed.

Lemma byID_Some us id u : byID us !! id = Some u -> u ∈ us /\ u_ID u = id.
Proof.
  unfold byID. revert id u. apply (fold_left_inv (fun done (m : gmap bytes Update) =>
    forall id u, m !! id = Some u -> u ∈ done /\ u_ID u = id)).
  { intros id u. by rewrite lookup_empty. }
  intros done x todo m _ Hm id u. destruct (decide (u_ID x = id)) as [<-|Hne].
  - rewrite lookup_insert_eq. intros [= <-]. set_solver.
  - rewrite lookup_insert_ne by done. intros (? & ?)%Hm. set_solver.
Qed.

(** The commands and what each install of a label needs. *)
Inductive suAllowed (ids : list bytes) (scan : res error (list Update)) : event -> Prop :=
  | su_list : suAllowed ids scan (Ran [softwareupdate; str "--list"] pkgEnv)
  | su_vers : suAllowed ids scan (Ran [str "sw_vers"; str "-productVersion"] pkgEnv)
  | su_install us u id :
      scan = Ok us -> u ∈ us -> u_ID u = id -> u_Unsupported u = false ->
      id ∈ ids -> isSelfPackage id = false ->
      suAllowed ids scan (Ran [softwareupdate; str "--install"; id; str "--no-restart"] pkgEnv)
  | su_tick p : 10 <= ip_Pct p <= 90 -> suAllowed ids scan (Ticked p).

Definition evArgv (e : event) : list bytes := match e with Ran argv _ => argv | _ => [] end.

Lemma suAllowed_install ids scan id env :
  suAllowed ids scan (Ran [softwareupdate; str "--install"; id; str "--no-restart"] env) ->
  exists us u, scan = Ok us /\ u ∈ us /\ u_ID u = id /\ u_Unsupported u = false /\ id ∈ ids.
Proof.
  intros Hal. remember (Ran _ env) as e eqn:E. destruct Hal as [| |us u i Hs Hu Huid Hun Hids Hself|p Hp].
  - by apply (f_equal (fun e => length (evArgv e))) in E.
  - by apply (f_equal (fun e => length (evArgv e))) in E.
  - apply (f_equal (fun e => nth 2 (evArgv e) [])) in E. cbn [evArgv nth] in E. subst i. eauto 10.
  - by apply (f_equal (fun e => length (evArgv e))) in E.
Qed.

Lemma su_Scan_runs ids scan s : runs (suAllowed ids scan) su_Scan (fun a _ => a = (su_Scan s).1) s.
Proof.
  eapply runs_mono; [done| |apply (runs_self _ _ (fun _ _ => True))]; [by intros a s' _ [_ ->]|].
  unfold SoftwareUpdate.su_Scan. apply runs_bind, runs_query; [apply su_list|]. intros s' res _ _.
  destruct (cr_Err res); [by apply runs_ret|]. apply runs_bind. unfold hostOf.
  apply runs_bind, runs_query; [apply su_vers|]. intros s'' res' _ _. apply runs_ret.
  destruct (parseSoftwareUpdateList _ _ _). by apply runs_ret.
Qed.

Lemma runs_emit (ok : event -> Prop) progress p (Q : unit -> mstate -> Prop) s :
  ok (Ticked p) -> (forall s', Q tt s') -> runs ok (emitProgress progress p) Q s.
Proof.
  intros Hok HQ. unfold runs, emitProgress. destruct progress; cbn.
  - exists [Ticked p]. split_and!; [done|by repeat constructor|done|apply HQ].
  - exists []. rewrite app_nil_r. split_and!; [done|constructor|done|apply HQ].
Qed.

Lemma labelTicks_range progress p seen lines q :
  10 <= ip_Pct p <= 90 -> q ∈ ticksOf (fun seen _ => (seen, tick progress p)) seen lines -> 10 <= ip_Pct q <= 90.
Proof.
  intros Hp. induction lines as [|l lines IH]; cbn; [by intros ?%not_elem_of_nil|].
  unfold tick in *. destruct progress; [|done]. intros [->|?]%elem_of_cons; auto.
Qed.

(** The outcome of one label is an outcome for its id. *)
Lemma installLabels_runs ids0 us progress total i ids st s :
  0 <= i -> admissible ids0 ids ->
  runs (suAllowed ids0 (Ok us)) (installLabels progress (byID us) total i ids st)
    (fun st' _ => extends st.1 st'.1 /\ accounted ids st'.1) s.
Proof.
  intros Hi Had. revert i st s Hi. induction Had as [|id ids [Hid Hself] Had IH]; intros i [r restart] s Hi.
  { apply runs_ret. split; [done|]. by intros ? ?%not_elem_of_nil. }
  assert (Hstep : forall r' b s0, extends r r' -> accounted [id] r' ->
    runs (suAllowed ids0 (Ok us)) (installLabels progress (byID us) total (i + 1) ids (r', b))
      (fun st' _ => extends r st'.1 /\ accounted (id :: ids) st'.1) s0).
  { intros r' b s0 He Ha. eapply runs_mono; [done| |apply (IH (i + 1) (r', b)); lia].
    cbn. intros [r2 b2] s2 _ [He2 Ha2]. cbn in *. split; [by etrans|].
    intros x [->|Hx]%elem_of_cons; [|by apply Ha2]. eapply accounted_extends; [exact Ha|exact He2|by left]. }
  assert (Hfail : forall e, accounted [id] (fail id e r)).
  { intros e x ->%list_elem_of_singleton. right. apply fail_records. }
  cbn [installLabels fst]. destruct (byID us !! id) as [u|] eqn:Eu; [|apply Hstep; [apply fail_extends|apply Hfail]].
  apply byID_Some in Eu as [Hu Huid].
  destruct (u_Unsupported u) eqn:Hun; [apply Hstep; [apply fail_extends|apply Hfail]|].
  assert (Hpct : forall ph, 10 <= ip_Pct (labelProgress id ph i total) <= 90) by (intros; by apply pctOf_range).
  apply runs_bind, runs_emit; [apply su_tick, Hpct|]. intros s1. apply runs_bind, runs_runCmd.
  - by eapply su_install.
  - intros seen lines p _ Hp. apply su_tick. by eapply labelTicks_range.
  - intros s2 _ _. set (res := outcomeOf _ _ _). cbn zeta.
    destruct (cr_Err res); [apply Hstep; [apply fail_extends|apply Hfail]|].
    destruct (negb _); [apply Hstep; [apply fail_extends|apply Hfail]|].
    destruct (softwareUpdateInstallFailed _); [apply Hstep; [apply fail_extends|apply Hfail]|].
    apply Hstep; [split; cbn; [set_solver|done]|]. intros x ->%list_elem_of_singleton. left. cbn. set_solver.
Qed.

Lemma su_body_runs ids0 progress ids r s :
  admissible ids0 ids ->
  runs (suAllowed ids0 (su_Scan s).1) (su_body progress ids r)
    (fun out _ => extends r out.1 /\ (out.2 = None -> accounted ids out.1)) s.
Proof.
  intros Had. unfold SoftwareUpdate.su_body. apply runs_bind.
  eapply runs_mono; [done| |apply su_Scan_runs]. intros a s1 _ ->.
  destruct (su_Scan s).1 as [us|e]; [|by apply runs_ret].
  apply runs_bind. eapply runs_mono; [done| |apply installLabels_runs; [lia|exact Had]].
  intros [r' b] s2 _ [He Ha]. cbn in He, Ha. apply runs_bind. exists []. rewrite app_nil_r.
  assert (Q : forall s3, runs (suAllowed ids0 (Ok us)) (mret (setReboot b r', @None error))
    (fun out _ => extends r out.1 /\ (out.2 = None -> accounted ids out.1)) s3).
  { intros s3. apply runs_ret. cbn. split; [by etrans; [|apply setReboot_extends]|]. intros _.
    eapply accounted_extends; [exact Ha|apply setReboot_extends]. }
  destruct b; (split_and!; [done|constructor|done|apply Q]).
Qed.

Lemma su_body_result ids ids' progress r s :
  admissible ids ids' ->
  let run := su_body progress ids' r (with_gate true s) in
  (extends r run.1.1 /\ (run.1.2 = None -> accounted ids' run.1.1)) /\
  exists new, ms_log run.2 = ms_log s ++ new /\ Forall (suAllowed ids (su_Scan (with_gate true s)).1) new.
Proof.
  intros Had. destruct (su_body_runs ids progress ids' r (with_gate true s) Had) as (new & L & F & _ & R).
  cbn zeta. split; [done|]. by exists new.
Qed.

Lemma su_Install_allowed ctx ids progress s :
  exists new, ms_log (su_Install ctx ids progress s).2 = ms_log s ++ new /\
    Forall (suAllowed ids (su_Scan (with_gate true s)).1) new.
Proof.
  destruct (su_Install ctx ids progress s) as [out s'] eqn:E. cbn [snd].
  apply guardedInstall_cases in E as [e r _ -> _|r _ -> _ _|ids' r _ Had _ _ _ run _ ->];
    try (exists []; by rewrite app_nil_r).
  by destruct (su_body_result ids ids' progress r s Had) as (_ & new & ? & ?); exists new.
Qed.

(** Whether the scan may offer an OS update, read off the listing's host. *)
Lemma su_Scan_os s us u :
  (su_Scan s).1 = Ok us -> u ∈ us -> u_Unsupported u = false -> HasPrefix (u_ID u) (str "macOS ") = true ->
  h_arm64 = false /\ exists h version major,
    0 < parseSWVersMajor (printed h (str "sw_vers") [str "-productVersion"]) /\
    Atoi (TrimSpace (before (str ".") version)) = Some major /\
    major <= parseSWVersMajor (printed h (str "sw_vers") [str "-productVersion"]).
Proof.
  unfold SoftwareUpdate.su_Scan, mbind at 1. destruct (runCmd _ _ _ _ s) as [res s1].
  destruct (cr_Err res); [done|]. unfold mbind at 1, hostOf. unfold mbind at 1. cbn -[parseSoftwareUpdateList].
  set (r2 := outcomeOf _ _ _). set (major := parseSWVersMajor (cr_Stdout r2)).
  set (host := Build_macOSHost _ _). unfold parseSoftwareUpdateList.
  destruct (splitSoftwareUpdateBlocks _) as [blocks bad]. destruct (_ && _ && _); [done|]. cbn.
  intros [= <-] Hu Hun Hp. apply list_elem_of_omap in Hu as (b & _ & Hb).
  apply su_update_Some in Hb as (Hid & title & version & Hc). rewrite Hid in Hp. rewrite Hun in Hc.
  destruct (classify_os _ title version host Hp (eq_sym Hc)) as (Ha & Hm & mj & Hat & Hle).
  split; [exact Ha|]. exists (ms_log s1), version, mj. cbn in Hm, Hle. fold major.
  change (printed (ms_log s1) (str "sw_vers") [str "-productVersion"]) with (cr_Stdout r2). fold major.
  destruct (cmd_ok r2); [done|lia].
Qed.

(** The agent never upgrades macOS itself where it must not.  If an
    [Install] runs softwareupdate for a label that starts with "macOS ", the
    machine is not Apple Silicon, sw_vers printed a version, and the update's
    major version is at most the running one, so it is neither a major upgrade
    nor an update that needs a volume owner; and the label was asked for. *)
Theorem su_never_upgrades_the_system (ctx : context) (ids : list bytes) (progress : bool) (s : mstate)
    (id : bytes) (env : list bytes) :
  let argv := [softwareupdate; str "--install"; id; str "--no-restart"] in
  HasPrefix id (str "macOS ") = true ->
  Ran argv env ∈ drop (length (ms_log s)) (ms_log (su_Install ctx ids progress s).2) ->
  id ∈ ids /\ h_arm64 = false /\ exists h version major,
    0 < parseSWVersMajor (printed h (str "sw_vers") [str "-productVersion"]) /\
    Atoi (TrimSpace (before (str ".") version)) = Some major /\
    major <= parseSWVersMajor (printed h (str "sw_vers") [str "-productVersion"]).
Proof.
  intros argv Hp Hin. destruct (su_Install_allowed ctx ids progress s) as (new & L & F).
  rewrite L, drop_app_length in Hin. rewrite Forall_forall in F. apply F in Hin.
  apply suAllowed_install in Hin as (us & u & Hs & Hu & <- & Hun & Hids).
  split; [done|]. by eapply su_Scan_os.
Qed.

Lemma su_Install_accounts (ctx : context) (ids : list bytes) (progress : bool)
    (s : mstate) (r : InstallResult) (s' : mstate) :
  su_Install ctx ids progress s = ((r, None), s') ->
  forall id, id ∈ ids -> id ≠ [] -> id ∈ Installed r \/ is_Some (Failed r !! id).
Proof.
  intros E id Hid Hne. destruct (dedupeIDs_spec ids) as (_ & Hde & _).
  assert (Hd : id ∈ dedupeIDs ids) by by apply Hde.
  apply guardedInstall_cases in E as [e r' ? _ _|r' [= <-] _ _ Ha|ids' r' _ Had _ Hcov Hsub run Ho _]; [done|by apply Ha|].
  destruct (su_body_result ids ids' progress r' s Had) as ((He & Hacc) & _). fold run in He, Hacc.
  rewrite <- Ho in He, Hacc. cbn in He, Hacc.
  destruct (Hcov id Hd) as [Hin|[e Hf]]; [by apply Hacc|right; exists e; by apply He].
Qed.

(** Softwareupdate's [Install] accounts for every id.  Without error, each
    requested id that is not empty is reported installed or failed. *)
Theorem su_Install_accounts_for_every_id (ctx : context) (ids : list bytes) (progress : bool)
    (s : mstate) (r : InstallResult) (s' : mstate) :
  su_Install ctx ids progress s = ((r, None), s') ->
  forall id, id ∈ ids -> id ≠ [] -> id ∈ Installed r \/ is_Some (Failed r !! id).
Proof. apply su_Install_accounts. Qed.
End macos_theorems.

(** An Intel host on macOS 14 with a point update and a major upgrade pending. *)
Definition intelMac : Host := scriptedHost (fun argv =>
  if bool_decide (str "--list" ∈ argv)
  then [str "* Label: macOS Sonoma 14.5-23F79"; chr 9 :: str "Title: macOS Sonoma 14.5, Version: 14.5, Size: 1024KiB, Action: restart,";
        str "* Label: macOS Sequoia 15.0-24A335"; chr 9 :: str "Title: macOS Sequoia 15.0, Version: 15.0, Size: 6081868KiB,"]
  else if bool_decide (str "-productVersion" ∈ argv) then [str "14.4.1"] else []).
Definition noFloat (_ : bytes) (_ : Z) : option Z := None.
Definition sonoma : bytes := str "macOS Sonoma 14.5-23F79".
Definition sequoia : bytes := str "macOS Sequoia 15.0-24A335".

Lemma su_never_upgrades_the_system_witness :
  Ran [softwareupdate; str "--install"; sonoma; str "--no-restart"] (@pkgEnv intelMac) ∈
    drop 0 (ms_log (@su_Install intelMac noFloat forever [sonoma; sequoia] false idle).2) /\
  sonoma ∈ [sonoma; sequoia].
Proof.
  assert (Hin : Ran [softwareupdate; str "--install"; sonoma; str "--no-restart"] (@pkgEnv intelMac) ∈
    drop 0 (ms_log (@su_Install intelMac noFloat forever [sonoma; sequoia] false idle).2)).
  { apply list_elem_of_In. vm_compute. auto 10. }
  split; [exact Hin|].
  exact (proj1 (@su_never_upgrades_the_system intelMac noFloat forever [sonoma; sequoia] false idle sonoma
    (@pkgEnv intelMac) eq_refl Hin)).
Defined.

Lemma su_Install_accounts_for_every_id_witness :
  exists r s', @su_Install intelMac noFloat forever [sonoma; sequoia] true idle = ((r, None), s') /\
  (sequoia ∈ Installed r \/ is_Some (Failed r !! sequoia)).
Proof.
  eexists _, _. split; [vm_compute; reflexivity|].
  refine (@su_Install_accounts_for_every_id intelMac noFloat forever [sonoma; sequoia] true idle _ _ _ _ _ _).
  - vm_compute. reflexivity.
  - right. left.
  - discriminate.
Defined.
