(* ===== verification/Com.v ===== *)
(** * Com: installs on the COM thread (patch/com.go)

    One thread owns the apartment and runs every call; callers hand it a
    closure over an unbuffered channel and may stop waiting for it.  Calls are
    numbered; a step is a channel operation, a test, or the end of a closure,
    so [creachable] covers every interleaving of callers, contexts and the
    thread.  The contents of an install ([fn]) are a parameter: it returns any
    value (a panic in it is turned into one by [callRecovered]). *)
From S2P Require Import Prelude GoLib GoText GoOS Env Patch PatchParse PatchPlan.

Definition ErrInstallOutcomeUnknown : error := Sentinel "install outcome unknown: the agent stopped waiting (cancelled or past its deadline) while the install was still running on the update thread; it may still complete".

Definition abandonedInstallResult (ids : list bytes) : InstallResult :=
  failAll ids ErrInstallOutcomeUnknown newInstallResult.

(** The value and the error an install brings back. *)
Abbreviation comValue := (InstallResult * option error)%type.

(** [callRecovered]: what the closure returns, or the panic as an error. *)
Inductive callEnd : Type := CallReturns (v : comValue) | CallPanics (msg : error).

Definition callRecovered (c : callEnd) : comValue :=
  match c with
  | CallReturns v => v
  | CallPanics msg => ({| Installed := []; Failed := ∅; RebootRequired := false |}, Some (Errorf "com call panicked" msg))
  end.

Inductive comOutcome : Type :=
  | OBusy                       (** the gate was held *)
  | ONotStarted (e : error)     (** [comNotStarted]: nothing ran *)
  | OCompleted (v : comValue)   (** [comCompleted] *)
  | OAbandoned (e : error).     (** [comAbandoned]: still running *)

(** Where a call of [installViaCOM] is. *)
Inductive phase : Type :=
  | Entered                     (** has the gate; at the tests of [comDo] *)
  | Sending                     (** in the select that offers the closure *)
  | Waiting                     (** in the select that waits for the value *)
  | Unstarted (e : error)       (** [comDo] said [comNotStarted]; about to release *)
  | Returned (o : comOutcome).

Inductive threadState : Type :=
  | Idle                        (** at [range t.reqs] *)
  | Running (i : nat)           (** inside [fn] *)
  | Delivering (i : nat) (v : comValue).  (** gate released; about to send on [done] *)

Record com := {
  c_gate : bool;
  c_thread : threadState;
  c_calls : gmap nat phase;
  c_done : gmap nat comValue;   (** the buffered channels *)
  c_ctx : gmap nat error;       (** contexts that are done *)
  c_ran : list nat;             (** closures the thread has taken, in order *)
}.

Definition com_init : com :=
  {| c_gate := false; c_thread := Idle; c_calls := ∅; c_done := ∅; c_ctx := ∅; c_ran := [] |}.

Definition set_call (i : nat) (p : phase) (c : com) : com :=
  {| c_gate := c_gate c; c_thread := c_thread c; c_calls := <[i := p]> (c_calls c); c_done := c_done c;
     c_ctx := c_ctx c; c_ran := c_ran c |}.
Definition set_gate (b : bool) (c : com) : com :=
  {| c_gate := b; c_thread := c_thread c; c_calls := c_calls c; c_done := c_done c;
     c_ctx := c_ctx c; c_ran := c_ran c |}.
Definition set_thread (t : threadState) (c : com) : com :=
  {| c_gate := c_gate c; c_thread := t; c_calls := c_calls c; c_done := c_done c;
     c_ctx := c_ctx c; c_ran := c_ran c |}.

Inductive comAction : Type :=
  | ACall (i : nat)             (** [gate.acquire()] *)
  | ACheck (i : nat)            (** the tests before the send *)
  | ASend (i : nat)             (** the thread takes the closure *)
  | ASendCtx (i : nat)          (** the context wins the first select *)
  | ARelease (i : nat)          (** the release of [comNotStarted] *)
  | AFinish (c : callEnd)       (** [fn] ends; the deferred release runs *)
  | ADeliver                    (** [done <- ...] *)
  | ARecv (i : nat)             (** a value arrives *)
  | AAbandon (i : nat)          (** the context is done and no value is there *)
  | ACtx (i : nat) (e : error). (** a context ends *)

Section steps.
(** [t.initErr] *)
Context (initErr : option error).

Definition cstep (c : com) (a : comAction) : option com :=
  match a with
  | ACall i =>
      match c_calls c !! i with
      | Some _ => None
      | None => let '(free, gate) := acquire (c_gate c) in
                Some (set_call i (if free then Entered else Returned OBusy) (set_gate gate c))
      end
  | ACheck i =>
      match c_calls c !! i with
      | Some Entered =>
          Some (set_call i
            (match initErr with
             | Some e => Unstarted (Errorf "com initialize" e)
             | None => match c_ctx c !! i with Some e => Unstarted e | None => Sending end
             end) c)
      | _ => None
      end
  | ASend i =>
      match c_calls c !! i, c_thread c with
      | Some Sending, Idle =>
          Some {| c_gate := c_gate c; c_thread := Running i; c_calls := <[i := Waiting]> (c_calls c);
                  c_done := c_done c; c_ctx := c_ctx c; c_ran := c_ran c ++ [i] |}
      | _, _ => None
      end
  | ASendCtx i =>
      match c_calls c !! i, c_ctx c !! i with
      | Some Sending, Some e => Some (set_call i (Unstarted e) c)
      | _, _ => None
      end
  | ARelease i =>
      match c_calls c !! i with
      | Some (Unstarted e) => Some (set_call i (Returned (ONotStarted e)) (set_gate (release (c_gate c)) c))
      | _ => None
      end
  | AFinish e =>
      match c_thread c with
      | Running i => Some (set_thread (Delivering i (callRecovered e)) (set_gate (release (c_gate c)) c))
      | _ => None
      end
  | ADeliver =>
      match c_thread c with
      | Delivering i v =>
          Some {| c_gate := c_gate c; c_thread := Idle; c_calls := c_calls c; c_done := <[i := v]> (c_done c);
                  c_ctx := c_ctx c; c_ran := c_ran c |}
      | _ => None
      end
  | ARecv i =>
      match c_calls c !! i, c_done c !! i with
      | Some Waiting, Some v => Some (set_call i (Returned (OCompleted v)) c)
      | _, _ => None
      end
  | AAbandon i =>
      match c_calls c !! i, c_ctx c !! i, c_done c !! i with
      | Some Waiting, Some e, None => Some (set_call i (Returned (OAbandoned e)) c)
      | _, _, _ => None
      end
  | ACtx i e =>
      match c_ctx c !! i with
      | Some _ => None
      | None => Some {| c_gate := c_gate c; c_thread := c_thread c; c_calls := c_calls c; c_done := c_done c;
                        c_ctx := <[i := e]> (c_ctx c); c_ran := c_ran c |}
      end
  end.

Inductive creachable : com -> Prop :=
  | creach_init : creachable com_init
  | creach_step c a c' : creachable c -> cstep c a = Some c' -> creachable c'.

(** What [installViaCOM] returns for an outcome. *)
Definition installViaCOM (ids : list bytes) (o : comOutcome) : comValue :=
  match o with
  | OBusy => (newInstallResult, Some ErrBusy)
  | ONotStarted e => (newInstallResult, Some e)
  | OCompleted v => v
  | OAbandoned e => (abandonedInstallResult ids, Some e)
  end.

(** ** The invariant *)

(** A call that has the gate and has not handed it to the thread. *)
Definition holds (p : phase) : bool :=
  match p with Entered | Sending | Unstarted _ => true | Waiting | Returned _ => false end.

Definition holder (c : com) (i : nat) : Prop :=
  (exists p, c_calls c !! i = Some p /\ holds p = true) \/ c_thread c = Running i.

(** What each phase says about whether the closure ran. *)
Definition phase_ok (c : com) (i : nat) (p : phase) : Prop :=
  match p with
  | Entered | Sending | Unstarted _ | Returned OBusy | Returned (ONotStarted _) => i ∉ c_ran c
  | Waiting => i ∈ c_ran c /\
      (c_thread c = Running i \/ (exists v, c_thread c = Delivering i v) \/ is_Some (c_done c !! i))
  | Returned (OAbandoned _) => i ∈ c_ran c
  | Returned (OCompleted v) => i ∈ c_ran c /\ c_done c !! i = Some v
  end.

Record com_inv (c : com) : Prop := {
  ci_one : forall i j, holder c i -> holder c j -> i = j;
  ci_gate : c_gate c = true <-> exists i, holder c i;
  ci_phase : forall i p, c_calls c !! i = Some p -> phase_ok c i p;
  ci_ran : NoDup (c_ran c);
  ci_known : forall i, i ∈ c_ran c -> is_Some (c_calls c !! i);
  ci_done : forall i, is_Some (c_done c !! i) -> i ∈ c_ran c;
  ci_running : forall i, c_thread c = Running i -> i ∈ c_ran c /\ c_done c !! i = None;
  ci_delivering : forall i v, c_thread c = Delivering i v -> i ∈ c_ran c /\ c_done c !! i = None;
}.

Lemma holder_set_call c i p j :
  holder (set_call i p c) j <->
  (j = i /\ holds p = true) \/ (j ≠ i /\ exists q, c_calls c !! j = Some q /\ holds q = true) \/ c_thread c = Running j.
Proof.
  unfold holder. cbn. destruct (decide (j = i)) as [->|Hne].
  - rewrite lookup_insert_eq. split.
    + intros [(q & [= <-] & Hq)|?]; auto.
    + intros [[_ Hp]|[[? _]|?]]; [left; eauto|done|auto].
  - rewrite lookup_insert_ne by done. split; [intros [?|?]; auto|]. intros [[? _]|[[_ ?]|?]]; [done|auto|auto].
Qed.

(** The gate half of the invariant. *)
Definition gate_inv (c : com) : Prop :=
  (forall i j, holder c i -> holder c j -> i = j) /\ (c_gate c = true <-> exists i, holder c i).

Lemma gate_inv_same c c' :
  c_gate c' = c_gate c -> (forall j, holder c' j <-> holder c j) -> gate_inv c -> gate_inv c'.
Proof.
  intros Hg Hh [H1 H2]. split; [intros i j Hi Hj; apply H1; by apply Hh|].
  rewrite Hg, H2. split; intros [i Hi]; exists i; by apply Hh.
Qed.

Lemma gate_inv_none c' : c_gate c' = false -> (forall j, ~ holder c' j) -> gate_inv c'.
Proof.
  intros Hg Hh. split; [intros i j Hi; by destruct (Hh i)|]. rewrite Hg. split; [done|]. intros [i Hi]. by destruct (Hh i).
Qed.

(** Changing the phase of a call to one that holds the gate as much as before. *)
Lemma holder_set_same c i p q j :
  c_calls c !! i = Some q -> holds p = holds q -> holder (set_call i p c) j <-> holder c j.
Proof.
  intros Hq Hh. rewrite holder_set_call. unfold holder. destruct (decide (j = i)) as [->|Hne].
  - rewrite Hq. split.
    + intros [[_ ?]|[[? _]|?]]; [left; exists q; split; congruence|done|auto].
    + intros [(? & [= <-] & ?)|?]; [left; split; congruence|auto].
  - split; [intros [[? _]|[[_ ?]|?]]; [done|auto|auto]|]. intros [?|?]; auto.
Qed.

Lemma com_gate_inv c : com_inv c -> gate_inv c.
Proof. intros Hi. split; [apply Hi|apply Hi]. Qed.

Lemma gate_inv_call c i c' : com_inv c -> cstep c (ACall i) = Some c' -> gate_inv c'.
Proof.
  intros Hi. pose proof (com_gate_inv c Hi) as Hg. cbn [cstep].
  destruct (c_calls c !! i) eqn:Ei; [done|]. unfold acquire. intros [= <-].
  destruct (c_gate c) eqn:Eg; cbn [negb].
  - eapply (gate_inv_same c); [by rewrite Eg| |done]. intros j. rewrite holder_set_call. unfold holder. cbn.
    destruct (decide (j = i)) as [->|Hne]; [rewrite Ei; naive_solver|naive_solver].
  - assert (Hn : forall j, ~ holder c j).
    { intros j Hj. assert (c_gate c = true) by (apply Hg; eauto). congruence. }
    assert (Hh : forall j, holder (set_call i Entered (set_gate true c)) j <-> j = i).
    { intros j. rewrite holder_set_call. cbn. specialize (Hn j). unfold holder in Hn. naive_solver. }
    split; [intros j k Hj%Hh Hk%Hh; congruence|]. split; [|done]. intros _. exists i. by apply Hh.
Qed.

(** Whoever holds the gate is the only one, and gives it up. *)
Lemma gate_inv_release c i c' : com_inv c -> cstep c (ARelease i) = Some c' -> gate_inv c'.
Proof.
  intros Hi. cbn [cstep]. destruct (c_calls c !! i) as [[]|] eqn:Ei; try done. intros [= <-].
  apply gate_inv_none; [done|]. assert (Hh : holder c i) by (left; eauto).
  intros j. rewrite holder_set_call. cbn. intros [[_ ?]|[[Hne Hj]|Hj]]; [done| |].
  - apply Hne. apply (ci_one c Hi); [by left|done].
  - pose proof (ci_one c Hi j i (or_intror Hj) Hh) as ->.
    destruct (ci_running c Hi i Hj) as [Hran _]. by pose proof (ci_phase c Hi i _ Ei).
Qed.

Lemma gate_inv_finish c e c' : com_inv c -> cstep c (AFinish e) = Some c' -> gate_inv c'.
Proof.
  intros Hi. cbn [cstep]. destruct (c_thread c) as [|i|] eqn:Et; try done. intros [= <-].
  apply gate_inv_none; [done|]. intros j [(p & Hp & Hh)|?]; [|done]. cbn in Hp.
  assert (j = i) as -> by (apply (ci_one c Hi); [left; eauto|by right]).
  destruct (ci_running c Hi i Et) as [Hran _]. pose proof (ci_phase c Hi i _ Hp). by destruct p.
Qed.

Lemma gate_inv_step c a c' : com_inv c -> cstep c a = Some c' -> gate_inv c'.
Proof.
  intros Hi. pose proof (com_gate_inv c Hi) as Hg.
  destruct a as [i|i|i|i|i|e|  |i|i|i e];
    [by apply gate_inv_call| | | |by apply gate_inv_release|by apply gate_inv_finish| | | |]; cbn [cstep].
  - destruct (c_calls c !! i) as [[]|] eqn:Ei; try done. intros [= <-].
    eapply (gate_inv_same c); [done| |done]. intros j. eapply holder_set_same; [exact Ei|]. by repeat case_match.
  - destruct (c_calls c !! i) as [[]|] eqn:Ei; try done. destruct (c_thread c) eqn:Et; try done. intros [= <-].
    eapply (gate_inv_same c); [done| |done]. intros j. unfold holder. cbn. rewrite Et.
    destruct (decide (j = i)) as [->|Hne]; [rewrite lookup_insert_eq, Ei; naive_solver|].
    rewrite lookup_insert_ne by done. naive_solver.
  - destruct (c_calls c !! i) as [[]|] eqn:Ei; try done. destruct (c_ctx c !! i); [|done]. intros [= <-].
    eapply (gate_inv_same c); [done| |done]. intros j. by eapply holder_set_same.
  - destruct (c_thread c) as [| |i v] eqn:Et; try done. intros [= <-].
    eapply (gate_inv_same c); [done| |done]. intros j. unfold holder. cbn. rewrite Et. naive_solver.
  - destruct (c_calls c !! i) as [[]|] eqn:Ei; try done. destruct (c_done c !! i); [|done]. intros [= <-].
    eapply (gate_inv_same c); [done| |done]. intros j. by eapply holder_set_same.
  - destruct (c_calls c !! i) as [[]|] eqn:Ei; try done. destruct (c_ctx c !! i); [|done].
    destruct (c_done c !! i); [done|]. intros [= <-].
    eapply (gate_inv_same c); [done| |done]. intros j. by eapply holder_set_same.
  - destruct (c_ctx c !! i); [done|]. by intros [= <-].
Qed.

(** The rest: what ran, and what the phases say of it. *)
Definition runs_inv (c : com) : Prop :=
  (forall i p, c_calls c !! i = Some p -> phase_ok c i p) /\
  NoDup (c_ran c) /\
  (forall i, i ∈ c_ran c -> is_Some (c_calls c !! i)) /\
  (forall i, is_Some (c_done c !! i) -> i ∈ c_ran c) /\
  (forall i, c_thread c = Running i -> i ∈ c_ran c /\ c_done c !! i = None) /\
  (forall i v, c_thread c = Delivering i v -> i ∈ c_ran c /\ c_done c !! i = None).

Lemma com_runs_inv c : com_inv c -> runs_inv c.
Proof. intros []. by split_and!. Qed.

(** Moving one call to a phase that fits. *)
Lemma runs_inv_call c i p g :
  runs_inv c -> phase_ok c i p -> runs_inv (set_call i p (set_gate g c)).
Proof.
  intros (H1 & H2 & H3 & Hd & H4 & H5) Hp. split_and!; cbn; [|done| |done|done|done].
  - intros j q. destruct (decide (i = j)) as [->|Hne].
    + rewrite lookup_insert_eq. by intros [= <-].
    + rewrite lookup_insert_ne by done. apply H1.
  - intros j Hj. destruct (decide (i = j)) as [->|Hne]; [rewrite lookup_insert_eq; eauto|].
    rewrite lookup_insert_ne by done. by apply H3.
Qed.

Lemma set_gate_same c : set_gate (c_gate c) c = c.
Proof. by destruct c. Qed.

Lemma runs_inv_set c i p : runs_inv c -> phase_ok c i p -> runs_inv (set_call i p c).
Proof. intros H Hp. rewrite <- (set_gate_same c) at 1. by apply runs_inv_call. Qed.

Lemma runs_inv_send c i :
  runs_inv c -> c_calls c !! i = Some Sending -> c_thread c = Idle ->
  runs_inv {| c_gate := c_gate c; c_thread := Running i; c_calls := <[i := Waiting]> (c_calls c);
              c_done := c_done c; c_ctx := c_ctx c; c_ran := c_ran c ++ [i] |}.
Proof.
  intros (H1 & H2 & H3 & Hd & H4 & H5) Ei Et. pose proof (H1 i _ Ei) as Hn. cbn in Hn.
  split_and!; cbn.
  - intros j q. destruct (decide (i = j)) as [->|Hne].
    + rewrite lookup_insert_eq. intros [= <-]. cbn. split; [|by left].
      apply elem_of_app. right. by left.
    + rewrite lookup_insert_ne by done. intros Hq%H1.
      assert (Hsn : j ∈ c_ran c ++ [i] <-> j ∈ c_ran c).
      { rewrite elem_of_app, list_elem_of_singleton. split; [by intros [?|<-]|by left]. }
      destruct q as [| | | |[]]; cbn in *; rewrite ?Hsn; try done.
      rewrite Et in Hq. destruct Hq as [? [?|[[v ?]|?]]]; [done|done|auto].
  - apply NoDup_app. split_and!; [done| |apply NoDup_singleton]. by intros x Hx ->%list_elem_of_singleton.
  - intros j [Hj| ->%list_elem_of_singleton]%elem_of_app; [|rewrite lookup_insert_eq; eauto].
    rewrite lookup_insert_ne; [by apply H3|]. by intros ->.
  - intros j Hj%Hd. apply elem_of_app. by left.
  - intros j [= <-]. split; [apply elem_of_app; right; by left|]. destruct (c_done c !! i) eqn:E; [|done].
    destruct Hn. apply Hd. eauto.
  - done.
Qed.

Lemma runs_inv_deliver c i v :
  runs_inv c -> c_thread c = Delivering i v ->
  runs_inv {| c_gate := c_gate c; c_thread := Idle; c_calls := c_calls c; c_done := <[i := v]> (c_done c);
              c_ctx := c_ctx c; c_ran := c_ran c |}.
Proof.
  intros (H1 & H2 & H3 & Hd & H4 & H5) Et. destruct (H5 i v Et) as [Hi Hnone].
  split_and!; cbn; [|done|done| |done|done].
  - intros j q Hq%H1. destruct q as [| | | |[]]; cbn in *; try done.
    + rewrite Et in Hq. destruct Hq as [? [?|[[w [= <- <-]]|[w Hw]]]]; [done| |];
        (split; [done|]; right; right); [rewrite lookup_insert_eq; eauto|].
      rewrite lookup_insert_ne; [eauto|]. intros ->. congruence.
    + destruct Hq as [? Hq]. split; [done|]. rewrite lookup_insert_ne; [done|]. intros ->. congruence.
  - intros j. destruct (decide (i = j)) as [->|Hne]; [done|]. rewrite lookup_insert_ne by done. apply Hd.
Qed.

Lemma runs_inv_finish c i v g :
  runs_inv c -> c_thread c = Running i -> runs_inv (set_thread (Delivering i v) (set_gate g c)).
Proof.
  intros (H1 & H2 & H3 & Hd & H4 & H5) Et. split_and!; cbn; [|done|done|done|done|].
  - intros j q Hq%H1. destruct q as [| | | |[]]; cbn in *; try done.
    rewrite Et in Hq. destruct Hq as [? [[= <-]|[[w ?]|?]]]; [|done|auto]. split; [done|]. eauto.
  - intros j w [= <- <-]. by apply H4.
Qed.

Lemma runs_inv_step c a c' : runs_inv c -> cstep c a = Some c' -> runs_inv c'.
Proof.
  intros Hi. pose proof Hi as (H1 & _ & H3 & _ & _ & _).
  destruct a as [i|i|i|i|i|e|  |i|i|i e]; cbn [cstep].
  - destruct (c_calls c !! i) eqn:Ei; [done|]. intros [= <-]. apply runs_inv_call; [done|].
    assert (i ∉ c_ran c) by (intros [p Hp]%H3; congruence). by destruct (c_gate c).
  - destruct (c_calls c !! i) as [[]|] eqn:Ei; try done. intros [= <-]. apply runs_inv_set; [done|].
    apply H1 in Ei. destruct initErr; [done|]. by destruct (c_ctx c !! i).
  - destruct (c_calls c !! i) as [[]|] eqn:Ei; try done. destruct (c_thread c) eqn:Et; try done. intros [= <-].
    by apply runs_inv_send.
  - destruct (c_calls c !! i) as [[]|] eqn:Ei; try done. destruct (c_ctx c !! i); [|done]. intros [= <-].
    apply runs_inv_set; [done|]. by apply H1 in Ei.
  - destruct (c_calls c !! i) as [[]|] eqn:Ei; try done. intros [= <-]. apply runs_inv_call; [done|]. by apply H1 in Ei.
  - destruct (c_thread c) as [|i|] eqn:Et; try done. intros [= <-]. by apply runs_inv_finish.
  - destruct (c_thread c) as [| |i v] eqn:Et; try done. intros [= <-]. by apply runs_inv_deliver.
  - destruct (c_calls c !! i) as [[]|] eqn:Ei; try done. destruct (c_done c !! i) eqn:Ed; [|done]. intros [= <-].
    apply runs_inv_set; [done|]. apply H1 in Ei as [? _]. done.
  - destruct (c_calls c !! i) as [[]|] eqn:Ei; try done. destruct (c_ctx c !! i); [|done].
    destruct (c_done c !! i); [done|]. intros [= <-]. apply runs_inv_set; [done|]. by apply H1 in Ei as [? _].
  - destruct (c_ctx c !! i); [done|]. by intros [= <-].
Qed.

Lemma com_inv_reachable c : creachable c -> com_inv c.
Proof.
  induction 1 as [|c a c' _ IH Hs].
  - assert (Hno : forall i, ~ holder com_init i).
    { intros i [(p & Hp & _)|Hp]; cbn in Hp; [by rewrite lookup_empty in Hp|done]. }
    split; cbn.
    + intros i j Hj. by destruct (Hno i).
    + split; [done|]. intros [i Hj]. by destruct (Hno i).
    + intros i p. by rewrite lookup_empty.
    + constructor.
    + by intros i ?%not_elem_of_nil.
    + intros i. rewrite lookup_empty. by intros [].
    + done.
    + done.
  - pose proof (gate_inv_step c a c' IH Hs) as [? ?].
    destruct (runs_inv_step c a c' (com_runs_inv c IH) Hs) as (? & ? & ? & ? & ? & ?). by split.
Qed.

(** Windows Update never sees two installs, and the gate never leaks.  In
    every interleaving of callers, deadlines and the COM thread: the gate is
    held exactly when one install is being started or is running on the thread,
    whether or not its caller still waits, so as long as an abandoned install
    runs every new one is refused with [ErrBusy]; and each install is taken by
    the thread at most once. *)
Theorem com_gate_follows_the_install (c : com) :
  creachable c ->
  (forall i j, holder c i -> holder c j -> i = j) /\
  (c_gate c = true <-> exists i, holder c i) /\
  NoDup (c_ran c) /\
  (forall i k c', c_thread c = Running i -> cstep c (ACall k) = Some c' ->
     c_calls c' !! k = Some (Returned OBusy)).
Proof.
  intros Hc. pose proof (com_inv_reachable c Hc) as Hi. split_and!; [apply Hi|apply Hi|apply Hi|].
  intros i k c' Ht. cbn. destruct (c_calls c !! k); [done|]. intros [= <-].
  assert (Hg : c_gate c = true) by (apply (ci_gate c Hi); exists i; by right).
  rewrite Hg. cbn. by rewrite lookup_insert_eq.
Qed.

(** C12: What a COM install reports is what happened to it.  A call that returns
    busy or not-started was never handed to the thread; one that returns a
    value returns the value its own run delivered; one that gave up was handed
    over, and its result marks every id with an unknown outcome, never as
    installed, and with no id left out. *)
Theorem com_outcomes_are_honest (c : com) (i : nat) (o : comOutcome) (ids : list bytes) :
  creachable c -> c_calls c !! i = Some (Returned o) ->
  match o with
  | OBusy | ONotStarted _ => i ∉ c_ran c /\ installViaCOM ids o = (newInstallResult, (installViaCOM ids o).2)
  | OCompleted v => i ∈ c_ran c /\ c_done c !! i = Some v /\ installViaCOM ids o = v
  | OAbandoned e => i ∈ c_ran c /\ Installed (installViaCOM ids o).1 = [] /\
      forall id, id ∈ ids -> Failed (installViaCOM ids o).1 !! id = Some ErrInstallOutcomeUnknown
  end.
Proof.
  intros Hc Ho. pose proof (ci_phase c (com_inv_reachable c Hc) i _ Ho) as Hp.
  destruct o as [|e|v|e]; cbn in *; [done|done|by destruct Hp|].
  split_and!; [done|apply failAll_spec|]. intros id Hid. unfold abandonedInstallResult. by apply failAll_same.
Qed.

(** No call of the COM thread is stuck.  As long as some call has not
    returned, the thread or a caller can take a step, without a new call or a
    context having to end: an install that cannot be interrupted only has to
    finish. *)
Theorem com_never_stuck (c : com) (i : nat) (p : phase) (fn : callEnd) :
  creachable c -> c_calls c !! i = Some p -> (forall o, p ≠ Returned o) ->
  exists a c', cstep c a = Some c' /\ (forall k, a ≠ ACall k) /\ (forall k e, a ≠ ACtx k e) /\
    (forall e, a = AFinish e -> e = fn).
Proof.
  intros Hc Hp Hn. pose proof (com_inv_reachable c Hc) as Hi.
  assert (Hth : c_thread c ≠ Idle -> exists a c', cstep c a = Some c' /\ (forall k, a ≠ ACall k) /\
    (forall k e, a ≠ ACtx k e) /\ (forall e, a = AFinish e -> e = fn)).
  { destruct (c_thread c) as [|j|j v] eqn:Et; [done|..]; intros _.
    - exists (AFinish fn). cbn. rewrite Et. eexists. split_and!; try done. by intros e [= ->].
    - exists ADeliver. cbn. rewrite Et. eexists. by split_and!. }
  destruct (c_thread c) as [|j|j v] eqn:Et; [|by apply Hth..].
  pose proof (ci_phase c Hi i p Hp) as Hph. destruct p as [| | |e|o]; [..|by destruct (Hn o)].
  - exists (ACheck i). cbn. rewrite Hp. eexists. by split_and!.
  - exists (ASend i). cbn. rewrite Hp, Et. eexists. by split_and!.
  - destruct Hph as [_ [?|[[v ?]|[v Hv]]]]; [congruence|congruence|].
    exists (ARecv i). cbn. rewrite Hp, Hv. eexists. by split_and!.
  - exists (ARelease i). cbn. rewrite Hp. eexists. by split_and!.
Qed.
End steps.

(** Call 0 installs and its caller gives up; call 1 comes while it runs; after it
    finished, call 2 gets the gate. *)
Definition comTrace : list comAction :=
  [ACall 0; ACheck 0; ASend 0; ACtx 0 (Sentinel "context deadline exceeded"); AAbandon 0; ACall 1;
   AFinish (CallReturns (newInstallResult, None)); ADeliver; ACall 2]%nat.

Definition crun (c : com) (l : list comAction) : option com :=
  fold_left (fun oc a => match oc with Some c => cstep None c a | None => None end) l (Some c).

Lemma crun_None l : fold_left (fun oc a => match oc with Some c => cstep None c a | None => None end) l None = None.
Proof. by induction l. Qed.

Lemma crun_reachable c l c' : creachable None c -> crun c l = Some c' -> creachable None c'.
Proof.
  unfold crun. revert c. induction l as [|a l IH]; intros c Hc; cbn [fold_left]; [by intros [= <-]|].
  destruct (cstep None c a) as [c1|] eqn:E; [|by rewrite crun_None]. apply IH. by eapply creach_step.
Qed.

Definition comAfter (n : nat) : com := default com_init (crun com_init (take n comTrace)).

Lemma comAfter_reachable n : (n <= 9)%nat -> creachable None (comAfter n).
Proof.
  intros Hn. apply (crun_reachable com_init (take n comTrace)); [constructor|].
  do 10 (destruct n as [|n]; [reflexivity|]). lia.
Qed.

Lemma com_gate_follows_the_install_witness :
  c_calls (comAfter 5) !! 0%nat = Some (Returned (OAbandoned (Sentinel "context deadline exceeded"))) /\
  c_thread (comAfter 5) = Running 0 /\ c_calls (comAfter 6) !! 1%nat = Some (Returned OBusy) /\
  c_calls (comAfter 9) !! 2%nat = Some Entered /\
  (c_gate (comAfter 5) = true <-> exists i, holder (comAfter 5) i).
Proof.
  split_and!; [reflexivity..|].
  exact (proj1 (proj2 (com_gate_follows_the_install None (comAfter 5) (comAfter_reachable 5 ltac:(lia))))).
Defined.

Lemma com_outcomes_are_honest_witness :
  c_calls (comAfter 5) !! 0%nat = Some (Returned (OAbandoned (Sentinel "context deadline exceeded"))) /\
  0%nat ∈ c_ran (comAfter 5).
Proof.
  assert (Ho : c_calls (comAfter 5) !! 0%nat = Some (Returned (OAbandoned (Sentinel "context deadline exceeded"))))
    by reflexivity.
  split; [exact Ho|].
  exact (proj1 (com_outcomes_are_honest None (comAfter 5) 0 _ [str "kb"] (comAfter_reachable 5 ltac:(lia)) Ho)).
Defined.

Lemma com_never_stuck_witness :
  c_calls (comAfter 3) !! 0%nat = Some Waiting /\ exists a c', cstep None (comAfter 3) a = Some c'.
Proof.
  split; [reflexivity|].
  destruct (com_never_stuck None (comAfter 3) 0 Waiting (CallPanics ErrBusy) (comAfter_reachable 3 ltac:(lia)) eq_refl
    ltac:(discriminate)) as (a & c' & Hs & _). exists a, c'. exact Hs.
Defined.
