(* ===== verification/Wua.v ===== *)
(** * Wua: the Windows Update backend (wua_map.go, wua_windows.go)

    Windows Update is a COM server.  What it answers to each call the backend
    makes is a parameter, the record [wuaServer]; the mapping of its answers
    and the whole of [install] are definitions. *)
From S2P Require Import Prelude GoLib GoText GoOS Env Patch PatchParse PatchPlan Com.

(** ** wua_map.go *)

Definition wuaAlwaysRequiresReboot : Z := 1.
Definition wuaCanRequestReboot : Z := 2.
Definition wuaResultNotStarted : Z := 0.
Definition wuaResultInProgress : Z := 1.
Definition wuaResultSucceeded : Z := 2.
Definition wuaResultSucceededWithErrors : Z := 3.
Definition wuaResultFailed : Z := 4.
Definition wuaResultAborted : Z := 5.

Record wuaFields := {
  wf_UpdateID : bytes;
  wf_RevisionNumber : Z;
  wf_Title : bytes;
  wf_MsrcSeverity : bytes;
  wf_KBIDs : list bytes;
  wf_Categories : list bytes;
  wf_MaxDownloadSize : Z;
  wf_RebootBehavior : Z;
  wf_EulaAccepted : bool;
  wf_CanRequestUserInput : bool;
  wf_Description : bytes;
}.

Definition detailUserInput : bytes := str "requires user interaction, cannot be installed silently".

Definition mapMsrcSeverity (msrc : bytes) : bytes :=
  default SeverityUnknown (dnfSeverityToken (ToLower (TrimSpace msrc))).

Definition wuaRebootLikely (behavior : Z) : bool :=
  (behavior =? wuaAlwaysRequiresReboot) || (behavior =? wuaCanRequestReboot).

Definition containsAny (haystack needles : list bytes) : bool :=
  existsb (fun h => bool_decide (h ∈ needles)) haystack.

Definition wuaKind (categories : list bytes) (title : bytes) : bytes :=
  let lower := map ToLower categories in
  if containsAny lower (map str ["definition updates"; "definition update"]%string) then KindDefinition
  else if containsAny lower (map str ["security updates"; "critical updates"]%string) then KindSecurity
  else if containsAny lower (map str ["feature packs"; "upgrades"; "service packs"]%string) then KindFeature
  else if marked (map str ["security intelligence update"; "definition update"; "antimalware platform"]%string) title
  then KindDefinition
  else if marked (map str ["security update"; "security monthly"]%string) title then KindSecurity
  else if marked [str "feature update"] title then KindFeature
  else KindOther.

(** [id[2:]] after [strings.HasPrefix(strings.ToUpper(id), "KB")]. *)
Definition normalizeKB (id : bytes) : bytes :=
  if HasPrefix (ToUpper id) (str "KB") then str "KB" ++ drop 2 id else str "KB" ++ id.

Definition kbStep (acc : list bytes * gset bytes) (id : bytes) : list bytes * gset bytes :=
  let '(out, seen) := acc in
  let id := TrimSpace id in
  if bool_decide (id = []) then acc
  else
    let id := normalizeKB id in
    if bool_decide (id ∈ seen) then acc else (out ++ [id], {[id]} ∪ seen).

Definition normalizeKBIDs (ids : list bytes) : list bytes := (fold_left kbStep ids ([], ∅)).1.

Definition wuaUpdateFromFields (f : wuaFields) : Update :=
  {| u_ID := wf_UpdateID f; u_Title := TrimSpace (wf_Title f);
     u_Kind := wuaKind (wf_Categories f) (wf_Title f); u_KBIDs := normalizeKBIDs (wf_KBIDs f);
     u_Severity := mapMsrcSeverity (wf_MsrcSeverity f); u_SizeBytes := wf_MaxDownloadSize f;
     u_RebootLikely := wuaRebootLikely (wf_RebootBehavior f);
     u_Unsupported := wf_CanRequestUserInput f;
     u_Detail := if wf_CanRequestUserInput f then detailUserInput else [] |}.

Definition wuaResultOK (c : Z) : bool := (c =? wuaResultSucceeded) || (c =? wuaResultSucceededWithErrors).

(** The [%08X] verb on a [uint32]. *)
Definition hexDigitUpper (z : Z) : ascii := if z <? 10 then chr (48 + z) else chr (55 + z).
Definition FormatHex32 (n : Z) : bytes := map (fun k => hexDigitUpper (Z.land (Z.shiftr n (4 * k)) 15)) [7; 6; 5; 4; 3; 2; 1; 0].

Definition wuaResultName (code : Z) : bytes :=
  if code =? wuaResultNotStarted then str "not started"
  else if code =? wuaResultInProgress then str "still in progress"
  else if code =? wuaResultSucceeded then str "succeeded"
  else if code =? wuaResultSucceededWithErrors then str "succeeded with errors"
  else if code =? wuaResultFailed then str "failed"
  else if code =? wuaResultAborted then str "aborted"
  else str "unknown result".

(** [uint32(hresult)] keeps the low 32 bits. *)
Definition wuaResultText (code hresult : Z) : bytes :=
  if hresult =? 0 then wuaResultName code ++ str " (code " ++ Itoa code ++ str ")"
  else wuaResultName code ++ str " (code " ++ Itoa code ++ str ", hresult 0x" ++ FormatHex32 (Z.land hresult (Z.ones 32)) ++ str ")".

(** [errors.New] of a text made at run time. *)
Definition newError (text : bytes) : error := Sentinel (String.string_of_list_ascii text).

(** An HRESULT reads the same whether COM handed it out signed or not. *)
Example wuaResultText_reads_like_the_documentation :
  wuaResultText wuaResultFailed 0x80240022 = str "failed (code 4, hresult 0x80240022)" /\
  wuaResultText wuaResultFailed (0x80240022 - 2 ^ 32) = str "failed (code 4, hresult 0x80240022)" /\
  wuaResultText wuaResultAborted 0 = str "aborted (code 5)".
Proof. vm_compute. done. Qed.

(** [wuaSelect]: the later of two results with the same id wins. *)
Definition wuaByID (found : list wuaFields) : gmap bytes wuaFields :=
  fold_left (fun m f => <[ToLower (wf_UpdateID f) := f]> m) found ∅.

Definition wuaSelect (found : list wuaFields) (ids : list bytes) : list wuaFields * list bytes :=
  let lookup id := wuaByID found !! ToLower (TrimSpace id) in
  (omap lookup ids, List.filter (fun id => bool_decide (lookup id = None)) ids).

(** ** wua_windows.go *)

Definition lowerTrim (s : bytes) : bytes := ToLower (TrimSpace s).

(** An item of a search: its fields, and the errors of accepting its EULA and
    of adding it to the batch, if they are asked for. *)
Record offered := Offered { of_fields : wuaFields; of_acceptEula : option error; of_add : option error }.

(** The answers to the calls of one install; [None] where a call gives an error
    value is success.  An item of the search that cannot be read is [None].
    [w_updateResult i] and [w_batchResult i] are what the [i]-th update's own
    result and, failing that, the batch's result say when they are asked. *)
Record wuaServer := {
  w_session : option error;
  w_installer : option error;
  w_busy : bool;
  w_coll : option error;
  w_search : option error;
  w_items : list (option offered);
  w_downloader : option error;         (** creating it, or setting its [Updates] *)
  w_download : res error (Z * Z);      (** result code and HRESULT *)
  w_putUpdates : option error;
  w_install : option error;
  w_rebootRequired : bool;
  w_updateResult : nat -> option (Z * Z);
  w_batchResult : nat -> Z * Z;
}.

(** [Scan]'s closure. *)
Definition wua_scan (w : wuaServer) : res error (list Update) :=
  match w_search w with
  | Some e => Err e
  | None => Ok (omap (fmap (wuaUpdateFromFields ∘ of_fields)) (w_items w))
  end.

(** One item of the search: into the batch, into [res.Failed], or passed over. *)
Definition wuaItem (wanted : gset bytes) (acc : list bytes * InstallResult)
    (item : option offered) : list bytes * InstallResult :=
  let '(ordered, r) := acc in
  match item with
  | None => acc
  | Some o =>
      let f := of_fields o in
      let id := wf_UpdateID f in
      if negb (bool_decide (lowerTrim id ∈ wanted)) then acc
      else if wf_CanRequestUserInput f then (ordered, fail id (newError detailUserInput) r)
      else
        match (if wf_EulaAccepted f then None else of_acceptEula o) with
        | Some e => (ordered, fail id (Errorf "accept eula" e) r)
        | None =>
            match of_add o with
            | Some e => (ordered, fail id (Errorf "add to batch" e) r)
            | None => (ordered ++ [id], r)
            end
        end
  end.

Definition wuaBatch (w : wuaServer) (ids : list bytes) (r : InstallResult) : list bytes * InstallResult :=
  fold_left (wuaItem (list_to_set (map lowerTrim ids))) (w_items w) ([], r).

(** The ids the batch does not have are no longer offered; [res.fail] keeps an
    earlier reason, as the test in front of it does. *)
Definition wuaMissing (ordered ids : list bytes) (r : InstallResult) : InstallResult :=
  let inBatch : gset bytes := list_to_set (map lowerTrim ordered) in
  fold_left (fun r id => if bool_decide (lowerTrim id ∈ inBatch) then r
                         else fail id (Sentinel "update is no longer offered by Windows Update") r) ids r.

Definition wua_download (w : wuaServer) : option error :=
  match w_downloader w with
  | Some e => Some e
  | None =>
      match w_download w with
      | Err e => Some (Errorf "download" e)
      | Ok (c, h) => if wuaResultOK c then None else Some (newError (str "download " ++ wuaResultText c h))
      end
  end.

Definition recordOutcome (w : wuaServer) (acc : nat * InstallResult) (id : bytes) : nat * InstallResult :=
  let '(i, r) := acc in
  let '(c, h) := default (w_batchResult w i) (w_updateResult w i) in
  (S i, if wuaResultOK c then installedOne id r else fail id (newError (wuaResultText c h)) r).

Definition recordOutcomes (w : wuaServer) (ordered : list bytes) (r : InstallResult) : InstallResult :=
  (fold_left (recordOutcome w) ordered (0%nat, r)).2.

Definition wua_install (w : wuaServer) (ids : list bytes) (r : InstallResult) : InstallResult * option error :=
  match w_session w with
  | Some e => (r, Some e)
  | None =>
      match w_installer w with
      | Some e => (r, Some e)
      | None =>
          if w_busy w then (r, Some ErrBusy)
          else
            match w_coll w with
            | Some e => (r, Some e)
            | None =>
                match w_search w with
                | Some e => (r, Some e)
                | None =>
                    let '(ordered, r) := wuaBatch w ids r in
                    let r := wuaMissing ordered ids r in
                    if bool_decide (ordered = []) then (r, None)
                    else
                      match wua_download w with
                      | Some e => (failAll ordered e r, Some e)
                      | None =>
                          match w_putUpdates w with
                          | Some e => (r, Some (Errorf "installer.Updates" e))
                          | None =>
                              match w_install w with
                              | Some e => (failAll ordered e r, Some (Errorf "install" e))
                              | None => (recordOutcomes w ordered (setReboot (w_rebootRequired w) r), None)
                              end
                          end
                      end
                end
            end
      end
  end.

(** [Install]: [o] is what became of the call on the COM thread. *)
Definition wua_Install (deadline : option Z) (now : Z) (ids : list bytes) (o : comOutcome) :
    InstallResult * option error :=
  let ids := dedupeIDs ids in
  if bool_decide (ids = []) then (newInstallResult, None)
  else
    match prepareInstall deadline now ids newInstallResult with
    | ((_, pre), Some e) => (pre, Some e)
    | ((ids, pre), None) =>
        if bool_decide (ids = []) then (pre, None)
        else
          let '(r, err) := installViaCOM ids o in
          ({| Installed := Installed r; Failed := Failed r ∪ Failed pre; RebootRequired := RebootRequired r |}, err)
    end.

(** ** What goes into a batch *)

Definition wuaApproved (w : wuaServer) (ids : list bytes) (id : bytes) : Prop :=
  exists o, let f := of_fields o in
    Some o ∈ w_items w /\ wf_UpdateID f = id /\ lowerTrim id ∈ map lowerTrim ids /\
    wf_CanRequestUserInput f = false /\ (wf_EulaAccepted f = true \/ of_acceptEula o = None).

Lemma wuaBatch_spec w ids r :
  let '(ordered, r') := wuaBatch w ids r in
  extends r r' /\ Installed r' = Installed r /\ Forall (wuaApproved w ids) ordered.
Proof.
  unfold wuaBatch.
  apply (fold_left_inv (fun _ (acc : list bytes * InstallResult) =>
    let '(ordered, r') := acc in extends r r' /\ Installed r' = Installed r /\ Forall (wuaApproved w ids) ordered));
    [by split_and!|].
  intros done item todo [ordered r'] Hl (He & Hi & Ha). unfold wuaItem. destruct item as [o|]; [|done]. set (f := of_fields o).
  case_bool_decide as Hw; cbn [negb]; [|done].
  assert (Hfail : forall e, extends r (fail (wf_UpdateID f) e r') /\ Installed (fail (wf_UpdateID f) e r') = Installed r /\
    Forall (wuaApproved w ids) ordered).
  { intros e. split_and!; [etrans; [done|apply fail_extends]|by rewrite fail_installed|done]. }
  destruct (wf_CanRequestUserInput f) eqn:Hu; [apply Hfail|].
  destruct (if wf_EulaAccepted f then None else of_acceptEula o) eqn:Heu; [apply Hfail|].
  destruct (of_add o); [apply Hfail|]. split_and!; [done|done|]. apply Forall_app. split; [done|].
  constructor; [|done]. exists o. fold f. cbn zeta. rewrite elem_of_list_to_set in Hw. split_and!; [|done|done|done|].
  - rewrite Hl. set_solver.
  - fold f. destruct (wf_EulaAccepted f); auto.
Qed.

Lemma wuaMissing_spec ordered ids r :
  let r' := wuaMissing ordered ids r in
  extends r r' /\ Installed r' = Installed r /\
  forall id, id ∈ ids -> is_Some (Failed r' !! id) \/ lowerTrim id ∈ map lowerTrim ordered.
Proof.
  cbn zeta. unfold wuaMissing.
  apply (fold_left_inv (fun done r' => extends r r' /\ Installed r' = Installed r /\
    forall id, id ∈ done -> is_Some (Failed r' !! id) \/ lowerTrim id ∈ map lowerTrim ordered));
    [split_and!; [done|done|by intros ? ?%not_elem_of_nil]|].
  intros done id todo r' _ (He & Hi & Ha). case_bool_decide as Hb.
  - split_and!; [done|done|]. intros x [?| ->%list_elem_of_singleton]%elem_of_app; [auto|].
    right. by apply elem_of_list_to_set in Hb.
  - set (e := Sentinel _). pose proof (fail_extends id e r') as Hx.
    split_and!; [by etrans|by rewrite fail_installed|].
    intros x [Hin| ->%list_elem_of_singleton]%elem_of_app; [|left; apply fail_records].
    destruct (Ha x Hin) as [[y Hy]|?]; [left; exists y; by apply Hx|by right].
Qed.

Lemma recordOutcomes_spec w ordered r :
  let r' := recordOutcomes w ordered r in
  extends r r' /\ accounted ordered r' /\ forall id, id ∈ Installed r' -> id ∈ Installed r \/ id ∈ ordered.
Proof.
  cbn zeta. unfold recordOutcomes.
  apply (fold_left_inv (fun done (acc : nat * InstallResult) => extends r acc.2 /\ accounted done acc.2 /\
    forall id, id ∈ Installed acc.2 -> id ∈ Installed r \/ id ∈ done));
    [split_and!; [done|by intros ? ?%not_elem_of_nil|auto]|].
  intros done id todo [i r'] _ (He & Ha & Hi). cbn [snd] in *. unfold recordOutcome.
  destruct (default _ _) as [c hr]. destruct (wuaResultOK c); cbn [snd].
  - assert (Hx : extends r' (installedOne id r')) by (split; cbn; [set_solver|done]).
    split_and!; [by etrans| |].
    + intros x [Hin| ->%list_elem_of_singleton]%elem_of_app; [|left; cbn; set_solver]. eapply accounted_extends; eauto.
    + intros x. cbn. intros [[?|?]%Hi| ->%list_elem_of_singleton]%elem_of_app; set_solver.
  - pose proof (fail_extends id (newError (wuaResultText c hr)) r') as Hx. split_and!; [by etrans| |].
    + intros x [Hin| ->%list_elem_of_singleton]%elem_of_app; [|right; apply fail_records]. eapply accounted_extends; eauto.
    + intros x. rewrite fail_installed. intros [?|?]%Hi; set_solver.
Qed.

(** The outcome of [install] in one statement. *)
Lemma wua_install_spec w ids r :
  let '(r', err) := wua_install w ids r in
  extends r r' /\
  (forall id, id ∈ Installed r' -> id ∈ Installed r \/ wuaApproved w ids id) /\
  (err = None -> forall id, id ∈ ids -> exists id', lowerTrim id' = lowerTrim id /\
     (id' ∈ Installed r' \/ is_Some (Failed r' !! id'))).
Proof.
  assert (Hr : forall e : error, extends r r /\ (forall id, id ∈ Installed r -> id ∈ Installed r \/ wuaApproved w ids id) /\
    (Some e = None -> forall id, id ∈ ids -> exists id', lowerTrim id' = lowerTrim id /\
       (id' ∈ Installed r \/ is_Some (Failed r !! id')))) by (intros e; split_and!; [done|auto|done]).
  unfold wua_install. destruct (w_session w); [apply Hr|]. destruct (w_installer w); [apply Hr|].
  destruct (w_busy w); [apply Hr|]. destruct (w_coll w); [apply Hr|]. destruct (w_search w); [apply Hr|]. clear Hr.
  pose proof (wuaBatch_spec w ids r) as Hb. destruct (wuaBatch w ids r) as [ordered r1]. destruct Hb as (He1 & Hi1 & Hap).
  destruct (wuaMissing_spec ordered ids r1) as (He2 & Hi2 & Hm). set (r2 := wuaMissing ordered ids r1) in *.
  assert (He : extends r r2) by by etrans. assert (Hi : Installed r2 = Installed r) by congruence.
  rewrite Forall_forall in Hap. case_bool_decide as Hn.
  { split_and!; [done|rewrite Hi; auto|]. intros _ id Hid. exists id. split; [done|].
    destruct (Hm id Hid) as [?|Hin]; [auto|]. rewrite Hn in Hin. by apply not_elem_of_nil in Hin. }
  assert (Hfail : forall e err, extends r (failAll ordered e r2) /\
    (forall id, id ∈ Installed (failAll ordered e r2) -> id ∈ Installed r \/ wuaApproved w ids id) /\
    (Some err = @None error -> forall id, id ∈ ids -> exists id', lowerTrim id' = lowerTrim id /\
     (id' ∈ Installed (failAll ordered e r2) \/ is_Some (Failed (failAll ordered e r2) !! id')))).
  { intros e err. destruct (failAll_spec ordered e r2) as (? & _ & Hx). split_and!; [by etrans|rewrite Hx, Hi; auto|done]. }
  destruct (wua_download w); [apply Hfail|]. destruct (w_putUpdates w); [split_and!; [done|rewrite Hi; auto|done]|].
  destruct (w_install w); [apply Hfail|].
  destruct (recordOutcomes_spec w ordered (setReboot (w_rebootRequired w) r2)) as (He3 & Ha & Hi3).
  assert (He3' : extends r2 (recordOutcomes w ordered (setReboot (w_rebootRequired w) r2))) by (etrans; [apply setReboot_extends|exact He3]).
  split_and!; [by etrans| |].
  - intros id [Hin|Hin]%Hi3; [cbn in Hin; rewrite Hi in Hin; auto|auto].
  - intros _ id Hid. destruct (Hm id Hid) as [[e Hf]|Hin].
    + exists id. split; [done|]. right. exists e. by apply He3'.
    + apply list_elem_of_fmap in Hin as (id' & E & Hin). exists id'. split; [done|]. by apply Ha.
Qed.

(** Windows Update is asked only for what was approved, and what it did is
    reported.  Every id [install] reports installed is one the search returned,
    asked for up to case, that needs no user interaction and whose EULA is
    accepted; and without error every requested id has an outcome, under its
    own spelling or under the one Windows Update uses. *)
Theorem wua_install_is_approved_and_reported (w : wuaServer) (ids : list bytes) :
  let '(r, err) := wua_install w ids newInstallResult in
  (forall id, id ∈ Installed r -> wuaApproved w ids id) /\
  (err = None -> forall id, id ∈ ids -> exists id', lowerTrim id' = lowerTrim id /\
     (id' ∈ Installed r \/ is_Some (Failed r !! id'))).
Proof.
  pose proof (wua_install_spec w ids newInstallResult) as H. destruct (wua_install w ids newInstallResult) as [r err].
  destruct H as (_ & Hi & Ha). split; [|done]. intros id [Hin|?]%Hi; [by apply not_elem_of_nil in Hin|done].
Qed.

(** A Windows Update that offers one update and installs it. *)
Definition demoUpdate : wuaFields :=
  {| wf_UpdateID := str "a1b2c3"; wf_RevisionNumber := 1; wf_Title := str "Security Update (KB5034441)";
     wf_MsrcSeverity := str "Critical"; wf_KBIDs := [str "5034441"; str "kb5034441"]; wf_Categories := [str "Security Updates"];
     wf_MaxDownloadSize := 1024; wf_RebootBehavior := 2; wf_EulaAccepted := true; wf_CanRequestUserInput := false;
     wf_Description := [] |}.

Definition demoServer : wuaServer :=
  {| w_session := None; w_installer := None; w_busy := false; w_coll := None; w_search := None;
     w_items := [None; Some (Offered demoUpdate None None)];
     w_downloader := None; w_download := Ok (2, 0); w_putUpdates := None; w_install := None;
     w_rebootRequired := true; w_updateResult := fun _ => Some (2, 0); w_batchResult := fun _ => (4, 0) |}.

(** Asked for under another spelling, an installed update is not accounted
    for.  Windows Update matches ids regardless of case, but the outcome is
    filed under the server's spelling, so the id that was asked for is neither
    in [Installed] nor in [Failed], against the promise of [InstallResult]. *)
Theorem wua_spelling_loses_the_id :
  let '(r, err) := wua_Install None 0 [str "A1B2C3"] (OCompleted (wua_install demoServer [str "A1B2C3"] newInstallResult)) in
  err = None /\ Installed r = [str "a1b2c3"] /\ Failed r !! str "A1B2C3" = None.
Proof. vm_compute. done. Qed.
