(* ===== verification/PatchJobs.v ===== *)
(** * PatchJobs: patch jobs and the patchstate snapshot (jobs/patch_wire.go,
    inventory/patchstate.go)

    A patch job asks the host's update backend for a scan or an install,
    publishes what came of it, and refreshes the snapshot the console shows.
    The backend is the interface [Manager] of package patch: here a record of
    operations, with the promise the job relies on as the class [Accounting]. *)
From S2P Require Import Prelude GoLib GoText GoOS Env Scripts Patch PatchParse PatchPlan PatchRun PatchInstall.
From S2P Require Import SoftwareUpdate.

(** ** The interface *)

Record Backend := {
  b_Kind : bytes;
  b_Scan : M (res error (list Update));
  b_Install : context -> list bytes -> bool -> M (InstallResult * option error);
  b_RebootRequired : M (res error bool);
}.

(** For lists of ids that satisfy [distinct], a nil error leaves no id out. *)
Class Accounting (b : Backend) (distinct : list bytes -> Prop) : Prop :=
  accounts : forall ctx ids progress s r s',
    distinct ids -> b_Install b ctx ids progress s = ((r, None), s') ->
    forall id, id ∈ ids -> id ≠ [] -> id ∈ Installed r \/ is_Some (Failed r !! id).

Section backends.
Context {H : Host}.

Definition linuxBackend (m : manager) : Backend :=
  {| b_Kind := KindOf m; b_Scan := Scan m; b_Install := Install m; b_RebootRequired := RebootRequiredOf m |}.

Definition macBackend (floatSize : bytes -> Z -> option Z) : Backend :=
  {| b_Kind := BackendSoftwareUpdate; b_Scan := su_Scan floatSize; b_Install := su_Install floatSize;
     b_RebootRequired := su_RebootRequired |}.

#[export] Instance linux_accounting (m : manager) :
  Accounting (linuxBackend m) (fun ids => NoDup (omap (keyOf m) (dedupeIDs ids))).
Proof. intros ctx ids progress s r s'. apply Install_accounts. Qed.

#[export] Instance mac_accounting floatSize : Accounting (macBackend floatSize) (fun _ => True).
Proof. intros ctx ids progress s r s' _. apply su_Install_accounts. Qed.

(** ** inventory/patchstate.go *)

Definition patchInterval : Z := 6 * Hour.
Definition patchJitter : Z := 30 * Minute.
Definition backendUnsupported : bytes := str "unsupported".

Record PatchEntry := {
  pe_ID : bytes; pe_Title : bytes; pe_Kind : bytes; pe_Severity : bytes; pe_SizeBytes : Z;
  pe_RebootLikely : bool; pe_Unsupported : bool; pe_Detail : bytes; pe_KBIDs : list bytes;
}.

Record PatchState := {
  ps_Patches : list PatchEntry;
  ps_Backend : bytes;
  ps_RebootRequired : bool;
}.

Definition patchEntry (u : Update) : PatchEntry :=
  {| pe_ID := u_ID u; pe_Title := u_Title u; pe_Kind := u_Kind u; pe_Severity := u_Severity u;
     pe_SizeBytes := u_SizeBytes u; pe_RebootLikely := u_RebootLikely u;
     pe_Unsupported := u_Unsupported u; pe_Detail := u_Detail u; pe_KBIDs := u_KBIDs u |}.

Definition patchEntries (updates : list Update) : list PatchEntry := map patchEntry updates.

(** [Manager]: detected once, the error kept as well. *)
Definition collectorManager (detected : option (res error manager)) :
    M (res error manager * option (res error manager)) :=
  match detected with
  | Some r => mret (r, detected)
  | None => do* r := Detect in mret (r, Some r)
  end.

Definition collect (mgr : res error Backend) : M (PatchState * option error) :=
  let state := {| ps_Patches := []; ps_Backend := backendUnsupported; ps_RebootRequired := false |} in
  match mgr with
  | Err e => mret (state, if Is e ErrUnsupported then None else Some e)
  | Ok b =>
      let state := {| ps_Patches := []; ps_Backend := b_Kind b; ps_RebootRequired := false |} in
      do* updates := b_Scan b in
      match updates with
      | Err e => mret (state, Some e)
      | Ok updates =>
          do* reboot := b_RebootRequired b in
          mret ({| ps_Patches := patchEntries updates; ps_Backend := b_Kind b;
                   ps_RebootRequired := match reboot with Ok x => x | Err _ => false end |}, None)
      end
  end.

(** [RefreshNow], with the snapshots it publishes; [publish] is the connection. *)
Definition RefreshNow (mgr : res error Backend) (publish : PatchState -> option error) :
    M ((PatchState * option error) * list PatchState) :=
  do* out := collect mgr in
  let '(state, err) := out in
  mret (match err with
        | Some e => ((state, Some e), [])
        | None => ((state, publish state), [state])
        end).

(** FNV-1a on 64 bits. *)
Definition fnv64a (s : bytes) : Z :=
  fold_left (fun h c => wrapu64 (Z.lxor h (code c) * 1099511628211)) s 14695981039346656037.

Definition jitterFor (agentID : bytes) (window : Z) : Z :=
  if window <=? 0 then 0 else fnv64a agentID mod window.

(** ** jobs/patch_wire.go *)

Definition exitBusy : Z := 75.
Definition defaultScanTimeout : Z := 30 * Minute.
Definition defaultInstallTimeout : Z := 4 * Hour.

Definition DeadlineExceeded : error := Sentinel "context deadline exceeded".
Definition Canceled : error := Sentinel "context canceled".

Definition cleanIDs (raw : list bytes) : list bytes :=
  List.filter (fun id => negb (bool_decide (id = []))) (map (fun id => TrimSpace (TrimSuffix id [cr])) raw).

Section parse.
(** [json.Unmarshal] into the three lists of the object, and into an array. *)
Context (unmarshalObj : bytes -> option (list bytes * list bytes * list bytes)).
Context (unmarshalArr : bytes -> option (list bytes)).

Definition ParsePatchIDs (body : bytes) : list bytes :=
  let body := TrimSpace body in
  match body with
  | [] => []
  | c :: _ =>
      if bool_decide (c = "{"%char) then
        match unmarshalObj body with
        | None => []
        | Some (updateIDs, ids, patches) =>
            if negb (bool_decide (updateIDs = [])) then cleanIDs updateIDs
            else if negb (bool_decide (ids = [])) then cleanIDs ids
            else if negb (bool_decide (patches = [])) then cleanIDs patches
            else []
        end
      else if bool_decide (c = "["%char) then
        match unmarshalArr body with None => [] | Some arr => cleanIDs arr end
      else cleanIDs (Split nl body)
  end.
End parse.

Definition patchJobTimeout (spec : JobSpec) : Z :=
  if 0 <? TimeoutS spec then
    let d := wrap64 (TimeoutS spec * Second) in
    if d <? MaxTimeout then d else MaxTimeout
  else if bool_decide (Kind spec = KindPatchInstall) then defaultInstallTimeout
  else defaultScanTimeout.

(** [errors.Is] of a possibly nil error. *)
Definition IsErr (e : option error) (target : error) : bool :=
  match e with Some e => Is e target | None => false end.

Definition patchResult (err : option error) (failed : Z) : Scripts.Result :=
  if IsErr err ErrBusy then plainResult StatusFailed exitBusy
  else if IsErr err DeadlineExceeded then plainResult StatusTimeout (-1)
  else if IsErr err Canceled then plainResult StatusCancelled (-1)
  else match err with
       | Some _ => plainResult StatusFailed (-1)
       | None => if 0 <? failed then plainResult StatusFailed failed else plainResult StatusSucceeded 0
       end.

(** What a job publishes. *)
Inductive jobEvent : Type :=
  | JProgress (pct : Z) (phase note : bytes)
  | JAudit (name : bytes) (installed : list bytes) (failed : gmap bytes error)
  | JStderr (text : bytes)
  | JResult (res : Scripts.Result) (out : InstallResult).

(** [Runner] and [Audit]: whether they are set. *)
Record PatchDeps := {
  pd_Manager : option (res error Backend);
  pd_Refresh : option (M (PatchState * option error));
  pd_Runner : bool;
  pd_Audit : bool;
}.

(** [d.emit] *)
Definition emit (d : PatchDeps) (name : bytes) (installed : list bytes) (failed : gmap bytes error) : list jobEvent :=
  if pd_Audit d then [JAudit name installed failed] else [].

(** The callback [HandlePatchInstall] gives the backend: each progress report
    of the install is passed on. *)
Definition relay (e : event) : list jobEvent :=
  match e with
  | Ticked p =>
      [JProgress (ip_Pct p) PhaseRunning
         (if bool_decide (ip_UpdateID p = []) then ip_Phase p else ip_Phase p ++ [sp] ++ ip_UpdateID p)]
  | _ => []
  end.

Definition noResult : InstallResult := {| Installed := []; Failed := ∅; RebootRequired := false |}.
Definition noState : PatchState := {| ps_Patches := []; ps_Backend := []; ps_RebootRequired := false |}.

Definition HandlePatchScan (d : PatchDeps) : M (list jobEvent * (PatchState * option error)) :=
  match pd_Refresh d with
  | None => mret ([], (noState, Some (Sentinel "patch scan is not wired: RefreshPatchState is nil")))
  | Some refresh =>
      do* out := refresh in
      mret ([JProgress 10 PhaseRunning (str "scanning for updates")], out)
  end.

Definition HandlePatchInstall (d : PatchDeps) (ctx : context) (ids : list bytes) :
    M (list jobEvent * (InstallResult * option error)) :=
  if bool_decide (ids = [])
  then mret ([], (noResult, Some (Sentinel "patch install job carried no update ids")))
  else
    match pd_Manager d with
    | None => mret ([], (noResult, Some (Sentinel "patch install is not wired: Manager is nil")))
    | Some (Err e) => mret ([], (noResult, Some e))
    | Some (Ok mgr) =>
        do* before := gets ms_log in
        do* out := b_Install mgr ctx ids true in
        do* after := gets ms_log in
        do* _ := match pd_Refresh d with Some refresh => do* _ := refresh in mret tt | None => mret tt end in
        mret (JProgress 5 PhaseRunning (str "installing " ++ Itoa (Z.of_nat (length ids)) ++ str " update(s)") ::
              flat_map relay (drop (length before) after), out)
    end.

Section summaries.
(** [err.Error()] *)
Context (text : error -> bytes).

Definition countKind (kind : bytes) (l : list PatchEntry) : Z :=
  Z.of_nat (length (List.filter (fun p => bool_decide (pe_Kind p = kind)) l)).

(** The kinds in order, each with its count. *)
Definition describeCounts (l : list PatchEntry) : bytes :=
  JoinStr (str ", ")
    (map (fun kind => Itoa (countKind kind l) ++ [sp] ++ kind)
       (sortStrings (elements (list_to_set (map pe_Kind l) : gset bytes)))).

Definition scanSummary (state : PatchState) (err : option error) : bytes :=
  match err with
  | Some e => str "patch scan failed: " ++ text e
  | None =>
      let l := ps_Patches state in
      let unsupported := Z.of_nat (length (List.filter pe_Unsupported l)) in
      str "patch scan via " ++ ps_Backend state ++ str ": " ++ Itoa (Z.of_nat (length l)) ++ str " update(s) available" ++
      (if bool_decide (l = []) then [] else str " (" ++ describeCounts l ++ str ")") ++
      (if 0 <? unsupported then str "; " ++ Itoa unsupported ++ str " cannot be installed by the agent" else []) ++
      (if ps_RebootRequired state then str "; a reboot is already pending" else [])
  end.

Definition installSummary (ids : list bytes) (out : InstallResult) (err : option error) : bytes :=
  str "patch install: " ++ Itoa (Z.of_nat (length (Installed out))) ++ str " of " ++
  Itoa (Z.of_nat (length ids)) ++ str " requested update(s) installed" ++
  (if bool_decide (Failed out = ∅) then []
   else str "; failed: " ++
        JoinStr (str "; ")
          (sortStrings (map (fun ie => ie.1 ++ str ": " ++ text ie.2) (map_to_list (Failed out))))) ++
  (if RebootRequired out then str "; a reboot is required to finish" else []) ++
  match err with Some e => str "; error: " ++ text e | None => [] end.

Context (unmarshalObj : bytes -> option (list bytes * list bytes * list bytes)).
Context (unmarshalArr : bytes -> option (list bytes)).

Definition with_ms (ms : Z) (r : Scripts.Result) : Scripts.Result :=
  {| jr_Status := jr_Status r; jr_ExitCode := jr_ExitCode r; jr_DurationMS := ms;
     jr_Truncated := jr_Truncated r; jr_EntryID := jr_EntryID r; jr_UpdatedTo := jr_UpdatedTo r;
     jr_Finalizing := jr_Finalizing r |}.

Definition EventPatchScanned : bytes := str "patch.scanned".
Definition EventPatchInstalled : bytes := str "patch.installed".

(** [Execute]: the events, and the result it returns with what was installed. *)
Definition Execute (d : PatchDeps) (spec : JobSpec) : M (list jobEvent * (Scripts.Result * InstallResult)) :=
  do* started := gets ms_now in
  let ctx := {| ctx_deadline := Some (started + patchJobTimeout spec) |} in
  do* out :=
    (if bool_decide (Kind spec = KindPatchScan) then
       do* out := HandlePatchScan d in
       let '(evs, (state, err)) := out in
       mret (evs ++ emit d EventPatchScanned [] ∅, scanSummary state err, err, noResult)
     else if bool_decide (Kind spec = KindPatchInstall) then
       let ids := ParsePatchIDs unmarshalObj unmarshalArr (js_Body spec) in
       do* out := HandlePatchInstall d ctx ids in
       let '(evs, (r, err)) := out in
       mret (evs ++ emit d EventPatchInstalled (Installed r) (Failed r), installSummary ids r err, err, r)
     else
       mret ([], str "patch handler cannot run job kind", Some (Sentinel "patch handler cannot run job kind"),
             noResult)) in
  let '(evs, summary, err, r) := out in
  do* now := gets ms_now in
  let res := with_ms (Z.quot (Sub now started) 1000000) (patchResult err (Z.of_nat (size (Failed r)))) in
  mret (JProgress 0 PhaseStarted (Kind spec) :: evs ++
        (if pd_Runner d then [JStderr (str "everwas-agent: " ++ summary ++ [nl])] else []) ++
        JProgress 100 PhaseFinished (jr_Status res) ::
        (if pd_Runner d then [JResult res r] else []),
        (res, r)).

(** [runPatch] of jobs.go: what the module adds to the dependencies it was
    given. *)
Definition patchDepsOf (scripts audit : bool) (d : PatchDeps) : PatchDeps :=
  {| pd_Manager := pd_Manager d; pd_Refresh := pd_Refresh d; pd_Runner := pd_Runner d || scripts;
     pd_Audit := pd_Audit d || audit |}.
End summaries.
End backends.

(** ** The snapshot *)

(** What a list of published snapshots may hold: nothing, or the one state of a
    scan that came back, or of a host without a backend. *)
Definition publishable (mgr : res error Backend) (s : mstate) (state : PatchState) : Prop :=
  match mgr with
  | Err e => Is e ErrUnsupported = true /\ ps_Backend state = backendUnsupported /\ ps_Patches state = []
  | Ok b => exists us, (b_Scan b s).1 = Ok us /\ ps_Patches state = patchEntries us /\ ps_Backend state = b_Kind b
  end.

(** A failed scan is never published.  [RefreshNow] publishes a snapshot
    exactly when the scan came back or the host has no backend, and then it
    holds what the scan listed; a scan that failed is reported as an error and
    publishes nothing, so it cannot be taken for a fully patched host. *)
Theorem RefreshNow_publishes_only_a_scan (mgr : res error Backend) (publish : PatchState -> option error) (s : mstate) :
  let '((state, err), published) := (RefreshNow mgr publish s).1 in
  match published with
  | [] => is_Some err
  | [p] => p = state /\ err = publish state /\ publishable mgr s state
  | _ => False
  end.
Proof.
  unfold RefreshNow, mbind, collect. destruct mgr as [b|e]; cbn.
  - unfold mbind. destruct (b_Scan b s) as [[us|e] s1] eqn:E; cbn; [|eauto].
    destruct (b_RebootRequired b s1) as [reboot s2]. cbn. split_and!; [done|done|].
    by exists us.
  - destruct (Is e ErrUnsupported) eqn:E; cbn; [|eauto]. by split_and!.
Qed.

(** Scans are spread over the fleet but never late: the offset derived from
    the agent id is at least zero and below the window, for every id. *)
Theorem jitterFor_in_window (agentID : bytes) (window : Z) :
  0 < window -> 0 <= jitterFor agentID window < window /\
  jitterFor agentID window = jitterFor agentID window mod window.
Proof.
  intros Hw. unfold jitterFor. destruct (Z.leb_spec window 0); [lia|].
  pose proof (Z.mod_pos_bound (fnv64a agentID) window Hw). split; [lia|]. by rewrite Z.mod_mod by lia.
Qed.

Lemma jitterFor_in_window_witness : 0 < patchJitter /\ 0 <= jitterFor (str "agent-1") patchJitter < patchJitter.
Proof.
  assert (Hw : 0 < patchJitter) by reflexivity. split; [exact Hw|].
  exact (proj1 (jitterFor_in_window (str "agent-1") patchJitter Hw)).
Defined.

(** ** Ids from a job body *)

Lemma cleanIDs_elem raw id : id ∈ cleanIDs raw -> id ≠ [] /\ exists x, x ∈ raw /\ id = TrimSpace (TrimSuffix x [cr]).
Proof.
  unfold cleanIDs. rewrite list_elem_of_In, filter_In, <- list_elem_of_In. intros [Hin Hn].
  apply list_elem_of_fmap in Hin as (x & -> & Hx). bool_cases. eauto.
Qed.

(** An id as an operator writes it: trimmed, on one line. *)
Definition lineID (id : bytes) : Prop := trimmed id /\ nl ∉ id.

Lemma TrimSuffix_cr id : trimmed id -> TrimSuffix id [cr] = id.
Proof.
  intros (Hne & _ & Ht). unfold TrimSuffix. destruct (CutSuffix id [cr]) as [r|] eqn:E; [|done].
  apply CutSuffix_Some in E. subst id. by rewrite rev_app_distr in Ht.
Qed.

Lemma cleanIDs_lines ids : Forall lineID ids -> cleanIDs ids = ids.
Proof.
  unfold cleanIDs. induction 1 as [|id ids [Ht _] _ IH]; [done|]. cbn [map List.filter].
  rewrite (TrimSuffix_cr id Ht), (TrimSpace_trimmed id Ht), bool_decide_eq_false_2 by apply Ht. cbn [negb].
  by rewrite IH.
Qed.

Lemma Split_JoinStr ids : ids ≠ [] -> Forall lineID ids -> Split nl (JoinStr [nl] ids) = ids.
Proof.
  intros Hne Hf. induction Hf as [|id ids [Ht Hn] Hf IH]; [done|].
  destruct ids as [|id2 ids]; [cbn; by apply Split_no_sep|].
  rewrite JoinStr_cons. change (id ++ [nl] ++ JoinStr [nl] (id2 :: ids)) with (id ++ nl :: JoinStr [nl] (id2 :: ids)).
  by rewrite Split_app_sep, Split_no_sep, IH.
Qed.

Lemma JoinStr_trimmed ids : ids ≠ [] -> Forall lineID ids -> trimmed (JoinStr [nl] ids).
Proof.
  intros Hne Hf. induction Hf as [|id ids [Ht Hn] Hf IH]; [done|].
  destruct ids as [|id2 ids]; [done|]. rewrite JoinStr_cons. by apply trimmed_around, IH.
Qed.

(** A newline-separated job body gives back its ids, whatever they contain.
    Labels keep their spaces, order and duplicates are kept, and nothing is
    lost or made up; a body is read as JSON only if it opens as JSON. *)
Theorem ParsePatchIDs_roundtrip (unmarshalObj : bytes -> option (list bytes * list bytes * list bytes))
    (unmarshalArr : bytes -> option (list bytes)) (ids : list bytes) (id : bytes) :
  Forall lineID (id :: ids) -> head id ≠ Some "{"%char -> head id ≠ Some "["%char ->
  ParsePatchIDs unmarshalObj unmarshalArr (JoinStr [nl] (id :: ids)) = id :: ids.
Proof.
  intros Hf Hb Ha. pose proof (JoinStr_trimmed (id :: ids) ltac:(done) Hf) as Ht.
  unfold ParsePatchIDs. rewrite (TrimSpace_trimmed _ Ht).
  assert (Hh : head (JoinStr [nl] (id :: ids)) = head id).
  { inversion Hf as [|? ? [(Hne & _) _] _]; subst. destruct id as [|c id]; [done|]. by destruct ids. }
  destruct (JoinStr [nl] (id :: ids)) as [|c rest] eqn:E; [by destruct Ht|].
  cbn in Hh. rewrite <- Hh in Hb, Ha.
  rewrite bool_decide_eq_false_2 by congruence. rewrite bool_decide_eq_false_2 by congruence.
  rewrite <- E, Split_JoinStr by done. by apply cleanIDs_lines.
Qed.

Lemma ParsePatchIDs_roundtrip_witness :
  ParsePatchIDs (fun _ => None) (fun _ => None) (JoinStr [nl] [str "macOS Sequoia 15.5-24F74"; str "Safari18.5"]) =
  [str "macOS Sequoia 15.5-24F74"; str "Safari18.5"].
Proof.
  apply ParsePatchIDs_roundtrip; [|discriminate|discriminate].
  repeat constructor; unfold trimmed; try discriminate; apply (bool_decide_unpack _); reflexivity.
Defined.

(** ** Jobs *)

(** The deadline of a patch job is the server's, capped at a day, as long as
    the seconds fit in 64 bits of nanoseconds; without one it is four hours for
    an install and half an hour for a scan.  A larger number overflows into a
    deadline in the past. *)
Theorem patchJobTimeout_clamps_until_it_overflows (spec : JobSpec) :
  (TimeoutS spec <= 0 ->
     patchJobTimeout spec = if bool_decide (Kind spec = KindPatchInstall) then 4 * Hour else 30 * Minute) /\
  (0 < TimeoutS spec <= 9223372036 -> patchJobTimeout spec = Z.min (TimeoutS spec * Second) MaxTimeout) /\
  (TimeoutS spec = 10000000000 -> patchJobTimeout spec < 0).
Proof.
  unfold patchJobTimeout, defaultInstallTimeout, defaultScanTimeout. split_and!.
  - intros Ht. destruct (Z.ltb_spec 0 (TimeoutS spec)); [lia|done].
  - intros Ht. destruct (Z.ltb_spec 0 (TimeoutS spec)); [|lia].
    rewrite wrap64_id by (unfold in_int64, min_int64, max_int64, Second; lia).
    destruct (Z.ltb_spec (TimeoutS spec * Second) MaxTimeout); lia.
  - intros ->. by vm_compute.
Qed.

(** Seventy-five failed updates look like a busy host.  The exit code of a
    partly failed install is the number of failures, and 75 is also the code
    that tells the server to try again later: the two results are equal. *)
Theorem seventy_five_failures_look_busy :
  patchResult None 75 = patchResult (Some ErrBusy) 0 /\
  forall n, 0 < n -> n ≠ 75 -> patchResult None n ≠ patchResult (Some ErrBusy) 0.
Proof.
  split; [done|]. intros n Hn Hne. unfold patchResult. cbn -[StatusFailed].
  destruct (Z.ltb_spec 0 n); [|lia]. intros [= E]. unfold exitBusy in E. lia.
Qed.

Lemma patchResult_succeeded err n :
  0 <= n -> jr_Status (patchResult err n) = StatusSucceeded -> err = None /\ n = 0.
Proof.
  intros Hn. unfold patchResult. destruct (IsErr err ErrBusy); [done|]. destruct (IsErr err DeadlineExceeded); [done|].
  destruct (IsErr err Canceled); [done|]. destruct err; [done|]. destruct (Z.ltb_spec 0 n); [done|]. split; [done|lia].
Qed.

Section jobs.
Context {H : Host} (text : error -> bytes).
Context (unmarshalObj : bytes -> option (list bytes * list bytes * list bytes)).
Context (unmarshalArr : bytes -> option (list bytes)).
Local Abbreviation Execute := (Execute text unmarshalObj unmarshalArr).
Local Abbreviation ParsePatchIDs := (ParsePatchIDs unmarshalObj unmarshalArr).

(** What an install job did, read off [Execute]. *)
Lemma Execute_install d spec s :
  Kind spec = KindPatchInstall ->
  let ids := ParsePatchIDs (js_Body spec) in
  let ctx := {| ctx_deadline := Some (ms_now s + patchJobTimeout spec) |} in
  let run := HandlePatchInstall d ctx ids s in
  exists ms, (Execute d spec s).1.2 =
    (with_ms ms (patchResult run.1.2.2 (Z.of_nat (size (Failed run.1.2.1)))), run.1.2.1).
Proof.
  intros Hk. cbn zeta. unfold PatchJobs.Execute. unfold mbind at 1, gets at 1. cbn beta iota.
  rewrite Hk. rewrite bool_decide_eq_false_2 by discriminate. rewrite bool_decide_eq_true_2 by done.
  unfold mbind. destruct (HandlePatchInstall _ _ _ s) as [[evs [r err]] s1]. cbn. eauto.
Qed.

(** A handler that returned without error installed through the backend. *)
Lemma HandlePatchInstall_ok d ctx ids s evs r s1 :
  HandlePatchInstall d ctx ids s = ((evs, (r, None)), s1) ->
  exists b s', pd_Manager d = Some (Ok b) /\ b_Install b ctx ids true s = ((r, None), s').
Proof.
  unfold HandlePatchInstall. case_bool_decide; [done|]. destruct (pd_Manager d) as [[b|e]|]; [|done|done].
  unfold mbind, gets. destruct (b_Install b ctx ids true s) as [[r' err] s2] eqn:E.
  destruct (pd_Refresh d) as [refresh|]; [destruct (refresh s2) as [x s3]|]; intros [= _ <- -> _]; eauto.
Qed.

(** C6: A patch job that succeeded installed everything it was asked for.  With
    any backend that keeps the accounting promise, an install job whose result
    says "succeeded" lists every id of its body as installed, and its exit code
    is zero. *)
Theorem succeeded_install_is_complete (b : Backend) (distinct : list bytes -> Prop)
    (refresh : option (M (PatchState * option error))) (runner audit : bool) (spec : JobSpec) (s : mstate) :
  Accounting b distinct ->
  Kind spec = KindPatchInstall ->
  distinct (ParsePatchIDs (js_Body spec)) ->
  let d := {| pd_Manager := Some (Ok b); pd_Refresh := refresh; pd_Runner := runner; pd_Audit := audit |} in
  let '(res, out) := (Execute d spec s).1.2 in
  jr_Status res = StatusSucceeded ->
  jr_ExitCode res = 0 /\ forall id, id ∈ ParsePatchIDs (js_Body spec) -> id ≠ [] -> id ∈ Installed out.
Proof.
  intros Hacc Hk Hd d.
  destruct (Execute_install d spec s Hk) as [ms E]. rewrite E.
  set (ids := ParsePatchIDs (js_Body spec)) in *.
  set (ctx := {| ctx_deadline := Some (ms_now s + patchJobTimeout spec) |}) in *.
  set (run := HandlePatchInstall d ctx ids s) in *. cbn [jr_Status with_ms]. intros Hs.
  destruct (patchResult_succeeded _ _ (Nat2Z.is_nonneg _) Hs) as [Hnone Hz].
  split; [unfold with_ms; cbn [jr_ExitCode]; by rewrite Hnone, Hz|].
  destruct run as [[evs [r err]] s1] eqn:Er. cbn [fst snd] in *. subst err.
  apply HandlePatchInstall_ok in Er as (b' & s' & Hb & Hrun). injection Hb as <-. intros id Hid Hne.
  destruct (accounts ctx ids true s _ s' Hd Hrun id Hid Hne) as [?|[e He]]; [done|].
  assert (Hemp : Failed r = ∅) by (apply map_size_empty_iff; lia). by rewrite Hemp, lookup_empty in He.
Qed.
End jobs.

Definition installSpec : JobSpec :=
  {| JobID := str "j1"; Kind := KindPatchInstall; Shell := []; js_Body := opensslID; TimeoutS := 0; js_Env := ∅;
     RequestedBy := []; EntryID := [] |}.

Lemma succeeded_install_is_complete_witness :
  let out := (Execute (fun _ => []) (fun _ => None) (fun _ => None)
    {| pd_Manager := Some (Ok (@linuxBackend aptHost APT)); pd_Refresh := None; pd_Runner := true; pd_Audit := true |} installSpec idle).1.2 in
  jr_Status out.1 = StatusSucceeded /\ opensslID ∈ Installed out.2.
Proof.
  cbn zeta.
  pose proof (succeeded_install_is_complete (fun _ => []) (fun _ => None) (fun _ => None)
    (@linuxBackend aptHost APT) _ None true true installSpec idle (@linux_accounting aptHost APT) eq_refl) as Hthm.
  assert (Hd : NoDup (omap (keyOf APT) (dedupeIDs (ParsePatchIDs (fun _ => None) (fun _ => None) (js_Body installSpec))))).
  { vm_compute. repeat constructor. by intros ?%not_elem_of_nil. }
  specialize (Hthm Hd). cbv zeta in Hthm.
  destruct (PatchJobs.Execute _ _ _ _ installSpec idle).1.2 as [res out] eqn:E.
  assert (Hs : jr_Status res = StatusSucceeded).
  { apply (f_equal fst) in E. cbn [fst] in E. rewrite <- E. vm_compute. reflexivity. }
  split; [exact Hs|]. apply (proj2 (Hthm Hs)); [|discriminate]. vm_compute. left.
Defined.
