(* ===== verification/Netcert.v ===== *)
(** * Netcert: the device's network certificate (agent/internal/netcert)

    netcert.go, request.go, key.go and key_other.go: what is on disk, when it
    is renewed, and how a renewal is committed, on the disk of [GoOS] with its
    faults.  X.509, key generation, SHA-256 and HTTP are parameters; the
    floating point of the phase computation is that of SpecFloat. *)
From S2P Require Import Prelude GoLib GoText GoOS.
From Stdlib Require Import Floats.SpecFloat.

(** ** Constants and errors *)

Definition keyFileName : bytes := str "network.key".
Definition certFileName : bytes := str "network.crt".
Definition chainFileName : bytes := str "network-chain.pem".

Definition ErrNoCertificate : error := Sentinel "netcert: no certificate on this device".
Definition ErrNotConfigured : error := Sentinel "netcert: server is not issuing certificates".

(** What [x509.ParseCertificate] reads; [ci_key] is the public key. *)
Record certInfo := {
  ci_NotBefore : Z;
  ci_NotAfter : Z;
  ci_Serial : Z;
  ci_key : bytes;
}.

Record Material := {
  mt_CertPath : bytes;
  mt_KeyPath : bytes;
  mt_ChainPath : bytes;
  mt_NotAfter : Z;
  mt_NotBefore : Z;
  mt_Serial : bytes;
  mt_Issued : bool;
}.

(** [fmt.Sprintf("%x", n)] of a big integer. *)
Fixpoint hexUtoa (fuel : nat) (n : Z) (acc : bytes) : bytes :=
  match fuel with
  | O => acc
  | S fuel' =>
      let acc := hex_digit (n mod 16) :: acc in
      if n / 16 =? 0 then acc else hexUtoa fuel' (n / 16) acc
  end.
Definition serialHex (serial : Z) : bytes :=
  if serial <? 0 then str "-" ++ hexUtoa (S (Z.to_nat (Z.log2 (- serial)))) (- serial) []
  else hexUtoa (S (Z.to_nat (Z.log2 serial))) serial [].

(** ** When to renew *)

(** [float64(z)] of a non-negative [int64]: 53 bits, ties to even. *)
Definition round53 (z : Z) : Z :=
  if z <? 2 ^ 53 then z
  else
    let e := Z.log2 z - 52 in
    let q := z / 2 ^ e in
    let r := z mod 2 ^ e in
    let half := 2 ^ (e - 1) in
    let q := if (half <? r) || ((half =? r) && Z.odd q) then q + 1 else q in
    q * 2 ^ e.

(** [time.Duration(float64(life)*RenewAt)]: halving a float is exact, and the
    conversion truncates. *)
Definition halfLife (life : Z) : Z := round53 life / 2.

Definition DueForRenewal (m : option Material) (now : Z) : bool :=
  match m with
  | None => true
  | Some m =>
      let life := Sub (mt_NotAfter m) (mt_NotBefore m) in
      if life <=? 0 then true
      else if Before now (mt_NotBefore m) then true
      else halfLife life <=? Sub now (mt_NotBefore m)
  end.

Inductive Phase : Type := PhaseFresh | PhaseDue | PhaseUrgent | PhaseExpired.

(** [float64] arithmetic. *)
Definition f64 (z e : Z) : spec_float := binary_normalize 53 1024 z e false.
Definition fadd := SFadd 53 1024.
Definition fmul := SFmul 53 1024.
Definition fdiv := SFdiv 53 1024.
Definition fle (a b : spec_float) : bool :=
  match SFcompare a b with Some Lt | Some Eq => true | _ => false end.

Definition RenewAt : spec_float := f64 1 (-1).
Definition UrgentAt : spec_float := f64 7 (-3).
Definition RenewJitter : spec_float := fdiv (f64 1 0) (f64 20 0).

(** [d.Seconds()] *)
Definition Seconds (d : Z) : spec_float :=
  fadd (f64 (Z.quot d Second) 0) (fdiv (f64 (Z.rem d Second) 0) (f64 Second 0)).

Section renewal.
Context (sha256 : bytes -> bytes).

(** [binary.BigEndian.Uint32(sum[:4])] *)
Definition sum32 (id : bytes) : Z :=
  fold_left (fun n c => n * 256 + code c) (take 4 (sha256 id)) 0.

Definition renewalOffset (id : bytes) : spec_float :=
  fmul (fdiv (f64 (sum32 id) 0) (f64 (2 ^ 32 - 1) 0)) RenewJitter.

Definition PhaseAt (m : option Material) (now : Z) (id : bytes) : Phase :=
  match m with
  | None => PhaseExpired
  | Some m =>
      let life := Sub (mt_NotAfter m) (mt_NotBefore m) in
      if life <=? 0 then PhaseExpired
      else if negb (Before now (mt_NotAfter m)) then PhaseExpired
      else if Before now (mt_NotBefore m) then PhaseDue
      else
        let elapsed := fdiv (Seconds (Sub now (mt_NotBefore m))) (Seconds life) in
        if fle UrgentAt elapsed then PhaseUrgent
        else if fle (fadd RenewAt (renewalOffset id)) elapsed then PhaseDue
        else PhaseFresh
  end.

(** [keyContainerName] *)
Definition keyContainerPrefix : bytes := str "everwas-8021x-".
Definition keyContainerName (deviceID predecessorSerial : bytes) : bytes :=
  keyContainerPrefix ++ HexEncode (take 16 (sha256 (deviceID ++ [chr 0] ++ predecessorSerial))).
End renewal.

(** ** Request *)

(** What the HTTP exchange comes to: no response, or a status and a body. *)
Inductive httpReply : Type := NoReply (e : error) | Status (code : Z) (body : bytes).

Section certs.
(** Decoding the response (certificate and chain), parsing a certificate, and
    the public half of a private key. *)
Context (decode : bytes -> res error (bytes * bytes)).
Context (parseCert : bytes -> res error certInfo).
Context (publicOf : bytes -> option bytes).

Definition Request (reply : httpReply) : res error (bytes * bytes) :=
  match reply with
  | NoReply e => Err (Errorf "netcert" e)
  | Status code body =>
      if code =? 200 then
        match decode body with
        | Err e => Err (Errorf "netcert: decode response" e)
        | Ok (certPEM, chainPEM) =>
            if bool_decide (certPEM = []) || bool_decide (chainPEM = [])
            then Err (Sentinel "netcert: server returned an incomplete certificate")
            else Ok (certPEM, chainPEM)
        end
      else if code =? 503 then Err ErrNotConfigured
      else if code =? 403 then Err (Sentinel "netcert: server refused the certificate request")
      else Err (Sentinel "netcert: server returned")
  end.

(** ** The disk *)

Section dir.
Context (dir : bytes).

Definition keyPath : path := Join dir keyFileName.
Definition certPath : path := Join dir certFileName.
Definition chainPath : path := Join dir chainFileName.

Definition materialOf (c : certInfo) : Material :=
  {| mt_CertPath := certPath; mt_KeyPath := keyPath; mt_ChainPath := chainPath;
     mt_NotAfter := ci_NotAfter c; mt_NotBefore := ci_NotBefore c; mt_Serial := serialHex (ci_Serial c);
     mt_Issued := false |}.

Definition writeKey (pemBytes : bytes) : io (res error unit) :=
  try* _ := WriteFile keyPath pemBytes 384 orelse Errorf "netcert: write key" in
  try* _ := Sync keyPath orelse Errorf "netcert: sync key" in
  ret (Ok tt).

Definition Save (certPEM chainPEM : bytes) : io (res error Material) :=
  match parseCert certPEM with
  | Err e => ret (Err e)
  | Ok cert =>
      try* _ := WriteFile chainPath chainPEM 420 orelse Errorf "netcert: write" in
      try* _ := WriteFile certPath certPEM 420 orelse Errorf "netcert: write" in
      ret (Ok (materialOf cert))
  end.

Definition saveAll (keyPEM certPEM chainPEM : bytes) : io (res error Material) :=
  try* _ := MkdirAll dir in
  try* _ := writeKey keyPEM in
  Save certPEM chainPEM.

Definition Load : io (res error Material) :=
  let* raw := ReadFile certPath in
  match raw with
  | Err e => ret (Err (if Is e ErrNotExist then ErrNoCertificate else Errorf "netcert: read certificate" e))
  | Ok raw => ret (match parseCert raw with Err e => Err e | Ok cert => Ok (materialOf cert) end)
  end.

Definition issued (m : Material) : Material :=
  {| mt_CertPath := mt_CertPath m; mt_KeyPath := mt_KeyPath m; mt_ChainPath := mt_ChainPath m;
     mt_NotAfter := mt_NotAfter m; mt_NotBefore := mt_NotBefore m; mt_Serial := mt_Serial m;
     mt_Issued := true |}.

(** [ensure] with the Unix key maker, whose key is memory until it is saved:
    [newKey] is the key pair it makes, [csr] the request built from it, and
    [server] what the server answers.  Both halves of Go's pair are kept. *)
Section ensure.
Context (newKey : res error bytes) (csr : bytes -> res error bytes) (server : bytes -> httpReply).

Definition renewFrom (existing : option Material) : io (option Material * option error) :=
  match newKey with
  | Err e => ret (None, Some e)
  | Ok keyPEM =>
      match csr keyPEM with
      | Err e => ret (None, Some e)
      | Ok request =>
          match Request (server request) with
          | Err e => ret (existing, Some e)
          | Ok (certPEM, chainPEM) =>
              let* r := saveAll keyPEM certPEM chainPEM in
              ret (match r with Err e => (None, Some e) | Ok m => (Some (issued m), None) end)
          end
      end
  end.

Definition ensure (now : Z) : io (option Material * option error) :=
  let* existing := Load in
  match existing with
  | Err e => if Is e ErrNoCertificate then renewFrom None else ret (None, Some e)
  | Ok m => if negb (DueForRenewal (Some m) now) then ret (Some m, None) else renewFrom (Some m)
  end.
End ensure.
End dir.
End certs.

(** ** Theorems *)

Lemma Sub_range a b : in_int64 (Sub a b).
Proof. apply sat64_range. Qed.

Lemma log2_bounds z : 2 ^ 53 <= z -> 2 ^ (Z.log2 z) <= z < 2 ^ (Z.log2 z + 1) /\ 53 <= Z.log2 z.
Proof.
  intros Hz. destruct (Z.log2_spec z ltac:(lia)). split; [lia|].
  apply Z.log2_le_pow2; lia.
Qed.

(** Rounding to 53 bits is exact below and never more than doubles above. *)
Lemma round53_le z : 0 < z -> 0 <= round53 z <= 2 * z.
Proof.
  intros Hz. unfold round53. destruct (Z.ltb_spec z (2 ^ 53)); [lia|].
  destruct (log2_bounds z ltac:(lia)) as [[Hlo Hhi] Hl]. set (e := Z.log2 z - 52).
  assert (He : 0 < 2 ^ e) by (apply Z.pow_pos_nonneg; unfold e; lia).
  assert (Hez : 2 ^ e <= z) by (etrans; [apply (Z.pow_le_mono_r 2 e (Z.log2 z)); unfold e; lia|exact Hlo]).
  pose proof (Z.mul_div_le z (2 ^ e) He). pose proof (Z.div_pos z (2 ^ e) ltac:(lia) He).
  destruct (_ || _); nia.
Qed.

(** Renewal starts at half life.  For a certificate that lives less than
    2^53 nanoseconds (a hundred and four days, so every ninety-day one), renewal
    is due exactly from the middle of its life; and whatever its life, one that
    has expired, is not valid yet, makes no sense or does not exist is due. *)
Theorem DueForRenewal_at_half_life (m : Material) (now : Z) :
  let life := mt_NotAfter m - mt_NotBefore m in
  in_int64 (mt_NotAfter m) -> in_int64 (mt_NotBefore m) -> in_int64 now ->
  DueForRenewal None now = true /\
  (0 < life < 2 ^ 53 -> mt_NotBefore m <= now ->
     DueForRenewal (Some m) now = true <-> life / 2 <= now - mt_NotBefore m) /\
  (mt_NotAfter m <= now \/ now < mt_NotBefore m \/ life <= 0 -> DueForRenewal (Some m) now = true).
Proof.
  cbn zeta. unfold in_int64, min_int64, max_int64. intros Ha Hb Hn. split; [done|].
  unfold DueForRenewal, Before, Sub, sat64, min_int64, max_int64. split.
  - intros Hl Hv. rewrite Z.min_r, Z.max_r by lia.
    destruct (Z.leb_spec (mt_NotAfter m - mt_NotBefore m) 0); [lia|].
    destruct (Z.ltb_spec now (mt_NotBefore m)); [lia|]. unfold halfLife, round53.
    destruct (Z.ltb_spec (mt_NotAfter m - mt_NotBefore m) (2 ^ 53)); [|lia].
    rewrite Z.leb_le. pose proof (Z.div_le_upper_bound (mt_NotAfter m - mt_NotBefore m) 2 (2 ^ 53) ltac:(lia) ltac:(lia)).
    lia.
  - intros Hcase. destruct (Z.leb_spec (Z.max (- 2 ^ 63) (Z.min (2 ^ 63 - 1) (mt_NotAfter m - mt_NotBefore m))) 0); [done|].
    destruct (Z.ltb_spec now (mt_NotBefore m)); [done|]. apply Z.leb_le.
    set (life := Z.max _ _) in *. pose proof (round53_le life ltac:(lia)). unfold halfLife.
    assert (round53 life / 2 <= life) by (apply Z.div_le_upper_bound; lia). lia.
Qed.

Section commit.
Context (decode : bytes -> res error (bytes * bytes)) (parseCert : bytes -> res error certInfo).
Context (publicOf : bytes -> option bytes) (dir : bytes).
Context (newKey : res error bytes) (csr : bytes -> res error bytes) (server : bytes -> httpReply).
Local Abbreviation ensure := (ensure decode parseCert dir newKey csr server).
Local Abbreviation renewFrom := (renewFrom decode parseCert dir newKey csr server).
Local Abbreviation keyPath := (keyPath dir).
Local Abbreviation certPath := (certPath dir).
Local Abbreviation chainPath := (chainPath dir).

(** The key on disk is the one the certificate on disk was issued for. *)
Definition paired (d : disk) : Prop :=
  exists k c ci, d !! keyPath = Some k /\ d !! certPath = Some c /\
    parseCert (f_data c) = Ok ci /\ publicOf (f_data k) = Some (ci_key ci).

Definition refused : Prop :=
  forall keyPEM req, newKey = Ok keyPEM -> csr keyPEM = Ok req -> exists e, Request decode (server req) = Err e.

Lemma wp_LoadMaterial (Q : res error Material -> world -> Prop) (C : disk -> Prop) w :
  (forall r fs, Q r (World (files w) (clock w) (ticks w) fs)) -> C (files w) -> wp (Load parseCert dir) Q C w.
Proof.
  intros HQ HC. unfold Load. apply wp_bind, wp_ReadFile; [| |done].
  - intros fs. destruct (files w !! certPath); apply wp_ret, HQ.
  - intros fs. apply wp_ret, HQ.
Qed.

(** A renewal the server does not grant costs nothing.  When no certificate
    comes back (the server is unreachable, refuses, has no CA or answers
    nonsense), nothing on disk changes, whatever fails and even if the machine
    dies meanwhile; and what the device held is returned beside the error. *)
Theorem refused_renewal_changes_nothing (now : Z) (w : world) :
  refused -> wp (ensure now) (fun out w' => files w' = files w) (fun d => d = files w) w.
Proof.
  intros Href. unfold Netcert.ensure. apply wp_bind, wp_LoadMaterial; [|done]. intros r fs.
  assert (Hr : forall ex, wp (renewFrom ex) (fun out w' => files w' = files w) (fun d => d = files w)
    (World (files w) (clock w) (ticks w) fs)).
  { intros ex. unfold Netcert.renewFrom. destruct newKey as [k|e] eqn:Ek; [|by apply wp_ret].
    destruct (csr k) as [req|e] eqn:Ec; [|by apply wp_ret].
    destruct (Href k req Ek Ec) as [e ->]. by apply wp_ret. }
  destruct r as [m|e]; [destruct (negb _); [by apply wp_ret|apply Hr]|].
  destruct (Is e ErrNoCertificate); [apply Hr|by apply wp_ret].
Qed.

(** The CA signs the key it was sent a request for. *)
Definition honest_ca : Prop :=
  forall keyPEM req certPEM chainPEM, newKey = Ok keyPEM -> csr keyPEM = Ok req ->
    Request decode (server req) = Ok (certPEM, chainPEM) ->
    exists ci, parseCert certPEM = Ok ci /\ publicOf keyPEM = Some (ci_key ci).

Lemma paths_differ : keyPath ≠ certPath /\ keyPath ≠ chainPath /\ chainPath ≠ certPath.
Proof. split_and!; apply Join_ne; discriminate. Qed.

Lemma saveAll_pairs keyPEM certPEM chainPEM ci w :
  parseCert certPEM = Ok ci -> publicOf keyPEM = Some (ci_key ci) ->
  wp (saveAll parseCert dir keyPEM certPEM chainPEM)
    (fun r w' => forall m, r = Ok m -> paired (files w') /\
       exists c, files w' !! chainPath = Some c /\ f_data c = chainPEM) (fun _ => True) w.
Proof.
  intros Hp Hk. destruct paths_differ as (H1 & H2 & H3). unfold saveAll.
  apply wp_try, wp_MkdirAll; [|done|done]. intros fs. apply wp_try. unfold writeKey.
  apply wp_try_as, wp_WriteFile; [|intros; split; done]. intros fs1. cbn [files with_faults].
  apply wp_try_as, wp_Sync; [|done|done]. intros fs2. apply wp_ret. unfold Save. rewrite Hp.
  apply wp_try_as, wp_WriteFile; [|intros; split; done]. intros fs3.
  apply wp_try_as, wp_WriteFile; [|intros; split; done]. intros fs4. apply wp_ret. intros m _.
  cbn [files with_faults]. set (d := files w). split.
  - eexists _, _, ci. split_and!; [|by rewrite lookup_insert_eq| |].
    + by rewrite !lookup_insert_ne, lookup_insert_eq by done.
    + unfold written. rewrite <- Hp. f_equal. by destruct (_ !! certPath).
    + rewrite <- Hk. f_equal. unfold written. by destruct (d !! keyPath).
  - eexists. rewrite lookup_insert_ne, lookup_insert_eq by done. split; [done|].
    unfold written. by destruct (_ !! chainPath).
Qed.

(** A renewal that succeeds leaves a working identity.  With a CA that signs
    the key it is asked to sign, whenever [ensure] returns a fresh certificate
    the key on disk is the one it was issued for and its chain is beside it,
    whatever was on disk before. *)
Theorem issued_certificate_matches_its_key (now : Z) (w : world) :
  honest_ca ->
  wp (ensure now) (fun out w' => forall m, out = (Some m, None) -> mt_Issued m = true ->
    paired (files w') /\ is_Some (files w' !! chainPath)) (fun _ => True) w.
Proof.
  intros Hca. unfold Netcert.ensure. unfold Load. apply wp_bind. apply wp_bind, wp_ReadFile; [| |done]; intros fs.
  2: { apply wp_ret. by apply wp_ret. }
  assert (Hr : forall ex w0, (forall m, ex = Some m -> mt_Issued m = false) ->
    wp (renewFrom ex) (fun out w' => forall m, out = (Some m, None) -> mt_Issued m = true ->
      paired (files w') /\ is_Some (files w' !! chainPath)) (fun _ => True) w0).
  { intros ex w0 Hex. unfold Netcert.renewFrom. destruct newKey as [k|e] eqn:Ek; [|by apply wp_ret].
    destruct (csr k) as [req|e] eqn:Ec; [|by apply wp_ret].
    destruct (Request decode (server req)) as [[c ch]|e] eqn:Er; [|by apply wp_ret].
    destruct (Hca k req c ch Ek Ec Er) as (ci & Hp & Hk).
    apply wp_bind. eapply wp_mono; [by eapply saveAll_pairs| |done].
    intros r w1 Hpair. cbn beta in Hpair. apply wp_ret. destruct r as [m|e]; [|done]. intros m' [= <-] _.
    destruct (Hpair m eq_refl) as (? & f & Hf & _). split; [done|]. rewrite Hf. eauto. }
  destruct (files w !! certPath) as [f|]; apply wp_ret.
  - destruct (parseCert (f_data f)) as [ci|e].
    + destruct (negb _); [apply wp_ret; by intros m [= <-]|]. apply Hr. by intros m [= <-].
    + destruct (Is e ErrNoCertificate); [by apply Hr|by apply wp_ret].
  - by apply Hr.
Qed.
End commit.

(** *** A toy CA *)

(** Keys are one character; a certificate is its key's character and a letter
    for its age. *)
Definition toyPublic (k : bytes) : option bytes := match k with [c] => Some [c] | _ => None end.
Definition toyCert (s : bytes) : res error certInfo :=
  match s with
  | [k; a] => Ok {| ci_NotBefore := 0; ci_NotAfter := 90 * 24 * Hour; ci_Serial := code a; ci_key := [k] |}
  | _ => Err (Sentinel "netcert: certificate is not PEM")
  end.
Definition toyDecode (body : bytes) : res error (bytes * bytes) := Ok (body, str "chain").
Definition toyServer (req : bytes) : httpReply := Status 200 (req ++ str "2").
Definition toyEnsure (fs : list fault) (d : disk) : outcome (option Material * option error) * world :=
  ensure toyDecode toyCert (str "/n") (Ok (str "B")) Ok toyServer (60 * 24 * Hour) (World d 0 [] fs).

(** A device with key A and the certificate for it, past its half life. *)
Definition toyDisk : disk :=
  <[keyPath (str "/n") := File (str "A") true 384]>
  (<[certPath (str "/n") := File (str "A1") true 420]> ∅).

Definition pairedb (d : disk) : bool :=
  match d !! keyPath (str "/n"), d !! certPath (str "/n") with
  | Some k, Some c =>
      match toyCert (f_data c), toyPublic (f_data k) with
      | Ok ci, Some p => bool_decide (p = ci_key ci)
      | _, _ => false
      end
  | _, _ => false
  end.

Lemma pairedb_spec d : pairedb d = false -> ~ paired toyCert toyPublic (str "/n") d.
Proof.
  unfold pairedb. intros Hb (k & c & ci & Hk & Hc & Hp & Hm). rewrite Hk, Hc, Hp, Hm in Hb.
  by rewrite bool_decide_eq_true_2 in Hb.
Qed.

(** A renewal that fails half way takes a working device off the network.
    The new key is written over the old one before the certificate for it: if
    writing the chain then fails (or the process is killed there), [ensure] reports
    an error and the key on disk no longer belongs to the certificate on disk,
    although both did before and the comment in [ensure] promises that a
    renewal can never leave the device worse off. *)
Theorem failed_save_breaks_the_pair :
  paired toyCert toyPublic (str "/n") toyDisk /\
  (forall f, f = Fails 0 \/ f = Dies 0 ->
    let '(out, w') := toyEnsure [Proceed; Proceed; Proceed; Proceed; f] toyDisk in
    ~ paired toyCert toyPublic (str "/n") (files w') /\
    match out with Ret (_, err) => is_Some err | Died => True end).
Proof.
  split.
  - exists (File (str "A") true 384), (File (str "A1") true 420). eexists. split_and!; reflexivity.
  - intros f [-> | ->]; vm_compute toyEnsure; (split; [by apply pairedb_spec|]); [by eexists|done].
Qed.

Lemma refused_renewal_changes_nothing_witness :
  let run := ensure toyDecode toyCert (str "/n") (Ok (str "B")) Ok (fun _ => Status 503 []) (60 * 24 * Hour) in
  wp run (fun out w' => files w' = toyDisk) (fun d => d = toyDisk) (World toyDisk 0 [] [Proceed; Fails 3]) /\
  exists m, (run (World toyDisk 0 [] [])).1 = Ret (Some m, Some ErrNotConfigured).
Proof.
  split.
  - apply (refused_renewal_changes_nothing toyDecode toyCert (str "/n") (Ok (str "B")) Ok (fun _ => Status 503 [])
      (60 * 24 * Hour) (World toyDisk 0 [] [Proceed; Fails 3])). intros k req _ _. eexists. reflexivity.
  - eexists. vm_compute. reflexivity.
Defined.

Lemma issued_certificate_matches_its_key_witness :
  wp (ensure toyDecode toyCert (str "/n") (Ok (str "B")) Ok toyServer (60 * 24 * Hour))
    (fun out w' => forall m, out = (Some m, None) -> mt_Issued m = true ->
       paired toyCert toyPublic (str "/n") (files w') /\ is_Some (files w' !! chainPath (str "/n")))
    (fun _ => True) (World toyDisk 0 [] []) /\
  exists m, (toyEnsure [] toyDisk).1 = Ret (Some m, None) /\ mt_Issued m = true.
Proof.
  split.
  - apply (issued_certificate_matches_its_key toyDecode toyCert toyPublic (str "/n") (Ok (str "B")) Ok toyServer).
    intros k req c ch [= <-] [= <-] [= <- <-]. eexists. split; reflexivity.
  - eexists. split; vm_compute; reflexivity.
Defined.

Definition ninetyDays : Material :=
  {| mt_CertPath := []; mt_KeyPath := []; mt_ChainPath := []; mt_NotAfter := 90 * 24 * Hour; mt_NotBefore := 0;
     mt_Serial := []; mt_Issued := false |}.

Lemma DueForRenewal_at_half_life_witness :
  DueForRenewal (Some ninetyDays) (45 * 24 * Hour) = true /\ DueForRenewal (Some ninetyDays) (45 * 24 * Hour - 1) = false.
Proof.
  destruct (DueForRenewal_at_half_life ninetyDays (45 * 24 * Hour)) as (_ & H1 & _); [by vm_compute..|].
  split; [|reflexivity]. apply H1; by vm_compute.
Defined.

(** The fleet's renewals are not spread.  The phase, which is what is logged
    and reported, waits for the device's share of [RenewJitter]; the decision
    to renew does not know the device, so machines imaged on the same afternoon
    ask for their certificates at the same instant, while their phase still
    says there is nothing to do. *)
Theorem renewal_ignores_the_jitter (sha256 : bytes -> bytes) (id : bytes) :
  sha256 id = map chr [255; 255; 255; 255] ->
  let now := 46 * 24 * Hour in
  DueForRenewal (Some ninetyDays) now = true /\ PhaseAt sha256 (Some ninetyDays) now id = PhaseFresh.
Proof.
  intros Hs. split; [reflexivity|]. unfold PhaseAt, renewalOffset, sum32. rewrite Hs. vm_compute. reflexivity.
Qed.

Lemma renewal_ignores_the_jitter_witness :
  PhaseAt (fun _ => map chr [255; 255; 255; 255]) (Some ninetyDays) (46 * 24 * Hour) (str "agent") = PhaseFresh.
Proof. apply (renewal_ignores_the_jitter (fun _ => map chr [255; 255; 255; 255]) (str "agent") eq_refl). Defined.
