(* ===== verification/Identity.v ===== *)
(** * Identity: who this machine is, on disk and on the network

    The state file agent.json (config/config.go), the move of a directory left
    by a build from before the rename (config/migrate.go), the directory it
    lives in (secure/secure.go), and the policy that decides whether the agent
    provides the machine's 802.1X identity at all (winident/winident.go,
    winident/defer.go). *)
From S2P Require Import Prelude GoLib GoText GoOS.

(** ** config *)

Definition FileName : bytes := str "agent.json".

Record Config := mkConfig {
  ServerURL : bytes;
  AgentID : bytes;
  AgentSecret : bytes;
  NATSURL : bytes;
  NetworkIdentity : bytes;
  NetworkIdentityPolicy : bytes;
}.

Definition emptyConfig : Config := mkConfig [] [] [] [] [] [].

#[global] Instance Config_eq_dec : EqDecision Config.
Proof. solve_decision. Defined.

(** As JSON: every field comes back as valid UTF-8, and nothing is refused. *)
#[export] Instance Config_encoding : Encoding Config := {|
  stored c := mkConfig (utf8Text (ServerURL c)) (utf8Text (AgentID c)) (utf8Text (AgentSecret c)) (utf8Text (NATSURL c))
    (utf8Text (NetworkIdentity c)) (utf8Text (NetworkIdentityPolicy c));
  writable _ := True;
  decoded c := Forall (fun x => utf8Text x = x)
    [ServerURL c; AgentID c; AgentSecret c; NATSURL c; NetworkIdentity c; NetworkIdentityPolicy c];
|}.

(** The two assignments the agent makes to a loaded configuration. *)
Definition set_AgentSecret (s : bytes) (c : Config) : Config :=
  mkConfig (ServerURL c) (AgentID c) s (NATSURL c) (NetworkIdentity c) (NetworkIdentityPolicy c).
Definition set_NetworkIdentityPolicy (p : bytes) (c : Config) : Config :=
  mkConfig (ServerURL c) (AgentID c) (AgentSecret c) (NATSURL c) (NetworkIdentity c) p.

(** [None] is the nil [*Config]. *)
Definition EffectiveNetworkIdentity (c : option Config) : bytes :=
  match c with
  | None => []
  | Some c => if negb (bool_decide (NetworkIdentity c = [])) then NetworkIdentity c else NetworkIdentityPolicy c
  end.

Definition Enrolled (c : option Config) : bool :=
  match c with
  | None => false
  | Some c => negb (bool_decide (AgentID c = [])) && negb (bool_decide (AgentSecret c = []))
  end.

(** What the paths depend on: [runtime.GOOS], the environment, the user. *)
Inductive GOOS : Type := linux | darwin | windows | otherOS.

Record hostEnv := {
  goos : GOOS;
  stateDirVar : bytes;              (** [os.Getenv("EVERWAS_STATE_DIR")] *)
  euid : Z;
  userHome : res error bytes;       (** [os.UserHomeDir()] *)
}.

Definition Dir (e : hostEnv) : res error bytes :=
  if negb (bool_decide (stateDirVar e = [])) then Ok (stateDirVar e)
  else match goos e with
       | linux =>
           if euid e =? 0 then Ok (str "/etc/everwas")
           else match userHome e with
                | Err err => Err (Errorf "resolve home dir" err)
                | Ok home => Ok (Join (Join home (str ".config")) (str "everwas"))
                end
       | darwin => Ok (str "/Library/Application Support/Everwas")
       | windows => Ok (str "C:\ProgramData\Everwas\Agent")
       | otherOS => Err (Sentinel "unsupported OS")
       end.

Definition legacyDir (e : hostEnv) : bytes :=
  if negb (bool_decide (stateDirVar e = [])) then []
  else match goos e with
       | linux =>
           if euid e =? 0 then str "/etc/openrmm"
           else match userHome e with
                | Err _ => []
                | Ok home => Join (Join home (str ".config")) (str "openrmm")
                end
       | darwin => str "/Library/Application Support/OpenRMM"
       | windows => str "C:\ProgramData\OpenRMM\Agent"
       | otherOS => []
       end.

Definition Path (e : hostEnv) : res error bytes :=
  match Dir e with Err err => Err err | Ok dir => Ok (Join dir FileName) end.

(** *** The directory

    On the modelled disk a directory exists when something is below it.  The
    state directory can also be there and empty, and the migration depends on
    it, so [secure.MkdirAll] leaves an entry for the directory itself: its
    path with a slash behind it. *)

(** [p] is below the directory [a]. *)
Definition under (a p : path) : bool := HasPrefix p (a ++ str "/").
Definition occupied (a : path) (d : disk) : bool :=
  existsb (fun kv => under a kv.1) (map_to_list d).

Definition dirEntry (p : path) : path := p ++ str "/".
Definition emptyDir : file := File [] false 448.
Definition withDir (p : path) (d : disk) : disk :=
  if occupied p d then d else <[dirEntry p := emptyDir]> d.

Definition createDir (p : path) : io (res error unit) :=
  syscall (fun d => if bool_decide (is_Some (d !! p)) then (Err (Sentinel "not a directory"), d)
                    else (Ok tt, withDir p d)) atomic.

(** [secure.MkdirAll]: create the directory, then restrict it, which can fail. *)
Definition harden (_ : path) : io (res error unit) := syscall (fun d => (Ok tt, d)) atomic.

Definition secureMkdirAll (p : path) : io (res error unit) :=
  try* _ := createDir p orelse Errorf "secure: create" in
  try* _ := harden p orelse Errorf "secure: restrict" in
  ret (Ok tt).

Section config.
Context {JC : JSON Config}.

Definition LoadFrom (p : path) : io (res error Config) :=
  let* r := ReadFile p in
  match r with
  | Err e => if Is e ErrNotExist then ret (Ok emptyConfig) else ret (Err e)
  | Ok raw =>
      match Unmarshal raw with
      | Some c => ret (Ok c)
      | None => ret (Err (Sentinel "parse"))
      end
  end.

Definition SaveTo (p : path) (c : Config) : io (res error unit) :=
  try* _ := secureMkdirAll (PathDir p) in
  match MarshalIndent c with
  | None => ret (Err (Sentinel "json"))
  | Some raw => WriteRename p (raw ++ [nl]) 384 id id
  end.
End config.

(** ** migrate *)

Definition rebase (a b p : path) : path :=
  match CutPrefix p (a ++ str "/") with Some r => b ++ str "/" ++ r | None => p end.

(** [os.Rename] of a directory: atomic; refused when the source is missing,
    when the target is a file or an existing directory, empty or not, or inside
    the source. *)
Definition ErrExist : error := Sentinel "file exists".

Definition RenameDir (a b : path) : io (res error unit) :=
  syscall (fun d =>
    if negb (occupied a d) then (Err ErrNotExist, d)
    else if under a (b ++ str "/") then (Err (Sentinel "invalid argument"), d)
    else if occupied b d || bool_decide (is_Some (d !! b)) then (Err ErrExist, d)
    else (Ok tt, kmap (rebase a b) d)) atomic.

Definition migrateState (legacy current : path) : io (res error bool) :=
  if bool_decide (legacy = []) || bool_decide (legacy = current) then ret (Ok false)
  else
    let* r := Stat (Join current FileName) in
    match r with
    | Ok _ => ret (Ok false)
    | Err _ =>
        let* r := Stat (Join legacy FileName) in
        match r with
        | Err _ => ret (Ok false)
        | Ok _ =>
            try* _ := MkdirAll (PathDir current) orelse Errorf "config: prepare" in
            try* _ := RenameDir legacy current orelse Errorf "config: move" in
            ret (Ok true)
        end
    end.

Definition MigrateLegacyState (e : hostEnv) : io (res error bool) :=
  let legacy := legacyDir e in
  if bool_decide (legacy = []) then ret (Ok false)
  else match Dir e with
       | Err err => ret (Err err)
       | Ok current => migrateState legacy current
       end.

(** The first things [runAgent] does with the state directory: migrate, then
    create and restrict it, neither of which is fatal. *)
Definition prepareState (e : hostEnv) (stateDir : path) : io (res error bool) :=
  let* moved := MigrateLegacyState e in
  let* _ := secureMkdirAll stateDir in
  ret moved.

(** ** winident *)

Inductive Mode : Type := ModeAuto | ModeAlways | ModeNever.
#[global] Instance Mode_eq_dec : EqDecision Mode.
Proof. solve_decision. Defined.

(** The second component is the error. *)
Definition ParseMode (s : bytes) : Mode * option error :=
  if bool_decide (s = []) || bool_decide (s = str "auto") then (ModeAuto, None)
  else if bool_decide (s = str "always") then (ModeAlways, None)
  else if bool_decide (s = str "never") then (ModeNever, None)
  else (ModeAuto, Some (Sentinel "winident: unknown network identity mode")).

Record Sources := {
  DomainJoined : bool;
  EverwasCerts : Z;
  OtherClientCerts : Z;
  GroupPolicyProfile : bool;
}.

Definition ProvidedByUs (s : Sources) : bool := 0 <? EverwasCerts s.
Definition ProvidedByDirectory (s : Sources) : bool := (0 <? OtherClientCerts s) || GroupPolicyProfile s.

Record Decision := {
  Defer : bool;
  Reason : bytes;
  Warn : bool;
}.

Definition directoryReason (s : Sources) : bytes :=
  if (0 <? OtherClientCerts s) && GroupPolicyProfile s then
    str "this machine already has an 802.1X certificate and a Group Policy profile from elsewhere"
  else if GroupPolicyProfile s then
    str "a Group Policy 802.1X profile is already applied to this machine"
  else str "this machine already has an 802.1X certificate issued by another authority".

Definition Decide (s : Sources) (m : Mode) : Decision :=
  if bool_decide (m = ModeNever) then
    if ProvidedByUs s then
      {| Defer := true; Warn := true;
         Reason := str "configured not to provide a network identity, but this machine is already using one from us: it will stop working when that certificate expires" |}
    else {| Defer := true; Warn := false; Reason := str "configured not to provide a network identity" |}
  else if ProvidedByUs s then {| Defer := false; Reason := []; Warn := false |}
  else if bool_decide (m = ModeAlways) then {| Defer := false; Reason := []; Warn := false |}
  else if ProvidedByDirectory s then {| Defer := true; Reason := directoryReason s; Warn := false |}
  else {| Defer := false; Reason := []; Warn := false |}.

(** *** Detection on Windows

    [powershell] is what each of the three queries prints, or its failure. *)
Definition issuedByUs (issuer : bytes) : bool := Contains issuer (str "Device Issuing CA").

Definition tally (issuer : bytes) (ours other : Z) : Z * Z :=
  if issuedByUs issuer then (ours + 1, other) else (ours, other + 1).

Definition noSources : Sources :=
  {| DomainJoined := false; EverwasCerts := 0; OtherClientCerts := 0; GroupPolicyProfile := false |}.

Definition countIssuers (issuers : bytes) : Z * Z :=
  fold_left (fun n issuer => if bool_decide (TrimSpace issuer = []) then n else tally issuer n.1 n.2)
    (Split ";" (TrimSpace issuers)) (0, 0).

Definition detect (domain issuers gpo : res error bytes) : Sources * option error :=
  match domain with
  | Err e => (noSources, Some e)
  | Ok domain =>
      let joined := EqualFold (TrimSpace domain) (str "True") in
      match issuers with
      | Err e => ({| DomainJoined := joined; EverwasCerts := 0; OtherClientCerts := 0;
                     GroupPolicyProfile := false |}, Some e)
      | Ok issuers =>
          let '(ours, other) := countIssuers issuers in
          ({| DomainJoined := joined; EverwasCerts := ours; OtherClientCerts := other;
              GroupPolicyProfile :=
                match gpo with Ok out => EqualFold (TrimSpace out) (str "yes") | Err _ => false end |}, None)
      end
  end.

(** ** Lemmas *)

(** What [LoadFrom] makes of a disk. *)
Definition configOf {JC : JSON Config} (p : path) (d : disk) : option Config :=
  match d !! p with Some f => Unmarshal (f_data f) | None => Some emptyConfig end.

Section config_lemmas.
Context {JC : JSON Config} (p : path).
Implicit Types (C : disk -> Prop) (w : world).

Lemma wp_secureMkdirAll q (Q : res error unit -> world -> Prop) C w :
  (forall r d fs, d = files w \/ d = withDir q (files w) -> Q r (World d (clock w) (ticks w) fs) /\ C d) ->
  wp (secureMkdirAll q) Q C w.
Proof.
  intros HQ. unfold secureMkdirAll, harden, createDir. wp_step.
  apply wp_syscall; [intros fs|intros k fs|intros k; apply (HQ (Ok tt) _ []); by left]; [|apply (HQ (Err _)); by left].
  destruct (bool_decide _); cbn [fst snd]; [apply (HQ (Err _)); by left|].
  wp_step. apply wp_syscall; [intros fs0|intros k fs0|intros k; apply (HQ (Ok tt) _ []); by right];
    cbn [fst snd files clock ticks]; [apply wp_ret|]; apply HQ; by right.
Qed.

Lemma withDir_frame q d : frame [dirEntry q] d (withDir q d).
Proof.
  intros r Hr. unfold withDir. destruct (occupied q d); [done|]. rewrite lookup_insert_ne; [done|].
  intros <-. by apply Hr, list_elem_of_singleton.
Qed.

Lemma secureMkdirAll_frame q d d' : d' = d \/ d' = withDir q d -> frame [dirEntry q] d d'.
Proof. intros [->| ->]; [by intros r|apply withDir_frame]. Qed.

Lemma wp_LoadFrom (Q : res error Config -> world -> Prop) C w :
  (forall fs c, configOf p (files w) = Some c -> Q (Ok c) (with_faults w fs)) ->
  (forall fs e, Q (Err e) (with_faults w fs)) ->
  C (files w) -> wp (LoadFrom p) Q C w.
Proof.
  intros Hok Hbad HC. unfold LoadFrom. wp_step. wp_step; [| |done].
  - unfold configOf in Hok. destruct (files w !! p) as [f|]; [|rewrite Is_NotExist; wp_step; by apply Hok].
    destruct (Unmarshal (f_data f)); wp_step; [by apply Hok|apply Hbad].
  - rewrite Is_IO_NotExist. wp_step. apply Hbad.
Qed.

(** [SaveTo] leaves the old file or the new one, never a torn one. *)
Lemma wp_SaveTo c (Q : res error unit -> world -> Prop) C w :
  (forall d fs, frame [dirEntry (PathDir p); p ++ str ".tmp"; p] (files w) d -> configOf p d = Some (stored c) ->
     Q (Ok tt) (World d (clock w) (ticks w) fs)) ->
  (forall d fs e, frame [dirEntry (PathDir p); p ++ str ".tmp"] (files w) d ->
     Q (Err e) (World d (clock w) (ticks w) fs) /\ C d) ->
  wp (SaveTo p c) Q C w.
Proof.
  intros Hok Hbad. unfold SaveTo. wp_step.
  apply wp_secureMkdirAll. intros r d0 fs Hd0%secureMkdirAll_frame.
  assert (H0 : frame [dirEntry (PathDir p); p ++ str ".tmp"] (files w) d0).
  { intros q Hq. apply Hd0. set_solver. }
  split; [|by apply (Hbad _ [] ErrIO)]. destruct r as [[]|e]; [|by apply Hbad].
  destruct (MarshalIndent c) as [raw|] eqn:E; [|by apply Hbad].
  apply wp_WriteRename; cbn [files with_faults clock ticks].
  - intros d fs0 f Hf Hl Hd. apply Hok.
    + intros q Hq. rewrite Hf by set_solver. apply H0. set_solver.
    + unfold configOf. rewrite Hl, Hd. by apply json_roundtrip.
  - intros d fs0 e Hf. apply Hbad. intros q Hq. rewrite Hf by set_solver. by apply H0.
Qed.

Lemma configOf_frame ps d d' : frame ps d d' -> p ∉ ps -> configOf p d' = configOf p d.
Proof. intros Hf Hp. unfold configOf. by rewrite (Hf _ Hp). Qed.
End config_lemmas.

(** *** Moving a directory *)

Lemma under_spec a p : under a p = true <-> exists r, p = a ++ str "/" ++ r.
Proof. unfold under. rewrite HasPrefix_spec. by setoid_rewrite <- app_assoc. Qed.

Lemma occupied_spec a d : occupied a d = false <-> forall p, under a p = true -> d !! p = None.
Proof.
  unfold occupied. rewrite <- not_true_iff_false, existsb_exists. split.
  - intros H p Hp. destruct (d !! p) as [f|] eqn:E; [|done]. destruct H. exists (p, f).
    split; [|done]. by apply list_elem_of_In, elem_of_map_to_list.
  - intros H [[p f] [Hin Hp]]. apply list_elem_of_In, elem_of_map_to_list in Hin.
    cbn in Hp. by rewrite H in Hin.
Qed.

(** The renaming as an involution, which it is on a disk with nothing below
    the target. *)
Definition exchange_dirs (a b p : path) : path :=
  match CutPrefix p (a ++ str "/") with
  | Some r => b ++ str "/" ++ r
  | None => match CutPrefix p (b ++ str "/") with Some r => a ++ str "/" ++ r | None => p end
  end.

Section move.
Context (a b : path) (d : disk).
Hypothesis Ha : occupied a d = true.
Hypothesis Hab : under a (b ++ str "/") = false.
Hypothesis Hb : occupied b d = false.
Local Abbreviation exch := (exchange_dirs a b).

Lemma apart p : under a p = true -> under b p = false.
Proof.
  rewrite under_spec. intros [r ->]. apply not_true_iff_false. rewrite under_spec. intros [s Hs].
  rewrite !app_assoc in Hs. apply app_eq_inv in Hs as [[k [H1 _]]|[k [H1 _]]].
  - enough (under a (b ++ str "/") = true) by congruence. apply under_spec. exists []. rewrite app_nil_r.
    destruct k as [|c k]; [by rewrite app_nil_r in H1|].
    assert (Hk : under b (a ++ str "/") = true) by (apply under_spec; exists (c :: k); rewrite H1; by rewrite <- app_assoc).
    exfalso. revert Ha. apply not_true_iff_false, occupied_spec. intros q. rewrite under_spec. intros [t ->].
    apply occupied_spec with (d := d) (a := b); [done|]. apply under_spec in Hk as [u Hu].
    apply under_spec. exists (u ++ t). rewrite app_assoc, Hu. by rewrite <- !app_assoc.
  - enough (under a (b ++ str "/") = true) by congruence. apply under_spec. exists k. rewrite H1. by rewrite <- app_assoc.
Qed.

Lemma exch_cases p :
  (exists r, p = a ++ str "/" ++ r /\ exch p = b ++ str "/" ++ r) \/
  (exists r, p = b ++ str "/" ++ r /\ exch p = a ++ str "/" ++ r) \/
  (under a p = false /\ under b p = false /\ exch p = p).
Proof.
  unfold exchange_dirs, CutPrefix, under, HasPrefix.
  destruct (strip_prefix (a ++ _) p) as [r|] eqn:E1.
  - apply strip_prefix_Some in E1. left. exists r. by rewrite app_assoc.
  - destruct (strip_prefix (b ++ _) p) as [r|] eqn:E2; [|by right; right].
    apply strip_prefix_Some in E2. right. left. exists r. by rewrite app_assoc.
Qed.

Lemma exch_under_a r : exch (a ++ str "/" ++ r) = b ++ str "/" ++ r.
Proof.
  unfold exchange_dirs, CutPrefix.
  by rewrite (proj2 (strip_prefix_Some (a ++ str "/") (a ++ str "/" ++ r) r)) by by rewrite app_assoc.
Qed.

Lemma exch_under_b r : exch (b ++ str "/" ++ r) = a ++ str "/" ++ r.
Proof.
  assert (Hu : under b (b ++ str "/" ++ r) = true) by (apply under_spec; eauto).
  destruct (exch_cases (b ++ str "/" ++ r)) as [(s & Hs & _)|[(s & Hs & ->)|(_ & H & _)]]; [| |congruence].
  - rewrite Hs in Hu. rewrite apart in Hu; [done|]. apply under_spec; eauto.
  - do 2 apply app_inv_head in Hs. by subst.
Qed.

Lemma exch_involutive p : exch (exch p) = p.
Proof.
  destruct (exch_cases p) as [(r & -> & _)|[(r & -> & _)|(_ & _ & H)]].
  - by rewrite exch_under_a, exch_under_b.
  - by rewrite exch_under_b, exch_under_a.
  - by rewrite !H.
Qed.

#[local] Instance exch_inj : Inj (=) (=) exch.
Proof. intros p q Hpq. by rewrite <- (exch_involutive p), Hpq, exch_involutive. Qed.

Lemma kmap_rebase : kmap (rebase a b) d = (kmap exch d : disk).
Proof.
  unfold kmap. f_equal. apply list_fmap_ext. intros i [p f] Hi. apply list_elem_of_lookup_2, elem_of_map_to_list in Hi.
  cbn. f_equal. unfold rebase, exchange_dirs. destruct (CutPrefix p (a ++ str "/")); [done|].
  unfold CutPrefix. destruct (strip_prefix (b ++ str "/") p) eqn:E; [|done]. apply strip_prefix_Some in E.
  rewrite (proj1 (occupied_spec b d) Hb p) in Hi; [done|]. apply under_spec. rewrite E. eexists. by rewrite app_assoc.
Qed.

Lemma lookup_moved p : (kmap (rebase a b) d : disk) !! p = d !! exch p.
Proof. rewrite kmap_rebase, <- (exch_involutive p) at 1. apply lookup_kmap; apply _. Qed.
End move.

(** Everything below [a] is below [b], and nothing else has changed. *)
Definition relocated (a b : path) (d d' : disk) : Prop :=
  (forall r, d' !! (b ++ str "/" ++ r) = d !! (a ++ str "/" ++ r)) /\
  (forall r, d' !! (a ++ str "/" ++ r) = None) /\
  (forall p, under a p = false -> under b p = false -> d' !! p = d !! p).

Lemma wp_RenameDir (a b : path) (Q : res error unit -> world -> Prop) (C : disk -> Prop) w :
  (forall fs d, occupied b (files w) = false -> relocated a b (files w) d ->
     Q (Ok tt) (World d (clock w) (ticks w) fs)) ->
  (forall fs e, Q (Err e) (with_faults w fs)) -> C (files w) -> wp (RenameDir a b) Q C w.
Proof.
  intros Hok Hbad HC. apply wp_syscall; [|intros; apply Hbad|intros; apply HC]. intros fs.
  destruct (occupied a (files w)) eqn:Ha; cbn [negb]; [|by apply Hbad].
  destruct (under a (b ++ str "/")) eqn:Hab; [by apply Hbad|].
  destruct (occupied b (files w)) eqn:Hb; [by apply Hbad|].
  destruct (bool_decide _); [by apply Hbad|]. apply Hok; [done|]. cbn [orb snd].
  split_and!; intros; rewrite lookup_moved by done.
  - by rewrite exch_under_b with (d := files w).
  - rewrite exch_under_a. apply (proj1 (occupied_spec b _) Hb). apply under_spec; eauto.
  - by destruct (exch_cases a b p) as [(s & -> & _)|[(s & -> & _)|(_ & _ & ->)]];
      [rewrite (proj2 (under_spec a _)) in *; eauto|rewrite (proj2 (under_spec b _)) in *; eauto|].
Qed.

(** The legacy directory moves in one piece or not at all. *)
Lemma wp_migrateState (legacy current : path) (w : world) :
  wp (migrateState legacy current)
    (fun r w' => match r with
                 | Ok true => occupied current (files w) = false /\ relocated legacy current (files w) (files w')
                 | _ => files w' = files w
                 end) (fun d => d = files w) w.
Proof.
  unfold migrateState. destruct (_ || _); [by apply wp_ret|].
  wp_step. wp_step; [| |done]; [destruct (files w !! Join current FileName); [by wp_step|]|].
  all: wp_step; wp_step; [|by wp_step|done].
  all: destruct (files w !! Join legacy FileName); [|by wp_step].
  all: wp_step; wp_step; [|done|done].
  all: wp_step; apply wp_RenameDir; [intros; by wp_step|done|done].
Qed.

(** Two directories neither of which is inside the other. *)
Definition disjointDirs (a b : path) : Prop :=
  a ≠ [] /\ b ≠ [] /\ a ≠ b /\ under a (b ++ str "/") = false.

Lemma Join_eq (dir name : bytes) : dir ≠ [] -> Join dir name = dir ++ str "/" ++ name.
Proof. by destruct dir. Qed.

Lemma legacy_disjoint e current :
  Dir e = Ok current -> legacyDir e ≠ [] -> disjointDirs (legacyDir e) current.
Proof.
  assert (Hd : forall dir, dir ≠ [] -> disjointDirs (Join dir (str "openrmm")) (Join dir (str "everwas"))).
  { intros dir Hdir. rewrite !Join_eq by done. split_and!; [by destruct dir..| |].
    - intros H. by do 2 apply app_inv_head in H.
    - apply not_true_iff_false. rewrite under_spec. intros [r H]. rewrite <- !app_assoc in H.
      by do 2 apply app_inv_head in H. }
  unfold Dir, legacyDir. destruct (negb _); [done|]. destruct (goos e); [|by intros [= <-]..|done].
  destruct (_ =? _); [by intros [= <-]|]. destruct (userHome e) as [home|]; [|done]. intros [= <-] _.
  apply Hd. by destruct home.
Qed.

Definition vacant (b : path) (d : disk) : Prop := occupied b d = false /\ d !! b = None.

(** Runs without faults. *)
Lemma LoadFrom_run {JC : JSON Config} p w c :
  faults w = [] -> configOf p (files w) = Some c -> (LoadFrom p w).1 = Ret (Ok c).
Proof.
  unfold configOf, LoadFrom, bind, ReadFile, syscall. intros -> Hc.
  destruct (files w !! p) as [f|]; [by rewrite Hc|by injection Hc as ->].
Qed.

Lemma migrateState_run legacy current w f :
  faults w = [] -> disjointDirs legacy current -> vacant current (files w) ->
  files w !! Join legacy FileName = Some f ->
  exists w', migrateState legacy current w = (Ret (Ok true), w') /\ faults w' = [] /\
    relocated legacy current (files w) (files w').
Proof.
  intros Hf (H1 & H2 & H3 & H4) [Ho Hn] Hl.
  destruct (migrateState legacy current w) as [out w'] eqn:E. pose proof (wp_migrateState legacy current w) as Hwp.
  unfold wp in Hwp. rewrite E in Hwp. cbn beta iota in Hwp.
  assert (Hcur : files w !! Join current FileName = None).
  { apply (proj1 (occupied_spec current _) Ho), under_spec. rewrite Join_eq by done. eauto. }
  assert (Hocc : occupied legacy (files w) = true).
  { destruct (occupied legacy (files w)) eqn:Eo; [done|]. rewrite Join_eq in Hl by done.
    rewrite (proj1 (occupied_spec legacy _) Eo) in Hl; [done|]. apply under_spec. eauto. }
  revert E. unfold migrateState. rewrite !bool_decide_eq_false_2 by done. cbn [orb].
  unfold bind, try_as, bind, Stat, MkdirAll, RenameDir, syscall. rewrite Hf. cbn [files faults fst snd]. rewrite Hcur.
  cbn [files faults fst snd]. rewrite Hl. cbn [files faults fst snd]. rewrite Hocc, H4, Ho. cbn [negb orb].
  rewrite bool_decide_eq_false_2 by (rewrite Hn; by intros []). intros [= <- <-]. eexists. split; [done|]. split; [done|].
  apply Hwp.
Qed.

Lemma dirEntry_under p : under p (dirEntry p) = true.
Proof. apply under_spec. exists []. by rewrite app_nil_r. Qed.

Lemma withDir_vacant p d : occupied p d = false -> withDir p d = <[dirEntry p := emptyDir]> d.
Proof. unfold withDir. by intros ->. Qed.

Lemma occupied_under p q d : under p q = true -> is_Some (d !! q) -> occupied p d = true.
Proof.
  intros Hu [f Hf]. destruct (occupied p d) eqn:E; [done|]. by rewrite (proj1 (occupied_spec p d) E q Hu) in Hf.
Qed.

(** The state file is not the entry of a directory. *)
Lemma FileName_not_dir dir q : Join dir FileName ≠ dirEntry q.
Proof.
  assert (Hj : exists x, Join dir FileName = x ++ FileName).
  { destruct dir; [by exists []|]. rewrite Join_eq by done. eexists. by rewrite app_assoc. }
  destruct Hj as [x ->]. unfold dirEntry. change FileName with (str "agent.jso" ++ ["n"%char]).
  change (str "/") with ["/"%char]. rewrite app_assoc. intros [_ H]%app_inj_tail. discriminate H.
Qed.

(** [secure.MkdirAll] of a directory something is in changes nothing. *)
Lemma secureMkdirAll_run p w :
  faults w = [] -> files w !! p = None -> secureMkdirAll p w = (Ret (Ok tt), on_disk w (withDir p (files w))).
Proof.
  destruct w as [d c ts fs]. cbn. intros -> Hp. unfold secureMkdirAll, createDir, harden, try_as, bind, syscall. cbn.
  by rewrite bool_decide_eq_false_2 by (rewrite Hp; by intros []).
Qed.

(** *** The start of an agent whose identity is still in the old directory *)

Section start.
Context {JC : JSON Config} (e : hostEnv) (current : path) (f : file) (c : Config).
Hypothesis Hdir : Dir e = Ok current.
Hypothesis Hleg : legacyDir e ≠ [].
Hypothesis Hc : Unmarshal (f_data f) = Some c.
Local Abbreviation legacy := (legacyDir e).
Implicit Types (w : world) (d : disk).

(** The start that comes next, and the configuration it reads. *)
Definition nextStart (w : world) : outcome (res error Config) :=
  ((let* _ := prepareState e current in LoadFrom (Join current FileName)) (with_faults w [])).1.

Lemma Migrate_eq : MigrateLegacyState e = migrateState legacy current.
Proof. unfold MigrateLegacyState. by rewrite bool_decide_eq_false_2, Hdir. Qed.

(** What a migration without faults comes to, after [createDir]. *)
Lemma nextStart_after w r d' :
  MigrateLegacyState e (with_faults w []) = (Ret r, World d' (clock w) (ticks w) []) -> d' !! current = None ->
  nextStart w = (LoadFrom (Join current FileName) (World (withDir current d') (clock w) (ticks w) [])).1.
Proof.
  intros Hm Hn. unfold nextStart, prepareState, bind. rewrite Hm.
  rewrite secureMkdirAll_run by done. reflexivity.
Qed.

(** The identity is whole in the old directory, and the new one does not exist. *)
Definition before w : Prop := vacant current (files w) /\ files w !! Join legacy FileName = Some f.

Lemma relocated_config d d' : d !! Join legacy FileName = Some f -> relocated legacy current d d' ->
  d' !! Join current FileName = Some f.
Proof.
  pose proof (legacy_disjoint e current Hdir Hleg) as (Hl0 & Hc0 & _).
  intros Hf (Hd & _). rewrite !Join_eq in * by done. by rewrite Hd.
Qed.

Lemma relocated_no_file d d' : d !! current = None -> relocated legacy current d d' -> d' !! current = None.
Proof.
  pose proof (legacy_disjoint e current Hdir Hleg) as (_ & _ & _ & Hun). intros Hn (_ & _ & Hsame).
  rewrite Hsame; [done|apply not_true_iff_false; rewrite under_spec; intros [r Hr]..].
  - apply not_true_iff_false in Hun. apply Hun, under_spec.
    exists (r ++ str "/"). rewrite Hr at 1. by rewrite <- !app_assoc.
  - apply (f_equal length) in Hr. rewrite !length_app in Hr. cbn in Hr. lia.
Qed.

Lemma withDir_occupied d : is_Some (d !! Join current FileName) -> withDir current d = d.
Proof.
  pose proof (legacy_disjoint e current Hdir Hleg) as (_ & Hc0 & _).
  intros Hs. unfold withDir. rewrite (occupied_under current (Join current FileName)); [done| |done].
  rewrite Join_eq by done. apply under_spec. eauto.
Qed.

(** Moved: every later start finds it where it looks. *)
Lemma next_moved w d : d !! Join legacy FileName = Some f -> d !! current = None ->
  relocated legacy current d (files w) -> nextStart w = Ret (Ok c).
Proof.
  pose proof (legacy_disjoint e current Hdir Hleg) as (Hl0 & Hc0 & Hne & Hun). intros Hf Hn Hmv.
  pose proof (relocated_config _ _ Hf Hmv) as Hg.
  pose proof (relocated_no_file _ _ Hn Hmv) as Hcur.
  rewrite (nextStart_after w (Ok false) (files w)); [|rewrite Migrate_eq|done].
  - rewrite withDir_occupied by by eexists. apply LoadFrom_run; [done|]. unfold configOf. cbn [files]. by rewrite Hg.
  - unfold migrateState. rewrite !bool_decide_eq_false_2 by done. cbn [orb].
    unfold bind, Stat, syscall. cbn [faults with_faults files]. by rewrite Hg.
Qed.

(** Untouched: the next start moves it. *)
Lemma next_untouched w : before w -> nextStart w = Ret (Ok c).
Proof.
  pose proof (legacy_disjoint e current Hdir Hleg) as Hdis. intros [Hvac Hf].
  destruct (migrateState_run legacy current (with_faults w []) f) as (w' & Hw' & Hfs & Hm); [done|done|done|done|].
  pose proof (relocated_config _ _ Hf Hm) as Hg.
  unfold nextStart, prepareState, bind. rewrite Migrate_eq, Hw'.
  pose proof (relocated_no_file _ _ (proj2 Hvac) Hm) as Hcur.
  rewrite secureMkdirAll_run by done. rewrite withDir_occupied by by eexists.
  apply LoadFrom_run; [done|]. unfold configOf. cbn [files on_disk]. by rewrite Hg.
Qed.

(** Created empty: every later migration is refused, and the machine reads as
    one that was never enrolled. *)
Lemma next_shadowed w d : vacant current d -> d !! Join legacy FileName = Some f ->
  files w = <[dirEntry current := emptyDir]> d -> nextStart w = Ret (Ok emptyConfig).
Proof.
  pose proof (legacy_disjoint e current Hdir Hleg) as (Hl0 & Hc0 & Hne & Hun). intros [Ho Hn] Hf Hw.
  assert (Hd1 : forall q, q ≠ dirEntry current -> files w !! q = d !! q) by (intros q Hq; rewrite Hw; by rewrite lookup_insert_ne).
  assert (Hocc : occupied current (files w) = true).
  { eapply occupied_under; [apply dirEntry_under|]. rewrite Hw, lookup_insert_eq. by eexists. }
  assert (Hcur : files w !! Join current FileName = None).
  { rewrite Hd1 by apply FileName_not_dir. apply (proj1 (occupied_spec current _) Ho), under_spec. rewrite Join_eq by done. eauto. }
  assert (Hself : files w !! current = None).
  { rewrite Hd1; [done|]. intros Hr. apply (f_equal length) in Hr. unfold dirEntry in Hr. rewrite length_app in Hr. cbn in Hr. lia. }
  assert (Hlf : files w !! Join legacy FileName = Some f) by (by rewrite Hd1 by apply FileName_not_dir).
  assert (Hlocc : occupied legacy (files w) = true).
  { eapply occupied_under; [|by eexists]. rewrite Join_eq by done. apply under_spec. eauto. }
  rewrite (nextStart_after w (Err (Errorf "config: move" ErrExist)) (files w)); [|rewrite Migrate_eq|done].
  - unfold withDir. rewrite Hocc. apply LoadFrom_run; [done|]. unfold configOf. cbn [files]. by rewrite Hcur.
  - unfold migrateState. rewrite !bool_decide_eq_false_2 by done. cbn [orb].
    unfold bind, try_as, bind, Stat, MkdirAll, RenameDir, syscall. cbn [faults with_faults files]. rewrite Hcur.
    cbn [files faults fst snd]. rewrite Hlf. cbn [files faults fst snd]. by rewrite Hlocc, Hun, Hocc.
Qed.

(** The three ways in which the first steps of a start can leave the disk. *)
Lemma wp_prepareState w : before w ->
  wp (prepareState e current)
    (fun r w' => relocated legacy current (files w) (files w') \/
       (r ≠ Ok true /\ (files w' = files w \/ files w' = <[dirEntry current := emptyDir]> (files w))))
    (fun d => relocated legacy current (files w) d \/ d = files w \/
       d = <[dirEntry current := emptyDir]> (files w)) w.
Proof.
  intros [Hvac Hf]. unfold prepareState. rewrite Migrate_eq. apply wp_bind.
  eapply wp_mono; [apply wp_migrateState| |by right; left].
  assert (Hstay : forall (r : res error bool) w1, r ≠ Ok true -> files w1 = files w ->
    wp (let* _ := secureMkdirAll current in ret r)
      (fun r w' => relocated legacy current (files w) (files w') \/
       (r ≠ Ok true /\ (files w' = files w \/ files w' = <[dirEntry current := emptyDir]> (files w))))
      (fun d => relocated legacy current (files w) d \/ d = files w \/
       d = <[dirEntry current := emptyDir]> (files w)) w1).
  { intros r w1 Hr Hw1. apply wp_bind, wp_secureMkdirAll. rewrite Hw1, withDir_vacant by apply Hvac.
    intros r1 d fs Hd. split; [apply wp_ret; right; cbn [files]; tauto|tauto]. }
  intros [[]|err] w1 H1; [|by apply Hstay|by apply Hstay]. destruct H1 as [_ Hmv].
  apply wp_bind, wp_secureMkdirAll. rewrite withDir_occupied.
  - intros r1 d fs Hd. assert (d = files w1) as -> by tauto. split; [apply wp_ret|]; by left.
  - eexists. by apply (relocated_config (files w)).
Qed.

(** C21: Renaming the project never loses the identity of a machine, and the
    start that moves it finds it; but one failed attempt un-enrols the machine
    for good.  From a host that is enrolled under the old directory and does
    not have the new one yet, whatever fails in the first steps of a start (the
    migration and the creation of the state directory) and whenever the process
    is killed in them, one of three things is left.  Everything has moved, in
    one piece, or nothing has changed, and then the next undisturbed start reads
    exactly the configuration the machine had.  Or nothing was moved and the new
    directory was created empty, which happens only when [MigrateLegacyState]
    returned without having moved anything: the identity is still whole in the
    old directory, but the next migration is refused because the new one exists,
    and the start reads an empty configuration.  Without a failing call the
    first start moves everything. *)
Theorem migration_never_loses_the_identity w w1 out :
  vacant current (files w) -> files w !! Join legacy FileName = Some f ->
  prepareState e current w = (out, w1) ->
  ((relocated legacy current (files w) (files w1) \/ files w1 = files w) /\ nextStart w1 = Ret (Ok c) \/
   files w1 = <[dirEntry current := emptyDir]> (files w) /\ nextStart w1 = Ret (Ok emptyConfig) /\
     exists r, (MigrateLegacyState e w).1 = Ret r /\ r ≠ Ok true) /\
  (faults w = [] -> out = Ret (Ok true) /\ relocated legacy current (files w) (files w1)).
Proof.
  intros Hvac Hf Hrun. assert (Hb : before w) by done. pose proof (legacy_disjoint e current Hdir Hleg) as Hdis.
  pose proof (wp_prepareState w Hb) as Hwp. unfold wp in Hwp. rewrite Hrun in Hwp. split.
  - assert (Hcase : relocated legacy current (files w) (files w1) \/ files w1 = files w \/
      files w1 = <[dirEntry current := emptyDir]> (files w)) by (destruct out as [r|]; naive_solver).
    destruct Hcase as [Hmv|[Heq|Heq]].
    + left. split; [by left|]. by eapply next_moved; [| |exact Hmv]; [|apply Hvac].
    + left. split; [by right|]. apply next_untouched. split; by rewrite Heq.
    + right. split; [done|]. split; [by eapply next_shadowed|].
      assert (Hne : files w1 ≠ files w).
      { rewrite Heq. intros Hd. apply (f_equal (lookup (dirEntry current))) in Hd. rewrite lookup_insert_eq in Hd.
        by rewrite (proj1 (occupied_spec current _) (proj1 Hvac) _ (dirEntry_under current)) in Hd. }
      pose proof (wp_migrateState legacy current w) as Hm. unfold wp in Hm. revert Hrun.
      unfold prepareState, bind. rewrite Migrate_eq. destruct (migrateState legacy current w) as [[r|] w2] eqn:Em.
      * intros Hrun. exists r. split; [done|]. intros ->. destruct Hm as [_ Hmv].
        assert (Hs : wp (secureMkdirAll current) (fun _ w' => files w' = files w2) (fun d => d = files w2) w2).
        { apply wp_secureMkdirAll. rewrite withDir_occupied by (eexists; by apply (relocated_config (files w))).
          intros ? d fs [-> | ->]; done. }
        unfold wp in Hs. destruct (secureMkdirAll current w2) as [[x|] w3]; injection Hrun as _ <-;
          rewrite Hs in Heq; destruct Hmv as (_ & Hgone & _); pose proof Hf as Hf'; destruct Hdis as (Hl0 & _);
          rewrite Join_eq in Hf' by done; specialize (Hgone FileName); rewrite Heq in Hgone;
          (rewrite lookup_insert_ne in Hgone; [congruence|]); rewrite <- Join_eq by done;
          intros Hd; by apply (FileName_not_dir legacy current).
      * intros [= <- <-]. done.
  - intros Hfs. destruct (migrateState_run legacy current w f) as (w' & Hw' & Hfs' & Hm); [done..|].
    revert Hrun. unfold prepareState, bind. rewrite Migrate_eq, Hw'.
    assert (Hs : wp (secureMkdirAll current) (fun _ w2 => files w2 = files w') (fun d => False) w').
    { destruct w' as [d' c' t' f']. cbn in Hfs'. subst f'. unfold wp, secureMkdirAll, createDir, harden, try_as, bind, syscall. cbn.
      destruct (bool_decide _); [done|]. cbn. apply withDir_occupied. eexists. by apply (relocated_config (files w)). }
    unfold wp in Hs. destruct (secureMkdirAll current w') as [[x|] w3]; [|done]. intros [= <- <-].
    split; [done|]. by rewrite Hs.
Qed.
End start.

(** Detection never stops the agent from serving a machine it already
    serves; only an operator does, and then the loss is announced.  In every
    other mode the agent stands aside exactly where something else got there
    first, and it never stands aside without saying why. *)
Theorem Decide_defers_exactly (s : Sources) (m : Mode) :
  (Defer (Decide s m) = true <->
     m = ModeNever \/ (m = ModeAuto /\ ProvidedByUs s = false /\ ProvidedByDirectory s = true)) /\
  (Warn (Decide s m) = true <-> m = ModeNever /\ ProvidedByUs s = true) /\
  (Defer (Decide s m) = true <-> Reason (Decide s m) ≠ []).
Proof.
  unfold Decide, directoryReason. destruct m; cbn; destruct (ProvidedByUs s), (ProvidedByDirectory s); cbn;
    repeat case_match; naive_solver.
Qed.

(** *** An enrolled machine *)

#[export] Instance Config_countable : Countable Config :=
  inj_countable' (fun c => (ServerURL c, AgentID c, AgentSecret c, NATSURL c, NetworkIdentity c, NetworkIdentityPolicy c))
    (fun '(a, b, c, d, e, f) => mkConfig a b c d e f) ltac:(by intros []).

Lemma Config_stored (c : Config) : decoded (stored c).
Proof. repeat constructor; apply utf8Text_idem. Qed.

#[export] Instance config_json : JSON Config := countable_json Config_stored.

Definition demoConfig : Config :=
  mkConfig (str "https://rmm") (str "agent-1") (str "s0") (str "nats://rmm") [] (str "auto").
Definition rootLinux : hostEnv := {| goos := linux; stateDirVar := []; euid := 0; userHome := Ok (str "/root") |}.
Definition legacyDisk : disk :=
  {[ str "/etc/openrmm/agent.json" := File (default [] (MarshalIndent demoConfig) ++ [nl]) true 384;
     str "/etc/openrmm/netcert/network.key" := File (str "KEY") true 384 ]}.

(** Killed as it moves the directory, the machine comes back; one rename that
    fails, and it reads as one that was never enrolled. *)
Lemma migration_never_loses_the_identity_witness :
  let start fs := prepareState rootLinux (str "/etc/everwas") (World legacyDisk 0 [] fs) in
  let killed := [Proceed; Proceed; Proceed; Dies 0] in
  let failed := [Proceed; Proceed; Proceed; Fails 0] in
  nextStart rootLinux (str "/etc/everwas") (start killed).2 = Ret (Ok demoConfig) /\
  nextStart rootLinux (str "/etc/everwas") (start failed).2 = Ret (Ok emptyConfig) /\
  (start []).1 = Ret (Ok true).
Proof.
  intros start killed failed.
  set (f := File (default [] (MarshalIndent demoConfig) ++ [nl]) true 384).
  assert (H : forall fs, _) by (intros fs; refine (migration_never_loses_the_identity rootLinux (str "/etc/everwas") f demoConfig
    eq_refl _ _ (World legacyDisk 0 [] fs) _ _ _ _ (surjective_pairing _)); [discriminate|vm_compute; reflexivity|split; vm_compute; reflexivity|vm_compute; reflexivity]).
  split_and!.
  - destruct (H killed) as [[[_ Hk]|[Hk _]] _]; [exact Hk|]. exfalso.
    apply (f_equal (lookup (str "/etc/everwas/"))) in Hk. vm_compute in Hk. discriminate Hk.
  - destruct (H failed) as [[[[(Hm & _)|Hm] _]|(_ & Hk & _)] _]; [exfalso| |exact Hk].
    + specialize (Hm FileName). vm_compute in Hm. discriminate Hm.
    + exfalso. apply (f_equal (lookup (str "/etc/everwas/"))) in Hm. vm_compute in Hm. discriminate Hm.
  - destruct (H []) as [_ Hm]. exact (proj1 (Hm eq_refl)).
Defined.
