(* ===== verification/Credentials.v ===== *)
(** * Credentials: the agent's secret, from enrolment to every renewal

    The agent authenticates with a secret that it exchanges for a fresh one at
    every start and twice a day (enroll/enroll.go, enroll/renew.go), keeps in
    agent.json ([Identity]), and presents when it connects.  Whether a machine
    stays reachable depends on both ends of that exchange, so the server's side
    of it (server/src/everwas/services/enrollment.py) is modelled with it, and
    so is the start of the agent (the first half of [runAgent] in cli/cli.go),
    which composes the migration, the rollback check, the renewal and the
    connection. *)
From S2P Require Import Prelude GoLib GoText GoOS Swap Tracker Identity.

(** ** The agent's side *)

Definition RenewInterval : Z := 12 * Hour.

Definition ErrRenewRefused : error := Sentinel "renew: server refused the presented credential".

(** [renewResponse] *)
Record renewResponse := {
  rs_AgentSecret : bytes;
  rs_NetworkIdentity : bytes;
}.

(** [response] of enroll.go *)
Record enrollResponse := {
  er_AgentID : bytes;
  er_AgentSecret : bytes;
  er_NATSURL : bytes;
}.

(** What an HTTP exchange comes to: no response, or a status code and what
    [json.Decode] makes of the body ([None]: an error). *)
Inductive reply (A : Type) : Type := Lost (e : error) | Replied (code : Z) (body : option A).
Arguments Lost {A} e.
Arguments Replied {A} code body.

Section agent.
Context {JC : JSON Config} (e : hostEnv).

(** [Config.Save] *)
Definition SaveConfig (c : Config) : io (res error unit) :=
  match Path e with Err err => ret (Err err) | Ok p => SaveTo p c end.

(** [config.Load] *)
Definition LoadConfig : io (res error Config) :=
  match Path e with Err err => ret (Err err) | Ok p => LoadFrom p end.

(** [Renew]: the configuration it leaves in memory, and its error. *)
Definition Renew (r : reply renewResponse) (cfg : Config) : io (Config * option error) :=
  if negb (Enrolled (Some cfg)) then ret (cfg, Some (Sentinel "renew: not enrolled"))
  else match r with
       | Lost err => ret (cfg, Some (Errorf "renew" err))
       | Replied code body =>
           if code =? 403 then ret (cfg, Some ErrRenewRefused)
           else if negb (code =? 200) then ret (cfg, Some (Sentinel "renew: server returned"))
           else match body with
                | None => ret (cfg, Some (Sentinel "renew: decode response"))
                | Some out =>
                    if bool_decide (rs_AgentSecret out = []) then
                      ret (cfg, Some (Sentinel "renew: server returned an empty secret"))
                    else
                      let cfg := set_AgentSecret (rs_AgentSecret out) cfg in
                      let cfg := set_NetworkIdentityPolicy (rs_NetworkIdentity out) cfg in
                      let* r := SaveConfig cfg in
                      ret (cfg, match r with
                                | Err err => Some (Errorf "renew: save new credential" err)
                                | Ok _ => None
                                end)
                end
       end.

(** [exchange]: no disk. *)
Definition exchange (serverURL : bytes) (r : reply enrollResponse) : res error Config :=
  match r with
  | Lost err => Err (Errorf "enroll request" err)
  | Replied code body =>
      if (code <? 200) || (299 <? code) then Err (Sentinel "enroll rejected")
      else match body with
           | None => Err (Sentinel "parse enroll response")
           | Some r =>
               if bool_decide (er_AgentID r = []) || bool_decide (er_AgentSecret r = []) ||
                  bool_decide (er_NATSURL r = [])
               then Err (Sentinel "enroll response missing fields")
               else Ok (mkConfig serverURL (er_AgentID r) (er_AgentSecret r) (er_NATSURL r) [] [])
           end
  end.

Definition Enroll (serverURL : bytes) (r : reply enrollResponse) : io (res error unit) :=
  match exchange serverURL r with
  | Err err => ret (Err err)
  | Ok cfg => SaveConfig cfg
  end.

(** The [RotateSecret] callback of [runAgent]. *)
Definition RotateSecret (secret : bytes) (cfg : Config) : io (Config * res error unit) :=
  let cfg := set_AgentSecret secret cfg in
  let* r := SaveConfig cfg in
  ret (cfg, r).

(** *** The start of [runAgent]

    [post] is the renewal request with the configuration it presents,
    [connect] what [conn.Connect] returns; the agent runs with the
    configuration it connected with. *)
Inductive startup : Type := Exited (code : Z) | Running (cfg : Config).

(** From the renewal to the connection. *)
Definition renewThenConnect (post : Config -> reply renewResponse) (connect : Config -> option error)
    (cfg : Config) : io startup :=
  let* '(cfg, _) := Renew (post cfg) cfg in
  ret (match connect cfg with Some _ => Exited 1 | None => Running cfg end).

Context `{Platform} {JS : JSON State}.

Definition startAgent (post : Config -> reply renewResponse) (connect : Config -> option error) : io startup :=
  match Dir e with
  | Err _ => ret (Exited 1)
  | Ok stateDir =>
      let* _ := prepareState e stateDir in
      let* '(rolledBack, rbErr) := CheckAndRollback stateDir in
      if match rbErr with Some _ => false | None => rolledBack end then ret (Exited 1)
      else
        let* r := LoadConfig in
        match r with
        | Err _ => ret (Exited 1)
        | Ok cfg => if negb (Enrolled (Some cfg)) then ret (Exited 1) else renewThenConnect post connect cfg
        end
  end.
End agent.

(** ** The server's side *)

Record AgentCredential := {
  secret_hash : bytes;
  prev_secret_hash : option bytes;
  prev_valid_until : option Z;
}.

(** A device row and its credential row, which retirement deletes. *)
Record device := {
  dv_retired : bool;
  dv_cred : option AgentCredential;
}.

Section server.
Context (sha256 : bytes -> bytes).

Definition verify_agent_secret (now : Z) (dev : device) (secret : bytes) : bool * device :=
  match dv_cred dev with
  | None => (false, dev)
  | Some cred =>
      if dv_retired dev then (false, dev)
      else
        let presented := sha256 secret in
        let current_ok := bool_decide (secret_hash cred = presented) in
        let prev_unexpired := match prev_valid_until cred with None => true | Some t => now <? t end in
        let prev_ok := prev_unexpired && bool_decide (prev_secret_hash cred = Some presented) in
        let cred' :=
          if current_ok && bool_decide (is_Some (prev_secret_hash cred))
          then {| secret_hash := secret_hash cred; prev_secret_hash := None; prev_valid_until := None |}
          else cred in
        (current_ok || prev_ok, {| dv_retired := dv_retired dev; dv_cred := Some cred' |})
  end.

(** [rotation_in_flight] *)
Definition rotation_in_flight (now : Z) (dev : device) : bool :=
  match dv_cred dev with
  | None => false
  | Some cred =>
      bool_decide (is_Some (prev_secret_hash cred)) &&
      match prev_valid_until cred with None => true | Some t => now <? t end
  end.

(** The new generation of a credential: the current hash becomes the
    previous one. *)
Definition rolled (cred : AgentCredential) (new_secret : bytes) : AgentCredential :=
  {| secret_hash := sha256 new_secret; prev_secret_hash := Some (secret_hash cred); prev_valid_until := None |}.

(** [new_secret] is what [secrets.token_urlsafe] returns; [None] is the
    exception. *)
Definition renew_agent_secret (now : Z) (dev : device) (presented new_secret : bytes) : option device :=
  match dv_cred dev with
  | None => None
  | Some cred =>
      if dv_retired dev then None
      else
        let '(ok, _) := verify_agent_secret now dev presented in
        if negb ok then None
        else Some {| dv_retired := dv_retired dev; dv_cred := Some (rolled cred new_secret) |}
  end.

(** [rotate_agent_secret] without [force]; the error is [RotationInFlightError]. *)
Definition rotate_agent_secret (now : Z) (dev : device) (new_secret : bytes) : res error device :=
  if rotation_in_flight now dev then Err (Sentinel "a previous rotation has not been confirmed by the agent")
  else Ok (match dv_cred dev with
           | None => dev
           | Some cred => {| dv_retired := dv_retired dev; dv_cred := Some (rolled cred new_secret) |}
           end).

(** [POST /renew] *)
Definition renew_endpoint (now : Z) (new_secret policy : bytes) (dev : device) (presented : bytes) :
    device * reply renewResponse :=
  match renew_agent_secret now dev presented new_secret with
  | None => (dev, Replied 403 None)
  | Some dev' => (dev', Replied 200 (Some {| rs_AgentSecret := new_secret; rs_NetworkIdentity := policy |}))
  end.

(** How far one request gets. *)
Inductive delivery : Type := NeverArrived | ReplyLost | Delivered.

Definition exchanged (del : delivery) (now : Z) (new_secret policy : bytes) (dev : device) (presented : bytes) :
    device * reply renewResponse :=
  let '(dev', r) := renew_endpoint now new_secret policy dev presented in
  match del with
  | NeverArrived => (dev, Lost ErrIO)
  | ReplyLost => (dev', Lost ErrIO)
  | Delivered => (dev', r)
  end.
End server.

(** ** Lemmas *)

Section credentials.
Context {JC : JSON Config} (sha256 : bytes -> bytes) (e : hostEnv) (p : path).
Hypothesis Hpath : Path e = Ok p.
Implicit Types (cfg : Config) (dev : device) (w : world) (d : disk).
Local Abbreviation verify := (verify_agent_secret sha256).

(** The server's current secret is [s]. *)
Definition confirmed (dev : device) (s : bytes) : Prop :=
  dv_retired dev = false /\ exists cred, dv_cred dev = Some cred /\ secret_hash cred = sha256 s.

(** Whatever the hour, the server accepts [s]. *)
Definition accepts (dev : device) (s : bytes) : Prop := forall now, (verify now dev s).1 = true.
Definition refuses (dev : device) (s : bytes) : Prop := forall now, (verify now dev s).1 = false.

(** The agent restarted on this disk can authenticate. *)
Definition reachable_from (dev : device) (d : disk) : Prop :=
  exists c, configOf p d = Some c /\ accepts dev (AgentSecret c).

Lemma confirmed_accepts dev s : confirmed dev s -> accepts dev s.
Proof.
  intros (Hr & cred & Hc & Hh) now. unfold verify_agent_secret. rewrite Hc, Hr. cbn.
  by rewrite (bool_decide_eq_true_2 (secret_hash cred = sha256 s)).
Qed.

(** What the endpoint does for an agent on the current secret. *)
Definition renewed dev (cred : AgentCredential) (new_secret : bytes) : device :=
  {| dv_retired := dv_retired dev; dv_cred := Some (rolled sha256 cred new_secret) |}.

Lemma renew_accepted dev cred s now f :
  dv_retired dev = false -> dv_cred dev = Some cred -> (verify now dev s).1 = true ->
  renew_agent_secret sha256 now dev s f = Some (renewed dev cred f).
Proof.
  intros Hr Hc Hv. unfold renew_agent_secret. rewrite Hc, Hr.
  destruct (verify now dev s) as [ok dev'] eqn:E. cbn in Hv. subst ok. cbn. unfold renewed. by rewrite Hr.
Qed.

Lemma renewed_new dev cred f : dv_retired dev = false -> confirmed (renewed dev cred f) f.
Proof. intros Hr. split; [done|]. eexists. split; reflexivity. Qed.

Lemma renewed_old dev cred s f :
  dv_retired dev = false -> secret_hash cred = sha256 s -> accepts (renewed dev cred f) s.
Proof.
  intros Hr Hs now. unfold verify_agent_secret, renewed, rolled. cbn. rewrite Hr. cbn.
  rewrite (bool_decide_eq_true_2 (Some (secret_hash cred) = Some (sha256 s))) by by rewrite Hs.
  apply orb_true_r.
Qed.

(** Connecting with the current secret ends the previous one. *)
Lemma connect_retires dev s f now :
  confirmed dev f -> sha256 s ≠ sha256 f -> refuses (verify now dev f).2 s.
Proof.
  destruct dev as [r c]. intros (Hr & [h pr u] & Hc & Hh) Hne now'. cbn in *. subst.
  unfold verify_agent_secret. cbn. rewrite (bool_decide_eq_true_2 (sha256 f = sha256 f)) by done.
  destruct pr as [h|]; cbn; rewrite (bool_decide_eq_false_2 (sha256 f = sha256 s)) by congruence; cbn;
    by rewrite ?andb_false_r.
Qed.

(** A secret that is neither generation's is refused. *)
Lemma renewed_refuses dev cred s f :
  sha256 s ≠ secret_hash cred -> sha256 s ≠ sha256 f -> refuses (renewed dev cred f) s.
Proof.
  intros H1 H2 now. unfold verify_agent_secret, renewed, rolled. cbn. destruct (dv_retired dev); [done|]. cbn.
  rewrite bool_decide_eq_false_2, bool_decide_eq_false_2 by congruence. done.
Qed.

Lemma tmp_ne : p ∉ [dirEntry (PathDir p); p ++ str ".tmp"].
Proof.
  rewrite !elem_of_cons, elem_of_nil. intros [Hp|[Hp|[]]]; [|by apply (app_suffix_ne p (str ".tmp"))].
  revert Hp Hpath. unfold Path. destruct (Dir e); [|done]. intros Hp [= <-]. by apply FileName_not_dir in Hp.
Qed.

(** [Renew] on disk: only a granted renewal writes, and then the file holds
    the old configuration or the one with the new secret and policy. *)
Definition granted (f policy : bytes) : reply renewResponse :=
  Replied 200 (Some {| rs_AgentSecret := f; rs_NetworkIdentity := policy |}).
Definition withSecret cfg (f policy : bytes) : Config :=
  set_NetworkIdentityPolicy policy (set_AgentSecret f cfg).

Lemma wp_Renew_granted cfg (f policy : bytes) (Q : Config * option error -> world -> Prop) (C : disk -> Prop) w :
  Enrolled (Some cfg) = true -> f ≠ [] ->
  (forall d fs, configOf p d = Some (stored (withSecret cfg f policy)) ->
     Q (withSecret cfg f policy, None) (World d (clock w) (ticks w) fs)) ->
  (forall d fs err, configOf p d = configOf p (files w) ->
     Q (withSecret cfg f policy, Some err) (World d (clock w) (ticks w) fs) /\ C d) ->
  wp (Renew e (granted f policy) cfg) Q C w.
Proof.
  intros Hen Hf Hok Hbad. unfold Renew. rewrite Hen. cbn. rewrite bool_decide_eq_false_2 by done.
  unfold SaveConfig. rewrite Hpath. wp_step. apply wp_SaveTo.
  - intros d fs _ Hd. wp_step. by apply Hok.
  - intros d fs err Hd. pose proof (configOf_frame p _ _ _ Hd tmp_ne) as Hc. split.
    + wp_step. by apply Hbad.
    + by apply (Hbad d fs err).
Qed.

Lemma Renew_lost cfg err w : Renew e (Lost err) cfg w = (Ret (cfg, Some (if Enrolled (Some cfg) then Errorf "renew" err else Sentinel "renew: not enrolled")), w).
Proof. unfold Renew. by destruct (Enrolled (Some cfg)). Qed.

(** ** Theorems *)

(** C3: Until the agent connects again, one renewal never costs a machine its
    way back.  The agent holds the current secret on disk; the request may never
    arrive, its reply may be lost, saving may fail at any byte and the process
    may be killed at any point: when [Renew] returns or is killed, the secret on
    disk is one the server accepts.  The new secret is valid text, as everything
    the decoder returns is.  What is not claimed: the disk is the one a killed
    process leaves, not the one after a power cut ([SaveTo] does not sync); and
    when saving failed, the agent that goes on to connect with the unsaved
    secret ends the one on disk ([unsaved_renewal_locks_out]). *)
Theorem one_renewal_never_locks_out cfg dev (del : delivery) (now : Z) (f policy : bytes) w :
  Enrolled (Some cfg) = true -> configOf p (files w) = Some cfg -> confirmed dev (AgentSecret cfg) -> utf8Text f = f ->
  let '(dev', r) := exchanged sha256 del now f policy dev (AgentSecret cfg) in
  wp (Renew e r cfg) (fun _ w' => reachable_from dev' (files w')) (reachable_from dev') w.
Proof.
  intros Hen Hd Hcon Htext. pose proof Hcon as (Hr & cred & Hc & Hh).
  assert (Hold : reachable_from dev (files w)) by (exists cfg; eauto using confirmed_accepts).
  assert (Hnew : forall d, configOf p d = Some cfg -> reachable_from (renewed dev cred f) d)
    by (intros d Hcd; exists cfg; eauto using renewed_old).
  unfold exchanged, renew_endpoint. rewrite (renew_accepted dev cred) by (done || by apply confirmed_accepts).
  destruct del; [unfold wp; by rewrite Renew_lost|unfold wp; rewrite Renew_lost; by apply Hnew|].
  destruct (decide (f = [])) as [Hf|Hf].
  - subst f. unfold Renew. rewrite Hen. apply wp_ret. by apply Hnew.
  - apply wp_Renew_granted; [done|done| |].
    + intros d fs Hcd. exists (stored (withSecret cfg f policy)). split; [done|]. cbn [stored Config_encoding AgentSecret withSecret
        set_NetworkIdentityPolicy set_AgentSecret]. rewrite Htext. by apply confirmed_accepts, renewed_new.
    + intros d fs err Hcd. rewrite Hd in Hcd. eauto.
Qed.

(** A renewal that reports success is complete.  The new secret and the
    organization's policy are on disk, in one file, and are what the agent goes
    on with; an operator's local override is untouched; the server accepts the
    new secret, and the first connection with it ends the old one. *)
Theorem successful_renewal_is_complete cfg dev (now : Z) (f policy : bytes) w :
  Enrolled (Some cfg) = true -> confirmed dev (AgentSecret cfg) -> f ≠ [] -> sha256 (AgentSecret cfg) ≠ sha256 f ->
  let '(dev', r) := exchanged sha256 Delivered now f policy dev (AgentSecret cfg) in
  wp (Renew e r cfg) (fun '(cfg', err) w' => err = None ->
      configOf p (files w') = Some (stored cfg') /\ AgentSecret cfg' = f /\ NetworkIdentityPolicy cfg' = policy /\
      NetworkIdentity cfg' = NetworkIdentity cfg /\ AgentID cfg' = AgentID cfg /\
      accepts (verify now dev' f).2 f /\ refuses (verify now dev' f).2 (AgentSecret cfg)) (fun _ => True) w.
Proof.
  intros Hen Hcon Hf Hne. pose proof Hcon as (Hr & cred & Hc & Hh).
  unfold exchanged, renew_endpoint. rewrite (renew_accepted dev cred) by (done || by apply confirmed_accepts).
  pose proof (renewed_new dev cred f Hr) as Hnew.
  apply wp_Renew_granted; [done|done| |done]. intros d fs Hd _. split_and!; try done.
  - apply confirmed_accepts. destruct Hnew as (? & c' & Hc' & ?). unfold verify_agent_secret. rewrite Hc'.
    destruct (dv_retired _) eqn:Er; [done|]. split; [done|]. eexists. split; [reflexivity|]. by case_match.
  - by apply connect_retires.
Qed.

(** Two lost replies in a row lock a machine out for good.  The second
    request presents the previous secret, which the server allows; it then
    keeps as the previous generation the secret nobody received and forgets the
    one the machine holds.  The disk is as it was, and the server refuses what
    is on it, at every later hour, for a connection and for another renewal. *)
Theorem second_lost_reply_locks_out cfg dev (t1 t2 : Z) (f1 f2 policy : bytes) w :
  Enrolled (Some cfg) = true -> configOf p (files w) = Some cfg -> confirmed dev (AgentSecret cfg) ->
  sha256 (AgentSecret cfg) ≠ sha256 f1 -> sha256 (AgentSecret cfg) ≠ sha256 f2 ->
  let '(dev1, r1) := exchanged sha256 ReplyLost t1 f1 policy dev (AgentSecret cfg) in
  let '(dev2, r2) := exchanged sha256 ReplyLost t2 f2 policy dev1 (AgentSecret cfg) in
  (exists err, (let* _ := Renew e r1 cfg in Renew e r2 cfg) w = (Ret (cfg, Some err), w)) /\
  refuses dev2 (AgentSecret cfg) /\
  forall t f del, (exchanged sha256 del t f policy dev2 (AgentSecret cfg)).1 = dev2.
Proof.
  intros Hen Hd Hcon H1 H2. pose proof Hcon as (Hr & cred & Hc & Hh).
  unfold exchanged at 1, renew_endpoint. rewrite (renew_accepted dev cred) by (done || by apply confirmed_accepts).
  set (dev1 := renewed dev cred f1).
  assert (Hv : (verify t2 dev1 (AgentSecret cfg)).1 = true) by by apply renewed_old.
  unfold exchanged at 1, renew_endpoint. rewrite (renew_accepted dev1 (rolled sha256 cred f1)) by done.
  set (dev2 := renewed dev1 (rolled sha256 cred f1) f2).
  assert (Href : refuses dev2 (AgentSecret cfg)) by by apply renewed_refuses.
  split_and!; [|done|].
  - eexists. erewrite bind_Ret by apply Renew_lost. apply Renew_lost.
  - intros t f del. unfold exchanged, renew_endpoint, renew_agent_secret. cbn [dv_cred dev2 renewed].
    destruct (dv_retired dev2) eqn:Er; [by destruct del|]. specialize (Href t).
    destruct (verify t dev2 (AgentSecret cfg)) as [ok ?]. cbn in Href. subst ok. by destruct del.
Qed.

(** A renewal that cannot be saved locks the machine out at its next
    restart.  [Renew] has already put the new secret into the configuration it
    was given when saving fails; [runAgent] logs that it continues on the
    current credential and connects with that configuration.  The connection
    succeeds and ends the old secret, which is the one still on disk. *)
Theorem unsaved_renewal_locks_out cfg cfg' dev (now : Z) (f policy : bytes) w w' err :
  Enrolled (Some cfg) = true -> configOf p (files w) = Some cfg -> confirmed dev (AgentSecret cfg) ->
  f ≠ [] -> sha256 (AgentSecret cfg) ≠ sha256 f ->
  let '(dev', r) := exchanged sha256 Delivered now f policy dev (AgentSecret cfg) in
  Renew e r cfg w = (Ret (cfg', Some err), w') ->
  renewThenConnect e (fun _ => r) (fun c => if (verify now dev' (AgentSecret c)).1 then None else Some err) cfg w
    = (Ret (Running cfg'), w') /\
  configOf p (files w') = Some cfg /\ refuses (verify now dev' (AgentSecret cfg')).2 (AgentSecret cfg).
Proof.
  intros Hen Hd Hcon Hf Hne. pose proof Hcon as (Hr & cred & Hc & Hh).
  unfold exchanged, renew_endpoint. rewrite (renew_accepted dev cred) by (done || by apply confirmed_accepts).
  intros Hrun. pose proof (renewed_new dev cred f Hr) as Hnew.
  assert (Hout : AgentSecret cfg' = f /\ configOf p (files w') = Some cfg).
  { apply (wp_run _ (fun r w' => r.2 = Some err -> AgentSecret r.1 = f /\ configOf p (files w') = Some cfg)
             (fun _ => True) _ _ _ Hrun); [|done].
    apply wp_Renew_granted; [done|done|done|]. intros d fs err' Hcd. rewrite Hd in Hcd. done. }
  destruct Hout as [Hs Hcd]. split_and!; [|done|by rewrite Hs; apply connect_retires].
  unfold renewThenConnect. rewrite (bind_Ret _ _ _ _ _ Hrun). unfold ret.
  by rewrite Hs, (confirmed_accepts _ _ Hnew now).
Qed.
End credentials.

(** *** An enrolled machine *)

Definition demoPath : path := str "/etc/everwas/agent.json".
Definition demoDisk : disk :=
  {[ demoPath := File (default [] (MarshalIndent demoConfig) ++ [nl]) true 384 ]}.
Definition demoDevice : device :=
  {| dv_retired := false;
     dv_cred := Some {| secret_hash := str "s0"; prev_secret_hash := None; prev_valid_until := None |} |}.

Lemma demo_confirmed : confirmed id demoDevice (AgentSecret demoConfig).
Proof. split; [reflexivity|]. eexists. split; reflexivity. Qed.

Lemma one_renewal_never_locks_out_witness :
  let '(dev', r) := exchanged id Delivered 0 (str "s1") [] demoDevice (str "s0") in
  wp (Renew rootLinux r demoConfig) (fun _ w' => reachable_from id demoPath dev' (files w'))
    (reachable_from id demoPath dev') (World demoDisk 0 [] [Proceed; Proceed; Dies 5]).
Proof.
  apply (one_renewal_never_locks_out id rootLinux demoPath eq_refl demoConfig demoDevice Delivered 0 (str "s1") []
    (World demoDisk 0 [] [Proceed; Proceed; Dies 5])); [reflexivity|vm_compute; reflexivity|exact demo_confirmed|reflexivity].
Defined.

Lemma successful_renewal_is_complete_witness :
  let '(dev', r) := exchanged id Delivered 0 (str "s1") (str "never") demoDevice (str "s0") in
  (exists cfg', (Renew rootLinux r demoConfig (World demoDisk 0 [] [])).1 = Ret (cfg', None)) /\
  wp (Renew rootLinux r demoConfig) (fun '(cfg', err) w' => err = None ->
      configOf demoPath (files w') = Some (stored cfg') /\ AgentSecret cfg' = str "s1" /\
      NetworkIdentityPolicy cfg' = str "never" /\ NetworkIdentity cfg' = NetworkIdentity demoConfig /\
      AgentID cfg' = AgentID demoConfig /\
      accepts id (verify_agent_secret id 0 dev' (str "s1")).2 (str "s1") /\
      refuses id (verify_agent_secret id 0 dev' (str "s1")).2 (str "s0")) (fun _ => True) (World demoDisk 0 [] []).
Proof.
  split; [eexists; vm_compute; reflexivity|].
  apply (successful_renewal_is_complete id rootLinux demoPath eq_refl demoConfig demoDevice 0 (str "s1") (str "never"));
    [reflexivity|exact demo_confirmed|discriminate|discriminate].
Defined.

Lemma second_lost_reply_locks_out_witness :
  let '(dev1, _) := exchanged id ReplyLost 0 (str "s1") [] demoDevice (str "s0") in
  let '(dev2, _) := exchanged id ReplyLost 1 (str "s2") [] dev1 (str "s0") in
  refuses id dev2 (str "s0").
Proof.
  apply (second_lost_reply_locks_out id rootLinux demoPath demoConfig demoDevice 0 1 (str "s1") (str "s2") []
    (World demoDisk 0 [] [])); [reflexivity|vm_compute; reflexivity|exact demo_confirmed|discriminate|discriminate].
Defined.

Lemma unsaved_renewal_locks_out_witness :
  let '(dev', r) := exchanged id Delivered 0 (str "s1") [] demoDevice (str "s0") in
  let full := World demoDisk 0 [] [Proceed; Proceed; Fails 0] in
  exists cfg', (Renew rootLinux r demoConfig full).1 = Ret (cfg', Some (Errorf "renew: save new credential" ErrIO)) /\
  configOf demoPath (files (Renew rootLinux r demoConfig full).2) = Some demoConfig /\
  refuses id (verify_agent_secret id 0 dev' (AgentSecret cfg')).2 (str "s0").
Proof.
  eexists. split; [vm_compute; reflexivity|].
  apply (unsaved_renewal_locks_out id rootLinux demoPath eq_refl demoConfig (withSecret demoConfig (str "s1") [])
    demoDevice 0 (str "s1") [] (World demoDisk 0 [] [Proceed; Proceed; Fails 0]) _
    (Errorf "renew: save new credential" ErrIO));
    [reflexivity|vm_compute; reflexivity|exact demo_confirmed|discriminate|discriminate|vm_compute; reflexivity].
Defined.
