(* ===== verification/Supervise.v ===== *)
(** * Supervise: the agent's tasks and what they keep alive (package agentcore)

    The supervisor restarts each task that ends ([supervise], [runRecovered]),
    the credential and certificate loops ([renewLoop], [netcertLoop]), what the
    certificate loop reports ([CertReport]), the link health the update probe
    consults ([LinkHealth], the probe of the update-health task), the identity
    decision around the certificate ([EnsureNetCert] of cli/cli.go), the daily
    limit on warnings (cli/warnuser.go) and the choice of an exit code
    ([waitForShutdown], [exitCodeFor] of cli/cli.go). *)
From S2P Require Import Prelude GoLib GoText GoOS Swap Tracker Rollback Identity Netcert Credentials.

(** ** supervise *)

Definition initialBackoff : Z := Second.
Definition maxBackoff : Z := Minute.

(** How one life of a task ends, and what [runRecovered] makes of it. *)
Inductive taskEnd : Type := Returns (err : option error) | Panics.

Definition runRecovered (t : taskEnd) : option error :=
  match t with Returns err => err | Panics => Some (Sentinel "panic") end.

(** The backoff used after a life that lasted [ran], and the next one. *)
Definition delayAfter (backoff ran : Z) : Z := if maxBackoff <? ran then initialBackoff else backoff.
Definition nextBackoff (delay : Z) : Z := Z.min (delay * 2) maxBackoff.

(** *** The tasks of a supervisor

    Each task is a goroutine in [supervise]: in a life that began at [since],
    waiting for its timer, or gone.  An action is one step of one of them, the
    passing of time, or the cancellation of the context. *)
Inductive taskState : Type :=
  | Alive (since backoff : Z)
  | Waiting (until delay : Z)
  | Gone.

Record supervisor := {
  sv_now : Z;
  sv_cancelled : bool;
  sv_tasks : list taskState;
  sv_deaths : list (nat * option error);   (** the "task died" lines, newest first *)
}.

Inductive supAction : Type :=
  | Pass (dt : N)
  | Cancel
  | Ends (i : nat) (t : taskEnd)
  | TimerFires (i : nat)
  | SeesDone (i : nat).

Definition setTask (i : nat) (t : taskState) (s : supervisor) : supervisor :=
  {| sv_now := sv_now s; sv_cancelled := sv_cancelled s; sv_tasks := <[i := t]> (sv_tasks s);
     sv_deaths := sv_deaths s |}.
Definition logDeath (i : nat) (err : option error) (s : supervisor) : supervisor :=
  {| sv_now := sv_now s; sv_cancelled := sv_cancelled s; sv_tasks := sv_tasks s;
     sv_deaths := (i, err) :: sv_deaths s |}.

Definition supStep (a : supAction) (s : supervisor) : option supervisor :=
  match a with
  | Pass dt => Some {| sv_now := sv_now s + Z.of_N dt; sv_cancelled := sv_cancelled s;
                       sv_tasks := sv_tasks s; sv_deaths := sv_deaths s |}
  | Cancel => Some {| sv_now := sv_now s; sv_cancelled := true; sv_tasks := sv_tasks s; sv_deaths := sv_deaths s |}
  | Ends i t =>
      match sv_tasks s !! i with
      | Some (Alive since backoff) =>
          if sv_cancelled s then Some (setTask i Gone s)
          else
            let delay := delayAfter backoff (sv_now s - since) in
            Some (setTask i (Waiting (sv_now s + delay) delay) (logDeath i (runRecovered t) s))
      | _ => None
      end
  | TimerFires i =>
      match sv_tasks s !! i with
      | Some (Waiting until delay) =>
          if until <=? sv_now s then Some (setTask i (Alive (sv_now s) (nextBackoff delay)) s) else None
      | _ => None
      end
  | SeesDone i =>
      match sv_tasks s !! i with
      | Some (Waiting _ _) => if sv_cancelled s then Some (setTask i Gone s) else None
      | _ => None
      end
  end.

(** [Start]: every task in its first life. *)
Definition taskNames : list bytes :=
  map str ["heartbeat"; "telemetry"; "inventory"; "shell"; "jobs"; "sched"; "patchstate"; "renew"; "netcert";
           "update-health"]%string.

Definition Start (n : nat) (now : Z) : supervisor :=
  {| sv_now := now; sv_cancelled := false; sv_tasks := replicate n (Alive now initialBackoff); sv_deaths := [] |}.

Definition supRun (acts : list supAction) (s : supervisor) : option supervisor :=
  foldl (fun o a => match o with Some s => supStep a s | None => None end) (Some s) acts.

(** [Wait] returns. *)
Definition drained (s : supervisor) : Prop := Forall (fun t => t = Gone) (sv_tasks s).

(** ** renewLoop *)

(** [attempt]: whether the loop goes on. *)
Definition renewAttempt (err : option error) : bool :=
  match err with None => true | Some e => negb (Is e ErrRenewRefused) end.

(** The instants at which one life of [renewLoop] asks, given the answers. *)
Fixpoint renewLoop (t : Z) (answers : list (option error)) : list Z :=
  match answers with
  | [] => []
  | err :: answers' =>
      let t := t + RenewInterval in t :: (if renewAttempt err then renewLoop t answers' else [])
  end.

(** The same under [supervise], which restarts the task when it returns. *)
Fixpoint supervisedRenew (backoff start t : Z) (answers : list (option error)) : list Z :=
  match answers with
  | [] => []
  | err :: answers' =>
      let t := t + RenewInterval in
      t :: if renewAttempt err then supervisedRenew backoff start t answers'
           else let delay := delayAfter backoff (t - start) in
                supervisedRenew (nextBackoff delay) (t + delay) (t + delay) answers'
  end.

(** The delays [supervise] waits between lives that last [rans]. *)
Fixpoint restartDelays (backoff : Z) (rans : list Z) : list Z :=
  match rans with
  | [] => []
  | ran :: rans' => let delay := delayAfter backoff ran in delay :: restartDelays (nextBackoff delay) rans'
  end.

(** ** CertReport *)

Record CertReport := {
  cr_serial : bytes;
  cr_notAfter : Z;
}.

Definition certSet (m : option Material) : CertReport :=
  match m with
  | None => {| cr_serial := []; cr_notAfter := zero_time |}
  | Some m => {| cr_serial := mt_Serial m; cr_notAfter := mt_NotAfter m |}
  end.

Definition certGet (c : option CertReport) : bytes * Z :=
  match c with None => ([], zero_time) | Some c => (cr_serial c, cr_notAfter c) end.

(** ** netcertLoop *)

Definition netcertCheckEvery : Z := 12 * Hour.
Definition netcertUrgentEvery : Z := Hour.

Definition Canceled : error := Sentinel "context canceled".

Inductive netcertEvent : Type :=
  | Unconfigured                        (** logged once *)
  | CannotRenew (p : Phase)             (** logged as an error *)
  | WarnUser (p : Phase) (expires : Z)
  | WillRetry.

Definition pressing (p : Phase) : bool :=
  match p with PhaseUrgent | PhaseExpired => true | _ => false end.

Section netcert.
Context (sha256 : bytes -> bytes) (agentID : bytes) (every urgent : Z) (hasWarn : bool).

(** [attempt] of [netcertLoop]: [reported] is [reportedUnconfigured]; the wait,
    the flag and the events. *)
Definition attempt (reported : bool) (m : option Material) (err : option error) (now : Z) :
    Z * bool * list netcertEvent :=
  let phase := PhaseAt sha256 m now agentID in
  let expires := match m with Some m => mt_NotAfter m | None => zero_time end in
  let wait := if pressing phase then Z.min every urgent else every in
  match err with
  | None => (wait, reported, [])
  | Some e =>
      if Is e ErrNotConfigured then (every, true, if reported then [] else [Unconfigured])
      else if Is e Canceled then (every, reported, [])
      else if pressing phase then
        (wait, reported, CannotRenew phase :: if hasWarn then [WarnUser phase expires] else [])
      else (wait, reported, [WillRetry])
  end.

(** The loop over what [ensure] returns and the time each attempt takes: when
    each attempt runs, what it reported, and its events. *)
Record certRound := {
  cd_material : option Material;
  cd_err : option error;
  cd_took : nat;
}.

Fixpoint netcertLoop (reported : bool) (now : Z) (rounds : list certRound) :
    list (Z * CertReport * list netcertEvent) :=
  match rounds with
  | [] => []
  | r :: rounds' =>
      let at' := now + Z.of_nat (cd_took r) in
      let '(wait, reported, evs) := attempt reported (cd_material r) (cd_err r) at' in
      (at', certSet (cd_material r), evs) :: netcertLoop reported (at' + wait) rounds'
  end.
End netcert.

(** *** [EnsureNetCert] of [runAgent]

    [startMode] is the mode parsed at startup, [detected] what
    [winident.Detect] returns; [None] means the certificate path was not
    entered. *)
Definition identityMode (startMode : Mode) (cfg : Config) : Mode :=
  let '(mode, mErr) := ParseMode (EffectiveNetworkIdentity (Some cfg)) in
  match mErr with Some _ => startMode | None => mode end.

Definition EnsureNetCert (startMode : Mode) (cfg : Config) (detected : Sources * option error)
    (ensure : io (option Material * option error)) : io (option Material * option error) :=
  let mode := identityMode startMode cfg in
  match detected with
  | (src, None) => if Defer (Decide src mode) then ret (None, Some ErrNotConfigured) else ensure
  | (_, Some _) => ensure
  end.

(** *** [warnUserAboutCertificate]

    [stamp] is the modification time of the stamp file; the result says whether
    the user was interrupted. [stamped]: the write and the [Chtimes] worked. *)
Definition tellUserEvery : Z := 24 * Hour.

Definition warnUser (stamp : option Z) (now : Z) (stamped : bool) : bool * option Z :=
  match stamp with
  | Some t => if Sub now t <? tellUserEvery then (false, stamp) else (true, if stamped then Some now else stamp)
  | None => (true, if stamped then Some now else None)
  end.

(** ** LinkHealth and the update probe *)

Definition errPermissionViolation : error := Sentinel "nats: permissions violation".

(** [err.Error()] *)
Fixpoint errorText (e : error) : bytes :=
  match e with
  | Sentinel msg => str msg
  | Errorf ctx e => str ctx ++ str ": " ++ errorText e
  | JoinErr a b => errorText a ++ [nl] ++ errorText b
  end.

Definition isPermissionViolation (e : error) : bool :=
  Is e errPermissionViolation || Contains (ToLower (errorText e)) (str "permissions violation").

Record LinkHealth := {
  lh_violation : option error;
  lh_at : Z;
  lh_count : Z;
}.

Definition NewLinkHealth : LinkHealth := {| lh_violation := None; lh_at := zero_time; lh_count := 0 |}.

Definition RecordAsyncError (err : option error) (now : Z) (h : LinkHealth) : LinkHealth :=
  match err with
  | None => h
  | Some e =>
      if isPermissionViolation e
      then {| lh_violation := Some e; lh_at := now; lh_count := lh_count h + 1 |}
      else {| lh_violation := lh_violation h; lh_at := lh_at h; lh_count := lh_count h + 1 |}
  end.

Definition PermissionViolation (h : LinkHealth) : option error := lh_violation h.

(** What the probe of the update-health task sees; [ob_link] is [None] when no
    [LinkHealth] is wired. *)
Record observation := {
  ob_connected : bool;
  ob_flush : option error;
  ob_ready : option error;       (** [jobsMod.Ready()] *)
  ob_link : option LinkHealth;
}.

Definition probe (o : observation) : option error :=
  if negb (ob_connected o) then Some (Sentinel "nats connection is not established")
  else match ob_flush o with
       | Some e => Some (Errorf "nats round trip" e)
       | None =>
           match ob_ready o with
           | Some e => Some (Errorf "cannot accept jobs" e)
           | None =>
               match ob_link o with
               | Some h => match PermissionViolation h with
                           | Some e => Some (Errorf "nats permissions violation" e)
                           | None => None
                           end
               | None => None
               end
           end
       end.

(** [Module.Ready] of package jobs: the command subscription, if any, and
    whether it is valid. *)
Definition Ready (cmdSub : option bool) : option error :=
  match cmdSub with
  | None => Some (Sentinel "command handler is not subscribed")
  | Some valid => if valid then None else Some (Sentinel "command subscription is no longer valid")
  end.

(** ** waitForShutdown *)

Record stopReason := {
  sr_deaf : bool;
  sr_restart : bytes;
  sr_handoff : bytes;
}.
Definition askedToStop : stopReason := {| sr_deaf := false; sr_restart := []; sr_handoff := [] |}.

Definition exitRestart : Z := 10.
Definition exitDeaf : Z := 11.

Definition exitCodeFor (why : stopReason) : Z :=
  if sr_deaf why then exitDeaf
  else if negb (bool_decide (sr_restart why = [])) then exitRestart
  else 0.

(** The cases a [select] may take. *)
Inductive wakeup : Type := CtxDone | Deaf | Restart (why : stopReason).

Definition reasonOf (k : wakeup) : stopReason :=
  match k with
  | CtxDone => askedToStop
  | Deaf => {| sr_deaf := true; sr_restart := []; sr_handoff := [] |}
  | Restart why => why
  end.

(** [ctxErr]: the context was done on entry; [ready]: the cases that are ready
    when the [select] wakes, of which it takes any. *)
Inductive waitForShutdown (ctxErr : bool) (ready : list wakeup) : stopReason -> Prop :=
  | ShutdownAtEntry : ctxErr = true -> waitForShutdown ctxErr ready askedToStop
  | ShutdownSelect k : ctxErr = false -> k ∈ ready -> waitForShutdown ctxErr ready (reasonOf k).

(** ** The supervisor *)

Definition deathsOf (i : nat) (s : supervisor) : nat := length (filter (fun d => d.1 = i) (sv_deaths s)).

(** What a task's state says about its deaths so far. *)
Definition paced (t0 now : Z) (c : nat) (t : taskState) : Prop :=
  match t with
  | Alive since b => since <= now /\ initialBackoff <= b <= maxBackoff /\ Z.of_nat c * Second <= since - t0
  | Waiting until delay =>
      initialBackoff <= delay <= maxBackoff /\ until <= now + delay /\
      Z.of_nat c * Second <= until - t0 /\ (Z.of_nat c - 1) * Second <= now - t0
  | Gone => (Z.of_nat c - 1) * Second <= now - t0
  end.

Definition pacedAll (t0 : Z) (s : supervisor) : Prop :=
  t0 <= sv_now s /\ (forall i, (length (sv_tasks s) <= i)%nat -> deathsOf i s = 0%nat) /\
  forall i t, sv_tasks s !! i = Some t -> paced t0 (sv_now s) (deathsOf i s) t.

Lemma backoff_bounds b ran :
  initialBackoff <= b <= maxBackoff ->
  initialBackoff <= delayAfter b ran <= maxBackoff /\ initialBackoff <= nextBackoff (delayAfter b ran) <= maxBackoff.
Proof.
  unfold delayAfter, nextBackoff, initialBackoff, maxBackoff, Minute, Second. intros Hb.
  destruct (_ <? _); lia.
Qed.

(** Updating one task keeps the invariant if it does for that task. *)
Lemma pacedAll_set t0 s s' i t0' t :
  pacedAll t0 s -> sv_now s' = sv_now s -> sv_tasks s !! i = Some t0' -> sv_tasks s' = <[i := t]> (sv_tasks s) ->
  (forall j, j ≠ i -> deathsOf j s' = deathsOf j s) -> paced t0 (sv_now s) (deathsOf i s') t -> pacedAll t0 s'.
Proof.
  intros (Ht & Hout & Hin) Hnow Hi Hts Hd Hp. pose proof (lookup_lt_Some _ _ _ Hi) as Hlt.
  unfold pacedAll. rewrite Hnow, Hts, length_insert. split_and!; [done| |].
  - intros j Hj. rewrite Hd by lia. by apply Hout.
  - intros j u. destruct (decide (j = i)) as [->|Hne].
    + rewrite list_lookup_insert_eq by done. by intros [= <-].
    + rewrite list_lookup_insert_ne by done. rewrite Hd by done. apply Hin.
Qed.

Lemma pacedAll_step t0 a s s' : supStep a s = Some s' -> pacedAll t0 s -> pacedAll t0 s'.
Proof.
  intros Hstep Hinv. pose proof Hinv as (Ht & Hout & Hin). destruct a as [dt| |i e|i|i]; cbn in Hstep.
  - injection Hstep as <-. split_and!; [cbn; lia|done|]. intros i t Hi. specialize (Hin i t Hi).
    change (deathsOf i _) with (deathsOf i s). destruct t; cbn [paced sv_now] in *; lia.
  - injection Hstep as <-. done.
  - destruct (sv_tasks s !! i) as [[since b| |]|] eqn:Hi; try done. specialize (Hin i _ Hi). cbn [paced] in Hin.
    destruct (sv_cancelled s); injection Hstep as <-.
    + eapply pacedAll_set; try done. cbn [paced]. change (deathsOf i _) with (deathsOf i s). unfold Second in *. lia.
    + destruct (backoff_bounds b (sv_now s - since)) as [Hd _]; [lia|].
      eapply pacedAll_set; try done.
      * intros j Hj. unfold deathsOf. cbn [sv_deaths setTask logDeath]. by rewrite filter_cons_False by naive_solver.
      * unfold deathsOf. cbn [sv_deaths setTask logDeath paced]. rewrite filter_cons_True by done. cbn [length]. fold (deathsOf i s).
        unfold initialBackoff, Second in *. lia.
  - destruct (sv_tasks s !! i) as [[|until delay|]|] eqn:Hi; try done. specialize (Hin i _ Hi). cbn [paced] in Hin.
    destruct (Z.leb_spec until (sv_now s)); [|done]. injection Hstep as <-.
    destruct (backoff_bounds delay 0) as [_ Hn]; [lia|].
    eapply pacedAll_set; try done. cbn [paced]. change (deathsOf i _) with (deathsOf i s).
    change (delayAfter delay 0) with delay in Hn. lia.
  - destruct (sv_tasks s !! i) as [[|until delay|]|] eqn:Hi; try done. specialize (Hin i _ Hi). cbn [paced] in Hin.
    destruct (sv_cancelled s); [|done]. injection Hstep as <-. eapply pacedAll_set; try done. cbn [paced].
    change (deathsOf i _) with (deathsOf i s). lia.
Qed.

Lemma supRun_inv (P : supervisor -> Prop) acts s s' :
  (forall a s s', supStep a s = Some s' -> P s -> P s') -> supRun acts s = Some s' -> P s -> P s'.
Proof.
  intros Hstep. unfold supRun. revert s. induction acts as [|a acts IH]; intros s; cbn; [by intros [= <-]|].
  destruct (supStep a s) as [s1|] eqn:E; [eauto|]. intros H. exfalso. clear -H.
  by induction acts.
Qed.

(** A task that keeps dying is restarted, but at a bounded pace.  However the
    tasks of a supervisor live, die and panic, a task has died at most once per
    second since the start, plus once; and a task that waits for its restart
    waits at most a minute. *)
Theorem supervisor_paces_restarts (n : nat) (t0 : Z) (acts : list supAction) (s : supervisor) (i : nat) :
  supRun acts (Start n t0) = Some s ->
  Z.of_nat (deathsOf i s) <= 1 + (sv_now s - t0) / Second /\
  (forall due delay, sv_tasks s !! i = Some (Waiting due delay) -> due <= sv_now s + maxBackoff).
Proof.
  intros Hrun. assert (Hinv : pacedAll t0 s).
  { eapply supRun_inv; [intros *; apply pacedAll_step|exact Hrun|]. split_and!; [cbn; lia|done|].
    intros j t Hj. apply lookup_replicate in Hj as [-> _]. cbn. unfold initialBackoff, maxBackoff, Minute, Second. lia. }
  destruct Hinv as (Ht & Hout & Hin). assert (0 < Second) by done. split.
  - destruct (sv_tasks s !! i) as [t|] eqn:Hi.
    + specialize (Hin i t Hi). enough (Z.of_nat (deathsOf i s) - 1 <= (sv_now s - t0) / Second) by lia.
      apply Z.div_le_lower_bound; [done|]. rewrite Z.mul_comm. destruct t; cbn [paced] in Hin; lia.
    + apply lookup_ge_None in Hi. rewrite Hout by done. pose proof (Z.div_pos (sv_now s - t0) Second). lia.
  - intros due delay Hi. specialize (Hin i _ Hi). cbn [paced] in Hin. lia.
Qed.

Lemma supervisor_paces_restarts_witness :
  let acts := [Pass 5; Ends 0 Panics; Pass (Z.to_N Second); TimerFires 0; Ends 0 (Returns None)] in
  match supRun acts (Start 2 0) with
  | Some s => Z.of_nat (deathsOf 0 s) <= 1 + (sv_now s - 0) / Second /\ deathsOf 0 s = 2%nat
  | None => False
  end.
Proof.
  intros acts. destruct (supRun acts (Start 2 0)) as [s|] eqn:E; [|by vm_compute in E].
  split; [exact (proj1 (supervisor_paces_restarts 2 0 acts s 0 E))|]. vm_compute in E. injection E as <-. reflexivity.
Defined.

(** *** Draining *)

Definition taskAction (a : supAction) : bool := match a with Pass _ | Cancel => false | _ => true end.
Definition taskSteps (acts : list supAction) : nat := length (filter (fun a => taskAction a = true) acts).

(** How many steps a task can still take once the context is cancelled: a
    waiting one may see its timer first and live once more. *)
Definition rank (t : taskState) : nat := match t with Waiting _ _ => 2 | Alive _ _ => 1 | Gone => 0 end.
Definition ranks (ts : list taskState) : nat := sum_list_with rank ts.

Lemma ranks_insert ts i t u :
  ts !! i = Some t -> (rank u < rank t)%nat -> (ranks (<[i := u]> ts) < ranks ts)%nat.
Proof.
  unfold ranks. revert i. induction ts as [|v ts IH]; intros [|i]; cbn; [done..| |].
  - intros [= ->]. lia.
  - intros Hi Hr. by apply Nat.add_lt_mono_l, IH.
Qed.

Lemma ranks_le ts : (ranks ts <= 2 * length ts)%nat.
Proof. unfold ranks. induction ts as [|t ts IH]; cbn in *; [lia|]. destruct t; cbn in *; lia. Qed.

Lemma supStep_cancelled a s s' :
  sv_cancelled s = true -> supStep a s = Some s' ->
  sv_cancelled s' = true /\ (ranks (sv_tasks s') + (if taskAction a then 1 else 0) <= ranks (sv_tasks s))%nat.
Proof.
  intros Hc. destruct a as [dt| |i e|i|i]; cbn; [by intros [= <-]; (split; [done|]); cbn [sv_tasks taskAction]; lia..| | |];
    destruct (sv_tasks s !! i) as [[]|] eqn:Hi; try done; rewrite ?Hc; try case_match; try done; intros [= <-];
    (split; [done|]); cbn [sv_tasks setTask taskAction]; rewrite Nat.add_1_r;
    apply (ranks_insert _ _ _ _ Hi); cbn; lia.
Qed.

Lemma supRun_cancelled acts s s' :
  sv_cancelled s = true -> supRun acts s = Some s' ->
  sv_cancelled s' = true /\ (ranks (sv_tasks s') + taskSteps acts <= ranks (sv_tasks s))%nat.
Proof.
  unfold supRun, taskSteps. revert s. induction acts as [|a acts IH]; intros s Hc; cbn [foldl].
  { intros [= <-]. split; [done|]. cbn. lia. }
  destruct (supStep a s) as [s1|] eqn:E.
  - destruct (supStep_cancelled a s s1 Hc E) as [Hc1 Hr1]. intros Hrun. destruct (IH s1 Hc1 Hrun) as [Hc' Hr'].
    split; [done|]. rewrite filter_cons. destruct (taskAction a); (case_decide; [|done]) || case_decide; cbn [length] in *; try done; lia.
  - intros H. exfalso. clear -H. by induction acts.
Qed.

(** C24: The agent always gets to stop.  Once the context is cancelled, however
    the tasks' steps interleave, and even if timers still restart some of them,
    the supervisor's goroutines take at most two steps each; and as long as the
    lives that run end, the only state in which no step is left is the one
    where every task is gone and [Wait] returns. *)
Theorem supervisor_drains (s s' : supervisor) (acts : list supAction) :
  sv_cancelled s = true -> supRun acts s = Some s' ->
  (taskSteps acts <= 2 * length (sv_tasks s))%nat /\
  ((forall a, taskAction a = true -> supStep a s' = None) -> drained s').
Proof.
  intros Hc Hrun. destruct (supRun_cancelled acts s s' Hc Hrun) as [Hc' Hr]. split.
  - pose proof (ranks_le (sv_tasks s)). lia.
  - intros Hstuck. apply Forall_lookup. intros i t Hi. destruct t as [since b|due delay|]; [| |done].
    + specialize (Hstuck (Ends i Panics) eq_refl). cbn in Hstuck. by rewrite Hi, Hc' in Hstuck.
    + specialize (Hstuck (SeesDone i) eq_refl). cbn in Hstuck. by rewrite Hi, Hc' in Hstuck.
Qed.

Lemma supervisor_drains_witness :
  let s := {| sv_now := 0; sv_cancelled := true; sv_tasks := [Alive 0 Second; Waiting 0 Second]; sv_deaths := [] |} in
  let acts := [TimerFires 1; Ends 0 (Returns None); Ends 1 Panics] in
  match supRun acts s with
  | Some s' => (taskSteps acts <= 2 * length (sv_tasks s))%nat /\ drained s'
  | None => False
  end.
Proof.
  intros s acts. destruct (supRun acts s) as [s'|] eqn:E; [|by vm_compute in E].
  destruct (supervisor_drains s s' acts eq_refl E) as [H1 H2]. split; [exact H1|]. apply H2.
  vm_compute in E. injection E as <-. intros [| |[|[|i]] t|[|[|i]]|[|[|i]]]; done.
Defined.

(** ** Tasks that return *)

Definition refusedAnswer (a : option error) : Prop := exists e, a = Some e /\ Is e ErrRenewRefused = true.

Lemma restartDelays_short b k n :
  (k < n)%nat -> 0 < b -> restartDelays b (replicate n 0) !! k = Some (Z.min (b * 2 ^ Z.of_nat k) maxBackoff) \/ maxBackoff < b.
Proof.
  intros Hk Hb. destruct (Z.le_gt_cases b maxBackoff) as [Hm|]; [left|by right].
  revert k n Hk Hb Hm. intros k. revert b. induction k as [|k IH]; intros b [|n] Hk Hb Hm; [lia| |lia|]; cbn [replicate restartDelays].
  - change (delayAfter b 0) with b. cbn. f_equal. change (2 ^ 0) with 1. lia.
  - change (delayAfter b 0) with b. cbn [lookup list_lookup]. change (list_lookup k) with (lookup (M := list Z) k).
    rewrite IH; [|lia|unfold nextBackoff, maxBackoff, Minute, Second in *; lia|unfold nextBackoff; lia].
    f_equal. rewrite Nat2Z.inj_succ, Z.pow_succ_r by lia. unfold nextBackoff.
    assert (0 < 2 ^ Z.of_nat k) by (apply Z.pow_pos_nonneg; lia). unfold maxBackoff, Minute, Second in *. nia.
Qed.

Lemma supervisedRenew_refused b t answers :
  Forall refusedAnswer answers -> initialBackoff <= b <= maxBackoff ->
  supervisedRenew b t t answers =
    imap (fun k _ => t + Z.of_nat (S k) * RenewInterval + Z.of_nat k * initialBackoff) answers.
Proof.
  intros Hr. revert b t. induction Hr as [|a answers (e & -> & He) _ IH]; intros b t Hb; [done|].
  cbn [supervisedRenew imap]. unfold renewAttempt. rewrite He. cbn [negb].
  assert (Hd : delayAfter b (t + RenewInterval - t) = initialBackoff).
  { replace (t + RenewInterval - t) with RenewInterval by lia. reflexivity. }
  rewrite Hd. f_equal; [unfold RenewInterval; lia|]. rewrite IH by (vm_compute; split; discriminate).
  apply imap_ext. intros k x _. cbn. lia.
Qed.

(** A refused credential is asked for again, for ever.  [renewLoop] returns
    on a refusal so that a retired machine stops asking; the supervisor takes
    the return for a death and restarts it a second later.  And a task that has
    nothing to do and returns at once, as the renewal and certificate tasks do
    when they are not wired, is logged as dead and restarted every minute. *)
Theorem returning_tasks_are_restarted_forever (t : Z) (answers : list (option error)) (n k : nat) :
  Forall refusedAnswer answers -> (6 <= k < n)%nat ->
  (length (renewLoop t answers) <= 1)%nat /\
  supervisedRenew initialBackoff t t answers =
    imap (fun k _ => t + Z.of_nat (S k) * RenewInterval + Z.of_nat k * Second) answers /\
  restartDelays initialBackoff (replicate n 0) !! k = Some Minute.
Proof.
  intros Hr Hk. split_and!.
  - destruct Hr as [|a answers (e & -> & He)]; cbn; [lia|]. unfold renewAttempt. rewrite He. cbn. lia.
  - apply supervisedRenew_refused; [done|vm_compute; split; discriminate].
  - destruct (restartDelays_short initialBackoff k n) as [->|Hc]; [lia|done| |by vm_compute in Hc].
    f_equal. unfold initialBackoff. change maxBackoff with Minute.
    assert (2 ^ 6 <= 2 ^ Z.of_nat k) by (apply Z.pow_le_mono_r; lia). unfold Minute, Second in *. lia.
Qed.

Lemma returning_tasks_are_restarted_forever_witness :
  supervisedRenew initialBackoff 0 0 [Some ErrRenewRefused; Some ErrRenewRefused; Some ErrRenewRefused]
    = [12 * Hour; 24 * Hour + Second; 36 * Hour + 2 * Second] /\
  renewLoop 0 [Some ErrRenewRefused; Some ErrRenewRefused; Some ErrRenewRefused] = [12 * Hour].
Proof.
  destruct (returning_tasks_are_restarted_forever 0 [Some ErrRenewRefused; Some ErrRenewRefused; Some ErrRenewRefused] 8 7)
    as (_ & -> & _); [repeat constructor; by eexists|lia|]. split; reflexivity.
Defined.

(** ** The certificate loop *)

Section netcert_spec.
Context (sha256 : bytes -> bytes) (agentID : bytes) (every urgent : Z).
Local Abbreviation attempt := (attempt sha256 agentID every urgent true).
Local Abbreviation netcertLoop := (netcertLoop sha256 agentID every urgent true).

(** The failures that matter: not "the server has no CA", not a shutdown. *)
Definition realFailure (err : option error) : Prop :=
  exists e, err = Some e /\ Is e ErrNotConfigured = false /\ Is e Canceled = false.

Definition saysUnconfigured (ev : netcertEvent) : bool := match ev with Unconfigured => true | _ => false end.
Definition unconfiguredCount (out : list (Z * CertReport * list netcertEvent)) : nat :=
  length (filter (fun ev => saysUnconfigured ev = true) (concat (map snd out))).

Lemma attempt_warns reported m err now :
  (exists p t, WarnUser p t ∈ (attempt reported m err now).2) <->
  realFailure err /\ pressing (PhaseAt sha256 m now agentID) = true.
Proof.
  unfold Supervise.attempt, realFailure. destruct err as [e|]; [|set_solver].
  destruct (Is e ErrNotConfigured) eqn:E1.
  { destruct reported; split; try set_solver; intros ((? & [= <-] & ? & _) & _); congruence. }
  destruct (Is e Canceled) eqn:E2; [split; [set_solver|]; intros ((? & [= <-] & _ & ?) & _); congruence|].
  destruct (pressing _); set_solver.
Qed.

Lemma attempt_reported reported m err now :
  let '(_, reported', evs) := attempt reported m err now in
  (length (filter (fun ev => saysUnconfigured ev = true) evs) + (if reported then 1 else 0) <= (if reported' then 1 else 0))%nat.
Proof.
  unfold Supervise.attempt. destruct err as [e|]; [|cbn; lia]. destruct (Is e ErrNotConfigured); [by destruct reported|].
  destruct (Is e Canceled); [cbn; lia|]. destruct (pressing _); rewrite ?filter_cons_False by done; cbn; lia.
Qed.

(** The certificate loop raises its voice exactly when it should.  Over any
    number of attempts: the person at the machine is interrupted at exactly the
    attempts that fail for a real reason in the last eighth of the
    certificate's life or after it; what is reported to the server is what the
    attempt says the device holds; and a server without a CA is mentioned at
    most once. *)
Theorem netcert_loop_escalates (now : Z) (rounds : list certRound) :
  let out := netcertLoop false now rounds in
  length out = length rounds /\
  (forall i r at' rep evs, rounds !! i = Some r -> out !! i = Some (at', rep, evs) ->
     rep = certSet (cd_material r) /\
     ((exists p t, WarnUser p t ∈ evs) <->
        realFailure (cd_err r) /\ pressing (PhaseAt sha256 (cd_material r) at' agentID) = true)) /\
  (unconfiguredCount out <= 1)%nat.
Proof.
  assert (Hgen : forall rounds reported now, let out := netcertLoop reported now rounds in
    length out = length rounds /\
    (forall i r at' rep evs, rounds !! i = Some r -> out !! i = Some (at', rep, evs) ->
       rep = certSet (cd_material r) /\
       ((exists p t, WarnUser p t ∈ evs) <->
          realFailure (cd_err r) /\ pressing (PhaseAt sha256 (cd_material r) at' agentID) = true)) /\
    (unconfiguredCount out + (if reported then 1 else 0) <= 1)%nat).
  { clear. induction rounds as [|r rounds IH]; intros reported now; cbn [Supervise.netcertLoop].
    { split_and!; [done|done|destruct reported; cbn; lia]. }
    set (at0 := now + _). destruct (attempt reported (cd_material r) (cd_err r) at0) as [[wait reported'] evs] eqn:E.
    destruct (IH reported' (at0 + wait)) as (Hl & Hi & Hc). split_and!; [cbn; by rewrite Hl| |].
    - intros [|i] r' at' rep evs'; [|apply Hi]. cbn. intros [= <-] [= <- <- <-]. split; [done|].
      pose proof (attempt_warns reported (cd_material r) (cd_err r) at0) as Hw. by rewrite E in Hw.
    - pose proof (attempt_reported reported (cd_material r) (cd_err r) at0) as Hrep. rewrite E in Hrep.
      unfold unconfiguredCount in *. cbn [map concat snd]. rewrite filter_app, length_app. lia. }
  intros out. destruct (Hgen rounds false now) as (? & ? & Hc). split_and!; [done|done|]. subst out. lia.
Qed.
End netcert_spec.

Lemma toyEnsure_unsaved :
  toyEnsure [Proceed; Proceed; Fails 0] toyDisk = (Ret (None, Some (Errorf "netcert: write key" ErrIO)), World toyDisk 0 [] []).
Proof. vm_compute. reflexivity. Qed.

(** A failure to renew is reported as the loss of the certificate.  When the
    new certificate cannot be saved, [ensure] returns no material beside its
    error, though the device still holds a certificate with a third of its life
    ahead (its phase says a renewal is due, nothing more).  So the loop tells
    the server the device holds nothing, and tells the user that the
    certificate has expired. *)
Theorem failed_save_is_reported_as_expired (sha256 : bytes -> bytes) (agentID : bytes) :
  let now := 60 * 24 * Hour in
  let '(out, w') := toyEnsure [Proceed; Proceed; Fails 0] toyDisk in
  match out with
  | Ret (m, err) =>
      let '(_, _, evs) := attempt sha256 agentID netcertCheckEvery netcertUrgentEvery true false m err now in
      certSet m = {| cr_serial := []; cr_notAfter := zero_time |} /\ WarnUser PhaseExpired zero_time ∈ evs /\
      files w' = toyDisk /\
      exists held, (Load toyCert (str "/n") (with_faults w' [])).1 = Ret (Ok held) /\
        PhaseAt (fun _ => []) (Some held) now agentID = PhaseDue
  | Died => False
  end.
Proof.
  rewrite toyEnsure_unsaved. cbv zeta beta iota. unfold attempt. cbn [PhaseAt pressing].
  split_and!; [done|right; left|done|].
  exists (materialOf (str "/n") {| ci_NotBefore := 0; ci_NotAfter := 90 * 24 * Hour; ci_Serial := 49; ci_key := str "A" |}).
  split; [vm_compute; reflexivity|]. vm_compute. reflexivity.
Qed.

(** ** Deferring to a directory *)

(** Finding Active Directory never makes the agent abandon a machine it
    serves.  Unless the mode in force is "never", a machine that already holds
    one of the agent's certificates, or whose detection failed, goes through the
    certificate path; and where the agent does stand aside nothing is requested,
    written or escalated. *)
Theorem served_machines_keep_their_certificate (startMode : Mode) (cfg : Config)
    (detected : Sources * option error) (ensure : io (option Material * option error)) (w : world) :
  let mode := identityMode startMode cfg in
  (mode ≠ ModeNever -> ProvidedByUs detected.1 = true \/ is_Some detected.2 ->
     EnsureNetCert startMode cfg detected ensure w = ensure w) /\
  (Defer (Decide detected.1 mode) = true -> detected.2 = None ->
     EnsureNetCert startMode cfg detected ensure w = (Ret (None, Some ErrNotConfigured), w) /\
     forall sha256 agentID every urgent reported now,
       (attempt sha256 agentID every urgent true reported None (Some ErrNotConfigured) now).1.1 = every /\
       forall p t, WarnUser p t ∉ (attempt sha256 agentID every urgent true reported None (Some ErrNotConfigured) now).2).
Proof.
  intros mode. unfold EnsureNetCert. destruct detected as [src [e|]]; cbn [fst snd]; fold mode.
  { split; [done|]. intros _ [=]. }
  split.
  - intros Hm [Hus|[? [=]]]. destruct (Defer (Decide src mode)) eqn:E; [|done]. exfalso.
    unfold Decide in E. rewrite Hus, bool_decide_eq_false_2 in E by done. done.
  - intros -> _. split; [done|]. intros. unfold attempt. cbn. split; [done|]. intros p t. destruct reported; set_solver.
Qed.

(** ** Interrupting the user *)

(** The calls that interrupted somebody: each call is its time and whether the
    stamp could be written. *)
Fixpoint warnings (stamp : option Z) (calls : list (Z * bool)) : list Z :=
  match calls with
  | [] => []
  | (now, stamped) :: calls' =>
      let '(shown, stamp') := warnUser stamp now stamped in
      (if shown then [now] else []) ++ warnings stamp' calls'
  end.

Lemma warnings_after stamp calls t :
  Forall (fun c => c.2 = true) calls -> stamp = Some t ->
  Forall (fun u => tellUserEvery <= u - t) (take 1 (warnings stamp calls)).
Proof.
  intros Hc. revert t. induction Hc as [|[now b] calls Hb _ IH]; intros t ->; cbn [warnings warnUser]; [constructor|].
  cbn in Hb. subst b. destruct (Z.ltb_spec (Sub now t) tellUserEvery) as [Hlt|Hge]; cbn [app]; [by apply IH|].
  cbn [take]. constructor; [|constructor]. unfold Sub, sat64, min_int64, max_int64, tellUserEvery, Hour, Minute, Second in *. lia.
Qed.

(** The user is interrupted at most once a day.  As long as the stamp file
    can be written, two consecutive interruptions are at least twenty-four hours
    apart, whatever restarts of the agent and however many failed renewals lie
    between them. *)
Theorem warnings_are_a_day_apart (stamp : option Z) (calls : list (Z * bool)) (i : nat) (t u : Z) :
  Forall (fun c => c.2 = true) calls ->
  warnings stamp calls !! i = Some t -> warnings stamp calls !! S i = Some u -> tellUserEvery <= u - t.
Proof.
  intros Hc. revert stamp i. induction Hc as [|[now b] calls Hb Hcs IH]; intros stamp i; cbn [warnings]; [done|].
  cbn in Hb. subst b.
  destruct (warnUser stamp now true) as [shown stamp'] eqn:E. destruct shown; [|apply IH].
  assert (Hst : stamp' = Some now) by (unfold warnUser in E; repeat case_match; congruence).
  destruct i as [|i]; [|apply IH]. cbn. intros [= <-] Hu.
  pose proof (warnings_after stamp' calls now Hcs Hst) as Hf.
  destruct (warnings stamp' calls) as [|v l]; [done|]. cbn in Hu, Hf. injection Hu as <-. by inversion Hf.
Qed.

Lemma warnings_are_a_day_apart_witness :
  let calls := [(0, true); (Hour, true); (25 * Hour, true)] in
  warnings None calls = [0; 25 * Hour] /\ tellUserEvery <= 25 * Hour - 0.
Proof.
  split; [vm_compute; reflexivity|].
  apply (warnings_are_a_day_apart None [(0, true); (Hour, true); (25 * Hour, true)] 0);
    [repeat constructor|vm_compute; reflexivity|vm_compute; reflexivity].
Defined.

(** ** The update probe *)

Definition recordAll (history : list (option error * Z)) : LinkHealth :=
  foldl (fun h '(err, now) => RecordAsyncError err now h) NewLinkHealth history.

Definition denied (history : list (option error * Z)) : Prop :=
  Exists (fun '(err, _) => exists e, err = Some e /\ isPermissionViolation e = true) history.

(** A denial is never forgotten, whatever is recorded after it. *)
Lemma denial_is_sticky history : denied history -> is_Some (PermissionViolation (recordAll history)).
Proof.
  unfold recordAll, PermissionViolation, denied. generalize NewLinkHealth.
  assert (Hkeep : forall h l, is_Some (lh_violation h) ->
    is_Some (lh_violation (foldl (fun h '(err, now) => RecordAsyncError err now h) h l))).
  { intros h l. revert h. induction l as [|[[e|] now] l IH]; intros h Hh; cbn; [done| |by apply IH].
    apply IH. destruct (isPermissionViolation e); cbn; [eauto|done]. }
  intros h Hd. revert h. induction Hd as [[err now] l (e & -> & He)|[err now] l _ IH]; intros h; cbn; [|apply IH].
  rewrite He. apply Hkeep. cbn. eauto.
Qed.

(** The agent cannot be told anything: there is no connection, no round trip,
    no valid command subscription, or a subject was denied at some time. *)
Definition deaf (o : observation) : Prop :=
  ob_connected o = false \/ is_Some (ob_flush o) \/ is_Some (ob_ready o) \/
  exists history, ob_link o = Some (recordAll history) /\ denied history.

Lemma probe_deaf o : deaf o -> is_Some (probe o).
Proof.
  unfold probe. intros [->|[[e He]|[[e He]|(h & Hl & Hd)]]]; [eauto|..]; destruct (ob_connected o); cbn; eauto.
  - rewrite He. eauto.
  - destruct (ob_flush o); [eauto|]. rewrite He. eauto.
  - destruct (ob_flush o), (ob_ready o); eauto. rewrite Hl. destruct (denial_is_sticky h Hd) as [e ->]. eauto.
Qed.

(** The rounds [update.Watch] sees: each probe and how the wait after it ends. *)
Definition watchRound (r : observation * (bool * bool)) : round :=
  {| rd_probe_ok := bool_decide (probe r.1 = None); rd_cancelled := r.2.1; rd_stop := r.2.2 |}.

(** C14: A build that cannot be told anything is never confirmed.  If at every
    probe the agent is deaf (disconnected, without a round trip, without a valid
    command subscription, or denied a subject at any earlier time, whatever
    harmless errors came later), then however long the probation lasts and
    whatever fails, the update is not recorded as healthy: the record is the one
    found, or says unproven once the longest probation has passed. *)
Theorem deaf_build_is_never_confirmed `{Platform} {JS : JSON State} (stateDir : path) (cfg : WatchConfig) (alive : bool)
    (rounds : list (observation * (bool * bool))) (w : world) :
  let st := stateOf stateDir (files w) in
  SwappedAt st ≠ zero_time -> steady w -> Forall (fun r => deaf r.1) rounds ->
  wp (Watch stateDir cfg alive (map watchRound rounds))
    (fun _ w' => unconfirmed stateDir st (SwappedAt st + wc_MaxProbation (normalized cfg)) (files w'))
    (unconfirmed stateDir st (SwappedAt st + wc_MaxProbation (normalized cfg))) w.
Proof.
  intros st Hz Hs Hd. apply no_confirmation_without_evidence; [done|done|]. right.
  apply Forall_map, (Forall_impl _ _ _ Hd). intros [o [c s]] Ho. cbn.
  apply bool_decide_eq_false_2. destruct (probe_deaf o Ho) as [e ->]. done.
Qed.

Definition deniedAgent : observation :=
  {| ob_connected := true; ob_flush := None; ob_ready := None;
     ob_link := Some (recordAll [(Some (Sentinel "nats: Permissions Violation for Subscription"), 1);
                                 (Some (Sentinel "nats: slow consumer"), 2)]) |}.

Lemma deaf_build_is_never_confirmed_witness :
  let w := World demo_update_disk demo_now [] [] in
  let st := stateOf demo_dir (files w) in
  let cfg := {| wc_Probe := true; wc_MinProbation := 0; wc_MaxProbation := 0; wc_ProbeInterval := 0 |} in
  wp (Watch demo_dir cfg true (map watchRound [(deniedAgent, (false, false))]))
    (fun _ w' => unconfirmed demo_dir st (SwappedAt st + wc_MaxProbation (normalized cfg)) (files w'))
    (unconfirmed demo_dir st (SwappedAt st + wc_MaxProbation (normalized cfg))) w.
Proof.
  apply (deaf_build_is_never_confirmed demo_dir
    {| wc_Probe := true; wc_MinProbation := 0; wc_MaxProbation := 0; wc_ProbeInterval := 0 |} true
    [(deniedAgent, (false, false))] (World demo_update_disk demo_now [] [])).
  - vm_compute; discriminate.
  - constructor.
  - constructor; [|constructor]. right. right. right. eexists. split; [reflexivity|]. constructor. eexists.
    split; [reflexivity|]. vm_compute. reflexivity.
Defined.

(** ** Shutdown *)

(** A stop that arrives while the agent waits can be reported as a crash.  The
    check of the context is made before the wait, once; when the context and
    the closed connection are both ready during it, the [select] may take
    either, and the exit code is the one that makes the service manager restart
    an agent that was asked to stop. *)
Theorem a_stop_can_look_like_a_crash :
  (forall ready why, waitForShutdown true ready why -> exitCodeFor why = 0) /\
  exists why, waitForShutdown false [CtxDone; Deaf] why /\ exitCodeFor why = exitDeaf.
Proof.
  split; [by intros ready why []|].
  exists (reasonOf Deaf). split; [|reflexivity]. constructor; [done|]. right. left.
Qed.
