(* ===== verification/Render.v ===== *)
(** * Render: the files the agent writes for other programs to read

    The systemd unit and the launchd property list (svc/render.go,
    svc/service.go) and the 802.1X profiles for wpa_supplicant and for Windows
    (supplicant/supplicant.go, windows_profile.go, write.go).  Each is read by
    a program with rules of its own, so the theorems read the text back by
    those rules ([shWords], [xmlUnescape], [wpaField]; for the unit, [Systemd])
    and say what comes out.  A backquote in a literal given to [qstr] stands for a double
    quote. *)
From S2P Require Import Prelude GoLib GoText GoOS.

Definition dq : ascii := chr 34.
Definition bslash : ascii := chr 92.
Definition tab : ascii := chr 9.
Definition squote : ascii := chr 39.
Definition qstr (s : String.string) : bytes := map (fun c => if decide (c = "`"%char) then dq else c) (str s).
Arguments qstr s%_string.

(** [n] tabs. *)
Definition indent (n : nat) (s : bytes) : bytes := replicate n tab ++ s.

(** ** svc *)

Definition Name : bytes := str "everwas-agent".
Definition Description : bytes := str "Everwas remote monitoring and management agent".
Definition LaunchdLabel : bytes := str "systems.supported.everwas.agent".
Definition MacLogDir : bytes := str "/Library/Logs/Everwas".
Definition StateDirEnv : bytes := str "EVERWAS_STATE_DIR".
Definition LinuxGuardPath : bytes := str "/usr/local/lib/everwas/agent-guard.sh".
Definition DarwinGuardPath : bytes := str "/Library/Everwas/Agent/agent-guard.sh".

Record InstallConfig := {
  ic_BinaryPath : bytes;
  ic_Args : list bytes;
  ic_StateDir : bytes;
  ic_Prefix : bytes;
}.

(** [env] is [os.Getenv]. *)
Definition normalized (env : bytes -> bytes) (c : InstallConfig) : InstallConfig :=
  {| ic_BinaryPath := ic_BinaryPath c;
     ic_Args := match ic_Args c with [] => [str "run"] | a => a end;
     ic_Prefix := if bool_decide (ic_Prefix c = []) then env (str "EVERWAS_SERVICE_PREFIX") else ic_Prefix c;
     ic_StateDir := if bool_decide (ic_StateDir c = []) then env StateDirEnv else ic_StateDir c |}.

(** *** systemd *)

(** [strings.NewReplacer] with one-character keys. *)
Definition sdEscape (c : ascii) : bytes :=
  if decide (c = bslash) then [bslash; bslash]
  else if decide (c = dq) then [bslash; dq]
  else if decide (c = "%"%char) then str "%%"
  else [c].

Definition sdSpecial : bytes := [" "%char; tab; dq; squote; bslash; "$"%char; "%"%char].

Definition systemdQuote (s : bytes) : bytes :=
  if negb (bool_decide (s = [])) && negb (ContainsAny s sdSpecial) then s
  else [dq] ++ concat (map sdEscape s) ++ [dq].

Definition systemdExec (c : InstallConfig) : bytes :=
  JoinStr (str " ") (map systemdQuote (ic_BinaryPath c :: ic_Args c)).

Definition systemdGuardExec (c : InstallConfig) : bytes :=
  JoinStr (str " ") (map systemdQuote [str "/bin/sh"; LinuxGuardPath; str "check"; ic_BinaryPath c]).

Definition unitLines (c : InstallConfig) : list bytes :=
  [ str "[Unit]";
    str "Description=" ++ Description;
    str "Documentation=https://github.com/everwas/everwas/agent";
    str "After=network-online.target";
    str "Wants=network-online.target";
    [];
    str "[Service]";
    str "Type=simple";
    str "# The rollback guard runs OUTSIDE the agent, which is the only way to";
    str "# recover a build that cannot execute at all: wrong architecture, missing";
    str "# symbol, panic in package init, a config the new binary cannot parse.";
    str "# None of those ever reach the agent's own crash counter. The leading '-'";
    str "# and the /bin/sh wrapper mean a missing guard can never block startup.";
    str "ExecStartPre=-" ++ systemdGuardExec c;
    str "ExecStart=" ++ systemdExec c;
    str "Restart=always";
    str "RestartSec=5" ] ++
  (if bool_decide (ic_StateDir c = []) then []
   else [str "Environment=" ++ StateDirEnv ++ str "=" ++ ic_StateDir c]) ++
  [ [];
    str "# The agent applies OS patches, so it runs as root and must keep the";
    str "# ability to gain privileges. Forbidding that here breaks apt, dnf and";
    str "# zypper in ways that are hard to spot from the outside.";
    str "NoNewPrivileges=false";
    str "ProtectHome=read-only";
    str "PrivateTmp=true";
    [];
    str "# Package managers run in a transient scope (systemd-run --scope), so they";
    str "# are NOT members of this cgroup: a restart of the agent during a patch";
    str "# window would otherwise SIGKILL dpkg mid-transaction and leave the package";
    str "# database for a human to repair. TimeoutStopSec is generous for the";
    str "# fallback case, where systemd-run is unavailable and the transaction";
    str "# really is in this cgroup.";
    str "KillMode=mixed";
    str "TimeoutStopSec=300";
    [];
    str "[Install]";
    str "WantedBy=multi-user.target" ].

Definition RenderSystemdUnit (env : bytes -> bytes) (c : InstallConfig) : bytes :=
  unlines (unitLines (normalized env c)).

(** *** launchd *)

(** [strings.ReplaceAll(s, "'", `'\''`)] between quotes. *)
Definition shQuote (s : bytes) : bytes :=
  [squote] ++ concat (map (fun c => if decide (c = squote) then [squote; bslash; squote; squote] else [c]) s) ++ [squote].

(** [xml.EscapeText], rune by rune. *)
Definition replacement : bytes := map chr [239; 191; 189].

Definition outOfRange (r : bytes) : bool :=
  match map code r with
  | [a] => (128 <=? a) || (a <? 32)
  | [a; b; c] => (a =? 239) && (b =? 191) && (190 <=? c)
  | _ => false
  end.

Definition escapeRune (r : bytes) : bytes :=
  if decide (r = [dq]) then str "&#34;"
  else if decide (r = [squote]) then str "&#39;"
  else if decide (r = str "&") then str "&amp;"
  else if decide (r = str "<") then str "&lt;"
  else if decide (r = str ">") then str "&gt;"
  else if decide (r = [tab]) then str "&#x9;"
  else if decide (r = [nl]) then str "&#xA;"
  else if decide (r = [cr]) then str "&#xD;"
  else if outOfRange r then replacement
  else r.

Fixpoint runesOf (fuel : nat) (s : bytes) : list bytes :=
  match fuel, s with
  | S fuel', _ :: _ => take (rune_width s) s :: runesOf fuel' (drop (rune_width s) s)
  | _, _ => []
  end.

Definition xmlEscape (s : bytes) : bytes := concat (map escapeRune (runesOf (length s) s)).

Definition launchdLine (c : InstallConfig) : bytes :=
  let guard := shQuote DarwinGuardPath in
  str "[ -x " ++ guard ++ str " ] && " ++ guard ++ str " check " ++ shQuote (ic_BinaryPath c) ++
  str "; exec " ++ JoinStr (str " ") (map shQuote (ic_BinaryPath c :: ic_Args c)).

Definition launchdProgramArguments (c : InstallConfig) : list bytes :=
  [str "/bin/sh"; str "-c"; launchdLine c].

Definition stringElement (pad : bytes) (s : bytes) : bytes := pad ++ str "<string>" ++ xmlEscape s ++ str "</string>".

Definition plistLines (c : InstallConfig) : list bytes :=
  [ qstr "<?xml version=`1.0` encoding=`UTF-8`?>";
    qstr "<!DOCTYPE plist PUBLIC `-//Apple//DTD PLIST 1.0//EN` `http://www.apple.com/DTDs/PropertyList-1.0.dtd`>";
    qstr "<plist version=`1.0`>";
    str "<dict>";
    str "  <key>Label</key>"; stringElement (str "  ") LaunchdLabel;
    str "  <key>ProgramArguments</key>"; str "  <array>" ] ++
  map (stringElement (str "    ")) (launchdProgramArguments c) ++
  [ str "  </array>";
    str "  <key>RunAtLoad</key>"; str "  <true/>";
    str "  <key>KeepAlive</key>"; str "  <true/>";
    str "  <key>ThrottleInterval</key>"; str "  <integer>5</integer>";
    str "  <key>ProcessType</key>"; str "  <string>Background</string>";
    str "  <key>StandardOutPath</key>"; stringElement (str "  ") (MacLogDir ++ str "/agent.log");
    str "  <key>StandardErrorPath</key>"; stringElement (str "  ") (MacLogDir ++ str "/agent.err.log") ] ++
  (if bool_decide (ic_StateDir c = []) then []
   else [ str "  <key>EnvironmentVariables</key>"; str "  <dict>";
          str "    <key>" ++ StateDirEnv ++ str "</key>"; stringElement (str "    ") (ic_StateDir c);
          str "  </dict>" ]) ++
  [ str "</dict>"; str "</plist>" ].

Definition RenderLaunchdPlist (env : bytes -> bytes) (c : InstallConfig) : bytes :=
  unlines (plistLines (normalized env c)).

(** ** supplicant *)

Record Profile := {
  pf_Identity : bytes;
  pf_CertDir : bytes;
  pf_SSID : bytes;
  pf_ClientIssuerThumbprint : bytes;
}.

Definition Wired (p : Profile) : bool := bool_decide (pf_SSID p = []).

Definition ErrInvalidProfile : error := Sentinel "supplicant: invalid profile".

Definition breaksConfig (v : bytes) : bool := ContainsAny v [dq; nl; cr].

Definition validate (p : Profile) : option error :=
  if bool_decide (TrimSpace (pf_Identity p) = []) then Some (Errorf "identity is empty" ErrInvalidProfile)
  else if bool_decide (TrimSpace (pf_CertDir p) = []) then Some (Errorf "no certificate directory" ErrInvalidProfile)
  else if breaksConfig (pf_Identity p) || breaksConfig (pf_CertDir p) || breaksConfig (pf_SSID p)
  then Some (Errorf "contains a quote or newline" ErrInvalidProfile)
  else None.

(** [fmt]'s [%q]: [wide] is what it writes for a rune outside ASCII. *)
Section render.
Context (wide : bytes -> bytes).

Definition hexByte (c : ascii) : bytes := [bslash; "x"%char; hex_digit (code c / 16); hex_digit (code c mod 16)].

Definition quoteRune (r : bytes) : bytes :=
  match r with
  | [c] =>
      if decide (c = dq) then [bslash; dq]
      else if decide (c = bslash) then [bslash; bslash]
      else if (32 <=? code c) && (code c <=? 126) then [c]
      else if decide (c = chr 7) then [bslash; "a"%char]
      else if decide (c = chr 8) then [bslash; "b"%char]
      else if decide (c = chr 12) then [bslash; "f"%char]
      else if decide (c = nl) then [bslash; "n"%char]
      else if decide (c = cr) then [bslash; "r"%char]
      else if decide (c = tab) then [bslash; "t"%char]
      else if decide (c = chr 11) then [bslash; "v"%char]
      else hexByte c
  | _ => wide r
  end.

Definition Quote (s : bytes) : bytes := [dq] ++ concat (map quoteRune (runesOf (length s) s)) ++ [dq].

Definition field (key v : bytes) : bytes := [tab] ++ key ++ str "=" ++ Quote v.

Definition wpaLines (p : Profile) : list bytes :=
  [ str "# Generated by the Everwas agent. Do not edit: it is rewritten";
    str "# whenever the device's certificate is renewed.";
    str "#";
    str "# The private key is NOT in this file. It is referenced by path and";
    str "# stays owner-only where the agent wrote it.";
    [];
    str "ctrl_interface=/run/wpa_supplicant";
    str "eapol_version=2" ] ++
  (if Wired p then [str "ap_scan=0"] else []) ++
  [ str "fast_reauth=1"; []; str "network={" ] ++
  (if negb (Wired p) then [field (str "ssid") (pf_SSID p); [tab] ++ str "key_mgmt=WPA-EAP"]
   else [[tab] ++ str "key_mgmt=IEEE8021X"]) ++
  [ [tab] ++ str "eap=TLS";
    field (str "identity") (pf_Identity p);
    field (str "ca_cert") (Join (pf_CertDir p) (str "network-chain.pem"));
    field (str "client_cert") (Join (pf_CertDir p) (str "network.crt"));
    field (str "private_key") (Join (pf_CertDir p) (str "network.key"));
    str "}" ].

Definition Render (p : Profile) : res error bytes :=
  match validate p with Some e => Err e | None => Ok (unlines (wpaLines p)) end.

(** *** Windows *)

Record WindowsProfile := {
  wp_Name : bytes;
  wp_ServerCAThumbprints : list bytes;
  wp_ServerNames : bytes;
  wp_ClientIssuerThumbprints : list bytes;
}.

Fixpoint thumbprintDigits (s : bytes) : option bytes :=
  match s with
  | [] => Some []
  | r :: s' =>
      if bool_decide (r ∈ str " :-") then thumbprintDigits s'
      else if is_digit r || between "a" "f" r then option_map (cons r) (thumbprintDigits s')
      else if between "A" "F" r then option_map (cons (chr (code r + 32))) (thumbprintDigits s')
      else None
  end.

(** The empty string is the refusal. *)
Definition normaliseThumbprint (s : bytes) : bytes :=
  match thumbprintDigits s with
  | Some out => if (length out =? 40)%nat then out else []
  | None => []
  end.

(** One element per thumbprint, or the error of the first that is not one. *)
Fixpoint thumbprintElements (pre post : bytes) (tps : list bytes) : res error (list bytes) :=
  match tps with
  | [] => Ok []
  | tp :: tps' =>
      let clean := normaliseThumbprint tp in
      if bool_decide (clean = []) then Err (Errorf "is not a SHA-1 thumbprint" ErrInvalidProfile)
      else match thumbprintElements pre post tps' with
           | Err e => Err e
           | Ok ls => Ok ((pre ++ clean ++ post) :: ls)
           end
  end.

Definition lanHead : list bytes :=
  [ qstr "<?xml version=`1.0` encoding=`UTF-8`?>";
    qstr "<LANProfile xmlns=`http://www.microsoft.com/networking/LAN/profile/v1`>";
    indent 1 (str "<MSM>"); indent 2 (str "<security>");
    indent 3 (str "<OneXEnforced>false</OneXEnforced>");
    indent 3 (str "<OneXEnabled>true</OneXEnabled>");
    indent 3 (qstr "<OneX xmlns=`http://www.microsoft.com/networking/OneX/v1`>");
    indent 4 (str "<authMode>machine</authMode>");
    indent 4 (str "<EAPConfig>");
    indent 5 (qstr "<EapHostConfig xmlns=`http://www.microsoft.com/provisioning/EapHostConfig`>");
    indent 6 (str "<EapMethod>");
    indent 7 (qstr "<Type xmlns=`http://www.microsoft.com/provisioning/EapCommon`>13</Type>");
    indent 7 (qstr "<VendorId xmlns=`http://www.microsoft.com/provisioning/EapCommon`>0</VendorId>");
    indent 7 (qstr "<VendorType xmlns=`http://www.microsoft.com/provisioning/EapCommon`>0</VendorType>");
    indent 7 (qstr "<AuthorId xmlns=`http://www.microsoft.com/provisioning/EapCommon`>0</AuthorId>");
    indent 6 (str "</EapMethod>");
    indent 6 (qstr "<Config xmlns=`http://www.microsoft.com/provisioning/EapHostConfig`>");
    indent 7 (qstr "<Eap xmlns=`http://www.microsoft.com/provisioning/BaseEapConnectionPropertiesV1`>");
    indent 8 (str "<Type>13</Type>");
    indent 8 (qstr "<EapType xmlns=`http://www.microsoft.com/provisioning/EapTlsConnectionPropertiesV1`>");
    indent 9 (str "<CredentialsSource>");
    indent 10 (str "<CertificateStore>") ].

Definition simpleSelection (pinned : bool) : bytes :=
  indent 11 (str "<SimpleCertSelection>" ++ FormatBool (negb pinned) ++ str "</SimpleCertSelection>").

Definition lanTail : list bytes :=
  [ indent 8 (str "</EapType>"); indent 7 (str "</Eap>"); indent 6 (str "</Config>");
    indent 5 (str "</EapHostConfig>"); indent 4 (str "</EAPConfig>"); indent 3 (str "</OneX>");
    indent 2 (str "</security>"); indent 1 (str "</MSM>"); str "</LANProfile>" ].

Definition issuerHash (clean : bytes) : bytes :=
  indent 12 (str "<IssuerHash>") ++ clean ++ str "</IssuerHash>".

Definition windowsLines (p : WindowsProfile) : res error (list bytes) :=
  if bool_decide (TrimSpace (wp_Name p) = []) then Err (Errorf "the profile needs a name" ErrInvalidProfile)
  else
    let pinned := negb (bool_decide (wp_ClientIssuerThumbprints p = [])) in
    match thumbprintElements (indent 10 (str "<TrustedRootCA>")) (str "</TrustedRootCA>") (wp_ServerCAThumbprints p) with
    | Err e => Err e
    | Ok roots =>
        match thumbprintElements (indent 12 (str "<IssuerHash>")) (str "</IssuerHash>") (wp_ClientIssuerThumbprints p) with
        | Err e => Err e
        | Ok issuers =>
            Ok (lanHead ++
                [ simpleSelection pinned;
                  indent 10 (str "</CertificateStore>"); indent 9 (str "</CredentialsSource>");
                  indent 9 (str "<ServerValidation>");
                  indent 10 (str "<DisableUserPromptForServerValidation>true</DisableUserPromptForServerValidation>");
                  indent 10 (str "<ServerNames>") ++ xmlEscape (wp_ServerNames p) ++ str "</ServerNames>" ] ++
                roots ++
                [ indent 9 (str "</ServerValidation>"); indent 9 (str "<DifferentUsername>false</DifferentUsername>") ] ++
                (if pinned then
                   [ indent 9 (qstr "<TLSExtensions xmlns=`http://www.microsoft.com/provisioning/EapTlsConnectionPropertiesV2`>");
                     indent 10 (qstr "<FilteringInfo xmlns=`http://www.microsoft.com/provisioning/EapTlsConnectionPropertiesV3`>");
                     indent 11 (qstr "<CAHashList Enabled=`true`>") ] ++
                   issuers ++
                   [ indent 11 (str "</CAHashList>"); indent 10 (str "</FilteringInfo>"); indent 9 (str "</TLSExtensions>") ]
                 else []) ++ lanTail)
        end
    end.

Definition RenderWindows (p : WindowsProfile) : res error bytes :=
  match windowsLines p with Err e => Err e | Ok ls => Ok (unlines ls) end.

(** *** Write *)

Definition FileName : bytes := str "wpa_supplicant-everwas.conf".
Definition WindowsFileName : bytes := str "everwas-8021x.xml".
Definition WindowsProfileName : bytes := str "Everwas 802.1X".

Definition renderFor (goos : bytes) (p : Profile) : res error (bytes * bytes) :=
  if negb (bool_decide (goos = str "windows")) then
    match Render p with Err e => Err e | Ok content => Ok (FileName, content) end
  else match validate p with
       | Some e => Err e
       | None =>
           if negb (Wired p) then Err (Errorf "wireless 802.1X on Windows needs a WLAN profile" ErrInvalidProfile)
           else if bool_decide (TrimSpace (pf_ClientIssuerThumbprint p) = [])
           then Err (Errorf "no issuer thumbprint to pin the client certificate with" ErrInvalidProfile)
           else match RenderWindows {| wp_Name := WindowsProfileName; wp_ServerCAThumbprints := []; wp_ServerNames := [];
                                       wp_ClientIssuerThumbprints := [pf_ClientIssuerThumbprint p] |} with
                | Err e => Err e
                | Ok content => Ok (WindowsFileName, content)
                end
       end.
End render.

(** ** The readers *)

(** A POSIX shell's words: single quotes take everything literally, a
    backslash outside them the next character.  [None]: an open quote, or an
    unquoted character other than a blank. *)
Fixpoint shRead (word : option bytes) (quoted : bool) (s : bytes) : option (list bytes) :=
  match s with
  | [] => if quoted then None else Some (match word with Some w => [rev w] | None => [] end)
  | c :: s' =>
      if quoted then
        if decide (c = squote) then shRead word false s' else shRead (Some (c :: default [] word)) true s'
      else if decide (c = squote) then shRead (Some (default [] word)) true s'
      else if decide (c = " "%char) then
        match word with
        | Some w => option_map (cons (rev w)) (shRead None false s')
        | None => shRead None false s'
        end
      else if decide (c = bslash) then
        match s' with d :: s'' => shRead (Some (d :: default [] word)) false s'' | [] => None end
      else None
  end.
Definition shWords (s : bytes) : option (list bytes) := shRead None false s.

(** An XML text: the references [xml.EscapeText] writes, everything else as it
    stands. *)
Definition xmlEntities : list (bytes * ascii) :=
  [(str "#34;", dq); (str "#39;", squote); (str "amp;", "&"%char); (str "lt;", "<"%char); (str "gt;", ">"%char);
   (str "#x9;", tab); (str "#xA;", nl); (str "#xD;", cr)].

Fixpoint xmlEntity (es : list (bytes * ascii)) (s : bytes) : option (ascii * bytes) :=
  match es with
  | [] => None
  | (e, c) :: es' => match strip_prefix e s with Some r => Some (c, r) | None => xmlEntity es' s end
  end.

Fixpoint xmlRead (fuel : nat) (s : bytes) : option bytes :=
  match fuel, s with
  | _, [] => Some []
  | S fuel', c :: s' =>
      if decide (c = "&"%char) then
        match xmlEntity xmlEntities s' with
        | Some (d, r) => option_map (cons d) (xmlRead fuel' r)
        | None => None
        end
      else option_map (cons c) (xmlRead fuel' s')
  | O, _ :: _ => None
  end.
Definition xmlUnescape (s : bytes) : option bytes := xmlRead (length s) s.

(** The value of the first line that starts with [key]. *)
Definition directive (key text : bytes) : option bytes := head (omap (fun l => CutPrefix l key) (Split nl text)).

(** wpa_supplicant's quoted value: what is between the first and the last
    quote, with no escapes. *)
Definition wpaField (key text : bytes) : option bytes :=
  match directive ([tab] ++ key ++ str "=" ++ [dq]) text with Some v => CutSuffix v [dq] | None => None end.

(** The lines after the first [start] and before the next [stop]. *)
Fixpoint upTo (stop : bytes) (ls : list bytes) : list bytes :=
  match ls with [] => [] | l :: ls' => if decide (l = stop) then [] else l :: upTo stop ls' end.
Fixpoint after (start : bytes) (ls : list bytes) : list bytes :=
  match ls with [] => [] | l :: ls' => if decide (l = start) then ls' else after start ls' end.

(** The arguments of a property list: the string elements of its array. *)
Definition elementText (l : bytes) : option bytes :=
  match CutPrefix l (str "    " ++ str "<string>") with
  | Some r => match CutSuffix r (str "</string>") with Some v => xmlUnescape v | None => None end
  | None => None
  end.

Definition plistArgs (text : bytes) : list (option bytes) :=
  map elementText
    (upTo (str "  </array>") (after (str "  <array>") (Split nl text))).

(** ** Lemmas *)

Definition blankOrEnd (s : bytes) : Prop := s = [] \/ exists r, s = " "%char :: r.

Lemma JoinStr_no_nl sep ls : nl ∉ sep -> Forall (fun l => nl ∉ l) ls -> nl ∉ JoinStr sep ls.
Proof.
  intros Hs. induction 1 as [|l ls Hl Hls IH]; [set_solver|]. destruct ls as [|m ls]; [done|].
  change (JoinStr sep (l :: m :: ls)) with (l ++ sep ++ JoinStr sep (m :: ls)). by rewrite !not_elem_of_app.
Qed.

(** Discharge [nl ∉ l] for a literal line. *)
Ltac one_line := apply (bool_decide_eq_true_1 (nl ∉ _)); vm_compute; reflexivity.

(** An installation. *)
Definition demoInstall : InstallConfig :=
  {| ic_BinaryPath := str "/opt/100% mine/agent"; ic_Args := []; ic_StateDir := []; ic_Prefix := [] |}.

(** *** The shell *)

Definition shEscape (c : ascii) : bytes := if decide (c = squote) then [squote; bslash; squote; squote] else [c].

Lemma shRead_quoted w acc rest :
  shRead (Some acc) true (concat (map shEscape w) ++ rest) = shRead (Some (rev w ++ acc)) true rest.
Proof.
  revert acc. induction w as [|c w IH]; intros acc; [done|]. cbn [map concat rev]. rewrite <- !app_assoc, <- IH.
  unfold shEscape at 1. destruct (decide (c = squote)) as [->|Hc]; [done|]. cbn [app shRead]. by rewrite decide_False.
Qed.

Lemma shRead_shQuote w rest k :
  blankOrEnd rest -> shRead None false rest = Some k -> shRead None false (shQuote w ++ rest) = Some (w :: k).
Proof.
  intros Hrest Hk. unfold shQuote. fold shEscape. rewrite <- !app_assoc. cbn [app shRead default]. rewrite decide_True by done.
  rewrite shRead_quoted, app_nil_r. cbn [shRead]. rewrite decide_True by done.
  destruct Hrest as [->|[r ->]]; cbn [shRead].
  - cbn in Hk. injection Hk as <-. by rewrite rev_involutive.
  - change (shRead None false r = Some k) in Hk. rewrite decide_False, decide_True by done. by rewrite Hk, rev_involutive.
Qed.

Lemma shWords_join ws : shWords (JoinStr (str " ") (map shQuote ws)) = Some ws.
Proof.
  unfold shWords. induction ws as [|w [|v ws] IH]; [done|..].
  - cbn [map JoinStr]. rewrite <- (app_nil_r (shQuote w)). apply shRead_shQuote; [by left|done].
  - change (JoinStr (str " ") (map shQuote (w :: v :: ws)))
      with (shQuote w ++ str " " ++ JoinStr (str " ") (map shQuote (v :: ws))).
    apply shRead_shQuote; [right; by eexists|]. exact IH.
Qed.

(** *** XML *)

(** The characters no escaped text holds, so that a value can neither open an
    element nor leave its line. *)
Definition markup : bytes := [dq; squote; "<"%char; ">"%char; nl; cr; tab].

Lemma rune_width_cases s :
  s ≠ [] -> rune_width s = 1%nat \/ Forall (fun c => 128 <= code c) (take (rune_width s) s).
Proof.
  destruct s as [|a s]; [done|]. intros _. unfold rune_width. cbn [map].
  destruct ((194 <=? code a) && (code a <=? 223)) eqn:E1; [|destruct ((224 <=? code a) && (code a <=? 239)) eqn:E2;
    [|destruct ((240 <=? code a) && (code a <=? 244)) eqn:E3; [|by left]]];
    destruct s as [|b [|c [|d s]]]; cbn [map]; try (by left);
    (case_match; [|by left]); right; cbn [take];
    repeat match goal with H : _ && _ = true |- _ => apply andb_true_iff in H as [? ?] end;
    rewrite ?Z.leb_le in *; repeat constructor; repeat case_match; lia.
Qed.

Lemma rune_width_pos s : s ≠ [] -> (1 <= rune_width s)%nat.
Proof.
  destruct s as [|a s]; [done|]. intros _. unfold rune_width. cbn [map]. repeat case_match; lia.
Qed.

(** A rune is one byte, or bytes that are not ASCII. *)
Definition runeLike (r : bytes) : Prop := (exists c, r = [c]) \/ Forall (fun c => 128 <= code c) r.

Lemma runesOf_spec fuel s :
  (length s <= fuel)%nat -> concat (runesOf fuel s) = s /\ Forall runeLike (runesOf fuel s).
Proof.
  revert s. induction fuel as [|fuel IH]; intros [|c s] Hf; cbn [runesOf]; [done|cbn in Hf; lia|done|].
  assert (Hp : (1 <= rune_width (c :: s))%nat) by by apply rune_width_pos.
  destruct (IH (drop (rune_width (c :: s)) (c :: s))) as [Hc Hr].
  { rewrite length_drop. lia. }
  cbn [concat]. rewrite Hc, take_drop. split; [done|]. constructor; [|done].
  destruct (rune_width_cases (c :: s)) as [->|Hw]; [done|left; by exists c|by right].
Qed.

(** A decidable fact about every byte, by trying them all. *)
Lemma every_byte (P : ascii -> bool) : forallb (fun n => P (ascii_of_nat n)) (seq 0 256) = true -> forall c, P c = true.
Proof.
  intros H c. rewrite forallb_forall in H. rewrite <- (ascii_nat_embedding c). apply H, in_seq.
  pose proof (nat_ascii_bounded c). lia.
Qed.

Lemma escapeRune_char d : Forall (fun c => c ∉ escapeRune [d]) markup.
Proof. apply (bool_decide_eq_true_1 _). revert d. apply every_byte. vm_compute. reflexivity. Qed.

Lemma escapeRune_wide r : Forall (fun c => 128 <= code c) r -> escapeRune r = r \/ escapeRune r = replacement.
Proof.
  intros Hw. unfold escapeRune.
  repeat (case_decide; [exfalso; subst r; apply Forall_inv in Hw; by apply Hw|]).
  destruct (outOfRange r); [by right|by left].
Qed.

Lemma escapeRune_markup r c : runeLike r -> c ∈ markup -> c ∉ escapeRune r.
Proof.
  intros [[d ->]|Hw] Hc.
  { pose proof (escapeRune_char d) as Hd. rewrite Forall_forall in Hd. by apply Hd. }
  assert (Hm : Forall (fun c => code c < 128) markup) by (repeat constructor; by vm_compute).
  assert (Hrep : Forall (fun c => 128 <= code c) replacement) by (repeat constructor; by vm_compute).
  rewrite Forall_forall in *. specialize (Hm c Hc). intros Hin.
  destruct (escapeRune_wide r) as [E|E]; [by apply Forall_forall| |]; rewrite E in Hin;
    [specialize (Hw c Hin)|specialize (Hrep c Hin)]; lia.
Qed.

Lemma xmlEscape_no_markup s c : c ∈ markup -> c ∉ xmlEscape s.
Proof.
  intros Hc. unfold xmlEscape. destruct (runesOf_spec (length s) s) as [_ Hr]; [done|].
  induction Hr as [|r rs Hr _ IH]; [set_solver|]. cbn [map concat]. rewrite not_elem_of_app.
  split; [by apply escapeRune_markup|done].
Qed.

(** The runes XML can carry. *)
Definition xmlSafe (s : bytes) : bool :=
  forallb (fun r => negb (outOfRange r) || bool_decide (r ∈ [[tab]; [nl]; [cr]])) (runesOf (length s) s).

Lemma xmlRead_copy p fuel rest :
  Forall (fun c => c ≠ "&"%char) p -> (length p <= fuel)%nat ->
  xmlRead fuel (p ++ rest) = option_map (app p) (xmlRead (fuel - length p) rest).
Proof.
  intros Hp. revert fuel. induction Hp as [|c p Hc _ IH]; intros fuel Hf.
  { cbn [app length]. rewrite Nat.sub_0_r. by destruct (xmlRead fuel rest). }
  destruct fuel as [|fuel]; [cbn in Hf; lia|]. cbn [app xmlRead length]. rewrite decide_False by done.
  rewrite IH by (cbn in Hf; lia). rewrite Nat.sub_succ. by destruct (xmlRead _ rest).
Qed.

Lemma xmlRead_entity e c fuel rest :
  xmlEntity xmlEntities (e ++ rest) = Some (c, rest) ->
  xmlRead (S fuel) (("&"%char :: e) ++ rest) = option_map (cons c) (xmlRead fuel rest).
Proof. intros He. cbn [app xmlRead]. rewrite decide_True by done. by rewrite He. Qed.

Lemma xmlRead_rune r fuel rest v :
  runeLike r -> negb (outOfRange r) || bool_decide (r ∈ [[tab]; [nl]; [cr]]) = true ->
  (length (escapeRune r ++ rest) <= fuel)%nat ->
  (forall fuel, (length rest <= fuel)%nat -> xmlRead fuel rest = Some v) ->
  xmlRead fuel (escapeRune r ++ rest) = Some (r ++ v).
Proof.
  intros Hr Hok Hf Hrest. unfold escapeRune in *. rewrite length_app in Hf.
  repeat (case_decide; [subst r; (destruct fuel as [|fuel]; [cbn in Hf; lia|]);
    (etransitivity; [eapply xmlRead_entity; reflexivity|]); rewrite Hrest by (cbn in Hf; lia); done|]).
  destruct (outOfRange r) eqn:E.
  { cbn [negb orb] in Hok. apply bool_decide_eq_true in Hok.
    rewrite !elem_of_cons, elem_of_nil in Hok. destruct Hok as [|[|[|[]]]]; congruence. }
  assert (Hamp : Forall (fun c => c ≠ "&"%char) r).
  { destruct Hr as [[c ->]|Hw]; [repeat constructor; by intros ->|].
    apply (Forall_impl _ _ _ Hw). intros c Hc ->. by apply Hc. }
  rewrite xmlRead_copy by (done || lia). by rewrite Hrest by lia.
Qed.

(** Escaping loses nothing of a text XML can carry. *)
Lemma xmlUnescape_xmlEscape s : xmlSafe s = true -> xmlUnescape (xmlEscape s) = Some s.
Proof.
  intros Hs. destruct (runesOf_spec (length s) s) as [Hc Hr]; [done|]. rewrite <- Hc at 2.
  unfold xmlUnescape, xmlEscape. unfold xmlSafe in Hs. rewrite forallb_forall in Hs.
  assert (Hgen : forall rs, Forall runeLike rs -> (forall r, In r rs -> negb (outOfRange r) || bool_decide (r ∈ [[tab]; [nl]; [cr]]) = true) ->
    forall fuel, (length (concat (map escapeRune rs)) <= fuel)%nat ->
    xmlRead fuel (concat (map escapeRune rs)) = Some (concat rs)).
  { clear. induction 1 as [|r rs Hr Hrs IH]; intros Hok fuel Hf; [by destruct fuel|]. cbn [map concat] in *.
    apply xmlRead_rune; [done|apply Hok; by left|done|]. apply IH. intros r' Hin. apply Hok. by right. }
  by apply Hgen.
Qed.

(** *** launchd *)

Lemma stringElement_one_line pad s : nl ∉ pad -> nl ∉ stringElement pad s.
Proof.
  intros Hp. unfold stringElement. rewrite !not_elem_of_app. split_and!; [done|one_line| |one_line].
  apply xmlEscape_no_markup. unfold markup. set_solver.
Qed.

Lemma plistLines_one_line c : Forall (fun l => nl ∉ l) (plistLines c).
Proof.
  unfold plistLines. rewrite !Forall_app. split_and!.
  - repeat (apply Forall_cons; split; [first [apply stringElement_one_line; one_line | one_line]|]); constructor.
  - apply Forall_map, Forall_true. intros s. apply stringElement_one_line. one_line.
  - repeat (apply Forall_cons; split; [first [apply stringElement_one_line; one_line | one_line]|]); constructor.
  - case_bool_decide; [constructor|].
    repeat (apply Forall_cons; split; [first [apply stringElement_one_line; one_line | one_line]|]); constructor.
  - repeat (apply Forall_cons; split; [one_line|]); constructor.
Qed.

Lemma upTo_app ls rest stop : Forall (fun l => l ≠ stop) ls -> upTo stop (ls ++ stop :: rest) = ls.
Proof.
  induction 1 as [|l ls Hl _ IH]; cbn; [by rewrite decide_True|]. rewrite decide_False by done. by rewrite IH.
Qed.

Lemma stringElement_read s : xmlSafe s = true -> elementText (stringElement (str "    ") s) = Some s.
Proof.
  intros Hs. unfold elementText, stringElement, CutPrefix.
  rewrite (proj2 (strip_prefix_Some (str "    " ++ str "<string>") _ (xmlEscape s ++ str "</string>"))) by by rewrite <- !app_assoc.
  unfold CutSuffix. rewrite rev_app_distr.
  rewrite (proj2 (strip_prefix_Some (rev (str "</string>")) _ (rev (xmlEscape s)))) by done.
  rewrite rev_involutive. by apply xmlUnescape_xmlEscape.
Qed.

(** The property list starts the agent with its own arguments, through both
    quotings.  Read back as XML, launchd runs a shell on one line; read by the
    shell, that line ends by replacing itself with the agent and exactly its
    arguments, whatever quotes, blanks and markup they hold. *)
Theorem plist_starts_the_agent (env : bytes -> bytes) (c : InstallConfig) :
  let c' := normalized env c in
  xmlSafe (launchdLine c') = true ->
  plistArgs (RenderLaunchdPlist env c) = [Some (str "/bin/sh"); Some (str "-c"); Some (launchdLine c')] /\
  exists check words, launchdLine c' = check ++ str "; exec " ++ words /\
    shWords words = Some (ic_BinaryPath c' :: ic_Args c').
Proof.
  intros c' Hs. split.
  - unfold plistArgs, RenderLaunchdPlist. fold c'. rewrite Split_unlines by apply plistLines_one_line.
    set (args := launchdProgramArguments c').
    assert (Hup : exists rest, after (str "  <array>") (plistLines c' ++ [[]]) =
      map (stringElement (str "    ")) args ++ str "  </array>" :: rest).
    { unfold plistLines. fold args. rewrite <- !app_assoc. eexists. reflexivity. }
    destruct Hup as [rest ->]. rewrite upTo_app.
    + unfold args, launchdProgramArguments. cbn [map].
      rewrite (stringElement_read (launchdLine c')) by exact Hs.
      by rewrite !stringElement_read by (vm_compute; reflexivity).
    + apply Forall_map, Forall_true. intros s. unfold stringElement. cbn. discriminate.
  - exists (str "[ -x " ++ shQuote DarwinGuardPath ++ str " ] && " ++ shQuote DarwinGuardPath ++ str " check " ++
            shQuote (ic_BinaryPath c')), (JoinStr (str " ") (map shQuote (ic_BinaryPath c' :: ic_Args c'))).
    split; [|apply shWords_join]. unfold launchdLine. rewrite <- !app_assoc. reflexivity.
Qed.

Lemma plist_starts_the_agent_witness :
  plistArgs (RenderLaunchdPlist (fun _ => [])
    {| ic_BinaryPath := str "/o'neil & co/agent"; ic_Args := [str "run"]; ic_StateDir := []; ic_Prefix := [] |}) =
  [Some (str "/bin/sh"); Some (str "-c");
   Some (launchdLine {| ic_BinaryPath := str "/o'neil & co/agent"; ic_Args := [str "run"]; ic_StateDir := []; ic_Prefix := [] |})].
Proof.
  apply (plist_starts_the_agent (fun _ => [])
    {| ic_BinaryPath := str "/o'neil & co/agent"; ic_Args := [str "run"]; ic_StateDir := []; ic_Prefix := [] |}).
  vm_compute. reflexivity.
Defined.

(** *** wpa_supplicant *)

Section wpa.
Context (wide : bytes -> bytes).
Hypothesis wide_one_line : forall r, nl ∉ wide r.

Lemma quoteRune_one_line r : nl ∉ quoteRune wide r.
Proof.
  destruct r as [|c [|d r]]; [apply wide_one_line| |apply wide_one_line].
  apply (bool_decide_eq_true_1 (nl ∉ _)). revert c. apply (every_byte (fun c => bool_decide (nl ∉ quoteRune wide [c]))).
  vm_compute. reflexivity.
Qed.

Lemma Quote_one_line v : nl ∉ Quote wide v.
Proof.
  unfold Quote. rewrite !not_elem_of_app. split_and!; [one_line| |one_line].
  induction (runesOf (length v) v) as [|r rs IH]; [set_solver|]. cbn [map concat]. rewrite not_elem_of_app.
  split; [apply quoteRune_one_line|done].
Qed.

Lemma field_one_line key v : nl ∉ key -> nl ∉ field wide key v.
Proof. intros Hk. unfold field. rewrite !not_elem_of_app. split_and!; [one_line|done|one_line|apply Quote_one_line]. Qed.

(** Every line of the file is one of the directives [Render] writes, whatever
    the values hold. *)
Lemma wpaLines_one_line p : Forall (fun l => nl ∉ l) (wpaLines wide p).
Proof.
  unfold wpaLines. rewrite !Forall_app.
  split_and!; [|destruct (Wired p)| |destruct (Wired p); cbn [negb]|];
    repeat (apply Forall_cons; split; [first [apply field_one_line; one_line | one_line]|]); constructor.
Qed.

Definition plainText (v : bytes) : Prop :=
  Forall (fun c => (32 <=? code c) && (code c <=? 126) = true /\ c ≠ dq /\ c ≠ bslash) v.

Lemma runesOf_ascii s : Forall (fun c => code c < 128) s -> runesOf (length s) s = map (fun c => [c]) s.
Proof.
  induction 1 as [|c s Hc _ IH]; [done|]. cbn [length runesOf map].
  assert (Hw : rune_width (c :: s) = 1%nat).
  { unfold rune_width. cbn [map]. destruct (Z.leb_spec 194 (code c)), (Z.leb_spec 224 (code c)), (Z.leb_spec 240 (code c)); done || lia. }
  rewrite Hw. change (drop 1 (c :: s)) with s. by rewrite IH.
Qed.

Lemma Quote_plain v : plainText v -> Quote wide v = [dq] ++ v ++ [dq].
Proof.
  intros Hv. unfold Quote. rewrite runesOf_ascii.
  - do 2 f_equal. induction Hv as [|c v (Hp & Hq & Hb) _ IH]; [done|]. cbn [map concat quoteRune].
    rewrite !decide_False, Hp by done. by rewrite IH.
  - apply (Forall_impl _ _ _ Hv). intros c (Hp & _). apply andb_true_iff in Hp. rewrite !Z.leb_le in Hp. lia.
Qed.

Lemma CutSuffix_dq v : CutSuffix (v ++ [dq]) [dq] = Some v.
Proof.
  unfold CutSuffix. rewrite rev_app_distr.
  rewrite (proj2 (strip_prefix_Some (rev [dq]) _ (rev v))) by done. by rewrite rev_involutive.
Qed.

(** Looking for the first line with a value. *)
Lemma head_omap_skip {A B} (f : A -> option B) l ls : f l = None -> head (omap f (l :: ls)) = head (omap f ls).
Proof. intros Hl. cbn. by rewrite Hl. Qed.
Lemma head_omap_hit {A B} (f : A -> option B) l ls v : f l = Some v -> head (omap f (l :: ls)) = Some v.
Proof. intros Hl. cbn. by rewrite Hl. Qed.
Ltac seek_line :=
  repeat (rewrite head_omap_skip by reflexivity); first [erewrite head_omap_hit by reflexivity | idtac].

Lemma plainText_app a b : plainText a -> plainText b -> plainText (a ++ b).
Proof. intros Ha Hb. apply Forall_app. by split. Qed.

Lemma plainText_Join dir name : plainText dir -> plainText name -> plainText (Join dir name).
Proof.
  intros Hd Hn. unfold Join. destruct dir as [|c dir]; [done|]. repeat apply plainText_app; [done| |done].
  repeat constructor; discriminate.
Qed.

(** The 802.1X profile points at this machine's certificate and at nothing
    else.  For every accepted profile the file has exactly the lines [Render]
    writes, so no value can add a directive or a network; and for values of
    printable characters without quotes and backslashes, wpa_supplicant reads
    back the identity, the network name and the three paths exactly. *)
Theorem supplicant_profile_reads_back (p : Profile) (text : bytes) :
  Render wide p = Ok text ->
  Split nl text = wpaLines wide p ++ [[]] /\
  (plainText (pf_Identity p) -> plainText (pf_CertDir p) -> plainText (pf_SSID p) ->
   wpaField (str "identity") text = Some (pf_Identity p) /\
   wpaField (str "private_key") text = Some (Join (pf_CertDir p) (str "network.key")) /\
   wpaField (str "client_cert") text = Some (Join (pf_CertDir p) (str "network.crt")) /\
   wpaField (str "ca_cert") text = Some (Join (pf_CertDir p) (str "network-chain.pem")) /\
   wpaField (str "ssid") text = if Wired p then None else Some (pf_SSID p)).
Proof.
  unfold Render. destruct (validate p); [done|]. intros [= <-].
  assert (Hsplit : Split nl (unlines (wpaLines wide p)) = wpaLines wide p ++ [[]]) by apply Split_unlines, wpaLines_one_line.
  split; [done|]. intros Hi Hc Hs. unfold wpaField, directive. rewrite Hsplit. unfold wpaLines, field.
  rewrite !Quote_plain by (try apply plainText_Join; try done; repeat constructor; discriminate).
  destruct (Wired p); cbn [negb app]; split_and!; by seek_line; try apply CutSuffix_dq.
Qed.
End wpa.

Definition demoProfile : Profile :=
  {| pf_Identity := str "0192-device"; pf_CertDir := str "/etc/everwas/netcert"; pf_SSID := str "corp net";
     pf_ClientIssuerThumbprint := [] |}.

Lemma supplicant_profile_reads_back_witness :
  match Render (fun _ => []) demoProfile with
  | Ok text => wpaField (str "ssid") text = Some (str "corp net")
  | Err _ => False
  end.
Proof.
  destruct (Render (fun _ => []) demoProfile) as [text|e] eqn:E; [|by vm_compute in E].
  destruct (supplicant_profile_reads_back (fun _ => []) ltac:(intros r; apply not_elem_of_nil) demoProfile text E) as (_ & H).
  destruct H as (_ & _ & _ & _ & H); [repeat constructor; discriminate..|]. exact H.
Defined.

(** A backslash does not survive: [%q] doubles it, and wpa_supplicant's quoted
    strings have no escapes, so the identity presented is another one. *)
Lemma backslashes_are_doubled :
  match Render (fun _ => []) {| pf_Identity := str "CORP\pc1"; pf_CertDir := str "/n"; pf_SSID := []; pf_ClientIssuerThumbprint := [] |} with
  | Ok text => wpaField (str "identity") text = Some (str "CORP\\pc1")
  | Err _ => False
  end.
Proof. vm_compute. reflexivity. Qed.

(** *** Windows *)

Definition hexLower (c : ascii) : bool := is_digit c || between "a" "f" c.

Lemma upper_to_lower c : between "A" "F" c = true -> hexLower (chr (code c + 32)) = true.
Proof.
  apply (proj1 (implb_true_iff _ _)). revert c.
  apply (every_byte (fun c => implb (between "A" "F" c) (hexLower (chr (code c + 32))))). vm_compute. reflexivity.
Qed.

Lemma thumbprintDigits_hex s out : thumbprintDigits s = Some out -> Forall (fun c => hexLower c = true) out.
Proof.
  revert out. induction s as [|c s IH]; intros out; cbn [thumbprintDigits]; [by intros [= <-]|].
  destruct (bool_decide _); [apply IH|]. destruct (is_digit c || between "a" "f" c) eqn:E1.
  - destruct (thumbprintDigits s) as [o|]; [|done]. intros [= <-]. constructor; [done|by apply IH].
  - destruct (between "A" "F" c) eqn:E2; [|done]. destruct (thumbprintDigits s) as [o|]; [|done].
    intros [= <-]. constructor; [by apply upper_to_lower|by apply IH].
Qed.

Lemma normaliseThumbprint_spec s :
  normaliseThumbprint s = [] \/
  (length (normaliseThumbprint s) = 40%nat /\ Forall (fun c => hexLower c = true) (normaliseThumbprint s)).
Proof.
  unfold normaliseThumbprint. destruct (thumbprintDigits s) as [out|] eqn:E; [|by left].
  destruct (Nat.eqb_spec (length out) 40); [|by left]. right. split; [done|]. by eapply thumbprintDigits_hex.
Qed.

(** The lines that decide which certificate is presented. *)
Definition choosesFreely (l : bytes) : bool := bool_decide (l = simpleSelection false).
Definition pinsIssuer (l : bytes) : bool := HasPrefix l (indent 12 (str "<IssuerHash>")).

(** The profile [renderFor] asks for, on each side of its one variable line. *)
Definition lanBefore : list bytes :=
  lanHead ++
  [ simpleSelection true;
    indent 10 (str "</CertificateStore>"); indent 9 (str "</CredentialsSource>");
    indent 9 (str "<ServerValidation>");
    indent 10 (str "<DisableUserPromptForServerValidation>true</DisableUserPromptForServerValidation>");
    indent 10 (str "<ServerNames>") ++ str "</ServerNames>";
    indent 9 (str "</ServerValidation>"); indent 9 (str "<DifferentUsername>false</DifferentUsername>");
    indent 9 (qstr "<TLSExtensions xmlns=`http://www.microsoft.com/provisioning/EapTlsConnectionPropertiesV2`>");
    indent 10 (qstr "<FilteringInfo xmlns=`http://www.microsoft.com/provisioning/EapTlsConnectionPropertiesV3`>");
    indent 11 (qstr "<CAHashList Enabled=`true`>") ].
Definition lanAfter : list bytes :=
  [ indent 11 (str "</CAHashList>"); indent 10 (str "</FilteringInfo>"); indent 9 (str "</TLSExtensions>") ] ++ lanTail.

Lemma windowsLines_pinned thumb :
  let tp := normaliseThumbprint thumb in
  tp ≠ [] ->
  windowsLines {| wp_Name := WindowsProfileName; wp_ServerCAThumbprints := []; wp_ServerNames := [];
                  wp_ClientIssuerThumbprints := [thumb] |} = Ok (lanBefore ++ issuerHash tp :: lanAfter).
Proof.
  intros tp Htp. unfold windowsLines. cbn [wp_Name wp_ServerCAThumbprints wp_ClientIssuerThumbprints wp_ServerNames].
  destruct (bool_decide (TrimSpace WindowsProfileName = [])) eqn:E; [by vm_compute in E|]. cbn [thumbprintElements].
  fold tp. rewrite (bool_decide_eq_false_2 (tp = [])) by done. reflexivity.
Qed.

(** A Windows profile always says which certificate to present.  Whenever a
    profile is produced for Windows it is wired, it leaves no choice to Windows,
    and it pins exactly one issuer: the thumbprint it was given, as forty lower
    case hexadecimal digits. *)
Theorem windows_profile_is_pinned (wide : bytes -> bytes) (p : Profile) (name content : bytes) :
  renderFor wide (str "windows") p = Ok (name, content) ->
  let tp := normaliseThumbprint (pf_ClientIssuerThumbprint p) in
  Wired p = true /\ name = WindowsFileName /\ length tp = 40%nat /\ Forall (fun c => hexLower c = true) tp /\
  exists ls, content = unlines ls /\ filter (fun l => choosesFreely l = true) ls = [] /\
    filter (fun l => pinsIssuer l = true) ls = [issuerHash tp].
Proof.
  unfold renderFor. rewrite bool_decide_eq_true_2 by done. cbn [negb].
  destruct (validate p); [done|]. destruct (Wired p); [|done]. cbn [negb].
  destruct (bool_decide _); [done|]. unfold RenderWindows.
  destruct (normaliseThumbprint_spec (pf_ClientIssuerThumbprint p)) as [Hnil|[Hlen Hhex]].
  { unfold windowsLines. cbn [wp_Name wp_ServerCAThumbprints wp_ClientIssuerThumbprints thumbprintElements].
    rewrite Hnil. by destruct (bool_decide (TrimSpace WindowsProfileName = [])). }
  rewrite windowsLines_pinned by (intros E0; by rewrite E0 in Hlen).
  set (tp := normaliseThumbprint _) in *. intros Heq. cbv zeta.
  assert (Hc : name = WindowsFileName /\ content = unlines (lanBefore ++ issuerHash tp :: lanAfter))
    by (split; congruence). destruct Hc as [-> ->]. split_and!; [done..|]. eexists. split; [reflexivity|].
  rewrite !filter_app. split.
  - rewrite (filter_cons_False _ (issuerHash tp)) by (rewrite not_true_iff_false; reflexivity).
    rewrite <- filter_app. vm_compute. reflexivity.
  - rewrite (filter_cons_True _ (issuerHash tp)) by reflexivity.
    assert (Hb : filter (fun l => pinsIssuer l = true) lanBefore = []) by (vm_compute; reflexivity).
    assert (Ha : filter (fun l => pinsIssuer l = true) lanAfter = []) by (vm_compute; reflexivity).
    by rewrite Hb, Ha.
Qed.

Lemma windows_profile_is_pinned_witness :
  let thumb := str "A1 B2 C3 D4 E5 F6 07 18 29 3A 4B 5C 6D 7E 8F 90 A1 B2 C3 D4" in
  length (normaliseThumbprint thumb) = 40%nat.
Proof.
  intros thumb.
  destruct (renderFor (fun _ => []) (str "windows") {| pf_Identity := str "id"; pf_CertDir := str "d"; pf_SSID := [];
    pf_ClientIssuerThumbprint := thumb |}) as [[name content]|e] eqn:E.
  - destruct (windows_profile_is_pinned _ _ _ _ E) as (_ & _ & H & _). exact H.
  - vm_compute in E. discriminate E.
Defined.
