(* ===== verification/Systemd.v ===== *)
(** * Systemd: the unit, read by systemd's rules (svc/render.go)

    [RenderSystemdUnit] writes a text for another program.  This is that
    program's reader, as far as the text can reach it: lines, comments and
    continuations, sections and assignments, of which the last counts, or which
    add up for the commands, and the words of a command line with the prefixes
    of its first.  The theorem reads the unit back. *)
From S2P Require Import Prelude GoLib GoText GoOS Render.

(** ** Command lines *)

(** systemd's command lines: words separated by white space, double quotes
    around a word, backslash escapes inside them, [%%] for a percent sign and
    [$$] for a dollar sign.  [None] where systemd would not take the text
    literally: a specifier, a variable, a quote inside a word, a lone
    semicolon. *)
Inductive sdState : Type := Between | InWord (w : bytes) | InQuotes (w : bytes) | AfterQuotes (w : bytes).

Definition sdBlank (c : ascii) : bool := bool_decide (c ∈ [" "%char; tab; nl; cr]).

Definition sdEmit (w : bytes) (k : option (list bytes)) : option (list bytes) :=
  if bool_decide (rev w = str ";") then None else option_map (cons (rev w)) k.

Fixpoint sdRead (st : sdState) (s : bytes) : option (list bytes) :=
  match s with
  | [] =>
      match st with
      | Between => Some []
      | InWord w => sdEmit w (Some [])
      | AfterQuotes w => Some [rev w]
      | InQuotes _ => None
      end
  | c :: s' =>
      match st with
      | Between =>
          if sdBlank c then sdRead Between s'
          else if decide (c = dq) then sdRead (InQuotes []) s'
          else if bool_decide (c ∈ sdSpecial) then None
          else sdRead (InWord [c]) s'
      | InWord w =>
          if sdBlank c then sdEmit w (sdRead Between s')
          else if bool_decide (c ∈ sdSpecial) then None
          else sdRead (InWord (c :: w)) s'
      | AfterQuotes w => if sdBlank c then option_map (cons (rev w)) (sdRead Between s') else None
      | InQuotes w =>
          if decide (c = dq) then sdRead (AfterQuotes w) s'
          else if decide (c = bslash) then
            match s' with
            | d :: s'' => if bool_decide (d = bslash \/ d = dq) then sdRead (InQuotes (d :: w)) s'' else None
            | [] => None
            end
          else if decide (c = "%"%char) then
            match s' with d :: s'' => if decide (d = "%"%char) then sdRead (InQuotes (d :: w)) s'' else None | [] => None end
          else if decide (c = "$"%char) then
            match s' with d :: s'' => if decide (d = "$"%char) then sdRead (InQuotes (d :: w)) s'' else None | [] => None end
          else sdRead (InQuotes (c :: w)) s'
      end
  end.
Definition sdWords (s : bytes) : option (list bytes) := sdRead Between s.




(** ** Unit files *)

Fixpoint dropBlank (s : bytes) : bytes :=
  match s with c :: s' => if sdBlank c then dropBlank s' else s | [] => [] end.
Definition trimRight (s : bytes) : bytes := rev (dropBlank (rev s)).
Definition sdStrip (s : bytes) : bytes := trimRight (dropBlank s).

(** A carriage return and a zero byte end a line, too. *)
Definition sdLines (text : bytes) : list bytes :=
  Split nl (map (fun c => if bool_decide (c ∈ [cr; chr 0]) then nl else c) text).

(** The text ends in a backslash that is not itself escaped. *)
Fixpoint escapedEnd (esc : bool) (s : bytes) : bool :=
  match s with [] => esc | c :: s' => escapedEnd (negb esc && bool_decide (c = bslash)) s' end.

Definition isComment (l : bytes) : bool :=
  match l with c :: _ => bool_decide (c ∈ str "#;") | [] => false end.

(** Lines without comments, with continuations joined. *)
Fixpoint logical (contn : option bytes) (ls : list bytes) : list bytes :=
  match ls with
  | [] => match contn with Some c => [c] | None => [] end
  | l :: ls' =>
      let l := dropBlank l in
      if isComment l then logical contn ls'
      else
        let p := default [] contn ++ l in
        if escapedEnd false p then logical (Some (take (length p - 1) p ++ [" "%char])) ls'
        else p :: logical None ls'
  end.

(** Section, name, value. *)
Definition assignment : Type := bytes * bytes * bytes.

(** One line in a section: the section from there on, and what it assigns.
    [None]: the whole file is refused. *)
Definition parseLine (section l : bytes) : option (bytes * list assignment) :=
  let l := sdStrip l in
  match l with
  | [] => Some (section, [])
  | c :: l' =>
      if negb (bool_decide (utf8Text l = l)) then Some (section, [])
      else if bool_decide (c = "["%char) then
        match CutSuffix l' (str "]") with Some name => Some (name, []) | None => None end
      else match Cut (str "=") l with
           | Some (name, v) => Some (section, [(section, trimRight name, dropBlank v)])
           | None => Some (section, [])
           end
  end.

Fixpoint parseLines (section : bytes) (ls : list bytes) : option (bytes * list assignment) :=
  match ls with
  | [] => Some (section, [])
  | l :: ls' =>
      match parseLine section l with
      | None => None
      | Some (section, a) =>
          match parseLines section ls' with Some (last, a') => Some (last, a ++ a') | None => None end
      end
  end.

Definition readUnit (text : bytes) : option (list assignment) :=
  option_map snd (parseLines [] (logical None (sdLines text))).

(** What is assigned to a name: the last value, or, for a command, every one
    since the last empty one. *)
Definition values (section name : bytes) (f : list assignment) : list bytes :=
  omap (fun '(s, n, v) => if bool_decide (s = section /\ n = name) then Some v else None) f.
Definition setting (section name : bytes) (f : list assignment) : option bytes := last (values section name f).

(** ** Lemmas *)






Lemma sdEscape_no_nl w : nl ∉ w -> nl ∉ concat (map sdEscape w).
Proof.
  induction w as [|c w IH]; intros Hw; [done|]. cbn [map concat]. rewrite not_elem_of_app. split; [|set_solver].
  unfold sdEscape. repeat case_decide; set_solver.
Qed.

Lemma systemdQuote_no_nl w : nl ∉ w -> nl ∉ systemdQuote w.
Proof.
  intros Hw. unfold systemdQuote. case_match; [done|]. rewrite !not_elem_of_app.
  split_and!; [set_solver|by apply sdEscape_no_nl|set_solver].
Qed.

(** *** Text *)










(** *** Properties every word keeps *)













(** *** Lines *)








(** *** Command lines in a unit *)








(** *** The unit *)
















(** Two values the unit does not carry.  A dollar sign is quoted but not
    doubled, so systemd expands it; and the state directory is written without
    any quotes, so one with a blank in it is cut at the blank. *)
Lemma systemd_expands_dollars_and_cuts_the_state_dir :
  sdWords (systemdExec {| ic_BinaryPath := str "/opt/$agent"; ic_Args := []; ic_StateDir := []; ic_Prefix := [] |}) = None /\
  match readUnit (RenderSystemdUnit (fun _ => [])
      {| ic_BinaryPath := str "/agent"; ic_Args := [str "run"]; ic_StateDir := str "/var/my state"; ic_Prefix := str "/p" |}) with
  | Some f => match setting (str "Service") (str "Environment") f with
              | Some line => sdWords line = Some [str "EVERWAS_STATE_DIR=/var/my"; str "state"]
              | None => False
              end
  | None => False
  end.
Proof. split; vm_compute; reflexivity. Qed.
