(* ===== verification/Install.v ===== *)
(** * Install: putting the agent on a machine, and finishing its update

    [installBinary], [CmdInstall] and [CmdUpdateFinalize] of cli/install.go, the
    systemd side of package svc (svc/service_linux.go, [writeFileAtomic] of
    svc/service.go, [writeGuard] and [removeGuard] of svc/guard.go) and
    [supplicant.Write], over the disk with faults and crashes of [GoOS].  The
    command line's flags are arguments; what systemctl and the process table
    answer are arguments too. *)
From S2P Require Import Prelude GoLib GoText GoOS Swap Tracker Rollback Identity Credentials Render.

(** ** svc *)

Definition writeFileAtomic (p : path) (data : bytes) (mode : Z) : io (res error unit) :=
  try* _ := MkdirAll (PathDir p) in
  let tmp := p ++ str ".tmp" in
  try* _ := WriteFile tmp data mode in
  let* r := Rename tmp p in
  match r with
  | Err e => let* _ := ignore (Remove tmp) in ret (Err e)
  | Ok _ => Chmod p mode
  end.

Definition UnitPath (prefix : bytes) : path := prefix ++ str "/etc/systemd/system/everwas-agent.service".
Definition GuardPath (prefix : bytes) : path := prefix ++ LinuxGuardPath.

Definition ErrNoBinary : error := Sentinel "svc: binary path is required".

Definition validateInstall (c : InstallConfig) : option error :=
  if bool_decide (TrimSpace (ic_BinaryPath c) = []) then Some ErrNoBinary else None.

Section linux.
(** The text of the guard, the environment, and what each [systemctl] call
    answers. *)
Context (guardScript : bytes) (env : bytes -> bytes) (systemctl : list bytes -> option error).

Definition writeGuard (prefix : bytes) : io (res error unit) := writeFileAtomic (GuardPath prefix) guardScript 493.

Definition removeGuard (prefix : bytes) : io (res error unit) :=
  let* r := Remove (GuardPath prefix) in
  ret (match r with Err e => if IsNotExist e then Ok tt else Err e | Ok _ => Ok tt end).

Definition Install (c : InstallConfig) : io (res error unit) :=
  let c := normalized env c in
  match validateInstall c with
  | Some e => ret (Err e)
  | None =>
      try* _ := writeGuard (ic_Prefix c) orelse Errorf "svc: write" in
      try* _ := writeFileAtomic (UnitPath (ic_Prefix c)) (unlines (unitLines c)) 420 orelse Errorf "svc: write" in
      if negb (bool_decide (ic_Prefix c = [])) then ret (Ok tt)
      else match systemctl [str "daemon-reload"] with
           | Some e => ret (Err e)
           | None => match systemctl [str "enable"; str "--now"; Name] with
                     | Some e => ret (Err e)
                     | None => ret (Ok tt)
                     end
           end
  end.

(** The end of [Uninstall]; its first call, [systemctl disable], is best
    effort. *)
Definition uninstallRest (prefix : bytes) : io (res error unit) :=
  try* _ := removeGuard prefix orelse Errorf "svc: remove" in
  ret (if bool_decide (prefix = []) then
         match systemctl [str "daemon-reload"] with Some e => Err e | None => Ok tt end
       else Ok tt).

Definition Uninstall : io (res error unit) :=
  let prefix := env (str "EVERWAS_SERVICE_PREFIX") in
  let* r := Remove (UnitPath prefix) in
  match r with
  | Err e => if IsNotExist e then uninstallRest prefix else ret (Err (Errorf "svc: remove" e))
  | Ok _ => uninstallRest prefix
  end.
End linux.

(** ** installBinary *)

Section install.
Context `{Platform} (isWindows : bool).

(** Copying into the sibling: what was written is removed on an error. *)
Definition copyBeside (src tmp : path) : io (res error unit) :=
  try* data := ReadFile src orelse Errorf "open" in
  try* _ := WriteFile tmp [] 493 orelse Errorf "create" in
  let* r := AppendFile tmp data 493 in
  match r with
  | Err e => let* _ := ignore (Remove tmp) in ret (Err (Errorf "copy binary" e))
  | Ok _ =>
      let* r := Sync tmp in
      match r with
      | Err e => let* _ := ignore (Remove tmp) in ret (Err (Errorf "close" e))
      | Ok _ => ret (Ok tt)
      end
  end.

(** The end of [installBinary]: the sibling takes the destination's place. *)
Definition moveIntoPlace (tmp dest : path) : io (res error path) :=
  let* st := Stat dest in
  let* _ := if is_ok st && isWindows
            then (let* _ := ignore (Remove (BackupPath dest)) in ignore (Rename dest (BackupPath dest)))
            else ret tt in
  let* r := Rename tmp dest in
  match r with
  | Err e => let* _ := ignore (Remove tmp) in ret (Err (Errorf "move into place" e))
  | Ok _ =>
      try* _ := Chmod dest 493 orelse Errorf "chmod" in
      ret (Ok dest)
  end.

(** [src] is [update.ExecutablePath()]. *)
Definition installBinary (src : res error path) (dest : path) : io (res error path) :=
  match src with
  | Err e => ret (Err (Errorf "resolve running binary" e))
  | Ok src =>
      let* same := sameFile src dest in
      if (same : bool) then ret (Ok dest)
      else
        try* _ := MkdirAll (PathDir dest) orelse Errorf "create" in
        let tmp := dest ++ str ".new" in
        try* _ := copyBeside src tmp in
        moveIntoPlace tmp dest
  end.

(** ** CmdInstall

    The flags, in order; [None] for the service step of [--skip-service]. *)
Record installFlags := {
  fl_server : bytes;
  fl_token : bytes;
  fl_dest : path;
  fl_force : bool;
  fl_isAdmin : bool;
}.

Context {JC : JSON Config} (e : hostEnv).

Definition CmdInstall (fl : installFlags) (src : res error path) (enrolled : reply enrollResponse)
    (service : option (bytes -> io (res error unit))) : io Z :=
  if negb (fl_isAdmin fl) then ret 1
  else if bool_decide (fl_dest fl = []) then ret 2
  else if negb (Bool.eqb (bool_decide (fl_server fl = [])) (bool_decide (fl_token fl = []))) then ret 2
  else
    let* r := installBinary src (fl_dest fl) in
    match r with
    | Err _ => ret 1
    | Ok installed =>
        let* r := LoadConfig e in
        match r with
        | Err _ => ret 1
        | Ok cfg =>
            let wanted := negb (bool_decide (fl_server fl = [])) && (negb (Enrolled (Some cfg)) || fl_force fl) in
            let* r := if wanted then Enroll e (fl_server fl) enrolled else ret (Ok tt) in
            match r with
            | Err _ => ret 1
            | Ok _ =>
                match service with
                | None => ret 0
                | Some install =>
                    let* r := install installed in
                    ret (match r with Err _ => 1 | Ok _ => 0 end)
                end
            end
        end
    end.

(** ** CmdUpdateFinalize

    [waited] is the error of [WaitForExit], if any; [started] that of starting
    the service.  [dir] is the state directory, empty when none is known. *)
Context {JS : JSON State}.

Definition report (dir : path) (failure : option bytes) : io unit :=
  if bool_decide (dir = []) then ret tt else ignore (FinalizeOutcome dir failure).

Definition CmdUpdateFinalize (dir target staged : path) (waited started : option error) : io Z :=
  if bool_decide (target = []) || bool_decide (staged = []) then ret 2
  else match waited with
       | Some _ => let* _ := report dir (Some (str "waiting for agent pid")) in ret 1
       | None =>
           let* r := Swap target staged in
           match r with
           | Err _ => let* _ := report dir (Some (str "swap")) in ret 1
           | Ok _ =>
               let* _ := report dir None in
               ret (match started with Some _ => 1 | None => 0 end)
           end
       end.
End install.

(** ** supplicant.Write *)

Definition WriteProfile (wide : bytes -> bytes) (goos : bytes) (dir : path) (p : Profile) : io (res error path) :=
  match renderFor wide goos p with
  | Err err => ret (Err err)
  | Ok (name, content) =>
      try* _ := secureMkdirAll dir in
      let path := Join dir name in
      try* _ := WriteRename path content 384 (Errorf "supplicant: write") (Errorf "supplicant: install") in
      ret (Ok path)
  end.

(** ** Lemmas *)

(** [Remove], with the two errors it can give. *)
Lemma wp_Remove_exact (p : path) (Q : res error unit -> world -> Prop) (C : disk -> Prop) w :
  (forall fs, Q (Ok tt) (World (delete p (files w)) (clock w) (ticks w) fs)) ->
  (forall fs, files w !! p = None -> Q (Err ErrNotExist) (with_faults w fs)) ->
  (forall fs, Q (Err ErrIO) (with_faults w fs)) -> C (files w) -> wp (Remove p) Q C w.
Proof.
  intros Hok Hnone Hio HC. apply wp_syscall; [|intros; apply Hio|intros; apply HC].
  intros fs. cbn beta. destruct (files w !! p) eqn:E; [apply Hok|by apply Hnone].
Qed.

Lemma wp_writeFileAtomic (p : path) (data : bytes) (mode : Z) (Q : res error unit -> world -> Prop) (C : disk -> Prop) w :
  let tmp := p ++ str ".tmp" in
  let there d := frame [tmp; p] (files w) d /\ exists f, d !! p = Some f /\ f_data f = data in
  (forall d fs, there d -> Q (Ok tt) (World d (clock w) (ticks w) fs)) ->
  (forall d fs e, frame [tmp] (files w) d \/ there d -> Q (Err e) (World d (clock w) (ticks w) fs) /\ C d) ->
  wp (writeFileAtomic p data mode) Q C w.
Proof.
  intros tmp there Hok Hbad. assert (Hmem : tmp ∈ [tmp]) by set_solver. unfold writeFileAtomic. fold tmp.
  wp_step. wp_step; [|apply Hbad; by left|apply (Hbad _ [] ErrIO); by left].
  wp_step. wp_step; [|apply Hbad; left; eauto using frame_write].
  set (d1 := <[tmp := _]> _). assert (Hd1 : frame [tmp] (files w) d1) by (by apply frame_insert).
  wp_step. wp_step; [| |apply (Hbad _ [] ErrIO); by left].
  - assert (Hthere : forall g, f_data g = data -> forall d2, frame [p] (<[p := f]> (delete tmp d1)) d2 -> d2 !! p = Some g -> there d2).
    { intros g Hg d2 Hd2 Hl. split; [|by exists g].
      apply (frame_trans _ _ d1); [eapply frame_weaken; [|exact Hd1]; set_solver|].
      apply (frame_trans _ _ (<[p := f]> (delete tmp d1))); [|eapply frame_weaken; [|exact Hd2]; set_solver].
      apply (frame_trans _ _ (delete tmp d1)); [apply frame_delete|apply frame_insert]; set_solver. }
    assert (Hdata : f_data f = data).
    { unfold d1 in Hf. rewrite lookup_insert_eq in Hf. injection Hf as <-. unfold written. by destruct (files w !! tmp). }
    assert (Hsame : there (<[p := f]> (delete tmp d1))) by (eapply Hthere; [exact Hdata|done|by rewrite lookup_insert_eq]).
    wp_step; [|apply Hbad; by right|apply (Hbad _ [] ErrIO); by right].
    apply Hok. eapply Hthere; [| |by rewrite lookup_insert_eq]; [|apply frame_insert; set_solver].
    rewrite lookup_insert_eq in Hf0. by injection Hf0 as <-.
  - wp_step. wp_step. wp_step; [| |apply (Hbad _ [] ErrIO); by left].
    + wp_step. wp_step. apply Hbad. left. apply (frame_trans _ _ d1); [done|]. by apply frame_delete.
    + wp_step. wp_step. apply Hbad. by left.
Qed.

(** *** A service definition and the guard it calls *)

(** The definition at [U] has the guard at [G] beside it. *)
Definition guardedAt (U G : path) (d : disk) : Prop := is_Some (d !! U) -> is_Some (d !! G).
Definition guarded (prefix : bytes) (d : disk) : Prop := guardedAt (UnitPath prefix) (GuardPath prefix) d.

(** Two files that do not share their temporary names. *)
Definition apart (U G : path) : Prop :=
  G ∉ [U ++ str ".tmp"; U] /\ U ∉ [G ++ str ".tmp"; G] /\ U ≠ U ++ str ".tmp" /\ G ≠ G ++ str ".tmp".

Lemma prefixed_apart (prefix u g : bytes) : apart u g -> apart (prefix ++ u) (prefix ++ g).
Proof.
  intros (Ha & Hb & Hc & Hd). unfold apart. rewrite <- !app_assoc.
  split_and!; intros Heq; rewrite ?elem_of_cons, ?elem_of_nil in Heq; rewrite ?elem_of_cons, ?elem_of_nil in Ha, Hb;
    [destruct Heq as [Heq|[Heq|[]]]..| |]; apply app_inv_head in Heq; tauto.
Qed.

Lemma unit_guard_apart prefix : apart (UnitPath prefix) (GuardPath prefix).
Proof.
  apply prefixed_apart. split_and!; intros Heq; rewrite ?elem_of_cons, ?elem_of_nil in Heq; [destruct Heq as [Heq|[Heq|[]]]..| |];
    discriminate Heq.
Qed.

Section guarded_files.
Context (U G : path) (Hapart : apart U G).

Lemma unguarded_absent d : d !! U = None -> guardedAt U G d.
Proof. intros Hn. unfold guardedAt. rewrite Hn. by intros []. Qed.

(** Writing the guard and then the definition. *)
Lemma wp_guard_then_unit {A} (gtext utext : bytes) (gm um : Z) (f g : error -> error) (k : unit -> io (res error A))
    (Q : res error A -> world -> Prop) (w : world) :
  guardedAt U G (files w) ->
  (forall w', guardedAt U G (files w') ->
     (exists fg fu, files w' !! G = Some fg /\ f_data fg = gtext /\ files w' !! U = Some fu /\ f_data fu = utext) ->
     wp (k tt) Q (guardedAt U G) w') ->
  (forall e w', guardedAt U G (files w') -> Q (Err e) w') ->
  wp (try* _ := writeFileAtomic G gtext gm orelse f in try* x := writeFileAtomic U utext um orelse g in k x)
    Q (guardedAt U G) w.
Proof.
  destruct Hapart as (Ha & Hb & Hc & Hd). intros Hg Hk Herr. wp_step. apply wp_writeFileAtomic.
  2: { intros d fs e Hfr. assert (Hgd : guardedAt U G d); [|auto]. unfold guardedAt.
       destruct Hfr as [Hfr|[Hfr (fl & Hf & _)]]; [|by rewrite Hf; eauto].
       rewrite !(Hfr _) by (rewrite list_elem_of_singleton; congruence || set_solver). exact Hg. }
  intros d fs [Hfr (fg & Hf & Hfd)]. wp_step. apply wp_writeFileAtomic; cbn [files clock ticks].
  - intros d2 fs2 [Hfr2 (u & Hu & Hud)].
    assert (Hfg : d2 !! G = Some fg) by by rewrite (Hfr2 _ Ha).
    apply Hk; [intros _; eauto|]. by exists fg, u.
  - intros d2 fs2 e Hfr2. assert (Hfg : d2 !! G = Some fg).
    { destruct Hfr2 as [Hfr2|[Hfr2 _]]; rewrite (Hfr2 _); [done|set_solver|done|done]. }
    assert (Hgd : guardedAt U G d2) by (intros _; eauto). auto.
Qed.

(** Removing the guard once the definition is gone. *)
Lemma wp_guard_after_unit (w : world) (Q : res error unit -> world -> Prop) :
  files w !! U = None -> (forall r w', guardedAt U G (files w') -> Q r w') ->
  wp (let* r := Remove G in ret (match r with Err e => if IsNotExist e then Ok tt else Err e | Ok _ => Ok tt end))
    Q (guardedAt U G) w.
Proof.
  destruct Hapart as (_ & Hb & _ & _). intros Hn HQ.
  wp_step. apply wp_Remove_exact; [intros fs|intros fs _|intros fs|by apply unguarded_absent]; wp_step;
    try (by apply HQ, unguarded_absent).
  apply HQ, unguarded_absent. cbn [files]. rewrite lookup_delete_ne by set_solver. done.
Qed.

(** Removing the definition, then [rest]. *)
Lemma wp_unit_first {A} (wrap : error -> error) (rest : io (res error A)) (Q : res error A -> world -> Prop) (w : world) :
  guardedAt U G (files w) -> (forall w', files w' !! U = None -> wp rest Q (guardedAt U G) w') ->
  (forall e w', guardedAt U G (files w') -> Q (Err e) w') ->
  wp (let* r := Remove U in
      match r with Err e => if IsNotExist e then rest else ret (Err (wrap e)) | Ok _ => rest end)
    Q (guardedAt U G) w.
Proof.
  intros Hg Hrest Herr. wp_step. apply wp_Remove_exact; [intros fs|intros fs Hn|intros fs|done].
  - apply Hrest. cbn [files]. by rewrite lookup_delete_eq.
  - change (IsNotExist ErrNotExist) with true. by apply Hrest.
  - change (IsNotExist ErrIO) with false. wp_step. by apply Herr.
Qed.
End guarded_files.

(** C35: The service never refers to a rollback guard that is not there.  At
    every point of an installation and of a removal, whatever fails and if the
    process is killed there, a unit on disk has its guard on disk (provided that was
    so before); and an installation that succeeds leaves the guard's text and
    the unit that calls it. *)
Theorem unit_never_without_its_guard (guardScript : bytes) (env : bytes -> bytes) (systemctl : list bytes -> option error)
    (c : InstallConfig) (w : world) :
  let prefix := ic_Prefix (normalized env c) in
  guarded prefix (files w) -> guarded (env (str "EVERWAS_SERVICE_PREFIX")) (files w) ->
  wp (Install guardScript env systemctl c)
    (fun r w' => guarded prefix (files w') /\
       (r = Ok tt -> exists g u, files w' !! GuardPath prefix = Some g /\ f_data g = guardScript /\
          files w' !! UnitPath prefix = Some u /\ f_data u = RenderSystemdUnit env c))
    (guarded prefix) w /\
  wp (Uninstall env systemctl) (fun _ w' => guarded (env (str "EVERWAS_SERVICE_PREFIX")) (files w'))
    (guarded (env (str "EVERWAS_SERVICE_PREFIX"))) w.
Proof.
  intros prefix Hg Hg'. split.
  - unfold Install. fold prefix. destruct (validateInstall _); [by wp_step|].
    apply wp_guard_then_unit; [apply unit_guard_apart|done| |done].
    intros w' Hgd Hall. repeat (case_match; try wp_step); done.
  - unfold Uninstall. apply (wp_unit_first _ _ (Errorf "svc: remove")); [exact Hg'| |done].
    intros w' Hn. unfold uninstallRest, removeGuard. wp_step.
    apply wp_guard_after_unit; [apply unit_guard_apart|done|]. intros [[]|e] w2 Hw2; [by wp_step|done].
Qed.

Lemma unit_never_without_its_guard_witness :
  wp (Install (str "#!/bin/sh") (fun _ => []) (fun _ => None) demoInstall)
    (fun r w' => guarded [] (files w') /\
       (r = Ok tt -> exists g u, files w' !! GuardPath [] = Some g /\ f_data g = str "#!/bin/sh" /\
          files w' !! UnitPath [] = Some u /\ f_data u = RenderSystemdUnit (fun _ => []) demoInstall))
    (guarded []) (World ∅ 0 [] [Proceed; Proceed; Proceed; Proceed; Proceed; Dies 10]).
Proof.
  apply (unit_never_without_its_guard (str "#!/bin/sh") (fun _ => []) (fun _ => None) demoInstall
    (World ∅ 0 [] [Proceed; Proceed; Proceed; Proceed; Proceed; Dies 10])); by intros [].
Defined.

(** *** The binary *)

Section binary.
Context `{Platform}.

Lemma confined_copyBeside src tmp : confined [tmp] (copyBeside src tmp).
Proof. unfold copyBeside. repeat confined_step. Qed.

(** A completed copy beside the target holds the source's bytes. *)
Lemma copyBeside_ok src tmp w :
  src ≠ tmp ->
  wp (copyBeside src tmp)
    (fun r w' => r = Ok tt -> exists fs fd, files w !! src = Some fs /\ files w' !! tmp = Some fd /\ f_data fd = f_data fs)
    (fun _ => True) w.
Proof.
  intros Hne. unfold copyBeside. repeat (wp_step; try done).
  destruct (files w !! src) as [fsrc|] eqn:Hsrc; [|done]. repeat (wp_step; try done).
  - intros _. exists fsrc. eexists. split; [done|]. rewrite lookup_insert_eq. split; [done|]. cbn.
    unfold extended. rewrite lookup_insert_eq. cbn. unfold written. by destruct (files w !! tmp).
  - split; [|done]. repeat (wp_step; try done).
Qed.

Lemma confined_installBinary isWindows src dest :
  confined [dest; dest ++ str ".new"; BackupPath dest] (installBinary isWindows src dest).
Proof.
  unfold installBinary. destruct src as [src|]; [|apply confined_ret].
  apply confined_bind; [apply confined_sameFile|]. intros []; [apply confined_ret|].
  apply confined_try_as; [apply confined_MkdirAll|]. intros _.
  apply confined_try; [eapply confined_weaken; [|apply confined_copyBeside]; set_solver|]. intros _.
  unfold moveIntoPlace. apply confined_bind; [apply confined_Stat|]. intros st.
  apply confined_bind.
  { destruct (is_ok st && isWindows); [|apply confined_ret].
    apply confined_bind; [apply confined_ignore, confined_Remove; set_solver|]. intros _.
    apply confined_ignore, confined_Rename; set_solver. }
  intros _. apply confined_bind; [apply confined_Rename; set_solver|]. intros [_|err].
  - apply confined_try_as; [apply confined_Chmod; set_solver|]. intros _. apply confined_ret.
  - apply confined_bind; [apply confined_ignore, confined_Remove; set_solver|]. intros _. apply confined_ret.
Qed.

(** The destination is as it was, or complete. *)
Definition oldOrComplete (dest : path) (data : bytes) (d0 d : disk) : Prop :=
  d !! dest = d0 !! dest \/ exists f, d !! dest = Some f /\ f_data f = data.

(** Away from Windows the last step replaces the destination at once. *)
Lemma wp_moveIntoPlace (tmp dest : path) (fd : file) (d0 : disk) (w : world) :
  dest ≠ tmp -> files w !! tmp = Some fd -> files w !! dest = d0 !! dest ->
  wp (moveIntoPlace false tmp dest)
    (fun r w' => oldOrComplete dest (f_data fd) d0 (files w') /\
       (forall p, r = Ok p -> p = dest /\ exists f, files w' !! dest = Some f /\ f_data f = f_data fd))
    (oldOrComplete dest (f_data fd) d0) w.
Proof.
  intros Hne Htmp Hdest.
  assert (Hold : oldOrComplete dest (f_data fd) d0 (files w)) by by left.
  assert (Hnew : forall d f, d !! dest = Some f -> f_data f = f_data fd -> oldOrComplete dest (f_data fd) d0 d)
    by (intros d f Hd Hf; right; eauto).
  unfold moveIntoPlace. wp_step. wp_step; [| |done]; rewrite andb_false_r; wp_step; wp_step; wp_step; (wp_step; [| |done]).
  all: try (do 3 wp_step; [| |done]; wp_step; wp_step; (split; [|done]); [|done];
            left; cbn [files]; by rewrite lookup_delete_ne by done).
  all: rewrite Htmp in Hf; injection Hf as <-; wp_step;
    (wp_step; [|split; [by eapply Hnew; [rewrite lookup_insert_eq|]|done]|by eapply Hnew; [rewrite lookup_insert_eq|]]).
  all: rewrite lookup_insert_eq in Hf; injection Hf as <-; wp_step; (split; [by eapply Hnew; [rewrite lookup_insert_eq|]|]);
    intros p [= <-]; split; [done|]; eexists; rewrite lookup_insert_eq; by split.
Qed.

(** Installing over a running agent is atomic where a rename replaces a
    file.  At every point, whatever fails and if the process is killed there, the
    path the service starts holds what it held before or the complete new
    binary; on success it holds the new one; and no file but the destination
    and its sibling is touched. *)
Theorem install_is_atomic (src dest : path) (new : file) (w : world) :
  src ≠ dest -> src ≠ dest ++ str ".new" -> files w !! src = Some new ->
  wp (installBinary false (Ok src) dest)
    (fun r w' => oldOrComplete dest (f_data new) (files w) (files w') /\
       (forall p, r = Ok p -> p = dest /\ exists f, files w' !! dest = Some f /\ f_data f = f_data new))
    (oldOrComplete dest (f_data new) (files w)) w.
Proof.
  intros Hne Hne' Hsrc. set (tmp := dest ++ str ".new") in *.
  assert (Htmp : dest ∉ [tmp]) by (rewrite list_elem_of_singleton; intros Heq; by apply (app_suffix_ne dest (str ".new"))).
  assert (Hold : forall d, frame [tmp] (files w) d -> oldOrComplete dest (f_data new) (files w) d)
    by (intros d Hd; left; by apply Hd).
  unfold installBinary. fold tmp. wp_step. eapply wp_mono; [by apply sameFile_ne| |intros d ->; by apply Hold].
  intros same w1 [-> Hw1]. wp_step. wp_step; [|split; [apply Hold; by rewrite Hw1|done]|apply Hold; by rewrite Hw1].
  wp_step. eapply wp_mono.
  { apply wp_and; [apply confined_copyBeside|by apply copyBeside_ok]. }
  2: { intros d [Hd _]. apply Hold. cbn [files with_faults] in Hd. by rewrite Hw1 in Hd. }
  cbn [files with_faults]. rewrite Hw1. intros [[]|err] w2 [Hfr Hcopy]; [|split; [by apply Hold|done]].
  destruct (Hcopy eq_refl) as (fs' & fd & Hfs & Hfd & Hdata). rewrite Hsrc in Hfs. injection Hfs as <-.
  rewrite <- Hdata. apply wp_moveIntoPlace; [set_solver|done|by apply Hfr].
Qed.
End binary.

(** Where a file in use cannot be replaced, the destination is moved aside
    first and not put back: if the second move fails, the installation reports
    an error and there is no agent at the path the service starts. *)
Lemma windows_install_can_leave_no_agent :
  let d : disk := {[ str "/tmp/agent.exe" := File (str "new") true 493; str "/p/agent.exe" := File (str "old") true 493 ]} in
  let '(out, w') := @installBinary (windows_platform (fun _ => None)) true (Ok (str "/tmp/agent.exe")) (str "/p/agent.exe")
    (World d 0 [] (replicate 10 Proceed ++ [Fails 0])) in
  (exists e, out = Ret (Err e)) /\ files w' !! str "/p/agent.exe" = None /\
  files w' !! str "/p/agent.old.exe" = Some (File (str "old") true 493).
Proof. vm_compute. split_and!; [by eexists|done|done]. Qed.

Definition demoNew : file := File (str "new") true 493.
Definition overDisk : disk := {[ str "/tmp/agent" := demoNew; str "/p/agent" := File (str "old") true 493 ]}.

Lemma install_is_atomic_witness :
  let w := World overDisk 0 [] [Proceed; Proceed; Proceed; Proceed; Proceed; Dies 2] in
  wp (@installBinary unix_platform false (Ok (str "/tmp/agent")) (str "/p/agent"))
    (fun r w' => oldOrComplete (str "/p/agent") (f_data demoNew) (files w) (files w') /\
       (forall p, r = Ok p -> p = str "/p/agent" /\ exists f, files w' !! str "/p/agent" = Some f /\ f_data f = f_data demoNew))
    (oldOrComplete (str "/p/agent") (f_data demoNew) (files w)) w.
Proof.
  intros w. refine (@install_is_atomic unix_platform (str "/tmp/agent") (str "/p/agent") demoNew w _ _ _);
    [discriminate|discriminate|vm_compute; reflexivity].
Defined.

(** *** The identity *)

(** Re-running the installer never costs a machine its identity.  On an
    enrolled machine, without [--force], and whatever is asked of it, whatever
    fails and if the process is killed half way, the configuration is the one that
    was there. *)
Theorem install_keeps_the_identity `{Platform} {JC : JSON Config} (isWindows : bool) (e : hostEnv) (p : path) (cfg : Config)
    (fl : installFlags) (src : res error path) (enrolled : reply enrollResponse)
    (service : option (bytes -> io (res error unit))) (ps : list path) (w : world) :
  Path e = Ok p -> configOf p (files w) = Some cfg -> Enrolled (Some cfg) = true -> fl_force fl = false ->
  p ∉ [fl_dest fl; fl_dest fl ++ str ".new"; BackupPath (fl_dest fl)] ->
  p ∉ ps -> (forall install b, service = Some install -> confined ps (install b)) ->
  wp (CmdInstall isWindows e fl src enrolled service) (fun _ w' => configOf p (files w') = Some cfg)
    (fun d => configOf p d = Some cfg) w.
Proof.
  intros Hpath Hcfg Hen Hforce Hdest Hps Hsvc. unfold CmdInstall.
  repeat (case_match; [by wp_step|]).
  wp_step. eapply wp_mono; [apply confined_installBinary| |intros d Hd; by rewrite (configOf_frame p _ _ _ Hd Hdest)].
  intros r w1 Hfr. cbn beta in Hfr. assert (Hc1 : configOf p (files w1) = Some cfg) by (by rewrite (configOf_frame p _ _ _ Hfr Hdest)).
  destruct r as [installed|]; [|by wp_step]. wp_step. unfold LoadConfig. rewrite Hpath. apply wp_LoadFrom; [| |done].
  2: { intros. by wp_step. }
  intros fs c Hc. rewrite Hc1 in Hc. injection Hc as <-. rewrite Hen, Hforce, andb_false_r. wp_step. wp_step.
  destruct service as [install|]; [|by wp_step]. wp_step.
  eapply wp_mono; [by apply Hsvc| |intros d Hd; cbn [files with_faults] in Hd; by rewrite (configOf_frame p _ _ _ Hd Hps)].
  intros r w2 Hfr2. cbn [files with_faults] in Hfr2. wp_step. by rewrite (configOf_frame p _ _ _ Hfr2 Hps).
Qed.

Lemma install_keeps_the_identity_witness :
  let fl := {| fl_server := str "https://other"; fl_token := str "t"; fl_dest := str "/usr/local/bin/agent"; fl_force := false; fl_isAdmin := true |} in
  wp (@CmdInstall unix_platform false _ rootLinux fl (Ok (str "/tmp/agent")) (Replied 200 None) None)
    (fun _ w' => configOf demoPath (files w') = Some demoConfig) (fun d => configOf demoPath d = Some demoConfig)
    (World demoDisk 0 [] [Proceed; Fails 1]).
Proof.
  intros fl. refine (@install_keeps_the_identity unix_platform _ false rootLinux demoPath demoConfig fl (Ok (str "/tmp/agent"))
    (Replied 200 None) None [] (World demoDisk 0 [] [Proceed; Fails 1]) _ _ _ _ _ _ _);
    [reflexivity|vm_compute; reflexivity|reflexivity|reflexivity| |apply not_elem_of_nil|done].
  apply (bool_decide_eq_true_1 (_ ∉ _)). vm_compute. reflexivity.
Defined.

(** *** The finalizer *)

Section finalizer.
Context `{Platform} {JS : JSON State} (dir : path).
Local Abbreviation load := (stateOf dir).

(** The record as it was, or with the finalizer's verdict. *)
Definition recorded (failure : option bytes) (d0 d : disk) : Prop :=
  frame (own_files dir) d0 d /\
  (load d = load d0 \/ exists pid t, load d = stored (set_finalizer false pid (default [] failure) t (load d0))).

Lemma wp_FinalizeOutcome failure w :
  wp (FinalizeOutcome dir failure) (fun _ w' => recorded failure (files w) (files w')) (recorded failure (files w)) w.
Proof.
  assert (Hsame : forall d, frame (own_files dir) (files w) d -> load d = load (files w) -> recorded failure (files w) d)
    by (intros d Hf Hl; split; [done|by left]).
  unfold FinalizeOutcome. wp_step. apply wp_Load; [|intros; by apply Hsame|by apply Hsame]. intros fs.
  wp_step. wp_step. set (st := set_finalizer _ _ _ _ _).
  assert (Hnew : forall d, frame (own_files dir) (files w) d -> load d = stored st -> recorded failure (files w) d).
  { intros d Hf Hl. split; [done|right]. eexists _, _. exact Hl. }
  destruct failure as [msg|].
  - wp_step. apply wp_Save; cbn [files with_faults].
    + intros d fs' Hf Hl. assert (Hfd : frame (own_files dir) (files w) d)
        by (eapply frame_weaken; [|exact Hf]; unfold own_files; set_solver).
      assert (Hp : [probationPath dir] ⊆ own_files dir /\ statePath dir ∉ [probationPath dir])
        by (split; [unfold own_files; set_solver|path_ne]). destruct Hp as [Hp1 Hp2].
      eapply wp_mono; [apply (confined_RemoveAll [probationPath dir]); done| |].
      * intros r w2 Hf2. cbn [files] in Hf2. apply Hnew.
        -- exact (frame_trans _ _ _ _ Hfd (frame_weaken _ _ _ _ Hp1 Hf2)).
        -- by rewrite (stateOf_frame dir _ _ _ Hf2 Hp2).
      * intros d2 Hf2. cbn [files] in Hf2. apply Hnew.
        -- exact (frame_trans _ _ _ _ Hfd (frame_weaken _ _ _ _ Hp1 Hf2)).
        -- by rewrite (stateOf_frame dir _ _ _ Hf2 Hp2).
    + intros d fs' err Hf. assert (Hr : recorded (Some msg) (files w) d); [|done]. apply Hsame.
      * eapply frame_weaken; [|exact Hf]. unfold own_files. set_solver.
      * eapply stateOf_frame; [exact Hf|]. path_ne.
  - apply wp_saveAndProbation; cbn [files with_faults]; intros.
    + by apply Hnew.
    + assert (Hr : recorded None (files w) d') by naive_solver. done.
Qed.
End finalizer.

Section finalizer_claim.
Context `{Platform} {JS : JSON State} (dir target staged : path) (old new : file).
Local Abbreviation load := (stateOf dir).

(** The new binary is in place. *)
Definition swapped (d : disk) : Prop := exists f, d !! target = Some f /\ f_data f = f_data new.

(** The record does not claim a swap that did not happen. *)
Definition honest (d : disk) : Prop := Finalizing (load d) = false -> FinalizeErr (load d) = [] -> swapped d.

Lemma recorded_honest failure d0 d :
  recorded dir failure d0 d -> target ∉ own_files dir -> honest d0 ->
  (failure = None -> swapped d0) -> failure ≠ Some [] -> honest d.
Proof.
  intros (Hf & Hl) Ht Hh Hs Hne. unfold honest, swapped. rewrite (Hf target Ht).
  destruct Hl as [->|(pid & t & ->)]; [exact Hh|]. cbn. intros _. destruct failure as [msg|]; [|by intros _; apply Hs].
  cbn. intros ->%utf8Text_nil. done.
Qed.

Lemma wp_report failure w (Q : unit -> world -> Prop) C :
  (forall w', files w' = files w \/ recorded dir failure (files w) (files w') -> Q tt w') ->
  (forall d, recorded dir failure (files w) d -> C d) ->
  wp (report dir failure) Q C w.
Proof.
  intros HQ HC. unfold report. case_match; [apply wp_ret, HQ; by left|]. wp_step.
  eapply wp_mono; [apply wp_FinalizeOutcome| |done]. intros r w' Hr. wp_step. apply HQ. by right.
Qed.

(** C18: The finalizer never reports a swap that did not happen.  While an update
    waits for its finalizer, whatever the finalizer meets (the old agent does
    not exit, the swap fails at any step, the record cannot be written, the
    process is killed at any point), the record says "finalized without error" only
    if the target holds the new binary; and so does a successful exit. *)
Theorem finalizer_reports_what_happened (waited started : option error) (w : world) :
  target ≠ [] -> staged ≠ [] -> staged ∉ swap_paths target ->
  files w !! target = Some old -> files w !! staged = Some new ->
  (forall p, p ∈ own_files dir -> p ∉ swap_paths target) -> Finalizing (load (files w)) = true ->
  wp (CmdUpdateFinalize dir target staged waited started)
    (fun code w' => honest (files w') /\ (code = 0 -> swapped (files w'))) honest w.
Proof.
  intros Ht Hs Hst Hold Hnew Hown Hfin. unfold CmdUpdateFinalize. rewrite !bool_decide_eq_false_2 by done. cbn [orb].
  assert (Hto : target ∉ own_files dir) by (intros Hin; apply (Hown _ Hin); unfold swap_paths; set_solver).
  assert (Hh0 : forall d, load d = load (files w) -> honest d) by (intros d Hl Hf; rewrite Hl, Hfin in Hf; done).
  assert (Hkeep : forall d, frame (swap_paths target) (files w) d -> load d = load (files w)).
  { intros d Hf. eapply stateOf_frame; [exact Hf|]. apply Hown. unfold own_files. set_solver. }
  assert (Hrep : forall failure msg w0 c, failure = Some msg -> msg ≠ [] -> honest (files w0) -> c ≠ 0 ->
    wp (let* _ := report dir failure in ret c) (fun code w' => honest (files w') /\ (code = 0 -> swapped (files w'))) honest w0).
  { intros failure msg w0 c -> Hm Hh Hc. wp_step. apply wp_report.
    - intros w' Hw'. wp_step. split; [|done]. destruct Hw' as [->|Hr]; [done|].
      eapply recorded_honest; [exact Hr|done|done|done|congruence].
    - intros d Hr. eapply recorded_honest; [exact Hr|done|done|done|congruence]. }
  destruct waited as [err|]; [by eapply Hrep; auto|].
  wp_step. eapply wp_mono; [by apply (swap_spec target staged old new)| |].
  2: { intros d [Hf _]. auto. }
  intros [sr|err] w1 [Hf Hr]; [|eapply Hrep; [done|done|auto|done]].
  assert (Hsw : swapped (files w1)) by (destruct Hr as (_ & _ & f & ? & ?); by exists f).
  assert (Hh1 : honest (files w1)) by auto.
  assert (Hcarry : forall d, recorded dir None (files w1) d -> swapped d).
  { intros d (Hfr & _). destruct Hsw as (f & Hl & Hd). exists f. by rewrite (Hfr target Hto). }
  wp_step. apply wp_report.
  - intros w' Hw'. wp_step. destruct Hw' as [->|Hrec]; [done|]. split; [|by intros _; apply Hcarry].
    eapply recorded_honest; [exact Hrec|done|done|done|done].
  - intros d Hrec. eapply recorded_honest; [exact Hrec|done|done|done|done].
Qed.
End finalizer_claim.

Definition finalizingDisk : disk :=
  <[statePath demo_dir := demo_file (set_finalizer true 42 [] zero_time demo_state)]>
  (<[str "/usr/local/bin/agent" := File (str "old") true 493]>
  (<[str "/var/staged" := demoNew]> ∅)).

Lemma finalizer_reports_what_happened_witness :
  let w := World finalizingDisk demo_now [] [] in
  let run := CmdUpdateFinalize demo_dir (str "/usr/local/bin/agent") (str "/var/staged") None None in
  wp run (fun code w' => honest demo_dir (str "/usr/local/bin/agent") demoNew (files w') /\
      (code = 0 -> swapped (str "/usr/local/bin/agent") demoNew (files w')))
    (honest demo_dir (str "/usr/local/bin/agent") demoNew) w /\
  (run w).1 = Ret 0.
Proof.
  intros w run. split; [|vm_compute; reflexivity].
  refine (finalizer_reports_what_happened demo_dir (str "/usr/local/bin/agent") (str "/var/staged")
    (File (str "old") true 493) demoNew None None w _ _ _ _ _ _ _);
    [discriminate|discriminate| |vm_compute; reflexivity|vm_compute; reflexivity| |vm_compute; reflexivity].
  - apply (bool_decide_eq_true_1 (_ ∉ _)). vm_compute. reflexivity.
  - apply Forall_forall, (bool_decide_eq_true_1 _). vm_compute. reflexivity.
Defined.
