(* ===== verification/Runner.v ===== *)
(** * Runner: running one script (agent/internal/scripts)

    Finding the interpreter (interp.go, interp_unix.go, interp_windows.go),
    staging the body (stage.go), and [Run] and [execute] of runner.go with the
    pipes and the kill of proc_unix.go.  A running job is five goroutines: the
    one in [execute], the watcher of the timeout and the context, a pump per
    stream, and whoever calls [Cancel].  [runStep] is one step of one of them,
    so a theorem about every list of actions covers every schedule, every
    script and every descendant that keeps a pipe open. *)
From S2P Require Import Prelude GoLib GoText GoOS Wire Env Scripts.

(** ** interp.go *)

Record Interp := {
  in_Shell : bytes;
  in_Path : bytes;
  in_Args : list bytes;
  in_Ext : bytes;
}.

Definition Argv (i : Interp) (scriptPath : bytes) : list bytes := in_Path i :: in_Args i ++ [scriptPath].

Record spec := {
  candidates : list bytes;
  sp_args : list bytes;
  sp_ext : bytes;
}.

Definition row (cs args : list String.string) (ext : String.string) : spec :=
  {| candidates := map str cs; sp_args := map str args; sp_ext := str ext |}.

Definition defaultShell (windows : bool) : bytes := if windows then str "powershell" else str "bash".

Definition psArgs : list String.string := ["-NoProfile"; "-NonInteractive"; "-ExecutionPolicy"; "Bypass"; "-File"]%string.

Definition interpTable (windows : bool) : list (bytes * spec) :=
  if windows then
    [ (str "powershell", row ["powershell.exe"; "pwsh.exe"] psArgs ".ps1");
      (str "pwsh", row ["pwsh.exe"; "powershell.exe"] psArgs ".ps1");
      (str "cmd", row ["cmd.exe"] ["/c"] ".cmd");
      (str "python", row ["python3.exe"; "python.exe"; "python3"; "python"] [] ".py");
      (str "bash", row ["bash.exe"; "bash"] [] ".sh");
      (str "sh", row ["sh.exe"; "sh"] [] ".sh") ]%string
  else
    [ (str "bash", row ["bash"; "sh"] [] ".sh");
      (str "sh", row ["sh"] [] ".sh");
      (str "zsh", row ["zsh"] [] ".sh");
      (str "python", row ["python3"; "python"] [] ".py");
      (str "pwsh", row ["pwsh"] ["-NoProfile"; "-NonInteractive"; "-File"] ".ps1");
      (str "powershell", row ["pwsh"; "powershell"] ["-NoProfile"; "-NonInteractive"; "-File"] ".ps1") ]%string.

Definition canonicalShell (windows : bool) (shell : bytes) : bytes :=
  let s := ToLower (TrimSpace shell) in
  if bool_decide (s ∈ [[]; str "auto"; str "default"]) then defaultShell windows
  else if bool_decide (s ∈ [str "python3"; str "py"]) then str "python"
  else if bool_decide (s = str "powershell.exe") then str "powershell"
  else if bool_decide (s = str "pwsh.exe") then str "pwsh"
  else if bool_decide (s ∈ [str "cmd.exe"; str "bat"; str "batch"]) then str "cmd"
  else s.

Fixpoint tableLookup (name : bytes) (t : list (bytes * spec)) : option spec :=
  match t with
  | [] => None
  | (n, sp) :: t' => if bool_decide (n = name) then Some sp else tableLookup name t'
  end.

(** [look] is [exec.LookPath]: [None] for an error. *)
Fixpoint firstFound (look : bytes -> option bytes) (cs : list bytes) : option bytes :=
  match cs with
  | [] => None
  | c :: cs' => match look c with Some path => Some path | None => firstFound look cs' end
  end.

Definition resolveWith (windows : bool) (look : bytes -> option bytes) (shell : bytes) : res error Interp :=
  let name := canonicalShell windows shell in
  match tableLookup name (interpTable windows) with
  | None => Err (Sentinel "unsupported shell")
  | Some sp =>
      match firstFound look (candidates sp) with
      | Some path => Ok {| in_Shell := name; in_Path := path; in_Args := sp_args sp; in_Ext := sp_ext sp |}
      | None => Err (Sentinel "no interpreter found in PATH")
      end
  end.

(** ** stage.go *)

(** The rune loop of [safeName]: an unlisted rune, whatever its width, becomes
    one underscore. *)
Definition safeChar (r : ascii) : bool :=
  is_lower r || is_upper r || is_digit r || bool_decide (r ∈ ["-"; "_"; "."]%char).

Fixpoint trimLeftChar (c : ascii) (s : bytes) : bytes :=
  match s with
  | x :: s' => if bool_decide (x = c) then trimLeftChar c s' else s
  | [] => []
  end.

(** [strings.Trim(s, ".")] *)
Definition trimDots (s : bytes) : bytes := rev (trimLeftChar "." (rev (trimLeftChar "." s))).

Definition safeName (jobID : bytes) : bytes :=
  let b := MapRunes (fun r => if safeChar r then r else "_"%char) "_"%char (length jobID) jobID in
  let name := trimDots b in
  let name := if bool_decide (name = []) then str "job" else name in
  if (96 <? length name)%nat then take 96 name else name.

Definition workDir (stateDir tempDir jobID : bytes) : path :=
  let base := if bool_decide (stateDir = []) then tempDir else stateDir in
  Join (Join base (str "work")) (safeName jobID).

(** A path below a directory. *)
Definition below (dir p : path) : bool := HasPrefix p (dir ++ str "/").

(** [os.RemoveAll] of a directory; interrupted, it has removed some of the
    files. *)
Definition treeOf (dir : path) (d : disk) : list path :=
  List.filter (below dir) (map fst (map_to_list d)).

Definition removeTree (dir : path) : io (res error unit) :=
  syscall (fun d => (Ok tt, foldr delete d (treeOf dir d)))
    (fun k d => foldr delete d (take k (treeOf dir d))).

(** The mode of a directory is not represented; setting it can fail. *)
Definition chmodDir (_ : path) (_ : Z) : io (res error unit) := syscall (fun d => (Ok tt, d)) atomic.

Definition stageScript (stateDir tempDir jobID body ext : bytes) : io (res error (path * path)) :=
  let dir := workDir stateDir tempDir jobID in
  try* _ := MkdirAll dir in
  try* _ := chmodDir dir 448 in
  let script := Join dir (str "script" ++ ext) in
  let* r := WriteFile script body 448 in
  match r with
  | Err e => let* _ := ignore (removeTree dir) in ret (Err e)
  | Ok _ =>
      let* r := Chmod script 448 in
      match r with
      | Err e => let* _ := ignore (removeTree dir) in ret (Err e)
      | Ok _ => ret (Ok (dir, script))
      end
  end.

(** ** execute: from the job to a process, and the cleanup *)

(** [exec.Cmd] as [execute] fills it in. *)
Record command := {
  cmd_Args : list bytes;
  cmd_Dir : path;
  cmd_Env : list bytes;
}.

Section execute.
Context (windows : bool) (look : bytes -> option bytes) (environ : list bytes) (stateDir tempDir : bytes).

Definition commandFor (job : JobSpec) (interp : Interp) (dir script : path) : command :=
  {| cmd_Args := Argv interp script; cmd_Dir := dir; cmd_Env := scrubEnv environ (js_Env job) |}.

(** [pipesErr] and [startErr] are what [newOutPipes] and [cmd.Start] return;
    [child] is what the script does to the disk.  The result is the error of
    an [abort], or the command that ran. *)
Definition execute (job : JobSpec) (pipesErr startErr : option error) (child : command -> disk -> disk) :
    io (res error command) :=
  if bool_decide (js_Body job = []) then ret (Err (Sentinel "empty script body"))
  else match resolveWith windows look (Shell job) with
  | Err e => ret (Err e)
  | Ok interp =>
      try* staged := stageScript stateDir tempDir (JobID job) (js_Body job) (in_Ext interp)
        orelse Errorf "stage script" in
      let '(dir, script) := staged in
      let* out :=
        match pipesErr, startErr with
        | Some e, _ => ret (Err e)
        | None, Some e => ret (Err (Errorf "start" e))
        | None, None =>
            fun w => let c := commandFor job interp dir script in
                     (Ret (Ok c), on_disk w (child c (files w)))
        end in
      let* _ := ignore (removeTree dir) in
      ret out
  end.
End execute.

(** ** The running job *)

Definition DefaultDrainGrace : Z := 3 * Second.
Definition readBufSize : Z := 32 * 1024.

Definition drainWindow (drainGrace : Z) : Z := if 0 <? drainGrace then drainGrace else DefaultDrainGrace.

(** Where the goroutine of [Run] is: in [cmd.Wait]; in the select over the
    pipes; about to read the reason; about to unregister; back in [Run]; about
    to send each end marker; about to publish; returned. *)
Inductive phase : Type :=
  | InWait
  | Draining (w : waitResult) (until : Z)
  | Collecting (w : waitResult)
  | Leaving (r : Result)
  | Stamping (r : Result)
  | EndingOut (r : Result)
  | EndingErr (r : Result)
  | Publishing (r : Result)
  | Finished (r : Result).

(** A pump: blocked in a read, about to write what it read, or returned. *)
Inductive pumpState : Type := Reading | Holding (buf : bytes) | PumpEnded.

(** What [Run] publishes besides output. *)
Inductive runEvent : Type :=
  | RProgress (pct : Z) (ph note : bytes)
  | RResult (r : Result)
  | RAudit (job : bytes) (status : bytes) (exit : Z).

(** The pipes' side of a job: the two pumps and the sink they share.  [o_ops]
    and [o_read] are the calls made on the sink and the data there was for it
    (read from the pipes, or the message of [abort]), in order; the statements
    below speak of them. *)
Record output := {
  o_out : pumpState;
  o_err : pumpState;
  o_sink : chunkSink;
  o_ops : list sinkOp;
  o_read : list (bytes * ascii);
}.

(** [rn_asked] says that [Cancel] found the job; [rn_kills] records, for each
    signal sent to the process group, whether the child had been reaped. *)
Record run := {
  rn_now : Z;
  rn_started : Z;
  rn_timer : Z;
  rn_ctx : bool;
  rn_asked : bool;
  rn_box : bytes;
  rn_phase : phase;
  rn_watching : bool;
  rn_registered : bool;
  rn_kills : list bool;
  rn_events : list runEvent;
  rn_output : output;
}.

Definition set_now (now : Z) (r : run) : run :=
  {| rn_now := now; rn_started := rn_started r; rn_timer := rn_timer r; rn_ctx := rn_ctx r;
     rn_asked := rn_asked r; rn_box := rn_box r; rn_phase := rn_phase r; rn_watching := rn_watching r;
     rn_registered := rn_registered r; rn_kills := rn_kills r; rn_events := rn_events r;
     rn_output := rn_output r |}.
Definition set_ctx (r : run) : run :=
  {| rn_now := rn_now r; rn_started := rn_started r; rn_timer := rn_timer r; rn_ctx := true;
     rn_asked := rn_asked r; rn_box := rn_box r; rn_phase := rn_phase r; rn_watching := rn_watching r;
     rn_registered := rn_registered r; rn_kills := rn_kills r; rn_events := rn_events r;
     rn_output := rn_output r |}.
Definition set_asked (r : run) : run :=
  {| rn_now := rn_now r; rn_started := rn_started r; rn_timer := rn_timer r; rn_ctx := rn_ctx r;
     rn_asked := true; rn_box := rn_box r; rn_phase := rn_phase r; rn_watching := rn_watching r;
     rn_registered := rn_registered r; rn_kills := rn_kills r; rn_events := rn_events r;
     rn_output := rn_output r |}.
Definition set_phase (ph : phase) (r : run) : run :=
  {| rn_now := rn_now r; rn_started := rn_started r; rn_timer := rn_timer r; rn_ctx := rn_ctx r;
     rn_asked := rn_asked r; rn_box := rn_box r; rn_phase := ph; rn_watching := rn_watching r;
     rn_registered := rn_registered r; rn_kills := rn_kills r; rn_events := rn_events r;
     rn_output := rn_output r |}.
Definition stopWatching (r : run) : run :=
  {| rn_now := rn_now r; rn_started := rn_started r; rn_timer := rn_timer r; rn_ctx := rn_ctx r;
     rn_asked := rn_asked r; rn_box := rn_box r; rn_phase := rn_phase r; rn_watching := false;
     rn_registered := rn_registered r; rn_kills := rn_kills r; rn_events := rn_events r;
     rn_output := rn_output r |}.
Definition set_registered (b : bool) (r : run) : run :=
  {| rn_now := rn_now r; rn_started := rn_started r; rn_timer := rn_timer r; rn_ctx := rn_ctx r;
     rn_asked := rn_asked r; rn_box := rn_box r; rn_phase := rn_phase r; rn_watching := rn_watching r;
     rn_registered := b; rn_kills := rn_kills r; rn_events := rn_events r; rn_output := rn_output r |}.
Definition logEvents (evs : list runEvent) (r : run) : run :=
  {| rn_now := rn_now r; rn_started := rn_started r; rn_timer := rn_timer r; rn_ctx := rn_ctx r;
     rn_asked := rn_asked r; rn_box := rn_box r; rn_phase := rn_phase r; rn_watching := rn_watching r;
     rn_registered := rn_registered r; rn_kills := rn_kills r; rn_events := rn_events r ++ evs;
     rn_output := rn_output r |}.
Definition set_output (o : output) (r : run) : run :=
  {| rn_now := rn_now r; rn_started := rn_started r; rn_timer := rn_timer r; rn_ctx := rn_ctx r;
     rn_asked := rn_asked r; rn_box := rn_box r; rn_phase := rn_phase r; rn_watching := rn_watching r;
     rn_registered := rn_registered r; rn_kills := rn_kills r; rn_events := rn_events r; rn_output := o |}.

(** [cmd.Wait] has returned. *)
Definition reaped (ph : phase) : bool := match ph with InWait => false | _ => true end.

(** The closure [kill]: the first reason is kept and sends the signal. *)
Definition kill (why : bytes) (r : run) : run :=
  let '(box, first) := reason_set (rn_box r) why in
  if first then
    {| rn_now := rn_now r; rn_started := rn_started r; rn_timer := rn_timer r; rn_ctx := rn_ctx r;
       rn_asked := rn_asked r; rn_box := box; rn_phase := rn_phase r; rn_watching := rn_watching r;
       rn_registered := rn_registered r; rn_kills := rn_kills r ++ [reaped (rn_phase r)];
       rn_events := rn_events r; rn_output := rn_output r |}
  else r.

(** [Runner.Cancel] for this job's id: whether it was found, and the stop. *)
Definition Cancel (r : run) : bool * run :=
  if rn_registered r then (true, kill StatusCancelled (set_asked r)) else (false, r).

Definition streamName (err : bool) : bytes := if err then StreamStderr else StreamStdout.

Definition getPump (err : bool) (o : output) : pumpState := if err then o_err o else o_out o.
Definition setPump (err : bool) (p : pumpState) (o : output) : output :=
  {| o_out := if err then o_out o else p; o_err := if err then p else o_err o;
     o_sink := o_sink o; o_ops := o_ops o; o_read := o_read o |}.
Definition hasRead (err : bool) (buf : bytes) (o : output) : output :=
  {| o_out := o_out o; o_err := o_err o; o_sink := o_sink o; o_ops := o_ops o;
     o_read := o_read o ++ map (fun x => (streamName err, x)) buf |}.

Section steps.
(** What [emit] answers to each chunk. *)
Context (emit : nat -> option error).

Definition onSink (op : sinkOp) (o : output) : output :=
  {| o_out := o_out o; o_err := o_err o; o_sink := sinkStep emit (o_sink o) op; o_ops := o_ops o ++ [op];
     o_read := o_read o |}.

Inductive outAction : Type :=
  | PRead (err : bool) (buf : bytes)   (** a read returns data *)
  | PWrite (err : bool)                (** the pump hands it to the sink *)
  | PStop (err : bool).                (** a read fails: end of file or closed *)

(** One step of [pump]. *)
Definition outStep (a : outAction) (o : output) : option output :=
  match a with
  | PRead err buf =>
      match getPump err o with
      | Reading => if blen buf <=? readBufSize then Some (setPump err (Holding buf) (hasRead err buf o)) else None
      | _ => None
      end
  | PWrite err =>
      match getPump err o with
      | Holding buf =>
          let o := if bool_decide (buf = []) then o else onSink (OWrite (streamName err) buf) o in
          Some (setPump err Reading o)
      | _ => None
      end
  | PStop err =>
      match getPump err o with
      | Reading => Some (setPump err PumpEnded o)
      | _ => None
      end
  end.

Definition pumpsEnded (o : output) : bool :=
  match o_out o, o_err o with PumpEnded, PumpEnded => true | _, _ => false end.

Inductive runAction : Type :=
  | APass (dt : N)
  | ACtxDone
  | ACancel
  | AWatchDone | AWatchTimer | AWatchCtx
  | AOut (a : outAction)
  | AExit (w : waitResult)
  | ADrained | ADrainTimeout
  | ACollect | ALeave | AStamp | AEndOut | AEndErr | APublish.

(** [res.DurationMS], [res.Truncated] and [res.EntryID] as [Run] sets them. *)
Definition stamp (job : JobSpec) (started now : Z) (s : chunkSink) (r : Result) : Result :=
  {| jr_Status := jr_Status r; jr_ExitCode := jr_ExitCode r;
     jr_DurationMS := Sub now started ÷ 1000000; jr_Truncated := isTruncated s; jr_EntryID := EntryID job;
     jr_UpdatedTo := jr_UpdatedTo r; jr_Finalizing := jr_Finalizing r |}.

Definition finalEvents (job : JobSpec) (r : Result) : list runEvent :=
  [RProgress 100 PhaseFinished (jr_Status r); RResult r; RAudit (JobID job) (jr_Status r) (jr_ExitCode r)].

Context (job : JobSpec) (window : Z).

Definition runStep (a : runAction) (r : run) : option run :=
  match a with
  | APass dt => Some (set_now (rn_now r + Z.of_N dt) r)
  | ACtxDone => Some (set_ctx r)
  | ACancel => Some (Cancel r).2
  | AWatchDone => if rn_watching r && reaped (rn_phase r) then Some (stopWatching r) else None
  | AWatchTimer =>
      if rn_watching r && (rn_timer r <=? rn_now r) then Some (kill StatusTimeout (stopWatching r)) else None
  | AWatchCtx => if rn_watching r && rn_ctx r then Some (kill StatusCancelled (stopWatching r)) else None
  | AOut a => match outStep a (rn_output r) with Some o => Some (set_output o r) | None => None end
  | AExit w =>
      match rn_phase r with
      | InWait => Some (set_phase (Draining w (rn_now r + window)) r)
      | _ => None
      end
  | ADrained =>
      match rn_phase r with
      | Draining w _ => if pumpsEnded (rn_output r) then Some (set_phase (Collecting w) r) else None
      | _ => None
      end
  | ADrainTimeout =>
      match rn_phase r with
      | Draining w until =>
          if until <=? rn_now r
          then Some (set_phase (Collecting w) (set_output (onSink OStop (rn_output r)) r)) else None
      | _ => None
      end
  | ACollect =>
      match rn_phase r with Collecting w => Some (set_phase (Leaving (result w (rn_box r))) r) | _ => None end
  | ALeave =>
      match rn_phase r with
      | Leaving res => Some (set_phase (Stamping res) (set_registered false r))
      | _ => None
      end
  | AStamp =>
      match rn_phase r with
      | Stamping res =>
          Some (set_phase (EndingOut (stamp job (rn_started r) (rn_now r) (o_sink (rn_output r)) res)) r)
      | _ => None
      end
  | AEndOut =>
      match rn_phase r with
      | EndingOut res => Some (set_phase (EndingErr res) (set_output (onSink (OEof StreamStdout) (rn_output r)) r))
      | _ => None
      end
  | AEndErr =>
      match rn_phase r with
      | EndingErr res => Some (set_phase (Publishing res) (set_output (onSink (OEof StreamStderr) (rn_output r)) r))
      | _ => None
      end
  | APublish =>
      match rn_phase r with
      | Publishing res => Some (set_phase (Finished res) (logEvents (finalEvents job res) r))
      | _ => None
      end
  end.

Definition runSteps (acts : list runAction) (r : run) : option run :=
  foldl (fun o a => match o with Some r => runStep a r | None => None end) (Some r) acts.

(** [Run] up to [cmd.Wait]: the child has been started at [path], with its
    pumps and its watcher; or [execute] has returned through [abort]. *)
Definition startOutput (ended : pumpState) : output :=
  {| o_out := ended; o_err := ended; o_sink := newChunkSink (JobID job) (EntryID job); o_ops := []; o_read := [] |}.

Definition startRun (path : bytes) (ctx : bool) (started now : Z) : run :=
  {| rn_now := now; rn_started := started; rn_timer := now + jobTimeout (TimeoutS job); rn_ctx := ctx;
     rn_asked := false; rn_box := []; rn_phase := InWait; rn_watching := true; rn_registered := true;
     rn_kills := []; rn_events := [RProgress 0 PhaseStarted (Shell job); RProgress 10 PhaseRunning path];
     rn_output := startOutput Reading |}.

Definition abort (text : error -> bytes) (e : error) (o : output) : output :=
  let p := str "everwas-agent: " ++ text e ++ [nl] in
  onSink (OWrite StreamStderr p) (hasRead true p o).

Definition abortRun (text : error -> bytes) (e : error) (ctx : bool) (started now : Z) : run :=
  {| rn_now := now; rn_started := started; rn_timer := now; rn_ctx := ctx;
     rn_asked := false; rn_box := []; rn_phase := Stamping (plainResult StatusFailed (-1)); rn_watching := false;
     rn_registered := false; rn_kills := []; rn_events := [RProgress 0 PhaseStarted (Shell job)];
     rn_output := abort text e (startOutput PumpEnded) |}.
End steps.

(** ** The sink under the pumps *)

Lemma write_sent emit s stream p :
  exists cs, sent (write emit s stream p).2 = sent s ++ cs /\ Forall (fun c => c_EOF c.1 = false) cs /\
    stopped (write emit s stream p).2 = stopped s.
Proof.
  assert (Hall : forall fuel s p, exists cs, sent (sendAll emit fuel s stream p).2 = sent s ++ cs /\
    Forall (fun c => c_EOF c.1 = false) cs /\ stopped (sendAll emit fuel s stream p).2 = stopped s).
  { clear. induction fuel as [|fuel IH]; intros s p; [exists []; by rewrite app_nil_r|].
    destruct p as [|x p]; [exists []; by rewrite app_nil_r|]. cbn [sendAll]. unfold send.
    match goal with |- context [sent s ++ [?c]] => set (c1 := c) end.
    destruct (emit (S (s_seq s))); [exists [c1]; split_and!; [done|by repeat constructor|done]|].
    match goal with |- context [sendAll emit fuel ?s1 stream ?q] => destruct (IH s1 q) as (cs & -> & Hcs & ->) end.
    exists (c1 :: cs). cbn [set_written sent stopped]. rewrite <- app_assoc. split_and!; [done| |done].
    constructor; done. }
  unfold write. destruct (_ || _); [exists []; by rewrite app_nil_r|].
  destruct (_ <? _); [|apply Hall]. apply (Hall _ (set_truncated s)).
Qed.

Lemma write_stopped emit s stream p : stopped s = true -> (write emit s stream p).2 = s.
Proof. intros Hs. unfold write. by rewrite Hs, orb_true_r. Qed.

(** The chunks of a job after [n] end markers: data, then the markers of
    standard output and of standard error. *)
Definition closedBy (n : nat) (cs : list (Chunk * bool)) : Prop :=
  exists data ends, cs = data ++ ends /\ Forall (fun c => c_EOF c.1 = false) data /\
    map (fun c => (c_Stream c.1, c_EOF c.1)) ends = take n [(StreamStdout, true); (StreamStderr, true)].

Definition endsSent (ph : phase) : nat :=
  match ph with EndingErr _ => 1 | Publishing _ | Finished _ => 2 | _ => 0 end.

Definition pastDrain (ph : phase) : bool :=
  match ph with InWait | Draining _ _ => false | _ => true end.

Definition held (p : pumpState) : bytes := match p with Holding buf => buf | _ => [] end.

(** The part of a log that is on one stream. *)
Definition onStream (s : bytes) (l : list (bytes * ascii)) : list (bytes * ascii) :=
  List.filter (fun x => bool_decide (x.1 = s)) l.

Lemma onStream_app s a b : onStream s (a ++ b) = onStream s a ++ onStream s b.
Proof. apply List.filter_app. Qed.

Lemma onStream_tag s u p : onStream s (map (fun x => (u, x)) p) = if bool_decide (u = s) then map (fun x => (u, x)) p else [].
Proof.
  unfold onStream. induction p as [|x p IH]; cbn [map List.filter fst]; [by case_bool_decide|].
  rewrite IH. by case_bool_decide.
Qed.

Lemma offered_app ops ops' : OStop ∉ ops -> offered (ops ++ ops') = offered ops ++ offered ops'.
Proof.
  induction ops as [|op ops IH]; intros Hs; [done|]. apply not_elem_of_cons in Hs as [Hop Hs].
  destruct op; cbn [app offered]; rewrite ?IH by done; [by rewrite app_assoc|done|done].
Qed.

Lemma sinkRun_snoc emit s ops op : sinkRun emit s (ops ++ [op]) = sinkStep emit (sinkRun emit s ops) op.
Proof. unfold sinkRun. by rewrite fold_left_app. Qed.

Section output.
Context (emit : nat -> option error) (job : JobSpec).

(** What holds of the pipes' side while no reader can add to a closed output:
    the sink is the one the calls made it; unless it was stopped, what each
    stream's reads delivered has been offered to it in order, except what a
    pump still holds. *)
Record out_inv (o : output) : Prop := {
  oi_sink : o_sink o = sinkRun emit (newChunkSink (JobID job) (EntryID job)) (o_ops o);
  oi_nostop : stopped (o_sink o) = false -> OStop ∉ o_ops o;
  oi_order : stopped (o_sink o) = false -> forall err,
    onStream (streamName err) (offered (o_ops o)) ++ map (fun x => (streamName err, x)) (held (getPump err o)) =
    onStream (streamName err) (o_read o);
  oi_all : stopped (o_sink o) = false ->
    o_read o ≡ₚ offered (o_ops o) ++ map (fun x => (streamName false, x)) (held (o_out o)) ++
                map (fun x => (streamName true, x)) (held (o_err o));
}.

Lemma streamName_eq a b : bool_decide (streamName a = streamName b) = Bool.eqb a b.
Proof. by destruct a, b. Qed.

Lemma getPump_set err e p o : getPump e (setPump err p o) = if Bool.eqb err e then p else getPump e o.
Proof. by destruct err, e. Qed.

Lemma out_inv_read err buf o :
  getPump err o = Reading -> out_inv o -> out_inv (setPump err (Holding buf) (hasRead err buf o)).
Proof.
  intros Hp [Hs Hn Ho Ha]. constructor; [done|done| |]; cbn [setPump hasRead o_sink o_ops o_read o_out o_err].
  - intros Hst e. rewrite onStream_app, onStream_tag, streamName_eq, getPump_set, <- (Ho Hst e).
    destruct (Bool.eqb_spec err e) as [<-|]; cbn [held].
    + rewrite Hp. cbn [held map]. by rewrite app_nil_r.
    + rewrite app_nil_r. destruct err, e; done.
  - intros Hst. rewrite (Ha Hst). destruct err; cbn [getPump] in Hp; rewrite Hp; cbn [held map].
    + by rewrite app_nil_r, <- app_assoc.
    + rewrite !app_nil_l, <- !app_assoc. f_equiv. apply Permutation_app_comm.
Qed.

Lemma out_inv_write err buf o :
  getPump err o = Holding buf -> out_inv o ->
  out_inv (setPump err Reading (onSink emit (OWrite (streamName err) buf) o)).
Proof.
  intros Hp [Hs Hn Ho Ha].
  assert (Hst : stopped (sinkStep emit (o_sink o) (OWrite (streamName err) buf)) = stopped (o_sink o)).
  { cbn [sinkStep]. by destruct (write_sent emit (o_sink o) (streamName err) buf) as (? & _ & _ & ?). }
  constructor; cbn [setPump onSink o_sink o_ops o_read o_out o_err]; try rewrite Hst.
  - by rewrite sinkRun_snoc, <- Hs.
  - intros Hf. rewrite elem_of_app, list_elem_of_singleton. intros [H|H]; [by apply Hn in H|done].
  - intros Hf e. rewrite offered_app by auto. cbn [offered]. rewrite app_nil_r, onStream_app, onStream_tag,
      streamName_eq, getPump_set, <- (Ho Hf e). rewrite <- app_assoc. f_equal.
    destruct (Bool.eqb_spec err e) as [<-|]; [by rewrite Hp, app_nil_r|]. by destruct err, e.
  - intros Hf. rewrite (Ha Hf), offered_app by auto. cbn [offered]. rewrite app_nil_r, <- !app_assoc. f_equiv.
    destruct err; cbn [getPump] in Hp; rewrite Hp; cbn [held map]; [|done].
    rewrite app_nil_r. apply Permutation_app_comm.
Qed.

Lemma out_inv_skip err o : getPump err o = Holding [] -> out_inv o -> out_inv (setPump err Reading o).
Proof.
  intros Hp [Hs Hn Ho Ha]. constructor; [done|done| |].
  - intros Hf e. rewrite getPump_set. cbn [setPump o_ops o_read o_sink] in *. rewrite <- (Ho Hf e).
    destruct (Bool.eqb_spec err e) as [<-|]; [by rewrite Hp|done].
  - intros Hf. rewrite (Ha Hf). cbn [setPump o_ops o_out o_err]. destruct err; cbn [getPump] in Hp; by rewrite Hp.
Qed.

Lemma out_inv_end err o : getPump err o = Reading -> out_inv o -> out_inv (setPump err PumpEnded o).
Proof.
  intros Hp [Hs Hn Ho Ha]. constructor; [done|done| |].
  - intros Hf e. rewrite getPump_set. cbn [setPump o_ops o_read o_sink] in *. rewrite <- (Ho Hf e).
    destruct (Bool.eqb_spec err e) as [<-|]; [by rewrite Hp|done].
  - intros Hf. rewrite (Ha Hf). cbn [setPump o_ops o_out o_err]. destruct err; cbn [getPump] in Hp; by rewrite Hp.
Qed.

Lemma out_inv_eof stream o : out_inv o -> out_inv (onSink emit (OEof stream) o).
Proof.
  intros [Hs Hn Ho Ha]. constructor; cbn [onSink o_sink o_ops o_read].
  - by rewrite sinkRun_snoc, <- Hs.
  - intros Hf. rewrite elem_of_app, list_elem_of_singleton. intros [H|H]; [by apply Hn in H|done].
  - intros Hf e. rewrite offered_app by auto. cbn [offered]. rewrite app_nil_r. by apply Ho.
  - intros Hf. rewrite offered_app by auto. cbn [offered]. rewrite app_nil_r. by apply Ha.
Qed.

Lemma out_inv_stop o : out_inv o -> out_inv (onSink emit OStop o).
Proof. intros [Hs Hn Ho Ha]. constructor; [|done..]. cbn [onSink o_sink o_ops]. by rewrite sinkRun_snoc, <- Hs. Qed.

Lemma outStep_inv a o o' : outStep emit a o = Some o' -> out_inv o -> out_inv o'.
Proof.
  destruct a as [err buf|err|err]; cbn [outStep]; destruct (getPump err o) eqn:Hp; try done.
  - destruct (_ <=? _); [|done]. intros [= <-]. by apply out_inv_read.
  - intros [= <-] Ho. case_bool_decide as Hb; [subst; by apply out_inv_skip|by apply out_inv_write].
  - intros [= <-]. by apply out_inv_end.
Qed.

(** Once the output is closed or every pump has returned, no step of a pump
    changes what was sent. *)
Definition quiet (o : output) : Prop := pumpsEnded o = true \/ stopped (o_sink o) = true.

Lemma outStep_quiet a o o' : outStep emit a o = Some o' -> quiet o -> quiet o' /\ o_sink o' = o_sink o.
Proof.
  intros Hstep [Hq|Hq].
  - unfold pumpsEnded in Hq. destruct (o_out o) eqn:E1, (o_err o) eqn:E2; try done.
    destruct a as [[] ?|[]|[]]; cbn [outStep getPump] in Hstep; by rewrite ?E1, ?E2 in Hstep.
  - assert (Hs : o_sink o' = o_sink o).
    { destruct a as [err buf|err|err]; cbn [outStep] in Hstep; destruct (getPump err o); try done.
      - destruct (_ <=? _); [|done]. by injection Hstep as <-.
      - injection Hstep as <-. case_bool_decide; [done|]. cbn [setPump onSink o_sink sinkStep].
        by apply write_stopped.
      - by injection Hstep as <-. }
    split; [|done]. right. by rewrite Hs.
Qed.

(** Otherwise a pump only adds data. *)
Lemma outStep_data a o o' :
  outStep emit a o = Some o' ->
  exists cs, sent (o_sink o') = sent (o_sink o) ++ cs /\ Forall (fun c => c_EOF c.1 = false) cs.
Proof.
  assert (Hsame : forall s : chunkSink, exists cs, sent s = sent s ++ cs /\ Forall (fun c => c_EOF c.1 = false) cs)
    by (intros s; exists []; by rewrite app_nil_r).
  destruct a as [err buf|err|err]; cbn [outStep]; destruct (getPump err o) as [|b|]; try done.
  - destruct (_ <=? _); [|done]. intros [= <-]. apply Hsame.
  - intros [= <-]. case_bool_decide; [apply Hsame|]. cbn [setPump onSink o_sink sinkStep].
    destruct (write_sent emit (o_sink o) (streamName err) b) as (cs & H1 & H2 & _). by exists cs.
  - intros [= <-]. apply Hsame.
Qed.
End output.

(** ** A run *)

Definition resultsOf (evs : list runEvent) : list Result :=
  flat_map (fun e => match e with RResult r => [r] | _ => [] end) evs.

(** Where a result comes from: how the child ended, and the reason in the box
    when it was read, with what the reason attests. *)
Definition attested (r : run) (b : bytes) : Prop :=
  b = [] \/ (b = StatusTimeout /\ rn_timer r <= rn_now r) \/
  (b = StatusCancelled /\ (rn_ctx r = true \/ rn_asked r = true)).

(** An aborted job failed with -1. *)
Definition honest (aborted : bool) (acts : list runAction) (r : run) (res : Result) : Prop :=
  if aborted then jr_Status res = StatusFailed /\ jr_ExitCode res = -1
  else exists w b, AExit w ∈ acts /\ attested r b /\
         jr_Status res = jr_Status (result w b) /\ jr_ExitCode res = jr_ExitCode (result w b).

Section run.
Context (emit : nat -> option error) (job : JobSpec) (window : Z) (aborted : bool).

(** What the goroutine of [Run] knows in each phase. *)
Definition phase_ok (acts : list runAction) (r : run) : Prop :=
  match rn_phase r with
  | InWait => aborted = false
  | Draining w _ | Collecting w => AExit w ∈ acts /\ aborted = false
  | Leaving res | Stamping res => honest aborted acts r res
  | EndingOut res | EndingErr res | Publishing res | Finished res =>
      honest aborted acts r res /\ jr_Truncated res = truncated (o_sink (rn_output r)) /\ jr_EntryID res = EntryID job
  end.

Record run_inv (acts : list runAction) (r : run) : Prop := {
  ri_out : out_inv emit job (rn_output r);
  ri_box : attested r (rn_box r);
  ri_quiet : pastDrain (rn_phase r) = true -> quiet (rn_output r);
  ri_closed : closedBy (endsSent (rn_phase r)) (sent (o_sink (rn_output r)));
  ri_phase : phase_ok acts r;
  ri_events : resultsOf (rn_events r) = match rn_phase r with Finished res => [res] | _ => [] end;
}.

Lemma closedBy_data cs cs' : closedBy 0 cs -> Forall (fun c => c_EOF c.1 = false) cs' -> closedBy 0 (cs ++ cs').
Proof.
  intros (data & ends & -> & Hd & He) Hc. destruct ends; [|done]. exists (data ++ cs'), [].
  rewrite !app_nil_r. split_and!; [done| |done]. by apply Forall_app.
Qed.

Lemma closedBy_eof n s stream :
  take (S n) [(StreamStdout, true); (StreamStderr, true)] =
    take n [(StreamStdout, true); (StreamStderr, true)] ++ [(stream, true)] ->
  closedBy n (sent s) -> closedBy (S n) (sent (sinkStep emit s (OEof stream))).
Proof.
  intros Hn (data & ends & Hs & Hd & He). cbn [sinkStep eof send snd sent].
  match goal with |- closedBy _ (_ ++ [?c]) => exists data, (ends ++ [c]) end.
  rewrite Hs, <- app_assoc, map_app, He, Hn. done.
Qed.

(** What only grows keeps an attested reason attested. *)
Lemma attested_mono r r' b :
  rn_timer r' = rn_timer r -> rn_now r <= rn_now r' -> (rn_ctx r = true -> rn_ctx r' = true) ->
  (rn_asked r = true -> rn_asked r' = true) -> attested r b -> attested r' b.
Proof. intros Ht Hn Hc Ha [?|[[? ?]|[? [?|?]]]]; [by left|right; left; split; [done|lia]|right; right; auto..]. Qed.

Lemma honest_mono acts a r r' res :
  rn_timer r' = rn_timer r -> rn_now r <= rn_now r' -> (rn_ctx r = true -> rn_ctx r' = true) ->
  (rn_asked r = true -> rn_asked r' = true) -> honest aborted acts r res -> honest aborted (acts ++ [a]) r' res.
Proof.
  intros Ht Hn Hc Ha. unfold honest. destruct aborted; [done|].
  intros (w & b & Hw & Hb & Hs & Hx). exists w, b. split_and!; [|by eapply attested_mono|done|done].
  apply elem_of_app. by left.
Qed.

(** A step that leaves the phase, the output and the events alone. *)
Lemma run_inv_aside acts a r r' :
  rn_timer r' = rn_timer r -> rn_now r <= rn_now r' -> (rn_ctx r = true -> rn_ctx r' = true) ->
  (rn_asked r = true -> rn_asked r' = true) -> rn_phase r' = rn_phase r -> rn_output r' = rn_output r ->
  rn_events r' = rn_events r -> attested r' (rn_box r') -> run_inv acts r -> run_inv (acts ++ [a]) r'.
Proof.
  intros Ht Hn Hc Ha Hp Ho He Hb [Iout _ Iq Ic Ip Ie].
  constructor; rewrite ?Hp, ?Ho, ?He; try done. unfold phase_ok in *. rewrite Hp, Ho.
  assert (Hm : forall res, honest aborted acts r res -> honest aborted (acts ++ [a]) r' res) by (intros; by eapply honest_mono).
  destruct (rn_phase r); auto; try (destruct Ip as (? & ? & ?); by auto).
  all: destruct Ip; split; [apply elem_of_app; by left|done].
Qed.

Lemma kill_same why r :
  rn_timer (kill why r) = rn_timer r /\ rn_now (kill why r) = rn_now r /\ rn_ctx (kill why r) = rn_ctx r /\
  rn_asked (kill why r) = rn_asked r /\ rn_phase (kill why r) = rn_phase r /\
  rn_output (kill why r) = rn_output r /\ rn_events (kill why r) = rn_events r /\
  (rn_box (kill why r) = rn_box r \/ rn_box (kill why r) = why).
Proof. unfold kill, reason_set. case_bool_decide; cbn; tauto. Qed.

Lemma run_inv_kill acts a why r r0 :
  rn_timer r0 = rn_timer r -> rn_now r0 = rn_now r -> rn_ctx r0 = rn_ctx r ->
  (rn_asked r = true -> rn_asked r0 = true) -> rn_phase r0 = rn_phase r -> rn_output r0 = rn_output r ->
  rn_events r0 = rn_events r -> rn_box r0 = rn_box r -> attested r0 why ->
  run_inv acts r -> run_inv (acts ++ [a]) (kill why r0).
Proof.
  intros Ht Hn Hc Ha Hp Ho He Hb Hw Hinv.
  destruct (kill_same why r0) as (Kt & Kn & Kc & Ka & Kp & Ko & Ke & Kb).
  apply (run_inv_aside acts a r); rewrite ?Kt, ?Kn, ?Kc, ?Ka, ?Kp, ?Ko, ?Ke; try done; try lia; try congruence.
  assert (Hm : forall b, attested r0 b -> attested (kill why r0) b).
  { intros b. apply attested_mono; [done|rewrite Kn; lia|by rewrite Kc|by rewrite Ka]. }
  apply Hm. destruct Kb as [->| ->]; [|done]. rewrite Hb.
  apply (attested_mono r); [done|lia|by rewrite Hc|done|apply Hinv].
Qed.

(** A step that moves [Run] on. *)
Ltac moves := constructor; cbn [set_phase set_output set_registered logEvents rn_output rn_phase rn_box rn_events];
  try done; try (unfold phase_ok in *; cbn [set_phase set_output set_registered logEvents rn_output rn_phase] in *).

Lemma run_inv_out acts a r o :
  outStep emit a (rn_output r) = Some o -> run_inv acts r -> run_inv (acts ++ [AOut a]) (set_output o r).
Proof.
  intros E [Iout Ibox Iq Ic Ip Ie].
  assert (Hq : pastDrain (rn_phase r) = true -> quiet o /\ o_sink o = o_sink (rn_output r)).
  { intros Hp. by eapply outStep_quiet, Iq. }
  assert (Hm : forall res, honest aborted acts r res -> honest aborted (acts ++ [AOut a]) (set_output o r) res).
  { intros res. by apply honest_mono. }
  moves.
  - by eapply outStep_inv.
  - intros Hp. by apply Hq.
  - destruct (rn_phase r) eqn:Ep; cbn [endsSent pastDrain] in *; try (destruct Hq as [_ ->]; [done|done]);
      destruct (outStep_data _ _ _ _ E) as (cs & -> & Hcs); by apply closedBy_data.
  - destruct (rn_phase r) eqn:Ep; cbn [pastDrain] in *; auto;
      try (destruct Ip; split; [apply elem_of_app; by left|done]);
      destruct Hq as [_ ->]; try done; destruct Ip as (? & ? & ?); auto.
Qed.

Lemma runStep_inv acts a r r' :
  runStep emit job window a r = Some r' -> run_inv acts r -> run_inv (acts ++ [a]) r'.
Proof.
  intros Hstep Hinv. assert (Hinv' := Hinv). destruct Hinv' as [Iout Ibox Iq Ic Ip Ie].
  assert (Hsnoc : forall w : waitResult, AExit w ∈ acts /\ aborted = false -> AExit w ∈ acts ++ [a] /\ aborted = false)
    by (intros w [? ?]; split; [apply elem_of_app; by left|done]).
  assert (Hm : forall r', rn_timer r' = rn_timer r -> rn_now r' = rn_now r -> rn_ctx r' = rn_ctx r ->
    rn_asked r' = rn_asked r -> forall res, honest aborted acts r res -> honest aborted (acts ++ [a]) r' res).
  { intros r1 H1 H2 H3 H4 res. apply honest_mono; [done|lia|by rewrite H3|by rewrite H4]. }
  destruct a as [dt| | | | | |a|w| | | | | | | |]; cbn [runStep] in Hstep.
  - injection Hstep as <-. eapply run_inv_aside; try exact Hinv; try done; cbn; [lia|].
    apply (attested_mono r); try done; cbn; lia.
  - injection Hstep as <-. eapply run_inv_aside; try exact Hinv; try done.
    apply (attested_mono r); done.
  - injection Hstep as <-. unfold Cancel. destruct (rn_registered r) eqn:E; cbn [snd].
    + eapply run_inv_kill; try exact Hinv; try done. right; right. split; [done|by right].
    + eapply run_inv_aside; try exact Hinv; done.
  - destruct (_ && _); [|done]. injection Hstep as <-. eapply run_inv_aside; try exact Hinv; done.
  - destruct (rn_watching r && _) eqn:E; [|done]. injection Hstep as <-.
    eapply run_inv_kill; try exact Hinv; try done. right; left. split; [done|]. cbn.
    apply andb_true_iff in E as [_ E]. lia.
  - destruct (rn_watching r && _) eqn:E; [|done]. injection Hstep as <-.
    eapply run_inv_kill; try exact Hinv; try done. right; right. split; [done|left].
    by apply andb_true_iff in E as [_ E].
  - destruct (outStep emit a (rn_output r)) as [o|] eqn:E; [|done]. injection Hstep as <-. by eapply run_inv_out.
  - destruct (rn_phase r) eqn:Ep; try done. injection Hstep as <-. moves.
    split; [apply elem_of_app; right; by apply list_elem_of_singleton|]. unfold phase_ok in Ip. by rewrite Ep in Ip.
  - destruct (rn_phase r) eqn:Ep; try done. destruct (pumpsEnded _) eqn:E; [|done]. injection Hstep as <-.
    unfold phase_ok in Ip; rewrite Ep in Ip. moves; [by left|by apply Hsnoc].
  - destruct (rn_phase r) eqn:Ep; try done. destruct (_ <=? _) eqn:E; [|done]. injection Hstep as <-.
    unfold phase_ok in Ip; rewrite Ep in Ip. moves; [by apply out_inv_stop|by right|by apply Hsnoc].
  - destruct (rn_phase r) eqn:Ep; try done. injection Hstep as <-.
    unfold phase_ok in Ip; rewrite Ep in Ip. moves.
    unfold honest. destruct (Hsnoc _ Ip) as [Hw ->]. by exists w, (rn_box r).
  - destruct (rn_phase r) as [| | |res| | | | |] eqn:Ep; try done. injection Hstep as <-.
    unfold phase_ok in Ip; rewrite Ep in Ip. moves. by apply Hm.
  - destruct (rn_phase r) as [| | | |res| | | |] eqn:Ep; try done. injection Hstep as <-.
    unfold phase_ok in Ip; rewrite Ep in Ip. moves. split_and!; [|done|done].
    by apply (Hm (set_phase _ _)).
  - destruct (rn_phase r) as [| | | | |res| | |] eqn:Ep; try done. injection Hstep as <-.
    unfold phase_ok in Ip; rewrite Ep in Ip. destruct Ip as (? & ? & ?).
    moves; [by apply out_inv_eof|by apply (closedBy_eof 0)|].
    split_and!; [|done|done]. by apply Hm.
  - destruct (rn_phase r) as [| | | | | |res| |] eqn:Ep; try done. injection Hstep as <-.
    unfold phase_ok in Ip; rewrite Ep in Ip. destruct Ip as (? & ? & ?).
    moves; [by apply out_inv_eof|by apply (closedBy_eof 1)|].
    split_and!; [|done|done]. by apply Hm.
  - destruct (rn_phase r) as [| | | | | | |res|] eqn:Ep; try done. injection Hstep as <-.
    unfold phase_ok in Ip; rewrite Ep in Ip. destruct Ip as (? & ? & ?).
    moves; [split_and!; [|done|done]; by apply Hm|].
    unfold resultsOf in *. rewrite flat_map_app, Ie. done.
Qed.

Lemma runSteps_inv acts r0 r :
  run_inv [] r0 -> runSteps emit job window acts r0 = Some r -> run_inv acts r.
Proof.
  intros H0. revert r. induction acts as [|a acts IH] using rev_ind; intros r Hr; [by injection Hr as <-|].
  unfold runSteps in Hr. rewrite foldl_snoc in Hr.
  fold (runSteps emit job window acts r0) in Hr.
  destruct (runSteps emit job window acts r0) as [r1|]; [|done]. eapply runStep_inv; [done|by apply IH].
Qed.
End run.

Lemma startRun_inv emit job path ctx started now : run_inv emit job false [] (startRun job path ctx started now).
Proof.
  constructor; cbn; [|by left|done| |done|done].
  - constructor; cbn; [done|by intros _ ?%elem_of_nil|by intros _ []|done].
  - exists [], []. done.
Qed.

Lemma abortRun_inv emit job text e ctx started now : run_inv emit job true [] (abortRun emit job text e ctx started now).
Proof.
  destruct (write_sent emit (newChunkSink (JobID job) (EntryID job)) StreamStderr
    (str "everwas-agent: " ++ text e ++ [nl])) as (cs & Hcs & Hd & Hst).
  constructor; [|by left| | |done|done].
  - set (p := str "everwas-agent: " ++ text e ++ [nl]) in *.
    constructor; [done| | |]; cbn [abortRun rn_output abort startOutput onSink hasRead o_sink o_ops o_read o_out o_err];
      fold p.
    + intros _ ?%list_elem_of_singleton. done.
    + intros _ e'. cbn [offered app]. rewrite app_nil_r.
      replace (held (getPump e' _)) with (@nil ascii) by by destruct e'. by rewrite app_nil_r.
    + intros _. cbn [offered app held map]. by rewrite !app_nil_r.
  - intros _. by left.
  - cbn [abortRun rn_output rn_phase endsSent abort startOutput onSink hasRead o_sink sinkStep]. rewrite Hcs.
    exists cs, []. by rewrite app_nil_r.
Qed.

(** ** What a run reports *)

(** The statuses a child that ended with [w] can be reported with. *)
Definition reportedAs (r : run) (w : waitResult) (status : bytes) (exit : Z) : Prop :=
  (status = StatusSucceeded /\ exit = 0 /\ (w = WaitOk \/ w = WaitExit 0)) \/
  (status = StatusFailed /\ exit ≠ 0 /\ (w = WaitExit exit \/ w = WaitOther /\ exit = -1)) \/
  (status = StatusTimeout /\ exit ≠ 0 /\ rn_timer r <= rn_now r) \/
  (status = StatusCancelled /\ exit ≠ 0 /\ (rn_ctx r = true \/ rn_asked r = true)).

Lemma result_reported r w b : attested r b -> reportedAs r w (jr_Status (result w b)) (jr_ExitCode (result w b)).
Proof.
  unfold reportedAs. intros [->|[[-> Ht]|[-> Hc]]].
  - destruct w as [|c|]; unfold result; cbn.
    + left. auto.
    + destruct (Z.eqb_spec c 0) as [->|Hc]; cbn; [left; auto|right; left; auto].
    + right; left. split_and!; [done|done|by right].
  - right; right; left. unfold result. cbn. split_and!; [done| |done].
    destruct w as [|c|]; cbn; [done|destruct (Z.eqb_spec c 0); done|done].
  - right; right; right. unfold result. cbn. split_and!; [done| |done].
    destruct w as [|c|]; cbn; [done|destruct (Z.eqb_spec c 0); done|done].
Qed.

Lemma runSteps_timer emit job window acts r r' :
  runSteps emit job window acts r = Some r' -> rn_timer r' = rn_timer r.
Proof.
  revert r'. induction acts as [|a acts IH] using rev_ind; intros r' Hr; [by injection Hr as <-|].
  unfold runSteps in Hr. rewrite foldl_snoc in Hr. fold (runSteps emit job window acts r) in Hr.
  destruct (runSteps emit job window acts r) as [r1|]; [|done]. rewrite <- (IH r1 eq_refl).
  assert (Hk : forall why r, rn_timer (kill why r) = rn_timer r) by (intros why r2; apply (kill_same why r2)).
  destruct a; cbn [runStep] in Hr; unfold Cancel in Hr;
    repeat match type of Hr with
    | context [match ?x with _ => _ end] => destruct x
    end; try done; injection Hr as <-; cbn [snd]; rewrite ?Hk; done.
Qed.

(** C7: A script job is reported once, truthfully, and after its output.  Whatever
    the script does, whoever cancels it when, and in whatever order the
    goroutines run, a finished job has published exactly one result; the
    result's status and exit code are those of the child that exited, or name a
    timeout that had passed or a cancellation that was asked for; every chunk
    of output precedes the two end markers; and the result carries the job's
    schedule entry and says whether output was cut. *)
Theorem run_reports_once_and_truthfully emit job window path ctx started now acts r res :
  runSteps emit job window acts (startRun job path ctx started now) = Some r ->
  rn_phase r = Finished res ->
  resultsOf (rn_events r) = [res] /\
  closedBy 2 (sent (o_sink (rn_output r))) /\
  (exists w, AExit w ∈ acts /\ reportedAs r w (jr_Status res) (jr_ExitCode res)) /\
  rn_timer r = now + jobTimeout (TimeoutS job) /\
  jr_EntryID res = EntryID job /\ jr_Truncated res = isTruncated (o_sink (rn_output r)).
Proof.
  intros Hr Hp. pose proof (runSteps_timer _ _ _ _ _ _ Hr) as Ht.
  apply (runSteps_inv emit job window false) in Hr as [_ _ _ Ic Ip Ie]; [|apply startRun_inv].
  unfold phase_ok in Ip. rewrite Hp in *. destruct Ip as ((w & b & Hw & Hb & Hs & Hx) & Htr & Hen).
  split_and!; try done. exists w. split; [done|]. rewrite Hs, Hx. by apply result_reported.
Qed.

(** A job that never got a process is reported too: as failed with -1, with
    the reason on standard error before the end markers. *)
Theorem aborted_job_is_reported emit job window text e ctx started now acts r res :
  runSteps emit job window acts (abortRun emit job text e ctx started now) = Some r ->
  rn_phase r = Finished res ->
  resultsOf (rn_events r) = [res] /\ jr_Status res = StatusFailed /\ jr_ExitCode res = -1 /\
  jr_EntryID res = EntryID job /\ closedBy 2 (sent (o_sink (rn_output r))).
Proof.
  intros Hr Hp. apply (runSteps_inv emit job window true) in Hr as [_ _ _ Ic Ip Ie]; [|apply abortRun_inv].
  unfold phase_ok in Ip. rewrite Hp in *. destruct Ip as ([Hs Hx] & _ & Hen). done.
Qed.

(** *** The result does not wait for the pipes *)

(** The steps of the goroutine of [Run] itself, once the child is gone. *)
Definition finishing : list runAction := [ADrainTimeout; ACollect; ALeave; AStamp; AEndOut; AEndErr; APublish].

Definition own (a : runAction) : bool :=
  match a with
  | AExit _ | ADrained | ADrainTimeout | ACollect | ALeave | AStamp | AEndOut | AEndErr | APublish => true
  | _ => false
  end.

Lemma others_keep_the_phase emit job window a r r' :
  own a = false -> runStep emit job window a r = Some r' -> rn_phase r' = rn_phase r /\ rn_now r <= rn_now r'.
Proof.
  assert (Hk : forall why r, rn_phase (kill why r) = rn_phase r /\ rn_now (kill why r) = rn_now r).
  { intros why r2. by destruct (kill_same why r2) as (_ & ? & _ & _ & ? & _). }
  destruct a as [dt| | | | | |a|w| | | | | | | |]; cbn [own runStep]; try done; intros _ Hs.
  - injection Hs as <-. cbn. split; [done|lia].
  - injection Hs as <-. cbn. split; [done|lia].
  - injection Hs as <-. unfold Cancel. destruct (rn_registered r); cbn [snd]; [|split; [done|lia]].
    destruct (Hk StatusCancelled (set_asked r)) as [-> ->]. cbn. split; [done|lia].
  - destruct (_ && _); [|done]. injection Hs as <-. cbn. split; [done|lia].
  - destruct (_ && _); [|done]. injection Hs as <-.
    destruct (Hk StatusTimeout (stopWatching r)) as [-> ->]. cbn. split; [done|lia].
  - destruct (_ && _); [|done]. injection Hs as <-.
    destruct (Hk StatusCancelled (stopWatching r)) as [-> ->]. cbn. split; [done|lia].
  - destruct (outStep _ _ _); [|done]. injection Hs as <-. cbn. split; [done|lia].
Qed.

(** A job whose child is gone is reported within the drain window.  Once
    [cmd.Wait] has returned and the window is over, [Run] can finish by its own
    steps alone, whatever the pumps, the watcher and the pipes are doing; and
    no step of anyone else takes that away.  A descendant that keeps the pipe
    open cannot keep the job running. *)
Theorem finished_child_is_reported emit job window r w until :
  rn_phase r = Draining w until ->
  (until <= rn_now r -> exists r' res, runSteps emit job window finishing r = Some r' /\ rn_phase r' = Finished res) /\
  (forall a r', own a = false -> runStep emit job window a r = Some r' ->
     rn_phase r' = Draining w until /\ rn_now r <= rn_now r').
Proof.
  intros Hp. split.
  - intros Hu. unfold runSteps, finishing. cbn [foldl runStep]. rewrite Hp.
    destruct (Z.leb_spec until (rn_now r)); [|lia]. cbn [runStep set_phase rn_phase]. eauto.
  - intros a r' Ho Hs. rewrite <- Hp. by eapply others_keep_the_phase.
Qed.

(** The window is what the code says it is: [finishing] is enabled that long
    after the child's exit. *)
Lemma exit_opens_the_window emit job window w r r' :
  runStep emit job window (AExit w) r = Some r' -> rn_phase r' = Draining w (rn_now r + window).
Proof. cbn [runStep]. destruct (rn_phase r); try done. by intros [= <-]. Qed.

(** *** Output *)

Lemma onStream_take_all s l n : (length l <= n)%nat -> onStream s (take n l) = onStream s l.
Proof. intros. by rewrite take_ge. Qed.

(** A job whose pipes closed in time loses no output.  When the pumps returned
    within the window and the connection took every chunk, the server received,
    on each stream and in order, exactly the bytes read from it, if all of them
    together are within the cap; beyond the cap the result says so. *)
Theorem drained_job_loses_no_output job window path ctx started now acts r res :
  runSteps (fun _ => None) job window acts (startRun job path ctx started now) = Some r ->
  rn_phase r = Finished res -> stopped (o_sink (rn_output r)) = false ->
  let read := o_read (rn_output r) in
  jr_Truncated res = (MaxJobOutputBytes <? Z.of_nat (length read)) /\
  (jr_Truncated res = false -> forall err,
     onStream (streamName err) (tagged (sent (o_sink (rn_output r)))) = onStream (streamName err) read).
Proof.
  intros Hr Hp Hst read.
  apply (runSteps_inv (fun _ => None) job window false) in Hr as [Io _ Iq _ Ip _]; [|apply startRun_inv].
  unfold phase_ok in Ip. rewrite Hp in *. destruct Ip as (_ & Htr & _). destruct Io as [Hs _ Ho Ha].
  specialize (Ho Hst). specialize (Ha Hst).
  destruct (sink_delivers_the_capped_output (JobID job) (EntryID job) (o_ops (rn_output r))) as [Hd Hcut].
  rewrite <- Hs in Hd, Hcut. unfold isTruncated in Hcut.
  assert (Hheld : o_out (rn_output r) = PumpEnded /\ o_err (rn_output r) = PumpEnded).
  { destruct (Iq eq_refl) as [Hq|Hq]; [|congruence]. unfold pumpsEnded in Hq.
    by destruct (o_out (rn_output r)), (o_err (rn_output r)). }
  destruct Hheld as [E1 E2]. rewrite E1, E2 in Ha. cbn [held map] in Ha. rewrite !app_nil_r in Ha.
  unfold read. rewrite (Permutation_length Ha), Htr, Hcut. split; [done|].
  intros Hle%Z.ltb_ge err. rewrite Hd, onStream_take_all by lia. rewrite <- (Ho err).
  replace (held (getPump err (rn_output r))) with (@nil ascii) by (destruct err; cbn [getPump]; by rewrite ?E1, ?E2).
  by rewrite app_nil_r.
Qed.

(** *** A cancellation after the end *)

Definition demoJob : JobSpec :=
  {| JobID := str "3f0e"; Kind := KindScriptRun; Shell := str "bash"; js_Body := str "systemctl restart x";
     TimeoutS := 60; js_Env := ∅; RequestedBy := str "op"; EntryID := [] |}.

(** The child exits with 0 while a daemon it started keeps the pipe open; the
    operator's cancel arrives inside the window. *)
Definition lateCancel : list runAction :=
  [AExit WaitOk; AWatchDone; APass 1000000000; ACancel; APass 2000000000] ++ finishing.

(** A script that has exited with 0 can be reported cancelled.  The job stays
    registered until the drain window is over, so a [Cancel] that arrives
    between the child's exit and the end of the window answers that it stopped
    the job, the result says cancelled with -1 although the script had
    succeeded, and the signal goes to the group of a process that has already
    been reaped, whose number the system may have given away. *)
Theorem finished_script_can_be_reported_cancelled :
  exists r res,
    runSteps (fun _ => None) demoJob DefaultDrainGrace lateCancel (startRun demoJob (str "/bin/bash") false 0 0) = Some r /\
    rn_phase r = Finished res /\ AExit WaitOk ∈ lateCancel /\
    jr_Status res = StatusCancelled /\ jr_ExitCode res = -1 /\ rn_kills r = [true].
Proof.
  set (o := runSteps _ _ _ _ _). vm_compute in o. subst o.
  eexists _, _. split; [reflexivity|]. split; [reflexivity|]. split_and!; try done. unfold lateCancel. cbn.
  by left.
Qed.

(** ** Where a job's script is staged *)

Lemma MapRunes_Forall (P : ascii -> Prop) f other fuel s :
  (forall c, P (f c)) -> P other -> Forall P (MapRunes f other fuel s).
Proof.
  intros Hf Ho. revert s. induction fuel as [|fuel IH]; intros [|c s]; cbn [MapRunes]; [constructor..|].
  constructor; [by destruct (_ <? _)|apply IH].
Qed.

Lemma rune_width_ascii c s : code c < 128 -> rune_width (c :: s) = 1%nat.
Proof.
  intros Hc. unfold rune_width. cbn [map].
  destruct (Z.leb_spec 194 (code c)); [lia|]. destruct (Z.leb_spec 224 (code c)); [lia|].
  by destruct (Z.leb_spec 240 (code c)); [lia|].
Qed.

Lemma MapRunes_ascii f other s : Forall (fun c => code c < 128) s -> MapRunes f other (length s) s = map f s.
Proof.
  induction 1 as [|c s Hc _ IH]; [done|]. cbn [length MapRunes map]. rewrite rune_width_ascii by done.
  destruct (Z.ltb_spec (code c) 128); [|lia]. change (drop 1 (c :: s)) with s. by rewrite IH.
Qed.

Lemma safeChar_ascii c : safeChar c = true -> code c < 128.
Proof. destruct c as [[] [] [] [] [] [] [] []]; vm_compute; congruence. Qed.

Lemma safeChar_id c : idChar c = true -> safeChar c = true.
Proof. destruct c as [[] [] [] [] [] [] [] []]; vm_compute; congruence. Qed.

Lemma trimLeft_suffix c s : exists k, trimLeftChar c s = drop k s.
Proof.
  induction s as [|x s [k IH]]; [by exists 0%nat|]. cbn [trimLeftChar].
  case_bool_decide; [by exists (S k)|by exists 0%nat].
Qed.

Lemma trimLeft_Forall (P : ascii -> Prop) c s : Forall P s -> Forall P (trimLeftChar c s).
Proof. intros H. destruct (trimLeft_suffix c s) as [k ->]. by apply Forall_drop. Qed.

Lemma trimLeft_head c s x s' : trimLeftChar c s = x :: s' -> x ≠ c.
Proof.
  induction s as [|y s IH]; cbn [trimLeftChar]; [done|]. case_bool_decide; [done|]. by intros [= <- _].
Qed.

Lemma trimLeft_other c s : head s ≠ Some c -> trimLeftChar c s = s.
Proof. destruct s as [|x s]; [done|]. intros H. cbn [trimLeftChar]. rewrite bool_decide_eq_false_2; [done|]. by intros ->. Qed.

(** A trimmed name does not begin with a dot. *)
Lemma trimDots_head s x s' : trimDots s = x :: s' -> x ≠ "."%char.
Proof.
  unfold trimDots. destruct (trimLeftChar "." s) as [|y t] eqn:E; [done|].
  apply trimLeft_head in E as Hy. cbn [rev].
  destruct (trimLeft_suffix "." (rev t ++ [y])) as [k Hk]. rewrite Hk.
  destruct (decide (k <= length (rev t))%nat) as [Hle|Hgt].
  - rewrite drop_app_le by done. rewrite rev_app_distr. cbn [rev app]. by intros [= <- _].
  - rewrite drop_ge by (rewrite length_app; cbn; lia). done.
Qed.

(** A staging directory is one name.  Whatever the job id is, its directory's
    name is not empty, has at most 96 characters, all of them letters, digits,
    dashes, underscores and dots, and does not begin with a dot: it holds no
    separator, no colon and no drive, and it is neither the directory itself
    nor its parent. *)
Theorem safeName_is_one_name jobID :
  safeName jobID ≠ [] /\ (length (safeName jobID) <= 96)%nat /\
  Forall (fun c => safeChar c = true) (safeName jobID) /\ head (safeName jobID) ≠ Some "."%char.
Proof.
  set (b := MapRunes (fun r => if safeChar r then r else "_"%char) "_"%char (length jobID) jobID).
  assert (Hb : Forall (fun c => safeChar c = true) b).
  { apply MapRunes_Forall; [|done]. intros c. by destruct (safeChar c) eqn:E. }
  assert (Ht : Forall (fun c => safeChar c = true) (trimDots b)).
  { unfold trimDots. apply Forall_rev, trimLeft_Forall, Forall_rev, trimLeft_Forall, Hb. }
  assert (Hn : exists name, name ≠ [] /\ Forall (fun c => safeChar c = true) name /\ head name ≠ Some "."%char /\
    safeName jobID = if (96 <? length name)%nat then take 96 name else name).
  { unfold safeName. fold b. case_bool_decide as Hd; [by exists (str "job"); repeat constructor|].
    exists (trimDots b). split_and!; [done|done| |done].
    destruct (trimDots b) as [|x s'] eqn:E; [done|]. apply trimDots_head in E. cbn. congruence. }
  destruct Hn as (name & Hne & Hf & Hh & ->). destruct name as [|x name]; [done|].
  destruct (Nat.ltb_spec 96 (length (x :: name))) as [Hl|Hl]; [|split_and!; done || lia].
  split_and!; [done|rewrite length_take; lia|by apply Forall_take|done].
Qed.

Lemma trimDots_plain s : head s ≠ Some "."%char -> head (rev s) ≠ Some "."%char -> trimDots s = s.
Proof. intros H1 H2. unfold trimDots. rewrite (trimLeft_other _ s), (trimLeft_other _ (rev s)) by done. apply rev_involutive. Qed.

(** The name of an accepted identifier is the identifier, cut at 96. *)
Lemma safeName_identifier id : ValidIdentifier id = None -> safeName id = take 96 id.
Proof.
  intros (Hl & Hc & Ht)%ValidIdentifier_None.
  assert (Hs : Forall (fun c => safeChar c = true) id) by (eapply Forall_impl; [exact Hc|apply safeChar_id]).
  assert (Hm : MapRunes (fun r => if safeChar r then r else "_"%char) "_"%char (length id) id = id).
  { rewrite MapRunes_ascii by (eapply Forall_impl; [exact Hs|apply safeChar_ascii]).
    clear -Hs. induction Hs as [|c s Hc _ IH]; [done|]. cbn [map]. by rewrite Hc, IH. }
  assert (Hends : forall a b, id ≠ a ++ "."%char :: b \/ (a ≠ [] /\ b ≠ [])).
  { intros a b. destruct (decide (id = a ++ "."%char :: b)) as [->|]; [right|by left].
    rewrite Split_app_sep, Forall_app in Ht. destruct Ht as [Ha Hb].
    split; intros ->; [by apply Forall_inv in Ha|by apply Forall_inv in Hb]. }
  unfold safeName. rewrite Hm, trimDots_plain.
  - rewrite bool_decide_eq_false_2 by (intros ->; cbn in Hl; lia).
    destruct (Nat.ltb_spec 96 (length id)); [done|]. by rewrite take_ge.
  - destruct id as [|x id]; [done|]. intros [= ->]. destruct (Hends [] id) as [?|[? _]]; done.
  - intros Hh. destruct (rev id) as [|x s] eqn:E; [done|]. injection Hh as ->.
    assert (Hid : id = rev s ++ ["."%char]) by (rewrite <- (rev_involutive id), E; done).
    destruct (Hends (rev s) []) as [?|[_ ?]]; done.
Qed.

(** Accepted job ids of at most 96 characters have directories of their own;
    two longer ones, up to the 128 that are accepted, share one when they agree
    on the first 96, and then the end of either job deletes the other's script
    while it runs. *)
Theorem work_dirs_are_separate_up_to_96 stateDir tempDir :
  (forall a b, ValidIdentifier a = None -> ValidIdentifier b = None ->
     (length a <= 96)%nat -> (length b <= 96)%nat ->
     workDir stateDir tempDir a = workDir stateDir tempDir b -> a = b) /\
  (exists a b, ValidIdentifier a = None /\ ValidIdentifier b = None /\ a ≠ b /\
     workDir stateDir tempDir a = workDir stateDir tempDir b).
Proof.
  split.
  - intros a b Ha Hb La Lb H. unfold workDir in H. apply Join_inj in H.
    rewrite !safeName_identifier in H by done. by rewrite !take_ge in H by done.
  - set (a := replicate 96 "a"%char ++ str "1"). set (b := replicate 96 "a"%char ++ str "2").
    assert (Ha : ValidIdentifier a = None) by (vm_compute; reflexivity).
    assert (Hb : ValidIdentifier b = None) by (vm_compute; reflexivity).
    exists a, b. split_and!; [done|done|by vm_compute|]. unfold workDir.
    rewrite (safeName_identifier a Ha), (safeName_identifier b Hb). done.
Qed.

(** ** What a job leaves on disk *)

Lemma chosen_keys (f : path -> bool) (d : disk) (p : path) :
  p ∈ List.filter f (map fst (map_to_list d)) <-> f p = true /\ is_Some (d !! p).
Proof.
  rewrite list_elem_of_In, List.filter_In, <- list_elem_of_In.
  assert (Hm : p ∈ map fst (map_to_list d) <-> is_Some (d !! p)).
  { change (map fst (map_to_list d)) with ((map_to_list d).*1). rewrite list_elem_of_fmap. split.
    - intros ([q g] & -> & Hq). apply elem_of_map_to_list in Hq. by exists g.
    - intros [g Hg]. exists (p, g). split; [done|]. by apply elem_of_map_to_list. }
  rewrite Hm. tauto.
Qed.

(** Deleting the files a test chooses leaves the others. *)
Lemma chosen_deleted (f : path -> bool) (d : disk) (p : path) :
  foldr delete d (List.filter f (map fst (map_to_list d))) !! p = if f p then None else d !! p.
Proof.
  destruct (f p) eqn:Hb.
  - destruct (d !! p) as [g|] eqn:Hd.
    + apply lookup_foldr_delete, chosen_keys. by rewrite Hd.
    + rewrite lookup_foldr_delete_not_elem_of; [done|]. rewrite chosen_keys, Hd. by intros [_ []].
  - apply lookup_foldr_delete_not_elem_of. rewrite chosen_keys, Hb. by intros [].
Qed.

(** A complete removal leaves nothing below the directory and everything
    else. *)
Lemma removed_lookup (dir : path) (d : disk) (p : path) :
  foldr delete d (treeOf dir d) !! p = if below dir p then None else d !! p.
Proof. apply chosen_deleted. Qed.

Lemma below_script (stateDir tempDir jobID name : bytes) :
  below (workDir stateDir tempDir jobID) (Join (workDir stateDir tempDir jobID) name) = true.
Proof.
  set (dir := workDir stateDir tempDir jobID).
  assert (Hd : dir ≠ []).
  { unfold dir, workDir. destruct (safeName_is_one_name jobID) as [Hs _].
    destruct (Join _ (str "work")); [exact Hs|discriminate]. }
  unfold below, Join. destruct dir as [|x dir]; [done|]. rewrite HasPrefix_spec. exists name. by rewrite <- app_assoc.
Qed.

(** With no fault, staging leaves the body at its place with its mode. *)
Lemma stageScript_quiet stateDir tempDir jobID body ext d clk ts :
  let dir := workDir stateDir tempDir jobID in
  let script := Join dir (str "script" ++ ext) in
  d !! script = None ->
  stageScript stateDir tempDir jobID body ext (World d clk ts []) =
    (Ret (Ok (dir, script)), World (<[script := File body true 448]> d) clk ts []).
Proof.
  cbv zeta. intros Hd. unfold stageScript, try, bind, MkdirAll, chmodDir, WriteFile, Chmod, syscall, written.
  cbn [faults files clock ticks]. rewrite Hd. rewrite lookup_insert_eq. cbn [f_data f_reg].
  by rewrite insert_insert_eq.
Qed.

(** Nothing of a job is left behind.  When no system call fails, then however
    [execute] ends (empty body, no interpreter, no pipes, no process, or a
    script that ran and wrote whatever it wanted into its directory), no file
    is left below the staging directory; a job that did not run has changed no
    file; and one that did was started on its body, with its interpreter's
    command line and the scrubbed environment. *)
Theorem execute_leaves_nothing_behind windows look environ stateDir tempDir job pipesErr startErr child w out w' :
  faults w = [] -> (forall p, below (workDir stateDir tempDir (JobID job)) p = true -> files w !! p = None) ->
  execute windows look environ stateDir tempDir job pipesErr startErr child w = (Ret out, w') ->
  (forall p, below (workDir stateDir tempDir (JobID job)) p = true -> files w' !! p = None) /\
  match out with
  | Err _ => forall p, files w' !! p = files w !! p
  | Ok c => exists interp, resolveWith windows look (Shell job) = Ok interp /\
      let script := Join (cmd_Dir c) (str "script" ++ in_Ext interp) in
      c = commandFor environ job interp (workDir stateDir tempDir (JobID job)) script /\
      forall p, below (cmd_Dir c) p = false ->
        files w' !! p = child c (<[script := File (js_Body job) true 448]> (files w)) !! p
  end.
Proof.
  intros Hf Hclean. set (dir := workDir stateDir tempDir (JobID job)) in *. unfold execute.
  case_bool_decide; [by intros [= <- <-]|].
  destruct (resolveWith windows look (Shell job)) as [interp|e]; [|by intros [= <- <-]].
  destruct w as [d clk ts fs]. cbn in Hf. subst fs. cbn [files] in *.
  set (script := Join dir (str "script" ++ in_Ext interp)).
  assert (Hb : below dir script = true) by apply below_script.
  unfold try_as, bind. rewrite stageScript_quiet by by apply Hclean. fold dir script.
  assert (Hun : forall p, foldr delete (<[script := File (js_Body job) true 448]> d)
      (treeOf dir (<[script := File (js_Body job) true 448]> d)) !! p = d !! p).
  { intros p. rewrite removed_lookup. destruct (below dir p) eqn:E; [by rewrite Hclean|].
    rewrite lookup_insert_ne; [done|]. intros <-. congruence. }
  destruct pipesErr as [e|]; [|destruct startErr as [e|]]; cbn; intros [= <- <-]; cbn [files].
  - split; [|exact Hun]. intros p Hp. rewrite Hun. by apply Hclean.
  - split; [|exact Hun]. intros p Hp. rewrite Hun. by apply Hclean.
  - split; [intros p Hp; by rewrite removed_lookup, Hp|]. exists interp. split; [done|]. split; [done|].
    intros p Hp. cbn in Hp. by rewrite removed_lookup, Hp.
Qed.

(** ** Witnesses *)

(** A script that prints one line and exits with 3. *)
Definition plainRunActs : list runAction :=
  [AOut (PRead false (str "hello")); AOut (PWrite false); AExit (WaitExit 3); AWatchDone;
   AOut (PStop false); AOut (PStop true); ADrained; ACollect; ALeave; AStamp; AEndOut; AEndErr; APublish].

Definition plainRun : option run :=
  runSteps (fun _ => None) demoJob DefaultDrainGrace plainRunActs (startRun demoJob (str "/bin/bash") false 0 0).

Definition plainEnd : run := default (startRun demoJob [] false 0 0) plainRun.
Definition plainRes : Result := match rn_phase plainEnd with Finished res => res | _ => plainResult [] 0 end.

Lemma plainRun_ends :
  runSteps (fun _ => None) demoJob DefaultDrainGrace plainRunActs (startRun demoJob (str "/bin/bash") false 0 0) =
    Some plainEnd /\
  rn_phase plainEnd = Finished plainRes.
Proof. split; vm_compute; reflexivity. Qed.

Lemma run_reports_once_and_truthfully_witness :
  runSteps (fun _ => None) demoJob DefaultDrainGrace plainRunActs (startRun demoJob (str "/bin/bash") false 0 0) = Some plainEnd /\
  resultsOf (rn_events plainEnd) = [plainRes] /\ jr_Status plainRes = StatusFailed /\ jr_ExitCode plainRes = 3.
Proof.
  split; [exact (proj1 plainRun_ends)|].
  split; [exact (proj1 (run_reports_once_and_truthfully (fun _ => None) demoJob DefaultDrainGrace
    (str "/bin/bash") false 0 0 plainRunActs plainEnd plainRes (proj1 plainRun_ends) (proj2 plainRun_ends)))|].
  split; vm_compute; reflexivity.
Defined.

Lemma drained_job_loses_no_output_witness :
  jr_Truncated plainRes = false /\
  onStream StreamStdout (tagged (sent (o_sink (rn_output plainEnd)))) = map (fun x => (StreamStdout, x)) (str "hello").
Proof.
  assert (Hst : stopped (o_sink (rn_output plainEnd)) = false) by (vm_compute; reflexivity).
  assert (Htr : jr_Truncated plainRes = false) by (vm_compute; reflexivity).
  split; [exact Htr|].
  change StreamStdout with (streamName false) at 1.
  rewrite (proj2 (drained_job_loses_no_output demoJob DefaultDrainGrace (str "/bin/bash") false 0 0
    plainRunActs plainEnd plainRes (proj1 plainRun_ends) (proj2 plainRun_ends) Hst) Htr false).
  vm_compute. reflexivity.
Defined.

(** A daemon keeps both pipes open: the child is gone, nothing was read to the
    end, and the window is over. *)
Definition heldOpen : run :=
  default (startRun demoJob [] false 0 0)
    (runSteps (fun _ => None) demoJob DefaultDrainGrace [AExit WaitOk; APass 3000000000]
       (startRun demoJob (str "/bin/bash") false 0 0)).

Lemma finished_child_is_reported_witness :
  pumpsEnded (rn_output heldOpen) = false /\
  exists r' res, runSteps (fun _ => None) demoJob DefaultDrainGrace finishing heldOpen = Some r' /\
    rn_phase r' = Finished res.
Proof.
  split; [vm_compute; reflexivity|].
  apply (finished_child_is_reported (fun _ => None) demoJob DefaultDrainGrace heldOpen WaitOk (3 * Second));
    [vm_compute; reflexivity|]. vm_compute. discriminate.
Defined.

Lemma execute_leaves_nothing_behind_witness :
  exists c w', execute false (fun c => Some (str "/bin/" ++ c)) [] (str "/var/lib/everwas") (str "/tmp") demoJob None None
    (fun c d => <[Join (cmd_Dir c) (str "out") := File [] true 420]> d) (World ∅ 0 [] []) = (Ret (Ok c), w') /\
  forall p, below (workDir (str "/var/lib/everwas") (str "/tmp") (JobID demoJob)) p = true -> files w' !! p = None.
Proof.
  eexists _, _. split; [reflexivity|].
  refine (proj1 (execute_leaves_nothing_behind false (fun c => Some (str "/bin/" ++ c)) [] (str "/var/lib/everwas")
    (str "/tmp") demoJob None None (fun c d => <[Join (cmd_Dir c) (str "out") := File [] true 420]> d)
    (World ∅ 0 [] []) _ _ eq_refl _ eq_refl)).
  intros p _. apply lookup_empty.
Defined.
