(* ===== verification/Commands.v ===== *)
(** * Commands: the interactive command surface (jobs/commands.go)

    A command arrives on the agent's own subject, is decoded, changes one part
    of the agent and is answered.  [dispatchCommand] is the whole handler over
    the state of every part it can reach: the shell module ([Sessions]), the
    job registry ([Jobs]), the schedule ([Sched]), the update policy
    ([Handlers]) and the credentials ([Credentials]).  The second half is about
    time: the library calls the handler of one subscription for one message
    after the other, so a handler that waits holds up every command behind
    it. *)
From S2P Require Import Prelude GoLib GoText GoOS Wire Swap Tracker Env Scripts Jobs Handlers Heap Sched Shell Sessions.
From S2P Require Import Identity Credentials.

(** ** Replies *)

Record wireReply := {
  wr_Accepted : bool;
  wr_Error : bytes;
  wr_JobID : bytes;
  wr_SessionID : bytes;
  wr_ScheduleVersion : Z;
  wr_Cancelled : option bool;
  wr_Rejected : list Rejection;
}.

Definition ofReply (r : Handlers.reply) : wireReply :=
  {| wr_Accepted := rp_Accepted r; wr_Error := rp_Error r; wr_JobID := rp_JobID r; wr_SessionID := [];
     wr_ScheduleVersion := 0; wr_Cancelled := rp_Cancelled r; wr_Rejected := [] |}.

Definition refusal (err : bytes) : wireReply := ofReply (refuse [] err).

Definition sessionReply (accepted : bool) (sessionID err : bytes) : wireReply :=
  {| wr_Accepted := accepted; wr_Error := err; wr_JobID := []; wr_SessionID := sessionID;
     wr_ScheduleVersion := 0; wr_Cancelled := None; wr_Rejected := [] |}.

Definition schedReply (accepted : bool) (version : Z) (rejected : list Rejection) (err : bytes) : wireReply :=
  {| wr_Accepted := accepted; wr_Error := err; wr_JobID := []; wr_SessionID := [];
     wr_ScheduleVersion := version; wr_Cancelled := None; wr_Rejected := rejected |}.

(** What goes back: the answer of [ping], a reply, or nothing as long as the
    handler waits. *)
Inductive answer : Type :=
  | Pong (version agentID : bytes) (sessions : nat)
  | Replies (r : wireReply)
  | Waiting.

(** ** The state a command can reach *)

Record agent := {
  ag_Shell : Module_;
  ag_Jobs : registry;
  ag_Sched : scheduler;
  ag_Config : Config;
}.

Definition set_Shell (m : Module_) (a : agent) : agent :=
  {| ag_Shell := m; ag_Jobs := ag_Jobs a; ag_Sched := ag_Sched a; ag_Config := ag_Config a |}.
Definition set_Jobs (r : registry) (a : agent) : agent :=
  {| ag_Shell := ag_Shell a; ag_Jobs := r; ag_Sched := ag_Sched a; ag_Config := ag_Config a |}.
Definition set_Sched (s : scheduler) (a : agent) : agent :=
  {| ag_Shell := ag_Shell a; ag_Jobs := ag_Jobs a; ag_Sched := s; ag_Config := ag_Config a |}.
Definition set_Config (c : Config) (a : agent) : agent :=
  {| ag_Shell := ag_Shell a; ag_Jobs := ag_Jobs a; ag_Sched := ag_Sched a; ag_Config := c |}.

(** What the handlers start besides answering. *)
Inductive begun : Type :=
  | StartsSession (h : nat) (s : session)
  | ClosesSession (h : nat)
  | StartsJob (spec : JobSpec)
  | Audits (name : bytes).

Section dispatch.
Context {JC : JSON Config} (e : hostEnv).
Context {L : Type} (UTC : L) (LoadLocation : bytes -> option L) (Parse : bytes -> option (L -> Z -> Z)).
(** The decoders of the payloads, what opening a terminal meets, whether the
    script runner finds a job, what happens to the registry while a
    reservation waits and which ready case it takes, whether the schedule is saved, the clock, the next session object, and the texts of an
    unschedulable entry's and of a failed sync's error. *)
Context (unmarshalEnvelope : bytes -> option Envelope)
  (decodeOpen : bytes -> res bytes OpenSpec) (decodeClose : bytes -> res bytes bytes)
  (decodeCancel : bytes -> res bytes bytes) (decodeDoc : bytes -> res bytes Document)
  (decodeUpdate : bytes -> res bytes (bytes * bytes)) (decodeRotate : bytes -> res bytes bytes).
Context (text : error -> bytes) (pty : option error) (subscribe : bytes -> option error) (scripts : bytes -> bool)
  (others : registry -> registry) (alt saveOk rotationWired : bool) (now : Z) (fresh : nat)
  (reason : Entry -> bytes) (syncErr : bytes).
Context (agentID version : bytes) (deps : UpdateDeps).

Definition cmdShellOpen (data : bytes) (a : agent) : agent * wireReply * list begun :=
  match decodeOpen data with
  | Err msg => (a, refusal (str "bad shell.open payload: " ++ msg), [])
  | Ok spec =>
      match OpenSession pty subscribe now fresh spec (ag_Shell a) with
      | Err err => (a, sessionReply false (SessionID spec) (text err), [])
      | Ok (s, m) => (set_Shell m a, sessionReply true (SessionID spec) [], [StartsSession fresh s])
      end
  end.

Definition cmdShellClose (data : bytes) (a : agent) : agent * wireReply * list begun :=
  match decodeClose data with
  | Err msg => (a, refusal (str "bad shell.close payload: " ++ msg), [])
  | Ok sessionID =>
      match Close sessionID (ag_Shell a) with
      | Err err => (a, sessionReply false sessionID (text err), [])
      | Ok h => (a, sessionReply true sessionID [], [ClosesSession h])
      end
  end.

Definition rejectionSummary (rejected : list Rejection) : bytes :=
  Itoa (Z.of_nat (length rejected)) ++ str " schedule entries cannot be scheduled and were dropped: " ++
  JoinStr (str "; ") (map (fun r => rj_EntryID r ++ str ": " ++ rj_Reason r) rejected).

Definition cmdSchedSync (data : bytes) (a : agent) : agent * wireReply * list begun :=
  match decodeDoc data with
  | Err msg => (a, refusal (str "bad sched.sync payload: " ++ msg), [])
  | Ok doc =>
      let '(s, (ver, rejected, failed), _) := Sync UTC LoadLocation Parse reason doc now saveOk (ag_Sched a) in
      let a := set_Sched s a in
      if failed then (a, schedReply false ver rejected syncErr, [])
      else if bool_decide (rejected ≠ []) then
        (a, schedReply false ver rejected (rejectionSummary rejected),
         [Audits (str "schedule.synced")])
      else (a, schedReply true ver [] [], [Audits (str "schedule.synced")])
  end.

(** [cmdRotateCreds] with the callback that persists the secret. *)
Definition rotateCreds (data : bytes) (a : agent) : io (agent * wireReply * list begun) :=
  match decodeRotate data with
  | Err msg => ret (a, refusal (str "bad agent.rotate_creds payload: " ++ msg), [])
  | Ok [] => ret (a, refusal (str "agent.rotate_creds carried no secret"), [])
  | Ok secret =>
      if negb rotationWired then ret (a, refusal (str "credential rotation is not wired"), [])
      else
        let* r := RotateSecret e secret (ag_Config a) in
        let a := set_Config r.1 a in
        ret match r.2 with
            | Err err => (a, refusal (str "could not persist the new secret: " ++ text err), [])
            | Ok _ => (a, ofReply {| rp_Accepted := true; rp_JobID := []; rp_Error := []; rp_Cancelled := None |},
                       [Audits (str "agent.credentials_rotated")])
            end
  end.

Definition TrimPrefix (s p : bytes) : bytes := match strip_prefix p s with Some r => r | None => s end.

Definition op (o : String.string) (subject : bytes) : bool :=
  bool_decide (TrimPrefix subject (str "cmd." ++ agentID ++ str ".") = str o).

Definition dispatchCommand (subject raw : bytes) (a : agent) : io (agent * answer * list begun) :=
  let data := commandData unmarshalEnvelope raw in
  let reply (x : agent * wireReply * list begun) := ret (x.1.1, Replies x.1.2, x.2) in
  if op "ping" subject then ret (a, Pong version agentID (Count (ag_Shell a)), [])
  else if op "shell.open" subject then reply (cmdShellOpen data a)
  else if op "shell.close" subject then reply (cmdShellClose data a)
  else if op "job.cancel" subject then
    let '(r, rep, evs) := cmdJobCancel scripts (decodeCancel data) (ag_Jobs a) in
    reply (set_Jobs r a, ofReply rep, if rp_Accepted rep then [Audits (str "job.cancelled")] else [])
  else if op "sched.sync" subject then reply (cmdSchedSync data a)
  else if op "agent.update" subject then
    match cmdAgentUpdate text deps (decodeUpdate data) data others alt (ag_Jobs a) with
    | (r, Some (rep, spec)) =>
        reply (set_Jobs r a, ofReply rep, match spec with Some s => [StartsJob s] | None => [] end)
    | (r, None) => ret (set_Jobs r a, Waiting, [])
    end
  else if op "agent.rotate_creds" subject then
    let* x := rotateCreds data a in reply x
  else reply (a, refusal (str "unknown command " ++ TrimPrefix subject (str "cmd." ++ agentID ++ str ".")), []).

(** [respondRaw]: an answer is sent when it can be encoded and the message asks
    for one. *)
Definition respondRaw (encodes hasReply : bool) (x : answer) : list answer :=
  match x with
  | Waiting => []
  | _ => if negb encodes then [] else if hasReply then [x] else []
  end.

(** [handleCommand]; [panics] is what the handler panicked with.  The replies
    are structs of strings, numbers and booleans, which always encode. *)
Definition handleCommand (hasReply : bool) (panics : option bytes) (subject raw : bytes) (a : agent) :
    io (agent * list answer * list begun) :=
  match panics with
  | Some cause => ret (a, respondRaw true hasReply (Replies (refusal (str "agent internal error: " ++ cause))), [])
  | None =>
      let* x := dispatchCommand subject raw a in
      ret (x.1.1, respondRaw true hasReply x.1.2, x.2)
  end.
End dispatch.

(** ** What an answer means *)

Section truth.
Context {JC : JSON Config} (e : hostEnv).
Context {L : Type} (UTC : L) (LoadLocation : bytes -> option L) (Parse : bytes -> option (L -> Z -> Z)).
Context (unmarshalEnvelope : bytes -> option Envelope)
  (decodeOpen : bytes -> res bytes OpenSpec) (decodeClose : bytes -> res bytes bytes)
  (decodeCancel : bytes -> res bytes bytes) (decodeDoc : bytes -> res bytes Document)
  (decodeUpdate : bytes -> res bytes (bytes * bytes)) (decodeRotate : bytes -> res bytes bytes).
Context (text : error -> bytes) (pty : option error) (subscribe : bytes -> option error) (scripts : bytes -> bool)
  (others : registry -> registry) (alt saveOk rotationWired : bool) (now : Z) (fresh : nat)
  (reason : Entry -> bytes) (syncErr : bytes).
Context (agentID version : bytes) (deps : UpdateDeps).

Local Abbreviation dispatch := (dispatchCommand e UTC LoadLocation Parse unmarshalEnvelope decodeOpen decodeClose
  decodeCancel decodeDoc decodeUpdate decodeRotate text pty subscribe scripts others alt saveOk rotationWired now fresh
  reason syncErr agentID version deps).
Local Abbreviation is_op := (op agentID).











End truth.

(** ** One command at a time

    The subscription's messages are handed to [handleCommand] in order, the next
    one when the last has returned.  [cmdAgentUpdate] reserves a worker slot
    before it answers, inside that call; [q_busy] is the thread of such a
    reservation (a thread of the registry, [Jobs]) while it lasts.  Everything
    else that happens to the registry is [QSys]. *)

Inductive queued : Type :=
  | QUpdate (tid : nat) (spec : JobSpec)
  | QCancel (jobID : bytes)
  | QOther.

Record handler := {
  q_sys : Jobs.sys;
  q_queue : list queued;
  q_busy : option nat;
  q_handled : list queued;
}.

Inductive qAction : Type :=
  | QArrive (c : queued)
  | QTake
  | QReserve (alt : bool)
  | QSys (a : Jobs.action).

Definition settled (s : tstate) : bool := match s with TRun _ | TRefused _ => true | _ => false end.

Definition qStep (a : qAction) (h : handler) : option handler :=
  match a with
  | QArrive c => Some {| q_sys := q_sys h; q_queue := q_queue h ++ [c]; q_busy := q_busy h; q_handled := q_handled h |}
  | QTake =>
      match q_busy h, q_queue h with
      | None, c :: rest =>
          let next :=
            match c with
            | QUpdate tid spec => Jobs.sysStep (Jobs.ASpawn tid FromCommand spec) (q_sys h)
            | QCancel id => Jobs.sysStep (Jobs.ACancel id) (q_sys h)
            | QOther => Some (q_sys h)
            end in
          match next with
          | Some s => Some {| q_sys := s; q_queue := rest;
                              q_busy := match c with QUpdate tid _ => Some tid | _ => None end;
                              q_handled := q_handled h ++ [c] |}
          | None => None
          end
      | _, _ => None
      end
  | QReserve alt =>
      match q_busy h with
      | Some tid =>
          match Jobs.sysStep (Jobs.AThread tid alt) (q_sys h) with
          | Some s =>
              let returned := match threads s !! tid with Some t => settled (t_state t) | None => true end in
              Some {| q_sys := s; q_queue := q_queue h; q_busy := if returned then None else Some tid;
                      q_handled := q_handled h |}
          | None => None
          end
      | None => None
      end
  | QSys a =>
      match a with
      | Jobs.ACancel _ => None
      | Jobs.AThread tid _ =>
          if bool_decide (q_busy h = Some tid) then None
          else match Jobs.sysStep a (q_sys h) with
               | Some s => Some {| q_sys := s; q_queue := q_queue h; q_busy := q_busy h; q_handled := q_handled h |}
               | None => None
               end
      | _ =>
          match Jobs.sysStep a (q_sys h) with
          | Some s => Some {| q_sys := s; q_queue := q_queue h; q_busy := q_busy h; q_handled := q_handled h |}
          | None => None
          end
      end
  end.

Definition qRun (acts : list qAction) (h : handler) : option handler :=
  foldl (fun o a => match o with Some h => qStep a h | None => None end) (Some h) acts.

(** A thread that holds no slot and is on its way to none. *)
Definition slotless (s : tstate) : Prop :=
  match s with TInit | TWait _ | TRefused _ | TEnd | TWg => True | _ => False end.

(** Every slot is taken by the threads [R], and the handler waits for one. *)
Record blocked (R : gset nat) (tid b : nat) (h : handler) : Prop := {
  bl_busy : q_busy h = Some tid;
  bl_wait : exists t, threads (q_sys h) !! tid = Some t /\ t_state t = TWait b;
  bl_out : tid ∉ R;
  bl_full : slots (reg (q_sys h)) = Jobs.maxConcurrentJobs;
  bl_base : ctx_done (reg (q_sys h)) b = false;
  bl_rest : forall i t, threads (q_sys h) !! i = Some t -> i ∉ R -> slotless (t_state t);
}.

(** The actions in which none of [R] moves and the agent is not stopped. *)
Definition leavesAlone (R : gset nat) (a : qAction) : Prop :=
  match a with
  | QSys (Jobs.AThread i _) => i ∉ R
  | QSys (Jobs.ASpawn i _ _) => i ∉ R
  | QSys Jobs.AStart | QSys Jobs.AStopping | QSys Jobs.AStopBase => False
  | _ => True
  end.

Lemma slotless_step alt t r r' st :
  slotless (t_state t) -> slots r = Jobs.maxConcurrentJobs -> tstep alt t r = Some (r', st) ->
  slotless st /\ slots r' = slots r /\ Jobs.cancelled r' = Jobs.cancelled r.
Proof.
  assert (He : slots (ensure r) = slots r /\ Jobs.cancelled (ensure r) = Jobs.cancelled r)
    by (unfold ensure; by destruct (base r)).
  destruct He as [He1 He2].
  intros Hs Hf. unfold tstep. destruct (t_state t); cbn in Hs; try done.
  - unfold reserveCheck. destruct (stopping _); [by intros [= <- <-]|].
    destruct (inflight (ensure r) !! _); by intros [= <- <-].
  - destruct alt; [destruct (ctx_done r b); [by intros [= <- <-]|done]|].
    destruct (Nat.ltb_spec (slots r) Jobs.maxConcurrentJobs); [lia|done].
  - by intros [= <- <-].
Qed.

Lemma blocked_step R tid b a h h' :
  blocked R tid b h -> leavesAlone R a -> qStep a h = Some h' ->
  blocked R tid b h' /\ q_handled h' = q_handled h /\ Jobs.cancelled (reg (q_sys h')) = Jobs.cancelled (reg (q_sys h)).
Proof.
  intros [Hb (t0 & Ht0 & Hw) Ho Hf Hd Hr] Hl. destruct a as [c| |alt|a]; cbn [qStep].
  - intros [= <-]. split; [|done]. constructor; cbn; try done. by exists t0.
  - by rewrite Hb.
  - rewrite Hb. cbn [Jobs.sysStep]. rewrite Ht0. unfold tstep. rewrite Hw, Hd, Hf.
    by destruct alt; cbn.
  - destruct a as [i o spec|i alt| | | |id]; try done; cbn [Jobs.sysStep].
    + destruct (threads (q_sys h) !! i) eqn:Ei; [done|]. intros [= <-]. split; [|done].
      assert (Hne : i ≠ tid) by congruence.
      constructor; cbn; try done; [exists t0; by rewrite lookup_insert_ne|].
      intros j t Hj Hn. destruct (decide (j = i)) as [->|]; [rewrite lookup_insert_eq in Hj; by injection Hj as <-|].
      rewrite lookup_insert_ne in Hj by done. by eapply Hr.
    + case_bool_decide as Hbi; [done|]. assert (Hne : i ≠ tid) by congruence.
      destruct (threads (q_sys h) !! i) as [t|] eqn:Ei; [|done].
      destruct (tstep alt t (reg (q_sys h))) as [[r' st]|] eqn:Es; [|done]. intros [= <-].
      destruct (slotless_step _ _ _ _ _ (Hr i t Ei Hl) Hf Es) as (Hs & Hsl & Hc). split; [|done].
      constructor; cbn; [done|exists t0; by rewrite lookup_insert_ne|done|by rewrite Hsl|by unfold ctx_done; rewrite Hc|].
      intros j u Hj Hn. destruct (decide (j = i)) as [->|]; [rewrite lookup_insert_eq in Hj; by injection Hj as <-|].
      rewrite lookup_insert_ne in Hj by done. by eapply Hr.
Qed.

(** An update command can shut the agent's ears.  When every worker slot is
    taken and an agent.update command arrives, its handler waits for a slot
    before it answers, and until one of the running jobs ends by itself, or the
    agent is stopped, no later command is handled: whatever else happens, the
    handled commands and the cancelled contexts stay what they were.  A
    job.cancel of one of those jobs, which would free the slot, waits behind
    the update. *)
Theorem waiting_update_blocks_every_command R tid b h acts h' :
  blocked R tid b h -> Forall (leavesAlone R) acts -> qRun acts h = Some h' ->
  q_handled h' = q_handled h /\ Jobs.cancelled (reg (q_sys h')) = Jobs.cancelled (reg (q_sys h)) /\
  q_busy h' = Some tid.
Proof.
  intros Hb Ha Hr.
  cut (blocked R tid b h' /\ q_handled h' = q_handled h /\
       Jobs.cancelled (reg (q_sys h')) = Jobs.cancelled (reg (q_sys h))).
  { intros (Hb' & ? & ?). split_and!; [done|done|apply Hb']. }
  revert h' Hr. induction acts as [|a acts IH] using rev_ind; intros h' Hr; [by injection Hr as <-|].
  apply Forall_app in Ha as [Ha Hlast]. apply Forall_inv in Hlast.
  unfold qRun in Hr. rewrite foldl_snoc in Hr. fold (qRun acts h) in Hr.
  destruct (qRun acts h) as [h1|] eqn:E; [|done]. destruct (IH Ha h1 eq_refl) as (Hb1 & Hh1 & Hc1).
  destruct (blocked_step _ _ _ _ _ _ Hb1 Hlast Hr) as (Hb' & Hh' & Hc'). split_and!; [done|congruence|congruence].
Qed.

(** Three long installs, an update, and the cancellation of the first. *)
Definition longJob (id : bytes) : JobSpec :=
  {| Scripts.JobID := id; Kind := KindPatchInstall; Shell := []; js_Body := []; TimeoutS := 14400; js_Env := ∅;
     RequestedBy := []; EntryID := [] |}.

Definition threeRunning : list qAction :=
  concat (map (fun '(i, id) => [QSys (Jobs.ASpawn i FromQueue (longJob id)); QSys (Jobs.AThread i false);
                                QSys (Jobs.AThread i false); QSys (Jobs.AThread i false)])
    [(0%nat, str "a"); (1%nat, str "b"); (2%nat, str "c")]) ++
  [QArrive (QUpdate 3 (longJob (str "u"))); QArrive (QCancel (str "a")); QTake; QReserve false].

Definition deaf : handler :=
  default {| q_sys := Jobs.init; q_queue := []; q_busy := None; q_handled := [] |}
    (qRun threeRunning {| q_sys := Jobs.init; q_queue := []; q_busy := None; q_handled := [] |}).

Lemma first_three (i : nat) : i = 0%nat \/ i = 1%nat \/ i = 2%nat -> i ∈ ({[0; 1; 2]}%nat : gset nat).
Proof. set_solver. Qed.

Lemma deaf_threads i t :
  threads (q_sys deaf) !! i = Some t ->
  (i ∈ ({[0; 1; 2]}%nat : gset nat)) \/ t = {| t_origin := FromCommand; t_spec := longJob (str "u"); t_state := TWait 0 |}.
Proof.
  assert (Hm : threads (q_sys deaf) =
    list_to_map (map (fun '(i, id, n) => (i, {| t_origin := FromQueue; t_spec := longJob id; t_state := TRun n |}))
      [(0%nat, str "a", 1%nat); (1%nat, str "b", 2%nat); (2%nat, str "c", 3%nat)] ++
      [(3%nat, {| t_origin := FromCommand; t_spec := longJob (str "u"); t_state := TWait 0 |})]))
    by (vm_compute; reflexivity).
  rewrite Hm. cbn [map app]. rewrite !list_to_map_cons.
  destruct (decide (i = 0%nat \/ i = 1%nat \/ i = 2%nat)) as [Hi|Hi]; [intros _; left; by apply first_three|].
  rewrite !(lookup_insert_ne _ _ i) by lia.
  destruct (decide (i = 3%nat)) as [->|Hi3]; [rewrite lookup_insert_eq; intros Ht; right; by injection Ht as <-|].
  rewrite lookup_insert_ne, list_to_map_nil by lia. intros Ht. by rewrite lookup_empty in Ht.
Qed.

Lemma waiting_update_blocks_every_command_witness :
  q_queue deaf = [QCancel (str "a")] /\
  forall acts h', Forall (leavesAlone {[0; 1; 2]}%nat) acts -> qRun acts deaf = Some h' ->
    q_handled h' = q_handled deaf /\ Jobs.cancelled (reg (q_sys h')) = Jobs.cancelled (reg (q_sys deaf)) /\
    q_busy h' = Some 3%nat.
Proof.
  split; [vm_compute; reflexivity|]. intros acts h'.
  apply (waiting_update_blocks_every_command {[0; 1; 2]}%nat 3 0 deaf). constructor.
  - vm_compute. reflexivity.
  - eexists. split; vm_compute; reflexivity.
  - apply (bool_decide_unpack _). vm_compute. exact I.
  - vm_compute. reflexivity.
  - vm_compute. reflexivity.
  - intros i t Hi Hn. destruct (deaf_threads i t Hi) as [Hin|Ht]; [destruct (Hn Hin)|]. rewrite Ht. exact I.
Defined.
