(* ===== verification/Posture.v ===== *)
(** * Posture: the security state of the machine (package posture)

    posture.go and run.go: running the checks, the wire form of a result and
    the summary; the checks of Linux and of Windows; and the snapshot of
    inventory/posture.go with its hash (inventory/hash.go, inventory.go).  What
    the platform's tools print is a parameter, [tool]; so is the JSON decoder
    that reads lsblk's tree. *)
From S2P Require Import Prelude GoLib GoText GoOS Env Identity.
From Stdlib Require Import Sorted.

(** ** posture.go *)

Inductive Category : Type := CategoryEncryption | CategoryMalware | CategoryFirewall | CategoryNetwork.

#[export] Instance Category_eq_dec : EqDecision Category.
Proof. solve_decision. Defined.

Inductive NotAssessedReason : Type := ReasonNotApplicable | ReasonUndetermined.

Inductive Status : Type := Pass | Fail | NotApplicable | Unknown.

#[export] Instance Status_eq_dec : EqDecision Status.
Proof. solve_decision. Defined.

Definition statusString (s : Status) : bytes :=
  match s with
  | Pass => str "pass" | Fail => str "fail" | NotApplicable => str "not_applicable" | Unknown => str "unknown"
  end.

Definition Assessed (s : Status) : bool := match s with Pass | Fail => true | _ => false end.

(** The category is [None] where the source has the empty string. *)
Record Result := {
  r_Check : bytes;
  r_Category : option Category;
  r_Status : Status;
  r_Detail : bytes;
  r_Evidence : gmap bytes bytes;
  r_TookMS : Z;
}.

(** [MarshalJSON]: the object that is encoded. *)
Record wireResult := {
  w_Check : bytes;
  w_Category : option Category;
  w_Status : bytes;
  w_Reason : option NotAssessedReason;
  w_Detail : bytes;
  w_Evidence : gmap bytes bytes;
  w_TookMS : Z;
}.

Definition MarshalJSON (r : Result) : wireResult :=
  let '(status, reason) :=
    match r_Status r with
    | NotApplicable => (str "not_assessed", Some ReasonNotApplicable)
    | Unknown => (str "not_assessed", Some ReasonUndetermined)
    | s => (statusString s, None)
    end in
  {| w_Check := r_Check r; w_Category := r_Category r; w_Status := status; w_Reason := reason;
     w_Detail := r_Detail r; w_Evidence := r_Evidence r; w_TookMS := r_TookMS r |}.

(** ** run.go *)

Definition mkResult (check : bytes) (s : Status) (detail : bytes) (evidence : gmap bytes bytes) : Result :=
  {| r_Check := check; r_Category := None; r_Status := s; r_Detail := detail; r_Evidence := evidence; r_TookMS := 0 |}.

Definition unknown (check detail : bytes) : Result := mkResult check Unknown detail ∅.
Definition notApplicable (check detail : bytes) : Result := mkResult check NotApplicable detail ∅.
Definition pass (check detail : bytes) (evidence : gmap bytes bytes) : Result := mkResult check Pass detail evidence.
Definition fail (check detail : bytes) (evidence : gmap bytes bytes) : Result := mkResult check Fail detail evidence.

(** What running a tool comes to: it is not installed, or it printed something
    and exited well or not. *)
Inductive toolReply : Type := Missing | Ran (stdout : bytes) (ok : bool).

Definition errToolMissing : error := Sentinel "tool not installed".

Definition output (t : toolReply) : bytes * option error :=
  match t with
  | Missing => ([], Some errToolMissing)
  | Ran out ok => (TrimSpace out, if ok then None else Some (Sentinel "exit status"))
  end.

(** ** The runner *)

Record Check := {
  ck_Name : bytes;
  ck_Category : Category;
}.

(** How a check's [Run] ends. *)
Inductive checkEnd : Type := Returned (r : Result) | Panicked.

Definition checkTimeout : Z := 30 * Second.

(** [took] is the time the check ran, [timedOut] whether its context had ended
    when it returned. *)
Definition runOne (c : Check) (e : checkEnd) (took : Z) (timedOut : bool) : Result :=
  let res :=
    match e with
    | Panicked => mkResult (ck_Name c) Unknown (str "the check failed to run") ∅
    | Returned r =>
        {| r_Check := if bool_decide (r_Check r = []) then ck_Name c else r_Check r;
           r_Category := Some (ck_Category c); r_Status := r_Status r;
           r_Detail := if timedOut && negb (Assessed (r_Status r))
                       then r_Detail r ++ str " (timed out after 30s)" else r_Detail r;
           r_Evidence := r_Evidence r; r_TookMS := r_TookMS r |}
    end in
  {| r_Check := r_Check res; r_Category := r_Category res; r_Status := r_Status res; r_Detail := r_Detail res;
     r_Evidence := r_Evidence res; r_TookMS := took ÷ 1000000 |}.

(** [sort.Slice] by name. *)
Fixpoint insertResult (x : Result) (l : list Result) : list Result :=
  match l with
  | [] => [x]
  | y :: l' => if bytes_le (r_Check x) (r_Check y) then x :: l else y :: insertResult x l'
  end.

Definition sortResults (l : list Result) : list Result := foldr insertResult [] l.

(** One check with how it went. *)
Record checkRun := {
  cr_Check : Check;
  cr_End : checkEnd;
  cr_Took : Z;
  cr_TimedOut : bool;
}.

Definition Run (checks : list checkRun) : list Result :=
  sortResults (map (fun c => runOne (cr_Check c) (cr_End c) (cr_Took c) (cr_TimedOut c)) checks).

Record Summary := {
  Passed : list bytes;
  Failed : list bytes;
  NotAssessed : list bytes;
  AssessedCount : Z;
}.

Definition summarizeOne (s : Summary) (r : Result) : Summary :=
  match r_Status r with
  | Pass => {| Passed := Passed s ++ [r_Check r]; Failed := Failed s; NotAssessed := NotAssessed s;
               AssessedCount := AssessedCount s + 1 |}
  | Fail => {| Passed := Passed s; Failed := Failed s ++ [r_Check r]; NotAssessed := NotAssessed s;
               AssessedCount := AssessedCount s + 1 |}
  | _ => {| Passed := Passed s; Failed := Failed s; NotAssessed := NotAssessed s ++ [r_Check r];
            AssessedCount := AssessedCount s |}
  end.

Definition Summarize (results : list Result) : Summary :=
  fold_left summarizeOne results {| Passed := []; Failed := []; NotAssessed := []; AssessedCount := 0 |}.

(** ** Linux *)

Definition evidence1 (k v : bytes) : gmap bytes bytes := {[ k := v ]}.

Unset Elimination Schemes.
Inductive lsblkNode : Type :=
  Node (name type : bytes) (mountpoint : option bytes) (children : list lsblkNode).
Set Elimination Schemes.

Definition nodeType (n : lsblkNode) : bytes := let 'Node _ t _ _ := n in t.
Definition isCrypt (n : lsblkNode) : bool := bool_decide (nodeType n = str "crypt").
Definition atRoot (n : lsblkNode) : bool :=
  let 'Node _ _ mp _ := n in
  match mp with Some p => bool_decide (TrimSpace p = str "/") | None => false end.

(** [rootIsEncrypted], one node at a time: [None] when nothing below it is
    mounted at the root.  ([append(ancestors, n)] may reuse the array of
    [ancestors], but only past its end, where nothing is read again.) *)
Fixpoint rootIn (ancestors : list lsblkNode) (n : lsblkNode) {struct n} : option bool :=
  if atRoot n then Some (isCrypt n || existsb isCrypt ancestors)
  else
    let 'Node _ _ _ children := n in
    (fix loop (l : list lsblkNode) : option bool :=
       match l with
       | [] => None
       | c :: l' => match rootIn (ancestors ++ [n]) c with Some e => Some e | None => loop l' end
       end) children.

Fixpoint rootIsEncrypted (nodes ancestors : list lsblkNode) : bool * bool :=
  match nodes with
  | [] => (false, false)
  | n :: nodes' => match rootIn ancestors n with Some e => (e, true) | None => rootIsEncrypted nodes' ancestors end
  end.

Section linux.
Context (tool : bytes -> list bytes -> toolReply) (unmarshalTree : bytes -> option (list lsblkNode)).

Definition run (name : String.string) (args : list String.string) : bytes * option error :=
  output (tool (str name) (map str args)).

Definition diskEncryption_Run : Result :=
  let name := str "disk-encryption" in
  match run "lsblk" ["--json"; "-o"; "NAME,TYPE,MOUNTPOINT"]%string with
  | (_, Some _) => unknown name (str "lsblk is unavailable, so the root device could not be traced")
  | (out, None) =>
      match unmarshalTree out with
      | None => unknown name (str "lsblk output could not be parsed")
      | Some tree =>
          match rootIsEncrypted tree [] with
          | (_, false) => unknown name (str "the root filesystem's backing device could not be identified")
          | (true, true) => pass name (str "the root filesystem is on an encrypted volume")
                              (evidence1 (str "mechanism") (str "luks"))
          | (false, true) => fail name (str "the root filesystem is on unencrypted storage") ∅
          end
      end
  end.

(** The lines of a ruleset that are structure. *)
Definition structural (line : bytes) : bool :=
  bool_decide (line = []) || bool_decide (line = str "}") || HasPrefix line (str "table ") ||
  HasPrefix line (str "chain ") || HasPrefix line (str "type ") || HasPrefix line (str "comment ").

Definition hasRules (ruleset : bytes) : bool := existsb (fun l => negb (structural (TrimSpace l))) (Split nl ruleset).

Definition firewall_Run : Result :=
  let name := str "firewall" in
  match run "ufw" ["status"]%string with
  | (out, None) =>
      if Contains (ToLower out) (str "status: active")
      then pass name (str "ufw is active") (evidence1 (str "backend") (str "ufw"))
      else fail name (str "ufw is installed but inactive") (evidence1 (str "backend") (str "ufw"))
  | (_, Some _) =>
      match run "firewall-cmd" ["--state"]%string with
      | (out, None) =>
          if bool_decide (TrimSpace out = str "running")
          then pass name (str "firewalld is running") (evidence1 (str "backend") (str "firewalld"))
          else fail name (str "firewalld is installed but not running") (evidence1 (str "backend") (str "firewalld"))
      | (_, Some _) =>
          match run "nft" ["list"; "ruleset"]%string with
          | (out, None) =>
              if hasRules out
              then pass name (str "nftables has an active ruleset") (evidence1 (str "backend") (str "nftables"))
              else fail name (str "nftables is present with an empty ruleset")
                     (evidence1 (str "backend") (str "nftables"))
          | (_, Some _) => unknown name (str "no firewall tool could be queried on this machine")
          end
      end
  end.

Definition antivirus_Run : Result :=
  notApplicable (str "antivirus") (str "resident antivirus is not part of the baseline on Linux").

Definition linuxChecks : list (Check * Result) :=
  [ ({| ck_Name := str "disk-encryption"; ck_Category := CategoryEncryption |}, diskEncryption_Run);
    ({| ck_Name := str "firewall"; ck_Category := CategoryFirewall |}, firewall_Run);
    ({| ck_Name := str "antivirus"; ck_Category := CategoryMalware |}, antivirus_Run) ].
End linux.

(** ** Windows *)

(** [productStateEnabled]: the accumulator is an [int]. *)
Fixpoint productDigits (n : Z) (s : bytes) : option Z :=
  match s with
  | [] => Some n
  | r :: s' => if is_digit r then productDigits (wrap64 (n * 10 + (code r - 48))) s' else None
  end.

Definition productStateEnabled (state : bytes) : bool :=
  match productDigits 0 (TrimSpace state) with
  | None => false
  | Some n => negb (Z.land (Z.shiftr n 8) 16 =? 0)
  end.

(** One part of a [name=value;...] answer. *)
Definition cutPart (part : bytes) : option (bytes * bytes) := Cut (str "=") (TrimSpace part).

Definition firewallPart (acc : gmap bytes bytes * list bytes) (part : bytes) : gmap bytes bytes * list bytes :=
  match cutPart part with
  | None => acc
  | Some (profile, state) =>
      (<[ToLower profile := state]> acc.1,
       if EqualFold state (str "True") then acc.2 else acc.2 ++ [profile])
  end.

Definition antivirusPart (acc : gmap bytes bytes * bool) (part : bytes) : gmap bytes bytes * bool :=
  match cutPart part with
  | None => acc
  | Some (product, state) => (<[product := state]> acc.1, acc.2 || productStateEnabled state)
  end.

Section windows.
(** What PowerShell answers to the expression of each check, and what
    [winident.Detect] finds. *)
Context (bitlocker firewall securityCenter : toolReply) (sources : Sources * option error).

Definition bitLocker_Run : Result :=
  let name := str "disk-encryption" in
  match output bitlocker with
  | (_, Some _) => unknown name (str "BitLocker status could not be read; the cmdlet may be unavailable on this edition")
  | (out, None) =>
      let s := TrimSpace out in
      if bool_decide (s = str "On" \/ s = str "1")
      then pass name (str "the system drive is protected by BitLocker") (evidence1 (str "mechanism") (str "bitlocker"))
      else if bool_decide (s = str "Off" \/ s = str "0") then fail name (str "the system drive is not encrypted") ∅
      else unknown name (str "BitLocker reported an unrecognised protection status")
  end.

Definition winFirewall_Run : Result :=
  let name := str "firewall" in
  let '(out, err) := output firewall in
  if bool_decide (err ≠ None) || bool_decide (TrimSpace out = [])
  then unknown name (str "the firewall profiles could not be read")
  else
    let '(evidence, disabled) := fold_left firewallPart (Split ";" (TrimSpace out)) (∅, []) in
    if bool_decide (evidence = ∅) then unknown name (str "no firewall profiles were reported")
    else if bool_decide (disabled ≠ [])
    then fail name (str "the firewall is disabled for the " ++ JoinStr (str ", ") disabled ++ str " profile") evidence
    else pass name (str "the firewall is enabled for every network profile") evidence.

Definition winAntivirus_Run : Result :=
  let name := str "antivirus" in
  match output securityCenter with
  | (_, Some _) => unknown name (str "the Security Center antivirus registration could not be read")
  | (out, None) =>
      let out := TrimSpace out in
      if bool_decide (out = [])
      then fail name (str "no antivirus product is registered with Windows Security Center") ∅
      else
        let '(evidence, enabled) := fold_left antivirusPart (Split ";" out) (∅, false) in
        if enabled then pass name (str "an antivirus product is registered and enabled") evidence
        else fail name (str "an antivirus product is registered but not enabled") evidence
  end.

Definition formatBool (b : bool) : bytes := if b then str "true" else str "false".

Definition identitySource_Run : Result :=
  let name := str "8021x-identity-source" in
  match sources with
  | (_, Some _) => unknown name (str "could not determine which system provides this machine's 802.1X identity")
  | (s, None) =>
      let evidence : gmap bytes bytes :=
        <[str "domain_joined" := formatBool (DomainJoined s)]>
        (<[str "everwas_certs" := Itoa (EverwasCerts s)]>
        (<[str "other_client_certs" := Itoa (OtherClientCerts s)]>
        (<[str "group_policy_8021x" := formatBool (GroupPolicyProfile s)]> ∅))) in
      if ProvidedByUs s && ProvidedByDirectory s
      then fail name (str "both Everwas and Active Directory are providing an 802.1X identity to this machine") evidence
      else if ProvidedByUs s then pass name (str "Everwas provides this machine's 802.1X identity") evidence
      else if ProvidedByDirectory s
      then pass name (str "Active Directory provides this machine's 802.1X identity") evidence
      else notApplicable name (str "no 802.1X identity is configured on this machine")
  end.

Definition windowsChecks : list (Check * Result) :=
  [ ({| ck_Name := str "disk-encryption"; ck_Category := CategoryEncryption |}, bitLocker_Run);
    ({| ck_Name := str "firewall"; ck_Category := CategoryFirewall |}, winFirewall_Run);
    ({| ck_Name := str "antivirus"; ck_Category := CategoryMalware |}, winAntivirus_Run);
    ({| ck_Name := str "8021x-identity-source"; ck_Category := CategoryNetwork |}, identitySource_Run) ].
End windows.

(** No checks elsewhere. *)
Definition otherChecks : list (Check * Result) := [].

(** ** The snapshot (inventory) *)

Definition errNoCollector : error := Sentinel "no collector for this platform".

(** [collectPosture]: the objects that are encoded, hashed and published. *)
Definition collectPosture (checks : list checkRun) : res error (list wireResult) :=
  if bool_decide (length checks = 0%nat) then Err (Errorf "posture" errNoCollector)
  else Ok (map MarshalJSON (Run checks)).

Definition kindFailed (err : error) : bool := negb (Is err errNoCollector).

(** [withSnapshotHash]: the payload with the hash of its canonical encoding. *)
Section snapshot.
Context (canonical : list wireResult -> bytes) (sha256 : bytes -> bytes).

Definition snapshotHash (payload : list wireResult) : bytes := HexEncode (sha256 (canonical payload)).

Definition withSnapshotHash (payload : list wireResult) : list wireResult * bytes := (payload, snapshotHash payload).
End snapshot.

(** ** What a failure means *)

(** A check's run that can fail the machine: it returned, with [Fail]. *)
Lemma runOne_Fail c e took late :
  r_Status (runOne c e took late) = Fail -> exists r, e = Returned r /\ r_Status r = Fail.
Proof. destruct e as [r|]; cbn; [eauto|done]. Qed.

Lemma sortResults_perm l : sortResults l ≡ₚ l.
Proof.
  assert (Hins : forall x l, insertResult x l ≡ₚ x :: l).
  { clear. intros x l. induction l as [|y l IH]; [done|]. cbn [insertResult].
    destruct (bytes_le _ _); [done|]. rewrite IH. apply Permutation_swap. }
  induction l as [|x l IH]; [done|]. cbn [sortResults foldr]. rewrite Hins. by f_equiv.
Qed.

Lemma Run_elem cs r :
  r ∈ Run cs <-> exists c, c ∈ cs /\ r = runOne (cr_Check c) (cr_End c) (cr_Took c) (cr_TimedOut c).
Proof.
  unfold Run. rewrite sortResults_perm, list_elem_of_In, in_map_iff. setoid_rewrite <- list_elem_of_In. naive_solver.
Qed.

(** A tool that answered. *)
Definition answered (t : toolReply) (out : bytes) : Prop := exists raw, t = Ran raw true /\ out = TrimSpace raw.

Lemma output_ok t out : output t = (out, None) -> answered t out.
Proof. destruct t as [|raw []]; cbn; try done. intros [= <-]. by exists raw. Qed.

Section linux_facts.
Context (tool : bytes -> list bytes -> toolReply) (unmarshalTree : bytes -> option (list lsblkNode)).

Lemma diskEncryption_Fail :
  r_Status (diskEncryption_Run tool unmarshalTree) = Fail ->
  exists out tree, answered (tool (str "lsblk") (map str ["--json"; "-o"; "NAME,TYPE,MOUNTPOINT"]%string)) out /\
    unmarshalTree out = Some tree /\ rootIsEncrypted tree [] = (false, true).
Proof.
  unfold diskEncryption_Run, run. destruct (output _) as [out [e|]] eqn:E; [done|].
  destruct (unmarshalTree out) as [tree|] eqn:Eu; [|done].
  destruct (rootIsEncrypted tree []) as [[] []] eqn:Er; try done. intros _. exists out, tree.
  split_and!; [by apply output_ok|done|done].
Qed.

(** Where a tool answered that nothing is active. *)
Definition inactive : Prop :=
  (exists out, answered (tool (str "ufw") [str "status"]) out /\ Contains (ToLower out) (str "status: active") = false) \/
  (exists out, answered (tool (str "firewall-cmd") [str "--state"]) out /\ TrimSpace out ≠ str "running") \/
  (exists out, answered (tool (str "nft") [str "list"; str "ruleset"]) out /\ hasRules out = false).

Lemma firewall_Fail : r_Status (firewall_Run tool) = Fail -> inactive.
Proof.
  unfold firewall_Run, run, inactive. cbn [map].
  destruct (output (tool (str "ufw") _)) as [o1 [e1|]] eqn:E1.
  2: { destruct (Contains _ _) eqn:C; [done|]. intros _. left. exists o1. split; [by apply output_ok|done]. }
  destruct (output (tool (str "firewall-cmd") _)) as [o2 [e2|]] eqn:E2.
  2: { case_bool_decide; [done|]. intros _. right; left. exists o2. split; [by apply output_ok|done]. }
  destruct (output (tool (str "nft") _)) as [o3 [e3|]] eqn:E3; [done|].
  destruct (hasRules o3) eqn:C; [done|]. intros _. right; right. exists o3. split; [by apply output_ok|done].
Qed.
End linux_facts.

Lemma bitLocker_Fail t :
  r_Status (bitLocker_Run t) = Fail -> exists out, answered t out /\ (TrimSpace out = str "Off" \/ TrimSpace out = str "0").
Proof.
  unfold bitLocker_Run. destruct (output t) as [out [e|]] eqn:E; [done|].
  case_bool_decide; [done|]. case_bool_decide; [|done]. intros _. exists out. split; [by apply output_ok|done].
Qed.

(** The profiles collected as disabled are those whose state is not [True]. *)
Lemma firewallPart_disabled parts acc p :
  p ∈ (fold_left firewallPart parts acc).2 ->
  p ∈ acc.2 \/ exists part state, part ∈ parts /\ cutPart part = Some (p, state) /\ EqualFold state (str "True") = false.
Proof.
  revert acc. induction parts as [|part parts IH]; intros acc; [by left|]. cbn [fold_left]. intros H.
  apply IH in H as [H|(q & state & Hq & Hc & Hs)]; [|right; exists q, state; split_and!; [by right|done|done]].
  unfold firewallPart in H. destruct (cutPart part) as [[profile state]|] eqn:Ec; [|by left].
  cbn [snd] in H. destruct (EqualFold state (str "True")) eqn:Ef; [by left|].
  apply elem_of_app in H as [H|H%list_elem_of_singleton]; [by left|]. subst p.
  right. exists part, state. split_and!; [by left|done|done].
Qed.

Lemma winFirewall_Fail t :
  r_Status (winFirewall_Run t) = Fail ->
  exists out part profile state, answered t out /\ part ∈ Split ";" (TrimSpace out) /\
    cutPart part = Some (profile, state) /\ EqualFold state (str "True") = false.
Proof.
  unfold winFirewall_Run. destruct (output t) as [out err] eqn:E.
  destruct (bool_decide (err ≠ None)) eqn:He; cbn [orb]; [done|]. apply bool_decide_eq_false in He.
  case_bool_decide as Ht; [done|].
  destruct (fold_left firewallPart _ _) as [ev dis] eqn:Ef. case_bool_decide; [done|].
  case_bool_decide as Hd; [|done]. intros _. destruct dis as [|p dis]; [done|].
  assert (Hp : p ∈ (fold_left firewallPart (Split ";" (TrimSpace out)) (∅, [])).2) by (rewrite Ef; by left).
  apply firewallPart_disabled in Hp as [Hp|(part & state & ?)]; [by apply elem_of_nil in Hp|].
  exists out, part, p, state. split; [|done]. apply output_ok. rewrite E.
  destruct err; [exfalso; by apply He|done].
Qed.

Lemma identitySource_Fail ss :
  r_Status (identitySource_Run ss) = Fail ->
  ss.2 = None /\ ProvidedByUs ss.1 = true /\ ProvidedByDirectory ss.1 = true.
Proof.
  unfold identitySource_Run. destruct ss as [s [e|]]; [done|]. cbn.
  destruct (ProvidedByUs s), (ProvidedByDirectory s); done.
Qed.

(** What the machine itself answered when a check of that name failed. *)
Definition linuxEvidence (tool : bytes -> list bytes -> toolReply) (unmarshalTree : bytes -> option (list lsblkNode))
    (name : bytes) : Prop :=
  (name = str "disk-encryption" /\
   exists out tree, answered (tool (str "lsblk") (map str ["--json"; "-o"; "NAME,TYPE,MOUNTPOINT"]%string)) out /\
     unmarshalTree out = Some tree /\ rootIsEncrypted tree [] = (false, true)) \/
  (name = str "firewall" /\ inactive tool).

Definition windowsEvidence (bitlocker firewall securityCenter : toolReply) (ss : Sources * option error)
    (name : bytes) : Prop :=
  (name = str "disk-encryption" /\
   exists out, answered bitlocker out /\ (TrimSpace out = str "Off" \/ TrimSpace out = str "0")) \/
  (name = str "firewall" /\
   exists out part profile state, answered firewall out /\ part ∈ Split ";" (TrimSpace out) /\
     cutPart part = Some (profile, state) /\ EqualFold state (str "True") = false) \/
  (name = str "antivirus" /\ exists out, answered securityCenter out) \/
  (name = str "8021x-identity-source" /\ ss.2 = None /\ ProvidedByUs ss.1 = true /\ ProvidedByDirectory ss.1 = true).

(** A run of a platform's checks: each of them returned, or panicked, after
    some time. *)
Definition runsOf (checks : list (Check * Result)) (cs : list checkRun) : Prop :=
  Forall (fun c => cr_End c = Panicked \/ exists r, cr_End c = Returned r /\ (cr_Check c, r) ∈ checks) cs.

Lemma runsOf_Fail checks cs r :
  runsOf checks cs -> r ∈ Run cs -> r_Status r = Fail ->
  exists c r0, (c, r0) ∈ checks /\ r_Status r0 = Fail /\
    r_Check r = (if bool_decide (r_Check r0 = []) then ck_Name c else r_Check r0) /\ r_Category r = Some (ck_Category c).
Proof.
  intros Hcs (c & Hc & ->)%Run_elem Hf. destruct (runOne_Fail _ _ _ _ Hf) as (r0 & He & Hr0).
  unfold runsOf in Hcs. rewrite Forall_forall in Hcs. destruct (Hcs c Hc) as [?|(r1 & He1 & Hin)]; [congruence|].
  assert (r1 = r0) as -> by congruence. exists (cr_Check c), r0. rewrite He. done.
Qed.

(** The result of one of these checks, under that check's name and category. *)
Definition attributed (checks : list (Check * Result)) (r : Result) : Prop :=
  exists c r0, (c, r0) ∈ checks /\ r_Check r = ck_Name c /\ r_Category r = Some (ck_Category c).

(** Checks whose failures carry their own name, or none. *)
Definition named (checks : list (Check * Result)) : Prop :=
  Forall (fun cr => r_Status cr.2 = Fail -> r_Check cr.2 = [] \/ r_Check cr.2 = ck_Name cr.1) checks.

Lemma attributed_Fail checks cs r :
  named checks -> runsOf checks cs -> r ∈ Run cs -> r_Status r = Fail -> attributed checks r.
Proof.
  intros Hn Hcs Hr Hf. destruct (runsOf_Fail _ _ _ Hcs Hr Hf) as (c & r0 & Hin & Hf0 & Hname & Hcat).
  exists c, r0. split_and!; [done| |done]. unfold named in Hn. rewrite Forall_forall in Hn.
  specialize (Hn _ Hin Hf0). cbn [fst snd] in Hn. rewrite Hname. case_bool_decide; [done|]. by destruct Hn.
Qed.

Lemma linux_named tool unmarshalTree : named (linuxChecks tool unmarshalTree).
Proof.
  repeat apply Forall_cons_2; [| | |apply Forall_nil_2]; cbn [fst snd]; intros H; right; revert H;
    [unfold diskEncryption_Run|unfold firewall_Run|unfold antivirus_Run]; repeat case_match; done.
Qed.

Lemma windows_named bitlocker firewall securityCenter ss : named (windowsChecks bitlocker firewall securityCenter ss).
Proof.
  repeat apply Forall_cons_2; [| | | |apply Forall_nil_2]; cbn [fst snd]; intros H; right; revert H;
    [unfold bitLocker_Run|unfold winFirewall_Run|unfold winAntivirus_Run|unfold identitySource_Run]; repeat case_match; done.
Qed.

(** C33: A check that could not run never reads as a check that failed.  On Linux and
    on Windows, whatever the tools do (missing, refusing, hanging until the
    timeout, printing anything) and whichever checks panic, a result that says
    [fail] carries the name and the category of one of the platform's checks,
    and the tool that check asks had answered: what it answered is the evidence.
    For the Windows antivirus check the evidence is only that Security Center
    answered. *)
Theorem posture_fails_only_on_an_answer tool unmarshalTree bitlocker firewall securityCenter ss cs r :
  r ∈ Run cs -> r_Status r = Fail ->
  (runsOf (linuxChecks tool unmarshalTree) cs ->
     attributed (linuxChecks tool unmarshalTree) r /\ linuxEvidence tool unmarshalTree (r_Check r)) /\
  (runsOf (windowsChecks bitlocker firewall securityCenter ss) cs ->
     attributed (windowsChecks bitlocker firewall securityCenter ss) r /\
     windowsEvidence bitlocker firewall securityCenter ss (r_Check r)).
Proof.
  intros Hr Hf. split; intros Hcs; (split; [eapply attributed_Fail; [|exact Hcs|exact Hr|exact Hf]; by apply linux_named || by apply windows_named|]);
    destruct (runsOf_Fail _ _ _ Hcs Hr Hf) as (c & r0 & Hin & Hf0 & Hn & _).
  - unfold linuxChecks in Hin. rewrite !elem_of_cons in Hin.
    destruct Hin as [[= -> ->]|[[= -> ->]|[[= -> ->]|H%elem_of_nil]]]; [| |done|done]; rewrite Hn.
    + left. apply diskEncryption_Fail in Hf0 as Hd. split; [|done].
      unfold diskEncryption_Run in *. repeat case_match; done.
    + right. apply firewall_Fail in Hf0 as Hd. split; [|done].
      unfold firewall_Run in *. repeat case_match; done.
  - unfold windowsChecks in Hin. rewrite !elem_of_cons in Hin.
    destruct Hin as [[= -> ->]|[[= -> ->]|[[= -> ->]|[[= -> ->]|H%elem_of_nil]]]]; [| | | |done]; rewrite Hn.
    + left. apply bitLocker_Fail in Hf0 as Hd. split; [|done]. unfold bitLocker_Run in *. repeat case_match; done.
    + right; left. apply winFirewall_Fail in Hf0 as Hd. split; [|done].
      unfold winFirewall_Run in *. repeat case_match; done.
    + right; right; left. unfold winAntivirus_Run in *. destruct (output securityCenter) as [out [e|]] eqn:E; [done|].
      split; [repeat case_match; done|]. exists out. by apply output_ok.
    + right; right; right. apply identitySource_Fail in Hf0 as Hd. split; [|done].
      unfold identitySource_Run in *. repeat case_match; done.
Qed.

(** ** The root device *)

Section node_ind.
Context (P : lsblkNode -> Prop)
  (H : forall name type mp children, Forall P children -> P (Node name type mp children)).

Fixpoint lsblkNode_rect' (n : lsblkNode) : P n :=
  let 'Node name type mp children := n in
  H name type mp children
    ((fix all (l : list lsblkNode) : Forall P l :=
        match l with
        | [] => Forall_nil_2 P
        | c :: l' => Forall_cons_2 P c l' (lsblkNode_rect' c) (all l')
        end) children).
End node_ind.

(** The paths from a device to everything on it, in the order lsblk lists
    them. *)
Fixpoint pathsOf (n : lsblkNode) : list (list lsblkNode) :=
  let 'Node _ _ _ children := n in [n] :: map (cons n) (concat (map pathsOf children)).

Definition endsAtRoot (p : list lsblkNode) : bool := match last p with Some n => atRoot n | None => false end.

(** The device mounted at the root is the end of the first such path, and it is
    encrypted when a device on the path is. *)
Definition firstRootPath (paths : list (list lsblkNode)) : option (list lsblkNode) := List.find endsAtRoot paths.

Definition encryptedBy (ancestors : list lsblkNode) (p : option (list lsblkNode)) : option bool :=
  match p with Some p => Some (existsb isCrypt (ancestors ++ p)) | None => None end.

Lemma pathsOf_nonempty n : Forall (fun p => p ≠ []) (pathsOf n).
Proof.
  destruct n as [name type mp children]. cbn [pathsOf]. constructor; [done|].
  apply Forall_forall. intros p (q & <- & _)%list_elem_of_In%in_map_iff. done.
Qed.

Lemma find_app {A} (f : A -> bool) (a b : list A) :
  List.find f (a ++ b) = match List.find f a with Some x => Some x | None => List.find f b end.
Proof. induction a as [|x a IH]; [done|]. cbn. by destruct (f x). Qed.

Lemma firstRootPath_cons n paths :
  Forall (fun p => p ≠ []) paths ->
  firstRootPath (map (cons n) paths) = match firstRootPath paths with Some p => Some (n :: p) | None => None end.
Proof.
  unfold firstRootPath. induction 1 as [|p paths Hp _ IH]; [done|]. cbn [map List.find].
  assert (E : endsAtRoot (n :: p) = endsAtRoot p) by by destruct p.
  rewrite E. by destruct (endsAtRoot p).
Qed.

Lemma rootIn_spec n : forall ancestors, rootIn ancestors n = encryptedBy ancestors (firstRootPath (pathsOf n)).
Proof.
  induction n as [name type mp children IH] using lsblkNode_rect'; intros ancestors.
  unfold firstRootPath. cbn [pathsOf rootIn List.find]. set (n := Node name type mp children).
  change (endsAtRoot [n]) with (atRoot n). destruct (atRoot n).
  { cbn [encryptedBy]. rewrite existsb_app. cbn [existsb]. rewrite orb_false_r. f_equal. apply orb_comm. }
  assert (Hne : Forall (fun p => p ≠ []) (concat (map pathsOf children))).
  { apply Forall_concat, Forall_forall. intros ps (c & <- & _)%list_elem_of_In%in_map_iff. apply pathsOf_nonempty. }
  fold (firstRootPath (map (cons n) (concat (map pathsOf children)))). rewrite firstRootPath_cons by done.
  assert (Hlift : forall o, encryptedBy ancestors (match o with Some p => Some (n :: p) | None => None end) =
    encryptedBy (ancestors ++ [n]) o).
  { intros [p|]; [|done]. cbn [encryptedBy]. by rewrite <- app_assoc. }
  rewrite Hlift. clear Hlift Hne. clearbody n. generalize (ancestors ++ [n]). intros anc. induction IH as [|c l Hc _ IHl]; [done|].
  cbn [map concat]. unfold firstRootPath in *. rewrite find_app, Hc.
  destruct (List.find endsAtRoot (pathsOf c)); [done|]. exact IHl.
Qed.

(** The disk check asks about the root file system and nothing else.  For every
    device tree, [rootIsEncrypted] finds a device exactly when some device is
    mounted at the root, takes the first path to one in lsblk's order, and says
    encrypted exactly when a device on that path, the mounted one included, is
    a crypt device.  An encrypted disk elsewhere does not count. *)
Theorem rootIsEncrypted_follows_the_path nodes :
  rootIsEncrypted nodes [] =
  match firstRootPath (concat (map pathsOf nodes)) with
  | Some p => (existsb isCrypt p, true)
  | None => (false, false)
  end.
Proof.
  induction nodes as [|n nodes IH]; [done|]. cbn [rootIsEncrypted map concat].
  unfold firstRootPath in *. rewrite find_app, rootIn_spec. unfold firstRootPath.
  destruct (List.find endsAtRoot (pathsOf n)); [done|]. exact IH.
Qed.

(** Only the first path decides.  A logical volume over two disks is listed
    below both; when the first is encrypted and the second is not, the check
    passes, although half of the data is in the clear, and with the disks in
    the other order it fails. *)
Definition rootVolume : lsblkNode := Node (str "vg-root") (str "lvm") (Some (str "/")) [].
Definition cryptDisk : lsblkNode :=
  Node (str "sda") (str "disk") None [Node (str "luks") (str "crypt") None [rootVolume]].
Definition plainDisk : lsblkNode := Node (str "sdb") (str "disk") None [rootVolume].

Theorem the_first_path_decides :
  rootIsEncrypted [cryptDisk; plainDisk] [] = (true, true) /\ rootIsEncrypted [plainDisk; cryptDisk] [] = (false, true).
Proof. split; reflexivity. Qed.

(** ** Order, wire form and summary *)

Lemma bytes_le_trans : Transitive (fun a b => bytes_le a b = true).
Proof.
  intros a b c. revert b c. induction a as [|x a IH]; intros [|y b] [|z c]; cbn [bytes_le]; try done.
  rewrite !orb_true_iff, !andb_true_iff, !Z.ltb_lt, !Z.eqb_eq. intros [?|[? ?]] [?|[? ?]]; [left; lia..|].
  right. split; [lia|]. by apply (IH b).
Qed.

Lemma bytes_le_antisym a b : bytes_le a b = true -> bytes_le b a = true -> a = b.
Proof.
  revert b. induction a as [|x a IH]; intros [|y b]; cbn [bytes_le]; try done.
  rewrite !orb_true_iff, !andb_true_iff, !Z.ltb_lt, !Z.eqb_eq. intros [?|[Hc ?]] [?|[? ?]]; [lia..|].
  f_equal; [by apply code_inj|by apply IH].
Qed.

Definition by_name (a b : Result) : Prop := bytes_le (r_Check a) (r_Check b) = true.

Lemma sortResults_sorted l : StronglySorted by_name (sortResults l).
Proof.
  apply Sorted_StronglySorted; [intros a b c; apply bytes_le_trans|].
  assert (Hins : forall x l, Sorted by_name l -> Sorted by_name (insertResult x l)).
  { intros x l0 Hl. induction Hl as [|y l0 Hl IH Hh]; cbn [insertResult]; [by repeat constructor|].
    destruct (bytes_le (r_Check x) (r_Check y)) eqn:E; [by repeat constructor|].
    constructor; [done|]. destruct l0 as [|z l0]; cbn [insertResult].
    - constructor. by apply bytes_le_total.
    - destruct (bytes_le (r_Check x) (r_Check z)); constructor; [by apply bytes_le_total|by inversion Hh]. }
  induction l as [|x l IH]; [constructor|]. cbn. by apply Hins.
Qed.

Lemma sorted_names_unique l1 l2 :
  StronglySorted by_name l1 -> StronglySorted by_name l2 -> l1 ≡ₚ l2 -> NoDup (map r_Check l1) -> l1 = l2.
Proof.
  intros H1. revert l2. induction H1 as [|x l1 H1 IH Hx]; intros l2 H2 Hp Hnd; [by apply Permutation_nil_l in Hp|].
  destruct H2 as [|y l2 H2 Hy]; [by apply Permutation_nil_r in Hp|].
  cbn [map] in Hnd. apply NoDup_cons in Hnd as [Hxn Hnd]. rewrite Forall_forall in Hx, Hy.
  assert (x = y) as <-.
  { assert (Hyx : y ∈ x :: l1) by (rewrite Hp; by left). assert (Hxy : x ∈ y :: l2) by (rewrite <- Hp; by left).
    apply elem_of_cons in Hyx as [->|Hyx]; [done|]. apply elem_of_cons in Hxy as [->|Hxy]; [done|].
    exfalso. apply Hxn. rewrite (bytes_le_antisym _ _ (Hx y Hyx) (Hy x Hxy)).
    apply list_elem_of_In, in_map, list_elem_of_In, Hyx. }
  f_equal. apply IH; [done|by eapply Permutation_cons_inv|done].
Qed.

(** The order in which checks finish, or are listed, changes nothing that is
    published: the results are the same list, sorted by name. *)
Theorem Run_ignores_the_order cs cs' :
  cs ≡ₚ cs' -> NoDup (map r_Check (Run cs)) -> Run cs = Run cs' /\ StronglySorted by_name (Run cs).
Proof.
  intros Hp Hnd. split; [|apply sortResults_sorted]. unfold Run in *.
  apply sorted_names_unique; [apply sortResults_sorted..| |done]. rewrite !sortResults_perm. by apply Permutation_map.
Qed.

(** The wire has three statuses, a reason exactly on the third, and the reader
    can tell the four statuses apart. *)
Theorem wire_statuses_are_the_agreed_three r :
  (w_Status (MarshalJSON r) ∈ [str "pass"; str "fail"; str "not_assessed"]) /\
  (w_Reason (MarshalJSON r) ≠ None <-> w_Status (MarshalJSON r) = str "not_assessed") /\
  (w_Status (MarshalJSON r) = str "fail" <-> r_Status r = Fail) /\
  (forall r', w_Status (MarshalJSON r') = w_Status (MarshalJSON r) -> w_Reason (MarshalJSON r') = w_Reason (MarshalJSON r) ->
     r_Status r' = r_Status r).
Proof.
  destruct r as [n c s d e k]. split_and!.
  - destruct s; cbn; set_solver.
  - by destruct s; cbn.
  - by destruct s; cbn.
  - intros [n' c' s' d' e' k']. by destruct s, s'; cbn.
Qed.

(** The summary loses no check, counts the verdicts and calls nothing failed
    that did not fail. *)
Theorem Summarize_partitions rs :
  let s := Summarize rs in
  let namesOf P := map r_Check (List.filter (fun r => P (r_Status r)) rs) in
  Passed s = namesOf (fun x => bool_decide (x = Pass)) /\
  Failed s = namesOf (fun x => bool_decide (x = Fail)) /\
  NotAssessed s = namesOf (fun x => negb (Assessed x)) /\
  AssessedCount s = Z.of_nat (length (Passed s) + length (Failed s)).
Proof.
  cbv zeta. unfold Summarize.
  assert (Hgen : forall s0, let s := fold_left summarizeOne rs s0 in
    Passed s = Passed s0 ++ map r_Check (List.filter (fun r => bool_decide (r_Status r = Pass)) rs) /\
    Failed s = Failed s0 ++ map r_Check (List.filter (fun r => bool_decide (r_Status r = Fail)) rs) /\
    NotAssessed s = NotAssessed s0 ++ map r_Check (List.filter (fun r => negb (Assessed (r_Status r))) rs) /\
    AssessedCount s = AssessedCount s0 - Z.of_nat (length (Passed s0) + length (Failed s0)) +
                      Z.of_nat (length (Passed s) + length (Failed s))).
  { induction rs as [|r rs IH]; intros s0; cbv zeta; [cbn; rewrite !app_nil_r; split_and!; try done; lia|].
    cbn [fold_left]. destruct (IH (summarizeOne s0 r)) as (A & B & C & D). rewrite D, A, B, C.
    unfold summarizeOne. destruct (r_Status r) eqn:E; cbn [List.filter Passed Failed NotAssessed AssessedCount];
      rewrite E; cbn [bool_decide decide_rel Assessed negb map]; rewrite <- ?app_assoc; cbn [app];
      rewrite ?length_app; cbn [length]; split_and!; done || lia. }
  destruct (Hgen {| Passed := []; Failed := []; NotAssessed := []; AssessedCount := 0 |}) as (-> & -> & -> & D).
  rewrite D. cbn. split_and!; done || lia.
Qed.

(** ** Where the verdicts go wrong *)

(** A host whose ufw is installed and off and whose nftables is on. *)
Definition mixedTools (name : bytes) (_ : list bytes) : toolReply :=
  if bool_decide (name = str "ufw") then Ran (str "Status: inactive" ++ [nl]) true
  else if bool_decide (name = str "nft")
  then Ran (unlines [str "table inet filter {"; str "  chain input {"; str "    type filter hook input priority 0;";
                     str "    tcp dport 22 accept"; str "  }"; str "}"]) true
  else Missing.

(** An inactive ufw hides every other firewall.  The check stops at the first
    tool that answers: a machine protected by nftables fails when ufw happens to
    be installed, although nobody asked nftables. *)
Theorem inactive_ufw_hides_other_firewalls :
  r_Status (firewall_Run mixedTools) = Fail /\
  exists out, answered (mixedTools (str "nft") [str "list"; str "ruleset"]) out /\ hasRules out = true.
Proof.
  split; [vm_compute; reflexivity|]. eexists. split; [eexists; split; [reflexivity|reflexivity]|].
  vm_compute. reflexivity.
Qed.

(** What counts as a rule.  A chain whose policy drops everything has none and
    is called empty; a comment line is one. *)
Theorem rules_are_misread :
  hasRules (unlines [str "table inet filter {"; str "  chain input {";
                     str "    type filter hook input priority 0; policy drop;"; str "  }"; str "}"]) = false /\
  hasRules (unlines [str "# Warning: table ip filter is managed by iptables-nft, do not touch!";
                     str "table ip filter {"; str "}"]) = true.
Proof. split; vm_compute; reflexivity. Qed.

(** A product state that cannot be read is a failure.  When Security Center
    lists products and no state parses, or the answer has no [name=state] part
    at all, the check says that the product is not enabled. *)
Theorem unreadable_product_state_is_a_failure out :
  TrimSpace out ≠ [] -> TrimSpace (TrimSpace out) = TrimSpace out ->
  Forall (fun part => match cutPart part with
                      | Some (_, state) => productDigits 0 (TrimSpace state) = None
                      | None => True
                      end) (Split ";" (TrimSpace out)) ->
  r_Status (winAntivirus_Run (Ran out true)) = Fail.
Proof.
  intros Hne Htt Hp. unfold winAntivirus_Run. cbn [output]. rewrite Htt, bool_decide_eq_false_2 by done.
  assert (He : forall acc, acc.2 = false -> (fold_left antivirusPart (Split ";" (TrimSpace out)) acc).2 = false).
  { clear -Hp. induction Hp as [|part parts Hpart _ IH]; intros acc Ha; [done|]. cbn [fold_left]. apply IH.
    unfold antivirusPart. destruct (cutPart part) as [[product state]|]; [|done]. cbn [snd].
    unfold productStateEnabled. by rewrite Hpart, Ha. }
  specialize (He (∅, false) eq_refl). destruct (fold_left _ _ _) as [ev en]. cbn in He. by rewrite He.
Qed.

(** A check that panics loses its category: its result is in no category at
    all, so a policy on the category has nothing to look at. *)
Theorem panic_loses_the_category c took late r :
  r_Category (runOne c Panicked took late) = None /\
  r_Category (runOne c (Returned r) took late) = Some (ck_Category c).
Proof. done. Qed.

(** A snapshot's hash changes with the clock.  Two rounds with the same checks
    and the same verdicts are hashed over different bytes as soon as one check
    took another number of milliseconds, with any encoder that tells distinct
    objects apart. *)
Theorem durations_change_what_is_hashed canonical c r t t' late :
  Inj (=) (=) canonical -> t ÷ 1000000 ≠ t' ÷ 1000000 ->
  let round took := map MarshalJSON (Run [{| cr_Check := c; cr_End := Returned r; cr_Took := took; cr_TimedOut := late |}]) in
  map w_Status (round t) = map w_Status (round t') /\ (canonical (round t) : bytes) ≠ canonical (round t').
Proof.
  intros Hc Ht round. split.
  - unfold round, Run. cbn. unfold MarshalJSON. cbn. by destruct (r_Status r).
  - intros He. apply Hc in He. apply (f_equal (map w_TookMS)) in He. unfold round, Run in He. cbn in He.
    unfold MarshalJSON in He. cbn in He. destruct (r_Status r); cbn in He; congruence.
Qed.

(** ** Witnesses *)

Definition mixedRuns : list checkRun :=
  [{| cr_Check := {| ck_Name := str "firewall"; ck_Category := CategoryFirewall |};
      cr_End := Returned (firewall_Run mixedTools); cr_Took := 5 * 1000000; cr_TimedOut := false |}].

Definition mixedResult : Result :=
  runOne {| ck_Name := str "firewall"; ck_Category := CategoryFirewall |} (Returned (firewall_Run mixedTools))
    (5 * 1000000) false.

Lemma posture_fails_only_on_an_answer_witness :
  r_Status mixedResult = Fail /\ attributed (linuxChecks mixedTools (fun _ => None)) mixedResult /\
  linuxEvidence mixedTools (fun _ => None) (r_Check mixedResult).
Proof.
  assert (Hf : r_Status mixedResult = Fail) by (vm_compute; reflexivity). split; [exact Hf|].
  refine (proj1 (posture_fails_only_on_an_answer mixedTools (fun _ => None) Missing Missing Missing
    ({| DomainJoined := false; EverwasCerts := 0; OtherClientCerts := 0; GroupPolicyProfile := false |}, None)
    mixedRuns mixedResult _ Hf) _).
  - apply Run_elem. eexists. split; [apply list_elem_of_here|]. reflexivity.
  - constructor; [|constructor]. right. exists (firewall_Run mixedTools). split; [reflexivity|].
    right. left.
Defined.
