(* ===== verification/Cng.v ===== *)
(** * Cng: the device key inside a Windows key storage provider (agent/internal/netcert)

    cng_windows.go.  A [machine] is what a renewal can change on Windows: the
    disk of [GoOS] with its script of faults, the key containers of the
    machine key store, the three certificate stores, and how many provider
    handles the process holds.  Every call into ncrypt.dll and crypt32.dll
    consumes one fault: it completes, fails having done nothing, or the
    process dies there.  The provider's own arithmetic (the signature of a
    digest, the public blob of a key) is a parameter; what the code does with
    those bytes is not. *)
From S2P Require Import Prelude GoLib GoText GoOS.

(** ** Big-endian integers and DER *)

(** [new(big.Int).SetBytes(b)] *)
Definition SetBytes (b : bytes) : Z := fold_left (fun n c => n * 256 + code c) b 0.

(** [n] in [k] big-endian bytes; [n.Bytes()] is the shortest such. *)
Fixpoint bigEndian (k : nat) (n : Z) : bytes :=
  match k with
  | O => []
  | S k' => bigEndian k' (n / 256) ++ [chr (n mod 256)]
  end.
Definition byteLen (n : Z) : nat := if n =? 0 then 0 else S (Z.to_nat (Z.log2 n / 8)).
Definition BigBytes (n : Z) : bytes := bigEndian (byteLen n) n.

(** [asn1.Marshal]: an INTEGER's contents have the sign in the top bit. *)
Definition intBytes (n : Z) : bytes :=
  if n =? 0 then [chr 0]
  else match BigBytes n with
       | (c :: _) as b => if 128 <=? code c then chr 0 :: b else b
       | [] => []
       end.

Definition derLength (n : nat) : bytes :=
  let z := Z.of_nat n in
  if 128 <=? z then chr (128 + Z.of_nat (byteLen z)) :: BigBytes z else [chr z].

Definition tlv (tag : Z) (body : bytes) : bytes := chr tag :: derLength (length body) ++ body.

(** [asn1.Marshal(struct{ R, S *big.Int }{...})] *)
Definition marshalSignature (r s : Z) : bytes := tlv 48 (tlv 2 (intBytes r) ++ tlv 2 (intBytes s)).

(** The reading side, as DER defines it: lengths and integers in their
    shortest form, nothing left over.  Not part of the program: it says what
    the other end makes of the bytes. *)
Definition readLength (s : bytes) : option (nat * bytes) :=
  match s with
  | [] => None
  | c :: s' =>
      if code c <? 128 then Some (Z.to_nat (code c), s')
      else
        let k := Z.to_nat (code c - 128) in
        if (k =? 0)%nat || (length s' <? k)%nat then None
        else
          let z := SetBytes (take k s') in
          if (z <? 128) || negb (byteLen z =? k)%nat then None else Some (Z.to_nat z, drop k s')
  end.

Definition readTLV (tag : Z) (s : bytes) : option (bytes * bytes) :=
  match s with
  | t :: s' =>
      if negb (code t =? tag) then None
      else match readLength s' with
           | Some (n, body) => if (length body <? n)%nat then None else Some (take n body, drop n body)
           | None => None
           end
  | [] => None
  end.

Definition readInt (b : bytes) : option Z :=
  match b with
  | [] => None
  | c :: b' =>
      let short := match b' with
                   | d :: _ => ((code c =? 0) && (code d <? 128)) || ((code c =? 255) && (128 <=? code d))
                   | [] => false
                   end in
      if short then None
      else Some (SetBytes b - if 128 <=? code c then 256 ^ blen b else 0)
  end.

Definition unmarshalSignature (s : bytes) : option (Z * Z) :=
  match readTLV 48 s with
  | Some (body, []) =>
      match readTLV 2 body with
      | Some (r, rest) =>
          match readTLV 2 rest with
          | Some (s, []) =>
              match readInt r, readInt s with Some r, Some s => Some (r, s) | _, _ => None end
          | _ => None
          end
      | None => None
      end
  | _ => None
  end.

(** ** The machine *)

(** A certificate of a store: its DER and the key container it is bound to,
    [[]] for none ([CERT_KEY_PROV_INFO_PROP_ID]). *)
Record entry := Entry { en_der : bytes; en_container : bytes }.

Record machine := Machine {
  mc_world : world;              (** disk, clock and faults *)
  mc_keys : gmap bytes bytes;    (** container name to private key *)
  mc_my : list entry;            (** LocalMachine\My *)
  mc_ca : list entry;
  mc_root : list entry;
  mc_handles : Z;                (** ncrypt objects open *)
  mc_closed : bool;              (** [closeOnce] of the signer in hand *)
}.

Definition win (A : Type) : Type := machine -> outcome A * machine.

Definition wret {A} (a : A) : win A := fun m => (Ret a, m).
Definition wbind {A B} (p : win A) (k : A -> win B) : win B := fun m =>
  match p m with (Ret a, m') => k a m' | (Died, m') => (Died, m') end.
Definition wtry_as {A B} (f : error -> error) (p : win (res error A)) (k : A -> win (res error B)) :
    win (res error B) :=
  wbind p (fun r => match r with Ok a => k a | Err e => wret (Err (f e)) end).

Notation "'let^' x := p 'in' k" := (wbind p (fun x => k))
  (at level 10, x binder, p at level 100, k at level 200) : everwas_scope.
Notation "'try^' x := p 'in' k" := (wtry_as (fun e => e) p (fun x => k))
  (at level 10, x binder, p at level 100, k at level 200) : everwas_scope.
Notation "'try^' x := p 'orelse' f 'in' k" := (wtry_as f p (fun x => k))
  (at level 10, x binder, p at level 100, f at level 100, k at level 200) : everwas_scope.

Definition with_world (m : machine) (w : world) : machine :=
  Machine w (mc_keys m) (mc_my m) (mc_ca m) (mc_root m) (mc_handles m) (mc_closed m).
Definition with_keys (m : machine) (ks : gmap bytes bytes) : machine :=
  Machine (mc_world m) ks (mc_my m) (mc_ca m) (mc_root m) (mc_handles m) (mc_closed m).
Definition with_handles (m : machine) (h : Z) : machine :=
  Machine (mc_world m) (mc_keys m) (mc_my m) (mc_ca m) (mc_root m) h (mc_closed m).
Definition with_closed (m : machine) (b : bool) : machine :=
  Machine (mc_world m) (mc_keys m) (mc_my m) (mc_ca m) (mc_root m) (mc_handles m) b.

(** The file operations of [GoOS] on the machine's disk. *)
Definition lift {A} (p : io A) : win A := fun m =>
  let '(o, w) := p (mc_world m) in (o, with_world m w).

(** A call into a system library. *)
Definition dll {A} (full : machine -> res error A * machine) : win (res error A) := fun m =>
  match faults (mc_world m) with
  | Fails _ :: fs => (Ret (Err ErrIO), with_world m (with_faults (mc_world m) fs))
  | Dies _ :: fs => (Died, with_world m (with_faults (mc_world m) fs))
  | Proceed :: fs => let '(r, m') := full (with_world m (with_faults (mc_world m) fs)) in (Ret r, m')
  | [] => let '(r, m') := full m in (Ret r, m')
  end.

Definition get {A} (f : machine -> A) : win A := fun m => (Ret (f m), m).
Definition put (f : machine -> machine) : win unit := fun m => (Ret tt, f m).
(** An index out of range takes the process down. *)
Definition panic {A} : win A := fun m => (Died, m).

(** [_ = p] *)
Definition wignore {A} (p : win (res error A)) : win unit := let^ _ := p in wret tt.

(** A crash-aware weakest precondition over whole machines: [C] is what holds
    of the machine the process leaves behind when it dies. *)
Definition wpm {A} (p : win A) (Q : A -> machine -> Prop) (C : machine -> Prop) (m : machine) : Prop :=
  match p m with (Ret a, m') => Q a m' | (Died, m') => C m' end.

(** ** The provider *)

Definition keyStorageProvider : bytes := str "Microsoft Software Key Storage Provider".
Definition ecdsaP256Algorithm : bytes := str "ECDSA_P256".
Definition exportPolicyProperty : bytes := str "Export Policy".
Definition keyUsageProperty : bytes := str "Key Usage".
Definition allowSigning : Z := 2.
Definition eccPublicBlob : bytes := str "ECCPUBLICBLOB".
Definition ecdsaPublicP256Magic : Z := 827540293.  (** 0x31534345 *)

(** [windows.UTF16PtrFromString] refuses a NUL. *)
Definition UTF16PtrFromString (s : bytes) : res error unit :=
  if bool_decide (chr 0 ∈ s) then Err (Sentinel "invalid argument") else Ok tt.

(** [binary.LittleEndian.Uint32] and [PutUint32]. *)
Definition Uint32 (b : bytes) : Z := SetBytes (rev (take 4 b)).
Definition PutUint32 (v : Z) : bytes := rev (bigEndian 4 v).

(** The tail of [exportPublic]. *)
Definition parsePublicBlob (blob : bytes) : res error (Z * Z) :=
  if blen blob <? 8 then Err (Sentinel "netcert: public blob is too short")
  else if negb (Uint32 (take 4 blob) =? ecdsaPublicP256Magic)
  then Err (Sentinel "netcert: provider returned key type, not ECDSA P-256")
  else
    let size := Uint32 (take 4 (drop 4 blob)) in
    if (size <=? 0) || (blen blob <? 8 + 2 * size)
    then Err (Sentinel "netcert: public blob claims more than it holds")
    else
      let n := Z.to_nat size in
      Ok (SetBytes (take n (drop 8 blob)), SetBytes (take n (drop (8 + n) blob))).

(** The tail of [Sign]. *)
Definition encodeSignature (raw : bytes) : res error bytes :=
  if (blen raw =? 0) || negb (blen raw mod 2 =? 0)
  then Err (Sentinel "netcert: signature is not an r||s pair")
  else
    let half := Nat.div2 (length raw) in
    Ok (marshalSignature (SetBytes (take half raw)) (SetBytes (drop half raw))).

Record cngSigner := {
  sg_prov : bool;       (** the handles, when nonzero *)
  sg_hkey : bool;
  sg_key : bytes;       (** the private key behind the key handle *)
  sg_pub : Z * Z;
  sg_name : bytes;
}.

Definition status (op : String.string) : error -> error := Errorf op.

Section provider.
(** Whether ncrypt.dll has the exports, what NCryptExportKey says of a key and
    what NCryptSignHash makes of a digest with it. *)
Context (ncryptErr : option error) (pubBlob : bytes -> bytes) (signWith : bytes -> bytes -> bytes).

Definition loadNCrypt : win (res error unit) :=
  wret (match ncryptErr with Some e => Err (Errorf "netcert: ncrypt.dll" e) | None => Ok tt end).

Definition openHandle (m : machine) : res error unit * machine := (Ok tt, with_handles m (mc_handles m + 1)).

Definition freeNCryptObject (h : bool) : win unit :=
  if h then put (fun m => with_handles m (mc_handles m - 1)) else wret tt.

Definition Close (s : cngSigner) : win unit :=
  let^ closed := get mc_closed in
  if closed then wret tt
  else
    let^ _ := put (fun m => with_closed m true) in
    let^ _ := freeNCryptObject (sg_hkey s) in
    freeNCryptObject (sg_prov s).

Definition openProvider : win (res error unit) :=
  try^ _ := wret (UTF16PtrFromString keyStorageProvider) orelse Errorf "netcert: provider name" in
  try^ _ := dll openHandle orelse status "NCryptOpenStorageProvider" in
  wret (Ok tt).

(** [openMachineKey]: the provider handle is open whenever it returns no
    error, the key handle when the container was there. *)
Definition openMachineKey (name : bytes) : win (res error bool) :=
  try^ _ := loadNCrypt in
  try^ _ := openProvider in
  match UTF16PtrFromString name with
  | Err e => let^ _ := freeNCryptObject true in wret (Err (Errorf "netcert: key name" e))
  | Ok _ =>
      let^ r := dll (fun m => match mc_keys m !! name with
                              | Some _ => (Ok true, with_handles m (mc_handles m + 1))
                              | None => (Ok false, m)
                              end) in
      match r with
      | Err e => let^ _ := freeNCryptObject true in wret (Err (status "NCryptOpenKey" e))
      | Ok found => wret (Ok found)
      end
  end.

Definition deleteCNGKey (name : bytes) : win (res error unit) :=
  try^ found := openMachineKey name in
  if negb found then let^ _ := freeNCryptObject true in wret (Ok tt)
  else
    let^ r := dll (fun m => (Ok tt, with_handles (with_keys m (delete name (mc_keys m))) (mc_handles m - 1))) in
    match r with
    | Err e =>
        let^ _ := freeNCryptObject true in
        let^ _ := freeNCryptObject true in
        wret (Err (status "NCryptDeleteKey" e))
    | Ok _ => let^ _ := freeNCryptObject true in wret (Ok tt)
    end.

(** [setDWORD]; the property itself is not part of the machine. *)
Definition setDWORD (property : bytes) (value : Z) : win (res error unit) :=
  try^ _ := wret (UTF16PtrFromString property) orelse Errorf "netcert: property name" in
  try^ _ := dll (fun m => (Ok tt, m)) orelse status "NCryptSetProperty" in
  wret (Ok tt).

(** Both calls of [exportPublic] and of [signHash]: the first asks for the
    size, and indexing a buffer of size zero panics. *)
Definition twoPass (op1 op2 : String.string) (out : bytes) : win (res error bytes) :=
  try^ need := dll (fun m => (Ok (length out), m)) orelse status op1 in
  if (need =? 0)%nat then panic
  else try^ _ := dll (fun m => (Ok tt, m)) orelse status op2 in
       wret (Ok out).

Definition exportPublic (key : bytes) : win (res error (Z * Z)) :=
  try^ _ := wret (UTF16PtrFromString eccPublicBlob) orelse Errorf "netcert: blob type" in
  try^ blob := twoPass "NCryptExportKey (size)" "NCryptExportKey" (pubBlob key) in
  wret (parsePublicBlob blob).

Definition signHash (s : cngSigner) (digest : bytes) : win (res error bytes) :=
  twoPass "NCryptSignHash (size)" "NCryptSignHash" (signWith (sg_key s) digest).

Definition Sign (s : cngSigner) (digest : bytes) : win (res error bytes) :=
  if bool_decide (digest = []) then wret (Err (Sentinel "netcert: nothing to sign"))
  else try^ raw := signHash s digest in wret (encodeSignature raw).

(** [createCNGKey]: [key] is the key pair the provider makes.  Nothing is
    durable until NCryptFinalizeKey, which writes the container, over any
    earlier one of that name (NCRYPT_OVERWRITE_KEY_FLAG). *)
Definition createCNGKey (key name : bytes) : win (res error cngSigner) :=
  try^ _ := loadNCrypt in
  try^ _ := openProvider in
  let^ _ := put (fun m => with_closed m false) in
  let signer h := {| sg_prov := true; sg_hkey := h; sg_key := key; sg_pub := (0, 0); sg_name := name |} in
  let failed {A} h (e : error) : win (res error A) := let^ _ := Close (signer h) in wret (Err e) in
  match UTF16PtrFromString ecdsaP256Algorithm with
  | Err e => failed false (Errorf "netcert: algorithm name" e)
  | Ok _ =>
  match UTF16PtrFromString name with
  | Err e => failed false (Errorf "netcert: key name" e)
  | Ok _ =>
      let^ r := dll openHandle in
      match r with
      | Err e => failed false (status "NCryptCreatePersistedKey" e)
      | Ok _ =>
          let^ r :=
            try^ _ := setDWORD exportPolicyProperty 0 in
            try^ _ := setDWORD keyUsageProperty allowSigning in
            try^ _ := dll (fun m => (Ok tt, with_keys m (<[name := key]> (mc_keys m))))
              orelse status "NCryptFinalizeKey" in
            exportPublic key in
          match r with
          | Err e => failed true e
          | Ok pub =>
              wret (Ok {| sg_prov := true; sg_hkey := true; sg_key := key; sg_pub := pub; sg_name := name |})
          end
      end
  end
  end.
End provider.

(** ** Integers and their bytes *)

Lemma SetBytes_snoc b c : SetBytes (b ++ [c]) = SetBytes b * 256 + code c.
Proof. unfold SetBytes. by rewrite fold_left_app. Qed.

Lemma length_bigEndian k n : length (bigEndian k n) = k.
Proof. revert n. induction k as [|k IH]; intros n; [done|]. cbn [bigEndian]. rewrite length_app, IH. simpl. lia. Qed.

Lemma SetBytes_range b : 0 <= SetBytes b < 256 ^ blen b.
Proof.
  induction b as [|c b IH] using rev_ind; [done|]. rewrite SetBytes_snoc, blen_app.
  pose proof (code_range c). change (blen [c]) with 1. rewrite Z.pow_add_r by (unfold blen; lia). lia.
Qed.

Lemma SetBytes_bigEndian k n : 0 <= n < 256 ^ Z.of_nat k -> SetBytes (bigEndian k n) = n.
Proof.
  revert n. induction k as [|k IH]; intros n Hn.
  - change (256 ^ Z.of_nat 0) with 1 in Hn. cbn. lia.
  - cbn [bigEndian]. rewrite SetBytes_snoc.
    rewrite Nat2Z.inj_succ, Z.pow_succ_r in Hn by lia.
    rewrite IH by (split; [apply Z.div_pos | apply Z.div_lt_upper_bound]; lia).
    rewrite code_chr by (apply Z.mod_pos_bound; lia). pose proof (Z.div_mod n 256). lia.
Qed.

Lemma bigEndian_inj k n b : length b = k -> SetBytes b = n -> b = bigEndian k n.
Proof.
  revert n b. induction k as [|k IH]; intros n b Hl Hn; [by destruct b|].
  destruct b as [|c b _] using rev_ind; [done|]. rewrite length_app in Hl. cbn [length] in Hl.
  rewrite SetBytes_snoc in Hn. pose proof (code_range c). cbn [bigEndian].
  assert (Hq : n / 256 = SetBytes b) by (symmetry; apply (Z.div_unique n 256 _ (code c)); lia).
  assert (Hr : n mod 256 = code c) by (symmetry; apply (Z.mod_unique n 256 (SetBytes b)); lia).
  rewrite Hr, chr_code. f_equal. apply IH; [lia|done].
Qed.

(** [byteLen] is the number of bytes of [n]. *)
Lemma byteLen_spec n : 0 < n -> 256 ^ (Z.of_nat (byteLen n) - 1) <= n < 256 ^ Z.of_nat (byteLen n).
Proof.
  intros Hn. unfold byteLen. rewrite (proj2 (Z.eqb_neq n 0)) by lia.
  pose proof (Z.log2_spec n Hn) as [H1 H2]. pose proof (Z.log2_nonneg n).
  pose proof (Z.div_pos (Z.log2 n) 8). pose proof (Z.div_mod (Z.log2 n) 8). pose proof (Z.mod_pos_bound (Z.log2 n) 8).
  rewrite Nat2Z.inj_succ, Z2Nat.id by lia. change 256 with (2 ^ 8). rewrite <- !Z.pow_mul_r by lia. split.
  - etrans; [|exact H1]. apply Z.pow_le_mono_r; lia.
  - eapply Z.lt_le_trans; [exact H2|]. apply Z.pow_le_mono_r; lia.
Qed.

Lemma byteLen_pos n : 0 < n -> (0 < byteLen n)%nat.
Proof. unfold byteLen. intros. rewrite (proj2 (Z.eqb_neq n 0)) by lia. lia. Qed.

Lemma SetBytes_BigBytes n : 0 <= n -> SetBytes (BigBytes n) = n.
Proof.
  intros. unfold BigBytes. destruct (Z.eq_dec n 0) as [->|]; [done|].
  apply SetBytes_bigEndian. pose proof (byteLen_spec n). lia.
Qed.

Lemma SetBytes_cons c b : SetBytes (c :: b) = code c * 256 ^ blen b + SetBytes b.
Proof.
  induction b as [|d b IH] using rev_ind; [unfold SetBytes, blen; cbn; lia|].
  change (c :: b ++ [d]) with ((c :: b) ++ [d]). rewrite !SetBytes_snoc, IH, blen_app.
  change (blen [d]) with 1. rewrite Z.pow_add_r by (unfold blen; lia). lia.
Qed.

(** The shortest form starts with a nonzero byte. *)
Lemma BigBytes_head n : 0 < n -> exists c b, BigBytes n = c :: b /\ code c ≠ 0.
Proof.
  intros Hn. pose proof (byteLen_pos n Hn). pose proof (byteLen_spec n Hn) as [Hlo _].
  destruct (BigBytes n) as [|c b] eqn:E.
  { apply (f_equal length) in E. unfold BigBytes in E. rewrite length_bigEndian in E. cbn in E. lia. }
  exists c, b. split; [done|]. intros Hc. pose proof (SetBytes_BigBytes n) as Hv.
  rewrite E, SetBytes_cons, Hc in Hv. pose proof (SetBytes_range b).
  apply (f_equal length) in E. unfold BigBytes in E. rewrite length_bigEndian in E. cbn [length] in E.
  replace (Z.of_nat (byteLen n) - 1) with (blen b) in Hlo by (unfold blen; lia). lia.
Qed.

Lemma intBytes_pos n : 0 < n ->
  exists c b, BigBytes n = c :: b /\ code c ≠ 0 /\
    intBytes n = if 128 <=? code c then chr 0 :: c :: b else c :: b.
Proof.
  intros Hn. destruct (BigBytes_head n Hn) as (c & b & E & Hc). exists c, b.
  do 2 (split; [done|]). unfold intBytes. rewrite (proj2 (Z.eqb_neq n 0)) by lia. by rewrite E.
Qed.

(** The contents of a DER integer read back as the integer. *)
Lemma readInt_intBytes n : 0 <= n -> readInt (intBytes n) = Some n.
Proof.
  intros Hn. destruct (Z.eq_dec n 0) as [->|]; [vm_compute; reflexivity|].
  destruct (intBytes_pos n) as (c & b & E & Hc & ->); [lia|].
  pose proof (SetBytes_BigBytes n Hn) as Hv. rewrite E in Hv.
  assert (H0 : code (chr 0) = 0) by reflexivity. destruct (Z.leb_spec 128 (code c)) as [Hh|Hl].
  - unfold readInt. rewrite H0, (proj2 (Z.ltb_ge (code c) 128)) by lia. cbn [Z.eqb Z.leb Z.compare andb orb].
    rewrite SetBytes_cons, Hv, H0. f_equal. lia.
  - unfold readInt. rewrite (proj2 (Z.leb_gt 128 (code c))), Hv by lia.
    destruct b as [|d b']; [f_equal; lia|]. rewrite (proj2 (Z.eqb_neq (code c) 0)) by done.
    rewrite (proj2 (Z.eqb_neq (code c) 255)) by lia. cbn [andb orb]. f_equal. lia.
Qed.

Lemma readLength_derLength n rest :
  Z.of_nat n < 256 ^ 127 -> readLength (derLength n ++ rest) = Some (n, rest).
Proof.
  intros Hn. unfold derLength, readLength. destruct (Z.leb_spec 128 (Z.of_nat n)) as [Hh|Hl].
  - pose proof (byteLen_pos (Z.of_nat n)) as Hp. pose proof (byteLen_spec (Z.of_nat n)) as Hs.
    assert (Hk : (Z.of_nat (byteLen (Z.of_nat n)) <= 127)).
    { destruct (Z.le_gt_cases (Z.of_nat (byteLen (Z.of_nat n))) 127) as [|Hgt]; [done|].
      assert (256 ^ 127 <= 256 ^ (Z.of_nat (byteLen (Z.of_nat n)) - 1)) by (apply Z.pow_le_mono_r; lia). lia. }
    cbn [app]. rewrite code_chr by lia. rewrite (proj2 (Z.ltb_ge _ 128)) by lia.
    replace (Z.to_nat (128 + Z.of_nat (byteLen (Z.of_nat n)) - 128)) with (byteLen (Z.of_nat n)) by lia.
    assert (Hlen : length (BigBytes (Z.of_nat n)) = byteLen (Z.of_nat n)) by apply length_bigEndian.
    rewrite (proj2 (Nat.eqb_neq (byteLen (Z.of_nat n)) 0)) by lia.
    rewrite length_app, Hlen, (proj2 (Nat.ltb_ge _ _)) by lia. cbn [orb].
    rewrite !(take_app_length' (BigBytes (Z.of_nat n)) rest _ (eq_sym Hlen)), drop_app_length' by done.
    rewrite SetBytes_BigBytes, (proj2 (Z.ltb_ge _ 128)), Nat.eqb_refl by lia. cbn [orb negb].
    by rewrite Nat2Z.id.
  - cbn [app]. rewrite code_chr by lia. by rewrite (proj2 (Z.ltb_lt _ 128)), Nat2Z.id by lia.
Qed.

Lemma readTLV_tlv tag body rest :
  0 <= tag < 256 -> blen body < 256 ^ 127 -> readTLV tag (tlv tag body ++ rest) = Some (body, rest).
Proof.
  intros Ht Hb. unfold tlv, readTLV. cbn [app]. rewrite code_chr, Z.eqb_refl by done. cbn [negb].
  rewrite <- app_assoc, readLength_derLength by exact Hb.
  rewrite length_app, (proj2 (Nat.ltb_ge _ _)) by lia. by rewrite take_app_length, drop_app_length.
Qed.

Lemma length_intBytes n : 0 <= n -> (length (intBytes n) <= S (byteLen n))%nat.
Proof.
  intros Hn. destruct (Z.eq_dec n 0) as [->|]; [cbn; lia|].
  destruct (intBytes_pos n) as (c & b & E & _ & ->); [lia|].
  apply (f_equal length) in E. unfold BigBytes in E. rewrite length_bigEndian in E. cbn [length] in E.
  destruct (128 <=? code c); cbn [length]; lia.
Qed.

Lemma length_tlv tag body : (length (tlv tag body) <= 2 + byteLen (Z.of_nat (length body)) + length body)%nat.
Proof.
  unfold tlv, derLength. cbn [length]. rewrite length_app.
  destruct (128 <=? Z.of_nat (length body)); cbn [length]; [|lia].
  unfold BigBytes. rewrite length_bigEndian. lia.
Qed.

Lemma byteLen_le n k : 0 <= n < 256 ^ Z.of_nat k -> (byteLen n <= k)%nat.
Proof.
  intros Hn. destruct (Z.eq_dec n 0) as [->|]; [cbn; lia|].
  destruct (le_gt_dec (byteLen n) k) as [|Hgt]; [done|]. pose proof (byteLen_spec n).
  assert (256 ^ Z.of_nat k <= 256 ^ (Z.of_nat (byteLen n) - 1)) by (apply Z.pow_le_mono_r; lia). lia.
Qed.

(** Every number of a provider's signature fits: coordinates of up to a
    thousand bytes, where P-256 has 32. *)
Definition coordinate (z : Z) : Prop := 0 <= z < 256 ^ 1000.

Lemma marshalSignature_reads r s :
  coordinate r -> coordinate s -> unmarshalSignature (marshalSignature r s) = Some (r, s).
Proof.
  intros Hr Hs. unfold coordinate in Hr, Hs. unfold unmarshalSignature, marshalSignature.
  pose proof (length_intBytes r (proj1 Hr)) as Lr. pose proof (length_intBytes s (proj1 Hs)) as Ls.
  pose proof (byteLen_le r 1000 Hr) as Br. pose proof (byteLen_le s 1000 Hs) as Bs.
  assert (H2 : 256 ^ 2 < 256 ^ 127) by reflexivity. assert (E2 : 256 ^ 2 = 65536) by reflexivity.
  assert (Tr : (byteLen (Z.of_nat (length (intBytes r))) <= 2)%nat)
    by (apply byteLen_le; change (256 ^ Z.of_nat 2) with 65536; lia).
  assert (Ts : (byteLen (Z.of_nat (length (intBytes s))) <= 2)%nat)
    by (apply byteLen_le; change (256 ^ Z.of_nat 2) with 65536; lia).
  pose proof (length_tlv 2 (intBytes r)) as Vr. pose proof (length_tlv 2 (intBytes s)) as Vs.
  rewrite <- (app_nil_r (tlv 48 _)), readTLV_tlv; [|lia|rewrite blen_app; unfold blen; lia].
  rewrite readTLV_tlv by (unfold blen; lia).
  rewrite <- (app_nil_r (tlv 2 (intBytes s))), readTLV_tlv by (unfold blen; lia).
  by rewrite !readInt_intBytes by lia.
Qed.

Lemma encodeSignature_spec raw :
  blen raw <= 2000 ->
  let half := Nat.div2 (length raw) in
  (forall sig, encodeSignature raw = Ok sig -> length raw = (half + half)%nat /\
     unmarshalSignature sig = Some (SetBytes (take half raw), SetBytes (drop half raw))) /\
  (raw ≠ [] -> length raw = (half + half)%nat -> is_ok (encodeSignature raw) = true).
Proof.
  intros Hl half. unfold encodeSignature. destruct (Z.eqb_spec (blen raw) 0) as [H0|H0].
  { split; [done|]. intros Hr. destruct raw; [done|]. unfold blen in H0. cbn [length] in H0. lia. }
  pose proof (Nat.div2_odd (length raw)) as Ho. fold half in Ho. unfold blen in *.
  destruct (Z.eqb_spec (Z.of_nat (length raw) mod 2) 0) as [He|He]; cbn [orb negb].
  2: { split; [done|]. intros _ Hd. exfalso. apply He. rewrite Hd.
       replace (Z.of_nat (half + half)) with (Z.of_nat half * 2) by lia. apply Z.mod_mul. lia. }
  assert (Hh : length raw = (half + half)%nat).
  { apply Z.mod_divide in He as [q Hq]; [|lia]. destruct (Nat.odd (length raw)); cbn [Nat.b2n] in Ho; lia. }
  split; [|done]. intros sig [= <-]. split; [done|]. fold half. apply marshalSignature_reads; unfold coordinate.
  all: match goal with |- 0 <= SetBytes ?b < _ => pose proof (SetBytes_range b) as Hb end.
  all: split; [lia|]; eapply Z.lt_le_trans; [apply Hb|]; apply Z.pow_le_mono_r; [lia|].
  all: unfold blen; rewrite ?length_take, ?length_drop; lia.
Qed.

(** ** The public blob *)

Definition publicBlob (n : nat) (x y : Z) (tail : bytes) : bytes :=
  PutUint32 ecdsaPublicP256Magic ++ PutUint32 (Z.of_nat n) ++ bigEndian n x ++ bigEndian n y ++ tail.

Lemma length_PutUint32 v : length (PutUint32 v) = 4%nat.
Proof. unfold PutUint32. by rewrite length_rev, length_bigEndian. Qed.

Lemma Uint32_PutUint32 v : 0 <= v < 2 ^ 32 -> Uint32 (PutUint32 v) = v.
Proof.
  intros Hv. unfold Uint32. rewrite take_ge by (rewrite length_PutUint32; lia).
  unfold PutUint32. rewrite rev_involutive. apply SetBytes_bigEndian. exact Hv.
Qed.

Lemma PutUint32_Uint32 b : length b = 4%nat -> b = PutUint32 (Uint32 b).
Proof.
  intros Hl. unfold Uint32, PutUint32. rewrite take_ge by lia.
  rewrite <- (bigEndian_inj 4 (SetBytes (rev b)) (rev b)); [by rewrite rev_involutive|by rewrite length_rev|done].
Qed.

Lemma Uint32_range b : 0 <= Uint32 b < 2 ^ 32.
Proof.
  unfold Uint32. pose proof (SetBytes_range (rev (take 4 b))) as H. split; [lia|].
  eapply Z.lt_le_trans; [apply H|]. change (2 ^ 32) with (256 ^ 4). apply Z.pow_le_mono_r; [lia|].
  unfold blen. rewrite length_rev, length_take. lia.
Qed.

Lemma parsePublicBlob_publicBlob n x y tail :
  (0 < n)%nat -> Z.of_nat n < 2 ^ 32 -> 0 <= x < 256 ^ Z.of_nat n -> 0 <= y < 256 ^ Z.of_nat n ->
  parsePublicBlob (publicBlob n x y tail) = Ok (x, y).
Proof.
  intros Hn Hn32 Hx Hy. unfold parsePublicBlob, publicBlob.
  assert (Hlen : forall a b c : bytes, length a = 4%nat -> length b = 4%nat -> drop 8 (a ++ b ++ c) = c).
  { intros a b c Ha Hb. rewrite app_assoc. apply drop_app_length'. rewrite length_app. lia. }
  set (rest := bigEndian n x ++ bigEndian n y ++ tail).
  assert (Hr : blen rest = 2 * Z.of_nat n + blen tail).
  { unfold rest, blen. rewrite !length_app, !length_bigEndian. lia. }
  rewrite !blen_app, Hr. unfold blen at 1 2 4 5. rewrite !length_PutUint32.
  pose proof (blen_nonneg tail). rewrite (proj2 (Z.ltb_ge _ _)) by lia.
  rewrite take_app_length' by (by rewrite length_PutUint32). rewrite Uint32_PutUint32 by (cbv; split; congruence).
  rewrite Z.eqb_refl. cbn [negb]. rewrite drop_app_length' by (by rewrite length_PutUint32).
  rewrite take_app_length' by (by rewrite length_PutUint32). rewrite Uint32_PutUint32 by lia.
  rewrite (proj2 (Z.leb_gt _ _)), (proj2 (Z.ltb_ge _ _)) by lia. cbn [orb]. rewrite Nat2Z.id, <- drop_drop.
  rewrite Hlen by apply length_PutUint32. unfold rest.
  rewrite take_app_length', drop_app_length', take_app_length' by (by rewrite length_bigEndian).
  by rewrite !SetBytes_bigEndian.
Qed.

(** The parser accepts exactly the blobs that describe a key, and reads the
    key they describe. *)
Lemma parsePublicBlob_iff blob x y :
  parsePublicBlob blob = Ok (x, y) <->
  exists n tail, (0 < n)%nat /\ Z.of_nat n < 2 ^ 32 /\ 0 <= x < 256 ^ Z.of_nat n /\ 0 <= y < 256 ^ Z.of_nat n /\
    blob = publicBlob n x y tail.
Proof.
  split; [|intros (n & tail & H1 & H2 & H3 & H4 & ->); by apply parsePublicBlob_publicBlob].
  unfold parsePublicBlob. destruct (Z.ltb_spec (blen blob) 8) as [|H8]; [done|].
  destruct (negb _) eqn:Em; [done|]. apply negb_false_iff, Z.eqb_eq in Em.
  set (size := Uint32 (take 4 (drop 4 blob))). pose proof (Uint32_range (take 4 (drop 4 blob))) as Hrange. fold size in Hrange.
  destruct (Z.leb_spec size 0) as [|Hpos]; [done|]. destruct (Z.ltb_spec (blen blob) (8 + 2 * size)) as [|Hlen]; [done|].
  cbn [orb]. intros [= <- <-]. unfold blen in *. set (n := Z.to_nat size).
  assert (Hn : Z.of_nat n = size) by lia. exists n, (drop (8 + n + n) blob).
  assert (Hb : forall a : bytes, length a = n -> 0 <= SetBytes a < 256 ^ Z.of_nat n).
  { intros a <-. apply SetBytes_range. }
  assert (L1 : length (take n (drop 8 blob)) = n) by (rewrite length_take, length_drop; lia).
  assert (L2 : length (take n (drop (8 + n) blob)) = n) by (rewrite length_take, length_drop; lia).
  split_and!; [lia|lia|by apply Hb..|].
  unfold publicBlob. rewrite <- Em, Hn. unfold size.
  rewrite <- !PutUint32_Uint32 by (rewrite length_take, ?length_drop; lia).
  change (S (S (S (S (S (S (S (S n)))))))) with (8 + n)%nat.
  rewrite <- (bigEndian_inj n _ _ L1 eq_refl), <- (bigEndian_inj n _ _ L2 eq_refl).
  rewrite <- (drop_drop blob n (8 + n)), take_drop.
  rewrite <- (drop_drop blob n 8), take_drop. change 8%nat with (4 + 4)%nat.
  by rewrite <- (drop_drop blob 4 4), take_drop, take_drop.
Qed.

(** ** Weakest preconditions over machines *)

Section wpm.
Context {A B : Type}.
Implicit Types (C : machine -> Prop) (m : machine).

Lemma wpm_bind (p : win A) (k : A -> win B) Q C m :
  wpm p (fun a m' => wpm (k a) Q C m') C m -> wpm (wbind p k) Q C m.
Proof. unfold wpm, wbind. destruct (p m) as [[a|] m']; done. Qed.

Lemma wpm_ret (a : A) (Q : A -> machine -> Prop) C m : Q a m -> wpm (wret a) Q C m.
Proof. done. Qed.

Lemma wpm_mono (p : win A) (Q Q' : A -> machine -> Prop) C C' m :
  wpm p Q C m -> (forall a m', Q a m' -> Q' a m') -> (forall m', C m' -> C' m') -> wpm p Q' C' m.
Proof. unfold wpm. destruct (p m) as [[a|] m']; auto. Qed.

Lemma wpm_try f (p : win (res error A)) (k : A -> win (res error B)) Q C m :
  wpm p (fun r m' => match r with Ok a => wpm (k a) Q C m' | Err e => Q (Err (f e)) m' end) C m ->
  wpm (wtry_as f p k) Q C m.
Proof.
  unfold wpm, wtry_as, wbind. by destruct (p m) as [[[a|e]|] m'].
Qed.

Lemma wpm_put f (Q : unit -> machine -> Prop) C m : Q tt (f m) -> wpm (put f) Q C m.
Proof. done. Qed.

Lemma wpm_get (f : machine -> A) (Q : A -> machine -> Prop) C m : Q (f m) m -> wpm (get f) Q C m.
Proof. done. Qed.
End wpm.

(** Two machines that differ in their remaining faults only. *)
Definition refault (m : machine) (fs : list fault) : machine := with_world m (with_faults (mc_world m) fs).

Lemma refault_id m : refault m (faults (mc_world m)) = m.
Proof. by destruct m as [[]]. Qed.
Lemma refault_refault m fs fs' : refault (refault m fs) fs' = refault m fs'.
Proof. done. Qed.

Lemma wpm_dll {A} (full : machine -> res error A * machine) (Q : res error A -> machine -> Prop) C m :
  (forall fs, Q (full (refault m fs)).1 (full (refault m fs)).2) ->
  (forall fs, Q (Err ErrIO) (refault m fs)) -> (forall fs, C (refault m fs)) ->
  wpm (dll full) Q C m.
Proof.
  intros Hok Hfail Hdie. unfold wpm, dll. destruct (faults (mc_world m)) as [|[|k|k] fs] eqn:E.
  - specialize (Hok []). rewrite <- E, refault_id in Hok. by destruct (full m).
  - specialize (Hok fs). unfold refault in Hok. by destruct (full _).
  - apply Hfail.
  - apply Hdie.
Qed.

(** A program of [GoOS], lifted: what it does to the disk, and nothing else. *)
Lemma wpm_lift {A} (p : io A) (Q : A -> machine -> Prop) C m :
  wp p (fun a w => Q a (with_world m w)) (fun d => forall w, files w = d -> C (with_world m w)) (mc_world m) ->
  wpm (lift p) Q C m.
Proof. unfold wpm, lift, wp. destruct (p (mc_world m)) as [[a|] w]; [done|]. intros H. by apply H. Qed.

(** What the provider's calls can change of a machine. *)
Definition provided (m : machine) (ks : gmap bytes bytes) (h : Z) (b : bool) (fs : list fault) : machine :=
  Machine (with_faults (mc_world m) fs) ks (mc_my m) (mc_ca m) (mc_root m) h b.

(** [m'] is [m] with those parts changed, and some faults used up. *)
Definition provides (m : machine) (ks : gmap bytes bytes) (h : Z) (b : bool) (m' : machine) : Prop :=
  exists fs, m' = provided m ks h b fs.

Lemma provides_provided m0 m ks h b ks0 h0 b0 fs0 fs h' :
  m = provided m0 ks0 h0 b0 fs0 -> h = h' -> provides m0 ks h b (provided m ks h' b fs).
Proof. intros -> ->. by exists fs. Qed.

(** One step of a program over the provider. *)
Ltac wpm_step :=
  lazymatch goal with
  | |- wpm (wbind _ _) _ _ _ => apply wpm_bind
  | |- wpm (wtry_as _ _ _) _ _ _ => apply wpm_try
  | |- wpm (wret _) _ _ _ => apply wpm_ret
  | |- wpm (put _) _ _ _ => apply wpm_put
  | |- wpm (get _) _ _ _ => apply wpm_get
  | |- wpm (dll _) _ _ _ => apply wpm_dll; [intros ?fs; cbn [openHandle fst snd]|intros ?fs|intros ?fs]
  | |- wpm (freeNCryptObject ?b) _ _ _ => unfold freeNCryptObject; apply wpm_put
  end; cbn beta.

Ltac same_machine :=
  unfold provided, with_handles, with_keys, with_closed, refault, with_world, with_faults; cbn; f_equal; lia.

(** Closes a goal about a machine that was only [provided]. *)
Ltac by_provides H :=
  (eapply H || (intros; eapply H)); eexists; same_machine.

Section provider_specs.
Context (ncryptErr : option error) (pubBlob : bytes -> bytes) (signWith : bytes -> bytes -> bytes).
Implicit Types (C : machine -> Prop) (m : machine).

Lemma wpm_openProvider (Q : res error unit -> machine -> Prop) C m :
  (forall m', provides m (mc_keys m) (mc_handles m + 1) (mc_closed m) m' -> Q (Ok tt) m') ->
  (forall e m', provides m (mc_keys m) (mc_handles m) (mc_closed m) m' -> Q (Err e) m') ->
  (forall m', provides m (mc_keys m) (mc_handles m) (mc_closed m) m' -> C m') ->
  wpm openProvider Q C m.
Proof.
  intros H1 H2 H3. unfold openProvider. do 2 wpm_step. change (UTF16PtrFromString keyStorageProvider) with (@Ok error _ tt).
  cbn iota. do 2 wpm_step; [wpm_step; by_provides H1|by_provides H2|by_provides H3].
Qed.

Lemma wpm_deleteCNGKey name (Q : res error unit -> machine -> Prop) C m :
  (forall m', provides m (delete name (mc_keys m)) (mc_handles m) (mc_closed m) m' -> Q (Ok tt) m') ->
  (forall e m', provides m (mc_keys m) (mc_handles m) (mc_closed m) m' -> Q (Err e) m') ->
  (forall h m', provides m (mc_keys m) h (mc_closed m) m' -> C m') ->
  wpm (deleteCNGKey ncryptErr name) Q C m.
Proof.
  intros Hok Herr Hdie.
  assert (Hid : forall e, Q (Err e) m).
  { intros e. apply Herr. exists (faults (mc_world m)). by destruct m as [[]]. }
  unfold deleteCNGKey. wpm_step. unfold openMachineKey. wpm_step.
  unfold loadNCrypt. wpm_step. destruct ncryptErr as [e|]; [apply Hid|]. wpm_step.
  apply wpm_openProvider; intros; [|by apply Herr|by eapply Hdie]. destruct H as [fs ->].
  destruct (UTF16PtrFromString name) as [[]|e]; [|do 3 wpm_step; by_provides Herr].
  do 2 wpm_step; cbn [mc_keys refault with_world provided]; [|do 3 wpm_step; by_provides Herr|by_provides Hdie].
  destruct (mc_keys m !! name) eqn:E; cbn [fst snd]; wpm_step; cbn [negb].
  - do 2 wpm_step; [do 3 wpm_step; by_provides Hok|do 5 wpm_step; by_provides Herr|by_provides Hdie].
  - do 3 wpm_step. eapply Hok. rewrite delete_id by done. eexists. same_machine.
Qed.

Lemma twoPass_quiet op1 op2 out m :
  faults (mc_world m) = [] -> out ≠ [] -> twoPass op1 op2 out m = (Ret (Ok out), m).
Proof.
  intros Hf Ho. unfold twoPass, wtry_as, wbind, dll. rewrite Hf. cbn iota beta.
  rewrite (proj2 (Nat.eqb_neq _ _)) by (destruct out; cbn; [done|lia]). by rewrite Hf.
Qed.

(** [m'] is [m] with some faults used up. *)
Definition same_but_faults (m m' : machine) : Prop := provides m (mc_keys m) (mc_handles m) (mc_closed m) m'.

Lemma same_but_faults_refl m : same_but_faults m m.
Proof. exists (faults (mc_world m)). by destruct m as [[]]. Qed.

Lemma provides_trans m ks h b ks' h' b' m1 m2 :
  provides m ks h b m1 -> provides m1 ks' h' b' m2 -> provides m ks' h' b' m2.
Proof. intros [fs ->] [fs' ->]. by exists fs'. Qed.

Lemma wpm_twoPass op1 op2 out (Q : res error bytes -> machine -> Prop) C m :
  (forall m', same_but_faults m m' -> out ≠ [] -> Q (Ok out) m') ->
  (forall e m', same_but_faults m m' -> Q (Err e) m') ->
  (forall m', same_but_faults m m' -> C m') ->
  wpm (twoPass op1 op2 out) Q C m.
Proof.
  intros H1 H2 H3. unfold twoPass. do 2 wpm_step; [|by_provides H2|by_provides H3].
  destruct out as [|c out]; cbn [length Nat.eqb].
  { unfold wpm, panic. by_provides H3. }
  do 2 wpm_step; [|by_provides H2|by_provides H3]. wpm_step. apply H1; [|done]. eexists. same_machine.
Qed.

Lemma wpm_setDWORD prop v (Q : res error unit -> machine -> Prop) C m :
  chr 0 ∉ prop -> (forall m', same_but_faults m m' -> Q (Ok tt) m') ->
  (forall e m', same_but_faults m m' -> Q (Err e) m') -> (forall m', same_but_faults m m' -> C m') ->
  wpm (setDWORD prop v) Q C m.
Proof.
  intros Hp H1 H2 H3. unfold setDWORD. do 2 wpm_step. unfold UTF16PtrFromString. rewrite bool_decide_eq_false_2 by done.
  do 2 wpm_step; [wpm_step; by_provides H1|by_provides H2|by_provides H3].
Qed.

(** From the properties to the public half: the container is written in
    between. *)
Lemma wpm_makeKey key name (Q : res error (Z * Z) -> machine -> Prop) C m :
  (forall pub m', provides m (<[name := key]> (mc_keys m)) (mc_handles m) (mc_closed m) m' ->
     parsePublicBlob (pubBlob key) = Ok pub -> Q (Ok pub) m') ->
  (forall e ks m', ks = mc_keys m \/ ks = <[name := key]> (mc_keys m) ->
     provides m ks (mc_handles m) (mc_closed m) m' -> Q (Err e) m') ->
  (forall ks m', ks = mc_keys m \/ ks = <[name := key]> (mc_keys m) ->
     provides m ks (mc_handles m) (mc_closed m) m' -> C m') ->
  wpm (try^ _ := setDWORD exportPolicyProperty 0 in
       try^ _ := setDWORD keyUsageProperty allowSigning in
       try^ _ := dll (fun m => (Ok tt, with_keys m (<[name := key]> (mc_keys m)))) orelse status "NCryptFinalizeKey" in
       exportPublic pubBlob key) Q C m.
Proof.
  intros Hok Herr Hdie. wpm_step.
  apply wpm_setDWORD; [by apply (bool_decide_eq_false_1 _)| |by eauto|by eauto].
  intros m1 [fs1 ->]. wpm_step.
  apply wpm_setDWORD; [by apply (bool_decide_eq_false_1 _)|intros m2 [fs2 ->]|intros e m2 [fs2 ->]|intros m2 [fs2 ->]];
    [|eapply Herr; [by left|eexists; same_machine]|eapply Hdie; [by left|eexists; same_machine]].
  do 2 wpm_step; [|eapply Herr; [by left|eexists; same_machine]|eapply Hdie; [by left|eexists; same_machine]].
  unfold exportPublic. do 2 wpm_step. change (UTF16PtrFromString eccPublicBlob) with (@Ok error _ tt). cbn iota.
  wpm_step. apply wpm_twoPass; [intros m' [fs3 ->] _|intros e m' [fs3 ->]|intros m' [fs3 ->]].
  - wpm_step. destruct (parsePublicBlob (pubBlob key)) as [pub|e] eqn:E.
    + apply Hok; [|done]. eexists. same_machine.
    + eapply Herr; [by right|eexists; same_machine].
  - eapply Herr; [by right|eexists; same_machine].
  - eapply Hdie; [by right|eexists; same_machine].
Qed.

(** What [createCNGKey] leaves: a signer over a container holding the new key
    and two handles; or an error, no handle more than before, and the
    container written or not. *)
Lemma wpm_createCNGKey key name (Q : res error cngSigner -> machine -> Prop) C m :
  (forall s m', provides m (<[name := key]> (mc_keys m)) (mc_handles m + 2) false m' ->
     sg_prov s = true -> sg_hkey s = true -> sg_key s = key -> sg_name s = name ->
     parsePublicBlob (pubBlob key) = Ok (sg_pub s) -> Q (Ok s) m') ->
  (forall e ks b m', ks = mc_keys m \/ ks = <[name := key]> (mc_keys m) ->
     provides m ks (mc_handles m) b m' -> Q (Err e) m') ->
  (forall ks h b m', ks = mc_keys m \/ ks = <[name := key]> (mc_keys m) -> provides m ks h b m' -> C m') ->
  wpm (createCNGKey ncryptErr pubBlob key name) Q C m.
Proof.
  intros Hok Herr Hdie. unfold createCNGKey. wpm_step. unfold loadNCrypt. wpm_step.
  destruct ncryptErr as [e|].
  { apply (Herr _ (mc_keys m) (mc_closed m)); [by left|]. apply same_but_faults_refl. }
  wpm_step. apply wpm_openProvider; intros; [|by eapply Herr; [left|]|by eapply Hdie; [left|]].
  destruct H as [fs ->]. do 2 wpm_step.
  change (UTF16PtrFromString ecdsaP256Algorithm) with (@Ok error _ tt). cbn iota.
  assert (Hclose : forall h e ks fs', ks = mc_keys m \/ ks = <[name := key]> (mc_keys m) ->
    wpm (let^ _ := Close {| sg_prov := true; sg_hkey := h; sg_key := key; sg_pub := (0, 0); sg_name := name |}
         in wret (Err e)) Q C (provided m ks (mc_handles m + (if h then 2 else 1)) false fs')).
  { intros h e ks fs' Hks. unfold Close. do 3 wpm_step. cbn [mc_closed provided]. do 3 wpm_step.
    destruct h; unfold freeNCryptObject; cbn [sg_hkey sg_prov]; do 3 wpm_step;
      (eapply Herr; [exact Hks|eexists; same_machine]). }
  destruct (UTF16PtrFromString name) as [[]|e]; [|apply (Hclose false _ _ fs); by left].
  do 2 wpm_step; [|apply (Hclose false _ _ fs0); by left|eapply Hdie; [by left|eexists; same_machine]].
  wpm_step. apply wpm_makeKey; intros.
  - destruct H as [fs1 ->]. wpm_step. apply Hok; try done. eexists. same_machine.
  - destruct H0 as [fs1 ->]. replace (provided _ _ _ _ _) with (provided m ks (mc_handles m + 2) false fs1)
      by same_machine. by apply (Hclose true).
  - destruct H0 as [fs1 ->]. eapply Hdie; [done|]. eexists. same_machine.
Qed.

(** A signature leaves [Sign] as the DER form of exactly the pair the provider
    answered with: whatever calls fail on the way, a strict DER reader finds in
    it the first half of the raw bytes as [r] and the second as [s], the
    machine is unchanged, and when no call fails and the provider answered with
    a pair there is a signature. *)
Theorem Sign_encodes_the_pair s digest m :
  blen (signWith (sg_key s) digest) <= 2000 ->
  let raw := signWith (sg_key s) digest in
  let half := Nat.div2 (length raw) in
  wpm (Sign signWith s digest) (fun r m' => same_but_faults m m' /\
    (forall sig, r = Ok sig -> length raw = (half + half)%nat /\
       unmarshalSignature sig = Some (SetBytes (take half raw), SetBytes (drop half raw))) /\
    (faults (mc_world m) = [] -> digest ≠ [] -> raw ≠ [] -> length raw = (half + half)%nat -> is_ok r = true))
    (same_but_faults m) m.
Proof.
  intros Hl raw half. unfold Sign. case_bool_decide as Hd.
  { wpm_step. split; [apply same_but_faults_refl|]. split; [done|]. by intros _ []. }
  wpm_step. unfold signHash. fold raw.
  destruct (decide (faults (mc_world m) = [] /\ raw ≠ [])) as [[Hf Hraw]|Hno].
  - unfold wpm. rewrite twoPass_quiet by done. cbn beta iota. unfold wret.
    split; [apply same_but_faults_refl|]. destruct (encodeSignature_spec raw Hl) as [H1 H2]. auto.
  - apply wpm_twoPass; [intros m' Hm Hraw; wpm_step|intros e m' Hm|done]; (split; [done|]).
    + split; [apply encodeSignature_spec; exact Hl|]. intros Hf. tauto.
    + split; [done|]. tauto.
Qed.
End provider_specs.
