(* ===== verification/CertStore.v ===== *)
(** * CertStore: the network certificate on Windows (agent/internal/netcert)

    certstore_windows.go, key_windows.go, presence_windows.go, and [ensure] of
    request.go over an arbitrary key maker.  The machine and the provider are
    those of [Cng]; the PEM and X.509 readers, the CA and the way Windows
    decides that two certificates are the same one are parameters. *)
From S2P Require Import Prelude GoLib GoText GoOS Netcert Cng.

(** What [x509.ParseCertificate] says of a DER certificate. *)
Record xcert := {
  xc_info : certInfo;
  xc_pub : Z * Z;           (** the certified key *)
  xc_subject : bytes;       (** [Subject.String()] *)
  xc_cn : bytes;            (** [Subject.CommonName] *)
  xc_rawSubject : bytes;
  xc_rawIssuer : bytes;
}.

Inductive storeName : Type := storeMy | storeCA | storeRoot.

Definition store_of (s : storeName) (m : machine) : list entry :=
  match s with storeMy => mc_my m | storeCA => mc_ca m | storeRoot => mc_root m end.
Definition set_store (s : storeName) (m : machine) (l : list entry) : machine :=
  match s with
  | storeMy => Machine (mc_world m) (mc_keys m) l (mc_ca m) (mc_root m) (mc_handles m) (mc_closed m)
  | storeCA => Machine (mc_world m) (mc_keys m) (mc_my m) l (mc_root m) (mc_handles m) (mc_closed m)
  | storeRoot => Machine (mc_world m) (mc_keys m) (mc_my m) (mc_ca m) l (mc_handles m) (mc_closed m)
  end.

(** ** [ensure] over a key maker *)

(** [deviceKey]: [dk_csr] is [buildCSRFor(key.signer)]. *)
Record deviceKey := {
  dk_csr : win (res error bytes);
  dk_save : bytes -> bytes -> win (res error Material);
  dk_discard : win (res error unit);
}.

Section ensure.
Context (decode : bytes -> res error (bytes * bytes)) (parseCert : bytes -> res error certInfo) (dir : bytes).
Context (mk : bytes -> win (res error deviceKey)) (server : bytes -> httpReply).

Definition predecessor (existing : option Material) : bytes :=
  match existing with Some m => mt_Serial m | None => [] end.

Definition renewWith (existing : option Material) : win (option Material * option error) :=
  let^ k := mk (predecessor existing) in
  match k with
  | Err e => wret (None, Some e)
  | Ok key =>
      let^ csr := dk_csr key in
      match csr with
      | Err e => let^ _ := wignore (dk_discard key) in wret (None, Some e)
      | Ok csr =>
          match Request decode (server csr) with
          | Err e => let^ _ := wignore (dk_discard key) in wret (existing, Some e)
          | Ok (certPEM, chainPEM) =>
              let^ r := dk_save key certPEM chainPEM in
              match r with
              | Err e => let^ _ := wignore (dk_discard key) in wret (None, Some e)
              | Ok m => wret (Some (issued m), None)
              end
          end
      end
  end.

Definition ensureWith (now : Z) : win (option Material * option error) :=
  let^ existing := lift (Load parseCert dir) in
  match existing with
  | Err e => if Is e ErrNoCertificate then renewWith None else wret (None, Some e)
  | Ok m => if negb (DueForRenewal (Some m) now) then wret (Some m, None) else renewWith (Some m)
  end.
End ensure.

(** [newDeviceKey] of key_other.go: the key is memory until it is saved. *)
Definition unixKeyMaker (parseCert : bytes -> res error certInfo) (dir : bytes) (newKey : res error bytes)
    (csr : bytes -> res error bytes) (_ : bytes) : win (res error deviceKey) :=
  wret (match newKey with
        | Err e => Err e
        | Ok keyPEM =>
            Ok {| dk_csr := wret (csr keyPEM);
                  dk_save := fun certPEM chainPEM => lift (saveAll parseCert dir keyPEM certPEM chainPEM);
                  dk_discard := wret (Ok tt) |}
        end).

(** ** The stores *)

Section stores.
(** [pem.Decode] (type, bytes and what follows the block),
    [x509.ParseCertificate], [child.CheckSignatureFrom(parent) == nil] and the
    store's notion of an existing certificate. *)
Context (pemDecode : bytes -> option (bytes * bytes * bytes)) (x509 : bytes -> res error xcert).
Context (signedBy : bytes -> bytes -> bool) (matching : bytes -> bytes -> bool).
Context (ncryptErr : option error) (pubBlob : bytes -> bytes) (signWith : bytes -> bytes -> bytes).

Definition typeCertificate : bytes := str "CERTIFICATE".

(** [parseCert] of netcert.go *)
Definition parsePEM (certPEM : bytes) : res error certInfo :=
  match pemDecode certPEM with
  | None => Err (Sentinel "netcert: certificate is not PEM")
  | Some (_, der, _) =>
      match x509 der with Err e => Err (Errorf "netcert: parse certificate" e) | Ok c => Ok (xc_info c) end
  end.

Definition firstCert (certPEM : bytes) : res error (bytes * xcert) :=
  match pemDecode certPEM with
  | None => Err (Sentinel "not a PEM certificate")
  | Some (ty, der, _) =>
      if negb (bool_decide (ty = typeCertificate)) then Err (Sentinel "not a PEM certificate")
      else match x509 der with Err e => Err e | Ok c => Ok (der, c) end
  end.

Definition openMachineStore (_ : storeName) : win (res error unit) :=
  try^ _ := dll (fun m => (Ok tt, m)) orelse Errorf "netcert: open LocalMachine" in wret (Ok tt).

(** CERT_STORE_ADD_REPLACE_EXISTING: a matching certificate and its properties
    go, the new one comes unbound. *)
Definition replaced (der : bytes) (l : list entry) : list entry :=
  filter (fun e => matching der (en_der e) = false) l ++ [Entry der []].
(** The property is set on the copy the store holds. *)
Definition bound (der container : bytes) (l : list entry) : list entry :=
  map (fun e => if bool_decide (en_der e = der) then Entry der container else e) l.

Definition addToStore (s : storeName) (der container : bytes) : win (res error unit) :=
  match der with
  | [] => panic
  | _ =>
      try^ _ := dll (fun m => (Ok tt, m)) orelse Errorf "netcert: build certificate context" in
      try^ _ := dll (fun m => (Ok tt, set_store s m (replaced der (store_of s m))))
        orelse Errorf "netcert: add certificate to store" in
      if bool_decide (container = []) then wret (Ok tt)
      else
        try^ _ := wret (UTF16PtrFromString container) orelse Errorf "netcert: container name" in
        try^ _ := wret (UTF16PtrFromString keyStorageProvider) orelse Errorf "netcert: provider name" in
        try^ _ := dll (fun m => (Ok tt, set_store s m (bound der container (store_of s m))))
          orelse Errorf "netcert: bind certificate to key container" in
        wret (Ok tt)
  end.

Definition isSelfSigned (der : bytes) : bool := signedBy der der.

Fixpoint installChain (fuel : nat) (rest leafDER : bytes) : win (res error unit) :=
  match fuel with
  | O => wret (Ok tt)
  | S fuel' =>
      match pemDecode rest with
      | None => wret (Ok tt)
      | Some (ty, der, rest) =>
          if negb (bool_decide (ty = typeCertificate)) then installChain fuel' rest leafDER
          else match x509 der with
               | Err e => wret (Err (Errorf "netcert: chain" e))
               | Ok _ =>
                   if bool_decide (der = leafDER) then installChain fuel' rest leafDER
                   else
                     let name := if isSelfSigned der then storeRoot else storeCA in
                     try^ _ := openMachineStore name in
                     try^ _ := addToStore name der [] in
                     installChain fuel' rest leafDER
               end
      end
  end.

(** [CertEnumCertificatesInStore] to its end, which an error also is. *)
Fixpoint enumerate (l : list entry) : win (list entry) :=
  match l with
  | [] => wret []
  | e :: l' =>
      let^ r := dll (fun m => (Ok tt, m)) in
      match r with
      | Err _ => wret []
      | Ok _ => let^ t := enumerate l' in wret (e :: t)
      end
  end.

Definition parseContext (e : entry) : res error xcert :=
  match en_der e with
  | [] => Err (Sentinel "netcert: empty certificate context")
  | der => x509 der
  end.

Definition contextKeyContainer (e : entry) : win bytes :=
  let^ r := dll (fun m => (if bool_decide (en_container e = []) then Err ErrNotExist else Ok tt, m)) in
  match r with
  | Err _ => wret []
  | Ok _ =>
      let^ r := dll (fun m => (Ok tt, m)) in
      match r with Err _ => wret [] | Ok _ => wret (en_container e) end
  end.

Definition superseded (keepDER : bytes) (keep : xcert) (e : entry) : bool :=
  match parseContext e with
  | Err _ => false
  | Ok c => negb (negb (bool_decide (xc_subject c = xc_subject keep)) || bool_decide (en_der e = keepDER))
  end.

Definition removed (der : bytes) (l : list entry) : list entry := filter (fun e => en_der e ≠ der) l.

Definition sweepOne (e : entry) : win unit :=
  let^ container := contextKeyContainer e in
  let^ _ := wignore (dll (fun m => (Ok tt, set_store storeMy m (removed (en_der e) (mc_my m))))) in
  if HasPrefix container keyContainerPrefix then wignore (deleteCNGKey ncryptErr container) else wret tt.

Fixpoint sweepAll (doomed : list entry) : win unit :=
  match doomed with
  | [] => wret tt
  | e :: doomed' => let^ _ := sweepOne e in sweepAll doomed'
  end.

Definition sweepSuperseded (keepDER : bytes) (keep : xcert) : win unit :=
  let^ my := get mc_my in
  let^ seen := enumerate my in
  sweepAll (filter (fun e => superseded keepDER keep e = true) seen).

Definition installCertificate (container certPEM chainPEM : bytes) : win (res error unit) :=
  match firstCert certPEM with
  | Err e => wret (Err (Errorf "netcert: certificate" e))
  | Ok (leafDER, leaf) =>
      try^ _ := openMachineStore storeMy in
      try^ _ := addToStore storeMy leafDER container in
      try^ _ := installChain (S (length chainPEM)) chainPEM leafDER in
      let^ _ := sweepSuperseded leafDER leaf in
      wret (Ok tt)
  end.

(** ** [newDeviceKey] *)

Section device.
(** SHA-256, the CSR's digest for a public key and the CSR for a signature. *)
Context (sha256 : bytes -> bytes).
Context (csrDigest : Z * Z -> res error bytes) (csrOf : Z * Z -> bytes -> res error bytes).
Context (dir deviceID : bytes).

Definition buildCSRFor (s : cngSigner) : win (res error bytes) :=
  match csrDigest (sg_pub s) with
  | Err e => wret (Err (Errorf "netcert: build csr" e))
  | Ok digest =>
      try^ sig := Sign signWith s digest orelse Errorf "netcert: build csr" in
      wret (match csrOf (sg_pub s) sig with Err e => Err (Errorf "netcert: build csr" e) | Ok p => Ok p end)
  end.

Definition saveKey (s : cngSigner) (name certPEM chainPEM : bytes) : win (res error Material) :=
  try^ _ := installCertificate name certPEM chainPEM in
  let^ _ := Close s in
  try^ m := lift (Save parsePEM dir certPEM chainPEM) in
  let^ _ := lift (ignore (Remove (keyPath dir))) in
  wret (Ok m).

Definition discardKey (s : cngSigner) (name : bytes) : win (res error unit) :=
  let^ _ := Close s in deleteCNGKey ncryptErr name.

(** [key] is the key pair the provider will make. *)
Definition newDeviceKey (key predecessorSerial : bytes) : win (res error deviceKey) :=
  let name := keyContainerName sha256 deviceID predecessorSerial in
  try^ signer := createCNGKey ncryptErr pubBlob key name in
  wret (Ok {| dk_csr := buildCSRFor signer;
              dk_save := saveKey signer name;
              dk_discard := discardKey signer name |}).

Context (decode : bytes -> res error (bytes * bytes)) (server : bytes -> httpReply).

(** [Ensure] on Windows. *)
Definition Ensure (key : bytes) (now : Z) : win (option Material * option error) :=
  ensureWith decode parsePEM dir (newDeviceKey key) server now.
End device.

(** ** [Presence] *)

Definition readMachineStore (s : storeName) : win (res error unit) :=
  try^ _ := dll (fun m => (Ok tt, m)) orelse Errorf "netcert: open LocalMachine" in wret (Ok tt).

(** [eachStoredCert] with a callback that looks for something: [fn] is [true]
    when the walk goes on. *)
Fixpoint walk (fn : entry -> xcert -> win bool) (l : list entry) : win (option (entry * xcert)) :=
  match l with
  | [] => wret None
  | e :: l' =>
      let^ r := dll (fun m => (Ok tt, m)) in
      match r with
      | Err _ => wret None
      | Ok _ =>
          match parseContext e with
          | Err _ => walk fn l'
          | Ok c =>
              let^ more := fn e c in
              if more then walk fn l' else wret (Some (e, c))
          end
      end
  end.

Definition eachStoredCert (s : storeName) (fn : entry -> xcert -> win bool) :
    win (res error (option (entry * xcert))) :=
  try^ _ := readMachineStore s in
  let^ l := get (store_of s) in
  let^ found := walk fn l in
  wret (Ok found).

Definition storedDeviceCert (agentID : bytes) : win (res error (entry * xcert)) :=
  try^ found := eachStoredCert storeMy (fun e c =>
    if negb (bool_decide (xc_cn c = agentID)) then wret true
    else let^ container := contextKeyContainer e in wret (bool_decide (container = []))) in
  wret (match found with Some ec => Ok ec | None => Err (Errorf "nothing in LocalMachine\My" ErrNoCertificate) end).

Definition issues (leaf : entry) (lc : xcert) (e : entry) (c : xcert) : bool :=
  negb (negb (bool_decide (xc_rawSubject c = xc_rawIssuer lc)) || negb (signedBy (en_der leaf) (en_der e))).

Definition storedIssuerOf (leaf : entry) (lc : xcert) : win (res error (entry * xcert)) :=
  let look s := eachStoredCert s (fun e c => wret (negb (issues leaf lc e c))) in
  try^ inCA := look storeCA in
  match inCA with
  | Some ec => wret (Ok ec)
  | None =>
      try^ inRoot := look storeRoot in
      wret (match inRoot with
            | Some ec => Ok ec
            | None => Err (Sentinel "netcert: the CA that issued this device's certificate is not in LocalMachine")
            end)
  end.

Definition Presence (sha1 : bytes -> bytes) (agentID : bytes) : win (res error bytes) :=
  try^ leaf := storedDeviceCert agentID in
  try^ issuer := storedIssuerOf leaf.1 leaf.2 in
  wret (Ok (HexEncode (sha1 (en_der issuer.1)))).
End stores.

(** ** One [ensure], two key makers *)

Lemma lift_bind {A B} (p : io A) (k : A -> io B) m :
  lift (bind p k) m = wbind (lift p) (fun a => lift (k a)) m.
Proof.
  unfold lift, wbind, bind. destruct m as [w ks my ca root h b]. cbn.
  destruct (p w) as [[a|] w']; cbn; [|done]. by destruct (k a w').
Qed.

Lemma wbind_ext {A B} (p : win A) (k k' : A -> win B) m :
  (forall a m', k a m' = k' a m') -> wbind p k m = wbind p k' m.
Proof. intros H. unfold wbind. destruct (p m) as [[a|] m']; [apply H|done]. Qed.

Lemma wbind_ret {A B} (a : A) (k : A -> win B) : wbind (wret a) k = k a.
Proof. done. Qed.

(** The renewal written over a key maker is, with the key maker of the Unix
    builds, the renewal whose disk is modelled in [Netcert]: the same result
    and the same disk under the same faults, and no store or container
    touched. *)
Theorem ensure_with_unix_keys decode parseCert dir newKey csr server now m :
  ensureWith decode parseCert dir (unixKeyMaker parseCert dir newKey csr) server now m =
  lift (ensure decode parseCert dir newKey csr server now) m.
Proof.
  assert (Hr : forall ex m', renewWith decode (unixKeyMaker parseCert dir newKey csr) server ex m' =
    lift (renewFrom decode parseCert dir newKey csr server ex) m').
  { intros ex m'. unfold renewWith, renewFrom, unixKeyMaker. rewrite wbind_ret.
    destruct newKey as [k|e]; [|by destruct m' as [[]]]. cbn [dk_csr dk_save dk_discard]. rewrite wbind_ret.
    destruct (csr k) as [req|e]; [|by destruct m' as [[]]].
    destruct (Request decode (server req)) as [[c ch]|e]; [|by destruct m' as [[]]].
    rewrite lift_bind. apply wbind_ext. intros [mt|e] m1; by destruct m1 as [[]]. }
  unfold ensureWith, ensure. rewrite lift_bind. apply wbind_ext. intros [mt|e] m'.
  - destruct (negb _); [by destruct m' as [[]]|apply Hr].
  - destruct (Is e ErrNoCertificate); [apply Hr|by destruct m' as [[]]].
Qed.

(** ** A toy machine *)

(** A key is one character, its public half that character's code twice; a
    certificate is its key's character and a serial, the CA's is a single
    character; a container is named by what is hashed for it. *)
Module Toy.
Definition pem (s : bytes) : option (bytes * bytes * bytes) :=
  match s with [] => None | _ => Some (typeCertificate, s, []) end.
Definition x509 (der : bytes) : res error xcert :=
  match der with
  | [k; a] =>
      Ok {| xc_info := {| ci_NotBefore := 0; ci_NotAfter := 90 * 24 * Hour; ci_Serial := code a; ci_key := [k] |};
            xc_pub := (code k, code k); xc_subject := str "CN=dev"; xc_cn := str "dev";
            xc_rawSubject := str "dev"; xc_rawIssuer := str "ca" |}
  | [k] =>
      Ok {| xc_info := {| ci_NotBefore := 0; ci_NotAfter := 3650 * 24 * Hour; ci_Serial := 1; ci_key := [k] |};
            xc_pub := (code k, code k); xc_subject := str "CN=ca"; xc_cn := str "ca";
            xc_rawSubject := str "ca"; xc_rawIssuer := str "ca" |}
  | _ => Err (Sentinel "x509: malformed certificate")
  end.
Definition signedBy (child parent : bytes) : bool := bool_decide (parent = str "R").
Definition matching (a b : bytes) : bool := bool_decide (a = b).
Definition pubBlob (k : bytes) : bytes :=
  match k with [c] => publicBlob 1 (code c) (code c) [] | _ => [] end.
Definition signWith (k digest : bytes) : bytes := k ++ k.
Definition csrDigest (_ : Z * Z) : res error bytes := Ok (str "digest").
Definition csrOf (pub : Z * Z) (_ : bytes) : res error bytes := Ok [chr pub.1].
Definition decode (body : bytes) : res error (bytes * bytes) := Ok (body, str "R").
(** A CA that certifies the key it is asked for, under the serial given. *)
Definition ca (serial : bytes) (csr : bytes) : httpReply := Status 200 (csr ++ serial).
Definition dir : bytes := str "/n".
Definition id (s : bytes) : bytes := s.
Definition name (serial : bytes) : bytes := keyContainerName id [] serial.
Definition now : Z := 60 * 24 * Hour.

Definition Ensure (key : bytes) (server : bytes -> httpReply) : win (option Material * option error) :=
  CertStore.Ensure pem x509 signedBy matching None pubBlob signWith id csrDigest csrOf dir [] decode server key now.

(** A device that holds certificate 1 for key A, past its half life. *)
Definition machine0 (fs : list fault) : machine :=
  Machine (World (<[certPath dir := File (str "A1") true 420]> ∅) 0 [] fs)
    {[ name [] := str "A" ]} [Entry (str "A1") (name [])] [] [Entry (str "R") []] 0 true.
End Toy.

(** ** What the stores' calls change *)

Definition restocks (m : machine) (my ca root : list entry) (m' : machine) : Prop :=
  exists fs, m' = Machine (with_faults (mc_world m) fs) (mc_keys m) my ca root (mc_handles m) (mc_closed m).

(** Only the issuers' stores are different. *)
Definition rechained (m m' : machine) : Prop := exists ca root, restocks m (mc_my m) ca root m'.

Lemma rechained_refl m : rechained m m.
Proof. exists (mc_ca m), (mc_root m), (faults (mc_world m)). by destruct m as [[]]. Qed.

Lemma rechained_trans m m1 m2 : rechained m m1 -> rechained m1 m2 -> rechained m m2.
Proof. intros (ca & root & fs & ->) (ca' & root' & fs' & ->). by exists ca', root', fs'. Qed.

Lemma rechained_faults m fs : rechained m (refault m fs).
Proof. by exists (mc_ca m), (mc_root m), fs. Qed.

#[local] Hint Resolve rechained_refl rechained_faults rechained_trans : everwas.

Section store_specs.
Context (pemDecode : bytes -> option (bytes * bytes * bytes)) (x509 : bytes -> res error xcert).
Context (signedBy : bytes -> bytes -> bool) (matching : bytes -> bytes -> bool).
Context (ncryptErr : option error) (pubBlob : bytes -> bytes) (signWith : bytes -> bytes -> bytes).
Implicit Types (C : machine -> Prop) (m : machine).

Lemma wpm_openMachineStore s (Q : res error unit -> machine -> Prop) C m :
  (forall fs, Q (Ok tt) (refault m fs)) -> (forall e fs, Q (Err (Errorf "netcert: open LocalMachine" e)) (refault m fs)) ->
  (forall fs, C (refault m fs)) -> wpm (openMachineStore s) Q C m.
Proof. intros H1 H2 H3. unfold openMachineStore. do 2 wpm_step; [wpm_step; apply H1|apply H2|apply H3]. Qed.

(** Binding a certificate into My: on success it is there, bound; on the way
    it may be there unbound. *)
Lemma wpm_addToMy der container (Q : res error unit -> machine -> Prop) C m :
  chr 0 ∉ container -> container ≠ [] ->
  (forall m', restocks m (bound der container (replaced matching der (mc_my m))) (mc_ca m) (mc_root m) m' -> Q (Ok tt) m') ->
  (forall e my m', my = mc_my m \/ my = replaced matching der (mc_my m) ->
     restocks m my (mc_ca m) (mc_root m) m' -> Q (Err e) m') ->
  (forall my m', my = mc_my m \/ my = replaced matching der (mc_my m) ->
     restocks m my (mc_ca m) (mc_root m) m' -> C m') ->
  wpm (addToStore matching storeMy der container) Q C m.
Proof.
  intros H0 Hne Hok Herr Hdie. unfold addToStore. destruct der as [|c der'].
  { unfold wpm, panic. eapply Hdie; [by left|]. exists (faults (mc_world m)). by destruct m as [[]]. }
  set (der := c :: der') in *.
  do 2 wpm_step; [|by eapply Herr; [left|eexists]|by eapply Hdie; [left|eexists]].
  do 2 wpm_step; [|by eapply Herr; [left|eexists]|by eapply Hdie; [left|eexists]].
  rewrite bool_decide_eq_false_2 by done. do 2 wpm_step. unfold UTF16PtrFromString at 1.
  rewrite bool_decide_eq_false_2 by done. do 2 wpm_step.
  change (UTF16PtrFromString keyStorageProvider) with (@Ok error _ tt). cbn iota.
  do 2 wpm_step; [|by eapply Herr; [right|eexists]|by eapply Hdie; [right|eexists]].
  wpm_step. apply Hok. by eexists.
Qed.

(** An issuer's certificate goes to CA or Root. *)
Lemma wpm_addIssuer s der (Q : res error unit -> machine -> Prop) C m :
  s ≠ storeMy -> (forall r m', rechained m m' -> Q r m') -> (forall m', rechained m m' -> C m') ->
  wpm (addToStore matching s der []) Q C m.
Proof.
  intros Hs HQ HC. unfold addToStore. destruct der as [|c der']; [apply HC; auto with everwas|].
  do 2 wpm_step; [|apply HQ; auto with everwas|apply HC; auto with everwas].
  do 2 wpm_step; [|apply HQ; eauto with everwas|apply HC; eauto with everwas].
  rewrite bool_decide_eq_true_2 by done. wpm_step. apply HQ. destruct s; [done|..]; by eexists _, _, _.
Qed.

Lemma wpm_installChain fuel rest leaf (Q : res error unit -> machine -> Prop) C m :
  (forall r m', rechained m m' -> Q r m') -> (forall m', rechained m m' -> C m') ->
  wpm (installChain pemDecode x509 signedBy matching fuel rest leaf) Q C m.
Proof.
  revert rest m. induction fuel as [|fuel IH]; intros rest m HQ HC; cbn [installChain]; [wpm_step; auto with everwas|].
  destruct (pemDecode rest) as [[[ty der] rest']|]; [|wpm_step; auto with everwas].
  destruct (negb _); [by apply IH|]. destruct (x509 der) as [c|e]; [|wpm_step; auto with everwas].
  case_bool_decide; [by apply IH|]. wpm_step.
  apply wpm_openMachineStore; [|intros; apply HQ; auto with everwas|intros; apply HC; auto with everwas].
  intros fs. wpm_step. apply wpm_addIssuer; [by destruct (isSelfSigned _ _)|intros r m' Hm|intros m' Hm].
  - destruct r as [[]|]; [apply IH; intros|]; (apply HQ || apply HC); eauto 4 with everwas.
  - apply HC. eauto with everwas.
Qed.

Lemma wpm_enumerate l (Q : list entry -> machine -> Prop) C m :
  (forall n m', same_but_faults m m' -> Q (take n l) m') -> (forall m', same_but_faults m m' -> C m') ->
  wpm (enumerate l) Q C m.
Proof.
  revert Q m. induction l as [|e l IH]; intros Q m HQ HC; cbn [enumerate].
  { wpm_step. apply (HQ O). apply same_but_faults_refl. }
  do 2 wpm_step; [|wpm_step; apply (HQ O); by eexists|apply HC; by eexists].
  wpm_step. apply IH; intros.
  - wpm_step. apply (HQ (S n)). destruct H as [fs' ->]. by eexists.
  - apply HC. destruct H as [fs' ->]. by eexists.
Qed.

Lemma wpm_contextKeyContainer e (Q : bytes -> machine -> Prop) C m :
  (forall c m', c = [] \/ c = en_container e -> same_but_faults m m' -> Q c m') ->
  (forall m', same_but_faults m m' -> C m') ->
  wpm (contextKeyContainer e) Q C m.
Proof.
  intros HQ HC. unfold contextKeyContainer.
  do 2 wpm_step; [|wpm_step; apply HQ; [by left|by eexists]|apply HC; by eexists].
  case_bool_decide; [wpm_step; apply HQ; [by left|by eexists]|].
  do 2 wpm_step; [wpm_step; apply HQ; [by right|by eexists]|wpm_step; apply HQ; [by left|by eexists]|apply HC; by eexists].
Qed.
End store_specs.

(** ** The credential *)

Lemma hex_digit_code z : 0 <= z < 16 -> code (hex_digit z) ≠ 0.
Proof. intros Hz. unfold hex_digit. destruct (Z.ltb_spec z 10); rewrite code_chr; lia. Qed.

Lemma keyContainerName_plain sha256 id serial :
  chr 0 ∉ keyContainerName sha256 id serial /\ keyContainerName sha256 id serial ≠ [].
Proof.
  split; [|done]. unfold keyContainerName. rewrite elem_of_app. intros [H|H].
  { revert H. by apply (bool_decide_eq_false_1 _). }
  unfold HexEncode in H. apply list_elem_of_In, in_flat_map in H as (c & _ & Hc).
  pose proof (code_range c). assert (0 <= Z.shiftr (code c) 4 < 16).
  { rewrite Z.shiftr_div_pow2 by lia. split; [apply Z.div_pos | apply Z.div_lt_upper_bound]; lia. }
  assert (0 <= Z.land (code c) 15 < 16).
  { change 15 with (Z.ones 4). rewrite Z.land_ones by lia. apply Z.mod_pos_bound. lia. }
  destruct Hc as [Hc|[Hc|[]]]; apply (f_equal code) in Hc; revert Hc; apply hex_digit_code; lia.
Qed.

Section credential.
Context (pemDecode : bytes -> option (bytes * bytes * bytes)) (x509 : bytes -> res error xcert).
Context (signedBy : bytes -> bytes -> bool) (matching : bytes -> bytes -> bool).
Context (ncryptErr : option error) (pubBlob : bytes -> bytes) (signWith : bytes -> bytes -> bytes).
Implicit Types (C : machine -> Prop) (m : machine).

(** A certificate of My the supplicant can authenticate with: bound to a
    container that exists and holds the key it certifies. *)
Definition usable (m : machine) (e : entry) : Prop :=
  e ∈ mc_my m /\ exists c k, parseContext x509 e = Ok c /\ en_container e ≠ [] /\
    mc_keys m !! en_container e = Some k /\ parsePublicBlob (pubBlob k) = Ok (xc_pub c).

Definition holds_credential (m : machine) : Prop := exists e, usable m e.

(** Certificate [e] is in My and its container holds [k]. *)
Definition intact (e : entry) (k : bytes) (m : machine) : Prop :=
  e ∈ mc_my m /\ mc_keys m !! en_container e = Some k.

(** What worked before the renewal still does: [old] is a certificate and the
    key in its container, if there was one. *)
Definition kept (old : option (entry * bytes)) (m : machine) : Prop :=
  forall e k, old = Some (e, k) -> intact e k m.

Lemma intact_provides e k m ks h b m' :
  intact e k m -> provides m ks h b m' -> ks !! en_container e = mc_keys m !! en_container e -> intact e k m'.
Proof. intros [H1 H2] [fs ->] Hks. split; [done|]. cbn. by rewrite Hks. Qed.

Lemma intact_same e k m m' : intact e k m -> same_but_faults m m' -> intact e k m'.
Proof. intros H Hs. eapply intact_provides; [done..|]. done. Qed.

Lemma intact_rechained e k m m' : intact e k m -> rechained m m' -> intact e k m'.
Proof. intros [H1 H2] (ca & root & fs & ->). by split. Qed.

(** The signer's two handles are open, or it has been closed. *)
Definition signer_handles (h0 : Z) (m : machine) : Prop :=
  if mc_closed m then mc_handles m = h0 else mc_handles m = h0 + 2.

Lemma wpm_Close s h0 (Q : unit -> machine -> Prop) C m :
  sg_prov s = true -> sg_hkey s = true -> signer_handles h0 m ->
  (forall m', provides m (mc_keys m) h0 true m' -> Q tt m') -> wpm (Close s) Q C m.
Proof.
  intros Hp Hk Hh HQ. unfold Close, signer_handles in *. do 2 wpm_step.
  destruct (mc_closed m) eqn:Ec.
  - wpm_step. apply HQ. exists (faults (mc_world m)). destruct m as [[]]. cbn in *. by subst.
  - do 3 wpm_step. rewrite Hp, Hk. do 2 wpm_step. apply HQ. exists (faults (mc_world m)).
    destruct m as [[]]. cbn in *. subst. unfold provided, with_handles. cbn. f_equal. lia.
Qed.

(** *** The sweep *)

Section sweep.
Context (der name key : bytes).

(** The new certificate is in My with its key, and no other certificate
    shares its container. *)
Definition installed (m : machine) : Prop :=
  intact (Entry der name) key m /\ forall e, e ∈ mc_my m -> en_der e ≠ der -> en_container e ≠ name.

Definition swept (m m' : machine) : Prop :=
  installed m' /\ files (mc_world m') = files (mc_world m) /\ mc_closed m' = mc_closed m.

Lemma installed_same m m' : installed m -> same_but_faults m m' -> swept m m'.
Proof. intros [H1 H2] [fs ->]. split_and!; [|done|done]. by split. Qed.

Lemma wpm_sweepOne e m :
  installed m -> en_der e ≠ der -> en_container e ≠ name -> name ≠ [] ->
  wpm (sweepOne ncryptErr e) (fun _ m' => swept m m' /\ mc_handles m' = mc_handles m) installed m.
Proof.
  intros Hi Hd Hc Hn. unfold sweepOne. wpm_step.
  apply wpm_contextKeyContainer; [|intros m1 H1; by apply (installed_same m)].
  intros c m1 Hcc Hm1. assert (Hcn : c ≠ name) by (destruct Hcc as [->| ->]; auto).
  destruct Hi as [[Hin Hk] Hothers], Hm1 as [fs ->]. cbn [en_container] in Hk.
  assert (Hr : forall m', mc_my m' = mc_my m \/ mc_my m' = removed (en_der e) (mc_my m) ->
    mc_keys m' !! name = Some key -> installed m').
  { intros m' [Hmy|Hmy] Hk'; (split; [split; [|done]|]; rewrite Hmy); [done..| |].
    - apply list_elem_of_filter. split; [cbn; congruence|done].
    - intros e' He'. apply list_elem_of_filter in He' as [_ He']. by apply Hothers. }
  assert (Htail : forall m', mc_my m' = mc_my m \/ mc_my m' = removed (en_der e) (mc_my m) ->
    mc_keys m' = mc_keys m -> swept m m' -> mc_handles m' = mc_handles m ->
    wpm (if HasPrefix c keyContainerPrefix then wignore (deleteCNGKey ncryptErr c) else wret tt)
      (fun _ m2 => swept m m2 /\ mc_handles m2 = mc_handles m) installed m').
  { intros m' Hmy Hks (Hi & Hf & Hcl) Hh. destruct (HasPrefix c _); [|by wpm_step].
    unfold wignore. wpm_step. apply wpm_deleteCNGKey; intros; destruct H as [fs' ->]; try wpm_step.
    - split; [split; [apply Hr; [done|]|done]|done]. cbn [mc_keys provided]. by rewrite lookup_delete_ne, Hks.
    - split; [split; [apply Hr; [done|]|done]|done]. cbn [mc_keys provided]. by rewrite Hks.
    - apply Hr; [done|]. cbn [mc_keys provided]. by rewrite Hks. }
  unfold wignore at 1. do 3 wpm_step; [| |apply Hr; [by left|done]]; wpm_step; apply Htail; try done.
  - by right.
  - split; [|done]. apply Hr; [by right|done].
  - by left.
Qed.

Lemma wpm_sweepAll l m :
  installed m -> name ≠ [] -> Forall (fun e => en_der e ≠ der /\ en_container e ≠ name) l ->
  wpm (sweepAll ncryptErr l) (fun _ m' => swept m m' /\ mc_handles m' = mc_handles m) installed m.
Proof.
  intros Hi Hn Hl. revert m Hi. induction Hl as [|e l [He1 He2] _ IH]; intros m Hi; cbn [sweepAll].
  { wpm_step. by split_and!. }
  wpm_step. eapply wpm_mono; [by apply wpm_sweepOne| |done]. intros _ m1 [(Hi1 & Hf1 & Hc1) Hh1]. cbn beta.
  eapply wpm_mono; [by apply IH| |done]. intros _ m2 [(Hi2 & Hf2 & Hc2) Hh2]. unfold swept. split_and!; [done|congruence..].
Qed.

(** Sweeping never costs the certificate just installed, nor its key. *)
Lemma wpm_sweepSuperseded c m :
  installed m -> name ≠ [] ->
  wpm (sweepSuperseded x509 ncryptErr der c) (fun _ m' => swept m m' /\ mc_handles m' = mc_handles m) installed m.
Proof.
  intros Hi Hn. unfold sweepSuperseded. do 3 wpm_step.
  apply wpm_enumerate; [|intros; by eapply (installed_same m)]. intros n m1 Hm1.
  pose proof (installed_same _ _ Hi Hm1) as (Hi1 & Hf1 & Hc1).
  eapply wpm_mono; [apply wpm_sweepAll; [done..|]| |done].
  - apply Forall_forall. intros e He. apply list_elem_of_filter in He as [Hs He].
    assert (Hd : en_der e ≠ der).
    { unfold superseded in Hs. destruct (parseContext x509 e); [|done].
      destruct (bool_decide (en_der e = der)) eqn:Eb; [by rewrite orb_true_r in Hs|]. by apply bool_decide_eq_false in Eb. }
    split; [done|]. destruct Hi as [_ Hi]. apply Hi; [|done]. eapply elem_of_take in He as (i & Hi' & _).
    by eapply list_elem_of_lookup_2.
  - intros _ m2 [(Hi2 & Hf2 & Hc2) Hh2]. destruct Hm1 as [fs ->]. split; [split; [done|split; [by rewrite Hf2|by rewrite Hc2]]|by rewrite Hh2].
Qed.
End sweep.

(** *** Installing and saving *)

Section install.
Context (old : option (entry * bytes)) (der name key : bytes) (c : xcert).
Context (certPEM rest : bytes).
Hypothesis matching_refl : forall d, matching d d = true.
Hypothesis HPEM : pemDecode certPEM = Some (typeCertificate, der, rest).
Hypothesis Hx509 : x509 der = Ok c.
Hypothesis Hname : chr 0 ∉ name /\ name ≠ [].

(** The old certificate works, the new key is in its container, and nothing in
    My is bound to that container or is the new certificate. *)
Definition ready (m : machine) : Prop :=
  kept old m /\ mc_keys m !! name = Some key /\
  (forall e, e ∈ mc_my m -> en_container e ≠ name /\ matching der (en_der e) = false).

Definition one_intact (m : machine) : Prop := kept old m \/ intact (Entry der name) key m.

Lemma replaced_keeps m e : ready m -> e ∈ mc_my m -> e ∈ replaced matching der (mc_my m).
Proof.
  intros (_ & _ & Hf) He. apply elem_of_app. left. apply list_elem_of_filter. split; [|done]. by apply Hf.
Qed.

Lemma bound_keeps m e :
  ready m -> e ∈ mc_my m -> e ∈ bound der name (replaced matching der (mc_my m)).
Proof.
  intros Hr He. apply list_elem_of_fmap. exists e. split; [|by apply replaced_keeps].
  rewrite bool_decide_eq_false_2; [done|]. intros Hd. destruct Hr as (_ & _ & Hf).
  destruct (Hf e He) as [_ Hm]. by rewrite Hd, matching_refl in Hm.
Qed.

Lemma ready_installed m m' :
  ready m -> restocks m (bound der name (replaced matching der (mc_my m))) (mc_ca m) (mc_root m) m' ->
  installed der name key m' /\ kept old m'.
Proof.
  intros Hr [fs ->]. pose proof Hr as (Hold & Hk & Hf).
  split; [|intros e k Ho; destruct (Hold e k Ho); split; [by apply bound_keeps|done]].
  split; [split|]; cbn [mc_my mc_keys].
  - apply list_elem_of_fmap. exists (Entry der []). cbn [en_der]. rewrite bool_decide_eq_true_2 by done.
    split; [done|]. apply elem_of_app. right. by left.
  - done.
  - intros e He Hd. apply list_elem_of_fmap in He as (e' & -> & He'). case_bool_decide; [done|].
    apply elem_of_app in He' as [He'|He'].
    + apply list_elem_of_filter in He' as [_ He']. by apply Hf.
    + apply list_elem_of_singleton in He' as ->. done.
Qed.

Lemma wpm_installCertificate chainPEM m :
  ready m ->
  wpm (installCertificate pemDecode x509 signedBy matching ncryptErr name certPEM chainPEM)
    (fun r m' => files (mc_world m') = files (mc_world m) /\ mc_closed m' = mc_closed m /\
       mc_handles m' = mc_handles m /\
       match r with Ok _ => intact (Entry der name) key m' | Err _ => kept old m' end)
    one_intact m.
Proof.
  intros Hr. pose proof Hr as (Hold & Hk & Hf). destruct Hname as [Hn0 Hn].
  unfold installCertificate, firstCert. rewrite HPEM, bool_decide_eq_true_2 by done. cbn [negb]. rewrite Hx509.
  wpm_step. apply wpm_openMachineStore; [|intros; by split_and!|intros; by left]. intros fs. wpm_step.
  apply wpm_addToMy; [done|done|intros m1 Hm1|intros e my m1 Hmy [fs1 ->]|intros my m1 Hmy [fs1 ->]].
  2,3: assert (Hin : forall e, e ∈ mc_my m -> e ∈ my)
    by (intros e' He'; destruct Hmy as [->| ->]; [done|by apply (replaced_keeps m)]).
  2: split_and!; try done; intros e' k' Ho; destruct (Hold e' k' Ho); by split; [apply Hin|].
  2: left; intros e' k' Ho; destruct (Hold e' k' Ho); by split; [apply Hin|].
  assert (H1 : installed der name key m1 /\ kept old m1).
  { apply (ready_installed (refault m fs)); [|done]. by split_and!. }
  destruct H1 as [Hi Hold1], Hm1 as [fs1 ->]. wpm_step.
  apply wpm_installChain; [intros r m2 H2|intros m2 H2; right; eapply intact_rechained; [apply Hi|done]].
  destruct r as [[]|e].
  2: { destruct H2 as (ca & root & fs2 & ->). by split_and!. }
  assert (Hi2 : installed der name key m2).
  { destruct H2 as (ca & root & fs2 & ->). exact Hi. }
  wpm_step. eapply wpm_mono; [by apply (wpm_sweepSuperseded der name key)|intros _ m3 [(Hi3 & Hf3 & Hc3) Hh3]; cbn beta|].
  - wpm_step. destruct H2 as (ca & root & fs2 & ->). rewrite Hf3, Hc3, Hh3. split_and!; try done; apply Hi3.
  - intros m3 [Hi3 _]. by right.
Qed.

Lemma wpm_Save (dir chainPEM : bytes) (Q : res error Material -> machine -> Prop) C m :
  (forall w, (exists f, files w !! certPath dir = Some f /\ f_data f = certPEM) ->
     Q (Ok (materialOf dir (xc_info c))) (with_world m w)) ->
  (forall e w, Q (Err (Errorf "netcert: write" e)) (with_world m w)) ->
  (forall w, C (with_world m w)) ->
  wpm (lift (Save (parsePEM pemDecode x509) dir certPEM chainPEM)) Q C m.
Proof.
  intros Hok Herr Hdie. apply wpm_lift. unfold Save, parsePEM. rewrite HPEM, Hx509.
  apply wp_try_as, wp_WriteFile; [intros fs|intros d fs _; split; [apply Herr|intros; apply Hdie]].
  apply wp_try_as, wp_WriteFile; [intros fs'|intros d fs' _; split; [apply Herr|intros; apply Hdie]].
  apply wp_ret, Hok. eexists. cbn [files]. rewrite lookup_insert_eq. split; [done|].
  unfold written. by destruct (_ !! _).
Qed.

Lemma wpm_saveKey s (dir chainPEM : bytes) h0 m :
  ready m -> sg_prov s = true -> sg_hkey s = true -> signer_handles h0 m ->
  wpm (saveKey pemDecode x509 signedBy matching ncryptErr dir s name certPEM chainPEM)
    (fun r m' => signer_handles h0 m' /\
       match r with
       | Ok _ => intact (Entry der name) key m' /\ mc_handles m' = h0 /\
           exists f, files (mc_world m') !! certPath dir = Some f /\ f_data f = certPEM
       | Err e => kept old m' \/ intact (Entry der name) key m' /\ exists e', e = Errorf "netcert: write" e'
       end)
    one_intact m.
Proof.
  intros Hr Hp Hk Hh. unfold saveKey. wpm_step.
  eapply wpm_mono; [by apply wpm_installCertificate| |done]. intros r m1 (Hf1 & Hc1 & Hh1 & Hi1).
  assert (Hs1 : signer_handles h0 m1) by (unfold signer_handles in *; by rewrite Hc1, Hh1).
  destruct r as [[]|e]; [|auto]. wpm_step. apply (wpm_Close s h0); [done..|]. intros m2 [fs2 ->].
  wpm_step. apply wpm_Save; [intros w Hw|intros e w|intros w].
  - wpm_step. apply wpm_lift. unfold ignore. apply wp_bind, wp_Remove.
    + intros fs. apply wp_ret. wpm_step. split; [done|]. split; [done|]. split; [done|].
      destruct Hw as (f & Hf & Hd). exists f. cbn [files mc_world with_world]. split; [|done].
      rewrite lookup_delete_ne; [done|]. by apply Join_ne.
    + intros e fs _. apply wp_ret. wpm_step. by split_and!.
    + intros w' _. by right.
  - split; [done|]. right. split; [done|]. by eexists.
  - by right.
Qed.
End install.

(** *** The renewal *)

Section renewal.
Context (sha256 : bytes -> bytes).
Context (csrDigest : Z * Z -> res error bytes) (csrOf : Z * Z -> bytes -> res error bytes).
Context (dir deviceID : bytes).
Context (decode : bytes -> res error (bytes * bytes)) (server : bytes -> httpReply) (key : bytes).

(** The serial [Load] finds, empty when there is no certificate. *)
Definition serialOnDisk (m : machine) : bytes :=
  match files (mc_world m) !! certPath dir with
  | None => []
  | Some f => match parsePEM pemDecode x509 (f_data f) with Ok ci => serialHex (ci_Serial ci) | Err _ => [] end
  end.

(** The container the next attempt will use. *)
Definition attemptName (m : machine) : bytes := keyContainerName sha256 deviceID (serialOnDisk m).

(** Nothing in My is bound to it. *)
Definition name_is_free (m : machine) : Prop :=
  forall e, e ∈ mc_my m -> en_container e ≠ attemptName m.

(** The CA certifies the key it is asked to certify, in a certificate My does
    not hold yet. *)
Definition honest_issuer (m : machine) : Prop :=
  forall pub sig csr certPEM chainPEM,
    parsePublicBlob (pubBlob key) = Ok pub -> csrOf pub sig = Ok csr -> Request decode (server csr) = Ok (certPEM, chainPEM) ->
    exists der c rest, pemDecode certPEM = Some (typeCertificate, der, rest) /\ x509 der = Ok c /\ der ≠ [] /\
      xc_pub c = pub /\ forall e, e ∈ mc_my m -> matching der (en_der e) = false.

Lemma usable_intact m e k c :
  intact e k m -> parseContext x509 e = Ok c -> en_container e ≠ [] ->
  parsePublicBlob (pubBlob k) = Ok (xc_pub c) -> usable m e.
Proof. intros [H1 H2] H3 H4 H5. split; [done|]. by exists c, k. Qed.

Lemma wpm_buildCSRFor s (Q : res error bytes -> machine -> Prop) C m :
  (forall sig csr m', same_but_faults m m' -> csrOf (sg_pub s) sig = Ok csr -> Q (Ok csr) m') ->
  (forall e m', same_but_faults m m' -> Q (Err e) m') -> (forall m', same_but_faults m m' -> C m') ->
  wpm (buildCSRFor signWith csrDigest csrOf s) Q C m.
Proof.
  intros Hok Herr Hdie. unfold buildCSRFor.
  destruct (csrDigest (sg_pub s)) as [digest|e]; [|wpm_step; apply Herr, same_but_faults_refl].
  wpm_step. unfold Sign. case_bool_decide; [wpm_step; apply Herr, same_but_faults_refl|].
  wpm_step. unfold signHash. apply wpm_twoPass; [intros m1 H1 _|by eauto|by eauto].
  wpm_step. destruct (encodeSignature _) as [sig|e]; [|by apply Herr].
  wpm_step. destruct (csrOf (sg_pub s) sig) as [csr|e] eqn:E; [by eapply Hok|by apply Herr].
Qed.

(** [discard]: the container goes, or not; the signer is closed. *)
Lemma wpm_discardKey s name h0 (Q : res error unit -> machine -> Prop) C m :
  sg_prov s = true -> sg_hkey s = true -> signer_handles h0 m ->
  (forall r ks m', ks = mc_keys m \/ ks = delete name (mc_keys m) -> provides m ks h0 true m' -> Q r m') ->
  (forall h b m', provides m (mc_keys m) h b m' -> C m') ->
  wpm (discardKey ncryptErr s name) Q C m.
Proof.
  intros Hp Hk Hh HQ HC. unfold discardKey. wpm_step. apply (wpm_Close s h0); [done..|].
  intros m1 [fs1 ->]. apply wpm_deleteCNGKey; intros; destruct H as [fs2 ->].
  - eapply HQ; [by right|]. by eexists.
  - eapply HQ; [by left|]. by eexists.
  - eapply HC. by eexists.
Qed.

(** What a renewal leaves, given a certificate [old] that worked before it: on
    every path the handles are those it started with, and [old] still works,
    or the certificate just issued does, or writing the certificate to disk
    was what failed. *)
Definition renewal_post (old : option (entry * bytes)) (m : machine) (out : option Material * option error) (m' : machine) : Prop :=
  mc_handles m' = mc_handles m /\
  (kept old m' \/
   (exists der, usable m' (Entry der (attemptName m)) /\ out.2 = None) \/
   exists e, out = (None, Some (Errorf "netcert: write" e))) /\
  (forall mat, out = (Some mat, None) -> mt_Issued mat = true ->
     exists e f rest, usable m' e /\ en_container e = attemptName m /\
       files (mc_world m') !! certPath dir = Some f /\ pemDecode (f_data f) = Some (typeCertificate, en_der e, rest)).

Definition survives (old : option (entry * bytes)) (m m' : machine) : Prop :=
  kept old m' \/ exists der, usable m' (Entry der (attemptName m)).

Hypothesis matching_refl : forall d, matching d d = true.

Lemma wpm_renewWith ex old m m1 :
  kept old m -> name_is_free m -> honest_issuer m -> same_but_faults m m1 ->
  predecessor ex = serialOnDisk m -> (forall mat, ex = Some mat -> mt_Issued mat = false) ->
  wpm (renewWith decode (newDeviceKey pemDecode x509 signedBy matching ncryptErr pubBlob signWith sha256
         csrDigest csrOf dir deviceID key) server ex)
    (renewal_post old m) (survives old m) m1.
Proof.
  intros Hint Hfree Hca [fs1 ->] Hpred Hiss. set (name := attemptName m).
  assert (Hc0 : forall e k, old = Some (e, k) -> en_container e ≠ name).
  { intros e k Ho. apply Hfree. by destruct (Hint e k Ho). }
  pose proof (keyContainerName_plain sha256 deviceID (serialOnDisk m)) as Hname. fold name in Hname.
  (* As long as only the provider and this container are touched, [old] works. *)
  assert (Hkeep : forall ks h b m', provides m ks h b m' ->
    (ks = mc_keys m \/ ks = <[name := key]> (mc_keys m) \/ ks = delete name (mc_keys m) \/
     ks = delete name (<[name := key]> (mc_keys m))) -> kept old m').
  { intros ks h b m' Hm' Hks e k Ho. specialize (Hc0 e k Ho). eapply intact_provides; [by apply Hint|exact Hm'|].
    destruct Hks as [->|[->|[->| ->]]]; by rewrite ?lookup_delete_ne, ?lookup_insert_ne. }
  unfold renewWith, newDeviceKey. rewrite Hpred. cbv zeta. fold (attemptName m). fold name.
  wpm_step. wpm_step. apply wpm_createCNGKey; intros.
  2: { wpm_step. destruct H0 as [fs2 ->]. split_and!; [done| |done]. left. eapply Hkeep; [by eexists|]. tauto. }
  2: { destruct H0 as [fs2 ->]. left. eapply Hkeep; [by eexists|]. tauto. }
  destruct H as [fs2 ->]. do 2 wpm_step. cbn [dk_csr dk_save dk_discard].
  set (m2 := provided _ _ _ _ fs2).
  (* Giving up before the certificate came. *)
  assert (Hgive : forall out m3, same_but_faults m2 m3 -> (forall mat, out = (Some mat, None) -> mt_Issued mat = false) ->
    wpm (let^ _ := wignore (discardKey ncryptErr s name) in wret out) (renewal_post old m) (survives old m) m3).
  { intros out m3 [fs3 ->] Hout. wpm_step. unfold wignore. wpm_step.
    apply (wpm_discardKey s name (mc_handles m)); [done..| |].
    - intros r ks m4 Hks [fs4 ->]. do 2 wpm_step. split; [done|]. split.
      + left. eapply Hkeep; [by eexists|]. cbn in Hks. tauto.
      + intros mat Ho. by rewrite (Hout mat Ho).
    - intros h b m4 [fs4 ->]. left. eapply Hkeep; [by eexists|]. cbn. tauto. }
  apply wpm_buildCSRFor; [intros sig csr m3 Hm3 Hcsr|intros e m3 Hm3; by apply Hgive|].
  2: { intros m3 [fs3 ->]. left. eapply Hkeep; [by eexists|]. cbn. tauto. }
  destruct (Request decode (server csr)) as [[certPEM chainPEM]|e] eqn:Ereq; [|by apply Hgive].
  destruct (Hca (sg_pub s) sig csr certPEM chainPEM ltac:(done) Hcsr Ereq) as (der & c & rest & HPEM & Hx & Hne & Hpub & Hnew).
  assert (Hcred : forall m', intact (Entry der name) key m' -> usable m' (Entry der name)).
  { intros m' Hi. eapply usable_intact; [exact Hi| |apply Hname|by rewrite Hpub].
    unfold parseContext. cbn [en_der]. by destruct der. }
  destruct Hm3 as [fs3 ->]. wpm_step. eapply wpm_mono.
  - apply (wpm_saveKey old der name key c certPEM rest matching_refl HPEM Hx Hname s dir chainPEM (mc_handles m));
      [|done|done|done].
    split; [|split; [apply lookup_insert_eq|]].
    + eapply Hkeep; [by eexists|]. cbn. tauto.
    + intros e He. split; [by apply Hfree|by apply Hnew].
  - intros r m4 [Hh4 Hr4]. cbn beta. destruct r as [mat|e].
    + destruct Hr4 as (Hi4 & Hh & f & Hf & Hfd). wpm_step. split; [done|]. split.
      * right. left. exists der. split; [by apply Hcred|done].
      * intros mat' _ _. exists (Entry der name), f, rest. rewrite Hfd. split_and!; try done; by apply Hcred.
    + wpm_step. unfold wignore. wpm_step. apply (wpm_discardKey s name (mc_handles m)); [done..| |].
      * intros r ks m5 Hks [fs5 ->]. do 2 wpm_step. split; [done|]. split; [|done].
        destruct Hr4 as [Hold4|[_ [e' ->]]]; [left|right; right; by exists e'].
        intros e' k' Ho. destruct (Hold4 e' k' Ho). specialize (Hc0 e' k' Ho). split; [done|]. cbn. destruct Hks as [->| ->]; [done|]. by rewrite lookup_delete_ne.
      * intros h b m5 [fs5 ->]. destruct Hr4 as [Hi4|[Hi4 _]]; [by left|right]. exists der. by apply Hcred.
  - intros m4 [Hi|Hi]; [by left|right]. exists der. by apply Hcred.
Qed.

Lemma wpm_Load (Q : res error Material -> machine -> Prop) C m :
  (forall mat m', same_but_faults m m' -> mt_Serial mat = serialOnDisk m -> mt_Issued mat = false -> Q (Ok mat) m') ->
  (forall e m', same_but_faults m m' -> (Is e ErrNoCertificate = true -> serialOnDisk m = []) -> Q (Err e) m') ->
  (forall w, C (with_world m w)) ->
  wpm (lift (Load (parsePEM pemDecode x509) dir)) Q C m.
Proof.
  intros Hok Herr Hdie. apply wpm_lift. unfold Load. apply wp_bind. unfold serialOnDisk in *. apply wp_syscall; [| |auto].
  - intros fs. cbn [fst snd]. destruct (files (mc_world m) !! certPath dir) as [f|]; apply wp_ret.
    + destruct (parsePEM pemDecode x509 (f_data f)) as [ci|e]; [apply Hok; [by eexists|done..]|].
      apply Herr; [by eexists|done].
    + apply Herr; [by eexists|done].
  - intros n fs. apply wp_ret. apply Herr; [by eexists|done].
Qed.

Abbreviation renewal := (Ensure pemDecode x509 signedBy matching ncryptErr pubBlob signWith sha256 csrDigest csrOf
  dir deviceID decode server key).

Lemma wpm_Ensure old now m :
  kept old m -> name_is_free m -> honest_issuer m ->
  wpm (renewal now) (renewal_post old m) (survives old m) m.
Proof.
  intros Hold Hfree Hca. unfold Ensure, ensureWith. wpm_step.
  apply wpm_Load; [intros mat m1 Hm1 Hser Hiss|intros e m1 Hm1 Hser|intros w; by left].
  - destruct (negb _); [|apply wpm_renewWith; try done; by intros mat' [= <-]].
    wpm_step. destruct Hm1 as [fs ->]. split; [done|]. split; [by left|]. intros mat' [= <-]. by rewrite Hiss.
  - destruct (Is e ErrNoCertificate); [apply wpm_renewWith; try done; by rewrite Hser|].
    wpm_step. destruct Hm1 as [fs ->]. split; [done|]. split; [by left|]. done.
Qed.

(** C10: Given an authority that answers with a fresh certificate for the key it
    was sent, a renewal never costs a Windows device its network credential,
    with one exception.  From a device that holds a working certificate and
    starts on a container nothing in the store is bound to, whatever fails, and
    wherever the process is killed, the device afterwards still holds a
    certificate bound to a container with its key: the old one or the new one.
    The exception is an error from writing the certificate files; and no path
    leaks a provider handle.  The agent checks neither half of the condition on
    the authority; handed the certificate it already has, it loses the
    credential ([same_certificate_again_loses_the_credential]). *)
Theorem only_a_failed_write_loses_the_credential (now : Z) (m : machine) :
  holds_credential m -> name_is_free m -> honest_issuer m ->
  wpm (renewal now)
    (fun out m' => mc_handles m' = mc_handles m /\
       (holds_credential m' \/ exists e, out = (None, Some (Errorf "netcert: write" e))))
    holds_credential m.
Proof.
  intros (e0 & Hin & c & k & Hp & Hc & Hk & Hpub) Hfree Hca.
  assert (Hkept : forall m', kept (Some (e0, k)) m' -> holds_credential m').
  { intros m' H. exists e0. by eapply usable_intact; [apply H|..]. }
  eapply wpm_mono; [apply (wpm_Ensure (Some (e0, k))); [by intros ? ? [= <- <-]|done..]| |].
  - intros out m' (Hh & [Hold|[(der & Hu & _)|Hw]] & _); (split; [done|]); [left; auto|left; by eexists|by right].
  - intros m' [Hold|[der Hu]]; [auto|by eexists].
Qed.

(** A renewal that reports success leaves the certificate it reports in the
    machine store, bound to the container of this attempt, whose key it
    certifies, and the same certificate on disk; from any state of the device,
    also one that had no certificate. *)
Theorem issued_credential_is_usable (now : Z) (m : machine) :
  name_is_free m -> honest_issuer m ->
  wpm (renewal now)
    (fun out m' => forall mat, out = (Some mat, None) -> mt_Issued mat = true ->
       exists e f rest, usable m' e /\ en_container e = attemptName m /\
         files (mc_world m') !! certPath dir = Some f /\ pemDecode (f_data f) = Some (typeCertificate, en_der e, rest))
    (fun _ => True) m.
Proof.
  intros Hfree Hca. eapply wpm_mono; [by apply (wpm_Ensure None)| |done]. by intros out m' (_ & _ & H).
Qed.
End renewal.
End credential.

(** ** Presence *)

Lemma same_but_faults_trans m m1 m2 : same_but_faults m m1 -> same_but_faults m1 m2 -> same_but_faults m m2.
Proof. intros [fs ->] [fs' ->]. by exists fs'. Qed.

Section presence.
Context (x509 : bytes -> res error xcert) (signedBy : bytes -> bytes -> bool).
Implicit Types (m : machine).

Lemma wpm_walk (fn : entry -> xcert -> win bool) (P : entry -> xcert -> Prop) l m :
  (forall e c m, wpm (fn e c) (fun more m' => same_but_faults m m' /\ (more = false -> P e c)) (same_but_faults m) m) ->
  wpm (walk x509 fn l) (fun r m' => same_but_faults m m' /\
    forall e c, r = Some (e, c) -> e ∈ l /\ parseContext x509 e = Ok c /\ P e c) (same_but_faults m) m.
Proof.
  intros Hfn. revert m. induction l as [|e l IH]; intros m; cbn [walk].
  { wpm_step. split; [apply same_but_faults_refl|done]. }
  assert (Hgo : forall m1, same_but_faults m m1 -> wpm (walk x509 fn l) (fun r m' => same_but_faults m m' /\
    forall e' c, r = Some (e', c) -> e' ∈ e :: l /\ parseContext x509 e' = Ok c /\ P e' c) (same_but_faults m) m1).
  { intros m1 H1. eapply wpm_mono; [apply IH| |by eauto using same_but_faults_trans].
    intros r m2 [H2 Hr]. split; [by eauto using same_but_faults_trans|]. intros e' c Hs.
    destruct (Hr e' c Hs) as (? & ? & ?). split_and!; [by right|done..]. }
  do 2 wpm_step; [|wpm_step; split; [by eexists|done]|by eexists].
  destruct (parseContext x509 e) as [c|err] eqn:Ep; [|apply Hgo; by eexists].
  wpm_step. eapply wpm_mono; [apply Hfn| |intros m2 [fs2 ->]; by eexists].
  intros more m2 [[fs2 ->] Hm]. cbn beta. destruct more; [apply Hgo; by eexists|].
  wpm_step. split; [by eexists|]. intros e' c' [= <- <-]. split_and!; [by left|done|by apply Hm].
Qed.

Lemma wpm_eachStoredCert s (fn : entry -> xcert -> win bool) (P : entry -> xcert -> Prop) m :
  (forall e c m, wpm (fn e c) (fun more m' => same_but_faults m m' /\ (more = false -> P e c)) (same_but_faults m) m) ->
  wpm (eachStoredCert x509 s fn) (fun r m' => same_but_faults m m' /\
    forall e c, r = Ok (Some (e, c)) -> e ∈ store_of s m /\ parseContext x509 e = Ok c /\ P e c) (same_but_faults m) m.
Proof.
  intros Hfn. unfold eachStoredCert, readMachineStore. do 3 wpm_step; [|split; [by eexists|done]|by eexists].
  do 4 wpm_step. eapply wpm_mono; [by apply (wpm_walk fn P)| |intros m2 [fs2 ->]; by eexists].
  intros r m2 [[fs2 ->] Hr]. cbn beta. wpm_step. split; [by eexists|]. intros e c [= ->].
  destruct (Hr e c eq_refl) as (He & Hp & HP). done.
Qed.

(** [Presence] changes nothing, and when it names an issuer there is a
    certificate of this device in My, bound to a container, and the thumbprint
    is that of a certificate of CA or Root whose subject is the device
    certificate's issuer and whose key signed it. *)
Theorem Presence_names_the_stored_issuer (sha1 : bytes -> bytes) (agentID : bytes) m :
  wpm (Presence x509 signedBy sha1 agentID)
    (fun r m' => same_but_faults m m' /\ forall thumb, r = Ok thumb ->
       exists leaf lc issuer ic,
         leaf ∈ mc_my m /\ parseContext x509 leaf = Ok lc /\ xc_cn lc = agentID /\ en_container leaf ≠ [] /\
         (issuer ∈ mc_ca m \/ issuer ∈ mc_root m) /\ parseContext x509 issuer = Ok ic /\
         xc_rawSubject ic = xc_rawIssuer lc /\ signedBy (en_der leaf) (en_der issuer) = true /\
         thumb = HexEncode (sha1 (en_der issuer)))
    (same_but_faults m) m.
Proof.
  unfold Presence. wpm_step. unfold storedDeviceCert. wpm_step.
  eapply wpm_mono; [apply (wpm_eachStoredCert _ _ (fun e c => xc_cn c = agentID /\ en_container e ≠ []))|
    intros r m1 [Hm1 Hr]; cbn beta|done].
  { intros e c m0. case_bool_decide as Hcn; cbn [negb]; [|wpm_step; split; [apply same_but_faults_refl|done]].
    wpm_step. apply wpm_contextKeyContainer; [|done]. intros b m1 Hb Hm. wpm_step. split; [done|].
    intros Hd. apply bool_decide_eq_false in Hd. destruct Hb as [->| ->]; [done|auto]. }
  destruct r as [[[leaf lc]|]|err]; [|by wpm_step|done]. wpm_step. cbn iota.
  destruct (Hr leaf lc eq_refl) as (Hin & Hp & Hcn & Hb). clear Hr.
  assert (Hiss : forall s m2, wpm (eachStoredCert x509 s (fun e c => wret (negb (issues signedBy leaf lc e c))))
    (fun r m' => same_but_faults m2 m' /\ forall e c, r = Ok (Some (e, c)) -> e ∈ store_of s m2 /\
      parseContext x509 e = Ok c /\ (xc_rawSubject c = xc_rawIssuer lc /\ signedBy (en_der leaf) (en_der e) = true))
    (same_but_faults m2) m2).
  { intros s m2. apply wpm_eachStoredCert. intros e c m0. wpm_step. split; [apply same_but_faults_refl|].
    unfold issues. case_bool_decide; cbn [negb orb]; [|done]. by destruct (signedBy _ _). }
  wpm_step. unfold storedIssuerOf. cbn [fst snd]. wpm_step. destruct Hm1 as [fs1 ->].
  eapply wpm_mono; [apply (Hiss storeCA)|intros r m2 [[fs2 ->] Hr]; cbn beta|intros m2 [fs2 ->]; by eexists].
  destruct r as [[[issuer ic]|]|err]; [| |split; [by eexists|done]].
  { do 2 wpm_step. split; [by eexists|]. intros thumb [= <-]. destruct (Hr issuer ic eq_refl) as (? & ? & ? & ?).
    exists leaf, lc, issuer, ic. split_and!; try done. by left. }
  wpm_step. eapply wpm_mono; [apply (Hiss storeRoot)|intros r m3 [[fs3 ->] Hr3]; cbn beta|intros m3 [fs3 ->]; by eexists].
  destruct r as [[[issuer ic]|]|err]; [| |split; [by eexists|done]]; wpm_step; [|split; [by eexists|done]].
  wpm_step. split; [by eexists|]. intros thumb [= <-]. destruct (Hr3 issuer ic eq_refl) as (? & ? & ? & ?).
  exists leaf, lc, issuer, ic. split_and!; try done. by right.
Qed.
End presence.

(** ** What can go wrong *)

Section toy_credential.
Abbreviation toy_holds := (holds_credential Toy.x509 Toy.pubBlob).

Definition usableb (m : machine) (e : entry) : bool :=
  match parseContext Toy.x509 e, mc_keys m !! en_container e with
  | Ok c, Some k =>
      match parsePublicBlob (Toy.pubBlob k) with Ok p => bool_decide (p = xc_pub c) | Err _ => false end
  | _, _ => false
  end.

Lemma usableb_spec m : toy_holds m -> existsb (usableb m) (mc_my m) = true.
Proof.
  intros (e & Hin & c & k & Hp & _ & Hk & Hpub). apply existsb_exists. exists e.
  split; [by apply list_elem_of_In|]. unfold usableb. rewrite Hp, Hk, Hpub. by apply bool_decide_eq_true_2.
Qed.

Lemma toy_matching_refl d : Toy.matching d d = true.
Proof. unfold Toy.matching. by apply bool_decide_eq_true_2. Qed.

Lemma toy_holds_at_first fs : toy_holds (Toy.machine0 fs).
Proof.
  exists (Entry (str "A1") (Toy.name [])). split; [by left|]. eexists _, (str "A"). split_and!; [done|done|done|].
  vm_compute. reflexivity.
Qed.

Lemma toy_lost m : existsb (usableb m) (mc_my m) = false -> ~ toy_holds m.
Proof. intros H Hm. apply usableb_spec in Hm. congruence. Qed.

Lemma toy_held m :
  existsb (fun e => negb (bool_decide (en_container e = [])) && usableb m e) (mc_my m) = true -> toy_holds m.
Proof.
  intros H. apply existsb_exists in H as (e & Hin & Hu). apply andb_true_iff in Hu as [Hc Hu].
  apply negb_true_iff, bool_decide_eq_false in Hc.
  exists e. split; [by apply list_elem_of_In|]. unfold usableb in Hu.
  destruct (parseContext Toy.x509 e) as [c|]; [|done]. destruct (mc_keys m !! en_container e) as [k|] eqn:Ek; [|done].
  destruct (parsePublicBlob (Toy.pubBlob k)) as [p|] eqn:Ep; [|done]. apply bool_decide_eq_true in Hu as ->.
  by exists c, k.
Qed.

(** The disk fills up as the certificate is saved. *)
Definition disk_full : list fault := repeat Proceed 25 ++ [Fails 0].
(** The process is killed there. *)
Definition killed_there : list fault := repeat Proceed 25 ++ [Dies 0].

Definition after_full_disk : outcome (option Material * option error) * machine :=
  Toy.Ensure (str "B") (Toy.ca (str "2")) (Toy.machine0 disk_full).
Definition after_the_kill : outcome (option Material * option error) * machine :=
  Toy.Ensure (str "B") (Toy.ca (str "2")) (Toy.machine0 killed_there).

(** A failed write of two small files takes a working device off the network.
    [save] installs the new certificate, which sweeps the old one and its key,
    and only then writes the files; when that write fails, [ensure] discards
    the key of the certificate it has just installed.  The device ends with one
    certificate in its store, bound to nothing that exists, and [Presence]
    still reports it as present. *)
Theorem failed_write_discards_the_key_in_use :
  toy_holds (Toy.machine0 disk_full) /\
  after_full_disk.1 = Ret (None, Some (Errorf "netcert: write" ErrIO)) /\
  ~ toy_holds after_full_disk.2 /\ mc_keys after_full_disk.2 = ∅ /\
  exists thumb, (Presence Toy.x509 Toy.signedBy Toy.id (str "dev") after_full_disk.2).1 = Ret (Ok thumb).
Proof.
  split; [apply toy_holds_at_first|]. split; [vm_compute; reflexivity|].
  split; [apply toy_lost; vm_compute; reflexivity|]. split; [vm_compute; reflexivity|].
  eexists. vm_compute. reflexivity.
Qed.

(** A death between installing the certificate and writing the files is
    harmless by itself: the device is left with a working certificate.  But the
    disk still names the predecessor, so the next attempt computes the name of
    the container now in use.  It writes a new key over the one in use; if the
    server then refuses, the container is deleted; and if the server issues,
    the sweep finds the interrupted attempt's certificate, bound to that same
    container, and deletes the key of the certificate it has just installed.
    Either way the device holds no credential, in the second case having
    reported success. *)
Theorem retry_after_a_kill_loses_the_key :
  let m1 := after_the_kill.2 in
  after_the_kill.1 = Died /\ toy_holds m1 /\
  (let r := Toy.Ensure (str "C") (fun _ => Status 503 []) m1 in
   (exists mat, r.1 = Ret (Some mat, Some ErrNotConfigured)) /\ ~ toy_holds r.2) /\
  (let r := Toy.Ensure (str "C") (Toy.ca (str "3")) m1 in
   (exists mat, r.1 = Ret (Some mat, None) /\ mt_Issued mat = true) /\ ~ toy_holds r.2).
Proof.
  split; [vm_compute; reflexivity|]. split; [apply toy_held; vm_compute; reflexivity|].
  split; (split; [|apply toy_lost; vm_compute; reflexivity]); eexists; [|split]; vm_compute; reflexivity.
Qed.

(** The comment on [addToStore] expects that a device can be handed the same
    certificate twice.  When a renewal is, the certificate replaces itself in
    the store and is bound to the container of the new key, which is not its
    key; the old container is no longer referred to.  The renewal reports
    success, and the device holds no credential. *)
Theorem same_certificate_again_loses_the_credential :
  let r := Toy.Ensure (str "B") (fun _ => Status 200 (str "A1")) (Toy.machine0 []) in
  toy_holds (Toy.machine0 []) /\ (exists mat, r.1 = Ret (Some mat, None) /\ mt_Issued mat = true) /\ ~ toy_holds r.2.
Proof.
  split; [apply toy_holds_at_first|]. split; [|apply toy_lost; vm_compute; reflexivity].
  eexists. split; vm_compute; reflexivity.
Qed.

Definition toyRenewal (server : bytes -> httpReply) : win (option Material * option error) :=
  Ensure Toy.pem Toy.x509 Toy.signedBy Toy.matching None Toy.pubBlob Toy.signWith Toy.id Toy.csrDigest Toy.csrOf
    Toy.dir [] Toy.decode server (str "B") Toy.now.

Lemma toy_name_is_free fs : name_is_free Toy.pem Toy.x509 Toy.id Toy.dir [] (Toy.machine0 fs).
Proof. intros e He. apply list_elem_of_singleton in He as ->. vm_compute. discriminate. Qed.

Lemma toy_honest fs :
  honest_issuer Toy.pem Toy.x509 Toy.matching Toy.pubBlob Toy.csrOf Toy.decode (Toy.ca (str "2")) (str "B")
    (Toy.machine0 fs).
Proof.
  intros pub sig csr certPEM chainPEM Hb [= <-] Hreq. vm_compute in Hb. injection Hb as <-.
  vm_compute in Hreq. injection Hreq as <- <-. eexists _, _, _. split_and!; [reflexivity|reflexivity|done|reflexivity|].
  intros e He. apply list_elem_of_singleton in He as ->. vm_compute. reflexivity.
Qed.

Lemma only_a_failed_write_loses_the_credential_witness :
  (wpm (toyRenewal (Toy.ca (str "2")))
    (fun out m' => mc_handles m' = 0 /\
       (toy_holds m' \/ exists e, out = (None, Some (Errorf "netcert: write" e))))
    toy_holds (Toy.machine0 [Proceed; Proceed; Fails 0])) /\
  toy_holds (Toy.machine0 []).
Proof.
  split; [|apply toy_holds_at_first].
  apply (only_a_failed_write_loses_the_credential Toy.pem Toy.x509 Toy.signedBy Toy.matching None Toy.pubBlob
    Toy.signWith Toy.id Toy.csrDigest Toy.csrOf Toy.dir [] Toy.decode (Toy.ca (str "2")) (str "B") toy_matching_refl
    Toy.now (Toy.machine0 [Proceed; Proceed; Fails 0])).
  - apply toy_holds_at_first.
  - apply toy_name_is_free.
  - apply toy_honest.
Defined.

Lemma issued_credential_is_usable_witness :
  wpm (toyRenewal (Toy.ca (str "2")))
    (fun out m' => forall mat, out = (Some mat, None) -> mt_Issued mat = true ->
       exists e f rest, usable Toy.x509 Toy.pubBlob m' e /\
         en_container e = attemptName Toy.pem Toy.x509 Toy.id Toy.dir [] (Toy.machine0 []) /\
         files (mc_world m') !! certPath Toy.dir = Some f /\
         Toy.pem (f_data f) = Some (typeCertificate, en_der e, rest))
    (fun _ => True) (Toy.machine0 []) /\
  exists mat, (toyRenewal (Toy.ca (str "2")) (Toy.machine0 [])).1 = Ret (Some mat, None) /\ mt_Issued mat = true.
Proof.
  split.
  - apply (issued_credential_is_usable Toy.pem Toy.x509 Toy.signedBy Toy.matching None Toy.pubBlob
      Toy.signWith Toy.id Toy.csrDigest Toy.csrOf Toy.dir [] Toy.decode (Toy.ca (str "2")) (str "B") toy_matching_refl
      Toy.now (Toy.machine0 [])).
    + apply toy_name_is_free.
    + apply toy_honest.
  - eexists. split; vm_compute; reflexivity.
Defined.
End toy_credential.
