(* ===== verification/Inventory.v ===== *)
(** * Inventory: what the agent says is on the machine (agent/internal/inventory)

    inventory.go, software.go and its platforms, services.go, logins.go and its
    platforms, network.go, processes.go, hardware.go and dmi.go.  The server
    takes a snapshot as complete and records what is missing from it as
    removed, so the question is when a collector may answer at all.  What the
    operating system says (registry, terminal services, gopsutil, sysfs, the
    commands run) is an argument of the collectors. *)
From S2P Require Import Prelude GoLib GoText GoOS Env Wire Posture.
From stdpp Require Import sorting.
#[local] Open Scope Z_scope.

(** ** Sorting *)

(** [sort.Slice]; where two elements are equivalent under the order their
    order is unspecified, and nothing below depends on it. *)
Section sort.
Context {A : Type} (le : A -> A -> bool).

Fixpoint insertBy (x : A) (l : list A) : list A :=
  match l with
  | [] => [x]
  | y :: l' => if le x y then x :: l else y :: insertBy x l'
  end.

Definition sortBy (l : list A) : list A := foldr insertBy [] l.

Lemma sortBy_perm l : sortBy l ≡ₚ l.
Proof.
  assert (Hins : forall x l, insertBy x l ≡ₚ x :: l).
  { clear. intros x l. induction l as [|y l IH]; [done|]. cbn [insertBy].
    destruct (le x y); [done|]. rewrite IH. apply Permutation_swap. }
  induction l as [|x l IH]; [done|]. cbn [sortBy foldr]. rewrite Hins. by f_equiv.
Qed.

Hypothesis le_total : forall x y, le x y = false -> le y x = true.
Hypothesis le_trans : forall x y z, le x y = true -> le y z = true -> le x z = true.
Let R x y := le x y = true.

Lemma sortBy_sorted l : StronglySorted R (sortBy l).
Proof.
  apply Sorted_StronglySorted; [intros x y z; apply le_trans|].
  assert (Hins : forall x l, Sorted R l -> Sorted R (insertBy x l)).
  { intros x l0 Hl. induction Hl as [|y l0 Hl IH Hh]; cbn [insertBy]; [by repeat constructor|].
    destruct (le x y) eqn:E; [by repeat constructor|].
    constructor; [done|]. destruct l0 as [|z l0]; cbn [insertBy].
    - constructor. by apply le_total.
    - destruct (le x z); constructor; [by apply le_total|by inversion Hh]. }
  induction l as [|x l IH]; [constructor|]. cbn. by apply Hins.
Qed.

(** Sorting forgets the order, where the order tells all elements apart. *)
Lemma sortBy_unique l l' :
  (forall x y, x ∈ l -> y ∈ l -> le x y = true -> le y x = true -> x = y) -> l ≡ₚ l' -> sortBy l = sortBy l'.
Proof.
  intros Hanti Hp. apply (StronglySorted_unique_strong R); [|apply sortBy_sorted..|by rewrite !sortBy_perm].
  intros x y Hx Hy. rewrite sortBy_perm in Hx, Hy. rewrite <- Hp in Hy. by apply Hanti.
Qed.
End sort.

(** ** RefreshNow *)

Section refresh.
Context {payload : Type}.
(** The JSON of a payload with its hash, [None] when it cannot be encoded;
    and whether the connection takes a message. *)
Context (encodeHashed : payload -> option bytes) (accepts : bytes -> bool).
Context (agentID : bytes) (newMsgID : bytes -> bytes) (now : Z).

Record message := Message { msg_Subject : bytes; msg_Env : Envelope; msg_ID : bytes }.

Definition publishSnapshot (kind : bytes) (p : payload) : res error message :=
  match encodeHashed p with
  | None => Err (Sentinel "json: unsupported value")
  | Some data =>
      match NewEnvelope (str "inventory") agentID (newMsgID kind) (Some data) now with
      | None => Err (Sentinel "wire: marshal data")
      | Some env =>
          let subject := Inventory agentID kind in
          if accepts subject then Ok {| msg_Subject := subject; msg_Env := env; msg_ID := env_MsgID env |}
          else Err (Sentinel "nats: connection closed")
      end
  end.

(** A collector's kind and what it returned.  The state is the kinds that
    failed and the messages published. *)
Definition refreshOne (st : list bytes * list message) (c : bytes * res error payload) : list bytes * list message :=
  let '(failed, out) := st in
  match c.2 with
  | Err err => if negb (kindFailed err) then (failed, out) else (failed ++ [c.1], out)
  | Ok p =>
      match publishSnapshot c.1 p with
      | Err _ => (failed ++ [c.1], out)
      | Ok msg => (failed, out ++ [msg])
      end
  end.

Definition RefreshNow (collectors : list (bytes * res error payload)) : res error unit * list message :=
  let '(failed, out) := fold_left refreshOne collectors ([], []) in
  (match failed with
   | [] => Ok tt
   | _ => Err (Errorf "inventory kinds failed" (Sentinel (String.string_of_list_ascii (JoinStr (str ", ") failed))))
   end, out).
End refresh.

Definition collectorKinds : list bytes :=
  map str ["hardware"; "software"; "network"; "logins"; "posture"; "processes"; "services"]%string.

(** ** Software *)

Definition maxPackages : nat := 5000.

Record pkg := Pkg { pk_Name : bytes; pk_Version : bytes }.
#[export] Instance pkg_eq_dec : EqDecision pkg.
Proof. solve_decision. Defined.

(** The two parsers differ in the separator; each stops at the cap. *)
Fixpoint parseLines (sep : bytes) (lines : list bytes) (pkgs : list pkg) : list pkg :=
  match lines with
  | [] => pkgs
  | line :: lines' =>
      match Cut sep (TrimRight [nl] line) with
      | None => parseLines sep lines' pkgs
      | Some (name, version) =>
          if bool_decide (name = []) then parseLines sep lines' pkgs
          else
            let pkgs := pkgs ++ [Pkg name version] in
            if (length pkgs =? maxPackages)%nat then pkgs else parseLines sep lines' pkgs
      end
  end.

Definition tab : ascii := chr 9.
Definition parseTabPackages (out : bytes) : list pkg := parseLines [tab] (Lines out) [].
Definition parsePacmanPackages (out : bytes) : list pkg := parseLines [sp] (Lines out) [].

Section unix.
(** What is on PATH and what a command prints. *)
Context (GOOS : bytes) (have : bytes -> bool) (exec : list bytes -> res error bytes).

Record query := Query { q_binary : bytes; q_argv : list bytes; q_parse : bytes -> list pkg }.

Definition queries : list query :=
  [ Query (str "dpkg-query") [str "dpkg-query"; str "-W"; str "-f"; str "${Package}" ++ [tab] ++ str "${Version}" ++ [nl]] parseTabPackages;
    Query (str "rpm") [str "rpm"; str "-qa"; str "--qf"; str "%{NAME}" ++ [tab] ++ str "%{VERSION}-%{RELEASE}" ++ [nl]] parseTabPackages;
    Query (str "pacman") [str "pacman"; str "-Q"] parsePacmanPackages ].

Fixpoint tryManagers (qs : list query) (present : bool) : res error (list pkg) :=
  match qs with
  | [] =>
      if negb present then Err (Errorf "software: no supported package manager" errNoCollector) else Ok []
  | q :: qs' =>
      if negb (have (q_binary q)) then tryManagers qs' present
      else match exec (q_argv q) with
           | Err e => Err (Errorf "software" e)
           | Ok out =>
               match q_parse q out with
               | [] => tryManagers qs' true
               | pkgs => Ok pkgs
               end
           end
  end.

Definition listPackages : res error (list pkg) :=
  if negb (bool_decide (GOOS = str "linux")) then Err (Errorf "software" errNoCollector)
  else tryManagers queries false.

(** ** Services *)

Record svc := Svc { sv_Name : bytes; sv_State : bytes }.

Definition parseUnit (line : bytes) : list svc :=
  match Fields line with
  | name :: _ :: state :: _ => if HasSuffix name (str ".service") then [Svc name state] else []
  | _ => []
  end.
Definition parseSystemctlUnits (out : bytes) : list svc := flat_map parseUnit (Lines out).

Definition systemctlArgv : list bytes :=
  map str ["systemctl"; "list-units"; "--type=service"; "--all"; "--no-pager"; "--no-legend"; "--plain"]%string.

Definition collectServicesWith : res error (list svc) :=
  if negb (bool_decide (GOOS = str "linux")) then Err (Errorf "services" errNoCollector)
  else if negb (have (str "systemctl")) then Ok []
  else match exec systemctlArgv with
       | Err e => Err (Errorf "services: systemctl list-units" e)
       | Ok out => Ok (parseSystemctlUnits out)
       end.
End unix.

(** ** Contexts *)

(** How many more times [ctx.Err()] answers nil; [None] is a context that is
    never cancelled. *)
Definition ctx : Type := option nat.
Definition ctxErr (c : ctx) : bool * ctx :=
  match c with
  | None => (false, None)
  | Some O => (true, Some O)
  | Some (S n) => (false, Some n)
  end.
Definition Canceled : error := Sentinel "context canceled".

(** ** Software on Windows *)

(** One subkey of an Uninstall key: whether it opens, and its values. *)
Record regEntry := {
  re_Opens : bool;
  re_DisplayName : res error bytes;
  re_SystemComponent : res error Z;
  re_ParentKeyName : res error bytes;
  re_ReleaseType : res error bytes;
  re_DisplayVersion : res error bytes;
}.
(** An Uninstall key: opening it, then listing it. *)
Definition regKey : Type := res error (res error (list regEntry)).

Definition updateTypes : list bytes :=
  map str ["security update"; "update rollup"; "hotfix"; "update"]%string.

Definition readUninstallEntry (e : regEntry) : option pkg :=
  if negb (re_Opens e) then None
  else match re_DisplayName e with
  | Err _ => None
  | Ok raw =>
      let display := TrimSpace raw in
      if bool_decide (display = []) then None
      else if (match re_SystemComponent e with Ok n => n =? 1 | Err _ => false end) then None
      else if (match re_ParentKeyName e with Ok v => negb (bool_decide (TrimSpace v = [])) | Err _ => false end) then None
      else if (match re_ReleaseType e with
               | Ok v => bool_decide (ToLower (TrimSpace v) ∈ updateTypes)
               | Err _ => false
               end) then None
      else
        let version := match re_DisplayVersion e with Ok v => v | Err _ => [] end in
        Some (Pkg display (TrimSpace version))
  end.

Fixpoint readEntries (es : list regEntry) (pkgs : list pkg) (c : ctx) : list pkg * ctx :=
  match es with
  | [] => (pkgs, c)
  | e :: es' =>
      let '(cancelled, c) := ctxErr c in
      if cancelled then (pkgs, c)
      else readEntries es' (match readUninstallEntry e with Some p => pkgs ++ [p] | None => pkgs end) c
  end.

Definition readUninstallKey (k : regKey) (c : ctx) : res error (list pkg) * ctx :=
  match k with
  | Err err => if Is err ErrNotExist then (Ok [], c) else (Err err, c)
  | Ok (Err err) => (Err err, c)
  | Ok (Ok es) => let '(pkgs, c) := readEntries es [] c in (Ok pkgs, c)
  end.

Definition seePackage (seen : list pkg) (p : pkg) : list pkg := if bool_decide (p ∈ seen) then seen else seen ++ [p].

Fixpoint readKeys (ks : list regKey) (seen : list pkg) (c : ctx) : res error (list pkg) :=
  match ks with
  | [] => Ok seen
  | k :: ks' =>
      let '(cancelled, c) := ctxErr c in
      if cancelled then Err Canceled
      else match readUninstallKey k c with
           | (Err err, _) => Err (Errorf "software" err)
           | (Ok found, c) => readKeys ks' (fold_left seePackage found seen) c
           end
  end.

Definition pkg_le (a b : pkg) : bool :=
  if bool_decide (pk_Name a = pk_Name b) then bytes_le (pk_Version a) (pk_Version b)
  else bytes_le (pk_Name a) (pk_Name b).

(** [listPackages] of software_windows.go over the three Uninstall keys. *)
Definition listPackagesWindows (uninstallKeys : list regKey) (c : ctx) : res error (list pkg) :=
  match readKeys uninstallKeys [] c with
  | Err err => Err err
  | Ok seen => Ok (take maxPackages (sortBy pkg_le seen))
  end.

(** ** Logins *)

Record Login := {
  lg_User : bytes;
  lg_Terminal : bytes;
  lg_Host : bytes;
  lg_Kind : bytes;
  lg_State : bytes;
  lg_Since : bytes;
}.
#[export] Instance Login_eq_dec : EqDecision Login.
Proof. solve_decision. Defined.

Definition kindConsole : bytes := str "console".
Definition kindRemote : bytes := str "remote".

Definition classify (terminal host : bytes) : bytes :=
  let h := TrimSpace host in
  if negb (bool_decide (h = [])) && negb (bool_decide (h = str ":0")) && negb (bool_decide (h = str "localhost"))
  then kindRemote
  else
    let t := ToLower terminal in
    if HasPrefix t (str "rdp-") || HasPrefix t (str "pts/") || HasPrefix t (str "ssh") then kindRemote
    else kindConsole.

Definition sinceString (t : Z) : bytes := if IsZero t || (Unix t <=? 0) then [] else FormatRFC3339 t.

(** [collectLogins] sorts what [currentLogins] returned. *)
Definition login_le (a b : Login) : bool :=
  if bool_decide (lg_User a = lg_User b) then bytes_le (lg_Terminal a) (lg_Terminal b)
  else bytes_le (lg_User a) (lg_User b).
Definition collectLogins (current : res error (list Login)) : res error (list Login) :=
  match current with Err e => Err e | Ok l => Ok (sortBy login_le l) end.

(** utmp, as gopsutil reads it. *)
Record utmpUser := { ut_User : bytes; ut_Terminal : bytes; ut_Host : bytes; ut_Started : Z }.

Definition utmpLogin (u : utmpUser) : list Login :=
  if bool_decide (ut_User u = []) then []
  else [{| lg_User := ut_User u; lg_Terminal := ut_Terminal u; lg_Host := ut_Host u;
           lg_Kind := classify (ut_Terminal u) (ut_Host u); lg_State := [];
           lg_Since := sinceString (UnixTime (ut_Started u)) |}].
Definition currentLogins (users : res error (list utmpUser)) : res error (list Login) :=
  match users with Err e => Err e | Ok us => Ok (flat_map utmpLogin us) end.

(** *** Windows *)

Definition wtsListen : Z := 6.
(** The reply to WTSSessionInfo: its length, the session it is about and the
    logon time in it. *)
Record wtsInfo := { wi_Bytes : Z; wi_SessionID : Z; wi_LogonTime : Z }.
Definition wtsInfoSize : Z := 216.

(** A session of the enumeration and what asking about it answers: [None] is a
    query that succeeds without a value. *)
Record wtsSession := {
  ws_SessionID : Z;
  ws_Station : bytes;
  ws_State : Z;
  ws_UserName : res error (option bytes);
  ws_DomainName : res error (option bytes);
  ws_ClientName : res error (option bytes);
  ws_Info : option wtsInfo;
}.

Definition queryString (r : res error (option bytes)) : res error bytes :=
  match r with
  | Err e => Err e
  | Ok None => Ok []
  | Ok (Some s) => Ok (TrimSpace s)
  end.

Definition classifyWindows (station host : bytes) : bytes :=
  if EqualFold station (str "Console") && bool_decide (host = []) then kindConsole else kindRemote.

Definition stateName (state : Z) : bytes :=
  if state =? 0 then str "active" else if state =? 1 then str "connected" else if state =? 2 then str "connecting"
  else if state =? 3 then str "shadowing" else if state =? 4 then str "disconnected" else if state =? 5 then str "idle"
  else if state =? 7 then str "reset" else if state =? 8 then str "down" else if state =? 9 then str "init" else [].

Section windows_logins.
(** [windows.Filetime.Nanoseconds]. *)
Context (Nanoseconds : Z -> Z).

Definition logonTime (s : wtsSession) : Z :=
  match ws_Info s with
  | None => zero_time
  | Some i =>
      if wi_Bytes i <? wtsInfoSize then zero_time
      else if negb (wi_SessionID i =? ws_SessionID s) then zero_time
      else if wi_LogonTime i <=? 0 then zero_time
      else Nanoseconds (wi_LogonTime i)
  end.

Fixpoint wtsLogins (ss : list wtsSession) (logins : list Login) (c : ctx) : res error (list Login) :=
  match ss with
  | [] => Ok logins
  | s :: ss' =>
      let '(cancelled, c) := ctxErr c in
      if cancelled then Err Canceled
      else if (ws_SessionID s =? 0) || (ws_State s =? wtsListen) then wtsLogins ss' logins c
      else match queryString (ws_UserName s) with
      | Err e => Err (Errorf "logins: session user name" e)
      | Ok user =>
          if bool_decide (user = []) then wtsLogins ss' logins c
          else match queryString (ws_DomainName s) with
          | Err e => Err (Errorf "logins: session domain" e)
          | Ok domain =>
              let user := if bool_decide (domain = []) then user else domain ++ str "\" ++ user in
              match queryString (ws_ClientName s) with
              | Err e => Err (Errorf "logins: session client name" e)
              | Ok host =>
                  wtsLogins ss' (logins ++
                    [{| lg_User := user; lg_Terminal := ws_Station s; lg_Host := host;
                        lg_Kind := classifyWindows (ws_Station s) host; lg_State := stateName (ws_State s);
                        lg_Since := sinceString (logonTime s) |}]) c
              end
          end
      end
  end.

Definition currentLoginsWindows (sessions : res error (list wtsSession)) (c : ctx) : res error (list Login) :=
  match sessions with Err e => Err e | Ok ss => wtsLogins ss [] c end.
End windows_logins.

(** ** Network *)

(** An interface as gopsutil lists it, and as it is reported. *)
Record ifaceStat := { is_Name : bytes; is_MAC : bytes; is_MTU : Z; is_Flags : list bytes; is_Addrs : list bytes }.
Record NetInterface := {
  ni_Name : bytes;
  ni_MAC : bytes;
  ni_MTU : Z;
  ni_Up : bool;
  ni_Loopback : bool;
  ni_Addresses : list bytes;
}.

(** [flagSet(flags)[f]] *)
Definition hasFlag (flags : list bytes) (f : bytes) : bool := bool_decide (f ∈ map ToLower flags).

Definition netInterface (i : ifaceStat) : NetInterface :=
  {| ni_Name := is_Name i; ni_MAC := is_MAC i; ni_MTU := is_MTU i;
     ni_Up := hasFlag (is_Flags i) (str "up") || hasFlag (is_Flags i) (str "running");
     ni_Loopback := hasFlag (is_Flags i) (str "loopback");
     ni_Addresses := sortStrings (filter (fun a => a ≠ []) (map TrimSpace (is_Addrs i))) |}.

Definition iface_le (a b : NetInterface) : bool := bytes_le (ni_Name a) (ni_Name b).

Definition collectNetwork (ifaces : res error (list ifaceStat)) : res error (list NetInterface) :=
  match ifaces with
  | Err e => Err e
  | Ok l => Ok (sortBy iface_le (map netInterface l))
  end.

(** ** Processes *)

Definition maxProcesses : nat := 500.
Record proc := { pr_PID : Z; pr_Name : bytes; pr_RSS : Z }.
(** What is asked of a listed process: its name, and its resident memory. *)
Record procStat := { ps_PID : Z; ps_Name : res error bytes; ps_RSS : res error (option Z) }.

Definition procEntry (p : procStat) : list proc :=
  match ps_Name p with
  | Err _ => []
  | Ok name =>
      [{| pr_PID := ps_PID p; pr_Name := name;
          pr_RSS := match ps_RSS p with Ok (Some n) => n | _ => 0 end |}]
  end.
Definition rss_ge (a b : proc) : bool := pr_RSS b <=? pr_RSS a.

Definition collectProcesses (ps : res error (list procStat)) : res error (list proc) :=
  match ps with
  | Err e => Err e
  | Ok l => Ok (take maxProcesses (sortBy rss_ge (flat_map procEntry l)))
  end.

(** ** Machine identity *)

Definition chassisName (code : Z) : bytes :=
  if bool_decide (code ∈ [3; 4; 5; 6; 7; 15; 16; 24; 35; 36]) then str "desktop"
  else if code =? 13 then str "all-in-one"
  else if bool_decide (code ∈ [8; 9; 10; 14]) then str "laptop"
  else if code =? 31 then str "convertible"
  else if code =? 32 then str "detachable"
  else if code =? 11 then str "handheld"
  else if code =? 30 then str "tablet"
  else if bool_decide (code ∈ [17; 23; 25; 28; 29]) then str "server"
  else if code =? 34 then str "embedded"
  else [].

Definition dmiJunk : list bytes :=
  map str [""; "to be filled by o.e.m."; "to be filled by oem"; "default string"; "system serial number";
           "system manufacturer"; "system product name"; "chassis serial number"; "none"; "not specified";
           "not applicable"; "no enclosure"; "unknown"; "oem"; "0"; "123456789"; "0123456789"; "empty"]%string.

Definition cleanDMI (s : bytes) : bytes :=
  let s := TrimSpace s in
  if bool_decide (ToLower s ∈ dmiJunk) then [] else s.

Record dmiInfo := { di_Manufacturer : bytes; di_Model : bytes; di_Serial : bytes; di_Chassis : bytes }.

(** [readDMI]: [file] is what reading a file of the directory gives. *)
Definition readDMI (file : bytes -> res error bytes) : dmiInfo :=
  let read name := match file name with Err _ => [] | Ok raw => cleanDMI raw end in
  {| di_Manufacturer := read (str "sys_vendor"); di_Model := read (str "product_name");
     di_Serial := read (str "product_serial");
     di_Chassis :=
       let raw := read (str "chassis_type") in
       if bool_decide (raw = []) then []
       else match Atoi (TrimSpace raw) with Some code => chassisName code | None => [] end |}.

(** [collectDMI] on Windows: the first row of each WMI query. *)
Definition collectDMIWindows (cs : res error (list (bytes * bytes))) (bios : res error (list bytes))
    (enclosure : res error (list (list Z))) : dmiInfo :=
  let '(maker, model) :=
    match cs with Ok ((m, n) :: _) => (cleanDMI m, cleanDMI n) | _ => ([], []) end in
  {| di_Manufacturer := maker; di_Model := model;
     di_Serial := match bios with Ok (s :: _) => cleanDMI s | _ => [] end;
     di_Chassis := match enclosure with Ok ((code :: _) :: _) => chassisName code | _ => [] end |}.

(** macOS: the overview's first entry, when the JSON decodes. *)
Definition appleChassis (machineName : bytes) : bytes :=
  let name := ToLower machineName in
  if HasPrefix name (str "macbook") then str "laptop"
  else if HasPrefix name (str "imac") then str "all-in-one"
  else if HasPrefix name (str "mac mini") || HasPrefix name (str "macmini") || HasPrefix name (str "mac studio")
          || HasPrefix name (str "mac pro") then str "desktop"
  else [].

Definition parseHardwareOverview (doc : option (list (bytes * bytes * bytes))) : dmiInfo :=
  match doc with
  | Some ((machineModel, machineName, serial) :: _) =>
      {| di_Manufacturer := str "Apple Inc."; di_Model := cleanDMI machineModel; di_Serial := cleanDMI serial;
         di_Chassis := appleChassis machineName |}
  | _ => {| di_Manufacturer := []; di_Model := []; di_Serial := []; di_Chassis := [] |}
  end.

(** ** What is published *)

Section refresh_spec.
Context {payload : Type} (encodeHashed : payload -> option bytes) (accepts : bytes -> bool).
Context (agentID : bytes) (newMsgID : bytes -> bytes) (now : Z).
Abbreviation publish := (publishSnapshot encodeHashed accepts agentID newMsgID now).
Abbreviation Refresh := (RefreshNow encodeHashed accepts agentID newMsgID now).

(** A collector's kind failed: it could not look, or its answer could not be
    sent.  A platform without the collector is neither. *)
Definition failedKind (c : bytes * res error payload) : bool :=
  match c.2 with Err e => kindFailed e | Ok p => negb (is_ok (publish c.1 p)) end.

Definition sent (c : bytes * res error payload) : list message :=
  match c.2 with
  | Ok p => match publish c.1 p with Ok msg => [msg] | Err _ => [] end
  | Err _ => []
  end.

Lemma refresh_fold cs failed out :
  fold_left (refreshOne encodeHashed accepts agentID newMsgID now) cs (failed, out) =
  (failed ++ map fst (filter (fun c => failedKind c = true) cs), out ++ flat_map sent cs).
Proof.
  revert failed out. induction cs as [|c cs IH]; intros failed out; [by rewrite !app_nil_r|]. cbn [fold_left].
  assert (Hstep : refreshOne encodeHashed accepts agentID newMsgID now (failed, out) c =
    (if failedKind c then failed ++ [c.1] else failed, out ++ sent c)).
  { unfold refreshOne, failedKind, sent. destruct c as [kind [p|e]]; cbn [fst snd].
    - by destruct (publish kind p); cbn [is_ok negb]; rewrite ?app_nil_r.
    - by destruct (kindFailed e); cbn [negb]; rewrite app_nil_r. }
  rewrite Hstep, IH. cbn [flat_map]. destruct (failedKind c) eqn:E.
  - rewrite filter_cons_True by done. cbn [map]. by rewrite <- !app_assoc.
  - rewrite filter_cons_False by congruence. by rewrite <- !app_assoc.
Qed.

(** One round accounts for every kind.  A snapshot goes out exactly for the
    collectors that answered and whose answer could be sent, in their order,
    and each carries its own kind's subject; the round succeeds exactly when no
    kind failed, and a platform without a collector is not a failure. *)
Theorem RefreshNow_publishes_only_answers (cs : list (bytes * res error payload)) :
  (Refresh cs).2 = flat_map sent cs /\
  (forall msg, msg ∈ (Refresh cs).2 <-> exists kind p, (kind, Ok p) ∈ cs /\ publish kind p = Ok msg) /\
  Forall (fun msg => exists kind, kind ∈ map fst cs /\ msg_Subject msg = Wire.Inventory agentID kind) (Refresh cs).2 /\
  ((Refresh cs).1 = Ok tt <->
     forall kind r, (kind, r) ∈ cs ->
       match r with Err e => Is e errNoCollector = true | Ok p => is_ok (publish kind p) = true end).
Proof.
  unfold RefreshNow. rewrite refresh_fold, !app_nil_l. cbn [fst snd].
  assert (Hin : forall msg, msg ∈ flat_map sent cs <-> exists kind p, (kind, Ok p) ∈ cs /\ publish kind p = Ok msg).
  { intros msg. rewrite list_elem_of_In, in_flat_map. setoid_rewrite <- list_elem_of_In. split.
    - intros ([kind r] & Hc & Hm). unfold sent in Hm. cbn [fst snd] in Hm. destruct r as [p|e]; [|by apply not_elem_of_nil in Hm].
      destruct (publish kind p) as [m|e] eqn:E; [|by apply not_elem_of_nil in Hm].
      apply list_elem_of_singleton in Hm as ->. by exists kind, p.
    - intros (kind & p & Hc & Hp). exists (kind, Ok p). split; [done|]. unfold sent. cbn [fst snd]. rewrite Hp. by left. }
  split_and!; [done|exact Hin| |].
  - apply Forall_forall. intros msg Hm. apply Hin in Hm as (kind & p & Hc & Hp). exists kind.
    split; [apply list_elem_of_fmap; by exists (kind, Ok p)|]. unfold publishSnapshot in Hp.
    destruct (encodeHashed p); [|done]. cbn [NewEnvelope] in Hp. destruct (accepts _); [|done]. by injection Hp as <-.
  - assert (Hnil : filter (fun c => failedKind c = true) cs = [] <-> forall c, c ∈ cs -> failedKind c = false).
    { split.
      - intros Hf c Hc. destruct (failedKind c) eqn:E; [|done].
        assert (Hx : c ∈ filter (fun c => failedKind c = true) cs) by by apply list_elem_of_filter.
        rewrite Hf in Hx. by apply not_elem_of_nil in Hx.
      - intros Hall. destruct (filter _ cs) as [|c l] eqn:E; [done|].
        assert (Hx : c ∈ filter (fun c => failedKind c = true) cs) by (rewrite E; by left).
        apply list_elem_of_filter in Hx as [Hf Hc]. by rewrite Hall in Hf. }
    transitivity (filter (fun c => failedKind c = true) cs = []); [by destruct (filter _ cs)|]. rewrite Hnil. split.
    + intros Hall kind r Hc. specialize (Hall _ Hc). unfold failedKind, kindFailed in Hall. cbn [fst snd] in Hall.
      destruct r; by apply negb_false_iff in Hall.
    + intros Hall [kind r] Hc. specialize (Hall _ _ Hc). unfold failedKind, kindFailed. cbn [fst snd].
      destruct r; by apply negb_false_iff.
Qed.
End refresh_spec.

(** ** Software: what an answer means *)

Section unix_spec.
Context (have : bytes -> bool) (exec : list bytes -> res error bytes).

Definition reported (q : query) (pkgs : list pkg) : Prop :=
  have (q_binary q) = true /\ exists out, exec (q_argv q) = Ok out /\ q_parse q out = pkgs.

Lemma tryManagers_Ok qs present pkgs :
  tryManagers have exec qs present = Ok pkgs ->
  exists before rest, qs = before ++ rest /\
    (forall q, q ∈ before -> have (q_binary q) = true -> reported q []) /\
    match rest with
    | q :: _ => reported q pkgs /\ pkgs ≠ []
    | [] => pkgs = [] /\ (present = true \/ exists q, q ∈ qs /\ have (q_binary q) = true)
    end.
Proof.
  revert present. induction qs as [|q qs IH]; intros present; cbn [tryManagers].
  { destruct present; [|done]. cbn [negb]. intros [= <-]. exists [], []. split; [done|].
    split; [intros q Hq; by apply not_elem_of_nil in Hq|]. split; [done|by left]. }
  destruct (have (q_binary q)) eqn:Eh; cbn [negb].
  - destruct (exec (q_argv q)) as [out|e] eqn:Ee; [|done]. destruct (q_parse q out) as [|p ps] eqn:Ep.
    + intros H. destruct (IH _ H) as (before & rest & -> & Hb & Hr). exists (q :: before), rest.
      split; [done|]. split.
      * intros q' [->|Hq']%elem_of_cons Hh; [split; [done|]; by exists out|by apply Hb].
      * destruct rest; [|done]. destruct Hr as [-> _]. split; [done|]. right. exists q. split; [by left|done].
    + intros [= <-]. exists [], (q :: qs). split; [done|]. split; [intros q' Hq'; by apply not_elem_of_nil in Hq'|].
      split; [|done]. split; [done|]. by exists out.
  - intros H. destruct (IH _ H) as (before & rest & -> & Hb & Hr). exists (q :: before), rest.
    split; [done|]. split; [intros q' [->|Hq']%elem_of_cons Hh; [congruence|by apply Hb]|].
    destruct rest; [|done]. destruct Hr as [-> [?|(q' & Hq' & Hh)]]; (split; [done|]); [by left|].
    right. exists q'. split; [by right|done].
Qed.

(** A software snapshot is somebody's answer.  When [listPackages] returns a
    list, a package manager that is installed ran successfully and printed
    it, and every one asked before it ran successfully and printed nothing; an
    empty list means that at least one manager is installed and all of them
    said so.  So no failure, however early, can report a host without
    software. *)
Theorem listPackages_is_an_answer (GOOS : bytes) (pkgs : list pkg) :
  listPackages GOOS have exec = Ok pkgs ->
  (exists q, q ∈ queries /\ reported q pkgs) /\
  (pkgs = [] -> forall q, q ∈ queries -> have (q_binary q) = true -> reported q []) /\
  (forall q, q ∈ queries -> have (q_binary q) = true -> is_ok (exec (q_argv q)) = false ->
     exists q', q' ∈ queries /\ reported q' pkgs /\ pkgs ≠ []).
Proof.
  unfold listPackages. case_bool_decide; [|done]. cbn [negb]. intros Hq.
  destruct (tryManagers_Ok _ _ _ Hq) as (before & rest & Hqs & Hb & Hr). destruct rest as [|q rest].
  - rewrite app_nil_r in Hqs. subst before. destruct Hr as [-> [?|(q & Hin & Hh)]]; [done|].
    split_and!; [exists q; split; [done|by apply Hb]|auto|].
    intros q' Hin' Hh' Hf. destruct (Hb q' Hin' Hh') as (_ & out & He & _). by rewrite He in Hf.
  - destruct Hr as [Hr Hne]. assert (Hin : q ∈ queries) by (rewrite Hqs; apply elem_of_app; right; by left).
    split_and!; [by exists q|done|intros; by exists q].
Qed.
End unix_spec.

(** ** The parsers and the cap *)

Lemma linesOf_snoc ls : linesOf (ls ++ [[]]) = map (fun l => l ++ [nl]) ls.
Proof.
  induction ls as [|l ls IH]; [done|]. cbn [app]. destruct ls as [|l' ls]; [done|].
  cbn [linesOf app map]. f_equal. exact IH.
Qed.

Lemma Lines_unlines ls : Forall (fun l => nl ∉ l) ls -> Lines (unlines ls) = map (fun l => l ++ [nl]) ls.
Proof. intros Hl. unfold Lines. by rewrite Split_unlines, linesOf_snoc. Qed.

Lemma strip_one c d s : strip_any [[c]] (d :: s) = if bool_decide (c = d) then Some s else None.
Proof. cbn [strip_any GoLib.strip_prefix]. destruct (decide (c = d)) as [->|].
  - by rewrite bool_decide_eq_true_2.
  - by rewrite bool_decide_eq_false_2.
Qed.

Lemma trim_front_stop c n l : c ∉ l -> trim_front [[c]] n l = l.
Proof.
  intros Hl. destruct n, l as [|d l]; try done. cbn [trim_front]. rewrite strip_one, bool_decide_eq_false_2; [done|]. set_solver.
Qed.

Lemma TrimRight_one c l : c ∉ l -> TrimRight [c] (l ++ [c]) = l.
Proof.
  intros Hl. unfold TrimRight. cbn [map]. rewrite length_app, rev_app_distr. cbn [rev app length].
  rewrite Nat.add_comm. cbn [Nat.add trim_front]. rewrite strip_one, bool_decide_eq_true_2 by done.
  rewrite trim_front_stop; [apply rev_involutive|]. by rewrite elem_of_rev.
Qed.

(** A line of the package manager's output. *)
Definition pkgLine (sep : ascii) (p : pkg) : bytes := pk_Name p ++ sep :: pk_Version p.
Definition printed (sep : ascii) (p : pkg) : Prop :=
  pk_Name p ≠ [] /\ sep ∉ pk_Name p /\ nl ∉ pk_Name p /\ nl ∉ pk_Version p.

Lemma parseLines_printed sep l done_ :
  sep ≠ nl -> Forall (printed sep) l -> (length done_ < maxPackages)%nat ->
  parseLines [sep] (map (fun l => l ++ [nl]) (map (pkgLine sep) l)) done_ = take maxPackages (done_ ++ l).
Proof.
  intros Hsep Hl. revert done_. induction Hl as [|p l (Hne & Hs & Hn1 & Hn2) _ IH]; intros acc Hacc.
  { rewrite app_nil_r, take_ge by lia. done. }
  cbn [map parseLines]. rewrite TrimRight_one.
  2: { unfold pkgLine. rewrite elem_of_app, elem_of_cons. intros [?|[?|?]]; [done|congruence|done]. }
  rewrite (proj2 (Cut_char_spec sep _ (pk_Name p) (pk_Version p))) by done.
  rewrite bool_decide_eq_false_2 by done. cbv zeta.
  replace (Pkg (pk_Name p) (pk_Version p)) with p by by destruct p.
  destruct (Nat.eqb_spec (length (acc ++ [p])) maxPackages) as [He|He].
  - rewrite (cons_middle p acc l), app_assoc. symmetry. by apply take_app_length'.
  - rewrite IH by (rewrite length_app in *; cbn [length] in *; lia). by rewrite <- app_assoc.
Qed.

(** What dpkg-query or rpm prints is read back, up to the cap of five thousand
    packages.  The server takes the list as complete, so past the cap a host
    loses a package from its record for each one that sorts before it: when a
    host at the cap installs one that is printed first, the package printed
    last is reported removed, although nothing was. *)
Theorem packages_read_back_up_to_the_cap (l : list pkg) :
  Forall (printed tab) l ->
  parseTabPackages (unlines (map (pkgLine tab) l)) = take maxPackages l /\
  forall x y, printed tab x -> printed tab y -> y ∉ l -> y ≠ x -> S (length l) = maxPackages ->
    y ∈ parseTabPackages (unlines (map (pkgLine tab) (l ++ [y]))) /\
    y ∉ parseTabPackages (unlines (map (pkgLine tab) (x :: l ++ [y]))).
Proof.
  assert (Hread : forall l, Forall (printed tab) l ->
    parseTabPackages (unlines (map (pkgLine tab) l)) = take maxPackages l).
  { intros l0 Hl0. unfold parseTabPackages. rewrite Lines_unlines.
    - apply (parseLines_printed tab l0 []); [done|done|]. unfold maxPackages. cbn [length]. lia.
    - apply Forall_map. eapply Forall_impl; [exact Hl0|]. intros p (_ & _ & H1 & H2). unfold pkgLine.
      rewrite elem_of_app, elem_of_cons. intros [?|[?|?]]; done. }
  intros Hl. split; [by apply Hread|]. intros x y Hx Hy Hyl Hyx Hlen.
  rewrite !Hread by (repeat first [done | apply Forall_cons_2 | apply Forall_app_2 | apply Forall_nil_2]).
  split.
  - rewrite take_ge by (rewrite length_app; cbn [length]; lia). apply elem_of_app. right. by left.
  - change (x :: l ++ [y]) with ((x :: l) ++ [y]). rewrite take_app_le, take_ge by (cbn [length]; lia).
    intros [?|?]%elem_of_cons; done.
Qed.

(** ** Windows: when the registry listing is complete *)

Lemma elem_of_seen seen found p : p ∈ fold_left seePackage found seen <-> p ∈ seen \/ p ∈ found.
Proof.
  revert seen. induction found as [|q found IH]; intros seen; cbn [fold_left].
  { rewrite elem_of_nil. tauto. }
  rewrite IH, elem_of_cons. unfold seePackage. case_bool_decide as Hq.
  - split; [tauto|]. intros [?|[->|?]]; tauto.
  - rewrite elem_of_app, list_elem_of_singleton. tauto.
Qed.

Lemma readEntries_spec es pkgs c :
  let '(out, c') := readEntries es pkgs c in
  (forall p, p ∈ out -> p ∈ pkgs \/ exists e, e ∈ es /\ readUninstallEntry e = Some p) /\
  (forall p, p ∈ pkgs -> p ∈ out) /\
  (c' = Some O \/ forall e p, e ∈ es -> readUninstallEntry e = Some p -> p ∈ out).
Proof.
  revert pkgs c. induction es as [|e es IH]; intros pkgs c; cbn [readEntries].
  { split_and!; [by left|done|]. right. intros e p He. by apply not_elem_of_nil in He. }
  assert (Hgo : forall c', let '(out, c'') := readEntries es (match readUninstallEntry e with Some p => pkgs ++ [p] | None => pkgs end) c' in
    (forall p, p ∈ out -> p ∈ pkgs \/ exists e', e' ∈ e :: es /\ readUninstallEntry e' = Some p) /\
    (forall p, p ∈ pkgs -> p ∈ out) /\
    (c'' = Some O \/ forall e' p, e' ∈ e :: es -> readUninstallEntry e' = Some p -> p ∈ out)).
  { intros c'. specialize (IH (match readUninstallEntry e with Some p => pkgs ++ [p] | None => pkgs end) c').
    destruct (readEntries es _ c') as [out c'']. destruct IH as (H1 & H2 & H3). split_and!.
    - intros p Hp. destruct (H1 p Hp) as [Hq|(e' & He' & Hr)]; [|right; exists e'; split; [by right|done]].
      destruct (readUninstallEntry e) as [q|] eqn:Eq; [|by left]. apply elem_of_app in Hq as [?|Hq]; [by left|].
      apply list_elem_of_singleton in Hq as ->. right. exists e. split; [by left|done].
    - intros p Hp. apply H2. destruct (readUninstallEntry e); [apply elem_of_app; by left|done].
    - destruct H3 as [->|H3]; [by left|right]. intros e' p [->|He']%elem_of_cons Hr; [|by eapply H3].
      apply H2. rewrite Hr. apply elem_of_app. right. by left. }
  destruct c as [[|n]|]; cbn [ctxErr]; [|apply Hgo..]. split_and!; [by left|done|by left].
Qed.

(** The package a product's subkey stands for, in one of the keys. *)
Definition listed (ks : list regKey) (p : pkg) : Prop :=
  exists es e, Ok (Ok es) ∈ ks /\ e ∈ es /\ readUninstallEntry e = Some p.

Lemma readKeys_spec ks seen c out :
  readKeys ks seen c = Ok out ->
  (forall p, p ∈ out -> p ∈ seen \/ listed ks p) /\ (forall p, p ∈ seen -> p ∈ out) /\
  (forall ks' k, ks = ks' ++ [k] -> forall p, listed ks' p -> p ∈ out) /\
  (c = None -> forall p, listed ks p -> p ∈ out).
Proof.
  revert seen c. induction ks as [|k ks IH]; intros seen c; cbn [readKeys].
  { intros [= <-]. split_and!; [by left|done| |].
    - intros ks' k Hk. by destruct ks'.
    - intros _ p (es & e & Hin & _). by apply not_elem_of_nil in Hin. }
  destruct (ctxErr c) as [cancelled c1] eqn:Ec. destruct cancelled; [done|].
  destruct (readUninstallKey k c1) as [[found|err] c2] eqn:Ek; [|done]. intros Hrest.
  destruct (IH _ _ Hrest) as (H1 & H2 & H3 & H4).
  assert (Hf1 : forall p, p ∈ found -> listed [k] p).
  { intros p Hp. unfold readUninstallKey in Ek. destruct k as [[es|err]|err]; [|done|].
    - pose proof (readEntries_spec es [] c1) as Hs. destruct (readEntries es [] c1) as [pkgs c3].
      injection Ek as <- <-. destruct (proj1 Hs p Hp) as [?%not_elem_of_nil|(e & He & Hr)]; [done|].
      exists es, e. split_and!; [by left|done..].
    - destruct (Is err ErrNotExist); [|done]. injection Ek as <- <-. by apply not_elem_of_nil in Hp. }
  assert (Hf2 : c2 = Some O \/ forall p, listed [k] p -> p ∈ found).
  { unfold readUninstallKey in Ek. destruct k as [[es|err]|err]; [|done|].
    - pose proof (readEntries_spec es [] c1) as Hs. destruct (readEntries es [] c1) as [pkgs c3].
      injection Ek as <- <-. destruct Hs as (_ & _ & [->|Hs]); [by left|right].
      intros p (es' & e & Hin & He & Hr). apply list_elem_of_singleton in Hin. injection Hin as ->. by eapply Hs.
    - destruct (Is err ErrNotExist); [|done]. right. intros p (es' & e & Hin & _).
      by apply list_elem_of_singleton in Hin. }
  assert (Hf3 : c = None -> c2 = None).
  { intros ->. injection Ec as <-. unfold readUninstallKey in Ek. destruct k as [[es|err]|err]; [|done|].
    - assert (Hn : forall pk, (readEntries es pk None).2 = None).
      { clear. induction es as [|e es IHes]; intros pk; [done|]. cbn [readEntries ctxErr]. apply IHes. }
      specialize (Hn []). destruct (readEntries es [] None). by injection Ek as _ <-.
    - destruct (Is err ErrNotExist); [|done]. by injection Ek as _ <-. }
  assert (Hsplit : forall ks' p, listed (k :: ks') p -> listed [k] p \/ listed ks' p).
  { intros ks' p (es & e & [Hin|Hin]%elem_of_cons & He & Hr); [left|right]; exists es, e; split_and!; try done.
    rewrite Hin. by left. }
  split_and!.
  - intros p Hp. destruct (H1 p Hp) as [Hq|(es & e & Hin & He & Hr)].
    + apply elem_of_seen in Hq as [?|Hq]; [by left|right]. destruct (Hf1 p Hq) as (es & e & Hin & He & Hr).
      apply list_elem_of_singleton in Hin. exists es, e. split_and!; [rewrite <- Hin; by left|done..].
    + right. exists es, e. split_and!; [by right|done..].
  - intros p Hp. apply H2, elem_of_seen. by left.
  - intros ks' k' Hks p Hp. destruct ks' as [|k1 ks'].
    { destruct Hp as (es & e & Hin & _). by apply not_elem_of_nil in Hin. }
    injection Hks as <- Hks. apply Hsplit in Hp as [Hp|Hp]; [|by eapply H3].
    destruct Hf2 as [->|Hf2]; [|apply H2, elem_of_seen; right; by apply Hf2].
    subst ks. by destruct ks'.
  - intros Hc p Hp. specialize (Hf3 Hc). apply Hsplit in Hp as [Hp|Hp]; [|by apply H4].
    destruct Hf2 as [Hx|Hf2]; [congruence|]. apply H2, elem_of_seen. right. by apply Hf2.
Qed.

Lemma NoDup_seen seen found : NoDup seen -> NoDup (fold_left seePackage found seen).
Proof.
  revert seen. induction found as [|q found IH]; intros seen Hs; [done|]. cbn [fold_left]. apply IH.
  unfold seePackage. case_bool_decide; [done|]. apply NoDup_app. split_and!; [done| |apply NoDup_singleton].
  by intros p Hp ->%list_elem_of_singleton.
Qed.

Lemma NoDup_readKeys ks seen c out : NoDup seen -> readKeys ks seen c = Ok out -> NoDup out.
Proof.
  revert seen c. induction ks as [|k ks IH]; intros seen c Hs; cbn [readKeys]; [by intros [= <-]|].
  destruct (ctxErr c) as [[] c1]; [done|]. destruct (readUninstallKey k c1) as [[found|err] c2]; [|done].
  apply IH. by apply NoDup_seen.
Qed.

(** The Windows listing.  Whatever it returns has no duplicate and only
    products some key lists; without a cancellation it has all of them, up to
    the cap, and even a cancelled listing has everything of all keys but the
    last. *)
Theorem windows_listing_is_complete_but_for_the_last_key (ks : list regKey) (c : ctx) (pkgs : list pkg) :
  listPackagesWindows ks c = Ok pkgs ->
  NoDup pkgs /\ (forall p, p ∈ pkgs -> listed ks p) /\
  ((length pkgs < maxPackages)%nat ->
     (c = None -> forall p, listed ks p -> p ∈ pkgs) /\
     (forall ks' k p, ks = ks' ++ [k] -> listed ks' p -> p ∈ pkgs)).
Proof.
  unfold listPackagesWindows. destruct (readKeys ks [] c) as [seen|err] eqn:Er; [|done]. intros [= <-].
  destruct (readKeys_spec _ _ _ _ Er) as (H1 & _ & H3 & H4).
  pose proof (NoDup_readKeys _ _ _ _ (@NoDup_nil_2 pkg) Er) as Hnd.
  split_and!.
  - rewrite <- (sortBy_perm pkg_le seen), <- (take_drop maxPackages (sortBy pkg_le seen)) in Hnd.
    by apply NoDup_app in Hnd as [Hnd _].
  - intros p Hp. apply elem_of_take in Hp as (i & Hi & _). apply list_elem_of_lookup_2 in Hi.
    rewrite sortBy_perm in Hi. destruct (H1 p Hi) as [?%not_elem_of_nil|]; done.
  - intros Hlen. rewrite length_take in Hlen. rewrite take_ge by lia.
    split; [intros Hc p Hp|intros ks' k p Hk Hp]; rewrite sortBy_perm; [by apply H4|by eapply H3].
Qed.

Definition product (name : bytes) : regEntry :=
  {| re_Opens := true; re_DisplayName := Ok name; re_SystemComponent := Err ErrNotExist;
     re_ParentKeyName := Err ErrNotExist; re_ReleaseType := Err ErrNotExist; re_DisplayVersion := Err ErrNotExist |}.
Definition perUserOnly : list regKey :=
  [Err ErrNotExist; Err ErrNotExist; Ok (Ok [product (str "Zoom"); product (str "Slack")])].

(** A cancelled listing can pass for a complete one.  While the last key is
    read a cancellation stops the loop without an error, nothing looks at the
    context afterwards, and the packages read so far are returned, and
    published, as the machine's software. *)
Theorem cancelled_listing_passes_for_complete :
  listPackagesWindows perUserOnly (Some 4%nat) = Ok [Pkg (str "Zoom") []] /\
  listPackagesWindows perUserOnly None = Ok [Pkg (str "Slack") []; Pkg (str "Zoom") []] /\
  (RefreshNow (fun _ => Some []) (fun _ => true) (str "a") (fun k => k) 0
     [(str "software", listPackagesWindows perUserOnly (Some 4%nat))]).1 = Ok tt.
Proof. split_and!; vm_compute; reflexivity. Qed.

Lemma perUserOnly_listing : listPackagesWindows perUserOnly None = Ok [Pkg (str "Slack") []; Pkg (str "Zoom") []].
Proof. vm_compute. reflexivity. Qed.

Lemma windows_listing_is_complete_but_for_the_last_key_witness :
  NoDup [Pkg (str "Slack") []; Pkg (str "Zoom") []] /\ listed perUserOnly (Pkg (str "Slack") []).
Proof.
  destruct (windows_listing_is_complete_but_for_the_last_key perUserOnly None [Pkg (str "Slack") []; Pkg (str "Zoom") []]
    perUserOnly_listing) as (H1 & H2 & _).
  split; [exact H1|]. apply H2. by left.
Defined.

(** ** Logins: nobody is missed *)

Section logins_spec.
Context (Nanoseconds : Z -> Z).

(** A session a person could be in, and one a person is in. *)
Definition interactive (s : wtsSession) : bool := negb ((ws_SessionID s =? 0) || (ws_State s =? wtsListen)).
Definition occupied (s : wtsSession) : bool :=
  interactive s && match queryString (ws_UserName s) with Ok user => negb (bool_decide (user = [])) | Err _ => false end.
(** The login is this session's. *)
Definition of_session (s : wtsSession) (l : Login) : Prop :=
  exists user domain, queryString (ws_UserName s) = Ok user /\ queryString (ws_DomainName s) = Ok domain /\
    lg_User l = (if bool_decide (domain = []) then user else domain ++ str "\" ++ user) /\
    lg_Terminal l = ws_Station s /\ queryString (ws_ClientName s) = Ok (lg_Host l) /\
    lg_State l = stateName (ws_State s).

Lemma wtsLogins_Ok ss acc c l :
  wtsLogins Nanoseconds ss acc c = Ok l ->
  (forall s, s ∈ ss -> interactive s = true -> is_ok (queryString (ws_UserName s)) = true) /\
  exists l', l = acc ++ l' /\ Forall2 of_session (filter (fun s => occupied s = true) ss) l'.
Proof.
  revert acc c. induction ss as [|s ss IH]; intros acc c; cbn [wtsLogins].
  { intros [= <-]. split; [intros s Hs; by apply not_elem_of_nil in Hs|]. exists []. by rewrite app_nil_r. }
  destruct (ctxErr c) as [[] c1]; [done|]. unfold occupied at 1, interactive.
  assert (Hcons : forall acc' c', (interactive s = true -> is_ok (queryString (ws_UserName s)) = true) ->
    wtsLogins Nanoseconds ss acc' c' = Ok l ->
    (forall s', s' ∈ s :: ss -> interactive s' = true -> is_ok (queryString (ws_UserName s')) = true) /\
    exists l', l = acc' ++ l' /\ Forall2 of_session (filter (fun s => occupied s = true) ss) l').
  { intros acc' c' Hs H. destruct (IH _ _ H) as [H1 H2]. split; [|done].
    intros s' [->|Hs']%elem_of_cons; [done|by apply H1]. }
  destruct ((ws_SessionID s =? 0) || (ws_State s =? wtsListen)) eqn:Ei.
  { intros H. destruct (Hcons _ _ ltac:(unfold interactive; by rewrite Ei) H) as [H1 H2]. split; [done|].
    rewrite filter_cons_False; [done|]. unfold occupied, interactive. by rewrite Ei. }
  destruct (queryString (ws_UserName s)) as [user|e] eqn:Eu; [|done].
  case_bool_decide as Hu.
  { intros H. destruct (Hcons _ _ ltac:(done) H) as [H1 H2]. split; [done|].
    rewrite filter_cons_False; [done|]. unfold occupied. rewrite Eu, bool_decide_eq_true_2 by done.
    by rewrite andb_false_r. }
  destruct (queryString (ws_DomainName s)) as [domain|e] eqn:Ed; [|done].
  destruct (queryString (ws_ClientName s)) as [host|e] eqn:Eh; [|done].
  intros H. destruct (Hcons _ _ ltac:(done) H) as [H1 (l' & -> & H2)]. split; [done|].
  rewrite filter_cons_True.
  2: { unfold occupied, interactive. rewrite Ei, Eu, bool_decide_eq_false_2 by done. done. }
  eexists. rewrite <- app_assoc. split; [done|]. constructor; [|done].
  exists user, domain. cbn [lg_User lg_Terminal lg_Host lg_State]. by split_and!.
Qed.

(** A Windows login snapshot misses nobody.  When the collector answers, it
    could read the user name of every interactive session, and the snapshot has
    exactly one login for each occupied one, with that session's user, seat,
    origin and state; if a name cannot be read there is no snapshot. *)
Theorem logins_miss_nobody (ss : list wtsSession) (c : ctx) (l : list Login) :
  collectLogins (currentLoginsWindows Nanoseconds (Ok ss) c) = Ok l ->
  (forall s, s ∈ ss -> interactive s = true -> is_ok (queryString (ws_UserName s)) = true) /\
  length l = length (filter (fun s => occupied s = true) ss) /\
  (forall s, s ∈ ss -> occupied s = true -> exists lg, lg ∈ l /\ of_session s lg) /\
  (forall lg, lg ∈ l -> exists s, s ∈ ss /\ occupied s = true /\ of_session s lg).
Proof.
  unfold collectLogins, currentLoginsWindows. destruct (wtsLogins Nanoseconds ss [] c) as [l0|e] eqn:E; [|done].
  intros [= <-]. destruct (wtsLogins_Ok _ _ _ _ E) as (H1 & l' & -> & H2). cbn [app]. split; [done|].
  split; [by rewrite sortBy_perm, (Forall2_length _ _ _ H2)|]. split.
  - intros s Hs Ho. assert (Hf : s ∈ filter (fun s => occupied s = true) ss) by by apply list_elem_of_filter.
    apply list_elem_of_lookup in Hf as [i Hi]. destruct (Forall2_lookup_l _ _ _ _ _ H2 Hi) as (lg & Hlg & Hof).
    exists lg. rewrite sortBy_perm. split; [by eapply list_elem_of_lookup_2|done].
  - intros lg Hlg. rewrite sortBy_perm in Hlg. apply list_elem_of_lookup in Hlg as [i Hi].
    destruct (Forall2_lookup_r _ _ _ _ _ H2 Hi) as (s & Hs & Hof). apply list_elem_of_lookup_2, list_elem_of_filter in Hs as [Ho Hs].
    by exists s.
Qed.
End logins_spec.

Definition console : wtsSession :=
  {| ws_SessionID := 1; ws_Station := str "Console"; ws_State := 0; ws_UserName := Ok (Some (str "ana"));
     ws_DomainName := Ok (Some (str "CORP")); ws_ClientName := Ok None; ws_Info := None |}.

Lemma logins_miss_nobody_witness :
  exists lg, lg ∈ [{| lg_User := str "CORP\ana"; lg_Terminal := str "Console"; lg_Host := []; lg_Kind := str "console";
                      lg_State := str "active"; lg_Since := [] |}] /\ of_session console lg.
Proof.
  apply (logins_miss_nobody (fun z => z) [console] None [{| lg_User := str "CORP\ana"; lg_Terminal := str "Console";
    lg_Host := []; lg_Kind := str "console"; lg_State := str "active"; lg_Since := [] |}]); [vm_compute; reflexivity|by left|reflexivity].
Defined.

(** ** The network snapshot does not depend on the kernel's order *)

Lemma sortStrings_unique l l' : l ≡ₚ l' -> sortStrings l = sortStrings l'.
Proof.
  intros Hp. assert (He : forall l, sortStrings l = sortBy bytes_le l).
  { clear. intros l. unfold sortStrings, sortBy. f_equal. }
  rewrite !He. apply sortBy_unique; [apply bytes_le_total|apply bytes_le_trans| |done].
  intros x y _ _. apply bytes_le_antisym.
Qed.

(** The same interface, its flags and addresses listed in another order. *)
Definition same_iface (i j : ifaceStat) : Prop :=
  is_Name i = is_Name j /\ is_MAC i = is_MAC j /\ is_MTU i = is_MTU j /\
  is_Flags i ≡ₚ is_Flags j /\ is_Addrs i ≡ₚ is_Addrs j.

Lemma hasFlag_perm l l' f : l ≡ₚ l' -> hasFlag l f = hasFlag l' f.
Proof. intros Hp. unfold hasFlag. apply bool_decide_ext. by rewrite (Permutation_map ToLower Hp). Qed.

Lemma netInterface_same i j : same_iface i j -> netInterface i = netInterface j.
Proof.
  intros (Hn & Hm & Hu & Hf & Ha). unfold netInterface. rewrite Hn, Hm, Hu.
  rewrite !(hasFlag_perm _ _ _ Hf). f_equal. apply sortStrings_unique. by rewrite Ha.
Qed.

(** Two listings of the same interfaces make the same snapshot, and so the same
    hash, whatever order the kernel gave the interfaces, their flags and their
    addresses in: no change is recorded where nothing changed. *)
Theorem network_snapshot_ignores_the_order (l l1 l2 : list ifaceStat) :
  l ≡ₚ l1 -> Forall2 same_iface l1 l2 -> NoDup (map is_Name l) ->
  collectNetwork (Ok l) = collectNetwork (Ok l2).
Proof.
  intros Hp Hs Hnd. unfold collectNetwork. f_equal.
  assert (He : map netInterface l1 = map netInterface l2).
  { clear -Hs. induction Hs as [|i j l1' l2' Hij _ IH]; [done|]. cbn [map]. by rewrite (netInterface_same i j Hij), IH. }
  rewrite <- He. apply sortBy_unique.
  - intros x y. apply bytes_le_total.
  - intros x y z. apply bytes_le_trans.
  - intros x y Hx Hy Hxy Hyx. apply list_elem_of_fmap in Hx as (i & -> & Hi), Hy as (j & -> & Hj).
    assert (Hname : is_Name i = is_Name j) by by apply bytes_le_antisym. f_equal.
    apply list_elem_of_lookup in Hi as [a Ha], Hj as [b Hb].
    assert (a = b) as ->; [|congruence]. eapply (NoDup_lookup _ a b (is_Name i) Hnd).
    + change (map is_Name l) with (is_Name <$> l). by rewrite list_lookup_fmap, Ha.
    + change (map is_Name l) with (is_Name <$> l). by rewrite list_lookup_fmap, Hb, Hname.
  - by apply Permutation_map.
Qed.

Definition eth (name : bytes) (flags addrs : list bytes) : ifaceStat :=
  {| is_Name := name; is_MAC := []; is_MTU := 1500; is_Flags := flags; is_Addrs := addrs |}.

Lemma network_snapshot_ignores_the_order_witness :
  collectNetwork (Ok [eth (str "eth1") [] []; eth (str "eth0") [str "up"; str "broadcast"] [str "10.0.0.2/24"; str "10.0.0.1/24"]]) =
  collectNetwork (Ok [eth (str "eth0") [str "broadcast"; str "up"] [str "10.0.0.1/24"; str "10.0.0.2/24"]; eth (str "eth1") [] []]).
Proof.
  apply (network_snapshot_ignores_the_order _
    [eth (str "eth0") [str "up"; str "broadcast"] [str "10.0.0.2/24"; str "10.0.0.1/24"]; eth (str "eth1") [] []]).
  - apply Permutation_swap.
  - repeat constructor; apply Permutation_swap.
  - apply (bool_decide_eq_true_1 _). vm_compute. reflexivity.
Defined.

(** ** Processes *)

(** The process snapshot is at most five hundred of the processes that could be
    named, and none that was left out is larger than one that is in. *)
Theorem processes_are_the_largest (ps : list procStat) (l : list proc) :
  collectProcesses (Ok ps) = Ok l ->
  (length l <= maxProcesses)%nat /\
  exists rest, l ++ rest ≡ₚ flat_map procEntry ps /\ (rest ≠ [] -> length l = maxProcesses) /\
    forall p q, p ∈ l -> q ∈ rest -> pr_RSS q <= pr_RSS p.
Proof.
  unfold collectProcesses. intros [= <-]. set (all := flat_map procEntry ps).
  assert (Htot : forall x y, rss_ge x y = false -> rss_ge y x = true) by (unfold rss_ge; intros; lia).
  assert (Htr : forall x y z, rss_ge x y = true -> rss_ge y z = true -> rss_ge x z = true) by (unfold rss_ge; intros; lia).
  pose proof (sortBy_sorted rss_ge Htot Htr all) as Hs. split; [rewrite length_take; lia|].
  exists (drop maxProcesses (sortBy rss_ge all)). split_and!.
  - by rewrite take_drop, sortBy_perm.
  - intros Hr. rewrite length_take. destruct (le_lt_dec (length (sortBy rss_ge all)) maxProcesses); [|lia].
    by rewrite drop_ge in Hr by lia.
  - rewrite <- (take_drop maxProcesses (sortBy rss_ge all)) in Hs. intros p q Hp Hq.
    revert Hs Hp. generalize (take maxProcesses (sortBy rss_ge all)) as a. intros a. induction a as [|x a IH]; intros Hs Hp.
    { by apply not_elem_of_nil in Hp. }
    cbn [app] in Hs. apply StronglySorted_inv in Hs as [Hs Hx]. apply elem_of_cons in Hp as [->|Hp]; [|by apply IH].
    rewrite Forall_forall in Hx. specialize (Hx q). unfold rss_ge in Hx. apply Z.leb_le, Hx, elem_of_app. by right.
Qed.

(** ** Machine identity *)

Lemma cleanDMI_not_junk s : cleanDMI s = [] \/ ToLower (cleanDMI s) ∉ dmiJunk.
Proof. unfold cleanDMI. case_bool_decide; [by left|by right]. Qed.

(** No placeholder of an OEM is ever reported as a machine's identity, on any
    platform: each field is left out or is none of the known placeholders. *)
Theorem no_placeholder_identity (file : bytes -> res error bytes) cs bios enclosure doc :
  Forall (fun d => Forall (fun f => f = [] \/ ToLower f ∉ dmiJunk) [di_Manufacturer d; di_Model d; di_Serial d])
    [readDMI file; collectDMIWindows cs bios enclosure; parseHardwareOverview doc].
Proof.
  pose proof cleanDMI_not_junk as Hc.
  apply Forall_cons; split; [|apply Forall_cons; split; [|apply Forall_cons; split; [|apply Forall_nil_2]]].
  - assert (Hr : forall n, match file n with Err _ => [] | Ok raw => cleanDMI raw end = [] \/
      ToLower (match file n with Err _ => [] | Ok raw => cleanDMI raw end) ∉ dmiJunk).
    { intros n. destruct (file n); [apply Hc|by left]. }
    unfold readDMI. cbn [di_Manufacturer di_Model di_Serial].
    do 3 (apply Forall_cons; split; [apply Hr|]). apply Forall_nil_2.
  - unfold collectDMIWindows. destruct cs as [[|[m n] ?]|], bios as [[|b ?]|]; cbn;
      repeat (apply Forall_cons; split); try apply Forall_nil_2; try apply Hc; by left.
  - destruct doc as [[|[[a b] d] ?]|]; cbn; repeat (apply Forall_cons; split); try apply Forall_nil_2;
      try apply Hc; try by left. right. by apply (bool_decide_eq_false_1 _).
Qed.
