(* ===== verification/Beacon.v ===== *)
(** * Beacon: heartbeats and telemetry (agent/internal/heartbeat, telemetry)

    heartbeat.go and telemetry.go: the beat and when the next one goes out, and
    the sample of host metrics.  The clock, the random jitter, whether a
    publish succeeds and what gopsutil reports are arguments. *)
From S2P Require Import Prelude GoLib GoText GoOS Env Wire Netcert Posture Inventory.
From Stdlib Require Import Floats.SpecFloat Sorted.
#[local] Open Scope Z_scope.

(** ** Heartbeat *)

Definition interval : Z := 30 * Second.
Definition jitter : Z := 3 * Second.

(** [int64(f)] of a finite float: the fraction is dropped. *)
Definition truncFloat (f : spec_float) : Z :=
  match f with
  | S754_finite s m e =>
      let z := if 0 <=? e then Z.pos m * 2 ^ e else Z.pos m / 2 ^ (- e) in
      if s then - z else z
  | _ => 0
  end.

Record beat := {
  bt_Version : bytes;
  bt_UptimeS : Z;
  bt_ScheduleVersion : Z;
  bt_Seq : Z;
  bt_CertSerial : bytes;
  bt_CertNotAfter : bytes;
}.

(** What [publish] sends; [cert] is [CertFunc], empty without a certificate. *)
Definition mkBeat (version : bytes) (start now seq schedVersion : Z) (cert : bytes * Z) : beat :=
  let '(serial, notAfter) := cert in
  {| bt_Version := version; bt_UptimeS := truncFloat (Seconds (Sub now start));
     bt_ScheduleVersion := schedVersion; bt_Seq := seq;
     bt_CertSerial := serial;
     bt_CertNotAfter := if bool_decide (serial = []) then [] else FormatRFC3339 notAfter |}.

(** [rand.N(2*jitter)] is [r]. *)
Definition nextInterval (r : Z) : Z := interval - jitter + r.
Definition rolled (r : Z) : Prop := 0 <= r < 2 * jitter.

(** One turn of [Run]'s loop: whether the publish got through, how long it
    took, and the jitter rolled for the wait after it. *)
Record round := { rd_Sent : bool; rd_Took : Z; rd_Roll : Z }.

(** A beat as the server could see it: when it went out, its number, whether it
    arrived. *)
Record sentBeat := { sb_At : Z; sb_Seq : Z; sb_Arrived : bool }.

Fixpoint beats (rounds : list round) (now seq : Z) : list sentBeat :=
  match rounds with
  | [] => []
  | r :: rounds' =>
      let seq := wrapu64 (seq + 1) in
      {| sb_At := now; sb_Seq := seq; sb_Arrived := rd_Sent r |} ::
      beats rounds' (now + rd_Took r + nextInterval (rd_Roll r)) seq
  end.

(** [heartbeat.Run] from its start. *)
Definition RunBeats (rounds : list round) (start : Z) : list sentBeat := beats rounds start 0.

(** The server marks an agent offline this long after its last beat. *)
Definition offlineAfter : Z := 90 * Second.

Definition quick (limit : Z) (r : round) : Prop := 0 <= rd_Took r <= limit /\ rolled (rd_Roll r).

Lemma beats_at rounds now seq i b :
  beats rounds now seq !! i = Some b ->
  exists before r, take i rounds = before /\ rounds !! i = Some r /\ sb_Arrived b = rd_Sent r /\
    sb_At b = now + foldr (fun r acc => rd_Took r + nextInterval (rd_Roll r) + acc) 0 before /\
    (0 <= seq -> seq + Z.of_nat i + 1 < 2 ^ 64 -> sb_Seq b = seq + Z.of_nat i + 1).
Proof.
  revert now seq i. induction rounds as [|r rounds IH]; intros now seq i; [done|]. destruct i as [|i]; cbn [beats].
  - intros [= <-]. exists [], r. split_and!; try done; cbn; [lia|]. intros. unfold wrapu64. rewrite Z.mod_small; lia.
  - cbn [lookup list_lookup]. intros Hb. destruct (IH _ _ _ Hb) as (before & r' & <- & Hr & Ha & Ht & Hs).
    exists (take (S i) (r :: rounds)), r'. split_and!; try done.
    + rewrite Ht. cbn [take foldr]. lia.
    + intros H0 Hlt. unfold wrapu64 in Hs. rewrite Z.mod_small in Hs by lia. rewrite Hs by lia. lia.
Qed.

(** The time between two beats is bounded by the number of waits between
    them. *)
Lemma beats_gap limit rounds start i n a b :
  0 <= limit -> Forall (quick limit) rounds ->
  RunBeats rounds start !! i = Some a -> RunBeats rounds start !! (i + n)%nat = Some b ->
  Z.of_nat n * (interval - jitter) <= sb_At b - sb_At a <= Z.of_nat n * (interval + jitter + limit).
Proof.
  intros Hlim Hq Ha Hb. destruct (beats_at _ _ _ _ _ Ha) as (ba & ra & <- & _ & _ & Hta & _).
  destruct (beats_at _ _ _ _ _ Hb) as (bb & rb & <- & Hrb & _ & Htb & _). rewrite Hta, Htb.
  rewrite <- (take_take_drop rounds i n), foldr_app.
  assert (Hfold : forall l z, foldr (fun r acc => rd_Took r + nextInterval (rd_Roll r) + acc) z l =
    foldr (fun r acc => rd_Took r + nextInterval (rd_Roll r) + acc) 0 l + z).
  { induction l as [|r l IH]; intros z; cbn [foldr]; [lia|]. rewrite IH. lia. }
  rewrite Hfold. set (mid := take n (drop i rounds)).
  assert (Hmid : Forall (quick limit) mid) by (by apply Forall_take, Forall_drop).
  assert (Hlen : length mid = n).
  { unfold mid. rewrite length_take, length_drop. apply lookup_lt_Some in Hrb. lia. }
  assert (Hsum : Z.of_nat (length mid) * (interval - jitter) <=
    foldr (fun r acc => rd_Took r + nextInterval (rd_Roll r) + acc) 0 mid <=
    Z.of_nat (length mid) * (interval + jitter + limit)).
  { clear -Hmid. induction Hmid as [|r l [Ht Hr] _ IH]; [cbn; lia|]. cbn [foldr length]. unfold nextInterval, rolled in *.
    rewrite Nat2Z.inj_succ. lia. }
  rewrite Hlen in Hsum. lia.
Qed.

(** An agent is not taken for offline for one lost beat.  While publishing
    takes at most ten seconds, two beats that arrive with at most one lost
    between them are less than ninety seconds apart; and the numbers of two
    beats differ by exactly the beats between them, so the server can count
    what it missed. *)
Theorem one_lost_beat_is_tolerated (rounds : list round) (start : Z) (i n : nat) (a b : sentBeat) :
  Forall (quick (10 * Second)) rounds ->
  RunBeats rounds start !! i = Some a -> RunBeats rounds start !! (i + n)%nat = Some b ->
  ((n <= 2)%nat -> sb_At b - sb_At a < offlineAfter) /\
  (Z.of_nat (i + n) + 1 < 2 ^ 64 -> sb_Seq b - sb_Seq a = Z.of_nat n).
Proof.
  intros Hq Ha Hb. split.
  - intros Hn. pose proof (beats_gap (10 * Second) rounds start i n a b ltac:(unfold Second; lia) Hq Ha Hb) as [_ H].
    unfold offlineAfter, interval, jitter, Second in *. nia.
  - intros Hlt. destruct (beats_at _ _ _ _ _ Ha) as (? & ? & _ & _ & _ & _ & Hsa).
    destruct (beats_at _ _ _ _ _ Hb) as (? & ? & _ & _ & _ & _ & Hsb). rewrite Hsa, Hsb by lia. lia.
Qed.

(** Two lost in a row may be too many: the third beat can be ninety-eight
    seconds after the first. *)
Definition unlucky : round := {| rd_Sent := false; rd_Took := 0; rd_Roll := 2 * jitter - 1 |}.

Theorem two_lost_beats_can_mark_offline :
  Forall (quick 0) (repeat unlucky 4) /\
  exists a b, RunBeats (repeat unlucky 4) 0 !! 0%nat = Some a /\ RunBeats (repeat unlucky 4) 0 !! 3%nat = Some b /\
    offlineAfter < sb_At b - sb_At a.
Proof.
  split; [do 4 (apply Forall_cons_2; [unfold quick, rolled, unlucky, jitter, Second; cbn; lia|]); apply Forall_nil_2|].
  eexists _, _. split; [reflexivity|].
  split; [reflexivity|]. reflexivity.
Qed.

Lemma one_lost_beat_is_tolerated_witness :
  sb_At {| sb_At := 60 * Second; sb_Seq := 3; sb_Arrived := true |} - 0 < offlineAfter.
Proof.
  apply (one_lost_beat_is_tolerated (repeat {| rd_Sent := true; rd_Took := 0; rd_Roll := jitter |} 3) 0 0 2
    {| sb_At := 0; sb_Seq := 1; sb_Arrived := true |} {| sb_At := 60 * Second; sb_Seq := 3; sb_Arrived := true |});
    [do 3 (apply Forall_cons_2; [unfold quick, rolled, jitter, Second; cbn; lia|]); apply Forall_nil_2|reflexivity|reflexivity|lia].
Defined.

(** ** Telemetry *)

Record netCounter := {
  nc_Name : bytes;
  nc_BytesSent : Z; nc_BytesRecv : Z; nc_PacketsSent : Z; nc_PacketsRecv : Z;
  nc_ErrIn : Z; nc_ErrOut : Z; nc_DropIn : Z; nc_DropOut : Z;
}.

Definition counted (st : netCounter) : bool :=
  let name := ToLower (nc_Name st) in
  if bool_decide (name = str "lo") || bool_decide (name = str "lo0") || HasPrefix name (str "loopback") then false
  else negb ((nc_BytesSent st =? 0) && (nc_BytesRecv st =? 0)).

Definition counter_le (a b : netCounter) : bool := bytes_le (nc_Name a) (nc_Name b).

Definition collectNets (stats : res error (list netCounter)) : list netCounter :=
  match stats with
  | Err _ => []
  | Ok l => sortBy counter_le (filter (fun st => counted st = true) l)
  end.

Record diskUsage := { du_Mount : bytes; du_Used : Z; du_Total : Z; du_FSType : bytes }.
Record partition := { pt_Mountpoint : bytes; pt_Fstype : bytes }.

Definition realFSTypes : list bytes :=
  map str ["ext4"; "xfs"; "btrfs"; "zfs"; "apfs"; "hfs"; "ntfs"; "exfat"; "vfat"; "fat"; "fat32"; "fat16"]%string.
Definition realFS (fstype : bytes) : bool := bool_decide (ToLower fstype ∈ realFSTypes).

Section disks.
(** [disk.UsageWithContext]: used and total. *)
Context (usage : bytes -> res error (Z * Z)).

Fixpoint disksFrom (parts : list partition) (seen : list bytes) : list diskUsage :=
  match parts with
  | [] => []
  | p :: parts' =>
      if negb (realFS (pt_Fstype p)) || bool_decide (pt_Mountpoint p ∈ seen) then disksFrom parts' seen
      else
        let seen := pt_Mountpoint p :: seen in
        match usage (pt_Mountpoint p) with
        | Err _ => disksFrom parts' seen
        | Ok (used, total) =>
            {| du_Mount := pt_Mountpoint p; du_Used := used; du_Total := total; du_FSType := pt_Fstype p |} ::
            disksFrom parts' seen
        end
  end.

Definition collectDisks (parts : res error (list partition)) : list diskUsage :=
  match parts with Err _ => [] | Ok l => disksFrom l [] end.

(** The whole sample; floats are kept as they come. *)
Record sample := {
  sm_CPUPct : spec_float;
  sm_MemUsed : Z; sm_MemTotal : Z;
  sm_SwapPct : spec_float;
  sm_Load1 : option spec_float;
  sm_UptimeS : Z;
  sm_Disks : list diskUsage;
  sm_Nets : list netCounter;
}.

Definition collect (GOOS : bytes) (cpu : res error (list spec_float)) (vm : res error (Z * Z)) (swap : res error spec_float)
    (load : res error spec_float) (up : res error Z) (parts : res error (list partition))
    (stats : res error (list netCounter)) : sample :=
  {| sm_CPUPct := match cpu with Ok (p :: _) => p | _ => S754_zero false end;
     sm_MemUsed := match vm with Ok (u, _) => u | Err _ => 0 end;
     sm_MemTotal := match vm with Ok (_, t) => t | Err _ => 0 end;
     sm_SwapPct := match swap with Ok p => p | Err _ => S754_zero false end;
     sm_Load1 := if bool_decide (GOOS = str "windows") then None
                 else match load with Ok l => Some l | Err _ => None end;
     sm_UptimeS := match up with Ok u => u | Err _ => 0 end;
     sm_Disks := collectDisks parts;
     sm_Nets := collectNets stats |}.

Lemma disksFrom_spec parts seen :
  NoDup (map du_Mount (disksFrom parts seen)) /\
  forall d, d ∈ disksFrom parts seen -> du_Mount d ∉ seen /\ realFS (du_FSType d) = true /\
    usage (du_Mount d) = Ok (du_Used d, du_Total d) /\
    exists p, p ∈ parts /\ pt_Mountpoint p = du_Mount d /\ pt_Fstype p = du_FSType d.
Proof.
  revert seen. induction parts as [|p parts IH]; intros seen; cbn [disksFrom].
  { split; [constructor|]. intros d Hd. by apply not_elem_of_nil in Hd. }
  assert (Hskip : forall seen', (forall x, x ∈ seen -> x ∈ seen') ->
    NoDup (map du_Mount (disksFrom parts seen')) /\
    forall d, d ∈ disksFrom parts seen' -> du_Mount d ∉ seen /\ realFS (du_FSType d) = true /\
      usage (du_Mount d) = Ok (du_Used d, du_Total d) /\
      exists p', p' ∈ p :: parts /\ pt_Mountpoint p' = du_Mount d /\ pt_Fstype p' = du_FSType d).
  { intros seen' Hsub. destruct (IH seen') as [Hnd Hd]. split; [done|]. intros d Hin.
    destruct (Hd d Hin) as (H1 & H2 & H3 & p' & H4 & H5 & H6). split_and!; [auto|done|done|].
    exists p'. split; [by right|done]. }
  destruct (realFS (pt_Fstype p)) eqn:Er; cbn [negb orb]; [|by apply Hskip].
  case_bool_decide as Hs; [by apply Hskip|].
  destruct (usage (pt_Mountpoint p)) as [[used total]|e] eqn:Eu; [|apply Hskip; by right].
  destruct (Hskip (pt_Mountpoint p :: seen) ltac:(by right)) as [Hnd Hd]. split.
  - cbn [map]. constructor; [|done]. intros Hin. apply list_elem_of_fmap in Hin as (d & Hm & Hin).
    destruct (IH (pt_Mountpoint p :: seen)) as [_ Hd']. destruct (Hd' d Hin) as [Hns _]. apply Hns. rewrite <- Hm. by left.
  - intros d [->|Hin]%elem_of_cons; [|by apply Hd]. cbn. split_and!; try done. exists p. split; [by left|done].
Qed.

(** Every disk in a sample is mounted where it says, on a filesystem of the
    allowlist, with the usage the system reported for that mount point, and no
    mount point appears twice. *)
Theorem sampled_disks_are_real_and_distinct (parts : list partition) :
  NoDup (map du_Mount (collectDisks (Ok parts))) /\
  Forall (fun d => realFS (du_FSType d) = true /\ usage (du_Mount d) = Ok (du_Used d, du_Total d) /\
    exists p, p ∈ parts /\ pt_Mountpoint p = du_Mount d /\ pt_Fstype p = du_FSType d) (collectDisks (Ok parts)).
Proof.
  cbn [collectDisks]. destruct (disksFrom_spec parts []) as [Hnd Hd]. split; [done|].
  apply Forall_forall. intros d Hin. by destruct (Hd d Hin) as [_ H].
Qed.
End disks.

(** The allowlist leaves out filesystems that hold data: a volume formatted as
    ext3, ext2, f2fs or ReFS is never in a sample, however full. *)
Theorem real_filesystems_left_out usage (parts : list partition) :
  Forall (fun p => ToLower (pt_Fstype p) ∈ map str ["ext2"; "ext3"; "f2fs"; "refs"]%string) parts ->
  collectDisks usage (Ok parts) = [].
Proof.
  cbn [collectDisks]. intros Hall. generalize (@nil bytes) as seen. induction Hall as [|p parts Hp _ IH]; intros seen; [done|].
  cbn [disksFrom]. assert (Hr : realFS (pt_Fstype p) = false).
  { unfold realFS. apply bool_decide_eq_false_2. intros Hin. revert Hp Hin. generalize (ToLower (pt_Fstype p)).
    intros t Ht. assert (Hx : bool_decide (Forall (fun t => t ∉ realFSTypes) (map str ["ext2"; "ext3"; "f2fs"; "refs"]%string)) = true)
      by (vm_compute; reflexivity).
    apply bool_decide_eq_true in Hx. rewrite Forall_forall in Hx. by apply Hx. }
  rewrite Hr. apply IH.
Qed.

Lemma real_filesystems_left_out_witness :
  collectDisks (fun _ => Ok (99, 100)) (Ok [{| pt_Mountpoint := str "D:"; pt_Fstype := str "ReFS" |}]) = [].
Proof.
  apply (real_filesystems_left_out (fun _ => Ok (99, 100)) [{| pt_Mountpoint := str "D:"; pt_Fstype := str "ReFS" |}]).
  apply Forall_cons. split; [|apply Forall_nil_2]. apply (bool_decide_eq_true_1 _). vm_compute. reflexivity.
Defined.
