(* ===== verification/SchedRun.v ===== *)
(** * SchedRun: the scheduler's run loop (agent/internal/sched)

    [Run] of sched.go: start-up, the wake-up channel and the timer, with
    [Sync] arriving from the command handler's goroutine at any time.  [Sync]
    changes the entries and signals; only the loop touches the queue, so an
    action is one of the loop's cases or one [Sync]. *)
From S2P Require Import Prelude GoLib GoText GoOS Wire Heap Sched.

(** [New] *)
Definition New : scheduler := {| sc_st := emptyState; sc_pq := [] |}.
Definition schedulePath (stateDir : bytes) : path := Join stateDir FileName.

(** [Load]: the state is replaced also when reading it failed. *)
Definition Load {RM : RawMessage} {JS : JSON state} (stateDir : bytes) (s : scheduler) : io (option error * scheduler) :=
  let* x := loadState (schedulePath stateDir) in
  ret (match x.1 with Err e => Some e | Ok _ => None end, {| sc_st := x.2; sc_pq := sc_pq s |}).

(** [Entries] and [Version] *)
Definition Entries (s : scheduler) : list Entry := st_Entries (sc_st s).
Definition Version (s : scheduler) : Z := ScheduleVersion (sc_st s).

(** The loop between two rounds; the wake channel holds at most one signal. *)
Record loop := Loop { lp_sched : scheduler; lp_wake : bool }.

Inductive laction : Type :=
  | LSync (doc : Document) (now : Z) (saveOk : bool)  (** the server sends a schedule *)
  | LWake (now : Z)                                   (** the loop takes the signal *)
  | LTimer (now : Z).                                 (** the timer of the first item runs out *)

Section run.
Context {L : Type} (UTC : L) (LoadLocation : bytes -> option L).
Context (Parse : bytes -> option (L -> Z -> Z)).
Context (sha1 : list Z -> list Z) (agentID : bytes) (reason : Entry -> bytes).

(** [signal]: a signal already waiting is enough. *)
Definition signal (evs : list sev) (wake : bool) : bool :=
  existsb (fun ev => match ev with SvWake => true | _ => false end) evs || wake.

(** How long the timer is set for at the top of the loop; none for an empty
    queue. *)
Definition timerFor (l : loop) (now : Z) : option Z :=
  match peek (sc_pq (lp_sched l)) with
  | None => None
  | Some item => Some (Z.max (Sub (it_at item) now) 0)
  end.

Definition lstep (a : laction) (l : loop) : option (loop * list sev) :=
  match a with
  | LSync doc now saveOk =>
      let '(s, _, evs) := Sync UTC LoadLocation Parse reason doc now saveOk (lp_sched l) in
      Some (Loop s (signal evs (lp_wake l)), evs)
  | LWake now =>
      if lp_wake l then Some (Loop (rebuild UTC LoadLocation Parse agentID now (lp_sched l)) false, []) else None
  | LTimer now =>
      match peek (sc_pq (lp_sched l)) with
      | None => None
      | Some _ =>
          let '(s, evs) := fireDue UTC LoadLocation Parse sha1 agentID (length (sc_pq (lp_sched l))) now (lp_sched l) in
          Some (Loop s (lp_wake l), evs)
      end
  end.

Fixpoint lrun (acts : list laction) (l : loop) : option (loop * list sev) :=
  match acts with
  | [] => Some (l, [])
  | a :: acts' =>
      match lstep a l with
      | None => None
      | Some (l1, evs) => match lrun acts' l1 with Some (l2, evs') => Some (l2, evs ++ evs') | None => None end
      end
  end.

(** [Run] up to its loop, from the state [Load] left. *)
Definition startRun (st : state) (now1 now2 : Z) : loop * list sev :=
  let '(s, evs) := catchUp UTC LoadLocation Parse agentID now1 {| sc_st := st; sc_pq := [] |} in
  (Loop (rebuild UTC LoadLocation Parse agentID now2 s) false, evs).

(** ** No entry is forgotten *)

(** An entry that will always have a next fire. *)
Definition recurring (e : Entry) : Prop :=
  exists next, schedule UTC LoadLocation Parse e = Some next /\ forall t, IsZero (next t) = false.

Definition covers (es : list Entry) (h : fireHeap) : Prop :=
  forall e, e ∈ es -> Enabled e = true -> recurring e -> exists it, it ∈ h /\ it_entryID it = e_EntryID e.

Lemma recurring_item e now :
  recurring e -> exists it, itemFor UTC LoadLocation Parse agentID e now = Some it /\ it_entryID it = e_EntryID e.
Proof. intros (next & Hs & Hz). unfold itemFor. rewrite Hs, Hz. by eexists. Qed.

Lemma rebuild_covers now s :
  let s' := rebuild UTC LoadLocation Parse agentID now s in
  sc_st s' = sc_st s /\ is_heap (sc_pq s') /\ covers (Entries s') (sc_pq s').
Proof.
  unfold rebuild. cbn [sc_st sc_pq with_pq]. destruct (Init_spec
    (omap (fun e => if Enabled e then itemFor UTC LoadLocation Parse agentID e now else None) (st_Entries (sc_st s)) ++
     filter (fun it => Before (it_base it) now = true) (sc_pq s))) as [Hh Hp].
  split_and!; [done|exact Hh|]. intros e He Hen Hr. destruct (recurring_item e now Hr) as (it & Hi & Hid).
  exists it. split; [|done]. rewrite Hp. apply elem_of_app. left. apply list_elem_of_omap.
  exists e. split; [done|]. by rewrite Hen.
Qed.

Lemma entry_unique s e :
  NoDup (map e_EntryID (Entries s)) -> e ∈ Entries s -> Enabled e = true -> entry s (e_EntryID e) = Some e.
Proof.
  unfold Entries, entry. intros Hnd Hin Hen.
  assert (Hf : find (fun e' => bool_decide (e_EntryID e' = e_EntryID e)) (st_Entries (sc_st s)) = Some e).
  { induction (st_Entries (sc_st s)) as [|x l IH]; [by apply not_elem_of_nil in Hin|]. cbn [find].
    cbn [map] in Hnd. apply NoDup_cons in Hnd as [Hx Hnd]. apply elem_of_cons in Hin as [->|Hin].
    { by rewrite bool_decide_eq_true_2. }
    rewrite bool_decide_eq_false_2; [by apply IH|]. intros Heq. apply Hx. rewrite Heq. apply list_elem_of_fmap. by exists e. }
  by rewrite Hf, Hen.
Qed.

(** Firing re-arms whatever it fired. *)
Lemma fireDue_covers want fuel now s :
  is_heap (sc_pq s) -> NoDup (map e_EntryID (Entries s)) -> want ⊆ Entries s -> covers want (sc_pq s) ->
  let s' := (fireDue UTC LoadLocation Parse sha1 agentID fuel now s).1 in
  Entries s' = Entries s /\ is_heap (sc_pq s') /\ covers want (sc_pq s').
Proof.
  revert s. induction fuel as [|fuel IH]; intros s Hh Hnd Hw Hc; cbn [fireDue]; [done|].
  destruct (peek (sc_pq s)) as [item|] eqn:Epk; [|done]. destruct (After (it_at item) now); [done|].
  assert (Hpop : is_heap (sc_pq (pop s)) /\ sc_st (pop s) = sc_st s /\ sc_pq s ≡ₚ item :: sc_pq (pop s)).
  { unfold pop. destruct (sc_pq s) as [|y h] eqn:E; [done|]. rewrite <- E in *.
    assert (Hne : sc_pq s ≠ []) by (rewrite E; done). cbn [sc_pq sc_st with_pq].
    destruct (Pop_spec (sc_pq s) Hh Hne) as (A & B & C). destruct (Pop (sc_pq s)) as [h' x]. cbn [fst snd] in *.
    rewrite Epk in C. by injection C as <-. }
  destruct Hpop as (Hh1 & Hst1 & Hp). set (s1 := pop s) in *.
  assert (Hes1 : Entries s1 = Entries s) by (unfold Entries; by rewrite Hst1).
  destruct (entry s1 (it_entryID item)) as [e|] eqn:Ee.
  - apply entry_Some in Ee as (Hin & Hen & Hid).
    set (r := if tooLate e item now then skipLate e item now s1 else dispatch sha1 e (it_base item) s1).
    assert (Hr : sc_pq r.1 = sc_pq s1 /\ Entries r.1 = Entries s1) by (unfold r; by destruct (tooLate e item now)).
    destruct r as [s2 evs]. cbn [fst] in Hr. destruct Hr as [Hpq2 Hes2].
    set (s3 := push UTC LoadLocation Parse agentID e now s2).
    assert (H3 : Entries s3 = Entries s /\ is_heap (sc_pq s3) /\ covers want (sc_pq s3)).
    { unfold s3, push. destruct (itemFor UTC LoadLocation Parse agentID e now) as [it|] eqn:Ei.
      - destruct (Push_spec (sc_pq s2) it ltac:(by rewrite Hpq2)) as [A B]. cbn [sc_pq with_pq].
        split_and!; [unfold Entries in *; cbn; congruence|done|].
        intros e' He' Hen' Hr'. destruct (Hc e' He' Hen' Hr') as (it' & Hit' & Hid').
        rewrite Hp in Hit'. apply elem_of_cons in Hit' as [->|Hit'].
        + exists it. split; [rewrite B; by left|]. unfold itemFor in Ei.
          destruct (schedule _ _ _ e); [|done]. destruct (IsZero _); [done|]. injection Ei as <-. cbn. congruence.
        + exists it'. split; [rewrite B; right; by rewrite Hpq2|done].
      - split_and!; [congruence|by rewrite Hpq2|].
        intros e' He' Hen' Hr'. destruct (Hc e' He' Hen' Hr') as (it' & Hit' & Hid').
        rewrite Hp in Hit'. apply elem_of_cons in Hit' as [->|Hit']; [|exists it'; by rewrite Hpq2].
        exfalso. assert (e' = e) as ->.
        { assert (Hx : entry s1 (e_EntryID e') = Some e')
            by (apply entry_unique; [by rewrite Hes1|rewrite Hes1; by apply Hw|done]).
          assert (Hy : entry s1 (e_EntryID e) = Some e) by (apply entry_unique; [by rewrite Hes1|done|done]).
          rewrite <- Hid', <- Hid in *. congruence. }
        destruct (recurring_item e now Hr') as (it & Hi & _). congruence. }
    destruct H3 as (Hes3 & Hh3 & Hc3). specialize (IH s3 Hh3). rewrite Hes3 in IH. specialize (IH Hnd Hw Hc3).
    by destruct (fireDue _ _ _ _ _ fuel now s3).
  - rewrite <- Hes1 in Hnd, Hw |- *. apply IH; [done|done|done|]. intros e' He' Hen' Hr'.
    destruct (Hc e' He' Hen' Hr') as (it' & Hit' & Hid'). rewrite Hp in Hit'. apply elem_of_cons in Hit' as [->|Hit'].
    + exfalso. rewrite Hid' in Ee. rewrite (entry_unique s1 e') in Ee; [done|done|by apply Hw|done].
    + by exists it'.
Qed.

(** The documents the server sends name each entry once. *)
Definition distinct (a : laction) : Prop :=
  match a with LSync doc _ _ => NoDup (map e_EntryID (doc_Entries doc)) | _ => True end.

(** A document that is refused as a whole. *)
Definition refused (doc : Document) : bool :=
  existsb (fun e => match CheckIdentifier (str "entry_id") (e_EntryID e) with
                    | Some _ => true | None => false end) (doc_Entries doc).

(** Whether, after the action, the schedule in force is one that could not be
    saved and that the loop has not been told of since. *)
Definition unsaved (b : bool) (a : laction) : bool :=
  match a with
  | LSync doc _ saveOk => if refused doc then b else negb saveOk
  | LWake _ => false
  | LTimer _ => b
  end.

Definition armed (b : bool) (l : loop) : Prop :=
  NoDup (map e_EntryID (Entries (lp_sched l))) /\ is_heap (sc_pq (lp_sched l)) /\
  (b = true \/ lp_wake l = true \/ covers (Entries (lp_sched l)) (sc_pq (lp_sched l))).

Lemma NoDup_filter_ids (P : Entry -> Prop) `{forall e, Decision (P e)} es :
  NoDup (map e_EntryID es) -> NoDup (map e_EntryID (filter P es)).
Proof.
  induction es as [|e es IH]; [done|]. cbn [map]. intros [Hn Hnd]%NoDup_cons. rewrite filter_cons. case_decide; [|auto].
  cbn [map]. apply NoDup_cons. split; [|auto]. intros Hin. apply Hn. apply list_elem_of_fmap in Hin as (e' & -> & He').
  apply list_elem_of_filter in He' as [_ He']. apply list_elem_of_fmap. by exists e'.
Qed.

Lemma lstep_armed b a l l' evs :
  distinct a -> armed b l -> lstep a l = Some (l', evs) -> armed (unsaved b a) l'.
Proof.
  intros Hg (Hnd & Hh & Hc). destruct a as [doc now saveOk|now|now]; cbn [lstep unsaved].
  - unfold Sync. fold (refused doc). destruct (refused doc); cbn [signal existsb orb].
    + intros [= <- <-]. done.
    + destruct saveOk; intros [= <- <-]; (split_and!; [cbn; by apply NoDup_filter_ids|done|]); [by right; left|by left].
  - destruct (lp_wake l); [|done]. intros [= <- <-]. destruct (rebuild_covers now (lp_sched l)) as (Hst & Hh' & Hc').
    split_and!; [|exact Hh'|by right; right]. unfold Entries in *. cbn [lp_sched]. by rewrite Hst.
  - destruct (peek _); [|done].
    destruct (fireDue _ _ _ _ _ _ now (lp_sched l)) as [s evs'] eqn:E. intros [= <- <-]. unfold armed. cbn [lp_sched lp_wake].
    assert (Hkeep : forall want, want ⊆ Entries (lp_sched l) -> covers want (sc_pq (lp_sched l)) ->
      Entries s = Entries (lp_sched l) /\ is_heap (sc_pq s) /\ covers want (sc_pq s)).
    { intros want Hw Hcw. pose proof (fireDue_covers want (length (sc_pq (lp_sched l))) now (lp_sched l) Hh Hnd Hw Hcw) as H.
      by rewrite E in H. }
    destruct (Hkeep [] ltac:(apply list_subseteq_nil) ltac:(intros e He; by apply not_elem_of_nil in He)) as (H1 & H2 & _).
    rewrite H1. split_and!; [done|done|]. destruct Hc as [?|[?|Hc]]; [by left|by right; left|right; right].
    by apply (Hkeep (Entries (lp_sched l))).
Qed.

Lemma catchUp_entries now s :
  Entries (catchUp UTC LoadLocation Parse agentID now s).1 = Entries s.
Proof.
  unfold catchUp. generalize (st_Entries (sc_st s)) at 1 as es. intros es.
  set (f := fun '((s, evs) : scheduler * list sev) e =>
    let '(s, evs') := catchUpEntry UTC LoadLocation Parse agentID now e s in (s, evs ++ evs')).
  assert (H : forall evs s0, Entries s0 = Entries s -> Entries (fold_left f es (s0, evs)).1 = Entries s).
  { induction es as [|e es IH]; intros evs s0 H0; [done|]. cbn [fold_left]. unfold f at 2.
    destruct (catchUpEntry UTC LoadLocation Parse agentID now e s0) as [s1 evs1] eqn:E. apply IH.
    rewrite <- H0. unfold catchUpEntry in E. destruct (negb _); [by injection E as <- <-|].
    destruct (schedule _ _ _ e); [|by injection E as <- <-]. destruct (lastFired s0 _); [|by injection E as <- <-].
    destruct (lastMissed _ _ _ _). destruct (decideMisfire _ _ _); by injection E as <- <-. }
  by apply H.
Qed.

Lemma lrun_armed acts b l l' evs :
  Forall distinct acts -> armed b l -> lrun acts l = Some (l', evs) -> armed (fold_left unsaved acts b) l'.
Proof.
  intros Hg. revert b l evs. induction Hg as [|a acts Ha _ IH]; intros b l evs Hl; cbn [lrun fold_left]; [by intros [= <- _]|].
  destruct (lstep a l) as [[l1 evs1]|] eqn:E; [|done]. destruct (lrun acts l1) as [[l2 evs2]|] eqn:E2; [|done].
  intros [= <- _]. eapply IH; [by eapply lstep_armed|done].
Qed.

(** C25: The scheduler forgets no entry of a schedule it could save.  From any
    saved schedule whose entries have distinct ids, through any sequence of
    syncs (of such documents, refused or not, saved or not), wake-ups and
    timers, unless the last document put in force could not be saved and the
    loop has not rebuilt its queue since ([unsaved]), every enabled entry that
    recurs has a fire in the queue, or a signal is waiting that makes the loop
    rebuild it (after which it has); and in every case, whenever the queue is not
    empty the timer is set for its earliest fire.  The condition is needed:
    [unsaved_schedule_never_fires]. *)
Theorem no_entry_is_forgotten (st : state) (now1 now2 : Z) (acts : list laction) (l : loop) (evs : list sev) :
  NoDup (map e_EntryID (st_Entries st)) -> Forall distinct acts ->
  lrun acts (startRun st now1 now2).1 = Some (l, evs) ->
  (fold_left unsaved acts false = false ->
     (lp_wake l = false -> covers (Entries (lp_sched l)) (sc_pq (lp_sched l))) /\
     (lp_wake l = true -> forall now, exists l', lstep (LWake now) l = Some (l', []) /\ lp_wake l' = false /\
        Entries (lp_sched l') = Entries (lp_sched l) /\ covers (Entries (lp_sched l')) (sc_pq (lp_sched l')))) /\
  (forall now it, it ∈ sc_pq (lp_sched l) ->
     exists d, timerFor l now = Some d /\ 0 <= d /\ d <= Z.max (Sub (it_at it) now) 0).
Proof.
  intros Hnd Hg Hrun. assert (H0 : armed false (startRun st now1 now2).1).
  { unfold startRun. pose proof (catchUp_entries now1 {| sc_st := st; sc_pq := [] |}) as He.
    destruct (catchUp _ _ _ _ now1 _) as [s evs0]. cbn [fst] in *. destruct (rebuild_covers now2 s) as (H1 & H2 & H3).
    split_and!; cbn [lp_sched lp_wake]; [|done|by right; right]. unfold Entries in *. by rewrite H1, He. }
  pose proof (lrun_armed _ _ _ _ _ Hg H0 Hrun) as (Hn & Hh & Hc). split.
  - intros Hu. rewrite Hu in Hc. split.
    + intros Hw. destruct Hc as [?|[?|?]]; [congruence..|done].
    + intros Hw now. cbn [lstep]. rewrite Hw. destruct (rebuild_covers now (lp_sched l)) as (H1 & _ & H3).
      eexists. split; [done|]. cbn [lp_wake lp_sched]. split_and!; [done| |done]. unfold Entries. by rewrite H1.
  - intros now it Hit. unfold timerFor. destruct (peek (sc_pq (lp_sched l))) as [item|] eqn:Ep.
    + eexists. split; [done|]. pose proof (heap_min _ _ _ Hh Ep Hit). unfold Sub, sat64. lia.
    + destruct (sc_pq (lp_sched l)); [by apply not_elem_of_nil in Hit|done].
Qed.
End run.

(** A schedule that could not be saved is in force but never fires: [Sync]
    returns before it signals, so the loop keeps the old queue, and with an
    empty one it waits for nothing at all. *)
Definition hourly : Document := {| doc_Version := 7; doc_Entries := [demo_entry] |}.
(** An hour later, each time. *)
Definition hourLater (_ : bytes) : option (unit -> Z -> Z) := Some (fun _ t => Z.max t 0 + Hour).
Abbreviation demo_run := (lrun tt (fun _ => Some tt) hourLater demo_sha1 (str "agent") (fun _ => [])).
Abbreviation demo_begin := (startRun tt (fun _ => Some tt) hourLater (str "agent") emptyState 0 0).1.

Theorem unsaved_schedule_never_fires :
  exists l evs, demo_run [LSync hourly 0 false] demo_begin = Some (l, evs) /\
     Entries (lp_sched l) = [demo_entry] /\ Version (lp_sched l) = 7 /\ lp_wake l = false /\
     (forall now, timerFor l now = None) /\
     forall now, demo_run [LWake now] l = None /\ demo_run [LTimer now] l = None.
Proof. eexists _, _. split; [reflexivity|]. do 4 (split; [reflexivity|]). intros now. split; reflexivity. Qed.

Lemma no_entry_is_forgotten_witness :
  exists l evs, demo_run [LSync hourly 0 false; LSync hourly 0 true; LWake 10] demo_begin = Some (l, evs) /\
     covers tt (fun _ => Some tt) hourLater (Entries (lp_sched l)) (sc_pq (lp_sched l)) /\
     Entries (lp_sched l) = [demo_entry] /\ recurring tt (fun _ => Some tt) hourLater demo_entry.
Proof.
  eexists _, _. split; [reflexivity|]. split.
  - eapply (no_entry_is_forgotten tt (fun _ => Some tt) hourLater demo_sha1 (str "agent") (fun _ => []) emptyState 0 0
      [LSync hourly 0 false; LSync hourly 0 true; LWake 10]); [apply NoDup_nil_2| |reflexivity|reflexivity|reflexivity].
    apply Forall_cons_2; [apply NoDup_singleton|]. apply Forall_cons_2; [apply NoDup_singleton|].
    apply Forall_cons_2; [exact I|apply Forall_nil_2].
  - split; [reflexivity|]. exists (fun t => Z.max t 0 + Hour). split; [reflexivity|]. intros t.
    unfold IsZero, zero_time, unixToInternal, Hour, Minute, Second. apply Z.eqb_neq. lia.
Defined.
