(* ===== verification/Consumer.v ===== *)
(** * Consumer: staying able to receive work (agent/internal/jobs)

    [Run], [Ready], [consume], [waitConsumer] and [bindConsumer] of jobs.go and
    consumer.go.  JetStream and the subscription are the environment: a round
    is how one [consume] ended and whether the agent was told to stop while it
    waited to try again. *)
From S2P Require Import Prelude GoLib GoText GoOS Wire Jobs.

Definition consumerRetry : Z := 10 * Second.
Definition StreamJobs : bytes := str "JOBS".
Definition ackWait : Z := 30 * Second.
Definition maxAckPending : Z := 16.
Definition maxDeliver : Z := 3.

Definition durableName (agentID : bytes) : bytes := str "agent-" ++ agentID.

(** ** Binding *)

Record ConsumerConfig := {
  cc_Durable : bytes;
  cc_FilterSubject : bytes;
  cc_AckExplicit : bool;
  cc_AckWait : Z;
  cc_MaxAckPending : Z;
  cc_MaxDeliver : Z;
}.

Definition ErrConsumerNotFound : error := Sentinel "nats: API error: code=404 err_code=10014 consumer not found".

Definition newConsumer (agentID : bytes) : ConsumerConfig :=
  {| cc_Durable := durableName agentID; cc_FilterSubject := JobsQueue agentID; cc_AckExplicit := true;
     cc_AckWait := ackWait; cc_MaxAckPending := maxAckPending; cc_MaxDeliver := maxDeliver |}.

(** [bindConsumer]: what the look-up says and, when there is none, what
    creating one says. *)
Definition bindConsumer (agentID : bytes) (found : res error ConsumerConfig)
    (create : ConsumerConfig -> res error unit) : res error ConsumerConfig :=
  match found with
  | Ok existing => Ok existing
  | Err e =>
      if negb (Is e ErrConsumerNotFound) then Err e
      else match create (newConsumer agentID) with
           | Err e => Err e
           | Ok _ => Ok (newConsumer agentID)
           end
  end.

(** [waitConsumer]: [true] when the agent is stopping.  When both channels are
    ready either may be taken. *)
Inductive waited : (bool * bool) -> res error unit -> Prop :=
  | waited_stop closed e : e = Sentinel "context canceled" -> waited (true, closed) (Err e)
  | waited_closed stop :
      waited (stop, true) (Err (Sentinel "job consumer was stopped by the client after a terminal pull error")).

(** [consume]: what making the context says, the binding, whether consuming
    begins, and how the wait ends. *)
Definition consume (agentID : bytes) (newContext : res error unit) (found : res error ConsumerConfig)
    (create : ConsumerConfig -> res error unit) (begin : ConsumerConfig -> res error unit) (ended : res error unit) :
    res error unit :=
  match newContext with
  | Err e => Err (Errorf "jetstream" e)
  | Ok _ =>
      match bindConsumer agentID found create with
      | Err e => Err (Errorf "bind job consumer" e)
      | Ok cfg =>
          match begin cfg with
          | Err e => Err (Errorf "consume jobs" e)
          | Ok _ => ended
          end
      end
  end.

(** A call of [consume] never ends well: it comes back because a step of it
    failed, because the agent stops, or because the client gave the consumer
    up.  In the last case, the one a healthy connection hides, it is told apart
    from a stop, so that [Run] binds again. *)
Lemma consume_only_returns_errors agentID newContext found create begin stop closed ended :
  waited (stop, closed) ended ->
  exists e, consume agentID newContext found create begin ended = Err e /\
    (newContext = Ok tt -> (exists cfg, bindConsumer agentID found create = Ok cfg /\ begin cfg = Ok tt) -> stop = false ->
     closed = true /\ e = Sentinel "job consumer was stopped by the client after a terminal pull error").
Proof.
  intros Hw. unfold consume. destruct newContext as [[]|e]; [|eexists; split; [done|by intros [=]]].
  destruct (bindConsumer _ _ _) as [cfg|e]; [|eexists; split; [done|by intros _ (? & [=] & _)]].
  destruct (begin cfg) as [[]|e] eqn:Hb; [|eexists; split; [done|intros _ (? & [= <-] & H); congruence]].
  inversion Hw; subst; eexists; (split; [done|]); done.
Qed.

(** ** Run *)

(** How one call of [consume] came back, and what happened in the wait after
    it. *)
Record round := {
  rd_Error : error;        (** [consume] only returns with an error *)
  rd_Stopped : bool;       (** [ctx.Err() != nil] when it did *)
  rd_StoppedWaiting : bool (** the context ended during [consumerRetry] *)
}.

Inductive jev : Type :=
  | JStart            (** [startJobs] *)
  | JSubscribe
  | JConsume          (** one bind and its life *)
  | JWait
  | JUnsubscribe
  | JDrain.           (** [drainJobs] *)

#[export] Instance jev_eq_dec : EqDecision jev.
Proof. solve_decision. Defined.

(** The subscription [Ready] looks at: none, or whether it is still valid. *)
Definition cmdSub : Type := option bool.

Record runState := { rs_events : list jev; rs_sub : cmdSub }.

(** The loop of [Run]; [None] while it is still running when the rounds end. *)
Fixpoint consumeLoop (rounds : list round) : option error * list jev :=
  match rounds with
  | [] => (None, [])
  | r :: rounds' =>
      if rd_Stopped r then (Some (Sentinel "context canceled"), [JConsume])
      else if rd_StoppedWaiting r then (Some (Sentinel "context canceled"), [JConsume; JWait])
      else let '(out, evs) := consumeLoop rounds' in (out, JConsume :: JWait :: evs)
  end.

(** [Run]: the deferred calls run in reverse order when it returns. *)
Definition Run (subscribe : res error unit) (rounds : list round) : option error * runState :=
  match subscribe with
  | Err e => (Some e, {| rs_events := [JStart; JDrain]; rs_sub := None |})
  | Ok _ =>
      match consumeLoop rounds with
      | (Some e, evs) =>
          (Some e, {| rs_events := [JStart; JSubscribe] ++ evs ++ [JUnsubscribe; JDrain]; rs_sub := None |})
      | (None, evs) => (None, {| rs_events := [JStart; JSubscribe] ++ evs; rs_sub := Some true |})
      end
  end.

Definition Ready (sub : cmdSub) : option error :=
  match sub with
  | None => Some (Sentinel "command handler is not subscribed")
  | Some false => Some (Sentinel "command subscription is no longer valid")
  | Some true => None
  end.

(** ** Theorems *)

Definition keeps_going (r : round) : bool := negb (rd_Stopped r || rd_StoppedWaiting r).

Lemma consumeLoop_going rounds :
  Forall (fun r => keeps_going r = true) rounds ->
  consumeLoop rounds = (None, concat (map (fun _ => [JConsume; JWait]) rounds)).
Proof.
  induction 1 as [|r rounds Hr _ IH]; [done|]. cbn [consumeLoop map concat]. unfold keeps_going in Hr.
  destruct (rd_Stopped r), (rd_StoppedWaiting r); try done. by rewrite IH.
Qed.

Lemma consumeLoop_stops before r after :
  Forall (fun r => keeps_going r = true) before -> keeps_going r = false ->
  exists last, (last = [JConsume] \/ last = [JConsume; JWait]) /\
    consumeLoop (before ++ r :: after) =
      (Some (Sentinel "context canceled"), concat (map (fun _ => [JConsume; JWait]) before) ++ last).
Proof.
  intros Hb Hr. induction Hb as [|b before Hb _ IH].
  - unfold keeps_going in Hr. cbn [app consumeLoop map concat]. destruct (rd_Stopped r); [|destruct (rd_StoppedWaiting r); [|done]].
    + exists [JConsume]. split; [by left|done].
    + exists [JConsume; JWait]. split; [by right|done].
  - destruct IH as (last & Hl & IH). exists last. split; [done|]. cbn [app consumeLoop map concat].
    unfold keeps_going in Hb. destruct (rd_Stopped b), (rd_StoppedWaiting b); try done. by rewrite IH.
Qed.

Definition binds (evs : list jev) : nat := length (filter (fun e => e = JConsume) evs).

Lemma binds_app a b : binds (a ++ b) = (binds a + binds b)%nat.
Proof. unfold binds. by rewrite filter_app, length_app. Qed.

Lemma rounds_events (rounds : list round) :
  let evs := concat (map (fun _ => [JConsume; JWait]) rounds) in
  binds evs = length rounds /\ Forall (fun e => e = JConsume \/ e = JWait) evs.
Proof.
  induction rounds as [|r rounds [IH1 IH2]]; [by split; [|constructor]|]. cbn [map concat]. split.
  - rewrite binds_app, IH1. done.
  - apply Forall_app. split; [|done]. apply Forall_cons_2; [by left|]. apply Forall_cons_2; [by right|apply Forall_nil_2].
Qed.

(** The module keeps listening until it is told to stop.  However often and
    for whatever reason the job consumer ends, it is bound again, once per
    retry, and the command subscription stays up meanwhile, so the agent is
    ready; told to stop, the module unsubscribes first, then brings the jobs to
    an end, and is no longer ready. *)
Theorem Run_rebinds_until_stopped (rounds : list round) :
  (Forall (fun r => keeps_going r = true) rounds ->
     (Run (Ok tt) rounds).1 = None /\ Ready (rs_sub (Run (Ok tt) rounds).2) = None /\
     binds (rs_events (Run (Ok tt) rounds).2) = length rounds) /\
  (forall before r after, rounds = before ++ r :: after ->
     Forall (fun r => keeps_going r = true) before -> keeps_going r = false ->
     (exists evs, rs_events (Run (Ok tt) rounds).2 = [JStart; JSubscribe] ++ evs ++ [JUnsubscribe; JDrain] /\
        JUnsubscribe ∉ evs /\ JDrain ∉ evs /\
        binds evs = S (length before)) /\
     (Run (Ok tt) rounds).1 = Some (Sentinel "context canceled") /\
     is_Some (Ready (rs_sub (Run (Ok tt) rounds).2))) /\
  (forall e, Run (Err e) rounds = (Some e, {| rs_events := [JStart; JDrain]; rs_sub := None |})).
Proof.
  split_and!.
  - intros Hg. destruct (rounds_events rounds) as [Hn _]. unfold Run. rewrite consumeLoop_going by done.
    cbn [fst snd rs_events rs_sub]. split_and!; [done|done|]. by rewrite binds_app, Hn.
  - intros before r after -> Hb Hr. destruct (consumeLoop_stops before r after Hb Hr) as (last & Hl & Hrun).
    destruct (rounds_events before) as [Hn Hev]. unfold Run. rewrite Hrun. cbn [fst snd rs_events rs_sub].
    split_and!; [|done|by eexists]. eexists. split; [done|].
    assert (Hall : Forall (fun e => e = JConsume \/ e = JWait) (concat (map (fun _ => [JConsume; JWait]) before) ++ last)).
    { apply Forall_app. split; [done|]. destruct Hl as [->| ->];
        repeat (apply Forall_cons_2; [auto|]); apply Forall_nil_2. }
    rewrite Forall_forall in Hall. split_and!.
    + intros Hx. by destruct (Hall _ Hx).
    + intros Hx. by destruct (Hall _ Hx).
    + rewrite binds_app, Hn. destruct Hl as [->| ->]; unfold binds; vm_compute (length _); lia.
  - done.
Qed.

(** A job a crashing agent never acknowledges is delivered three times at the
    most, if the consumer is one the agent made; an existing consumer is used
    as it is, and any other failure of the look-up is reported instead of
    creating one. *)
Theorem bound_consumer_is_the_servers_or_bounded agentID found create c :
  bindConsumer agentID found create = Ok c ->
  found = Ok c \/ (c = newConsumer agentID /\ cc_MaxDeliver c = 3 /\ cc_AckExplicit c = true /\
    cc_FilterSubject c = JobsQueue agentID /\ exists e, found = Err e /\ Is e ErrConsumerNotFound = true).
Proof.
  unfold bindConsumer. destruct found as [c'|e]; [intros [= <-]; by left|].
  destruct (Is e ErrConsumerNotFound) eqn:E; [|done]. cbn [negb]. destruct (create _); [|done]. intros [= <-].
  right. split_and!; try done. by exists e.
Qed.
