(* ===== verification/Hosted.v ===== *)
(** * Hosted: the agent under the other service managers (agent/internal/svc, update)

    hosted_windows.go (the service control dispatcher's handler as a state
    machine), service_windows.go (registration with the Service Control
    Manager), the status of service_darwin.go, and procwait.go with its two
    platforms.  The managers, the work and the clock are the environment. *)
From S2P Require Import Prelude GoLib GoText GoOS Render.

(** ** The Windows service handler *)

Definition startupGrace : Z := 20 * Second.
Definition stopGrace : Z := 45 * Second.
Definition checkpointEvery : Z := 5 * Second.
Definition Millisecond : Z := Second / 1000.

Inductive svcState : Type := StartPending | Running | StopPending | Stopped.

Record Status := {
  ss_State : svcState;
  ss_AcceptStop : bool;
  ss_AcceptShutdown : bool;
  ss_CheckPoint : Z;
  ss_WaitHint : Z;
}.
Definition plainStatus (s : svcState) : Status :=
  {| ss_State := s; ss_AcceptStop := false; ss_AcceptShutdown := false; ss_CheckPoint := 0; ss_WaitHint := 0 |}.

(** What the handler's selects can take. *)
Inductive hin : Type :=
  | InDone (code : Z)           (** the work returned *)
  | InInterrogate (cur : Status)
  | InStop
  | InShutdown
  | InOther                     (** any other control *)
  | InTick                      (** [checkpointEvery] passed *)
  | InDeadline.                 (** [stopGrace] passed *)

Inductive hout : Type := OutStatus (s : Status) | OutCancel.

(** In the first loop, in [awaitStop] with its next check point, or returned
    with an exit code. *)
Inductive hstate : Type := HRunning | HStopping (checkpoint : Z) | HReturned (code : Z).

(** [report] of [awaitStop] *)
Definition stopReport (checkpoint : Z) : hout :=
  OutStatus {| ss_State := StopPending; ss_AcceptStop := false; ss_AcceptShutdown := false;
               ss_CheckPoint := checkpoint; ss_WaitHint := 2 * checkpointEvery / Millisecond |}.

(** [None]: the select does not take that input in this state. *)
Definition hstep (s : hstate) (i : hin) : option (hstate * list hout) :=
  match s, i with
  | HRunning, InDone code => Some (HReturned code, [OutStatus (plainStatus Stopped)])
  | HRunning, InInterrogate cur => Some (HRunning, [OutStatus cur])
  | HRunning, (InStop | InShutdown) => Some (HStopping 2, [stopReport 1; OutCancel])
  | HRunning, InOther => Some (HRunning, [])
  | HStopping _, InDone code => Some (HReturned code, [OutStatus (plainStatus Stopped)])
  | HStopping cp, InTick => Some (HStopping (cp + 1), [stopReport cp])
  | HStopping _, InDeadline => Some (HReturned 1, [OutStatus (plainStatus Stopped)])
  | _, _ => None
  end.

Fixpoint hrun (ins : list hin) (s : hstate) : option (hstate * list hout) :=
  match ins with
  | [] => Some (s, [])
  | i :: ins' =>
      match hstep s i with
      | None => None
      | Some (s1, out) => match hrun ins' s1 with Some (s2, out') => Some (s2, out ++ out') | None => None end
      end
  end.

Definition hello : list hout :=
  [OutStatus {| ss_State := StartPending; ss_AcceptStop := false; ss_AcceptShutdown := false; ss_CheckPoint := 0;
                ss_WaitHint := startupGrace / Millisecond |};
   OutStatus {| ss_State := Running; ss_AcceptStop := true; ss_AcceptShutdown := true; ss_CheckPoint := 0; ss_WaitHint := 0 |}].

(** [handler.Execute] *)
Definition Execute (ins : list hin) : option (hstate * list hout) :=
  match hrun ins HRunning with Some (s, out) => Some (s, hello ++ out) | None => None end.

(** [RunAsService] *)
Definition RunAsService (dispatched : bool) (code : Z) : Z := if dispatched then code else 1.

(** cli's [cmdRun]: under the manager when [svc.IsService] says so, else until
    a signal; [code] is the exit code of [runAgent]. *)
Definition cmdRun (isService : res error bool) (dispatched : bool) (code : Z) : Z :=
  match isService with Ok true => RunAsService dispatched code | _ => code end.

(** *** What the manager sees *)

(** The controls that are not a question or a state of ours. *)
Definition plainInput (i : hin) : bool := match i with InInterrogate _ => false | _ => true end.

Fixpoint reports (from : Z) (n : nat) : list hout :=
  match n with O => [] | S n' => stopReport from :: reports (from + 1) n' end.

Lemma hrun_stopping ins cp s out :
  hrun ins (HStopping cp) = Some (s, out) ->
  exists n, (n <= length ins)%nat /\
    ((s = HStopping (cp + Z.of_nat n) /\ out = reports cp n) \/
     (exists code, s = HReturned code /\ out = reports cp n ++ [OutStatus (plainStatus Stopped)] /\
        (code = 1 \/ InDone code ∈ ins))).
Proof.
  revert cp s out. induction ins as [|i ins IH]; intros cp s out; cbn [hrun].
  { intros [= <- <-]. exists O. split; [done|]. left. by rewrite Z.add_0_r. }
  destruct i as [code| | | | | |]; cbn [hstep]; try done.
  - destruct ins as [|i' ins']; cbn [hrun hstep]; [|done]. intros [= <- <-]. exists O. split; [lia|].
    right. exists code. split_and!; [done|done|]. right. by left.
  - destruct (hrun ins (HStopping (cp + 1))) as [[s1 out1]|] eqn:E; [|done]. intros [= <- <-].
    destruct (IH _ _ _ E) as (n & Hn & [[-> ->]|(code & -> & -> & Hc)]); exists (S n); (split; [cbn; lia|]).
    + left. split; [f_equal; lia|done].
    + right. exists code. split_and!; [done|done|]. destruct Hc as [?|?]; [by left|right; by right].
  - destruct ins as [|i' ins']; cbn [hrun hstep]; [|done]. intros [= <- <-]. exists O. split; [lia|].
    right. exists 1. split_and!; [done|done|by left].
Qed.

(** The Service Control Manager always knows where the agent is.  Whatever
    arrives, the handler first reports that it starts and that it runs and
    takes stop and shutdown; told to stop, it reports so before it cancels the
    work, counts its check points up one by one, each with more time than the
    next one takes, and ends by reporting that it stopped, with the work's exit
    code or, past the grace, 1. *)
Theorem handler_keeps_the_manager_informed (ins : list hin) (s : hstate) (out : list hout) :
  forallb plainInput ins = true -> Execute ins = Some (s, out) ->
  exists body, out = hello ++ body /\
    match s with
    | HRunning => body = []
    | HStopping cp => exists n, cp = 2 + Z.of_nat n /\ body = stopReport 1 :: OutCancel :: reports 2 n
    | HReturned code =>
        (body = [OutStatus (plainStatus Stopped)] /\ InDone code ∈ ins) \/
        (exists n, body = stopReport 1 :: OutCancel :: reports 2 n ++ [OutStatus (plainStatus Stopped)] /\
           (code = 1 \/ InDone code ∈ ins))
    end.
Proof.
  intros Hp. unfold Execute. destruct (hrun ins HRunning) as [[s' out']|] eqn:E; [|done]. intros [= <- <-].
  exists out'. split; [done|]. revert out' E. induction ins as [|i ins IH]; intros out' E; cbn [hrun] in E.
  { by injection E as <- <-. }
  cbn [forallb] in Hp. apply andb_true_iff in Hp as [Hi Hp].
  assert (Hstop : hstep HRunning i = Some (HStopping 2, [stopReport 1; OutCancel]) ->
    match s' with
    | HRunning => out' = []
    | HStopping cp => exists n, cp = 2 + Z.of_nat n /\ out' = stopReport 1 :: OutCancel :: reports 2 n
    | HReturned code =>
        (out' = [OutStatus (plainStatus Stopped)] /\ InDone code ∈ i :: ins) \/
        (exists n, out' = stopReport 1 :: OutCancel :: reports 2 n ++ [OutStatus (plainStatus Stopped)] /\
           (code = 1 \/ InDone code ∈ i :: ins))
    end).
  { intros Hs. rewrite Hs in E. destruct (hrun ins (HStopping 2)) as [[s1 out1]|] eqn:E1; [|done].
    injection E as <- <-. destruct (hrun_stopping _ _ _ _ E1) as (n & _ & [[-> ->]|(code & -> & -> & Hc)]).
    - exists n. done.
    - right. exists n. split; [done|]. destruct Hc as [?|?]; [by left|right; by right]. }
  destruct i as [code| | | | | |]; cbn [hstep] in *; try done; try (by apply Hstop).
  - destruct ins as [|i' ins']; cbn [hrun hstep] in E; [|done]. injection E as <- <-. left. split; [done|by left].
  - destruct (hrun ins HRunning) as [[s1 out1]|] eqn:E1; [|done]. injection E as <- <-. cbn [app].
    specialize (IH Hp out1 eq_refl). destruct s1 as [|cp|code]; [done|done|].
    destruct IH as [[? ?]|(n & ? & Hc)]; [left; split; [done|by right]|right]. exists n. split; [done|].
    destruct Hc as [?|?]; [by left|right; by right].
Qed.

Lemma handler_keeps_the_manager_informed_witness :
  exists body, hello ++ [stopReport 1; OutCancel; stopReport 2; OutStatus (plainStatus Stopped)] = hello ++ body /\
    ((body = [OutStatus (plainStatus Stopped)] /\ InDone 0 ∈ [InOther; InStop; InTick; InDone 0]) \/
     (exists n, body = stopReport 1 :: OutCancel :: reports 2 n ++ [OutStatus (plainStatus Stopped)] /\
        (0 = 1 \/ InDone 0 ∈ [InOther; InStop; InTick; InDone 0]))).
Proof.
  apply (handler_keeps_the_manager_informed [InOther; InStop; InTick; InDone 0] (HReturned 0)
    (hello ++ [stopReport 1; OutCancel; stopReport 2; OutStatus (plainStatus Stopped)])); reflexivity.
Defined.

(** Each report leaves time for the next, and the handler's own end is within
    the manager's patience. *)
Theorem stop_reports_are_in_time : checkpointEvery < 2 * checkpointEvery / Millisecond * Millisecond /\ 0 < stopGrace.
Proof. split; reflexivity. Qed.

(** An agent that exits on its own, for a restart after an update, say, tells
    the manager it has stopped before the exit code that asks for the restart
    is returned: the last status it writes carries no code. *)
Theorem stopped_is_written_before_the_exit_code (code : Z) :
  Execute [InDone code] = Some (HReturned code, hello ++ [OutStatus (plainStatus Stopped)]).
Proof. reflexivity. Qed.

(** ** Registration with the Service Control Manager *)

Record scmService := {
  sm_Binary : bytes;
  sm_Automatic : bool;
  sm_Recovery : list Z;       (** delays; every action restarts the service *)
  sm_ResetPeriod : Z;
  sm_Command : bytes;
  sm_NonCrash : bool;
  sm_Running : bool;
}.

(** The manager's database and whether each call to it fails. *)
Record scm := { db_Service : option scmService; db_Faults : list bool }.

Definition scall {A} (full : option scmService -> res error A * option scmService) (d : scm) : res error A * scm :=
  match db_Faults d with
  | true :: fs => (Err ErrIO, {| db_Service := db_Service d; db_Faults := fs |})
  | false :: fs => let '(r, s) := full (db_Service d) in (r, {| db_Service := s; db_Faults := fs |})
  | [] => let '(r, s) := full (db_Service d) in (r, {| db_Service := s; db_Faults := [] |})
  end.

Definition sthen {A B} (p : scm -> res error A * scm) (k : A -> scm -> res error B * scm) (d : scm) : res error B * scm :=
  match p d with (Ok a, d') => k a d' | (Err e, d') => (Err e, d') end.
Notation "'scm*' x := p 'in' k" := (sthen p (fun x => k))
  (at level 10, x binder, p at level 100, k at level 200) : everwas_scope.

Definition recoveryResetPeriod : Z := 24 * 60 * 60.
Definition restartDelays : list Z := [5 * Second; 30 * Second; 60 * Second].

Section windows_service.
(** [windows.EscapeArg], and the command line [mgr.CreateService] stores. *)
Context (EscapeArg : bytes -> bytes) (createdPath : bytes -> list bytes -> bytes).

Definition binaryPathName (binary : bytes) (args : list bytes) : bytes :=
  fold_left (fun out a => out ++ str " " ++ EscapeArg a) args (EscapeArg binary).

Definition onService (f : scmService -> scmService) : scm -> res error unit * scm :=
  scall (fun s => match s with Some s => (Ok tt, Some (f s)) | None => (Err ErrNotExist, None) end).

(** Opening the service, then updating what is there or creating it. *)
Definition register (binary : bytes) (args : list bytes) (d : scm) : res error unit * scm :=
  match scall (fun s => (match s with Some _ => Ok tt | None => Err ErrNotExist end, s)) d with
  | (Ok _, d) =>
      (scm* _ := scall (fun s => (Ok tt, s)) in
       onService (fun s => {| sm_Binary := binaryPathName binary args; sm_Automatic := true; sm_Recovery := sm_Recovery s;
         sm_ResetPeriod := sm_ResetPeriod s; sm_Command := sm_Command s; sm_NonCrash := sm_NonCrash s;
         sm_Running := sm_Running s |})) d
  | (Err _, d) =>
      scall (fun s => match s with
                      | Some _ => (Err (Sentinel "The specified service already exists."), s)
                      | None => (Ok tt, Some {| sm_Binary := createdPath binary args; sm_Automatic := true; sm_Recovery := [];
                                                sm_ResetPeriod := 0; sm_Command := []; sm_NonCrash := false; sm_Running := false |})
                      end) d
  end.

(** [Install] for a real installation (no prefix) of a valid configuration. *)
Definition InstallWindows (binary : bytes) (args : list bytes) : scm -> res error unit * scm :=
  scm* _ := scall (fun s => (Ok tt, s)) in
  scm* _ := register binary args in
  scm* _ := onService (fun s => {| sm_Binary := sm_Binary s; sm_Automatic := sm_Automatic s; sm_Recovery := restartDelays;
    sm_ResetPeriod := recoveryResetPeriod; sm_Command := sm_Command s; sm_NonCrash := sm_NonCrash s; sm_Running := sm_Running s |}) in
  scm* _ := onService (fun s => {| sm_Binary := sm_Binary s; sm_Automatic := sm_Automatic s; sm_Recovery := sm_Recovery s;
    sm_ResetPeriod := sm_ResetPeriod s; sm_Command := []; sm_NonCrash := sm_NonCrash s; sm_Running := sm_Running s |}) in
  scm* _ := onService (fun s => {| sm_Binary := sm_Binary s; sm_Automatic := sm_Automatic s; sm_Recovery := sm_Recovery s;
    sm_ResetPeriod := sm_ResetPeriod s; sm_Command := sm_Command s; sm_NonCrash := true; sm_Running := sm_Running s |}) in
  (* already running is not an error *)
  onService (fun s => {| sm_Binary := sm_Binary s; sm_Automatic := sm_Automatic s; sm_Recovery := sm_Recovery s;
    sm_ResetPeriod := sm_ResetPeriod s; sm_Command := sm_Command s; sm_NonCrash := sm_NonCrash s; sm_Running := true |}).

(** [Uninstall]: an error from opening the service is "not installed". *)
Definition UninstallWindows (d : scm) : res error unit * scm :=
  match scall (fun s => (Ok tt, s)) d with
  | (Err e, d) => (Err (Errorf "svc: connect to service manager" e), d)
  | (Ok _, d) =>
      match scall (fun s => (match s with Some _ => Ok tt | None => Err ErrNotExist end, s)) d with
      | (Err _, d) => (Ok tt, d)
      | (Ok _, d) =>
          (scm* _ := onService (fun s => {| sm_Binary := sm_Binary s; sm_Automatic := sm_Automatic s;
             sm_Recovery := sm_Recovery s; sm_ResetPeriod := sm_ResetPeriod s; sm_Command := sm_Command s;
             sm_NonCrash := sm_NonCrash s; sm_Running := false |}) in
           scall (fun _ => (Ok tt, None))) d
      end
  end.

(** A service ready to be restarted: it starts by itself, every failure
    restarts it, also one that is not a crash, and no command is left to run. *)
Definition recoverable (binary : bytes) (args : list bytes) (s : scmService) : Prop :=
  (sm_Binary s = binaryPathName binary args \/ sm_Binary s = createdPath binary args) /\
  sm_Automatic s = true /\ sm_Recovery s = restartDelays /\ sm_Command s = [] /\ sm_NonCrash s = true /\ sm_Running s = true.

Lemma scall_cases {A} (full : option scmService -> res error A * option scmService) d :
  scall full d = (Err ErrIO, {| db_Service := db_Service d; db_Faults := (scall full d).2.(db_Faults) |}) \/
  scall full d = ((full (db_Service d)).1, {| db_Service := (full (db_Service d)).2; db_Faults := (scall full d).2.(db_Faults) |}).
Proof.
  unfold scall. destruct (db_Faults d) as [|[] fs]; [right|by left|right]; by destruct (full (db_Service d)).
Qed.

Lemma onService_Ok f d d' :
  onService f d = (Ok tt, d') -> exists s, db_Service d = Some s /\ db_Service d' = Some (f s).
Proof.
  unfold onService. intros H. match type of H with scall ?g d = _ => destruct (scall_cases g d) as [E|E] end; rewrite E in H; [done|].
  destruct (db_Service d) as [s|]; [|done]. injection H as <-. by exists s.
Qed.

Lemma register_Ok binary args d d' :
  register binary args d = (Ok tt, d') ->
  exists s, db_Service d' = Some s /\ sm_Automatic s = true /\
    (sm_Binary s = binaryPathName binary args \/ sm_Binary s = createdPath binary args).
Proof.
  unfold register. destruct (scall _ d) as [[[]|e] d1] eqn:E1.
  - unfold sthen. destruct (scall _ d1) as [[[]|e] d2] eqn:E2; [|done]. intros H.
    apply onService_Ok in H as (s & _ & ->). eexists. split; [done|]. split; [done|by left].
  - intros H. match type of H with scall ?g d1 = _ => destruct (scall_cases g d1) as [E|E] end; rewrite E in H; [done|].
    destruct (db_Service d1) as [s|]; [done|]. injection H as <-. eexists. split; [done|]. split; [done|by right].
Qed.

(** A successful installation leaves a service the manager brings back.
    Whatever was registered before and whatever calls failed and were not
    fatal, when [Install] returns no error the service is the agent, starts
    automatically, is restarted after every failure including a plain non-zero
    exit, has no recovery command, and has been started. *)
Theorem installed_service_is_restarted (binary : bytes) (args : list bytes) (d d' : scm) :
  InstallWindows binary args d = (Ok tt, d') -> exists s, db_Service d' = Some s /\ recoverable binary args s.
Proof.
  unfold InstallWindows, sthen. destruct (scall _ d) as [[[]|e] d0]; [|done].
  destruct (register binary args d0) as [[[]|e] d1] eqn:E1; [|done]. apply register_Ok in E1 as (s1 & H1 & Ha & Hb).
  destruct (onService _ d1) as [[[]|e] d2] eqn:E2; [|done]. apply onService_Ok in E2 as (s2 & H2 & H2').
  destruct (onService _ d2) as [[[]|e] d3] eqn:E3; [|done]. apply onService_Ok in E3 as (s3 & H3 & H3').
  destruct (onService _ d3) as [[[]|e] d4] eqn:E4; [|done]. apply onService_Ok in E4 as (s4 & H4 & H4').
  intros E5. apply onService_Ok in E5 as (s5 & H5 & H5'). exists (match db_Service d' with Some s => s | None => s5 end).
  rewrite H5'. split; [done|]. unfold recoverable. cbn.
  rewrite H1 in H2. injection H2 as <-. rewrite H2' in H3. injection H3 as <-. rewrite H3' in H4. injection H4 as <-.
  rewrite H4' in H5. injection H5 as <-. cbn. by split_and!.
Qed.
End windows_service.

Definition freshSCM : scm := {| db_Service := None; db_Faults := [] |}.

Lemma installed_service_is_restarted_witness :
  exists s, db_Service (InstallWindows (fun a => a) (fun b _ => b) (str "agent.exe") [str "run"] freshSCM).2 = Some s /\
    recoverable (fun a => a) (fun b _ => b) (str "agent.exe") [str "run"] s.
Proof.
  apply (installed_service_is_restarted (fun a => a) (fun b _ => b) (str "agent.exe") [str "run"] freshSCM).
  vm_compute. reflexivity.
Defined.

(** Uninstalling reports success without uninstalling when the service cannot
    be opened, for whatever reason: any error is taken for a service that is
    not there. *)
Theorem uninstall_can_leave_the_service (s : scmService) :
  UninstallWindows {| db_Service := Some s; db_Faults := [false; true] |} =
  (Ok tt, {| db_Service := Some s; db_Faults := [] |}).
Proof. reflexivity. Qed.

(** ** The status of the launchd daemon *)

Inductive daemonStatus : Type := StatusRunning | StatusStopped | StatusNotInstalled.

Fixpoint stateLine (lines : list bytes) : option bytes :=
  match lines with
  | [] => None
  | line :: lines' =>
      let line := TrimSpace line in
      if HasPrefix line (str "state = ") then Some line else stateLine lines'
  end.

(** [Status]: whether the plist is there and what [launchctl print] says. *)
Definition StatusDarwin (plist : bool) (printed : res error bytes) : daemonStatus :=
  if negb plist then StatusNotInstalled
  else match printed with
       | Err _ => StatusStopped
       | Ok out =>
           match stateLine (Split nl out) with
           | Some line => if Contains line (str "running") then StatusRunning else StatusStopped
           | None => if Contains out (str "pid = ") then StatusRunning else StatusStopped
           end
       end.

(** A daemon that launchd says is not running is reported as running. *)
Theorem not_running_is_reported_as_running :
  StatusDarwin true (Ok (str "system/com.everwas.agent = {" ++ [nl; chr 9] ++ str "state = not running" ++ [nl] ++ str "}")) =
  StatusRunning.
Proof. vm_compute. reflexivity. Qed.

(** ** Waiting for a process to exit *)

Definition procPollInterval : Z := Second / 4.
Definition ErrStillRunning : error := Sentinel "update: process is still running".

Inductive killReply : Type := KillOk | KillEPERM | KillOther.
Definition ProcessExitedUnix (pid : Z) (kill : killReply) : bool :=
  if pid <=? 0 then true else match kill with KillOk => false | KillEPERM => false | KillOther => true end.

Definition stillActive : Z := 259.
Definition ProcessExitedWindows (pid : Z) (opened : bool) (exitCode : res error Z) : bool :=
  if pid <=? 0 then true
  else if negb opened then true
  else match exitCode with Err _ => true | Ok code => negb (code =? stillActive) end.

(** One turn of [WaitForExit]: whether the process was gone, the time read
    after that, and whether the context ended in the wait. *)
Record poll := { po_Exited : bool; po_Now : Z; po_Cancelled : bool }.

Fixpoint WaitForExit (polls : list poll) (deadline : Z) : option (res error unit) :=
  match polls with
  | [] => None
  | p :: polls' =>
      if po_Exited p then Some (Ok tt)
      else if After (po_Now p) deadline then Some (Err (Errorf "update" ErrStillRunning))
      else if po_Cancelled p then Some (Err (Sentinel "context canceled"))
      else WaitForExit polls' deadline
  end.

(** The wait ends, and says why.  Once a reading of the clock is past the
    deadline it has returned; it returns success only having seen the process
    gone, and the timeout only past the deadline with the process still there. *)
Theorem WaitForExit_ends (polls : list poll) (deadline : Z) :
  (Exists (fun p => deadline < po_Now p) polls -> is_Some (WaitForExit polls deadline)) /\
  (WaitForExit polls deadline = Some (Ok tt) -> Exists (fun p => po_Exited p = true) polls) /\
  (WaitForExit polls deadline = Some (Err (Errorf "update" ErrStillRunning)) ->
     exists before p after, polls = before ++ p :: after /\ deadline < po_Now p /\
       Forall (fun p => po_Exited p = false) (before ++ [p])).
Proof.
  induction polls as [|p polls (IH1 & IH2 & IH3)]; cbn [WaitForExit].
  { split_and!; [intros H; inversion H|done|done]. }
  unfold After. destruct (po_Exited p) eqn:Ee; [split_and!; [by eexists|by left|done]|].
  destruct (Z.ltb_spec deadline (po_Now p)) as [Hd|Hd].
  { split_and!; [by eexists|done|]. intros _. exists [], p, polls. split_and!; [done|done|].
    apply Forall_cons_2; [done|apply Forall_nil_2]. }
  destruct (po_Cancelled p); [split_and!; [by eexists|done|done]|]. split_and!.
  - intros [H|H]%Exists_cons; [lia|auto].
  - intros H. right. auto.
  - intros H. destruct (IH3 H) as (before & q & after & -> & Hq & Hf). exists (p :: before), q, after.
    split_and!; [done|done|]. cbn [app]. by apply Forall_cons_2.
Qed.

(** A process the agent may not look at is running on Unix and gone on
    Windows. *)
Theorem protected_process_counts_as_gone_on_windows :
  ProcessExitedUnix 42 KillEPERM = false /\ ProcessExitedWindows 42 false (Ok stillActive) = true.
Proof. split; reflexivity. Qed.
