(* ===== verification/Warn.v ===== *)
(** * Warn: telling people (agent/internal/cli, notify, audit)

    warnuser.go and notify_linux.go: the warning about an expiring certificate,
    how often it is given and through what; supplicant.go: the command that
    writes an 802.1X profile; audit.go: the event an operation leaves.  What the
    desktop, the disk and the connection answer are arguments. *)
From S2P Require Import Prelude GoLib GoText GoOS Wire Netcert Beacon Identity Render Install.
From Stdlib Require Import Floats.SpecFloat.
#[local] Open Scope Z_scope.

(** ** The warning *)

Definition tellUserEvery : Z := 24 * Hour.

(** [d.Hours()] *)
Definition Hours (d : Z) : spec_float :=
  fadd (f64 (Z.quot d Hour) 0) (fdiv (f64 (Z.rem d Hour) 0) (f64 Hour 0)).

(** [int(math.Floor(d.Hours() / 24))] for a positive [d]; any other is today. *)
Definition wholeDays (d : Z) : Z := truncFloat (fdiv (Hours d) (f64 24 0)).

Definition humanDeadline (d : Z) : bytes :=
  let days := wholeDays d in
  if d <=? 0 then str "today"
  else if days =? 0 then str "today"
  else if days =? 1 then str "tomorrow"
  else str "in " ++ Itoa days ++ str " days".

Definition certificateWarning (phase : Phase) (expires now : Z) : bytes * bytes :=
  match phase with
  | PhaseExpired =>
      (str "Network access needs attention",
       str "This computer's network certificate has expired, so it may lose access to the company network. Connect it to the office network or the VPN and leave it on for a few minutes so it can renew itself.")
  | _ =>
      let left := humanDeadline (Sub expires now) in
      (str "Network access expires " ++ left,
       str "This computer's network certificate expires " ++ left ++
       str " and it has not been able to renew. Connect it to the office network or the VPN and leave it on for a few minutes. If it expires, this computer may lose network access.")
  end.

(** One call of the callback: the time it reads, whether the stamp could be
    written, and, when it could, whether its times could be set. *)
Record warnCall := { wc_Now : Z; wc_Written : bool; wc_Stamped : bool }.

(** The stamp's modification time, when there is a stamp; [true] when the user
    was notified.  Writing the file moves its time too. *)
Definition warnUser (stamp : option Z) (c : warnCall) : bool * option Z :=
  let recent := match stamp with Some t => Sub (wc_Now c) t <? tellUserEvery | None => false end in
  if recent then (false, stamp)
  else (true, if wc_Written c then Some (wc_Now c) else stamp).

Fixpoint warnAll (stamp : option Z) (cs : list warnCall) : list Z :=
  match cs with
  | [] => []
  | c :: cs' =>
      let '(told, stamp) := warnUser stamp c in
      (if told then [wc_Now c] else []) ++ warnAll stamp cs'
  end.

(** Consecutive warnings, starting from one already given, are a day apart. *)
Fixpoint spaced (last : option Z) (times : list Z) : Prop :=
  match times with
  | [] => True
  | t :: times' => match last with Some l => l + tellUserEvery <= t | None => True end /\ spaced (Some t) times'
  end.

Definition sensible (c : warnCall) : Prop := wc_Written c = true /\ - 2 ^ 62 <= wc_Now c < 2 ^ 62.

(** The person at the machine is interrupted at most once a day.  However often
    the callback runs, and through any number of restarts of the agent, two
    warnings are at least a day apart, as long as the stamp can be written. *)
Theorem one_warning_a_day (cs : list warnCall) (stamp : option Z) :
  Forall sensible cs -> (forall t, stamp = Some t -> - 2 ^ 62 <= t < 2 ^ 62) ->
  spaced stamp (warnAll stamp cs).
Proof.
  intros Hcs. revert stamp. induction Hcs as [|c cs [Hw Hc] _ IH]; intros stamp Hs; cbn [warnAll]; [done|].
  unfold warnUser. rewrite Hw.
  destruct (match stamp with Some t => Sub (wc_Now c) t <? tellUserEvery | None => false end) eqn:Er; [by apply IH|].
  cbn [app spaced]. split.
  - destruct stamp as [t|]; [|done]. apply Z.ltb_ge in Er. specialize (Hs t eq_refl). unfold Sub in Er.
    rewrite sat64_id in Er by (unfold in_int64, min_int64, max_int64 in *; lia). lia.
  - apply IH. intros t [= <-]. done.
Qed.

Lemma one_warning_a_day_witness :
  spaced None (warnAll None [{| wc_Now := 0; wc_Written := true; wc_Stamped := true |};
                             {| wc_Now := Hour; wc_Written := true; wc_Stamped := true |};
                             {| wc_Now := 25 * Hour; wc_Written := true; wc_Stamped := true |}]) /\
  warnAll None [{| wc_Now := 0; wc_Written := true; wc_Stamped := true |};
                {| wc_Now := Hour; wc_Written := true; wc_Stamped := true |};
                {| wc_Now := 25 * Hour; wc_Written := true; wc_Stamped := true |}] = [0; 25 * Hour].
Proof.
  split; [|vm_compute; reflexivity]. apply (one_warning_a_day _ None); [|done].
  repeat (apply Forall_cons_2; [split; [reflexivity|vm_compute; split; (discriminate || reflexivity)]|]). apply Forall_nil_2.
Defined.

(** The wording: less than a day away is "today" even when it is tomorrow, and
    "tomorrow" reaches into the day after. *)
Theorem deadline_wording :
  humanDeadline (23 * Hour + 47 * Minute) = str "today" /\
  humanDeadline (24 * Hour) = str "tomorrow" /\ humanDeadline (48 * Hour - Minute) = str "tomorrow" /\
  humanDeadline (48 * Hour) = str "in 2 days" /\ humanDeadline (- Hour) = str "today".
Proof. split_and!; vm_compute; reflexivity. Qed.

(** ** Notifying (Linux) *)

Definition ErrNoOneToTell : error := Sentinel "notify: nobody to notify on this machine".

(** [graphicalSessions]: the directory names under /run/user that have a bus. *)
Definition graphicalSession (name : bytes) : option Z :=
  match Atoi name with Some uid => if uid <? 1000 then None else Some uid | None => None end.
Definition graphicalSessions (names : res error (list bytes)) : list Z :=
  match names with Err _ => [] | Ok l => omap graphicalSession l end.

(** [wall]: whether it is installed, and its two attempts. *)
Definition wall (installed : bool) (quiet plain : res error unit) : option error :=
  if negb installed then Some ErrNoOneToTell
  else match quiet with
       | Ok _ => None
       | Err e => match plain with Ok _ => None | Err _ => Some e end
       end.

Definition notifyLocal (sessions : list Z) (notifySend : Z -> res error unit) (broadcast : option error) :
    option error * bool :=
  let notified := length (filter (fun uid => is_ok (notifySend uid) = true) sessions) in
  if (0 <? notified)%nat then (None, false) else (broadcast, true).

(** Somebody is told, once, or the caller learns that nobody was.  A terminal
    broadcast goes out exactly when no desktop took the message, and an error
    comes back exactly when that failed too. *)
Theorem notify_tells_someone_or_says_so sessions notifySend broadcast :
  let '(err, walled) := notifyLocal sessions notifySend broadcast in
  (walled = false <-> exists uid, uid ∈ sessions /\ is_ok (notifySend uid) = true) /\
  (err = None <-> walled = false \/ broadcast = None).
Proof.
  unfold notifyLocal. destruct (filter (fun uid => is_ok (notifySend uid) = true) sessions) as [|u l] eqn:E.
  - cbn [length Nat.ltb Nat.leb]. split.
    + split; [done|]. intros (uid & Hin & Hok).
      assert (Hx : uid ∈ filter (fun uid => is_ok (notifySend uid) = true) sessions) by by apply list_elem_of_filter.
      rewrite E in Hx. by apply not_elem_of_nil in Hx.
    + split; [by right|]. by intros [?|?].
  - cbn [length Nat.ltb Nat.leb]. split.
    + split; [|done]. intros _. exists u.
      assert (Hx : u ∈ filter (fun uid => is_ok (notifySend uid) = true) sessions) by (rewrite E; by left).
      by apply list_elem_of_filter in Hx as [? ?].
    + split; [by left|done].
Qed.

(** ** The supplicant-profile command *)

Section supplicant.
Context (goos : bytes).

Definition applySteps (path : bytes) : list bytes :=
  if negb (bool_decide (goos = str "windows"))
  then [str "wpa_supplicant -c " ++ path ++ str " -i <interface> -D wired"]
  else [str "Start-Service dot3svc";
        str "netsh lan add profile filename=" ++ [chr 34] ++ path ++ [chr 34] ++ str " interface=" ++ [chr 34] ++ str "Ethernet" ++ [chr 34];
        [];
        str "The certificate itself is already in LocalMachine\My, put there by the";
        str "agent when it was issued. Get-ChildItem Cert:\LocalMachine\My should";
        str "show it with HasPrivateKey True; if it does not, the supplicant has no";
        str "credential to present and the profile will not help."].

(** [CmdSupplicantProfile] with its flags parsed: its exit code, with the
    configuration, the state directory and [netcert.Presence] as they answer. *)
Definition CmdSupplicantProfile (wide : bytes -> bytes) (ssid out : bytes) (cfg : res error Config)
    (stateDir : res error bytes) (Presence : bytes -> bytes -> res error bytes) : io Z :=
  match cfg with
  | Err _ => ret 1
  | Ok cfg =>
      if negb (Enrolled (Some cfg)) then ret 1
      else match stateDir with
      | Err _ => ret 1
      | Ok stateDir =>
          let certDir := Join stateDir (str "netcert") in
          match Presence certDir (AgentID cfg) with
          | Err _ => ret 1
          | Ok issuerPin =>
              let dir := if bool_decide (out = []) then stateDir else out in
              let* r := WriteProfile wide goos dir
                {| pf_Identity := AgentID cfg; pf_CertDir := certDir; pf_SSID := ssid;
                   pf_ClientIssuerThumbprint := issuerPin |} in
              ret (match r with Err _ => 1 | Ok _ => 0 end)
          end
      end
  end.

(** A profile is written only for a credential the device holds.  The command
    succeeds only for an enrolled device whose certificate is present where its
    supplicant looks, and then the file holds the profile rendered for that
    device id and that issuer; without a certificate nothing on disk changes. *)
Theorem profile_is_for_a_held_certificate wide ssid out cfg stateDir Presence (w : world) :
  wp (CmdSupplicantProfile wide ssid out cfg stateDir Presence)
    (fun code w' =>
       (code = 0 -> exists c sd pin name content f,
          cfg = Ok c /\ Enrolled (Some c) = true /\ stateDir = Ok sd /\ Presence (Join sd (str "netcert")) (AgentID c) = Ok pin /\
          renderFor wide goos {| pf_Identity := AgentID c; pf_CertDir := Join sd (str "netcert"); pf_SSID := ssid;
            pf_ClientIssuerThumbprint := pin |} = Ok (name, content) /\
          files w' !! Join (if bool_decide (out = []) then sd else out) name = Some f /\ f_data f = content) /\
       ((forall d a, is_ok (Presence d a) = false) -> files w' = files w /\ code = 1))
    (fun _ => True) w.
Proof.
  unfold CmdSupplicantProfile. destruct cfg as [c|e]; [|by apply wp_ret].
  destruct (Enrolled (Some c)) eqn:Een; cbn [negb]; [|by apply wp_ret]. destruct stateDir as [sd|e]; [|by apply wp_ret].
  destruct (Presence (Join sd (str "netcert")) (AgentID c)) as [pin|e] eqn:Ep; [|by apply wp_ret].
  assert (Hno : ~ forall d a, is_ok (Presence d a) = false).
  { intros H. specialize (H (Join sd (str "netcert")) (AgentID c)). by rewrite Ep in H. }
  apply wp_bind. unfold WriteProfile. destruct (renderFor wide goos _) as [[name content]|e] eqn:Er.
  2: { apply wp_ret, wp_ret. split; [done|]. intros H. by destruct Hno. }
  apply wp_try. apply wp_secureMkdirAll. intros [[]|e] d0 fs _; (split; [|done]).
  2: { apply wp_ret. split; [done|]. intros H. by destruct Hno. }
  apply wp_try. apply wp_WriteRename.
  - intros d fs' f _ Hf Hd. apply wp_ret, wp_ret. split; [|intros H; by destruct Hno]. intros _.
    exists c, sd, pin, name, content, f. by split_and!.
  - intros d fs' e _. split; [|done]. apply wp_ret. split; [done|]. intros H. by destruct Hno.
Qed.
End supplicant.

(** ** Audit events *)

Record auditRecord := { ar_Event : bytes; ar_At : Z; ar_Detail : list (bytes * bytes) }.

(** [Emit]: the message published, if any; nothing comes back to the caller.
    [encode] is the record's JSON, and whether the connection takes it. *)
Definition Emit (live : bool) (agentID msgID : bytes) (encode : auditRecord -> option bytes) (accepts : bool)
    (event : bytes) (detail : option (list (bytes * bytes))) (now : Z) : option (bytes * Envelope) :=
  if negb live then None
  else
    let record := {| ar_Event := event; ar_At := now; ar_Detail := default [] detail |} in
    match NewEnvelope (str "event") agentID msgID (encode record) now with
    | None => None
    | Some env => if accepts then Some (Events agentID, env) else None
    end.
