(* ===== verification/Services.v ===== *)
(** * Services: removing the agent, launchd, and the state of a service

    [CmdUninstall], [removeTree] and [requireAdmin] of cli/install.go,
    [DefaultInstallPath] of svc/service.go, installation and removal with
    launchd (svc/service_darwin.go), and what the three platforms say about the
    service (svc/service_linux.go, service_windows.go).  [filepath.Clean] is
    the one of the Unix builds.  As in [Install], the disk can fail or die at
    any call, and what launchctl and systemctl answer are arguments. *)
From S2P Require Import Prelude GoLib GoText GoOS Swap Identity Render Install Runner.

(** ** filepath.Clean *)

Definition slash : ascii := "/"%char.

(** One element of the path, on a stack that holds the last element first. *)
Definition cleanPush (rooted : bool) (stack : list bytes) (e : bytes) : list bytes :=
  if bool_decide (e = []) || bool_decide (e = str ".") then stack
  else if bool_decide (e = str "..") then
    match stack with
    | [] => if rooted then [] else [e]
    | top :: rest => if bool_decide (top = str "..") then e :: stack else rest
    end
  else e :: stack.

Definition Clean (p : bytes) : bytes :=
  match p with
  | [] => str "."
  | c :: _ =>
      let rooted := bool_decide (c = slash) in
      let elems := rev (fold_left (cleanPush rooted) (Split slash p) []) in
      if rooted then slash :: JoinStr [slash] elems
      else match elems with [] => str "." | _ => JoinStr [slash] elems end
  end.

(** ** The removal of a tree *)

Definition inTree (p q : path) : bool := bool_decide (q = p) || below p q.

Definition treeAt (p : path) (d : disk) : list path := List.filter (inTree p) (map fst (map_to_list d)).

(** [os.Stat] of a file or a directory.  A directory is there when a file is
    below it; an empty one counts as absent, and removing it changes no
    file. *)
Definition StatTree (p : path) : io (res error unit) :=
  syscall (fun d => (match treeAt p d with [] => Err ErrNotExist | _ => Ok tt end, d)) atomic.

(** [os.RemoveAll]; interrupted or failing, it has removed some of the files. *)
Definition RemoveAllAt (p : path) : io (res error unit) :=
  syscall (fun d => (Ok tt, foldr delete d (treeAt p d))) (fun k d => foldr delete d (take k (treeAt p d))).

(** As the Unix builds have it: there [filepath.VolumeName] is empty, so the
    refusal of a volume's root never applies. *)
Definition removeTree (dir : bytes) : io (res error unit) :=
  let clean := Clean (TrimSpace dir) in
  if bool_decide (clean = []) || bool_decide (clean = str ".") || bool_decide (clean = [slash])
  then ret (Err (Sentinel "refusing to delete"))
  else if negb (Contains (ToLower clean) (str "everwas"))
  then ret (Err (Sentinel "refusing to delete: it does not look like an everwas state directory"))
  else
    let* r := StatTree clean in
    match r with
    | Err e => if IsNotExist e then ret (Ok tt) else RemoveAllAt clean
    | Ok _ => RemoveAllAt clean
    end.

(** ** CmdUninstall *)

Definition requireAdmin (e : hostEnv) : option error :=
  match goos e with
  | windows => None
  | _ => if euid e =? 0 then None else Some (Sentinel "must run as root (try sudo)")
  end.

Definition DefaultInstallPath (os : GOOS) : path :=
  match os with
  | linux => str "/usr/local/bin/everwas-agent"
  | darwin => str "/Library/Everwas/Agent/everwas-agent"
  | windows => str "C:\Program Files\Everwas\Agent\everwas-agent.exe"
  | otherOS => []
  end.

(** [purge] is what the flags parse to, [None] when they do not; [service] is
    [svc.Uninstall]. *)
Definition CmdUninstall (e : hostEnv) (purge : option bool) (service : io (res error unit)) : io Z :=
  match purge with
  | None => ret 2
  | Some purge =>
      match requireAdmin e with
      | Some _ => ret 1
      | None =>
          let* r := service in
          match r with
          | Err _ => ret 1
          | Ok _ =>
              if negb purge then ret 0
              else match Dir e with
                   | Err _ => ret 1
                   | Ok stateDir =>
                       let* r := removeTree stateDir in
                       match r with
                       | Err _ => ret 1
                       | Ok _ =>
                           let p := DefaultInstallPath (goos e) in
                           if bool_decide (p = []) then ret 0
                           else let* _ := ignore (Remove p) in ret 0
                       end
                   end
          end
      end
  end.

(** ** launchd *)

Definition PlistPath (prefix : bytes) : path :=
  prefix ++ str "/Library/LaunchDaemons/" ++ LaunchdLabel ++ str ".plist".
Definition GuardPathDarwin (prefix : bytes) : path := prefix ++ DarwinGuardPath.
Definition serviceTarget : bytes := str "system/" ++ LaunchdLabel.

Section darwin.
Context (guardScript : bytes) (env : bytes -> bytes) (launchctl : list bytes -> option error).

(** The calls after the two files are written; the first is best effort. *)
Definition bootstrap (plist : path) : res error unit :=
  match launchctl [str "bootstrap"; str "system"; plist] with
  | Some e =>
      match launchctl [str "load"; str "-w"; plist] with
      | Some _ => Err (Errorf "load -w fallback" e)
      | None => Ok tt
      end
  | None => match launchctl [str "kickstart"; str "-k"; serviceTarget] with Some e => Err e | None => Ok tt end
  end.

Definition InstallDarwin (c : InstallConfig) : io (res error unit) :=
  let c' := normalized env c in
  match validateInstall c' with
  | Some e => ret (Err e)
  | None =>
      try* _ := MkdirAll (ic_Prefix c' ++ MacLogDir) orelse Errorf "svc: create log dir" in
      try* _ := writeFileAtomic (GuardPathDarwin (ic_Prefix c')) guardScript 493 orelse Errorf "svc: write" in
      try* _ := writeFileAtomic (PlistPath (ic_Prefix c')) (RenderLaunchdPlist env c') 420 orelse Errorf "svc: write" in
      ret (if negb (bool_decide (ic_Prefix c' = [])) then Ok tt else bootstrap (PlistPath (ic_Prefix c')))
  end.

Definition removeGuardDarwin (prefix : bytes) : io (res error unit) :=
  let* r := Remove (GuardPathDarwin prefix) in
  ret (match r with Err e => if IsNotExist e then Ok tt else Err e | Ok _ => Ok tt end).

(** [Uninstall]; its calls of launchctl are best effort. *)
Definition UninstallDarwin : io (res error unit) :=
  let prefix := env (str "EVERWAS_SERVICE_PREFIX") in
  let rest := try* _ := removeGuardDarwin prefix orelse Errorf "svc: remove" in ret (Ok tt) in
  let* r := Remove (PlistPath prefix) in
  match r with
  | Err e => if IsNotExist e then rest else ret (Err (Errorf "svc: remove" e))
  | Ok _ => rest
  end.
End darwin.

(** ** What is said of the service *)

Definition StatusRunning : bytes := str "running".
Definition StatusStopped : bytes := str "stopped".
Definition StatusNotInstalled : bytes := str "not installed".
Definition StatusUnknown : bytes := str "unknown".

(** Linux: whether the unit is there, and the output and the error of
    [systemctl is-active]. *)
Definition StatusLinux (unit : bool) (out : bytes) (err : option error) : bytes * option error :=
  if negb unit then (StatusNotInstalled, None)
  else
    let state := TrimSpace out in
    if bool_decide (state ∈ [str "active"; str "activating"; str "reloading"]) then (StatusRunning, None)
    else if bool_decide (state ∈ [str "inactive"; str "failed"; str "deactivating"]) then (StatusStopped, None)
    else if bool_decide (state = []) then (StatusUnknown, err)
    else (state, None).

(** Windows: the states of the manager, and the service as the calls see it:
    whether the manager answers, the service opens, and what each query of its
    state gives. *)
Inductive scmState : Type :=
  | SvcRunning | SvcStartPending | SvcContinuePending
  | SvcStopped | SvcStopPending | SvcPaused | SvcPausePending | SvcOther.
#[export] Instance scmState_eq_dec : EqDecision scmState.
Proof. solve_decision. Defined.

Definition StatusWindows (connect opened : res error unit) (query : res error scmState) : bytes * option error :=
  match connect with
  | Err e => (StatusUnknown, Some (Errorf "svc: connect to service manager" e))
  | Ok _ =>
      match opened with
      | Err _ => (StatusNotInstalled, None)
      | Ok _ =>
          match query with
          | Err e => (StatusUnknown, Some (Errorf "svc: query service" e))
          | Ok (SvcRunning | SvcStartPending | SvcContinuePending) => (StatusRunning, None)
          | Ok (SvcStopped | SvcStopPending | SvcPaused | SvcPausePending) => (StatusStopped, None)
          | Ok SvcOther => (StatusUnknown, None)
          end
      end
  end.

Definition ErrNotInstalled : error := Sentinel "svc: service is not installed".

Definition control (connect opened : res error unit) (fn : res error unit) : res error unit :=
  match connect with
  | Err e => Err (Errorf "svc: connect to service manager" e)
  | Ok _ => match opened with Err _ => Err ErrNotInstalled | Ok _ => fn end
  end.

Definition ERROR_SERVICE_NOT_ACTIVE : error := Sentinel "The service has not been started.".

(** [waitForStop]: each query is made at a time that must be before the
    deadline; the answer is the number of queries made, and [None] that the
    ones given do not suffice. *)
Fixpoint waitForStop (queries : list (Z * res error scmState)) (deadline : Z) : option nat :=
  match queries with
  | [] => None
  | (now, q) :: queries' =>
      if negb (now <? deadline) then Some 0%nat
      else match q with
           | Err _ | Ok SvcStopped => Some 1%nat
           | Ok _ => option_map S (waitForStop queries' deadline)
           end
  end.

Definition stopGraceWindows : Z := 30 * Second.

(** [None] when the queries given do not suffice for the wait to end. *)
Definition StopWindows (connect opened controlled : res error unit) (queries : list (Z * res error scmState)) (deadline : Z) :
    option (res error unit) :=
  match control connect opened
    (match controlled with
     | Err e => if Is e ERROR_SERVICE_NOT_ACTIVE then Ok tt else Err e
     | Ok _ => Ok tt
     end)
  with
  | Err e => Some (Err e)
  | Ok _ => match waitForStop queries deadline with Some _ => Some (Ok tt) | None => None end
  end.

Definition RestartWindows (stop : option (res error unit)) (start : res error unit) : option (res error unit) :=
  match stop with Some (Ok _) => Some start | s => s end.

(** ** Lemmas *)

(** *** Clean *)

(** An element of a cleaned path. *)
Definition cleanElem (rooted : bool) (e : bytes) : Prop :=
  slash ∉ e /\ e ≠ [] /\ e ≠ str "." /\ (rooted = true -> e ≠ str "..").

Lemma cleanPush_ok rooted stack e :
  slash ∉ e -> Forall (cleanElem rooted) stack -> Forall (cleanElem rooted) (cleanPush rooted stack e).
Proof.
  intros He Hs. unfold cleanPush. case_bool_decide as H1; [done|]. case_bool_decide as H2; [done|]. cbn [orb].
  case_bool_decide as H3.
  - subst e. destruct stack as [|top rest].
    + destruct rooted; [constructor|]. constructor; [|constructor]. by split_and!.
    + case_bool_decide as H4; [|by inversion Hs]. constructor; [|done]. inversion Hs as [|? ? (_ & _ & _ & Htop) _]; subst.
      by split_and!.
  - by constructor.
Qed.

Lemma cleaned rooted es stack :
  Forall (fun e => slash ∉ e) es -> Forall (cleanElem rooted) stack ->
  Forall (cleanElem rooted) (fold_left (cleanPush rooted) es stack).
Proof.
  intros Hes. revert stack. induction Hes as [|e es He _ IH]; intros stack Hs; [done|]. apply IH. by apply cleanPush_ok.
Qed.

(** A cleaned absolute path is the root followed by elements that lead
    downwards. *)
Lemma Clean_rooted (p : bytes) :
  exists es, Forall (cleanElem true) es /\ Clean (slash :: p) = slash :: JoinStr [slash] es.
Proof.
  eexists. split; [|cbn [Clean]; rewrite bool_decide_eq_true_2 by done; reflexivity].
  apply Forall_rev, cleaned; [apply Split_pieces|constructor].
Qed.

(** *** Programs that only remove *)

Definition removesOnly (S : path -> Prop) (d d' : disk) : Prop :=
  forall q, d' !! q = d !! q \/ (d' !! q = None /\ S q).

Lemma removesOnly_refl S d : removesOnly S d d.
Proof. intros q. by left. Qed.

Lemma removesOnly_trans S d1 d2 d3 : removesOnly S d1 d2 -> removesOnly S d2 d3 -> removesOnly S d1 d3.
Proof. intros H12 H23 q. destruct (H12 q) as [?|[? ?]], (H23 q) as [?|[? ?]]; intuition congruence. Qed.

Definition removes {A} (S : path -> Prop) (m : io A) : Prop :=
  forall w, wp m (fun _ w' => removesOnly S (files w) (files w')) (removesOnly S (files w)) w.

Section removes.
Context (S : path -> Prop).

Lemma removes_ret {A} (a : A) : removes S (ret a).
Proof. intros w. apply wp_ret, removesOnly_refl. Qed.

Lemma removes_bind {A B} (m : io A) (k : A -> io B) :
  removes S m -> (forall a, removes S (k a)) -> removes S (let* x := m in k x).
Proof.
  intros Hm Hk w. apply wp_bind. eapply wp_mono; [apply Hm| |done].
  intros a w1 H1. eapply wp_mono; [apply Hk|intros b w2 H2|intros d H2]; by eapply removesOnly_trans; [apply H1|].
Qed.



Lemma removes_ignore {A} (m : io (res error A)) : removes S m -> removes S (ignore m).
Proof. intros Hm. apply removes_bind; [done|]. intros _. apply removes_ret. Qed.

End removes.




(** ** Theorems *)






(** *** A host with its state directory elsewhere *)

Definition hostAt (stateDir : bytes) : hostEnv :=
  {| goos := linux; stateDirVar := stateDir; euid := 0; userHome := Ok (str "/root") |}.
Definition twoDirs : disk :=
  {[ str "/srv/everwas/agent.json" := File (str "{}") true 384; str "/srv/everwas /agent.json" := File (str "{}") true 384 ]}.
Definition purgeOf (stateDir : bytes) : outcome Z * world :=
  CmdUninstall (hostAt stateDir) (Some true) (Uninstall (fun _ => []) (fun _ => None)) (World twoDirs 0 [] []).


(** A purge of a state directory whose name ends in a blank deletes the
    directory of the trimmed name, which is not the agent's, leaves the real
    one with the credential in it, and reports success. *)
Theorem purge_of_a_blank_ended_directory_takes_another :
  Dir (hostAt (str "/srv/everwas ")) = Ok (str "/srv/everwas ") /\
  (purgeOf (str "/srv/everwas ")).1 = Ret 0 /\
  files (purgeOf (str "/srv/everwas ")).2 !! str "/srv/everwas/agent.json" = None /\
  files (purgeOf (str "/srv/everwas ")).2 !! str "/srv/everwas /agent.json" ≠ None.
Proof. split_and!; vm_compute; (reflexivity || discriminate). Qed.

Lemma plist_guard_apart prefix : apart (PlistPath prefix) (GuardPathDarwin prefix).
Proof.
  apply prefixed_apart. split_and!; intros Heq; rewrite ?elem_of_cons, ?elem_of_nil in Heq; [destruct Heq as [Heq|[Heq|[]]]..| |];
    discriminate Heq.
Qed.

(** The daemon's property list, too, never names a guard that is not there:
    not during an installation or a removal, whatever fails and wherever the
    process is killed; and an installation that succeeds has written both files and
    is known to launchd (or was a relocated one, which must not speak to it). *)
Theorem plist_never_without_its_guard (guardScript : bytes) (env : bytes -> bytes) (launchctl : list bytes -> option error)
    (c : InstallConfig) (w : world) :
  let prefix := ic_Prefix (normalized env c) in
  let prefix' := env (str "EVERWAS_SERVICE_PREFIX") in
  let guarded' p := guardedAt (PlistPath p) (GuardPathDarwin p) in
  guarded' prefix (files w) -> guarded' prefix' (files w) ->
  wp (InstallDarwin guardScript env launchctl c)
    (fun r w' => guarded' prefix (files w') /\
       (r = Ok tt ->
          (exists g p, files w' !! GuardPathDarwin prefix = Some g /\ f_data g = guardScript /\
             files w' !! PlistPath prefix = Some p /\ f_data p = RenderLaunchdPlist env (normalized env c)) /\
          (prefix = [] -> launchctl [str "bootstrap"; str "system"; PlistPath prefix] = None \/
             launchctl [str "load"; str "-w"; PlistPath prefix] = None)))
    (guarded' prefix) w /\
  wp (UninstallDarwin env) (fun _ w' => guarded' prefix' (files w')) (guarded' prefix') w.
Proof.
  intros prefix prefix' guarded' Hg Hg'. split.
  - unfold InstallDarwin. fold prefix. destruct (validateInstall _); [by wp_step|]. wp_step. wp_step; [|done|done].
    apply wp_guard_then_unit; [apply plist_guard_apart|done| |by intros; split].
    intros w' Hgd Hall. wp_step. split; [done|]. intros Hr. split; [done|]. intros Hp.
    rewrite Hp in *. rewrite bool_decide_eq_true_2 in Hr by done. cbn [negb] in Hr. unfold bootstrap in Hr.
    repeat case_match; simplify_eq; auto.
  - unfold UninstallDarwin. fold prefix'. cbv zeta. apply (wp_unit_first _ _ (Errorf "svc: remove")); [exact Hg'| |done].
    intros w' Hn. wp_step. unfold removeGuardDarwin. apply wp_guard_after_unit; [apply plist_guard_apart|done|].
    intros [[]|err] w2 Hw2; [by wp_step|done].
Qed.

Definition demoDarwin : InstallConfig :=
  {| ic_BinaryPath := str "/Library/Everwas/Agent/everwas-agent"; ic_Args := []; ic_StateDir := []; ic_Prefix := [] |}.

Lemma plist_never_without_its_guard_witness :
  wp (InstallDarwin (str "#!/bin/sh") (fun _ => []) (fun _ => None) demoDarwin)
    (fun r w' => guardedAt (PlistPath []) (GuardPathDarwin []) (files w') /\
       (r = Ok tt ->
          (exists g p, files w' !! GuardPathDarwin [] = Some g /\ f_data g = str "#!/bin/sh" /\
             files w' !! PlistPath [] = Some p /\ f_data p = RenderLaunchdPlist (fun _ => []) (normalized (fun _ => []) demoDarwin)) /\
          ([] = ([] : bytes) -> None = (None : option error) \/ None = (None : option error))))
    (guardedAt (PlistPath []) (GuardPathDarwin [])) (World ∅ 0 [] [Proceed; Proceed; Proceed; Fails 0]).
Proof.
  apply (plist_never_without_its_guard (str "#!/bin/sh") (fun _ => []) (fun _ => None) demoDarwin
    (World ∅ 0 [] [Proceed; Proceed; Proceed; Fails 0])); by intros [].
Defined.

(** The wait for a service to stop ends: when the clock passes the deadline, or
    before, when the service has stopped or can no longer be asked. *)
Lemma waitForStop_ends queries deadline :
  (exists now q, (now, q) ∈ queries /\ deadline <= now) ->
  exists n, waitForStop queries deadline = Some n /\ (n <= length queries)%nat.
Proof.
  induction queries as [|[now q] queries IH]; intros (t & r & Hin & Ht); [by apply not_elem_of_nil in Hin|].
  cbn [waitForStop length]. destruct (now <? deadline) eqn:E; cbn [negb]; [|exists 0%nat; split; [done|lia]].
  apply elem_of_cons in Hin as [[= <- <-]|Hin]; [lia|].
  destruct IH as (n & Hn & Hle); [eauto|]. rewrite Hn. destruct q as [[]|]; cbn [option_map]; eexists; (split; [reflexivity|lia]).
Qed.

(** Stopping the Windows service is reported as done also when it has not
    stopped: only the request can fail, the wait for it to settle cannot.  A
    restart then starts a service that still runs, and reports what the manager
    says to that. *)
Theorem stop_is_reported_before_it_happened (deadline : Z) (start : res error unit) :
  let slow := [(deadline - 1, Ok SvcStopPending); (deadline, Ok SvcStopPending)] in
  let stop := StopWindows (Ok tt) (Ok tt) (Ok tt) slow deadline in
  stop = Some (Ok tt) /\ RestartWindows stop start = Some start.
Proof.
  cbn zeta. unfold StopWindows. cbn [control waitForStop].
  rewrite (proj2 (Z.ltb_lt (deadline - 1) deadline)) by lia. rewrite Z.ltb_irrefl. done.
Qed.
