(* ===== verification/Ole.v ===== *)
(** * Ole: Windows Update through COM (com_windows.go, wua_windows.go)

    [Wua] is about what Windows Update answers.  This file is about how it is
    asked: every call on a COM object, in the order the code makes them, and
    every reference it is handed.  The COM server is a parameter: [answer] maps
    the calls made so far, newest first, to the reply to the newest, so a server
    may keep any state.  [live] counts the interface references the agent
    holds.  The theorems say that every path gives back what it took, and that
    an install made of these calls is one of the installs [Wua] speaks of. *)
From Stdlib Require Import Floats.
From stdpp Require Import gmultiset.
From S2P Require Import Prelude GoLib GoText GoOS Env Patch PatchParse PatchPlan Com Wua Beacon.

Definition handle : Type := Z.

(** A VARIANT, by what go-ole decodes it to. *)
Inductive variant : Type :=
  | VNil
  | VString (s : bytes)
  | VInt (z : Z)                    (** every integer type, signed or not *)
  | VFloat (f : spec_float)
  | VBool (b : bool)
  | VDispatch (h : handle)
  | VOther.

Inductive call : Type :=
  | CreateObject (progID : bytes)
  | QueryInterface (h : handle)
  | GetProperty (h : handle) (name : bytes) (args : list Z)
  | CallMethod (h : handle) (name : bytes) (args : list variant)
  | PutProperty (h : handle) (name : bytes) (value : handle).

(** The calls so far, newest first, and the references held. *)
Record comState := ComState { calls : list call; live : gmultiset handle }.

(** A closure that runs on the COM thread. *)
Definition com (A : Type) : Type := comState -> A * comState.
Definition cret {A} (a : A) : com A := fun st => (a, st).
Definition cbind {A B} (m : com A) (k : A -> com B) : com B := fun st => let '(a, st') := m st in k a st'.
Notation "'com*' x := m 'in' k" := (cbind m (fun x => k))
  (at level 10, x binder, m at level 100, k at level 200) : everwas_scope.

Definition release (h : handle) : com unit := fun st => (tt, ComState (calls st) (live st ∖ {[+ h +]})).

(** [v.Clear()]: a variant that holds an object holds a reference. *)
Definition clear (v : variant) : com unit := match v with VDispatch h => release h | _ => cret tt end.

(** [defer h.Release()] around the rest of a function. *)
Definition releasing {A} (h : handle) (k : com A) : com A := com* a := k in com* _ := release h in cret a.

Fixpoint cmap {A B} (f : A -> com B) (l : list A) : com (list B) :=
  match l with
  | [] => cret []
  | a :: l' => com* b := f a in com* bs := cmap f l' in cret (b :: bs)
  end.

(** The error of [CoInitializeEx]: an HRESULT of go-ole, or another error. *)
Definition hrSFalse : Z := 1.
Definition hrRPCEChangedMode : Z := 0x80010106.

Definition alreadyInitialized (hresult : option Z) : bool :=
  match hresult with
  | None => false
  | Some code => let code := code mod 2 ^ 32 in (code =? hrSFalse) || (code =? hrRPCEChangedMode)
  end.

(** The closure [newCOMThread] gives to [startCOMThread]. *)
Definition enterApartment (initialized : res (error * option Z) unit) : option error :=
  match initialized with
  | Ok _ => None
  | Err (e, hresult) => if alreadyInitialized hresult then None else Some e
  end.

Section com.
Context (answer : list call -> res error variant).

(** A call, and the reference its reply carries. *)
Definition invoke (c : call) : com (res error variant) := fun st =>
  let cs := c :: calls st in
  let r := answer cs in
  (r, ComState cs (match r with Ok (VDispatch h) => {[+ h +]} ⊎ live st | _ => live st end)).

Definition object (r : res error variant) (wrap none : error -> error) : res error handle :=
  match r with
  | Err e => Err (wrap e)
  | Ok (VDispatch h) => Ok h
  | Ok _ => Err (none (Sentinel "not an object"))
  end.

Definition createObject (progID : bytes) : com (res error handle) :=
  com* r := invoke (CreateObject progID) in
  match object r (Errorf "create") id with
  | Err e => cret (Err e)
  | Ok unknown =>
      releasing unknown (com* r := invoke (QueryInterface unknown) in cret (object r (Errorf "IDispatch") id))
  end.

Definition callDispatch (d : handle) (name : bytes) (args : list variant) : com (res error handle) :=
  com* r := invoke (CallMethod d name args) in cret (object r (Errorf "call") id).

Definition propDispatch (d : handle) (name : bytes) (args : list Z) : com (res error handle) :=
  com* r := invoke (GetProperty d name args) in cret (object r (Errorf "get") id).

(** [fmt.Sprint] of the values that are not strings; [other] is how it prints
    floating point numbers and objects. *)
Context (other : variant -> bytes).

Definition sprint (v : variant) : bytes :=
  match v with
  | VNil => []
  | VString s => s
  | VInt z => Itoa z
  | VBool b => if b then str "true" else str "false"
  | _ => other v
  end.

Definition propString (d : handle) (name : bytes) (args : list Z) : com bytes :=
  com* r := invoke (GetProperty d name args) in
  match r with
  | Err _ => cret []
  | Ok v => com* _ := clear v in cret (sprint v)
  end.

(** [toInt64]; a conversion of a floating point number that does not fit gives
    what the amd64 instruction gives. *)
Definition floatToInt64 (f : spec_float) : Z :=
  match f with
  | S754_infinity _ | S754_nan => min_int64
  | _ => let z := truncFloat f in if (min_int64 <=? z) && (z <=? max_int64) then z else min_int64
  end.

Definition toInt64 (v : variant) : Z :=
  match v with
  | VInt z => wrap64 z
  | VFloat f => floatToInt64 f
  | VBool b => if b then 1 else 0
  | VString s => default 0 (ParseInt s)
  | VNil | VDispatch _ | VOther => 0
  end.

Definition propInt64 (d : handle) (name : bytes) (args : list Z) : com Z :=
  com* r := invoke (GetProperty d name args) in
  match r with
  | Err _ => cret 0
  | Ok v => com* _ := clear v in cret (toInt64 v)
  end.

Definition propBool (d : handle) (name : bytes) (args : list Z) : com bool :=
  com* r := invoke (GetProperty d name args) in
  match r with
  | Err _ => cret false
  | Ok v => com* _ := clear v in cret (match v with VBool b => b | _ => negb (toInt64 v =? 0) end)
  end.

(** The indices of [for i := int64(0); i < count; i++]. *)
Definition indices (count : Z) : list Z := map Z.of_nat (seq 0 (Z.to_nat count)).

(** Of collections whose [Count] is one: Go's [make] panics on a negative or
    huge capacity, which ends the whole call in [callRecovered] with an error and
    is not represented, here as in [collectCategoryNames]. *)
Definition collectStrings (d : handle) (name : bytes) : com (list bytes) :=
  com* r := propDispatch d name [] in
  match r with
  | Err _ => cret []
  | Ok coll =>
      releasing coll
        (com* count := propInt64 coll (str "Count") [] in
         cmap (fun i => propString coll (str "Item") [i]) (indices count))
  end.

Definition collectCategoryNames (d : handle) : com (list bytes) :=
  com* r := propDispatch d (str "Categories") [] in
  match r with
  | Err _ => cret []
  | Ok coll =>
      releasing coll
        (com* count := propInt64 coll (str "Count") [] in
         com* names := cmap (fun i =>
           com* r := propDispatch coll (str "Item") [i] in
           match r with
           | Err _ => cret []
           | Ok item => releasing item (com* n := propString item (str "Name") [] in cret [n])
           end) (indices count) in
         cret (concat names))
  end.

(** ** wua_windows.go *)

Definition readUpdateFields (item : handle) : com wuaFields :=
  com* title := propString item (str "Title") [] in
  com* severity := propString item (str "MsrcSeverity") [] in
  com* size := propInt64 item (str "MaxDownloadSize") [] in
  com* eula := propBool item (str "EulaAccepted") [] in
  com* description := propString item (str "Description") [] in
  com* kbs := collectStrings item (str "KBArticleIDs") in
  com* categories := collectCategoryNames item in
  com* ident :=
    (com* r := propDispatch item (str "Identity") [] in
     match r with
     | Err _ => cret ([], 0)
     | Ok identity =>
         releasing identity
           (com* uid := propString identity (str "UpdateID") [] in
            com* rev := propInt64 identity (str "RevisionNumber") [] in cret (uid, rev))
     end) in
  com* behave :=
    (com* r := propDispatch item (str "InstallationBehavior") [] in
     match r with
     | Err _ => cret (0, false)
     | Ok behavior =>
         releasing behavior
           (com* reboot := propInt64 behavior (str "RebootBehavior") [] in
            com* input := propBool behavior (str "CanRequestUserInput") [] in cret (reboot, input))
     end) in
  cret {| wf_UpdateID := ident.1; wf_RevisionNumber := ident.2; wf_Title := title; wf_MsrcSeverity := severity;
          wf_KBIDs := kbs; wf_Categories := categories; wf_MaxDownloadSize := size; wf_RebootBehavior := behave.1;
          wf_EulaAccepted := eula; wf_CanRequestUserInput := behave.2; wf_Description := description |}.

(** A call that returns an object and ends the function on an error; the
    object is released when the function returns. *)
Definition withObject {A} (m : com (res error handle)) (wrap : error -> error) (k : handle -> com (res error A)) :
    com (res error A) :=
  com* r := m in
  match r with Err e => cret (Err (wrap e)) | Ok h => releasing h (k h) end.

Definition wuaSearchCriteria : bytes := str "IsInstalled=0 and IsHidden=0 and Type='Software'".

Definition withUpdateSearch {A} (fn : handle -> Z -> com A) : com (res error A) :=
  withObject (createObject (str "Microsoft.Update.Session")) id (fun session =>
  withObject (callDispatch session (str "CreateUpdateSearcher") []) id (fun searcher =>
  withObject (callDispatch searcher (str "Search") [VString wuaSearchCriteria]) (Errorf "windows update search") (fun result =>
  withObject (propDispatch result (str "Updates") []) id (fun coll =>
  com* count := propInt64 coll (str "Count") [] in
  com* a := fn coll count in cret (Ok a))))).

(** One item of the search result, if it can be read. *)
Definition withItem {A} (coll : handle) (i : Z) (k : handle -> com A) : com (option A) :=
  com* r := propDispatch coll (str "Item") [i] in
  match r with
  | Err _ => cret None
  | Ok item => com* a := releasing item (k item) in cret (Some a)
  end.

(** The closure of [Scan]. *)
Definition scanItem (coll : handle) (i : Z) : com (option Update) :=
  withItem coll i (fun item => com* f := readUpdateFields item in cret (wuaUpdateFromFields f)).

Definition scanCOM : com (res error (list Update)) :=
  com* r := withUpdateSearch (fun coll count => cmap (scanItem coll) (indices count)) in
  cret (match r with Err e => Err e | Ok found => Ok (omap id found) end).

(** [RebootRequired]. *)
Definition rebootRequiredCOM : com (res error bool) :=
  withObject (createObject (str "Microsoft.Update.SystemInfo")) id (fun info =>
    com* b := propBool info (str "RebootRequired") [] in cret (Ok b)).

(** The body of the loop of [install]. *)
Definition takeItem (wanted : gset bytes) (batch : handle) (acc : list bytes * InstallResult) (item : handle) :
    com (list bytes * InstallResult) :=
  let '(ordered, r) := acc in
  com* f := readUpdateFields item in
  let id := wf_UpdateID f in
  if negb (bool_decide (lowerTrim id ∈ wanted)) then cret acc
  else if wf_CanRequestUserInput f then cret (ordered, fail id (newError detailUserInput) r)
  else
    com* eula := (if wf_EulaAccepted f then cret (Ok VNil) else invoke (CallMethod item (str "AcceptEula") [])) in
    match eula with
    | Err e => cret (ordered, fail id (Errorf "accept eula" e) r)
    | Ok _ =>
        com* added := invoke (CallMethod batch (str "Add") [VDispatch item]) in
        cret (match added with
              | Err e => (ordered, fail id (Errorf "add to batch" e) r)
              | Ok _ => (ordered ++ [id], r)
              end)
    end.

Fixpoint takeItems (wanted : gset bytes) (batch coll : handle) (idx : list Z) (acc : list bytes * InstallResult) :
    com (list bytes * InstallResult) :=
  match idx with
  | [] => cret acc
  | i :: idx' =>
      com* o := withItem coll i (takeItem wanted batch acc) in
      takeItems wanted batch coll idx' (default acc o)
  end.

Definition downloadCOM (session batch : handle) : com (res error unit) :=
  withObject (callDispatch session (str "CreateUpdateDownloader") []) id (fun downloader =>
  com* put := invoke (PutProperty downloader (str "Updates") batch) in
  match put with
  | Err e => cret (Err (Errorf "downloader.Updates" e))
  | Ok _ =>
      withObject (callDispatch downloader (str "Download") []) (Errorf "download") (fun result =>
      com* code := propInt64 result (str "ResultCode") [] in
      if wuaResultOK code then cret (Ok tt)
      else com* hresult := propInt64 result (str "HResult") [] in
           cret (Err (newError (str "download " ++ wuaResultText code hresult))))
  end).

Definition resultCode (o : handle) : com (Z * Z) :=
  com* code := propInt64 o (str "ResultCode") [] in
  com* hresult := propInt64 o (str "HResult") [] in cret (code, hresult).

(** The code and the HRESULT of the [i]-th update: its own, or the batch's. *)
Definition outcomeCode (installResult : handle) (i : Z) : com (Z * Z) :=
  com* r := callDispatch installResult (str "GetUpdateResult") [VInt i] in
  match r with
  | Ok per => releasing per (resultCode per)
  | Err _ => resultCode installResult
  end.

Fixpoint recordCOM (installResult : handle) (i : Z) (ordered : list bytes) (r : InstallResult) : com InstallResult :=
  match ordered with
  | [] => cret r
  | id :: ordered' =>
      com* outcome := outcomeCode installResult i in
      let '(code, hresult) := outcome in
      recordCOM installResult (i + 1) ordered'
        (if wuaResultOK code then installedOne id r else fail id (newError (wuaResultText code hresult)) r)
  end.

(** The end of [install]: what the installer made of the batch. *)
Definition installBatch (installer batch : handle) (ordered : list bytes) (r : InstallResult) : com (InstallResult * option error) :=
  com* put := invoke (PutProperty installer (str "Updates") batch) in
  match put with
  | Err e => cret (r, Some (Errorf "installer.Updates" e))
  | Ok _ =>
      com* done := callDispatch installer (str "Install") [] in
      match done with
      | Err e => cret (failAll ordered e r, Some (Errorf "install" e))
      | Ok installResult =>
          releasing installResult
            (com* reboot := propBool installResult (str "RebootRequired") [] in
             com* r := recordCOM installResult 0 ordered (setReboot reboot r) in
             cret (r, None))
      end
  end.

(** [install]: the result is threaded where the code updates it. *)
Definition installCOM (ids : list bytes) (r : InstallResult) : com (InstallResult * option error) :=
  let failing m k := com* o := m in match o with Err e => cret (r, Some e) | Ok h => releasing h (k h) end in
  failing (createObject (str "Microsoft.Update.Session")) (fun session =>
  failing (callDispatch session (str "CreateUpdateInstaller") []) (fun installer =>
  com* busy := propBool installer (str "IsBusy") [] in
  if (busy : bool) then cret (r, Some ErrBusy)
  else failing (createObject (str "Microsoft.Update.UpdateColl")) (fun batch =>
  com* found := withUpdateSearch (fun coll count =>
    takeItems (list_to_set (map lowerTrim ids)) batch coll (indices count) ([], r)) in
  match found with
  | Err e => cret (r, Some e)
  | Ok (ordered, r) =>
      let r := wuaMissing ordered ids r in
      if bool_decide (ordered = []) then cret (r, None)
      else
        com* d := downloadCOM session batch in
        match d with
        | Err e => cret (failAll ordered e r, Some e)
        | Ok _ => installBatch installer batch ordered r
        end
  end))).
End com.

(** ** Every reference is given back *)

(** A closure that holds afterwards what it held before, and one that holds the
    object it returns besides. *)
Definition balanced {A} (m : com A) : Prop := forall st, live (m st).2 = live st.
Definition gives (m : com (res error handle)) : Prop :=
  forall st, live (m st).2 = match (m st).1 with Ok h => {[+ h +]} ⊎ live st | Err _ => live st end.

Lemma balanced_ret {A} (a : A) : balanced (cret a).
Proof. done. Qed.

Lemma balanced_bind {A B} (m : com A) (k : A -> com B) :
  balanced m -> (forall a, balanced (k a)) -> balanced (com* x := m in k x).
Proof. intros Hm Hk st. unfold cbind. specialize (Hm st). destruct (m st) as [a st1]. by rewrite Hk. Qed.

Lemma given_back (h : handle) (L : gmultiset handle) : ({[+ h +]} ⊎ L) ∖ {[+ h +]} = L.
Proof. multiset_solver. Qed.

Lemma balanced_with {A} (m : com (res error handle)) (k : handle -> com A) (f : error -> com A) :
  gives m -> (forall h, balanced (k h)) -> (forall e, balanced (f e)) ->
  balanced (com* r := m in match r with Err e => f e | Ok h => releasing h (k h) end).
Proof.
  intros Hm Hk Hf st. unfold cbind. specialize (Hm st). destruct (m st) as [[h|e] st1]; cbn [fst snd] in Hm |- *.
  - unfold releasing, cbind. specialize (Hk h st1). destruct (k h st1) as [a st2]. cbn [snd release cret live] in Hk |- *.
    rewrite Hk, Hm. apply given_back.
  - by rewrite Hf.
Qed.

Lemma balanced_cmap {A B} (f : A -> com B) l : (forall a, balanced (f a)) -> balanced (cmap f l).
Proof.
  intros Hf. induction l as [|a l IH]; [apply balanced_ret|]. cbn [cmap].
  apply balanced_bind; [done|]. intros b. apply balanced_bind; [done|]. intros bs. apply balanced_ret.
Qed.

Section ledger.
Context (answer : list call -> res error variant) (other : variant -> bytes).

(** The calls whose reply the code drops. *)
Definition dropsReply (c : call) : bool :=
  match c with
  | CallMethod _ name _ => bool_decide (name = str "AcceptEula") || bool_decide (name = str "Add")
  | PutProperty _ _ _ => true
  | _ => false
  end.

(** Documented: accepting an EULA and setting a property return nothing,
    adding to a collection returns the index. *)
Definition plainReplies : Prop :=
  forall c cs h, dropsReply c = true -> answer (c :: cs) ≠ Ok (VDispatch h).

Context (Hplain : plainReplies).

Lemma balanced_plain c : dropsReply c = true -> balanced (invoke answer c).
Proof.
  intros Hc st. unfold invoke. cbn. destruct (answer (c :: calls st)) as [[]|] eqn:E; try done.
  by destruct (Hplain _ _ _ Hc E).
Qed.

Lemma gives_object c wrap none : gives (com* r := invoke answer c in cret (object r wrap none)).
Proof. intros st. unfold cbind, invoke, cret, object. cbn. by destruct (answer (c :: calls st)) as [[]|]. Qed.

(** Reading a value and clearing it. *)
Lemma balanced_read {A} c (a : A) (f : variant -> A) :
  balanced (com* r := invoke answer c in match r with Err _ => cret a | Ok v => com* _ := clear v in cret (f v) end).
Proof.
  intros st. unfold cbind, invoke, clear, release, cret.
  destruct (answer (c :: calls st)) as [[]|]; cbn [snd live]; try done. apply given_back.
Qed.

Lemma gives_createObject progID : gives (createObject answer progID).
Proof.
  intros st. unfold createObject, cbind, releasing, cbind, release, cret, invoke. cbv zeta. cbn [fst snd live calls].
  destruct (answer (CreateObject progID :: calls st)) as [[| | | | |u|]|]; try done. cbn [object calls live].
  destruct (answer (QueryInterface u :: _)) as [[| | | | |h|]|]; cbn [object fst snd live]; try apply given_back.
  rewrite (gmultiset_disj_union_assoc {[+ h +]}), (gmultiset_disj_union_comm {[+ h +]} {[+ u +]}).
  rewrite <- gmultiset_disj_union_assoc. apply given_back.
Qed.
End ledger.

Create HintDb com.
#[export] Hint Resolve balanced_ret balanced_plain gives_object balanced_read gives_createObject : com.

(** Decomposes a closure along its binds, objects and branches. *)
Ltac com_step :=
  match goal with
  | |- forall _, _ => intro
  | |- gives _ => first [apply gives_createObject | apply gives_object]
  | |- balanced (cret _) => apply balanced_ret
  | |- balanced (cmap _ _) => apply balanced_cmap
  | |- balanced (cbind _ (fun r => match r with Ok v => cbind (clear v) _ | Err _ => _ end)) => apply balanced_read
  | |- balanced (cbind _ (fun r => match r with Ok h => releasing h _ | Err _ => _ end)) => apply balanced_with
  | |- balanced (cbind _ _) => apply balanced_bind
  | |- balanced (invoke _ _) => apply balanced_plain; [assumption|reflexivity]
  | |- balanced (match ?x with _ => _ end) => destruct x
  end.
Ltac com_solve := repeat (com_step; try (by eauto 2 with com)).

Section balance.
Context (answer : list call -> res error variant) (other : variant -> bytes) (Hplain : plainReplies answer).

Lemma balanced_collectStrings d name : balanced (collectStrings answer other d name).
Proof. unfold collectStrings, propDispatch, propInt64, propString. com_solve. Qed.

Lemma balanced_collectCategoryNames d : balanced (collectCategoryNames answer other d).
Proof. unfold collectCategoryNames, propDispatch, propInt64, propString. com_solve. Qed.

Lemma balanced_readUpdateFields item : balanced (readUpdateFields answer other item).
Proof.
  unfold readUpdateFields, propString, propInt64, propBool, propDispatch.
  repeat (first [apply balanced_collectStrings | apply balanced_collectCategoryNames | com_step]).
Qed.

Lemma balanced_withObject {A} (m : com (res error handle)) wrap (k : handle -> com (res error A)) :
  gives m -> (forall h, balanced (k h)) -> balanced (withObject m wrap k).
Proof. intros Hm Hk. apply balanced_with; [done|done|]. intros e. apply balanced_ret. Qed.

Lemma balanced_withUpdateSearch {A} (fn : handle -> Z -> com A) :
  (forall coll count, balanced (fn coll count)) -> balanced (withUpdateSearch answer fn).
Proof.
  intros Hfn. unfold withUpdateSearch.
  repeat (apply balanced_withObject; [first [apply gives_createObject | apply gives_object]|]; intros).
  apply balanced_bind; [apply balanced_read|]. intros count. apply balanced_bind; [apply Hfn|]. intros a. apply balanced_ret.
Qed.

Lemma balanced_withItem {A} coll i (k : handle -> com A) : (forall h, balanced (k h)) -> balanced (withItem answer coll i k).
Proof.
  intros Hk st. unfold withItem, propDispatch. set (m := com* r := invoke _ _ in _). unfold cbind at 1.
  pose proof (gives_object answer (GetProperty coll (str "Item") [i]) (Errorf "get") id st) as Hg. fold m in Hg.
  destruct (m st) as [[h|e] st1]; cbn [fst snd] in Hg |- *; [|done].
  unfold cbind, releasing, cbind. specialize (Hk h st1). destruct (k h st1) as [a st2].
  cbn [fst snd release cret live] in Hk |- *. rewrite Hk, Hg. apply given_back.
Qed.

Lemma balanced_takeItems wanted batch coll idx acc : balanced (takeItems answer other wanted batch coll idx acc).
Proof.
  revert acc. induction idx as [|i idx IH]; intros acc; [apply balanced_ret|]. cbn [takeItems].
  apply balanced_bind; [|intros; apply IH]. apply balanced_withItem. intros item. unfold takeItem. destruct acc as [ordered r].
  apply balanced_bind; [apply balanced_readUpdateFields|]. intros f. com_solve.
Qed.

Lemma balanced_outcomeCode o i : balanced (outcomeCode answer o i).
Proof.
  unfold outcomeCode, resultCode, callDispatch, propInt64. apply balanced_with; [apply gives_object| |]; com_solve.
Qed.

Lemma balanced_recordCOM o i ordered r : balanced (recordCOM answer o i ordered r).
Proof.
  revert i r. induction ordered as [|id ordered IH]; intros i r; [apply balanced_ret|]. cbn [recordCOM].
  apply balanced_bind; [apply balanced_outcomeCode|]. intros [code hresult]. apply IH.
Qed.
End balance.

(** Nothing the agent does with Windows Update leaks a reference.  Whatever the
    COM server answers, and whichever call fails, a scan, an install and the
    reboot query hold afterwards exactly the references they held before, on
    the documented condition that the calls whose reply is dropped return no
    object. *)
Theorem com_references_are_given_back (answer : list call -> res error variant) (other : variant -> bytes) :
  plainReplies answer ->
  balanced (scanCOM answer other) /\ balanced (rebootRequiredCOM answer) /\
  (forall ids r, balanced (installCOM answer other ids r)).
Proof.
  intros Hplain. split_and!.
  - unfold scanCOM. apply balanced_bind; [|intros; apply balanced_ret]. apply balanced_withUpdateSearch. intros coll count.
    apply balanced_cmap. intros i. unfold scanItem. apply balanced_withItem. intros item.
    apply balanced_bind; [apply balanced_readUpdateFields|intros; apply balanced_ret].
  - apply balanced_withObject; [apply gives_createObject|]. intros h. apply balanced_bind; [apply balanced_read|intros; apply balanced_ret].
  - intros ids r. unfold installCOM. cbv zeta.
    apply balanced_with; [apply gives_createObject| |intros; apply balanced_ret]. intros session.
    apply balanced_with; [apply gives_object| |intros; apply balanced_ret]. intros installer.
    apply balanced_bind; [apply balanced_read|]. intros []; [apply balanced_ret|].
    apply balanced_with; [apply gives_createObject| |intros; apply balanced_ret]. intros batch.
    apply balanced_bind; [apply balanced_withUpdateSearch; intros; by apply balanced_takeItems|].
    intros [[ordered r']|e]; [|apply balanced_ret]. case_bool_decide; [apply balanced_ret|].
    apply balanced_bind.
    { apply balanced_withObject; [apply gives_object|]. intros d. apply balanced_bind; [by apply balanced_plain|].
      intros [v|e]; [|apply balanced_ret]. apply balanced_withObject; [apply gives_object|]. intros res.
      unfold propInt64. com_solve. }
    intros [[]|e]; [|apply balanced_ret]. apply balanced_bind; [by apply balanced_plain|].
    intros [v|e]; [|apply balanced_ret]. apply balanced_with; [apply gives_object| |intros; apply balanced_ret]. intros res.
    apply balanced_bind; [apply balanced_read|]. intros reboot. apply balanced_bind; [|intros; apply balanced_ret].
    apply balanced_recordCOM.
Qed.

(** ** An install through COM is an install of [Wua] *)

Section refinement.
Context (answer : list call -> res error variant) (other : variant -> bytes).

Lemma takeItem_refines wanted batch acc item st :
  exists o, (takeItem answer other wanted batch acc item st).1 = wuaItem wanted acc (Some o).
Proof.
  unfold takeItem. destruct acc as [ordered r]. unfold cbind at 1.
  destruct (readUpdateFields answer other item st) as [f st1]. unfold wuaItem.
  destruct (negb (bool_decide (lowerTrim (wf_UpdateID f) ∈ wanted))) eqn:Hw; [exists (Offered f None None); cbn [of_fields]; by rewrite Hw|].
  destruct (wf_CanRequestUserInput f) eqn:Hu; [exists (Offered f None None); cbn [of_fields]; by rewrite Hw, Hu|].
  set (ask := if wf_EulaAccepted f then _ else _). unfold cbind at 1. destruct (ask st1) as [[v|e] st2] eqn:He.
  - unfold cbind at 1. destruct (invoke answer (CallMethod batch _ _) st2) as [[v2|e] st3];
      [exists (Offered f None None)|exists (Offered f None (Some e))];
      cbn [of_fields of_acceptEula of_add]; rewrite Hw, Hu; by destruct (wf_EulaAccepted f).
  - exists (Offered f (Some e) None). cbn [of_fields of_acceptEula of_add]. rewrite Hw, Hu. unfold ask in He.
    by destruct (wf_EulaAccepted f).
Qed.

Lemma takeItems_refines wanted batch coll idx acc st :
  exists items, (takeItems answer other wanted batch coll idx acc st).1 = fold_left (wuaItem wanted) items acc.
Proof.
  revert acc st. induction idx as [|i idx IH]; intros acc st; [by exists []|]. cbn [takeItems]. unfold cbind at 1.
  assert (Hi : exists o, default acc (withItem answer coll i (takeItem answer other wanted batch acc) st).1 = wuaItem wanted acc o).
  { unfold withItem. unfold cbind at 1. destruct (propDispatch answer coll _ _ st) as [[item|e] st1]; [|exists None; by destruct acc].
    unfold cbind at 1, releasing, cbind at 1. destruct (takeItem_refines wanted batch acc item st1) as [o Ho].
    destruct (takeItem answer other wanted batch acc item st1) as [a st2]. by exists (Some o). }
  destruct Hi as [o Ho]. destruct (withItem _ _ _ _ st) as [x st1]. cbn [fst] in Ho.
  destruct (IH (default acc x) st1) as [items Hitems]. exists (o :: items). rewrite Hitems, Ho. done.
Qed.

Lemma recordCOM_refines o ordered i r st :
  exists code : nat -> Z * Z, forall w, (forall j, (i <= j)%nat -> default (w_batchResult w j) (w_updateResult w j) = code j) ->
    (recordCOM answer o (Z.of_nat i) ordered r st).1 = (fold_left (recordOutcome w) ordered (i, r)).2.
Proof.
  revert i r st. induction ordered as [|id ordered IH]; intros i r st; [by exists (fun _ => (0, 0))|].
  cbn [recordCOM fold_left]. unfold cbind at 1. destruct (outcomeCode answer o (Z.of_nat i) st) as [[c h] st1].
  replace (Z.of_nat i + 1) with (Z.of_nat (S i)) by lia.
  destruct (IH (S i) (if wuaResultOK c then installedOne id r else fail id (newError (wuaResultText c h)) r) st1) as [code Hc].
  exists (fun j => if (j =? i)%nat then (c, h) else code j). intros w Hw.
  assert (Hone : recordOutcome w (i, r) id =
    (S i, if wuaResultOK c then installedOne id r else fail id (newError (wuaResultText c h)) r)).
  { unfold recordOutcome. specialize (Hw i (le_n i)). rewrite Nat.eqb_refl in Hw. by rewrite Hw. }
  rewrite Hone. apply Hc. intros j Hj. rewrite Hw by lia. by rewrite (proj2 (Nat.eqb_neq j i)) by lia.
Qed.

Lemma releasing_val {A} h (k : com A) st : (releasing h k st).1 = (k st).1.
Proof. unfold releasing, cbind. by destruct (k st). Qed.

Lemma withObject_cases {A} m wrap (k : handle -> com (res error A)) st :
  (exists e, (withObject m wrap k st).1 = Err e) \/ (exists h st', (withObject m wrap k st).1 = (k h st').1).
Proof.
  unfold withObject, cbind. destruct (m st) as [[h|e] st1]; [right; exists h, st1; apply releasing_val|left; by eexists].
Qed.

(** A search fails, or its closure runs. *)
Lemma withUpdateSearch_cases {A} (fn : handle -> Z -> com A) st :
  (exists e, (withUpdateSearch answer fn st).1 = Err e) \/
  (exists coll count st', (withUpdateSearch answer fn st).1 = Ok (fn coll count st').1).
Proof.
  unfold withUpdateSearch.
  do 4 (match goal with |- context [(withObject ?m ?w ?k ?s).1] =>
    destruct (withObject_cases m w k s) as [[e ->]|(?h & ?st' & ->)]; [left; by exists e|] end).
  right. unfold cbind at 1. destruct (propInt64 answer _ _ _ _) as [count st4]. exists h2, count, st4.
  unfold cbind. by destruct (fn h2 count st4).
Qed.

(** [Wua]'s server whose answers are given. *)
Definition serverWith (busy : bool) (items : list (option offered)) (download : option error) (put install : option error)
    (reboot : bool) (code : nat -> Z * Z) : wuaServer :=
  {| w_session := None; w_installer := None; w_busy := busy; w_coll := None; w_search := None; w_items := items;
     w_downloader := download; w_download := Ok (wuaResultSucceeded, 0); w_putUpdates := put; w_install := install;
     w_rebootRequired := reboot; w_updateResult := fun i => Some (code i); w_batchResult := fun _ => (0, 0) |}.

Definition failingServer (e : error) : wuaServer :=
  {| w_session := Some e; w_installer := None; w_busy := false; w_coll := None; w_search := None; w_items := [];
     w_downloader := None; w_download := Err e; w_putUpdates := None; w_install := None;
     w_rebootRequired := false; w_updateResult := fun _ => None; w_batchResult := fun _ => (0, 0) |}.

Lemma installBatch_refines installer batch items ids r ordered r' st :
  wuaBatch (serverWith false items None None None false (fun _ => (0, 0))) ids r = (ordered, r') -> ordered ≠ [] ->
  exists w, (installBatch answer installer batch ordered (wuaMissing ordered ids r') st).1 = wua_install w ids r.
Proof.
  intros Hb Ho. set (r2 := wuaMissing ordered ids r').
  assert (Hw : forall put install reboot code,
    wua_install (serverWith false items None put install reboot code) ids r =
    match put with
    | Some e => (r2, Some (Errorf "installer.Updates" e))
    | None => match install with
              | Some e => (failAll ordered e r2, Some (Errorf "install" e))
              | None => (recordOutcomes (serverWith false items None put install reboot code) ordered (setReboot reboot r2), None)
              end
    end).
  { intros put install reboot code. unfold wua_install. cbn [serverWith w_session w_installer w_busy w_coll w_search].
    change (wuaBatch _ ids r) with (wuaBatch (serverWith false items None None None false (fun _ => (0, 0))) ids r). rewrite Hb.
    rewrite bool_decide_eq_false_2 by done. by destruct put, install. }
  unfold installBatch. unfold cbind at 1. destruct (invoke answer _ st) as [[v|e] st1].
  2: { exists (serverWith false items None (Some e) None false (fun _ => (0, 0))). by rewrite Hw. }
  unfold cbind at 1. destruct (callDispatch answer _ _ _ st1) as [[o|e] st2].
  2: { exists (serverWith false items None None (Some e) false (fun _ => (0, 0))). by rewrite Hw. }
  rewrite releasing_val. unfold cbind at 1. destruct (propBool answer _ _ _ st2) as [reboot st3].
  destruct (recordCOM_refines o ordered 0 (setReboot reboot r2) st3) as [code Hcode].
  exists (serverWith false items None None None reboot code). rewrite Hw. unfold recordOutcomes. rewrite <- Hcode by done.
  unfold cbind. change (Z.of_nat 0) with 0. by destruct (recordCOM answer o 0 ordered _ st3).
Qed.
End refinement.

Section theorems.
Context (answer : list call -> res error variant) (other : variant -> bytes).

Lemma installCOM_refines ids r st : exists w, (installCOM answer other ids r st).1 = wua_install w ids r.
Proof.
  unfold installCOM. cbv zeta.
  unfold cbind at 1. destruct (createObject answer _ st) as [[session|e] st1]; [|by exists (failingServer e)]. rewrite releasing_val.
  unfold cbind at 1. destruct (callDispatch answer session _ _ st1) as [[installer|e] st2]; [|by exists (failingServer e)].
  rewrite releasing_val. unfold cbind at 1. destruct (propBool answer installer _ _ st2) as [[] st3].
  { by exists (serverWith true [] None None None false (fun _ => (0, 0))). }
  unfold cbind at 1. destruct (createObject answer _ st3) as [[batch|e] st4]; [|by exists (failingServer e)]. rewrite releasing_val.
  unfold cbind at 1. set (search := withUpdateSearch _ _).
  pose proof (withUpdateSearch_cases answer (fun coll count =>
    takeItems answer other (list_to_set (map lowerTrim ids)) batch coll (indices count) ([], r)) st4) as Hs. fold search in Hs.
  destruct (search st4) as [found st5]. cbn [fst] in Hs. destruct Hs as [[e ->]|(coll & count & st' & ->)]; [by exists (failingServer e)|].
  destruct (takeItems_refines answer other (list_to_set (map lowerTrim ids)) batch coll (indices count) ([], r) st') as [items Hi].
  rewrite Hi. change (fold_left _ _ _) with (wuaBatch (serverWith false items None None None false (fun _ => (0, 0))) ids r).
  destruct (wuaBatch _ ids r) as [ordered r'] eqn:Hb.
  assert (Hw : forall dl, wua_install (serverWith false items dl None None false (fun _ => (0, 0))) ids r =
    if bool_decide (ordered = []) then (wuaMissing ordered ids r', None)
    else match dl with
         | Some e => (failAll ordered e (wuaMissing ordered ids r'), Some e)
         | None => (recordOutcomes (serverWith false items dl None None false (fun _ => (0, 0))) ordered
                      (setReboot false (wuaMissing ordered ids r')), None)
         end).
  { intros dl. unfold wua_install. cbn [serverWith w_session w_installer w_busy w_coll w_search].
    change (wuaBatch _ ids r) with (wuaBatch (serverWith false items None None None false (fun _ => (0, 0))) ids r). rewrite Hb.
    by destruct dl. }
  destruct (bool_decide (ordered = [])) eqn:Ho;
    [exists (serverWith false items None None None false (fun _ => (0, 0))); by rewrite Hw|]. apply bool_decide_eq_false_1 in Ho.
  unfold cbind at 1. destruct (downloadCOM answer session batch st5) as [[[]|e] st6].
  - by apply (installBatch_refines answer installer batch items ids r ordered r' st6).
  - exists (serverWith false items (Some e) None None false (fun _ => (0, 0))). by rewrite Hw.
Qed.

Lemma scanItem_refines coll i st :
  exists o, (scanItem answer other coll i st).1 = fmap (wuaUpdateFromFields ∘ of_fields) o.
Proof.
  unfold scanItem, withItem. unfold cbind at 1. destruct (propDispatch answer coll _ _ st) as [[item|e] s1]; [|by exists None].
  unfold cbind, releasing, cbind. destruct (readUpdateFields answer other item s1) as [f s2].
  by exists (Some (Offered f None None)).
Qed.

Lemma scanItems_refines coll idx st :
  exists items, (cmap (scanItem answer other coll) idx st).1 = map (fmap (wuaUpdateFromFields ∘ of_fields)) items.
Proof.
  revert st. induction idx as [|i idx IH]; intros st; [by exists []|]. cbn [cmap]. unfold cbind at 1.
  destruct (scanItem_refines coll i st) as [o Ho]. destruct (scanItem answer other coll i st) as [x s1]. cbn [fst] in Ho.
  destruct (IH s1) as [items Hi]. unfold cbind. destruct (cmap _ idx s1) as [xs s2]. cbn [fst] in Hi.
  exists (o :: items). cbn [map fst cret]. by rewrite Ho, Hi.
Qed.

Lemma scanCOM_refines st : exists w, (scanCOM answer other st).1 = wua_scan w.
Proof.
  unfold scanCOM. unfold cbind at 1.
  pose proof (withUpdateSearch_cases answer (fun coll count => cmap (scanItem answer other coll) (indices count)) st) as Hs.
  destruct (withUpdateSearch answer _ st) as [found st1]. cbn [fst] in Hs.
  destruct Hs as [[e ->]|(coll & count & st' & ->)].
  - by exists {| w_session := None; w_installer := None; w_busy := false; w_coll := None; w_search := Some e; w_items := [];
      w_downloader := None; w_download := Err e; w_putUpdates := None; w_install := None;
      w_rebootRequired := false; w_updateResult := fun _ => None; w_batchResult := fun _ => (0, 0) |}.
  - destruct (scanItems_refines coll (indices count) st') as [items Hi]. rewrite Hi.
    exists (serverWith false items None None None false (fun _ => (0, 0))).
    unfold wua_scan. cbn [fst cret serverWith w_search w_items]. f_equal.
    clear. induction items as [|[o|] items IH]; [done|cbn; by rewrite IH|done].
Qed.

(** C13: Talking to Windows Update over COM is sound with respect to the model of
    its answers.  For every COM server, which may answer any call with anything
    and keep any state, the result of an install made of COM calls is one that
    [wua_install] gives for some sequence of answers, and that of a scan one of
    [wua_scan]; so every id reported installed was asked for, up to case, and
    without an error every requested id has an outcome. *)
Theorem com_install_refines_wua (ids : list bytes) (st : comState) :
  let out := (installCOM answer other ids newInstallResult st).1 in
  (exists w, out = wua_install w ids newInstallResult) /\
  (exists w, (scanCOM answer other st).1 = wua_scan w) /\
  (forall id, id ∈ Installed out.1 -> lowerTrim id ∈ map lowerTrim ids) /\
  (out.2 = None -> forall id, id ∈ ids -> exists id', lowerTrim id' = lowerTrim id /\
     (id' ∈ Installed out.1 \/ is_Some (Failed out.1 !! id'))).
Proof.
  intros out. destruct (installCOM_refines ids newInstallResult st) as [w Hw]. fold out in Hw.
  split; [by exists w|]. split; [apply scanCOM_refines|].
  pose proof (wua_install_spec w ids newInstallResult) as Hs. rewrite <- Hw in Hs. destruct out as [r err].
  destruct Hs as (_ & Hin & Hall). cbn [fst snd]. split; [|done].
  intros id Hid. destruct (Hin id Hid) as [Hno|(o & _ & _ & Hl & _)]; [by apply not_elem_of_nil in Hno|done].
Qed.
End theorems.

(** A server that offers two updates and installs them; every property that
    holds an object gives a new reference to one. *)
Definition demoAnswer (cs : list call) : res error variant :=
  match cs with
  | c :: _ =>
      match c with
      | CreateObject _ => Ok (VDispatch 1)
      | QueryInterface _ => Ok (VDispatch 2)
      | PutProperty _ _ _ => Ok VNil
      | CallMethod _ name _ =>
          if dropsReply c then Ok (VInt 0) else Ok (VDispatch 3)
      | GetProperty _ name _ =>
          if bool_decide (name = str "Count") then Ok (VInt 2)
          else if bool_decide (name = str "ResultCode") then Ok (VInt 2)
          else if bool_decide (name ∈ map str ["Updates"; "Item"; "Identity"; "Categories"; "KBArticleIDs"; "InstallationBehavior"]%string)
          then Ok (VDispatch 4)
          else if bool_decide (name = str "UpdateID") then Ok (VString (str "kb1"))
          else Ok VNil
      end
  | [] => Err ErrIO
  end.

Definition demoRun : (InstallResult * option error) * comState :=
  installCOM demoAnswer (fun _ => []) [str "KB1"] newInstallResult (ComState [] ∅).

Example demoRun_installs : Installed demoRun.1.1 = [str "kb1"; str "kb1"] /\ demoRun.1.2 = None.
Proof. vm_compute. done. Qed.

Lemma com_references_are_given_back_witness : plainReplies demoAnswer /\ live demoRun.2 = ∅.
Proof.
  assert (H : plainReplies demoAnswer).
  { intros c cs h Hc. unfold demoAnswer. destruct c; try done. by rewrite Hc. }
  split; [exact H|]. apply (com_references_are_given_back demoAnswer (fun _ => []) H).
Defined.
