(* ===== verification/Process.v ===== *)
(** * Process: children, their groups and their pipes

    What keeps a killed job from leaving processes behind (scripts/proc_unix.go,
    proc_windows.go, patch/proc_unix.go, the end of a terminal in
    shell/pty_unix.go), the pipes of a script (scripts/pipes.go), the shells and
    the environment of a terminal (shell/pty.go, pty_unix.go, pty_windows.go),
    and the wait for a package manager's output in [runCmd] of patch/exec.go.
    The process table is explicit, so that "the whole tree" is a statement about
    every process that descends from the child. *)
From S2P Require Import Prelude GoLib GoText GoOS.

(** ** The process table *)

Record process := {
  p_pid : Z;
  p_group : Z;
  p_job : bool;          (** in the child's job object (Windows) *)
  p_ours : bool;         (** the child, or descends from it *)
  p_runs : bool;         (** false once it has exited and is not yet reaped *)
  p_stubborn : bool;     (** ignores SIGTERM *)
}.

Definition table : Type := list process.

Definition stopped (p : process) : process :=
  {| p_pid := p_pid p; p_group := p_group p; p_job := p_job p; p_ours := p_ours p; p_runs := false; p_stubborn := p_stubborn p |}.

(** What the processes do by themselves. *)
Inductive pevent : Type :=
  | Fork (parent pid : Z) (stubborn : bool)
  | Exit (pid : Z)
  | Setsid (pid : Z)
  | Reap (pid : Z).

Definition forked (pid : Z) (stubborn : bool) (p : process) : process :=
  {| p_pid := pid; p_group := p_group p; p_job := p_job p; p_ours := p_ours p; p_runs := true; p_stubborn := stubborn |}.

Definition onPid (pid : Z) (f : process -> process) (t : table) : table :=
  map (fun p => if p_pid p =? pid then f p else p) t.

Definition happen (e : pevent) (t : table) : table :=
  match e with
  | Fork parent pid stubborn =>
      match find (fun p => (p_pid p =? parent) && p_runs p) t with
      | Some p => t ++ [forked pid stubborn p]
      | None => t
      end
  | Exit pid => onPid pid stopped t
  | Setsid pid =>
      onPid pid (fun p => {| p_pid := p_pid p; p_group := p_pid p; p_job := p_job p; p_ours := p_ours p;
                             p_runs := p_runs p; p_stubborn := p_stubborn p |}) t
  | Reap pid => List.filter (fun p => negb (p_pid p =? pid) || p_runs p) t
  end.

Definition happens (es : list pevent) (t : table) : table := fold_left (fun t e => happen e t) es t.

Inductive signal : Type := SIGTERM | SIGKILL.

Definition deliver (s : signal) (p : process) : process :=
  match s with SIGKILL => stopped p | SIGTERM => if p_stubborn p then p else stopped p end.

Definition ESRCH : error := Sentinel "no such process".
Definition ErrProcessDone : error := Sentinel "os: process already finished".

(** [syscall.Kill(-group, s)], and [Process.Kill] of the child, which is done
    with it once it has been waited for, whoever has its id by then. *)
Definition killGroup (group : Z) (s : signal) (t : table) : res error unit * table :=
  if existsb (fun p => p_group p =? group) t
  then (Ok tt, map (fun p => if p_group p =? group then deliver s p else p) t)
  else (Err ESRCH, t).

Definition killProcess (pid : Z) (t : table) : res error unit * table :=
  let child p := (p_pid p =? pid) && p_ours p in
  if existsb child t then (Ok tt, map (fun p => if child p then stopped p else p) t) else (Err ErrProcessDone, t).

(** ** scripts/proc_unix.go *)

(** [Start] of a command that [beforeStart] prepared: the child leads a group
    of its own. *)
Definition startGroup (pid : Z) (stubborn : bool) (t : table) : table :=
  t ++ [{| p_pid := pid; p_group := pid; p_job := false; p_ours := true; p_runs := true; p_stubborn := stubborn |}].

(** [cmd.Process], when it has started. *)
Definition killUnix (cmd : option Z) (t : table) : res error unit * table :=
  match cmd with
  | None => (Err (Sentinel "no process"), t)
  | Some pid =>
      match killGroup pid SIGKILL t with
      | (Err _, t) => killProcess pid t
      | (Ok _, t) => (Ok tt, t)
      end
  end.

(** ** patch/proc_unix.go *)

(** [terminateGroup]: the reply, and whether the second signal is due. *)
Definition terminateGroup (cmd : option Z) (t : table) : (res error unit * bool) * table :=
  match cmd with
  | None => ((Err ErrProcessDone, false), t)
  | Some pid =>
      match killGroup pid SIGTERM t with
      | (Err _, t) => let '(r, t) := killProcess pid t in ((r, false), t)
      | (Ok _, t) => ((Ok tt, true), t)
      end
  end.

(** What [AfterFunc] runs after [killGrace]. *)
Definition afterGrace (pid : Z) (t : table) : table := (killGroup pid SIGKILL t).2.

(** ** scripts/proc_windows.go

    [g_job] is whether the guard holds a job object; [open_] counts the handles
    the agent holds. *)
Record procGuard := { g_job : bool; g_handles : Z; g_table : table }.

(** The calls of [afterStart], in order. *)
Record guardFaults := { gf_create : bool; gf_limit : bool; gf_open : bool; gf_assign : bool }.

Definition assignJob (pid : Z) (t : table) : table :=
  onPid pid (fun p => {| p_pid := p_pid p; p_group := p_group p; p_job := true; p_ours := p_ours p;
                         p_runs := p_runs p; p_stubborn := p_stubborn p |}) t.

Definition afterStart (cmd : option Z) (f : guardFaults) (g : procGuard) : procGuard :=
  match cmd with
  | None => g
  | Some pid =>
      if gf_create f then g
      else
        let g := {| g_job := g_job g; g_handles := g_handles g + 1; g_table := g_table g |} in
        let close g := {| g_job := g_job g; g_handles := g_handles g - 1; g_table := g_table g |} in
        if gf_limit f then close g
        else if gf_open f then close g
        else
          let g := {| g_job := g_job g; g_handles := g_handles g + 1; g_table := g_table g |} in
          if gf_assign f then close (close g)
          else close {| g_job := true; g_handles := g_handles g; g_table := assignJob pid (g_table g) |}
  end.

(** Ending the job object's members; closing its last handle does the same. *)
Definition terminateJob (t : table) : table := map (fun p => if p_job p then stopped p else p) t.

Definition killWindows (cmd : option Z) (terminate : bool) (g : procGuard) : res error unit * procGuard :=
  if g_job g && terminate then (Ok tt, {| g_job := true; g_handles := g_handles g; g_table := terminateJob (g_table g) |})
  else match cmd with
       | None => (Err (Sentinel "no process"), g)
       | Some pid => let '(r, t) := killProcess pid (g_table g) in (r, {| g_job := g_job g; g_handles := g_handles g; g_table := t |})
       end.

Definition releaseGuard (g : procGuard) : procGuard :=
  if g_job g then {| g_job := false; g_handles := g_handles g - 1; g_table := terminateJob (g_table g) |} else g.

(** ** Nothing of a killed job runs on *)

(** What may happen at a table: anything, but nothing of ours leaves its group,
    and the child's id is not given to another process. *)
Definition calm (pid : Z) (e : pevent) (t : table) : Prop :=
  match e with
  | Fork _ q _ => q ≠ pid
  | Setsid q => q ≠ pid /\ forall p, p ∈ t -> p_pid p = q -> p_ours p = false
  | Exit _ | Reap _ => True
  end.

Fixpoint calmly (pid : Z) (es : list pevent) (t : table) : Prop :=
  match es with [] => True | e :: es' => calm pid e t /\ calmly pid es' (happen e t) end.

(** Ours are exactly the ones [mark] finds. *)
Definition marked (mark : process -> bool) (t : table) : Prop := Forall (fun p => p_ours p = mark p) t.

Definition inGroup (pid : Z) (p : process) : bool := p_group p =? pid.

Lemma onPid_marked mark q f t :
  (forall p, p ∈ t -> p_pid p = q -> p_ours (f p) = mark (f p)) -> marked mark t -> marked mark (onPid q f t).
Proof.
  intros Hf Ht. unfold marked, onPid in *. rewrite Forall_forall in *. intros p' (p & -> & Hp)%list_elem_of_fmap.
  destruct (Z.eqb_spec (p_pid p) q); [by apply Hf|by apply Ht].
Qed.

Lemma fork_marked mark parent q b t :
  (forall p, mark (forked q b p) = mark p) -> marked mark t -> marked mark (happen (Fork parent q b) t).
Proof.
  intros Hf Hall. cbn [happen]. destruct (find _ t) as [p|] eqn:E; [|done]. apply find_some in E as [Hin _].
  apply Forall_app. split; [done|]. constructor; [|done]. unfold marked in Hall. rewrite Forall_forall in Hall.
  rewrite Hf. cbn [forked p_ours]. apply Hall. by apply list_elem_of_In.
Qed.

Lemma reap_marked mark q t : marked mark t -> marked mark (happen (Reap q) t).
Proof.
  unfold marked. rewrite !Forall_forall. intros Hall p Hp. cbn [happen] in Hp.
  rewrite list_elem_of_In, filter_In in Hp. destruct Hp as [Hp _]. apply Hall. by apply list_elem_of_In.
Qed.

Lemma happen_group pid e t :
  calm pid e t -> marked (inGroup pid) t -> marked (inGroup pid) (happen e t).
Proof.
  destruct e as [parent q b|q|q|q]; intros He Ht; [by apply fork_marked| | |by apply reap_marked]; apply onPid_marked; try done.
  - intros p Hp _. unfold marked in Ht. rewrite Forall_forall in Ht. exact (Ht p Hp).
  - destruct He as [Hq He]. intros p Hp Hpid. unfold inGroup. cbn. rewrite (He p Hp Hpid), Hpid. symmetry. by apply Z.eqb_neq.
Qed.

Lemma happens_group pid es t :
  calmly pid es t -> marked (inGroup pid) t -> marked (inGroup pid) (happens es t).
Proof. revert t. induction es as [|e es IH]; intros t; [done|]. intros [He Hes] Ht. apply IH; [done|]. by apply happen_group. Qed.

Lemma happens_job es t : marked p_job t -> marked p_job (happens es t).
Proof.
  revert t. induction es as [|e es IH]; intros t Ht; [done|]. apply IH. unfold marked in Ht. pose proof Ht as Ht'. rewrite Forall_forall in Ht'.
  destruct e as [parent q b|q|q|q]; [by apply fork_marked|apply onPid_marked; [intros p Hp _; exact (Ht' p Hp)|done]..|by apply reap_marked].
Qed.

(** A host on which nothing is ours yet and the child's id is not in use. *)
Definition strangers (pid : Z) (t : table) : Prop :=
  Forall (fun p => p_ours p = false /\ p_group p ≠ pid /\ p_pid p ≠ pid /\ p_job p = false) t.

Lemma startGroup_marked pid b t : strangers pid t -> marked (inGroup pid) (startGroup pid b t).
Proof.
  intros Ht. apply Forall_app. split; [|constructor; [|done]; unfold inGroup; cbn; by rewrite Z.eqb_refl].
  eapply Forall_impl; [exact Ht|]. intros p (-> & Hg & _). unfold inGroup. by rewrite (proj2 (Z.eqb_neq _ _)).
Qed.

(** Nothing that is ours runs, and nothing that is not was touched. *)
Definition onlyOursKilled (t t' : table) : Prop :=
  (forall p, p ∈ t' -> p_ours p = true -> p_runs p = false) /\
  List.filter (fun p => negb (p_ours p)) t' = List.filter (fun p => negb (p_ours p)) t.

Lemma killed_marked (mark : process -> bool) t :
  marked mark t -> onlyOursKilled t (map (fun p => if mark p then stopped p else p) t).
Proof.
  intros Hall. unfold marked in Hall. split.
  - intros p Hp Ho. apply list_elem_of_fmap in Hp as (q & -> & Hq). rewrite Forall_forall in Hall. specialize (Hall q Hq).
    destruct (mark q) eqn:E; [done|]. congruence.
  - induction Hall as [|p t Hp _ IH]; [done|]. cbn [map List.filter]. rewrite <- Hp.
    destruct (p_ours p) eqn:E; cbn [stopped p_ours negb]; rewrite ?E; cbn [negb]; by rewrite IH.
Qed.

(** Something of ours is in the table, running or not yet waited for. *)
Definition present (t : table) : bool := existsb p_ours t.

Lemma absent_killed t : present t = false -> onlyOursKilled t t.
Proof.
  intros Hp. split; [|done]. intros p Hin Ho. exfalso. revert Hp. apply not_false_iff_true, existsb_exists.
  exists p. split; [by apply list_elem_of_In|done].
Qed.

Lemma existsb_ext_in {A} (f g : A -> bool) l : Forall (fun x => f x = g x) l -> existsb f l = existsb g l.
Proof. induction 1 as [|x l Hx _ IH]; [done|]. cbn. by rewrite Hx, IH. Qed.

Lemma killGroup_marked pid s t :
  marked (inGroup pid) t ->
  killGroup pid s t =
  if present t then (Ok tt, map (fun p => if inGroup pid p then deliver s p else p) t) else (Err ESRCH, t).
Proof. intros Ht. unfold killGroup, present. by rewrite (existsb_ext_in p_ours (inGroup pid)). Qed.

Lemma killProcess_absent pid t : present t = false -> killProcess pid t = (Err ErrProcessDone, t).
Proof.
  intros Hp. unfold killProcess. destruct (existsb _ t) eqn:E; [|done]. apply existsb_exists in E as (p & Hin & [_ Ho]%andb_true_iff).
  exfalso. revert Hp. apply not_false_iff_true, existsb_exists. by exists p.
Qed.

Lemma deliver_marked pid s t :
  marked (inGroup pid) t -> marked (inGroup pid) (map (fun p => if inGroup pid p then deliver s p else p) t).
Proof.
  intros Ht. apply Forall_map. eapply Forall_impl; [exact Ht|]. intros p Hp. cbn beta.
  destruct (inGroup pid p) eqn:E; [|exact Hp]. unfold deliver. destruct s, (p_stubborn p); exact Hp || by rewrite Hp.
Qed.

(** C11: Killing a script kills its whole tree.  Whatever the child and the processes
    it started have done since (started more, exited, been reaped, the child
    included), as long as none of them left the process group and the system has
    not given the child's id to another process, nothing that descends from the
    child runs after the kill, and no other process is touched; the kill reports
    success exactly when something of the tree was still in the process table,
    and otherwise that the process is done, having changed nothing.  The same
    holds of a package manager: if something of it is left when the first,
    gentler signal is sent, then, once the grace is over and whatever its
    processes did with that signal, nothing of it runs. *)
Theorem killed_job_leaves_nothing_running (pid : Z) (b : bool) (t0 : table) (es es' : list pevent) :
  strangers pid t0 -> calmly pid es (startGroup pid b t0) ->
  let t := happens es (startGroup pid b t0) in
  (exists r t', killUnix (Some pid) t = (r, t') /\ onlyOursKilled t t' /\
     r = (if present t then Ok tt else Err ErrProcessDone) /\ (present t = false -> t' = t)) /\
  (exists r due t1, terminateGroup (Some pid) t = ((r, due), t1) /\ due = present t /\
     r = (if present t then Ok tt else Err ErrProcessDone) /\
     (present t = false -> t1 = t /\ onlyOursKilled t t1) /\
     (calmly pid es' t1 -> onlyOursKilled (happens es' t1) (afterGrace pid (happens es' t1)))).
Proof.
  intros Ht0 Hes t.
  assert (Ht : marked (inGroup pid) t) by (apply happens_group; [done|by apply startGroup_marked]).
  assert (Hgrace : forall t1, marked (inGroup pid) t1 -> calmly pid es' t1 ->
    onlyOursKilled (happens es' t1) (afterGrace pid (happens es' t1))).
  { intros t1 Ht1 Hes'. pose proof (happens_group pid es' t1 Hes' Ht1) as Ht2. unfold afterGrace. rewrite killGroup_marked by done.
    destruct (present (happens es' t1)) eqn:Ep; [by apply (killed_marked (inGroup pid))|by apply absent_killed]. }
  split.
  - unfold killUnix. rewrite killGroup_marked by done. destruct (present t) eqn:Ep.
    + eexists _, _. split; [reflexivity|]. split; [by apply (killed_marked (inGroup pid))|done].
    + rewrite killProcess_absent by done. eexists _, _. split; [reflexivity|]. split; [by apply absent_killed|done].
  - unfold terminateGroup. rewrite killGroup_marked by done. destruct (present t) eqn:Ep.
    + eexists _, _, _. split; [reflexivity|]. split_and!; [done|done|done|]. by apply Hgrace, deliver_marked.
    + rewrite killProcess_absent by done. eexists _, _, _. split; [reflexivity|].
      split_and!; [done|done|by split; [|apply absent_killed]|by apply Hgrace].
Qed.

Definition shellOnHost : table :=
  [{| p_pid := 1; p_group := 1; p_job := false; p_ours := false; p_runs := true; p_stubborn := true |}].

(** The child has exited and been waited for, one of its children runs on. *)
Definition orphaned : list pevent := [Fork 40 41 true; Exit 40; Fork 41 42 false; Reap 40; Setsid 1].

Lemma killed_job_leaves_nothing_running_witness :
  let t := happens orphaned (startGroup 40 false shellOnHost) in
  length t = 3%nat /\
  (exists t', killUnix (Some 40) t = (Ok tt, t') /\ onlyOursKilled t t') /\
  (exists t1, terminateGroup (Some 40) t = ((Ok tt, true), t1) /\
     onlyOursKilled (happens [Fork 41 43 true] t1) (afterGrace 40 (happens [Fork 41 43 true] t1))).
Proof.
  split; [reflexivity|].
  destruct (killed_job_leaves_nothing_running 40 false shellOnHost orphaned [Fork 41 43 true])
    as [(r & t' & H1 & H2 & H3 & _) (r1 & due & t1 & H4 & H5 & H6 & _ & H7)].
  - apply Forall_cons_2; [by split_and!|apply Forall_nil_2].
  - cbn. split_and!; try done. intros p. rewrite !elem_of_cons, elem_of_nil. by intros [->|[->|[->|[]]]].
  - split; [exists t'; split; [rewrite H1, H3; reflexivity|exact H2]|].
    exists t1. split; [rewrite H4, H5, H6; reflexivity|]. apply H7. by split.
Defined.

(** A process that starts a session of its own is not in the group any more:
    it survives the kill of the job. *)
Lemma a_daemon_escapes_the_kill :
  let t := happens [Fork 40 41 false; Setsid 41] (startGroup 40 false shellOnHost) in
  exists p, p ∈ (killUnix (Some 40) t).2 /\ p_ours p = true /\ p_runs p = true.
Proof. cbn. eexists. split; [do 2 right; left|done]. Qed.

Lemma assigned_marked pid b t : strangers pid t -> marked p_job (assignJob pid (startGroup pid b t)).
Proof.
  intros Ht. unfold assignJob, startGroup, onPid. rewrite map_app. cbn [map p_pid]. rewrite Z.eqb_refl.
  apply Forall_app. split; [|by constructor]. apply Forall_map. eapply Forall_impl; [exact Ht|].
  intros p (Ho & _ & Hp & Hj). cbn beta. by rewrite (proj2 (Z.eqb_neq _ _)) by done; rewrite Ho, Hj.
Qed.

(** The job object of Windows.  Once the child is in it, everything the child
    starts is, whatever it does; but what the child started before the agent
    put it there is not, and survives both the kill and the end of the guard. *)
Theorem job_object_holds_what_came_later (pid : Z) (b : bool) (t0 : table) (f : guardFaults) (h : Z) (es : list pevent) :
  strangers pid t0 ->
  let g0 := {| g_job := false; g_handles := h; g_table := startGroup pid b t0 |} in
  let g := afterStart (Some pid) f g0 in
  let later := {| g_job := g_job g; g_handles := g_handles g; g_table := happens es (g_table g) |} in
  g_handles g = h + (if g_job g then 1 else 0) /\ g_handles (releaseGuard later) = h /\
  (g_job g = true ->
     onlyOursKilled (g_table later) (g_table (killWindows (Some pid) true later).2) /\
     onlyOursKilled (g_table later) (g_table (releaseGuard later))).
Proof.
  intros Ht0 g0 g later.
  assert (Hcount : g_handles g = h + (if g_job g then 1 else 0)).
  { unfold g, afterStart. destruct f as [[] [] [] []]; cbn; lia. }
  split_and!; [done|unfold releaseGuard; cbn [later g_job]; revert Hcount; destruct (g_job g); cbn; lia|].
  intros Hj. assert (Hm : marked p_job (g_table later)).
  { assert (Hg : g_table g = assignJob pid (startGroup pid b t0)).
    { unfold g, afterStart in Hj |- *. destruct f as [[] [] [] []]; cbn in Hj |- *; try discriminate; done. }
    cbn [later g_table]. rewrite Hg. by apply happens_job, assigned_marked. }
  unfold killWindows, releaseGuard. cbn [later g_job]. rewrite Hj. cbn [andb snd g_table].
  split; by apply (killed_marked p_job).
Qed.

Definition noFaults : guardFaults := {| gf_create := false; gf_limit := false; gf_open := false; gf_assign := false |}.

Lemma job_object_holds_what_came_later_witness :
  let g0 := {| g_job := false; g_handles := 7; g_table := startGroup 40 false shellOnHost |} in
  let g := afterStart (Some 40) noFaults g0 in
  let later := {| g_job := g_job g; g_handles := g_handles g; g_table := happens [Fork 40 41 true; Setsid 41] (g_table g) |} in
  g_handles (releaseGuard later) = 7 /\ onlyOursKilled (g_table later) (g_table (killWindows (Some 40) true later).2).
Proof.
  destruct (job_object_holds_what_came_later 40 false shellOnHost noFaults 7 [Fork 40 41 true; Setsid 41]) as (_ & H1 & H2).
  - apply Forall_cons_2; [by split_and!|apply Forall_nil_2].
  - split; [exact H1|]. apply H2. reflexivity.
Defined.

Lemma an_early_child_escapes_the_job_object :
  let t := happens [Fork 40 41 false] (startGroup 40 false shellOnHost) in
  let g := afterStart (Some 40) noFaults {| g_job := false; g_handles := 0; g_table := t |} in
  let g' := releaseGuard (killWindows (Some 40) true g).2 in
  exists p, p ∈ g_table g' /\ p_ours p = true /\ p_runs p = true.
Proof. cbn. eexists. split; [do 2 right; left|done]. Qed.

(** ** scripts/pipes.go

    [fds] are the descriptors the agent has open; a pipe takes two that are
    not. *)
Record outPipes := { outR : Z; outW : Z; errR : Z; errW : Z }.

Definition newOutPipes (pipe1 pipe2 : res error (Z * Z)) (fds : gset Z) : res error outPipes * gset Z :=
  match pipe1 with
  | Err e => (Err e, fds)
  | Ok (r1, w1) =>
      let fds := {[r1; w1]} ∪ fds in
      match pipe2 with
      | Err e => (Err e, fds ∖ {[r1; w1]})
      | Ok (r2, w2) => (Ok {| outR := r1; outW := w1; errR := r2; errW := w2 |}, {[r2; w2]} ∪ fds)
      end
  end.

(** Closing a file that is closed is harmless. *)
Definition closeWrite (p : outPipes) (fds : gset Z) : gset Z := fds ∖ {[outW p; errW p]}.
Definition closeRead (p : outPipes) (fds : gset Z) : gset Z := fds ∖ {[outR p; errR p]}.
Definition closeAll (p : outPipes) (fds : gset Z) : gset Z := closeRead p (closeWrite p fds).

(** A script's pipes are closed on every path: when one of them cannot be made,
    and at the end of the run, however far the ends were closed before. *)
Lemma pipes_do_not_leak pipe1 pipe2 (fds : gset Z) :
  (forall r w, pipe1 = Ok (r, w) -> r ∉ fds /\ w ∉ fds) ->
  (forall r w r' w', pipe1 = Ok (r, w) -> pipe2 = Ok (r', w') -> r' ∉ {[r; w]} ∪ fds /\ w' ∉ {[r; w]} ∪ fds) ->
  match newOutPipes pipe1 pipe2 fds with
  | (Err _, fds') => fds' = fds
  | (Ok p, fds') =>
      closeAll p fds' = fds /\ closeAll p (closeWrite p fds') = fds /\ closeAll p (closeRead p (closeWrite p fds')) = fds
  end.
Proof.
  intros H1 H2. unfold newOutPipes, closeAll, closeRead, closeWrite. destruct pipe1 as [[r1 w1]|e1]; [|done].
  specialize (H1 r1 w1 eq_refl). destruct pipe2 as [[r2 w2]|e2]; [|set_solver].
  specialize (H2 r1 w1 r2 w2 eq_refl eq_refl). cbn [outR outW errR errW]. split_and!; set_solver.
Qed.

(** ** Terminals (shell/pty.go, pty_unix.go, pty_windows.go) *)

Definition TERM : bytes := str "TERM=".

Definition ptyEnv (base : list bytes) : list bytes :=
  List.filter (fun kv => negb (HasPrefix kv TERM)) base ++ [str "TERM=xterm-256color"].

Definition winsize (cols rows : Z) : Z * Z := (if cols =? 0 then 80 else cols, if rows =? 0 then 24 else rows).

Section shells.
Context (isExecutable : bytes -> bool) (LookPath : bytes -> res error bytes).

Definition asked (name : bytes) : bytes := ToLower (TrimSpace name).
Definition isDefault (name : bytes) : bool := bool_decide (asked name ∈ [[]; str "auto"; str "default"]).

(** Unix; [SHELL] is the environment variable. *)
Definition resolveShell (SHELL name : bytes) : res error bytes :=
  if isDefault name then
    if negb (bool_decide (SHELL = [])) && isExecutable SHELL then Ok SHELL
    else match find isExecutable [str "/bin/bash"; str "/bin/sh"] with
         | Some c => Ok c
         | None => Err (Sentinel "no shell found (tried $SHELL, /bin/bash, /bin/sh)")
         end
  else if bool_decide (asked name ∈ [str "bash"; str "zsh"; str "sh"]) then
    match LookPath (asked name) with Ok p => Ok p | Err e => Err (Errorf "shell not found" e) end
  else Err (Sentinel "unsupported shell").

(** Windows: the candidates of a name, and the first that is on the path. *)
Definition candidates (name : bytes) : option (list bytes) :=
  let n := asked name in
  if isDefault name then Some [str "powershell.exe"; str "pwsh.exe"; str "cmd.exe"]
  else if bool_decide (n = str "powershell") then Some [str "powershell.exe"; str "pwsh.exe"]
  else if bool_decide (n = str "pwsh") then Some [str "pwsh.exe"; str "powershell.exe"]
  else if bool_decide (n = str "cmd") then Some [str "cmd.exe"]
  else if bool_decide (n ∈ [str "bash"; str "sh"]) then Some [str "bash.exe"]
  else None.

Fixpoint firstOnPath (cs : list bytes) : option bytes :=
  match cs with
  | [] => None
  | c :: cs' => match LookPath c with Ok p => Some p | Err _ => firstOnPath cs' end
  end.

Definition resolveShellWindows (name : bytes) : res error bytes :=
  match candidates name with
  | None => Err (Sentinel "unsupported shell")
  | Some cs => match firstOnPath cs with Some p => Ok p | None => Err (Sentinel "shell not found") end
  end.

Lemma firstOnPath_spec cs p : firstOnPath cs = Some p -> exists c, c ∈ cs /\ LookPath c = Ok p.
Proof.
  induction cs as [|c cs IH]; [done|]. cbn. destruct (LookPath c) eqn:E; [intros [= <-]; exists c; set_solver|].
  intros (c' & ? & ?)%IH. exists c'. set_solver.
Qed.

(** A terminal runs a known shell.  The name comes off the wire, and whatever it
    is, the program that is started is the host's own [$SHELL] or system shell,
    or what the path has under one of a few fixed names. *)
Theorem terminal_runs_a_known_shell (SHELL name p : bytes) :
  (resolveShell SHELL name = Ok p ->
     (isExecutable p = true /\ p ∈ [SHELL; str "/bin/bash"; str "/bin/sh"]) \/
     exists c, c ∈ [str "bash"; str "zsh"; str "sh"] /\ c = asked name /\ LookPath c = Ok p) /\
  (resolveShellWindows name = Ok p ->
     exists c, c ∈ [str "powershell.exe"; str "pwsh.exe"; str "cmd.exe"; str "bash.exe"] /\ LookPath c = Ok p).
Proof.
  split.
  - unfold resolveShell. destruct (isDefault name).
    + destruct (negb _ && isExecutable SHELL) eqn:E.
      * intros [= <-]. apply andb_true_iff in E as [_ E]. left. split; [done|set_solver].
      * destruct (find _ _) eqn:Ef; [|done]. intros [= <-]. left. apply find_some in Ef as [Hin ?].
        apply list_elem_of_In in Hin. split; [done|set_solver].
    + case_bool_decide as Hn; [|done]. destruct (LookPath (asked name)) eqn:E; [|done]. intros [= <-]. right. by exists (asked name).
  - unfold resolveShellWindows. destruct (candidates name) as [cs|] eqn:Ec; [|done].
    destruct (firstOnPath cs) eqn:Ef; [|done]. intros [= <-]. destruct (firstOnPath_spec _ _ Ef) as (c & Hc & Hl).
    exists c. split; [|done]. unfold candidates in Ec. repeat case_match; simplify_eq; set_solver.
Qed.
End shells.

(** [unixPTY.Close]: the terminal is hung up, then the session's group is
    killed, or the shell alone; the error is that of closing the terminal. *)
Definition closePTY (closed : option error) (cmd : option Z) (t : table) : option error * table :=
  (closed, match cmd with None => t | Some _ => (killUnix cmd t).2 end).

(** What [cmd.Wait] gives, and [unixPTY.Wait]. *)
Inductive waitReply : Type := WaitNil | WaitExit (code : Z) | WaitOther (e : error).

Definition waitPTY (r : waitReply) : Z * option error :=
  match r with WaitNil => (0, None) | WaitExit code => (code, None) | WaitOther e => (-1, Some e) end.

(** [windowsPTY.Wait]: the first call waits, the others repeat its answer. *)
Definition waitOnce (first : option (Z * option error)) (now : res error Z) : Z * option error :=
  match first with
  | Some r => r
  | None => match now with Ok code => (code, None) | Err e => (-1, Some e) end
  end.

(** ** The wait of [runCmd] (patch/exec.go)

    The command's output ends when no process holds the pipe: the ones of the
    command's group, and the ones that left it.  One goroutine reads until
    then; a second waits for it and only then calls [cmd.Wait]; the caller
    selects on the second and on the context.  [os/exec] closes the pipe after
    [WaitDelay], from inside [cmd.Wait]. *)
Record waiting := {
  wt_group : nat;        (** writers in the group *)
  wt_escaped : nat;      (** writers that are not *)
  wt_exited : bool;      (** the command itself has exited *)
  wt_ctx : bool;         (** the context is done *)
  wt_closed : bool;      (** the pipe was closed *)
  wt_drained : bool;
  wt_inWait : bool;      (** [cmd.Wait] has been called *)
  wt_done : bool;        (** and has returned *)
  wt_returned : bool;    (** [runCmd] has returned *)
}.

Inductive wstep (letFinish : bool) : waiting -> waiting -> Prop :=
  | WExitMember s n : wt_group s = S n ->
      wstep letFinish s {| wt_group := n; wt_escaped := wt_escaped s; wt_exited := wt_exited s; wt_ctx := wt_ctx s;
        wt_closed := wt_closed s; wt_drained := wt_drained s; wt_inWait := wt_inWait s; wt_done := wt_done s; wt_returned := wt_returned s |}
  | WExitCommand s :
      wstep letFinish s {| wt_group := wt_group s; wt_escaped := wt_escaped s; wt_exited := true; wt_ctx := wt_ctx s;
        wt_closed := wt_closed s; wt_drained := wt_drained s; wt_inWait := wt_inWait s; wt_done := wt_done s; wt_returned := wt_returned s |}
  | WEscape s n : wt_group s = S n ->
      wstep letFinish s {| wt_group := n; wt_escaped := S (wt_escaped s); wt_exited := wt_exited s; wt_ctx := wt_ctx s;
        wt_closed := wt_closed s; wt_drained := wt_drained s; wt_inWait := wt_inWait s; wt_done := wt_done s; wt_returned := wt_returned s |}
  | WContext s :
      wstep letFinish s {| wt_group := wt_group s; wt_escaped := wt_escaped s; wt_exited := wt_exited s; wt_ctx := true;
        wt_closed := wt_closed s; wt_drained := wt_drained s; wt_inWait := wt_inWait s; wt_done := wt_done s; wt_returned := wt_returned s |}
  (** the second signal of [terminateGroup] *)
  | WKill s : wt_ctx s = true -> letFinish = false ->
      wstep letFinish s {| wt_group := 0; wt_escaped := wt_escaped s; wt_exited := true; wt_ctx := wt_ctx s;
        wt_closed := wt_closed s; wt_drained := wt_drained s; wt_inWait := wt_inWait s; wt_done := wt_done s; wt_returned := wt_returned s |}
  | WDrained s : (wt_group s = 0 /\ wt_escaped s = 0)%nat \/ wt_closed s = true ->
      wstep letFinish s {| wt_group := wt_group s; wt_escaped := wt_escaped s; wt_exited := wt_exited s; wt_ctx := wt_ctx s;
        wt_closed := wt_closed s; wt_drained := true; wt_inWait := wt_inWait s; wt_done := wt_done s; wt_returned := wt_returned s |}
  | WCallWait s : wt_drained s = true ->
      wstep letFinish s {| wt_group := wt_group s; wt_escaped := wt_escaped s; wt_exited := wt_exited s; wt_ctx := wt_ctx s;
        wt_closed := wt_closed s; wt_drained := wt_drained s; wt_inWait := true; wt_done := wt_done s; wt_returned := wt_returned s |}
  | WDelay s : wt_inWait s = true -> wt_ctx s = true \/ wt_exited s = true -> letFinish = false ->
      wstep letFinish s {| wt_group := wt_group s; wt_escaped := wt_escaped s; wt_exited := wt_exited s; wt_ctx := wt_ctx s;
        wt_closed := true; wt_drained := wt_drained s; wt_inWait := wt_inWait s; wt_done := wt_done s; wt_returned := wt_returned s |}
  | WWaited s : wt_inWait s = true -> wt_exited s = true ->
      wstep letFinish s {| wt_group := wt_group s; wt_escaped := wt_escaped s; wt_exited := wt_exited s; wt_ctx := wt_ctx s;
        wt_closed := wt_closed s; wt_drained := wt_drained s; wt_inWait := wt_inWait s; wt_done := true; wt_returned := wt_returned s |}
  | WReturn s : wt_done s = true \/ (wt_ctx s = true /\ letFinish = true) ->
      wstep letFinish s {| wt_group := wt_group s; wt_escaped := wt_escaped s; wt_exited := wt_exited s; wt_ctx := wt_ctx s;
        wt_closed := wt_closed s; wt_drained := wt_drained s; wt_inWait := wt_inWait s; wt_done := wt_done s; wt_returned := true |}.

(** A command that has just been started. *)
Definition started : waiting :=
  {| wt_group := 1; wt_escaped := 0; wt_exited := false; wt_ctx := false; wt_closed := false; wt_drained := false;
     wt_inWait := false; wt_done := false; wt_returned := false |}.

(** Nobody waits before the output is drained, and the pipe is only closed by
    the wait. *)
Definition ordered (s : waiting) : Prop :=
  (wt_closed s = true -> wt_inWait s = true) /\ (wt_inWait s = true -> wt_drained s = true) /\
  (wt_done s = true -> wt_inWait s = true).

Lemma wstep_ordered lf s s' : wstep lf s s' -> ordered s -> ordered s'.
Proof. intros Hs (H1 & H2 & H3). destruct Hs; unfold ordered; cbn in *; split_and!; auto. Qed.

Lemma reached_ordered lf s s' : rtc (wstep lf) s s' -> ordered s -> ordered s'.
Proof. induction 1; eauto using wstep_ordered. Qed.

(** A process that left the group keeps the pipe. *)
Lemma wstep_stuck s s' :
  wstep false s s' -> ordered s -> (0 < wt_escaped s)%nat -> wt_drained s = false -> wt_returned s = false ->
  (0 < wt_escaped s')%nat /\ wt_drained s' = false /\ wt_returned s' = false.
Proof.
  intros Hs (H1 & H2 & H3) He Hd Hr.
  assert (Hc : wt_closed s = false) by (destruct (wt_closed s); [|done]; specialize (H2 (H1 eq_refl)); congruence).
  assert (Hw : wt_inWait s = false) by (destruct (wt_inWait s); [|done]; specialize (H2 eq_refl); congruence).
  assert (Hn : wt_done s = false) by (destruct (wt_done s); [|done]; specialize (H3 eq_refl); congruence).
  destruct Hs; cbn; split_and!; try done; try lia.
  - destruct H as [[? ?]|?]; [lia|congruence].
  - destruct H as [?|[_ ?]]; congruence.
Qed.

(** The wait for a package manager is bounded by its process group, and by
    nothing else.  While every process that holds the output is in the group,
    a command that is to be stopped does return; but once one of them has left
    the group, the call does not return before that process ends, however long
    ago the deadline was: the delay that would close the pipe belongs to
    [cmd.Wait], which is called only when the pipe has been drained. *)
Theorem runCmd_waits_for_what_left_the_group :
  (forall s, rtc (wstep false) started s -> wt_escaped s = 0%nat -> wt_ctx s = true ->
     exists s', rtc (wstep false) s s' /\ wt_returned s' = true) /\
  (forall s s', rtc (wstep false) started s -> (0 < wt_escaped s)%nat -> wt_drained s = false -> wt_returned s = false ->
     rtc (wstep false) s s' -> wt_returned s' = false) /\
  (exists s, rtc (wstep false) started s /\ wt_ctx s = true /\ wt_exited s = true /\
     (0 < wt_escaped s)%nat /\ wt_drained s = false /\ wt_returned s = false).
Proof.
  split_and!.
  - intros s _ He Hc. eexists. split.
    + eapply rtc_l; [by apply WKill|]. eapply rtc_l; [apply WDrained; by left|]. eapply rtc_l; [by apply WCallWait|].
      eapply rtc_l; [by apply WWaited|]. eapply rtc_l; [apply WReturn; by left|]. apply rtc_refl.
    + done.
  - intros s s' Hreach. assert (Ho : ordered s) by (eapply reached_ordered; [exact Hreach|done]). clear Hreach.
    intros He Hd Hr Hs. induction Hs as [|s1 s2 s3 H12 _ IH]; [done|].
    destruct (wstep_stuck _ _ H12 Ho He Hd Hr) as (He2 & Hd2 & Hr2). eauto using wstep_ordered.
  - eexists. split.
    + eapply rtc_l; [by eapply WEscape|]. eapply rtc_l; [apply WExitCommand|]. eapply rtc_l; [apply WContext|]. apply rtc_refl.
    + cbn. split_and!; [done|done|lia|done|done].
Qed.
