(* ===== verification/Agent.v ===== *)
(** * Agent: the life of the process, and what leaves it

    From the command line to the exit code: the dispatch of cli/cli.go, [status],
    the connection's options and callbacks (conn/conn.go), and [runAgent] from
    the connection on, with the supervisor of [Supervise] inside, as one step
    system ([astep]). *)
From S2P Require Import Prelude GoLib GoText GoOS Wire Scripts Identity Credentials Supervise.

(** ** The command line *)

Inductive subcommand : Type :=
  | CVersion | CEnroll | CRun | CStatus | CInstall | CUninstall | CUpdateFinalize | CSupplicantProfile.

Definition subcommands : list (bytes * subcommand) :=
  [(str "version", CVersion); (str "enroll", CEnroll); (str "run", CRun); (str "status", CStatus);
   (str "install", CInstall); (str "uninstall", CUninstall); (str "update-finalize", CUpdateFinalize);
   (str "supplicant-profile", CSupplicantProfile)].

(** [Run]: [None] prints the usage and exits with 2. *)
Definition dispatch (args : list bytes) : option (subcommand * list bytes) :=
  match args with
  | [] => None
  | a :: rest =>
      match find (fun c => bool_decide (c.1 = a)) subcommands with
      | Some (_, c) => Some (c, rest)
      | None => None
      end
  end.

(** [cmdEnroll] after its flags are parsed; [enroll] is [enroll.Enroll]. *)
Definition cmdEnroll (flags : option (bytes * bytes)) (enroll : io (res error unit)) : io Z :=
  match flags with
  | None => ret 2
  | Some (server, token) =>
      if bool_decide (server = []) || bool_decide (token = []) then ret 2
      else let* r := enroll in ret (match r with Err _ => 1 | Ok _ => 0 end)
  end.

(** What [status] says. *)
Inductive statusText : Type := SaysNothing | NotEnrolled | EnrolledAs (agentID server natsURL : bytes).

Definition cmdStatus {JC : JSON Config} (e : hostEnv) : io (Z * statusText) :=
  let* _ := MigrateLegacyState e in
  let* r := LoadConfig e in
  match r with
  | Err _ => ret (1, SaysNothing)
  | Ok cfg =>
      ret (0, if Enrolled (Some cfg) then EnrolledAs (AgentID cfg) (ServerURL cfg) (NATSURL cfg) else NotEnrolled)
  end.

(** ** The connection *)

Record connOptions := {
  co_URL : bytes;
  co_User : bytes;
  co_Password : bytes;
  co_Name : bytes;
  co_Inbox : bytes;
  co_MaxReconnects : Z;              (** negative: for ever *)
  co_RetryOnFailedConnect : bool;
  co_ReconnectWait : Z;
  co_ReconnectJitter : Z * Z;
}.

Definition connectOptions (cfg : Config) : connOptions :=
  let shortID := if (8 <? length (AgentID cfg))%nat then take 8 (AgentID cfg) else AgentID cfg in
  {| co_URL := NATSURL cfg; co_User := AgentID cfg; co_Password := AgentSecret cfg;
     co_Name := str "everwas-agent-" ++ shortID; co_Inbox := InboxPrefix (AgentID cfg);
     co_MaxReconnects := -1; co_RetryOnFailedConnect := true; co_ReconnectWait := 2 * Second;
     co_ReconnectJitter := (Second / 2, 2 * Second) |}.

(** ** runAgent, from the connection on *)









#[export] Instance stopReason_eq_dec : EqDecision stopReason.
Proof. solve_decision. Defined.





(** ** Why it ended *)

























