(* ===== verification/Publish.v ===== *)
(** * Publish: what leaves the agent for a job (scripts/publish.go)

    Envelopes, output chunks, progress and the terminal result, against a
    server-side stream that drops a message whose id it already has, as
    JetStream does with [Nats-Msg-Id].  Encoding, time and randomness are
    parameters. *)
From S2P Require Import Prelude GoLib GoText GoOS Wire Scripts.

(** A message: subject, payload and the id in its header, empty for none. *)
Record natsMsg := Msg { nm_Subject : bytes; nm_Data : bytes; nm_ID : bytes }.

Section publish.
(** [json.Marshal] of a payload and of an envelope; the agent. *)
Context {payload : Type} (encode : payload -> option bytes) (encodeEnvelope : Envelope -> option bytes) (agentID : bytes).

(** [envelope], with the message id and the time it takes. *)
Definition envelope (msgType msgID : bytes) (now : Z) (data : payload) : option (bytes * bytes) :=
  match NewEnvelope msgType agentID msgID (encode data) now with
  | None => None
  | Some env => match encodeEnvelope env with Some raw => Some (raw, env_MsgID env) | None => None end
  end.

(** *** Progress

    One call of the function [Progress] returns: the number it takes, and what
    is sent when there is a connection and the envelope can be built.  The
    counter moves whether or not anything is sent. *)
Record progressMsg := { pm_Seq : Z; pm_Pct : Z; pm_Phase : bytes; pm_Note : bytes }.

Definition progressStep (nc : bool) (built : progressMsg -> option bytes) (jobID : bytes) (st : Z * list natsMsg)
    (c : Z * bytes * bytes) : Z * list natsMsg :=
  let '(seq, out) := st in
  let '(pct, phase, note) := c in
  let seq := seq + 1 in
  match built {| pm_Seq := seq; pm_Pct := pct; pm_Phase := phase; pm_Note := note |} with
  | None => (seq, out)
  | Some raw => (seq, if nc then out ++ [Msg (JobProgress agentID jobID) raw []] else out)
  end.

Definition Progress (nc : bool) (built : progressMsg -> option bytes) (jobID : bytes) (calls : list (Z * bytes * bytes)) :
    list natsMsg := (fold_left (progressStep nc built jobID) calls (0, [])).2.

(** *** Output and result *)

Definition publishChunk (nc : bool) (jobID : bytes) (env : option (bytes * bytes)) : res error (list natsMsg) :=
  match env with
  | None => Err (Sentinel "envelope")
  | Some (raw, msgID) => Ok (if nc then [Msg (JobOutput agentID jobID) raw msgID] else [])
  end.

(** [chunkOut]: a test's sink, the caller's, or the connection. *)
Definition chunkOut {C : Type} (emit OnChunk : option (C -> option error)) (publish : C -> option error) (c : C) : option error :=
  match emit with
  | Some f => f c
  | None => match OnChunk with Some f => f c | None => publish c end
  end.

(** [resultStream]: whether [resultsOnce] has run, and what it left. *)
Record publisher := { pb_once : bool; pb_results : bool }.

Definition resultStream (nc : bool) (newOk : bool) (p : publisher) : bool * publisher :=
  if pb_once p then (pb_results p, p)
  else
    let r := pb_results p || (nc && newOk) in (r, {| pb_once := true; pb_results := r |}).
End publish.

(** ** The stream at the other end *)

Definition stored : Type := list natsMsg.

(** A message whose id the stream has is acknowledged and dropped.  JetStream
    remembers an id for two minutes; the attempts of one publish are over well
    within that, so the window is left out. *)
Definition store (m : natsMsg) (s : stored) : stored :=
  if negb (bool_decide (nm_ID m = [])) && existsb (fun x => bool_decide (nm_ID x = nm_ID m)) s then s else s ++ [m].

(** What becomes of one publish: it does not arrive, it arrives and the
    acknowledgement is lost, or it is acknowledged. *)
Inductive transit : Type := NotArrived | AckLost | Acked.
Definition arrives (t : transit) : bool := match t with NotArrived => false | _ => true end.

Definition ackOf (t : transit) : option error := match t with Acked => None | _ => Some (Sentinel "context deadline exceeded") end.

(** [publishAck] and the stream it publishes to: the attempts [Scripts] counts,
    each of which may store the message. *)
Definition publishAckTo (transits : nat -> transit) (m : natsMsg) (s : stored) : option error * stored :=
  let '(err, attempts, _) := publishAck (fun i => ackOf (transits i)) in
  (err, fold_left (fun s i => if arrives (transits i) then store m s else s) (seq 0 attempts) s).

(** [publishResult]: [js] is what [resultStream] answered. *)
Definition publishResult (agentID jobID : bytes) (env : option (bytes * bytes)) (js nc : bool)
    (transits : nat -> transit) (s : stored) : stored :=
  match env with
  | None => s
  | Some (raw, msgID) =>
      let m := Msg (JobResult agentID jobID) raw msgID in
      if js then (publishAckTo transits m s).2
      else if nc then (if arrives (transits 0%nat) then store m s else s)
      else s
  end.

(** ** Lemmas *)

Lemma store_once m s :
  nm_ID m ≠ [] -> store m (store m s) = store m s.
Proof.
  intros Hid. unfold store at 1. rewrite bool_decide_eq_false_2 by done. cbn [negb andb].
  assert (Hin : existsb (fun x => bool_decide (nm_ID x = nm_ID m)) (store m s) = true); [|by rewrite Hin].
  unfold store. rewrite bool_decide_eq_false_2 by done. cbn [negb andb]. destruct (existsb _ s) eqn:E; [done|].
  rewrite existsb_app. apply orb_true_iff. right. cbn. by rewrite bool_decide_eq_true_2.
Qed.

Lemma stores_once (transits : nat -> transit) m idx s :
  nm_ID m ≠ [] ->
  fold_left (fun s i => if arrives (transits i) then store m s else s) idx s =
  if existsb (fun i => arrives (transits i)) idx then store m s else s.
Proof.
  intros Hid. revert s. induction idx as [|i idx IH]; intros s; [done|]. cbn [fold_left existsb]. rewrite IH.
  destruct (arrives (transits i)); cbn [orb]; [|done]. destruct (existsb _ idx); [by apply store_once|done].
Qed.

Lemma fresh_store m s : Forall (fun x => nm_ID x ≠ nm_ID m) s -> store m s = s ++ [m].
Proof.
  intros Hf. unfold store. assert (Hn : existsb (fun x => bool_decide (nm_ID x = nm_ID m)) s = false).
  { apply not_true_iff_false. rewrite existsb_exists. intros (x & Hx & Hb). rewrite Forall_forall in Hf.
    apply (Hf x); [by apply list_elem_of_In|by apply bool_decide_eq_true_1 in Hb]. }
  by rewrite Hn, andb_false_r.
Qed.

(** C20: The terminal result of a job reaches the server at most once, and is known
    to have reached it when the agent thinks so.  Whatever happens to each of
    the attempts (lost, or stored with the acknowledgement lost), the stream
    has the result once or not at all and is otherwise unchanged; it has it
    whenever [publishAck] returns no error, and an error without it means that
    none of the three attempts arrived. *)
Theorem result_is_stored_at_most_once (agentID jobID raw msgID : bytes) (transits : nat -> transit) (s : stored) :
  msgID ≠ [] -> Forall (fun x => nm_ID x ≠ msgID) s ->
  let m := Msg (JobResult agentID jobID) raw msgID in
  let s' := publishResult agentID jobID (Some (raw, msgID)) true true transits s in
  (s' = s \/ s' = s ++ [m]) /\
  ((publishAckTo transits m s).1 = None -> s' = s ++ [m]) /\
  (s' = s -> forall i, (i < resultAttempts)%nat -> transits i = NotArrived).
Proof.
  intros Hid Hf m s'. assert (Hs : store m s = s ++ [m]) by by apply fresh_store.
  assert (Hne : s ++ [m] ≠ s) by (intros Heq; apply (f_equal length) in Heq; rewrite length_app in Heq; cbn in Heq; lia).
  assert (Hval : s' = if existsb (fun i => arrives (transits i)) (seq 0 (publishAck (fun i => ackOf (transits i))).1.2)
                      then s ++ [m] else s).
  { unfold s', publishResult, publishAckTo. destruct (publishAck _) as [[err attempts] slept]. cbn [fst snd].
    fold m. rewrite stores_once by done. by rewrite Hs. }
  assert (Hone : (publishAckTo transits m s).1 = (publishAck (fun i => ackOf (transits i))).1.1).
  { unfold publishAckTo. by destruct (publishAck _) as [[err attempts] slept]. }
  rewrite Hone, Hval. unfold publishAck, resultAttempts. cbn [publishAck_loop].
  destruct (transits 0%nat) eqn:E0, (transits 1%nat) eqn:E1, (transits 2%nat) eqn:E2;
    cbn [ackOf fst snd seq existsb]; rewrite ?E0, ?E1, ?E2; cbn [arrives orb];
    (split_and!; [by (left + right)|try done|]);
    try (intros Heq; by destruct (Hne Heq)); intros _ i Hi; destruct i as [|[|[|i]]]; (done || lia).
Qed.

Lemma result_is_stored_at_most_once_witness :
  let m := Msg (JobResult (str "a1") (str "j1")) (str "{}") (str "01HZ") in
  let s' := publishResult (str "a1") (str "j1") (Some (str "{}", str "01HZ")) true true (fun i => if (i =? 0)%nat then AckLost else Acked) [] in
  (s' = [] \/ s' = [m]) /\ ((publishAckTo (fun i => if (i =? 0)%nat then AckLost else Acked) m []).1 = None -> s' = [m]).
Proof.
  destruct (result_is_stored_at_most_once (str "a1") (str "j1") (str "{}") (str "01HZ")
    (fun i => if (i =? 0)%nat then AckLost else Acked) []) as (H1 & H2 & _); [done|apply Forall_nil_2|]. split; [exact H1|exact H2].
Defined.

(** Without the header the same retries would store the result twice. *)
Example an_unnumbered_result_is_doubled :
  let m := Msg (JobResult (str "a1") (str "j1")) (str "{}") [] in
  (publishAckTo (fun i => if (i =? 0)%nat then AckLost else Acked) m []).2 = [m; m].
Proof. vm_compute. reflexivity. Qed.

(** The publisher of results is decided once: if the first attempt to make one
    fails, every later result goes out unacknowledged. *)
Lemma first_answer_is_for_good nc newOk nc' newOk' p :
  let '(r, p') := resultStream nc newOk p in resultStream nc' newOk' p' = (r, p').
Proof. unfold resultStream. destruct (pb_once p) eqn:E; [by rewrite E|done]. Qed.

(** Progress is numbered by the calls, from one: a report that could not be
    built or sent leaves a gap, and never moves the number of a later one. *)
Theorem progress_is_numbered (agentID : bytes) (built : progressMsg -> option bytes) (jobID : bytes) (calls : list (Z * bytes * bytes)) :
  Progress agentID true built jobID calls =
  omap id (imap (fun i (c : Z * bytes * bytes) =>
    option_map (fun raw => Msg (JobProgress agentID jobID) raw [])
      (built {| pm_Seq := Z.of_nat i + 1; pm_Pct := c.1.1; pm_Phase := c.1.2; pm_Note := c.2 |})) calls).
Proof.
  unfold Progress.
  assert (H : forall n out, (fold_left (progressStep agentID true built jobID) calls (Z.of_nat n, out)).2 =
    out ++ omap id (imap (fun i (c : Z * bytes * bytes) =>
      option_map (fun raw => Msg (JobProgress agentID jobID) raw [])
        (built {| pm_Seq := Z.of_nat (n + i) + 1; pm_Pct := c.1.1; pm_Phase := c.1.2; pm_Note := c.2 |})) calls)).
  { induction calls as [|[[pct phase] note] calls IH]; intros n out; [by rewrite app_nil_r|].
    cbn [fold_left imap progressStep]. rewrite Nat.add_0_r. cbn [fst snd].
    replace (Z.of_nat n + 1) with (Z.of_nat (S n)) by lia.
    assert (Himap : forall l, imap ((fun i (c : Z * bytes * bytes) => option_map (fun raw => Msg (JobProgress agentID jobID) raw [])
        (built {| pm_Seq := Z.of_nat (n + i) + 1; pm_Pct := c.1.1; pm_Phase := c.1.2; pm_Note := c.2 |})) ∘ S) l =
      imap (fun i (c : Z * bytes * bytes) => option_map (fun raw => Msg (JobProgress agentID jobID) raw [])
        (built {| pm_Seq := Z.of_nat (S n + i) + 1; pm_Pct := c.1.1; pm_Phase := c.1.2; pm_Note := c.2 |})) l).
    { intros l. apply imap_ext. intros i c _. cbn. by rewrite Nat.add_succ_r. }
    destruct (built _) as [raw|]; cbn [option_map omap]; rewrite IH, Himap; [by rewrite <- app_assoc|done]. }
  apply (H 0%nat []).
Qed.
