(* ===== verification/Sysinfo.v ===== *)
(** * Sysinfo: what a machine says it is (packages sysinfo, inventory)

    [OSFamily], [Arch], [OSVersion] and [prettyName] of sysinfo/sysinfo.go, and
    [collectHardware] of inventory/hardware.go over what the system answers. *)
From S2P Require Import Prelude GoLib GoText GoOS Render Inventory.

Definition osFamilyFor (goos : bytes) : bytes := if bool_decide (goos = str "darwin") then str "macos" else goos.

Definition archFor (goarch : bytes) : bytes :=
  if bool_decide (goarch = str "amd64") then str "x86_64"
  else if bool_decide (goarch = str "arm64") then str "aarch64"
  else goarch.

Fixpoint prettyLine (lines : list bytes) : bytes :=
  match lines with
  | [] => []
  | line :: lines' =>
      match CutPrefix (TrimSpace line) (str "PRETTY_NAME=") with
      | Some v => Trim [dq] v
      | None => prettyLine lines'
      end
  end.

Definition prettyName (osRelease : bytes) : bytes := prettyLine (Split nl osRelease).

(** [osRelease] and [swVers] are what reading the file and running the tool
    give. *)
Definition OSVersion (goos : bytes) (osRelease swVers : res error bytes) : bytes :=
  if bool_decide (goos = str "linux") then match osRelease with Ok raw => prettyName raw | Err _ => [] end
  else if bool_decide (goos = str "darwin") then match swVers with Ok out => TrimSpace out | Err _ => [] end
  else [].

(** ** collectHardware *)

Record hostInfo := {
  hi_Hostname : bytes;
  hi_Kernel : bytes;
  hi_Virtualization : bytes;
  hi_Platform : bytes;
  hi_PlatformVersion : bytes;
}.

Record hardware := {
  hw_CPUModel : bytes;
  hw_CPUCores : Z;
  hw_MemTotal : Z;
  hw_Hostname : bytes;
  hw_OSFamily : bytes;
  hw_OSVersion : bytes;
  hw_Kernel : bytes;
  hw_Arch : bytes;
  hw_Virtualization : bytes;
  hw_DMI : dmiInfo;
}.

Definition collectHardware (goos goarch : bytes) (osRelease swVers : res error bytes) (info : res error hostInfo)
    (cpus : res error (list bytes)) (cores mem : res error Z) (dmi : dmiInfo) : res error hardware :=
  match info with
  | Err e => Err e
  | Ok info =>
      let version := OSVersion goos osRelease swVers in
      Ok {| hw_Hostname := hi_Hostname info; hw_OSFamily := osFamilyFor goos;
            hw_OSVersion := if bool_decide (version = []) then TrimSpace (hi_Platform info ++ str " " ++ hi_PlatformVersion info)
                            else version;
            hw_Kernel := hi_Kernel info; hw_Arch := archFor goarch; hw_Virtualization := hi_Virtualization info;
            hw_CPUModel := match cpus with Ok (m :: _) => m | _ => [] end;
            hw_CPUCores := match cores with Ok n => n | Err _ => 0 end;
            hw_MemTotal := match mem with Ok n => n | Err _ => 0 end;
            hw_DMI := dmi |}
  end.

(** ** Lemmas *)

Lemma Trim_quoted c l : c ∉ l -> Trim [c] (c :: l ++ [c]) = l.
Proof.
  intros Hl. unfold Trim. cbn [map length trim_front]. rewrite strip_one, bool_decide_eq_true_2 by done.
  destruct l as [|d l].
  - cbn [app length trim_front]. by rewrite strip_one, bool_decide_eq_true_2 by done.
  - assert (Hf : trim_front [[c]] (length ((d :: l) ++ [c])) ((d :: l) ++ [c]) = (d :: l) ++ [c]).
    { cbn [app length trim_front]. rewrite strip_one, bool_decide_eq_false_2; [done|]. set_solver. }
    rewrite Hf. by apply TrimRight_one.
Qed.

(** ** Theorems *)

(** The operating system's name is read back from an os-release file: the first
    line that sets it, whatever the other lines are, gives the name between the
    double quotes. *)
Theorem prettyName_reads_back (before after : list bytes) (name : bytes) :
  Forall (fun l => nl ∉ l) (before ++ after) -> nl ∉ name -> dq ∉ name ->
  Forall (fun l => CutPrefix (TrimSpace l) (str "PRETTY_NAME=") = None) before ->
  prettyName (unlines (before ++ (str "PRETTY_NAME=" ++ [dq] ++ name ++ [dq]) :: after)) = name.
Proof.
  intros Hl Hn Hq Hb. unfold prettyName. set (line := str "PRETTY_NAME=" ++ _).
  apply Forall_app in Hl as [Hl1 Hl2]. rewrite Split_unlines.
  2: { apply Forall_app. split; [done|]. constructor; [|done]. unfold line. set_solver. }
  rewrite <- app_assoc. induction Hb as [|l before Hlb _ IH].
  - cbn [app prettyLine]. assert (Ht : TrimSpace line = line).
    { apply TrimSpace_trimmed. unfold line. apply (trimmed_around _ ([dq] ++ name)); by split_and!. }
    rewrite Ht. unfold line. assert (Hc : CutPrefix (str "PRETTY_NAME=" ++ [dq] ++ name ++ [dq]) (str "PRETTY_NAME=") = Some ([dq] ++ name ++ [dq])).
    { by apply strip_prefix_Some. }
    rewrite Hc. by apply Trim_quoted.
  - cbn [app prettyLine]. rewrite Hlb. apply IH. by inversion Hl1.
Qed.

Lemma prettyName_reads_back_witness :
  prettyName (unlines ([str "ID=debian"] ++ (str "PRETTY_NAME=" ++ [dq] ++ str "Debian GNU/Linux 12" ++ [dq]) :: [str "VERSION_ID=12"])) =
  str "Debian GNU/Linux 12".
Proof.
  apply prettyName_reads_back.
  - repeat (apply Forall_cons_2; [vm_compute; set_solver|]). apply Forall_nil_2.
  - vm_compute. set_solver.
  - vm_compute. set_solver.
  - apply Forall_cons_2; [reflexivity|apply Forall_nil_2].
Defined.

(** The file format also allows single quotes, which stay in the name. *)
Lemma single_quotes_stay :
  prettyName (str "PRETTY_NAME='Void Linux'") = [squote] ++ str "Void Linux" ++ [squote].
Proof. vm_compute. reflexivity. Qed.

(** Hardware is reported whenever the host answers, and only then; a reading
    that fails leaves its field empty and no other. *)
Theorem hardware_is_best_effort goos goarch osRelease swVers info cpus cores mem dmi :
  is_ok (collectHardware goos goarch osRelease swVers info cpus cores mem dmi) = is_ok info /\
  forall hw, collectHardware goos goarch osRelease swVers info cpus cores mem dmi = Ok hw ->
    collectHardware goos goarch osRelease swVers info (Err ErrIO) (Err ErrIO) (Err ErrIO) dmi =
    Ok {| hw_CPUModel := []; hw_CPUCores := 0; hw_MemTotal := 0; hw_Hostname := hw_Hostname hw; hw_OSFamily := hw_OSFamily hw;
          hw_OSVersion := hw_OSVersion hw; hw_Kernel := hw_Kernel hw; hw_Arch := hw_Arch hw;
          hw_Virtualization := hw_Virtualization hw; hw_DMI := dmi |}.
Proof. destruct info as [info|e]; [|done]. split; [done|]. by intros hw [= <-]. Qed.
