(* ===== verification/JobRun.v ===== *)
(** * JobRun: a job from its dispatch to its result (jobs/jobs.go)

    [execute] hands a decoded job to the component that runs its kind, and
    [runJob] around it turns a panic into a result.  What [runJob] needs of
    each component is one promise, the class [Reporting]: what was published
    for the job holds exactly one terminal result, attributed to the job and to
    its schedule entry.  The runner of scripts, patch jobs, the update job,
    inventory refresh and the refusal of an unknown kind each discharge it, so
    the theorem about every job is proved once, against the class.  A handler
    that was built without a runner is lent the module's. *)
From S2P Require Import Prelude GoLib GoText GoOS Swap Tracker Apply Scripts Patch PatchRun PatchJobs Runner Handlers.

(** What a component promises of the events it published for a job. *)
Class Reporting (spec : JobSpec) (evs : list event) : Prop :=
  reporting : exists r, Handlers.resultsOf evs = [(JobID spec, r)] /\ jr_EntryID r = EntryID spec.

(** ** execute and runJob *)

Section dispatch.
(** What each component publishes when it is given the job; the version, the
    inventory refresh as it comes out, and its duration. *)
Context (scriptRun patchJob updateJob : list event) (version : bytes) (refresh : option bool) (ms : Z).

Definition execute (spec : JobSpec) : list event :=
  if bool_decide (Kind spec = KindScriptRun) || bool_decide (Kind spec = []) then scriptRun
  else if bool_decide (Kind spec = KindInventoryRefresh) then runInventoryRefresh spec refresh ms
  else if bool_decide (Kind spec = KindPatchScan) || bool_decide (Kind spec = KindPatchInstall) then patchJob
  else if bool_decide (Kind spec = KindAgentUpdate) then updateJob
  else unsupportedJob version spec.

(** [panic]: how many events were out before a panic, and its cause. *)
Definition runJob (spec : JobSpec) (panic : option (nat * bytes)) : list event :=
  match panic with
  | None => execute spec
  | Some (k, cause) => take k (execute spec) ++ jobPanicked spec cause
  end.
End dispatch.

(** ** The components *)

(** What the runner and a patch job publish, as events of the module. *)
Definition ofRun (spec : JobSpec) (e : runEvent) : event :=
  match e with
  | RProgress pct ph note => EvProgress (JobID spec) pct ph note
  | RResult r => Handlers.publishResult spec r
  | RAudit _ _ _ => EvAudit (str "script.executed") (JobID spec)
  end.

Definition ofPatch (spec : JobSpec) (e : jobEvent) : event :=
  match e with
  | JProgress pct ph note => EvProgress (JobID spec) pct ph note
  | JAudit name _ _ => EvAudit name (JobID spec)
  | JStderr text => EvStderr spec text
  | JResult res _ => Handlers.publishResult spec res
  end.

Lemma ofRun_results spec evs :
  Handlers.resultsOf (map (ofRun spec) evs) =
  map (fun r => (JobID spec, with_entry (EntryID spec) r)) (Runner.resultsOf evs).
Proof. induction evs as [|[] evs IH]; [done|done| |done]. cbn. by f_equal. Qed.

(** A job whose runner has returned: with a process, or through [abort]. *)
Inductive ranTo (spec : JobSpec) (r : run) : Prop :=
  | ran_process emit window path ctx started now acts :
      runSteps emit spec window acts (startRun spec path ctx started now) = Some r -> ranTo spec r
  | ran_nothing emit window text e ctx started now acts :
      runSteps emit spec window acts (abortRun emit spec text e ctx started now) = Some r -> ranTo spec r.

Lemma ranTo_events spec r res : ranTo spec r -> rn_phase r = Finished res -> Runner.resultsOf (rn_events r) = [res].
Proof.
  intros [emit window path ctx started now acts Hr|emit window text e ctx started now acts Hr] Hp.
  - apply (runSteps_inv emit spec window false) in Hr as [_ _ _ _ _ Ie]; [|apply startRun_inv]. by rewrite Hp in Ie.
  - apply (runSteps_inv emit spec window true) in Hr as [_ _ _ _ _ Ie]; [|apply abortRun_inv]. by rewrite Hp in Ie.
Qed.

Lemma script_reporting spec r res :
  ranTo spec r -> rn_phase r = Finished res -> Reporting spec (map (ofRun spec) (rn_events r)).
Proof. intros Hr Hp. red. rewrite ofRun_results, (ranTo_events spec r res) by done. by eexists. Qed.

#[export] Instance inventory_reporting spec refresh ms : Reporting spec (runInventoryRefresh spec refresh ms).
Proof. red. unfold runInventoryRefresh. destruct refresh as [[]|]; by eexists. Qed.

#[export] Instance unsupported_reporting spec version : Reporting spec (unsupportedJob version spec).
Proof. by eexists. Qed.

Lemma finish_reports d spec res summary ms version out :
  ud_Runner d = true -> Reporting spec (finish d spec res summary ms version out).
Proof.
  intros Hr. destruct (finish_shape d spec res summary ms version out Hr) as (pre & -> & Hp & _). red.
  exists (with_entry (EntryID spec) (with_duration ms res)). split; [|done].
  rewrite Handlers.resultsOf_app, Hp. repeat case_match; done.
Qed.

(** The update job, whatever its body decodes to and the pipeline returns, when
    the module has a runner to lend it. *)
#[export] Instance update_reporting spec audit version d parse apply text ms :
  Reporting spec (Handlers.Execute (updateDepsOf true audit version d) spec parse apply text ms).
Proof.
  set (d' := updateDepsOf true audit version d). assert (Hr : ud_Runner d' = true) by apply orb_true_r.
  unfold Handlers.Execute.
  assert (Hcons : forall pct ph note evs, Reporting spec evs -> Reporting spec (EvProgress (JobID spec) pct ph note :: evs)) by done.
  apply Hcons. destruct parse as [req|msg]; [|by apply finish_reports]. destruct (ready d'); [by apply finish_reports|].
  apply Hcons. destruct (apply _ _) as [out err]. by apply finish_reports.
Qed.

(** Events among which there is no result. *)
Definition silent (spec : JobSpec) (evs : list jobEvent) : Prop := Handlers.resultsOf (map (ofPatch spec) evs) = [].

Lemma scan_silent spec d s : silent spec (HandlePatchScan d s).1.1.
Proof. unfold HandlePatchScan, mbind. destruct (pd_Refresh d) as [f|]; [by destruct (f s)|done]. Qed.

Lemma silent_app spec a b : silent spec a -> silent spec b -> silent spec (a ++ b).
Proof. unfold silent. intros Ha Hb. by rewrite map_app, Handlers.resultsOf_app, Ha, Hb. Qed.

Lemma relay_silent spec evs : silent spec (flat_map relay evs).
Proof. induction evs as [|e evs IH]; [done|]. cbn [flat_map]. apply silent_app; [by destruct e|done]. Qed.

Lemma emit_silent spec d name l m : silent spec (emit d name l m).
Proof. unfold emit. by destruct (pd_Audit d). Qed.

Lemma install_silent spec d ctx ids s : silent spec (HandlePatchInstall d ctx ids s).1.1.
Proof.
  unfold HandlePatchInstall, mbind, gets. case_bool_decide; [done|]. destruct (pd_Manager d) as [[b|e]|]; [|done|done].
  destruct (b_Install b ctx ids true s) as [out s1]. destruct (pd_Refresh d) as [f|]; [destruct (f s1)|]; apply relay_silent.
Qed.

(** A patch job, with any backend, when the module has a runner to lend it. *)
#[export] Instance patch_reporting spec audit text unmarshalObj unmarshalArr (d : PatchDeps) (s : mstate) :
  Reporting spec (map (ofPatch spec) (PatchJobs.Execute text unmarshalObj unmarshalArr (patchDepsOf true audit d) spec s).1.1).
Proof.
  set (d' := patchDepsOf true audit d). assert (Hr : pd_Runner d' = true) by apply orb_true_r.
  assert (Hend : forall evs pct ph note summary pct' ph' note' res r, silent spec evs ->
    Reporting spec (map (ofPatch spec) (JProgress pct ph note :: evs ++ [JStderr summary] ++ JProgress pct' ph' note' :: [JResult res r]))).
  { intros * Hs. red. exists (with_entry (EntryID spec) res). split; [|done]. cbn [map]. rewrite map_app.
    change (Handlers.resultsOf (?e :: ?l)) with (Handlers.resultsOf ([e] ++ l)). rewrite !Handlers.resultsOf_app.
    unfold silent in Hs. by rewrite Hs. }
  unfold PatchJobs.Execute, mbind, gets. rewrite Hr. case_bool_decide; [|case_bool_decide].
  - pose proof (scan_silent spec d' s) as Hs. destruct (HandlePatchScan d' s) as [[evs [st err]] s1].
    apply Hend, silent_app; [done|apply emit_silent].
  - match goal with |- context [HandlePatchInstall d' ?c ?i s] =>
      pose proof (install_silent spec d' c i s) as Hs; destruct (HandlePatchInstall d' c i s) as [[evs [st err]] s1] end.
    apply Hend, silent_app; [done|apply emit_silent].
  - by apply Hend.
Qed.

(** ** Every job *)

#[export] Instance execute_reporting scriptRun patchJob updateJob version refresh ms spec :
  Reporting spec scriptRun -> Reporting spec patchJob -> Reporting spec updateJob ->
  Reporting spec (execute scriptRun patchJob updateJob version refresh ms spec).
Proof. intros. unfold execute. repeat (destruct (_ || _) || case_bool_decide); apply _. Qed.

Lemma take_results evs k id r :
  Handlers.resultsOf evs = [(id, r)] -> Handlers.resultsOf (take k evs) = [] \/ Handlers.resultsOf (take k evs) = [(id, r)].
Proof.
  rewrite <- (take_drop k evs) at 1. rewrite Handlers.resultsOf_app.
  destruct (Handlers.resultsOf (take k evs)) as [|x [|y l]]; [by left| |done]. cbn. intros [= -> _]. by right.
Qed.

(** C8: Every job gets its terminal result.  Whatever its kind is, known or not,
    and whatever the host, the backend, the script or the update does, a job
    that runs to its end publishes exactly one result, under its own id and its
    schedule entry.  A job that panics anywhere before its result publishes
    exactly one too, failed with -1; one that panics after it publishes that
    same failure behind the result it had. *)
Theorem every_job_is_reported version refresh ms audit spec run res d parse apply errText text obj arr pd s :
  ranTo spec run -> rn_phase run = Finished res ->
  let job := runJob (map (ofRun spec) (rn_events run))
    (map (ofPatch spec) (PatchJobs.Execute text obj arr (patchDepsOf true audit pd) spec s).1.1)
    (Handlers.Execute (updateDepsOf true audit version d) spec parse apply errText ms) version refresh ms spec in
  let failed := (JobID spec, with_entry (EntryID spec) (plainResult StatusFailed (-1))) in
  exists r, jr_EntryID r = EntryID spec /\ Handlers.resultsOf (job None) = [(JobID spec, r)] /\
    forall k cause,
      let before := Handlers.resultsOf (take k (job None)) in
      Handlers.resultsOf (job (Some (k, cause))) = before ++ [failed] /\ (before = [] \/ before = [(JobID spec, r)]).
Proof.
  intros Hrun Hres job failed. pose proof (script_reporting spec run res Hrun Hres) as Hs.
  assert (Hx : Reporting spec (job None)) by (unfold job, runJob; apply _).
  destruct Hx as (r & Hr & He). exists r. split_and!; [done|done|]. intros k cause. cbv zeta.
  split; [|by apply take_results]. change (job (Some (k, cause))) with (take k (job None) ++ jobPanicked spec cause).
  by rewrite Handlers.resultsOf_app.
Qed.

(** A script that ran to its end, in a module whose handlers were given
    nothing. *)
Definition bareUpdate : UpdateDeps :=
  {| ud_StateDir := []; ud_Version := []; ud_Runner := false; ud_Audit := false; ud_Restart := false; ud_Handoff := false |}.
Definition barePatch : PatchDeps := {| pd_Manager := None; pd_Refresh := None; pd_Runner := false; pd_Audit := false |}.

Lemma every_job_is_reported_witness :
  ranTo demoJob plainEnd /\
  let job := runJob (map (ofRun demoJob) (rn_events plainEnd))
    (map (ofPatch demoJob) (PatchJobs.Execute (fun _ => []) (fun _ => None) (fun _ => None)
       (patchDepsOf true true barePatch) demoJob (MState 0 [] false false)).1.1)
    (Handlers.Execute (updateDepsOf true true [] bareUpdate) demoJob (Err []) (fun _ _ => (None, None)) (fun _ => []) 0)
    [] None 0 demoJob in
  exists r, Handlers.resultsOf (job None) = [(JobID demoJob, r)] /\
    Handlers.resultsOf (job (Some (2%nat, str "boom"))) =
      Handlers.resultsOf (take 2 (job None)) ++ [(JobID demoJob, with_entry (EntryID demoJob) (plainResult StatusFailed (-1)))].
Proof.
  assert (Hran : ranTo demoJob plainEnd) by exact (ran_process demoJob plainEnd _ _ _ _ _ _ _ (proj1 plainRun_ends)).
  split; [exact Hran|]. intros job.
  destruct (every_job_is_reported [] None 0 true demoJob plainEnd plainRes bareUpdate (Err []) (fun _ _ => (None, None))
    (fun _ => []) (fun _ => []) (fun _ => None) (fun _ => None) barePatch (MState 0 [] false false)
    Hran (proj2 plainRun_ends)) as (r & Hr & Hone & Hpanic).
  exists r. split; [exact Hone|]. exact (proj1 (Hpanic 2%nat (str "boom"))).
Defined.
