(* ===== verification/Running.v ===== *)
(** * Running: the runner's table of running scripts, under the module
    (scripts/runner.go, jobs/inflight.go)

    [Runner] keeps a handle per job id in a map: a later [register] of the same
    id overwrites the earlier handle, and [unregister] deletes whatever is
    there.  The map is right only because its client, the jobs module, admits
    an id once at a time.  Here both are one system: the threads of [Jobs], and
    the map the running ones write to. *)
From S2P Require Import Prelude GoLib GoOS Wire Env Scripts Jobs.

(** ** The map *)

(** Handles are numbered by the call of [Run] that made them. *)
Abbreviation handles := (gmap bytes nat).

Definition register (jobID : bytes) (h : nat) (m : handles) : handles := <[jobID := h]> m.
Definition unregister (jobID : bytes) (m : handles) : handles := delete jobID m.

(** [Cancel]: the handle whose [stop] is called. *)
Definition Cancel (jobID : bytes) (m : handles) : option nat := m !! jobID.

(** The order of the list is the map's. *)
Definition Running (m : handles) : list bytes := (map_to_list m).*1.

(** ** The map and the module *)

(** [within]: the threads between [register] and [unregister]. *)
Record node := {
  module : sys;
  table : handles;
  within : gset nat;
}.

Definition newNode : node := {| module := init; table := ∅; within := ∅ |}.

Inductive nodeAction : Type :=
  | NModule (a : action)          (** any step of the module *)
  | NRegister (tid : nat)         (** a running job's process has started *)
  | NUnregister (tid : nat).      (** its [execute] returns *)

(** A thread whose [execute] has not returned is still running its job. *)
Definition busy (n : node) (a : action) : bool :=
  match a with AThread tid _ => bool_decide (tid ∈ within n) | _ => false end.

Definition nodeStep (a : nodeAction) (n : node) : option node :=
  match a with
  | NModule a =>
      if busy n a then None
      else match sysStep a (module n) with
           | Some s => Some {| module := s; table := table n; within := within n |}
           | None => None
           end
  | NRegister tid =>
      match threads (module n) !! tid with
      | Some t =>
          match t_state t with
          | TRun _ =>
              if bool_decide (tid ∈ within n) then None
              else Some {| module := module n; table := register (tid_of t) tid (table n);
                           within := {[tid]} ∪ within n |}
          | _ => None
          end
      | None => None
      end
  | NUnregister tid =>
      match threads (module n) !! tid with
      | Some t =>
          if bool_decide (tid ∈ within n)
          then Some {| module := module n; table := unregister (tid_of t) (table n); within := within n ∖ {[tid]} |}
          else None
      | None => None
      end
  end.

Inductive nreachable : node -> Prop :=
  | nreach_init : nreachable newNode
  | nreach_step n n' a : nreachable n -> nodeStep a n = Some n' -> nreachable n'.

(** [CancelJob] with the runner it asks. *)
Definition CancelRunning (jobID : bytes) (n : node) : registry * bool :=
  CancelJob (fun id => bool_decide (is_Some (Cancel id (table n)))) jobID (reg (module n)).

(** ** The invariant *)

Record node_inv (n : node) : Prop := {
  ni_reach : reachable (module n);
  ni_within : forall i, i ∈ within n -> exists t ctx, threads (module n) !! i = Some t /\ t_state t = TRun ctx;
  ni_table : forall id i, table n !! id = Some i <->
    i ∈ within n /\ exists t, threads (module n) !! i = Some t /\ tid_of t = id;
}.

(** A step of the module leaves a busy thread where it is. *)
Lemma busy_stays n a s' i t :
  busy n a = false -> sysStep a (module n) = Some s' -> i ∈ within n ->
  threads (module n) !! i = Some t -> threads s' !! i = Some t.
Proof.
  intros Hb Hs Hi Ht. destruct a as [tid o spec|tid alt| | | |id]; cbn [sysStep] in Hs; try by injection Hs as <-.
  - destruct (threads (module n) !! tid) eqn:E; [done|]. injection Hs as <-. cbn [threads].
    rewrite lookup_insert_ne; [done|]. congruence.
  - cbn [busy] in Hb. apply bool_decide_eq_false in Hb.
    destruct (threads (module n) !! tid); [|done]. destruct (tstep _ _ _) as [[r st]|]; [|done].
    injection Hs as <-. cbn [threads]. rewrite lookup_insert_ne; [done|]. congruence.
Qed.

(** Two busy threads run different jobs. *)
Lemma busy_unique n i j t u :
  node_inv n -> i ∈ within n -> threads (module n) !! i = Some t ->
  threads (module n) !! j = Some u -> (exists ctx, t_state u = TRun ctx) -> tid_of t = tid_of u -> i = j.
Proof.
  intros [Hr Hw _] Hi Ht Hu [c Hc] Hid. destruct (Hw i Hi) as (t' & c' & Ht' & Hc').
  assert (t' = t) as -> by congruence.
  eapply (inv_unique _ (reachable_inv _ Hr)); try done; unfold registered; [by rewrite Hc'|by rewrite Hc].
Qed.

Lemma nodeStep_inv a n n' : node_inv n -> nodeStep a n = Some n' -> node_inv n'.
Proof.
  intros Hinv. pose proof Hinv as [Hr Hw Ht]. destruct a as [a|tid|tid]; cbn [nodeStep].
  - destruct (busy n a) eqn:Hb; [done|]. destruct (sysStep a (module n)) as [s'|] eqn:Hs; [|done]. intros [= <-].
    constructor; cbn [module table within].
    + eapply reach_step; [done|]. by exists a.
    + intros i Hi. destruct (Hw i Hi) as (t & c & E & Hc). exists t, c. split; [|done]. by eapply busy_stays.
    + intros id i. rewrite Ht. split; intros (Hi & t & E & Hid); (split; [done|]); [exists t; split; [by eapply busy_stays|done]|].
      destruct (Hw i Hi) as (t' & c & E' & _). exists t'. split; [done|].
      assert (Hsame : threads s' !! i = Some t') by by eapply busy_stays. congruence.
  - destruct (threads (module n) !! tid) as [t|] eqn:E; [|done]. destruct (t_state t) as [| | | |c| | | | | |] eqn:Hc; try done.
    case_bool_decide as Hin; [done|]. intros [= <-]. constructor; cbn [module table within]; [done| |].
    + intros i [->%elem_of_singleton|Hi]%elem_of_union; [by exists t, c|by apply Hw].
    + intros id i. unfold register. destruct (decide (id = tid_of t)) as [->|Hne].
      * rewrite lookup_insert_eq. split; [intros [= <-]; split; [set_solver|by exists t]|].
        intros ([->%elem_of_singleton|Hi]%elem_of_union & u & Hu & Hid); [done|].
        f_equal. symmetry. eapply (busy_unique n i tid u t); eauto.
      * rewrite lookup_insert_ne by done. rewrite Ht. split; intros (Hi & u & Hu & Hid); (split; [|by exists u]); [set_solver|].
        apply elem_of_union in Hi as [->%elem_of_singleton|Hi]; [|done]. congruence.
  - destruct (threads (module n) !! tid) as [t|] eqn:E; [|done]. case_bool_decide as Hin; [|done]. intros [= <-].
    constructor; cbn [module table within]; [done|intros i Hi; apply Hw; set_solver|].
    intros id i. unfold unregister. destruct (decide (id = tid_of t)) as [->|Hne].
    + rewrite lookup_delete_eq. split; [done|]. intros ((Hi & Hni)%elem_of_difference & u & Hu & Hid).
      destruct (Hw tid Hin) as (t' & c & E' & Hc). destruct Hni. apply elem_of_singleton.
      eapply (busy_unique n i tid u t); eauto. exists c. congruence.
    + rewrite lookup_delete_ne by done. rewrite Ht. split; intros (Hi & u & Hu & Hid); (split; [|by exists u]); [|set_solver].
      apply elem_of_difference. split; [done|]. intros ->%elem_of_singleton. congruence.
Qed.

Lemma nreachable_inv n : nreachable n -> node_inv n.
Proof.
  induction 1 as [|n n' a _ IH Hs]; [|by eapply nodeStep_inv].
  constructor; cbn; [apply reach_init|by intros i ?%elem_of_empty|].
  intros id i. rewrite lookup_empty. split; [done|]. by intros [?%elem_of_empty _].
Qed.

(** ** What a client can rely on *)

(** C26: The runner's table is exact under the module.  In every reachable state,
    whatever jobs were delivered, fired, repeated, cancelled or refused and
    however their goroutines interleave: a job id maps to a handle exactly when
    that handle's script is running it, so no run is overwritten or forgotten;
    [Running] lists each running id once; and [CancelJob] of an id whose script
    runs finds it and cancels its context. *)
Theorem running_scripts_stay_reachable n :
  nreachable n ->
  NoDup (Running (table n)) /\
  (forall id, id ∈ Running (table n) <->
     exists i t, i ∈ within n /\ threads (module n) !! i = Some t /\ tid_of t = id) /\
  (forall i t, i ∈ within n -> threads (module n) !! i = Some t ->
     Cancel (tid_of t) (table n) = Some i /\
     let '(r, found) := CancelRunning (tid_of t) n in
     found = true /\ exists h, inflight (reg (module n)) !! tid_of t = Some h /\ ctx_done r (h_ctx h) = true).
Proof.
  intros Hn. pose proof (nreachable_inv n Hn) as [Hr Hw Ht]. split_and!.
  - apply NoDup_fst_map_to_list.
  - intros id. unfold Running. rewrite list_elem_of_fmap. split.
    + intros ([id' i] & -> & (Hi & t & E & Hid)%elem_of_map_to_list%Ht). by exists i, t.
    + intros (i & t & Hi & E & Hid). exists (id, i). split; [done|]. apply elem_of_map_to_list, Ht. eauto.
  - intros i t Hi E. assert (Hc : Cancel (tid_of t) (table n) = Some i) by (apply Ht; eauto). split; [done|].
    unfold CancelRunning, CancelJob. rewrite Hc. cbn. split; [done|].
    destruct (Hw i Hi) as (t' & c & E' & Hst). assert (t' = t) as -> by congruence.
    destruct (inv_registered _ (reachable_inv _ Hr) i t E) as (h & Hh & _); [unfold registered; by rewrite Hst|].
    exists h. split; [done|]. rewrite Hh. unfold ctx_done, cancel. cbn. apply bool_decide_eq_true_2. set_solver.
Qed.

(** Without the module the table is not exact: of two runs of one id, the one
    that ends first takes the other's handle with it. *)
Example a_repeated_id_hides_a_run :
  let m := register (str "j1") 2 (register (str "j1") 1 ∅) in
  Cancel (str "j1") m = Some 2%nat /\ Cancel (str "j1") (unregister (str "j1") m) = None.
Proof. split; reflexivity. Qed.

(** One delivered script, running. *)
Definition oneRunning : list nodeAction :=
  [NModule AStart; NModule (ASpawn 0 FromQueue (Build_JobSpec (str "j1") KindScriptRun [] (str "ls") 0 ∅ [] []));
   NModule (AThread 0 false); NModule (AThread 0 false); NModule (AThread 0 false); NRegister 0].

Fixpoint nodeRun (acts : list nodeAction) (n : node) : option node :=
  match acts with [] => Some n | a :: acts' => match nodeStep a n with Some n' => nodeRun acts' n' | None => None end end.

Lemma nodeRun_reachable acts n n' : nreachable n -> nodeRun acts n = Some n' -> nreachable n'.
Proof.
  revert n. induction acts as [|a acts IH]; intros n Hn; cbn [nodeRun]; [by intros [= <-]|].
  destruct (nodeStep a n) as [n1|] eqn:E; [|done]. apply IH. by eapply nreach_step.
Qed.

Lemma running_scripts_stay_reachable_witness :
  exists n, nodeRun oneRunning newNode = Some n /\ Cancel (str "j1") (table n) = Some 0%nat /\ NoDup (Running (table n)).
Proof.
  destruct (nodeRun oneRunning newNode) as [n|] eqn:E; [|vm_compute in E; discriminate]. exists n. split; [reflexivity|].
  destruct (running_scripts_stay_reachable n (nodeRun_reachable _ _ _ nreach_init E)) as (Hd & _).
  split; [|exact Hd]. vm_compute in E. injection E as <-. reflexivity.
Defined.
