(* ===== verification/Terminal.v ===== *)
(** * Terminal: from a session to its pseudo-terminal (shell/pty_unix.go,
    pty_windows.go, session.go)

    [startPTY] and [Resize] of both platforms behind one record of operations,
    the set-up of a session with everything it acquires (a child, the terminal,
    a context, three subscriptions), and the callbacks of the subscriptions.
    [Shell.start] is the same set-up seen from the session's state; here it is
    related to what the operating system and the connection are left with. *)
From S2P Require Import Prelude GoLib GoText GoOS Wire Env Scripts Shell Process.

(** ** startPTY and Resize *)

(** A command in a terminal: program, environment, directory (the agent's own
    when empty), columns and rows. *)
Record ptyCommand := {
  pc_Path : bytes;
  pc_Env : list bytes;
  pc_Dir : bytes;
  pc_Size : Z * Z;
}.

(** [os.Stat] of a path: its mode bits when it is there, and whether it is a
    directory. *)
Definition isExecutable (stat : option (bool * Z)) : bool :=
  match stat with Some (isDir, mode) => negb isDir && negb (Z.land mode 73 =? 0) | None => false end.

Definition sane (v fallback : Z) : Z := if v =? 0 then fallback else v.

Section start.
Context (stat : bytes -> option (bool * Z)) (LookPath : bytes -> res error bytes) (environ : list bytes).

(** Unix; [home] is [os.UserHomeDir]; [spawn] is [pty.StartWithSize], the child
    it started. *)
Definition startPTYUnix (SHELL : bytes) (home : res error bytes) (spawn : ptyCommand -> res error Z)
    (shellName : bytes) (cols rows : Z) : res error Z :=
  match resolveShell (fun p => isExecutable (stat p)) LookPath SHELL shellName with
  | Err e => Err e
  | Ok path =>
      let cmd := {| pc_Path := path; pc_Env := ptyEnv environ;
                    pc_Dir := match home with Ok h => h | Err _ => [] end; pc_Size := winsize cols rows |} in
      match spawn cmd with Err e => Err (Errorf "start pty" e) | Ok pid => Ok pid end
  end.

(** Windows; [spawn] is [conpty.Start]. *)
Definition startPTYWindows (available : bool) (spawn : ptyCommand -> res error Z)
    (shellName : bytes) (cols rows : Z) : res error Z :=
  if negb available then Err (Sentinel "ConPTY unavailable (needs Windows 10 1809 or later)")
  else match resolveShellWindows LookPath shellName with
       | Err e => Err e
       | Ok cmdline =>
           let cmd := {| pc_Path := cmdline; pc_Env := ptyEnv environ; pc_Dir := [];
                         pc_Size := (sane cols 80, sane rows 24) |} in
           match spawn cmd with Err e => Err (Errorf "start conpty" e) | Ok pid => Ok pid end
       end.
End start.

(** What [Resize] hands to the system. *)
Definition ResizeUnix (cols rows : Z) : Z * Z := winsize cols rows.
Definition ResizeWindows (cols rows : Z) : Z * Z := (sane cols 80, sane rows 24).

(** ** What a set-up acquires *)

Inductive child : Type := NoChild | Alive (pid : Z) | Killed (pid : Z) | Reaped (pid : Z).

Record held := {
  hd_child : child;
  hd_master : bool;              (** the terminal is open *)
  hd_ctx : option bool;          (** the session's context: whether it is cancelled *)
  hd_subs : list bytes;          (** subjects the connection delivers to the session *)
  hd_pumps : bool;               (** the three goroutines have been started *)
  hd_reaper : bool;              (** a goroutine is in [p.Wait()] for the child *)
}.

Definition holdsNothing : held :=
  {| hd_child := NoChild; hd_master := false; hd_ctx := None; hd_subs := []; hd_pumps := false; hd_reaper := false |}.

Definition with_subs (l : list bytes) (h : held) : held :=
  {| hd_child := hd_child h; hd_master := hd_master h; hd_ctx := hd_ctx h; hd_subs := l; hd_pumps := hd_pumps h;
     hd_reaper := hd_reaper h |}.

(** [unsubscribe]; [unsub] is the connection's answer for each subject, and a
    refused one stays. *)
Definition unsubscribe (unsub : bytes -> option error) (h : held) : held :=
  with_subs (List.filter (fun s => match unsub s with Some _ => true | None => false end) (hd_subs h)) h.

Definition cancelCtx (h : held) : held :=
  {| hd_child := hd_child h; hd_master := hd_master h; hd_ctx := Some true; hd_subs := hd_subs h; hd_pumps := hd_pumps h;
     hd_reaper := hd_reaper h |}.

(** What [p.Close()] achieves: the terminal is closed, the child is killed.
    Its error is only logged. *)
Record closing := { cl_closes : bool; cl_kills : bool }.

Definition closeTerminal (cl : closing) (h : held) : held :=
  {| hd_child := match hd_child h with Alive pid => if cl_kills cl then Killed pid else Alive pid | c => c end;
     hd_master := hd_master h && negb (cl_closes cl); hd_ctx := hd_ctx h; hd_subs := hd_subs h; hd_pumps := hd_pumps h;
     hd_reaper := hd_reaper h |}.

(** [closeAndReap]: the wait is left to a goroutine, which may still be in it
    when the caller goes on. *)
Definition closeAndReap (cl : closing) (h : held) : held :=
  let h := closeTerminal cl h in
  {| hd_child := hd_child h; hd_master := hd_master h; hd_ctx := hd_ctx h; hd_subs := hd_subs h; hd_pumps := hd_pumps h;
     hd_reaper := true |}.

(** The child has exited and that goroutine's [Wait] returns. *)
Definition reap (h : held) : held :=
  if hd_reaper h then
    {| hd_child := match hd_child h with Alive pid | Killed pid => Reaped pid | c => c end; hd_master := hd_master h;
       hd_ctx := hd_ctx h; hd_subs := hd_subs h; hd_pumps := hd_pumps h; hd_reaper := false |}
  else h.

Section session.
Context (subscribe unsub : bytes -> option error) (cl : closing).

(** The loop over the three subscriptions. *)
Fixpoint subscribeEach (subjects : list bytes) (h : held) : option error * held :=
  match subjects with
  | [] => (None, h)
  | p :: rest =>
      match subscribe p with
      | Some e => (Some e, closeAndReap cl (cancelCtx (unsubscribe unsub h)))
      | None => subscribeEach rest (with_subs (hd_subs h ++ [p]) h)
      end
  end.

(** [session.start] with what it holds; [pty] is what [startPTY] answers. *)
Definition startSession (pty : res error Z) (id agentID : bytes) : option error * held :=
  match CheckIdentifier (str "session_id") id with
  | Some e => (Some e, holdsNothing)
  | None =>
      match pty with
      | Err e => (Some e, holdsNothing)
      | Ok pid =>
          let h := {| hd_child := Alive pid; hd_master := true; hd_ctx := Some false; hd_subs := []; hd_pumps := false;
                      hd_reaper := false |} in
          match subscribeEach [ShellIn agentID id; ShellResize agentID id; ShellCtl agentID id] h with
          | (Some e, h) => (Some e, h)
          | (None, h) =>
              (None, {| hd_child := hd_child h; hd_master := hd_master h; hd_ctx := hd_ctx h; hd_subs := hd_subs h;
                        hd_pumps := true; hd_reaper := hd_reaper h |})
          end
      end
  end.

(** ** Lemmas *)

Lemma subscribeEach_spec subjects h :
  subscribeEach subjects h =
  match subscribeAll subscribe subjects with
  | None => (None, with_subs (hd_subs h ++ subjects) h)
  | Some e => (Some e, (subscribeEach subjects h).2)
  end.
Proof.
  revert h. induction subjects as [|p rest IH]; intros h; cbn [subscribeEach subscribeAll].
  - rewrite app_nil_r. by destruct h.
  - destruct (subscribe p) as [e|]; [done|]. rewrite (IH (with_subs _ h)). destruct (subscribeAll subscribe rest) as [e|]; [done|].
    cbn. by rewrite <- app_assoc.
Qed.

Lemma subscribeEach_failed subjects h pid e h' :
  hd_child h = Alive pid -> hd_master h = true -> hd_pumps h = false -> (forall s, s ∈ hd_subs h -> subscribe s = None) ->
  subscribeEach subjects h = (Some e, h') ->
  hd_child h' = (if cl_kills cl then Killed pid else Alive pid) /\ hd_master h' = negb (cl_closes cl) /\
  hd_ctx h' = Some true /\ hd_pumps h' = false /\ hd_reaper h' = true /\
  (forall s, s ∈ hd_subs h' -> is_Some (unsub s)).
Proof.
  intros Hc Hm Hp. revert h Hc Hm Hp. induction subjects as [|p rest IH]; intros h Hc Hm Hp Hs; cbn [subscribeEach]; [done|].
  destruct (subscribe p) as [e'|] eqn:Ep.
  - intros [= <- <-]. unfold closeAndReap, closeTerminal, cancelCtx, unsubscribe. cbn. rewrite Hc, Hm. split_and!; try done.
    intros s Hin. apply list_elem_of_In, filter_In in Hin as [_ Hu]. destruct (unsub s); [by eexists|done].
  - apply IH; [done|done|done|]. cbn. intros s [Hin|Hin]%elem_of_app; [by apply Hs|]. by apply list_elem_of_singleton in Hin as ->.
Qed.

(** C39: A session is set up completely or taken down again.  Whatever fails (an
    id off the wire that could be a wildcard, the shell, the terminal, or any of
    the three subscriptions), a failed [start] leaves no live context, none of
    the session's three goroutines, and no subscription except one the
    connection refused to drop; if there was no terminal yet it leaves nothing
    at all, and otherwise it has closed the terminal and killed the child, as
    far as [Close] works (its error is only logged), and a goroutine waits for
    the child, which collects it, and ends, when the child exits, however long
    that takes.  A [start] that succeeds holds the child, the terminal and
    exactly the session's three subjects.  It succeeds and fails exactly as the
    session's own set-up. *)
Theorem start_is_all_or_nothing (pty : res error Z) (id agentID : bytes) (idle now : Z) :
  let '(err, h) := startSession pty id agentID in
  match Shell.start (match pty with Ok _ => None | Err e => Some e end) subscribe id agentID idle now with
  | Ok s => err = None /\ (exists pid, pty = Ok pid /\ hd_child h = Alive pid) /\ hd_master h = true /\
            hd_ctx h = Some false /\ hd_subs h = subs s /\ hd_pumps h = true /\ hd_reaper h = false /\ ptyOpen s = true
  | Err e => err = Some e /\ hd_ctx h ≠ Some false /\ hd_pumps h = false /\
            (forall s, s ∈ hd_subs h -> is_Some (unsub s)) /\
            (h = holdsNothing \/
             exists pid, pty = Ok pid /\ hd_child h = (if cl_kills cl then Killed pid else Alive pid) /\
               hd_master h = negb (cl_closes cl) /\ hd_reaper h = true /\
               hd_child (reap h) = Reaped pid /\ hd_reaper (reap h) = false)
  end.
Proof.
  unfold startSession, Shell.start. destruct (CheckIdentifier _ id) as [e|].
  { split_and!; try done; [by intros s ?%elem_of_nil|by left]. }
  destruct pty as [pid|e]; [|split_and!; try done; [by intros s ?%elem_of_nil|by left]].
  change (subs (Shell.started id agentID idle now)) with [ShellIn agentID id; ShellResize agentID id; ShellCtl agentID id].
  set (h0 := {| hd_child := Alive pid; hd_master := true; hd_ctx := Some false; hd_subs := []; hd_pumps := false; hd_reaper := false |}).
  destruct (subscribeEach _ h0) as [err h] eqn:E. pose proof E as E'. rewrite subscribeEach_spec in E'.
  destruct (subscribeAll subscribe _) as [e|] eqn:Ea; [injection E' as <- _|by injection E' as <- <-; split_and!; try done; exists pid].
  apply (subscribeEach_failed _ _ pid) in E as (Hc & Hm & Hx & Hp & Hr & Hs); [|done..|by intros s ?%elem_of_nil].
  rewrite Hx. split_and!; try done. right. exists pid. unfold reap. rewrite Hr, Hc. cbn. split_and!; try done. by destruct (cl_kills cl).
Qed.
End session.

(** ** The callbacks *)

(** Both platforms hand the system the same size, and never one without
    columns or rows: 80 by 24 stands in for what a console left out. *)
Theorem terminals_always_have_a_size (cols rows : Z) :
  0 <= cols < 65536 -> 0 <= rows < 65536 ->
  ResizeUnix cols rows = ResizeWindows cols rows /\
  (let '(c, r) := ResizeUnix cols rows in 0 < c < 65536 /\ 0 < r < 65536) /\
  (cols ≠ 0 -> rows ≠ 0 -> ResizeUnix cols rows = (cols, rows)).
Proof.
  intros Hc Hr. unfold ResizeUnix, ResizeWindows, winsize, sane.
  destruct (Z.eqb_spec cols 0), (Z.eqb_spec rows 0); split_and!; try done; lia.
Qed.

(** What a callback did to the session before it returned or panicked. *)
Inductive ran : Type := Returned (s : session) | Panicked (s : session).

(** [guard]: a panic ends the callback, not the process. *)
Definition guard (fn : bytes -> session -> ran) (msg : bytes) (s : session) : session :=
  match fn msg s with Returned s' | Panicked s' => s' end.

(** [onResize] on the decoded frame ([uint16] each), and what is handed to
    the terminal. *)
Definition onResize (unix : bool) (rs : option (Z * Z)) : option (Z * Z) :=
  match rs with
  | None => None
  | Some (cols, rows) => Some (if unix then ResizeUnix cols rows else ResizeWindows cols rows)
  end.
