(* ===== verification/Periodic.v ===== *)
(** * Periodic: the tasks that publish on a timer (inventory/inventory.go,
    inventory/patchstate.go, telemetry/telemetry.go)

    [Run] of each is the same loop: do the work, then wait for the interval or
    for the context, whichever comes first.  The loop is a step system over a
    clock, a context that can end at any moment and a body that takes as long as
    it likes and may fail; the three tasks are its instances. *)
From S2P Require Import Prelude GoLib GoText GoOS Wire Publish PatchJobs.

(** ** The loop *)

(** In the body; at the select, with the instant the timer is due; returned. *)
Inductive loopPhase : Type := Working | Waiting (due : Z) | Returned (e : error).

(** [lp_starts] are the instants the body began, latest first. *)
Record loop := {
  lp_now : Z;
  lp_ctx : option error;
  lp_phase : loopPhase;
  lp_starts : list Z;
}.

Inductive loopAction : Type :=
  | LPass (dt : N)                    (** time passes *)
  | LCancel (e : error)               (** the context ends *)
  | LBody (failed : option error)     (** the body returns; its error is logged *)
  | LTick                             (** the timer's case of the select *)
  | LDone.                            (** the context's case *)

Definition startLoop (now : Z) (ctx : option error) : loop :=
  {| lp_now := now; lp_ctx := ctx; lp_phase := Working; lp_starts := [now] |}.

Definition loopStep (interval : Z) (a : loopAction) (l : loop) : option loop :=
  match a, lp_phase l with
  | LPass dt, _ =>
      Some {| lp_now := lp_now l + Z.of_N dt; lp_ctx := lp_ctx l; lp_phase := lp_phase l; lp_starts := lp_starts l |}
  | LCancel e, _ =>
      Some {| lp_now := lp_now l; lp_ctx := match lp_ctx l with None => Some e | c => c end;
              lp_phase := lp_phase l; lp_starts := lp_starts l |}
  | LBody _, Working =>
      Some {| lp_now := lp_now l; lp_ctx := lp_ctx l; lp_phase := Waiting (lp_now l + interval); lp_starts := lp_starts l |}
  | LTick, Waiting due =>
      if due <=? lp_now l
      then Some {| lp_now := lp_now l; lp_ctx := lp_ctx l; lp_phase := Working; lp_starts := lp_now l :: lp_starts l |}
      else None
  | LDone, Waiting _ =>
      match lp_ctx l with
      | Some e => Some {| lp_now := lp_now l; lp_ctx := lp_ctx l; lp_phase := Returned e; lp_starts := lp_starts l |}
      | None => None
      end
  | _, _ => None
  end.

Fixpoint loopRun (interval : Z) (acts : list loopAction) (l : loop) : option loop :=
  match acts with
  | [] => Some l
  | a :: acts' => match loopStep interval a l with Some l' => loopRun interval acts' l' | None => None end
  end.

(** ** The tasks *)

Definition inventoryInterval : Z := 30 * Minute.
Definition telemetryInterval : Z := 60 * Second.

Definition runInventory : list loopAction -> loop -> option loop := loopRun inventoryInterval.
Definition runTelemetry : list loopAction -> loop -> option loop := loopRun telemetryInterval.

(** [PatchCollector.Run] *)
Definition scanInterval (agentID : bytes) : Z := patchInterval + jitterFor agentID patchJitter.
Definition runPatchCollector (agentID : bytes) : list loopAction -> loop -> option loop := loopRun (scanInterval agentID).

(** [PatchCollector.publish]: a test's hook first, nothing without a
    connection. *)
Definition publishState (hook : option (PatchState -> option error)) (nc : option (PatchState -> option error))
    (state : PatchState) : option error :=
  match hook with
  | Some f => f state
  | None => match nc with Some send => send state | None => None end
  end.

(** [telemetry.publish]: the message, when the sample can be encoded. *)
Definition telemetryMsg {sample : Type} (encode : sample -> option bytes) (encodeEnvelope : Envelope -> option bytes)
    (agentID msgID : bytes) (now : Z) (s : sample) : option natsMsg :=
  match envelope encode encodeEnvelope agentID (str "telemetry") msgID now s with
  | None => None
  | Some (raw, id) => Some (Msg (Telemetry agentID) raw id)
  end.

(** ** The pace *)

Section pace.
Context (interval : Z).

(** Each start is an interval after the one before it. *)
Fixpoint spaced (starts : list Z) : Prop :=
  match starts with
  | later :: (earlier :: _) as rest => interval <= later - earlier /\ spaced rest
  | _ => True
  end.

Record loop_inv (t0 : Z) (l : loop) : Prop := {
  li_first : last (lp_starts l) = Some t0;
  li_spaced : spaced (lp_starts l);
  li_now : exists s rest, lp_starts l = s :: rest /\ s <= lp_now l;
  li_due : forall due, lp_phase l = Waiting due ->
    exists s rest, lp_starts l = s :: rest /\ s + interval <= due <= lp_now l + interval;
  li_ret : forall e, lp_phase l = Returned e -> lp_ctx l = Some e;
}.

Lemma loopStep_inv t0 a l l' : loop_inv t0 l -> loopStep interval a l = Some l' -> loop_inv t0 l'.
Proof.
  intros [H1 H2 (s & rest & Hs & Hn) H4 H5]. destruct a as [dt|e|f| |]; cbn [loopStep].
  - intros [= <-]. constructor; cbn; try done; [exists s, rest; split; [done|lia]|].
    intros due (s' & rest' & Hs' & ?)%H4. exists s', rest'. split; [done|lia].
  - intros [= <-]. constructor; cbn; try done; [by exists s, rest|]. by intros e' ->%H5.
  - destruct (lp_phase l); [|done..]. intros [= <-]. constructor; cbn; try done; [by exists s, rest|].
    intros due [= <-]. exists s, rest. split; [done|lia].
  - destruct (lp_phase l) as [|due|]; [done| |done]. destruct (Z.leb_spec due (lp_now l)); [|done]. intros [= <-].
    destruct (H4 due eq_refl) as (s' & rest' & Hs' & ?). constructor; cbn; try done.
    + rewrite Hs in *. exact H1.
    + rewrite Hs'. split; [lia|]. by rewrite <- Hs'.
    + by eexists _, _.
  - destruct (lp_phase l) as [|due|]; [done| |done]. destruct (lp_ctx l) as [e|] eqn:E; [|done]. intros [= <-].
    constructor; cbn; try done; [by exists s, rest|]. by intros e' [= <-].
Qed.

Lemma loopRun_inv t0 acts l l' : loop_inv t0 l -> loopRun interval acts l = Some l' -> loop_inv t0 l'.
Proof.
  revert l. induction acts as [|a acts IH]; intros l Hl; cbn [loopRun]; [by intros [= <-]|].
  destruct (loopStep interval a l) as [l1|] eqn:E; [|done]. apply IH. by eapply loopStep_inv.
Qed.

Lemma startLoop_inv now ctx : loop_inv now (startLoop now ctx).
Proof. constructor; cbn; try done. by eexists _, _. Qed.

(** Spaced starts are few. *)
Lemma spaced_count starts s rest t0 :
  spaced starts -> starts = s :: rest -> last starts = Some t0 -> Z.of_nat (length rest) * interval <= s - t0.
Proof.
  revert s rest. induction starts as [|x starts IH]; intros s rest Hsp [= -> ->] Hl; [].
  destruct rest as [|y rest]; [injection Hl as <-; cbn; lia|]. destruct Hsp as [Hd Hsp].
  specialize (IH y rest Hsp eq_refl Hl). cbn [length]. lia.
Qed.
End pace.

(** A task on a timer keeps its pace and stops when told.  It works at once;
    the work begins at least an interval after it began before, so that in any
    stretch of time it ran at most once per interval and once more; a failed
    round ends nothing; it returns only the context's own error; and while it
    waits it can always go on: by returning once the context has ended, by
    working once the timer is due, which is never more than an interval away. *)
Theorem timed_task_keeps_its_pace (interval t0 : Z) (ctx : option error) (acts : list loopAction) (l : loop) :
  0 < interval -> loopRun interval acts (startLoop t0 ctx) = Some l ->
  last (lp_starts l) = Some t0 /\ spaced interval (lp_starts l) /\
  Z.of_nat (length (lp_starts l)) <= 1 + (lp_now l - t0) / interval /\
  (forall e, lp_phase l = Returned e -> lp_ctx l = Some e) /\
  (forall due, lp_phase l = Waiting due ->
     due <= lp_now l + interval /\
     (due <= lp_now l -> is_Some (loopStep interval LTick l)) /\
     (is_Some (lp_ctx l) -> is_Some (loopStep interval LDone l))).
Proof.
  intros Hi Hr. apply (loopRun_inv interval t0) in Hr as [H1 H2 (s & rest & Hs & Hn) H4 H5]; [|apply startLoop_inv].
  split_and!; try done.
  - pose proof (spaced_count interval _ s rest t0 H2 Hs H1) as Hc. rewrite Hs. cbn [length].
    assert (Z.of_nat (length rest) <= (lp_now l - t0) / interval); [|lia]. apply Z.div_le_lower_bound; lia.
  - intros due Hd. destruct (H4 due Hd) as (s' & rest' & Hs' & ?). split_and!; [lia| |]; cbn [loopStep]; rewrite Hd.
    + intros Hle. destruct (Z.leb_spec due (lp_now l)); [by eexists|lia].
    + intros [e He]. rewrite He. by eexists.
Qed.

(** Scans for updates are at least six hours apart, on every agent, and the
    wait after one is less than six and a half. *)
Corollary scans_are_six_hours_apart (agentID : bytes) (t0 : Z) (ctx : option error) (acts : list loopAction) (l : loop) :
  runPatchCollector agentID acts (startLoop t0 ctx) = Some l ->
  spaced (6 * Hour) (lp_starts l) /\
  (forall due, lp_phase l = Waiting due -> due < lp_now l + 6 * Hour + 30 * Minute).
Proof.
  assert (Hb : patchInterval <= scanInterval agentID < patchInterval + patchJitter).
  { unfold scanInterval, jitterFor. destruct (Z.leb_spec patchJitter 0); [by vm_compute in H|].
    pose proof (Z.mod_pos_bound (fnv64a agentID) patchJitter ltac:(done)). lia. }
  unfold patchInterval, patchJitter in Hb.
  intros [_ H2 _ H4 _]%(loopRun_inv _ t0); [|apply startLoop_inv]. split.
  - clear -H2 Hb. induction (lp_starts l) as [|x starts IH]; [done|]. destruct starts as [|y starts]; [done|].
    destruct H2 as [Hd H2]. split; [lia|]. by apply IH.
  - intros due Hd. destruct (H4 due Hd) as (s & rest & _ & ?). lia.
Qed.
