(* ===== verification/Csr.v ===== *)
(** * Csr: the device's key and its signing request (netcert/netcert.go)

    [GenerateKey] puts a new key on disk and [BuildCSR] asks for a certificate
    for the key that is there; a renewal keeps the pair in memory and uses
    [newKeyPair] and [buildCSRFor].  Elliptic curves, PKCS#8, PEM and X.509 are
    the standard library's: operations of the class [Crypto], with what the code
    relies on as its laws. *)
From S2P Require Import Prelude GoLib GoText GoOS Netcert.

(** [generate] is [ecdsa.GenerateKey], [pkcs8] and [parsePKCS8] encode and decode
    a private key, [encodePEM] and [decodePEM] (the first block's bytes) an
    armoured block, and [request] is [x509.CreateCertificateRequest]. *)
Class Crypto := {
  key : Type;
  generate : res error key;
  pkcs8 : key -> res error bytes;
  parsePKCS8 : bytes -> res error key;
  encodePEM : bytes -> bytes -> bytes;
  decodePEM : bytes -> option bytes;
  request : bytes -> key -> res error bytes;
}.

(** Decoding undoes encoding. *)
Class CryptoLaws `{Crypto} : Prop := {
  pem_roundtrip : forall typ der, decodePEM (encodePEM typ der) = Some der;
  pkcs8_roundtrip : forall k der, pkcs8 k = Ok der -> parsePKCS8 der = Ok k;
}.

Definition typeKey : bytes := str "PRIVATE KEY".
Definition typeRequest : bytes := str "CERTIFICATE REQUEST".
Definition placeholder : bytes := str "everwas-device".

Section keys.
Context `{Crypto}.

Definition newKeyPair : res error (key * bytes) :=
  match generate with
  | Err e => Err (Errorf "netcert: generate key" e)
  | Ok k =>
      match pkcs8 k with
      | Err e => Err (Errorf "netcert: marshal key" e)
      | Ok der => Ok (k, encodePEM typeKey der)
      end
  end.

Definition buildCSRFor (k : key) : res error bytes :=
  match request placeholder k with
  | Err e => Err (Errorf "netcert: build csr" e)
  | Ok der => Ok (encodePEM typeRequest der)
  end.

Definition GenerateKey (dir : bytes) : io (res error path) :=
  try* _ := MkdirAll dir in
  match newKeyPair with
  | Err e => ret (Err e)
  | Ok (_, pemBytes) =>
      try* _ := writeKey dir pemBytes in
      ret (Ok (keyPath dir))
  end.

Definition BuildCSR (keyPath : path) : io (res error bytes) :=
  try* raw := ReadFile keyPath orelse Errorf "netcert: read key" in
  match decodePEM raw with
  | None => ret (Err (Sentinel "netcert: key file is not PEM"))
  | Some block =>
      match parsePKCS8 block with
      | Err e => ret (Err (Errorf "netcert: parse key" e))
      | Ok k =>
          match request placeholder k with
          | Err e => ret (Err (Errorf "netcert: build csr" e))
          | Ok der => ret (Ok (encodePEM typeRequest der))
          end
      end
  end.

(** ** Lemmas *)

(** Whatever happens to the two calls of [writeKey], what is at the key's place
    is what was there, or a part of the new key under the old mode, or under
    0600 when nothing was there; on success it is the whole key. *)
Lemma writeKey_spec dir pem w :
  let old := files w !! keyPath dir in
  let mode := match old with Some f => f_mode f | None => 384 end in
  let '(out, w') := writeKey dir pem w in
  (files w' !! keyPath dir = old \/
   exists part f, files w' !! keyPath dir = Some f /\ f_data f = part /\ part `prefix_of` pem /\ f_mode f = mode) /\
  (out = Ret (Ok tt) -> exists f, files w' !! keyPath dir = Some f /\ f_data f = pem /\ f_mode f = mode).
Proof.
  cbv zeta. unfold writeKey, try_as, bind, WriteFile, Sync, syscall, atomic. destruct w as [d clk ts fs]. cbn [files faults clock ticks].
  set (mode := match d !! keyPath dir with Some f => f_mode f | None => 384 end).
  assert (Hw : forall data, data `prefix_of` pem -> exists part f,
    <[keyPath dir := written d (keyPath dir) data 384]> d !! keyPath dir = Some f /\ f_data f = part /\
    part `prefix_of` pem /\ f_mode f = mode).
  { intros data Hp. exists data, (written d (keyPath dir) data 384). rewrite lookup_insert_eq. unfold written, mode.
    by destruct (d !! keyPath dir). }
  assert (Hfull : exists f, <[keyPath dir := written d (keyPath dir) pem 384]> d !! keyPath dir = Some f /\ f_data f = pem /\ f_mode f = mode).
  { exists (written d (keyPath dir) pem 384). rewrite lookup_insert_eq. unfold written, mode. by destruct (d !! keyPath dir). }
  assert (Hsome : forall k, files (World (match k with O => d | S k' => <[keyPath dir := written d (keyPath dir) (take k' pem) 384]> d end) clk ts []) !! keyPath dir
    = d !! keyPath dir \/ exists part f, (match k with O => d | S k' => <[keyPath dir := written d (keyPath dir) (take k' pem) 384]> d end) !! keyPath dir = Some f /\
      f_data f = part /\ part `prefix_of` pem /\ f_mode f = mode).
  { intros [|k]; [by left|]. right. apply Hw. exists (drop k pem). by rewrite take_drop. }
  destruct fs as [|[|k|k] [|[|k2|k2] fs]]; cbn [files]; (split; [|try done]);
    first [apply (Hsome k)|right; by apply Hw|intros _; exact Hfull].
Qed.

(** A key and its request belong together.  When [GenerateKey] reports success,
    whatever the disk held before, a [BuildCSR] of the path it returned that
    succeeds asks for a certificate for exactly the key it generated, the same
    request a renewal builds in memory; and it fails only when the file cannot
    be read or the request cannot be made. *)
Theorem request_is_for_the_generated_key `{!CryptoLaws} (dir : bytes) (w w1 : world) (p : path) :
  GenerateKey dir w = (Ret (Ok p), w1) ->
  exists k pem, newKeyPair = Ok (k, pem) /\ p = keyPath dir /\
    forall out w2, BuildCSR p w1 = (Ret out, w2) ->
      out = buildCSRFor k \/ exists e, out = Err (Errorf "netcert: read key" e).
Proof.
  unfold GenerateKey, try, bind, MkdirAll. intros Hg.
  destruct (syscall _ atomic w) as [[[u|e]|] w0]; [|done..].
  destruct newKeyPair as [[k pem]|e] eqn:Hk; [|done]. pose proof (writeKey_spec dir pem w0) as Hspec. cbv zeta in Hspec.
  destruct (writeKey dir pem w0) as [[[v|e]|] w']; [|done..]. injection Hg as <- <-. destruct v.
  destruct Hspec as [_ Hok]. destruct (Hok eq_refl) as (f & Hf & Hd & _). exists k, pem. split_and!; [done|done|].
  unfold BuildCSR, try_as, bind, ReadFile, syscall, atomic. rewrite Hf, Hd.
  assert (Hpem : exists der, pem = encodePEM typeKey der /\ parsePKCS8 der = Ok k).
  { unfold newKeyPair in Hk. destruct generate; [|done]. destruct (pkcs8 _) as [der|] eqn:E; [|done].
    injection Hk as <- <-. exists der. split; [done|]. by apply pkcs8_roundtrip. }
  destruct Hpem as (der & -> & Hp). intros out w2.
  assert (Hrest : forall x, (match decodePEM (encodePEM typeKey der) with
      | Some block => match parsePKCS8 block with
        | Ok k0 => match request placeholder k0 with Ok der0 => ret (Ok (encodePEM typeRequest der0)) | Err e => ret (Err (Errorf "netcert: build csr" e)) end
        | Err e => ret (Err (Errorf "netcert: parse key" e)) end
      | None => ret (Err (Sentinel "netcert: key file is not PEM")) end : io (res error bytes)) x = (Ret (buildCSRFor k), x)).
  { intros x. rewrite pem_roundtrip, Hp. unfold buildCSRFor. by destruct (request placeholder k). }
  destruct (faults w') as [|[|j|j] fs]; rewrite ?Hrest; intros [= <- <-]; eauto.
Qed.
End keys.

(** The key is created owner-only, but a key file that is already there keeps
    the mode it has: one that others can read stays readable with the new key
    in it. *)
Theorem an_old_key_file_keeps_its_mode `{Crypto} (dir pem : bytes) (f : file) (clk : Z) (ts : list Z) :
  let w' := (writeKey dir pem (World {[keyPath dir := f]} clk ts [])).2 in
  files w' !! keyPath dir = Some (File pem (f_reg f) (f_mode f)).
Proof.
  cbv zeta. unfold writeKey, try_as, bind, WriteFile, Sync, syscall, written. cbn [files faults].
  rewrite lookup_singleton_eq. cbn [files snd]. apply lookup_insert_eq.
Qed.

(** ** Phases *)

Definition PhaseString (p : Phase) : bytes :=
  match p with
  | PhaseFresh => str "fresh"
  | PhaseDue => str "due"
  | PhaseUrgent => str "urgent"
  | PhaseExpired => str "expired"
  end.

(** ** A toy cryptography *)

Definition toyCrypto : Crypto := {|
  key := bytes; generate := Ok (str "k"); pkcs8 := fun k => Ok k; parsePKCS8 := fun d => Ok d;
  encodePEM := fun typ der => der; decodePEM := fun s => Some s; request := fun cn k => Ok (cn ++ k) |}.

Lemma toyLaws : @CryptoLaws toyCrypto.
Proof. split; [done|]. by intros k der [= <-]. Qed.

Lemma request_is_for_the_generated_key_witness :
  let w1 := (@GenerateKey toyCrypto (str "/d") (World ∅ 0 [] [])).2 in
  exists k pem, @newKeyPair toyCrypto = Ok (k, pem) /\ keyPath (str "/d") = keyPath (str "/d") /\
    forall out w2, @BuildCSR toyCrypto (keyPath (str "/d")) w1 = (Ret out, w2) ->
      out = @buildCSRFor toyCrypto k \/ exists e, out = Err (Errorf "netcert: read key" e).
Proof.
  exact (@request_is_for_the_generated_key toyCrypto toyLaws (str "/d") (World ∅ 0 [] []) _ (keyPath (str "/d")) eq_refl).
Defined.
