(* ===== verification/Fired.v ===== *)
(** * Fired: from a due schedule entry to its result (sched/sched.go,
    jobs/jobs.go)

    The scheduler is built with [RunScheduled] of the jobs module as the function
    it calls for a fire.  Here the two ends are put together: an item that is
    due in the queue of [Sched], and the result [JobRun] publishes for the job it
    becomes. *)
From S2P Require Import Prelude GoLib GoText GoOS Wire Heap Sched Scripts Handlers JobRun.

Section fired.
Context {L : Type} (UTC : L) (LoadLocation : bytes -> option L) (Parse : bytes -> option (L -> Z -> Z)).
Context (sha1 : list Z -> list Z) (agentID : bytes) (unmarshalSpec : JobSpec -> bytes -> option JobSpec).
Context (scriptRun patchJob updateJob : JobSpec -> list event) (version : bytes) (refresh : option bool) (ms : Z).

(** [RunScheduled]: the events of a fire; [reserve] is the reservation. *)
Definition RunScheduled (reserve : JobSpec -> option Jobs.reserveErr) (jobID : bytes) (e : Entry) : list event :=
  match scheduledSpec unmarshalSpec jobID (e_EntryID e) (e_Kind e) (e_Payload e) with
  | None => []
  | Some spec =>
      match reserve spec with
      | Some _ => []
      | None => runJob (scriptRun spec) (patchJob spec) (updateJob spec) version refresh ms spec None
      end
  end.

Lemma scheduledSpec_ids jobID entryID kind payload spec :
  scheduledSpec unmarshalSpec jobID entryID kind payload = Some spec ->
  Scripts.JobID spec = jobID /\ EntryID spec = entryID.
Proof. unfold scheduledSpec. destruct (if bool_decide _ then _ else _); [|done]. by intros [= <-]. Qed.

(** C9: A due entry gets its result.  Whatever else is in the queue, an item that
    is due, of an enabled entry and within its grace, starts a run when the
    scheduler fires; the run's job id can only name itself as a subject; and
    when its payload decodes and the module admits it, exactly one result is
    published for it, under that job id and attributed to that entry whatever
    the payload says, by every kind of handler that keeps the promise of
    [Reporting]. *)
Theorem due_entry_gets_its_result now (s : scheduler) (it : fireItem) (e : Entry) :
  progresses UTC LoadLocation Parse -> sane_jitter (st_Entries (sc_st s)) -> is_heap (sc_pq s) ->
  (forall l, length (sha1 l) = 20%nat) -> ValidIdentifier agentID = None ->
  it ∈ sc_pq s -> it_at it <= now -> entry s (it_entryID it) = Some e -> tooLate e it now = false ->
  let jobID := Sched.JobID sha1 (e_EntryID e) (it_base it) in
  SvRun jobID e (it_base it) ∈ (fireDue UTC LoadLocation Parse sha1 agentID (length (sc_pq s)) now s).2 /\
  (forall subj, subject_match (JobResult agentID jobID) subj = true <-> subj = JobResult agentID jobID) /\
  (forall reserve spec,
     scheduledSpec unmarshalSpec jobID (e_EntryID e) (e_Kind e) (e_Payload e) = Some spec -> reserve spec = None ->
     Reporting spec (scriptRun spec) -> Reporting spec (patchJob spec) -> Reporting spec (updateJob spec) ->
     exists r, resultsOf (RunScheduled reserve jobID e) = [(jobID, r)] /\ jr_EntryID r = e_EntryID e).
Proof.
  intros Hp Hj Hh Hsha Ha Hin Hdue He Hl jobID. split_and!.
  - pose proof (fireDue_spec UTC LoadLocation Parse sha1 agentID (length (sc_pq s)) now s Hp Hj Hh (length_filter _ _)) as (_ & _ & _ & Hd).
    assert (Hev : SvRun jobID e (it_base it) ∈ decided (fireDue UTC LoadLocation Parse sha1 agentID (length (sc_pq s)) now s).2).
    { rewrite Hd. apply list_elem_of_omap. exists it. split; [by apply list_elem_of_filter|].
      unfold entry in He. unfold outcome. destruct (find _ _) as [e'|]; [|done]. destruct (Enabled e'); [|done].
      injection He as ->. by rewrite Hl. }
    unfold decided in Hev. apply list_elem_of_In, in_flat_map in Hev as (x & Hx & Hin').
    apply list_elem_of_In. destruct x; cbn in Hin'; try done; destruct Hin' as [Heq|[]]; by rewrite <- Heq.
  - intros subj. apply subject_match_literal.
    destruct (JobID_is_a_valid_identifier sha1 (e_EntryID e) (it_base it) Hsha) as (_ & Hv & _).
    unfold JobResult. literals.
  - intros reserve spec Hs Hr H1 H2 H3. destruct (scheduledSpec_ids _ _ _ _ _ Hs) as [Hid Hen].
    unfold RunScheduled. rewrite Hs, Hr.
    destruct (execute_reporting (scriptRun spec) (patchJob spec) (updateJob spec) version refresh ms spec H1 H2 H3) as (r & Hres & Hent).
    exists r. rewrite Hid in Hres. rewrite Hen in Hent. done.
Qed.
End fired.

(** ** Witness: the missed fire of an hourly entry, a minute after start *)

Definition missed : fireItem :=
  {| it_entryID := str "nightly"; it_base := 1700006400 * Second; it_at := 1700007019 * Second |}.

Lemma due_entry_gets_its_result_witness :
  let t0 := 1700006400 * Second + 10 * Minute in
  let refuse := unsupportedJob (str "1.0") in
  let jobID := Sched.JobID demo_sha1 (str "nightly") (it_base missed) in
  SvRun jobID demo_entry (it_base missed) ∈ (demo_fire (length (sc_pq (demo_startup t0))) (t0 + Minute) (demo_startup t0)).2 /\
  exists r, resultsOf (RunScheduled (fun s _ => Some s) refuse refuse refuse [] None 0 (fun _ => None) jobID demo_entry) = [(jobID, r)] /\
    jr_EntryID r = str "nightly".
Proof.
  intros t0 refuse jobID.
  destruct (due_entry_gets_its_result tt (fun _ => Some tt) demo_parse demo_sha1 (str "agent") (fun s _ => Some s)
    refuse refuse refuse [] None 0 (t0 + Minute) (demo_startup t0) missed demo_entry demo_progresses) as (H1 & _ & H3).
  - apply (bool_decide_eq_true_1 (Forall _ _)). vm_compute. reflexivity.
  - apply (Init_spec (_ ++ _)).
  - reflexivity.
  - vm_compute. reflexivity.
  - apply (bool_decide_eq_true_1 (_ ∈ _)). vm_compute. reflexivity.
  - vm_compute. discriminate.
  - vm_compute. reflexivity.
  - vm_compute. reflexivity.
  - split; [exact H1|]. eapply (H3 (fun _ => None)); [reflexivity|reflexivity|apply unsupported_reporting..].
Defined.
