(* ===== verification/Tools.v ===== *)
(** * Tools: the programs the agent runs for its own ends (package notify,
    svc/service_linux.go, svc/service_darwin.go, winident/winident_windows.go)

    [Warn] decides whom to tell and [Services] what to say of the service, over
    answers that are arguments.  Here the answers come from programs: each
    operation is given the command lines it runs, with the user they run as and
    their environment, over a host that may answer any of them with anything. *)
From S2P Require Import Prelude GoLib GoText GoOS Wire Netcert Warn Identity Render Install Runner Services.

(** ** Commands *)

(** An [exec.Cmd]; [cm_user] is the credential it drops to, none for the
    agent's own. *)
Record command := {
  cm_path : bytes;
  cm_args : list bytes;
  cm_env : list bytes;
  cm_user : option (Z * Z);
  cm_stdin : bytes;
  cm_timeout : Z;
}.

(** The value a program finds for a name: os/exec keeps the last of several. *)
Definition getenv (name : bytes) (env : list bytes) : option bytes :=
  last (omap (fun kv => if HasPrefix kv (name ++ str "=") then Some (drop (length name + 1) kv) else None) env).

Section host.
(** [exec.LookPath], the agent's environment, and what a command prints and
    returns. *)
Context (LookPath : bytes -> res error bytes) (Environ : list bytes) (exec : command -> bytes * option error).

Definition plainCommand (path : bytes) (args : list bytes) (stdin : bytes) (timeout : Z) : command :=
  {| cm_path := path; cm_args := args; cm_env := Environ; cm_user := None; cm_stdin := stdin; cm_timeout := timeout |}.

(** ** notify: each operation gives its error and the commands it ran *)

(** [uint32(uid)] *)
Definition uint32 (n : Z) : Z := Z.land n (Z.ones 32).

Definition notifyCommand (path : bytes) (uid : Z) (title body : bytes) : command :=
  {| cm_path := path; cm_args := [str "--urgency=critical"; str "--app-name=Everwas"; title; body];
     cm_env := Environ ++ [str "DBUS_SESSION_BUS_ADDRESS=unix:path=/run/user/" ++ Itoa uid ++ str "/bus";
                           str "XDG_RUNTIME_DIR=/run/user/" ++ Itoa uid];
     cm_user := Some (uint32 uid, uint32 uid); cm_stdin := []; cm_timeout := 10 * Second |}.

Definition notifySend (uid : Z) (title body : bytes) : option error * list command :=
  match LookPath (str "notify-send") with
  | Err e => (Some e, [])
  | Ok path => let c := notifyCommand path uid title body in ((exec c).2, [c])
  end.

Definition wallCommands (msg : bytes) : option error * list command :=
  match LookPath (str "wall") with
  | Err _ => (Some ErrNoOneToTell, [])
  | Ok path =>
      let quiet := plainCommand path [str "-n"] (msg ++ [nl]) (10 * Second) in
      match (exec quiet).2 with
      | None => (None, [quiet])
      | Some e =>
          let plain := plainCommand path [] (msg ++ [nl]) (10 * Second) in
          (match (exec plain).2 with Some _ => Some e | None => None end, [quiet; plain])
      end
  end.

(** [local] on Linux, from the names under /run/user that have a bus. *)
Definition localLinux (names : res error (list bytes)) (title body : bytes) : option error * list command :=
  let sent := map (fun uid => notifySend uid title body) (graphicalSessions names) in
  let notified := length (List.filter (fun r => bool_decide (r.1 = None)) sent) in
  let cs := concat (map snd sent) in
  if (0 <? notified)%nat then (None, cs)
  else let '(err, ws) := wallCommands (title ++ str ": " ++ body) in (err, cs ++ ws).

Definition localWindows (title body : bytes) : option error * list command :=
  match LookPath (str "msg.exe") with
  | Err _ => (Some ErrNoOneToTell, [])
  | Ok path =>
      let c := plainCommand path [str "*"; str "/TIME:0"; title ++ str ": " ++ body] [] (20 * Second) in
      (match (exec c).2 with Some _ => Some ErrNoOneToTell | None => None end, [c])
  end.

Definition localOther : option error * list command := (Some ErrNoOneToTell, []).

(** ** Service managers *)

Definition systemctlTimeout : Z := 90 * Second.
Definition launchctlTimeout : Z := 90 * Second.

Definition systemctlOutput (args : list bytes) : bytes * option error :=
  match LookPath (str "systemctl") with
  | Err _ => ([], Some (Sentinel "svc: systemctl not found; this host does not use systemd"))
  | Ok path => exec (plainCommand path args [] systemctlTimeout)
  end.

Definition launchctlOutput (args : list bytes) : bytes * option error :=
  exec (plainCommand (str "/bin/launchctl") args [] launchctlTimeout).

(** The text around the tool's error: its arguments and what it printed. *)
Definition toolError (tool : bytes) (args : list bytes) (out : bytes) (e : error) : error :=
  Errorf (String.string_of_list_ascii (str "svc: " ++ tool ++ str " " ++ JoinStr (str " ") args ++ str ": " ++ TrimSpace out)) e.

Definition systemctl (args : list bytes) : option error :=
  let '(out, err) := systemctlOutput args in option_map (toolError (str "systemctl") args out) err.

Definition launchctl (args : list bytes) : option error :=
  let '(out, err) := launchctlOutput args in option_map (toolError (str "launchctl") args out) err.

Definition StartLinux : option error := systemctl [str "start"; Name].
Definition StopLinux : option error := systemctl [str "stop"; Name].
Definition RestartLinux : option error := systemctl [str "restart"; Name].
Definition StartDarwin : option error := launchctl [str "kickstart"; serviceTarget].
Definition StopDarwin : option error := launchctl [str "kill"; str "SIGTERM"; serviceTarget].
Definition RestartDarwin : option error := launchctl [str "kickstart"; str "-k"; serviceTarget].

(** [Status] of Linux, from whether the unit is there. *)
Definition statusOfUnit (unit : bool) : bytes * option error :=
  let '(out, err) := systemctlOutput [str "is-active"; Name] in StatusLinux unit out err.

(** ** winident *)

Definition powershell (expr : bytes) : bytes * option error :=
  match LookPath (str "powershell.exe") with
  | Err _ => ([], Some (Sentinel "winident: powershell is unavailable"))
  | Ok path =>
      let '(out, err) :=
        exec (plainCommand path (map str ["-NoProfile"; "-NonInteractive"; "-ExecutionPolicy"; "Bypass"; "-Command"]%string ++ [expr])
                [] (30 * Second)) in
      (TrimSpace out, err)
  end.
End host.

(** ** Whom a notification reaches *)

Section theorems.
Context (LookPath : bytes -> res error bytes) (Environ : list bytes) (exec : command -> bytes * option error).

Lemma graphicalSessions_are_users names uid : uid ∈ graphicalSessions names -> 1000 <= uid.
Proof.
  unfold graphicalSessions. destruct names as [l|e]; [|by intros ?%not_elem_of_nil].
  intros (name & _ & Hg)%list_elem_of_omap. unfold graphicalSession in Hg.
  destruct (Atoi name) as [u|]; [|done]. destruct (Z.ltb_spec u 1000); [done|]. by injection Hg as <-.
Qed.

Lemma uint32_small n : 0 <= n < 2 ^ 32 -> uint32 n = n.
Proof. intros H. unfold uint32. rewrite Z.land_ones by lia. by apply Z.mod_small. Qed.

Lemma HasPrefix_refl_app p s : HasPrefix (p ++ s) p = true.
Proof. apply HasPrefix_spec. by exists s. Qed.

(** The last assignment of a name decides, whatever stands before it. *)
Lemma getenv_set name value env rest :
  Forall (fun kv => HasPrefix kv (name ++ str "=") = false) rest ->
  getenv name (env ++ (name ++ str "=" ++ value) :: rest) = Some value.
Proof.
  intros Hr. unfold getenv. rewrite omap_app. cbn [omap list_omap].
  rewrite (assoc_L (++) name (str "=") value), HasPrefix_refl_app.
  replace (length name + 1)%nat with (length (name ++ str "=")) by (by rewrite length_app).
  rewrite drop_app_length.
  replace (omap _ rest) with (@nil bytes); [by rewrite last_snoc|].
  induction Hr as [|kv rest Hkv _ IH]; [done|]. cbn [omap list_omap]. by rewrite Hkv, <- IH.
Qed.

Lemma notifySend_err uid title body :
  (notifySend LookPath Environ exec uid title body).1 = None <->
  exists path, LookPath (str "notify-send") = Ok path /\ (exec (notifyCommand Environ path uid title body)).2 = None.
Proof.
  unfold notifySend. destruct (LookPath _) as [path|e]; cbn [fst].
  - split; [by exists path|]. by intros (p & [= <-] & H).
  - split; [done|]. by intros (p & ? & _).
Qed.

Lemma notifyCommand_env path uid title body :
  let env := cm_env (notifyCommand Environ path uid title body) in
  getenv (str "DBUS_SESSION_BUS_ADDRESS") env = Some (str "unix:path=/run/user/" ++ Itoa uid ++ str "/bus") /\
  getenv (str "XDG_RUNTIME_DIR") env = Some (str "/run/user/" ++ Itoa uid).
Proof.
  cbv zeta. cbn [notifyCommand cm_env]. split.
  - apply (getenv_set (str "DBUS_SESSION_BUS_ADDRESS") _ Environ). by constructor; [|constructor].
  - pose proof (getenv_set (str "XDG_RUNTIME_DIR") (str "/run/user/" ++ Itoa uid)
      (Environ ++ [str "DBUS_SESSION_BUS_ADDRESS=unix:path=/run/user/" ++ Itoa uid ++ str "/bus"]) [] (Forall_nil_2 _)) as H.
    by rewrite <- app_assoc in H.
Qed.

Lemma wallCommands_spec msg :
  let '(err, cs) := wallCommands LookPath Environ exec msg in
  (forall c, c ∈ cs -> cm_user c = None /\ LookPath (str "wall") = Ok (cm_path c) /\ cm_stdin c = msg ++ [nl]) /\
  exists quiet plain, err = wall (is_ok (LookPath (str "wall"))) quiet plain.
Proof.
  unfold wallCommands. destruct (LookPath (str "wall")) as [path|e].
  2: { split; [by intros c ?%not_elem_of_nil|]. by exists (Ok tt), (Ok tt). }
  destruct (exec _).2 as [e|].
  - split; [intros c [->|[->|[]%not_elem_of_nil]%elem_of_cons]%elem_of_cons; done|].
    exists (Err e). destruct (exec _).2 as [e'|]; [by exists (Err e')|by exists (Ok tt)].
  - split; [by intros c ->%list_elem_of_singleton|]. by exists (Ok tt), (Ok tt).
Qed.

Lemma sessions_told uid names title body :
  uid ∈ graphicalSessions names ->
  forall c, c ∈ (notifySend LookPath Environ exec uid title body).2 ->
  cm_user c = Some (uint32 uid, uint32 uid) /\ cm_args c = [str "--urgency=critical"; str "--app-name=Everwas"; title; body] /\
  getenv (str "DBUS_SESSION_BUS_ADDRESS") (cm_env c) = Some (str "unix:path=/run/user/" ++ Itoa uid ++ str "/bus") /\
  getenv (str "XDG_RUNTIME_DIR") (cm_env c) = Some (str "/run/user/" ++ Itoa uid).
Proof.
  intros _ c. unfold notifySend. destruct (LookPath _) as [path|e]; [|by intros ?%not_elem_of_nil].
  intros ->%list_elem_of_singleton. split_and!; [done|done|apply notifyCommand_env..].
Qed.

Lemma notified_count title body us :
  let send uid := match (notifySend LookPath Environ exec uid title body).1 with None => Ok tt | Some e => Err e end in
  length (List.filter (fun r => bool_decide (r.1 = None)) (map (fun uid => notifySend LookPath Environ exec uid title body) us)) =
  length (filter (fun uid => is_ok (send uid) = true) us).
Proof.
  intros send. induction us as [|u us IH]; [done|]. rewrite filter_cons. cbn [map List.filter].
  assert (Hu : is_ok (send u) = bool_decide ((notifySend LookPath Environ exec u title body).1 = None)).
  { unfold send. by destruct (notifySend _ _ _ u title body).1. }
  case_bool_decide; [rewrite decide_True by done; cbn [length]; by rewrite IH|by rewrite decide_False by congruence].
Qed.

(** A notification reaches the people it is for, as themselves.  Whatever is
    installed and whatever the tools answer, on Linux every desktop
    notification runs as a user with a session, never as root, on that user's
    own bus, also when the agent's environment names another; everything else
    that runs is the broadcast, with the same text; it runs exactly when no
    desktop took the message; and the result is the one [Warn] reasons about.
    On Windows and elsewhere the only error is that nobody was told. *)
Theorem notification_reaches_only_its_user names title body :
  (forall uid, uid ∈ graphicalSessions names -> uid < 2 ^ 32) ->
  let send uid := match (notifySend LookPath Environ exec uid title body).1 with None => Ok tt | Some e => Err e end in
  let msg := title ++ str ": " ++ body in
  let '(err, cs) := localLinux LookPath Environ exec names title body in
  (forall c, c ∈ cs ->
     match cm_user c with
     | Some (u, g) => u ∈ graphicalSessions names /\ g = u /\ 1000 <= u /\
         getenv (str "DBUS_SESSION_BUS_ADDRESS") (cm_env c) = Some (str "unix:path=/run/user/" ++ Itoa u ++ str "/bus") /\
         getenv (str "XDG_RUNTIME_DIR") (cm_env c) = Some (str "/run/user/" ++ Itoa u)
     | None => LookPath (str "wall") = Ok (cm_path c) /\ cm_stdin c = msg ++ [nl] /\
         forall u, u ∈ graphicalSessions names -> is_ok (send u) = false
     end) /\
  err = (notifyLocal (graphicalSessions names) send (wallCommands LookPath Environ exec msg).1).1 /\
  (forall e, (localWindows LookPath Environ exec title body).1 = Some e -> e = ErrNoOneToTell).
Proof.
  intros Hsmall send msg. set (us := graphicalSessions names) in *.
  assert (Hsent : forall c, c ∈ concat (map snd (map (fun uid => notifySend LookPath Environ exec uid title body) us)) ->
    exists u, cm_user c = Some (u, u) /\ u ∈ us /\ 1000 <= u /\
      getenv (str "DBUS_SESSION_BUS_ADDRESS") (cm_env c) = Some (str "unix:path=/run/user/" ++ Itoa u ++ str "/bus") /\
      getenv (str "XDG_RUNTIME_DIR") (cm_env c) = Some (str "/run/user/" ++ Itoa u)).
  { intros c (cs & Hcs & Hc%list_elem_of_In)%list_elem_of_In%in_concat.
    apply list_elem_of_In in Hcs as (r & -> & (u & -> & Hu)%list_elem_of_fmap)%list_elem_of_fmap.
    destruct (sessions_told u names title body Hu c Hc) as (Hc1 & _ & Hc2 & Hc3).
    pose proof (graphicalSessions_are_users names u Hu). rewrite uint32_small in Hc1 by (specialize (Hsmall u Hu); lia).
    by exists u. }
  assert (Hwin : forall e, (localWindows LookPath Environ exec title body).1 = Some e -> e = ErrNoOneToTell).
  { unfold localWindows. intros e. destruct (LookPath _); [|by intros [= <-]]. cbn [fst]. destruct (exec _).2; congruence. }
  unfold localLinux, notifyLocal. fold us. fold msg. rewrite notified_count. fold send.
  destruct (0 <? _)%nat eqn:Hn.
  - split_and!; [|done|done]. intros c (u & -> & Hu & H1 & H2 & H3)%Hsent. done.
  - pose proof (wallCommands_spec msg) as Hw. destruct (wallCommands _ _ _ msg) as [err ws]. destruct Hw as [Hw _].
    split_and!; [|done|done]. intros c [(u & -> & Hu & H1 & H2 & H3)%Hsent|(-> & H1 & H2)%Hw]%elem_of_app; [done|].
    split_and!; [done|done|]. intros u Hu. apply Nat.ltb_ge in Hn. destruct (is_ok (send u)) eqn:Hs; [|done].
    assert (Hf : u ∈ filter (fun uid => is_ok (send uid) = true) us) by by apply list_elem_of_filter.
    destruct (filter _ us); [by apply not_elem_of_nil in Hf|cbn in Hn; lia].
Qed.

(** ** What the service managers are asked *)

(** Starting, stopping and restarting succeed exactly when the tool was there
    and said so, and otherwise the error is the tool's own, so that a caller
    that looks for one finds it. *)
Theorem service_control_is_the_tools args :
  (systemctl LookPath Environ exec args = None <->
     exists path, LookPath (str "systemctl") = Ok path /\ (exec (plainCommand Environ path args [] systemctlTimeout)).2 = None) /\
  (forall e, systemctl LookPath Environ exec args = Some e ->
     exists cause, (systemctlOutput LookPath Environ exec args).2 = Some cause /\ forall target, Is e target = Is cause target) /\
  (launchctl Environ exec args = None <-> (launchctlOutput Environ exec args).2 = None) /\
  (forall e, launchctl Environ exec args = Some e ->
     exists cause, (launchctlOutput Environ exec args).2 = Some cause /\ forall target, Is e target = Is cause target).
Proof.
  unfold systemctl, launchctl, systemctlOutput.
  split_and!.
  - destruct (LookPath _) as [path|e]; cbn [option_map].
    + destruct (exec _) as [out [e|]] eqn:E; cbn [option_map]; (split; [|intros (p & [= <-] & H); rewrite E in H]); try done.
      intros _. exists path. by rewrite E.
    + split; [done|]. by intros (p & ? & _).
  - intros e. destruct (LookPath _) as [path|e']; cbn [option_map]; [|intros [= <-]; by eexists].
    destruct (exec _) as [out [c|]]; cbn [option_map]; [|done]. intros [= <-]. by exists c.
  - destruct (launchctlOutput _ _ args) as [out [c|]]; done.
  - intros e. destruct (launchctlOutput _ _ args) as [out [c|]]; cbn [option_map]; [|done]. intros [= <-]. by exists c.
Qed.

(** Where there is no systemd the status is not guessed: an installed unit is
    reported unknown, with the reason. *)
Theorem no_systemd_is_unknown e :
  LookPath (str "systemctl") = Err e ->
  statusOfUnit LookPath Environ exec true =
    (StatusUnknown, Some (Sentinel "svc: systemctl not found; this host does not use systemd")) /\
  statusOfUnit LookPath Environ exec false = (StatusNotInstalled, None).
Proof. intros H. unfold statusOfUnit, systemctlOutput. by rewrite H. Qed.

(** A machine without PowerShell is not taken for one without a directory:
    detection fails instead. *)
Theorem no_powershell_is_no_answer e domain issuers gpo :
  LookPath (str "powershell.exe") = Err e ->
  let ask expr := match powershell LookPath Environ exec expr with (_, Some e) => Err e | (out, None) => Ok out end in
  is_Some (detect (ask domain) (ask issuers) (ask gpo)).2.
Proof. intros H ask. unfold ask, powershell. rewrite H. cbn. by eexists. Qed.
End theorems.

(** ** Witness: two desktops, one of which cannot be reached *)

Definition demoTools (name : bytes) : res error bytes := Ok (str "/usr/bin/" ++ name).
Definition demoExec (c : command) : bytes * option error :=
  ([], if bool_decide (cm_user c = Some (1000, 1000)) then None else Some ErrIO).

Lemma notification_reaches_only_its_user_witness :
  let '(err, cs) := localLinux demoTools [str "DBUS_SESSION_BUS_ADDRESS=unix:path=/run/user/0/bus"] demoExec
                      (Ok [str "1000"; str "120"; str "1001"]) (str "Network") (str "expires today") in
  err = None /\ map cm_user cs = [Some (1000, 1000); Some (1001, 1001)] /\
  Forall (fun c => match cm_user c with Some (u, _) => 1000 <= u | None => True end) cs.
Proof.
  assert (Hs : forall uid, uid ∈ graphicalSessions (Ok [str "1000"; str "120"; str "1001"]) -> uid < 2 ^ 32).
  { change (graphicalSessions _) with [1000; 1001]. intros uid [->|[->|[]%not_elem_of_nil]%elem_of_cons]%elem_of_cons; reflexivity. }
  pose proof (notification_reaches_only_its_user demoTools [str "DBUS_SESSION_BUS_ADDRESS=unix:path=/run/user/0/bus"] demoExec
    _ (str "Network") (str "expires today") Hs) as H.
  destruct (localLinux _ _ _ _ _ _) as [err cs] eqn:E. destruct H as (Hc & _ & _).
  split; [by vm_compute in E; injection E as <- _|]. split; [by vm_compute in E; injection E as _ <-|].
  apply Forall_forall. intros c Hin. specialize (Hc c Hin). destruct (cm_user c) as [[u g]|]; [apply Hc|done].
Defined.
