(* ===== verification/Durable.v ===== *)
(** * Durable: the schedule across restarts (sched/sched.go, sched/store.go)

    [Sched] models [Sync] with the outcome of its save as an argument, and
    [SchedRun] a run from a state that was loaded.  Here the save and the load
    are the ones on the modelled disk, where any call can fail or be the last,
    so a sync, a process killed in it and the next start are one story.  The
    file gives back the schedule with every payload reformatted; [sameSchedule]
    is what that leaves unchanged. *)
From S2P Require Import Prelude GoLib GoText GoOS Env Wire Scripts Handlers Heap Sched SchedRun.

(** ** What the file gives back *)



Section same.
Context {RM : RawMessage} (unmarshalSpec : JobSpec -> bytes -> option JobSpec).





End same.

Section durable.
Context {RM : RawMessage} {JS : JSON state} {L : Type} (UTC : L) (LoadLocation : bytes -> option L) (Parse : bytes -> option (L -> Z -> Z)).
Context (agentID : bytes) (reason : Entry -> bytes) (stateDir : bytes).
Context (unmarshalSpec : JobSpec -> bytes -> option JobSpec).








End durable.

(** ** Witness: a sync of one entry, and a start an hour later *)

#[local] Instance entry_eq_dec : EqDecision Entry.
Proof. solve_decision. Defined.
#[local] Instance entry_countable : Countable Entry :=
  inj_countable' (fun e => (e_EntryID e, e_Cron e, e_TZ e, e_Kind e, e_Payload e, (JitterS e, MisfireGraceS e, Enabled e)))
    (fun '(a, b, c, d, p, (j, g, en)) => {| e_EntryID := a; e_Cron := b; e_TZ := c; e_Kind := d; e_Payload := p;
        JitterS := j; MisfireGraceS := g; Enabled := en |}) ltac:(by intros []).
#[local] Instance state_eq_dec : EqDecision state.
Proof. solve_decision. Defined.
#[local] Instance state_countable : Countable state :=
  inj_countable' (fun st => (ScheduleVersion st, st_Entries st, LastFired st))
    (fun '(v, es, lf) => {| ScheduleVersion := v; st_Entries := es; LastFired := lf |}) ltac:(by intros []).

(** Payloads that are [null] or, however many blanks it holds, an empty
    object, which is written without them. *)
#[local] Program Instance demo_raw : RawMessage := {|
  validRaw p := p = str "null" \/ exists n, p = str "{" ++ replicate n " "%char ++ str "}";
  reformatted p := if bool_decide (p = str "null") then p else str "{}" |}.
Next Obligation. cbn. intros p _. case_bool_decide; [by left|]. right. by exists 0%nat. Qed.
Next Obligation. cbn. by left. Qed.


Lemma demo_state_stored (st : state) : decoded (stored st).
Proof.
  split.
  - cbn. apply Forall_map, Forall_true. intros e. split; [repeat constructor; apply utf8Text_idem|].
    right. cbn. repeat case_bool_decide; [by left|by left|]. right. by exists 0%nat.
  - cbn. unfold storedKeys. generalize (sortStrings (map fst (map_to_list (LastFired st)))) as ks.
    assert (Hacc : forall ks (acc : gmap bytes Z), (forall k, is_Some (acc !! k) -> utf8Text k = k) ->
      forall k, is_Some (fold_left (storeKey (LastFired st)) ks acc !! k) ->
      utf8Text k = k).
    { induction ks as [|k0 ks IH]; intros acc Ha; [done|]. cbn [fold_left]. apply IH. unfold storeKey. destruct (LastFired st !! k0); [|done].
      intros k. destruct (decide (k = utf8Text k0)) as [->|Hne]; [intros _; apply utf8Text_idem|].
      rewrite lookup_insert_ne by done. apply Ha. }
    intros ks. apply Hacc. intros k []%lookup_empty_is_Some.
Qed.

#[local] Instance demo_state_json : JSON state := countable_json demo_state_stored.


