(* ===== verification/Wiring.v ===== *)
(** * Wiring: what the agent is built from (agentcore/agentcore.go, jobs/jobs.go,
    cli/cli.go)

    [runAgent] fills in a [Supervisor], and [Start] makes the modules from it and
    hands them to one another.  A hook is a boolean, whether it was set; the
    theorems say what depends on it, through the components' own models. *)
From S2P Require Import Prelude GoLib GoText GoOS Wire Swap Tracker Apply Scripts Patch PatchRun PatchJobs Runner Jobs Handlers JobRun Heap Sched SchedRun Netcert Supervise.

(** [Supervisor]; the connection and the logger are always there. *)
Record Supervisor := {
  sup_AgentID : bytes;
  sup_Version : bytes;
  sup_StateDir : bytes;
  sup_Restart : bool;
  sup_Handoff : bool;
  sup_Link : option LinkHealth;
  sup_RenewCredential : bool;
  sup_RotateSecret : bool;
  sup_EnsureNetCert : bool;
  sup_WarnUserAboutCertificate : bool;
}.

(** What a task runs. *)
Inductive taskBody : Type :=
  | Heartbeats | Telemetry | Inventories | Shells | JobQueue | Schedules | PatchStates
  | Renews
  | KeepsCertificate (every urgent : Z) (warns : bool)
  | WatchesUpdate
  | ReturnsAtOnce.      (** the hook is not set: [return nil] *)
#[export] Instance taskBody_eq_dec : EqDecision taskBody.
Proof. solve_decision. Defined.

Definition tasks (s : Supervisor) : list (bytes * taskBody) :=
  [(str "heartbeat", Heartbeats); (str "telemetry", Telemetry); (str "inventory", Inventories); (str "shell", Shells);
   (str "jobs", JobQueue); (str "sched", Schedules); (str "patchstate", PatchStates);
   (str "renew", if sup_RenewCredential s then Renews else ReturnsAtOnce);
   (str "netcert", if sup_EnsureNetCert s
                   then KeepsCertificate netcertCheckEvery netcertUrgentEvery (sup_WarnUserAboutCertificate s)
                   else ReturnsAtOnce);
   (str "update-health", WatchesUpdate)].

Section wiring.
Context {H : Host}.

(** [jobs.Module]: the fields a caller sets. *)
Record Module := {
  mo_AgentID : bytes;
  mo_Version : bytes;
  mo_Shell : bool;
  mo_Scripts : bool;
  mo_Sched : option scheduler;
  mo_Audit : bool;
  mo_Patch : PatchDeps;
  mo_Update : UpdateDeps;
  mo_RotateSecret : bool;
  mo_RefreshInventory : bool;
}.

(** The modules of [Start]; [manager] and [refresh] are the patch collector's. *)
Definition buildModule (s : Supervisor) (manager : res error Backend) (refresh : M (PatchState * option error)) : Module :=
  {| mo_AgentID := sup_AgentID s; mo_Version := sup_Version s; mo_Shell := true; mo_Scripts := true;
     mo_Sched := Some New; mo_Audit := true;
     mo_Patch := {| pd_Manager := Some manager; pd_Refresh := Some refresh; pd_Runner := true; pd_Audit := true |};
     mo_Update := {| ud_StateDir := sup_StateDir s; ud_Version := sup_Version s; ud_Runner := true; ud_Audit := true;
                     ud_Restart := sup_Restart s; ud_Handoff := sup_Handoff s |};
     mo_RotateSecret := sup_RotateSecret s; mo_RefreshInventory := true |}.
End wiring.

(** The supervisor of [runAgent]. *)
Definition agentSupervisor (agentID version stateDir : bytes) (health : LinkHealth) : Supervisor :=
  {| sup_AgentID := agentID; sup_Version := version; sup_StateDir := stateDir; sup_Restart := true; sup_Handoff := true;
     sup_Link := Some health; sup_RenewCredential := true; sup_RotateSecret := true; sup_EnsureNetCert := true;
     sup_WarnUserAboutCertificate := true |}.

(** ** What depends on what was set *)

(** Self-update follows the restart hook.  In a module [Start] built, an update
    command is accepted exactly when its payload decodes, its id is usable,
    there is a state directory and a way to restart, and the reservation is
    granted; a job is started exactly when it is accepted.  So without the hook the agent
    refuses instead of swapping a binary nothing would start. *)
Theorem update_follows_the_restart_hook {H : Host} s manager refresh text req data others alt r :
  let m := buildModule s manager refresh in
  let slot jobID := {| Scripts.JobID := jobID; Scripts.Kind := KindAgentUpdate; Scripts.Shell := []; js_Body := []; Scripts.TimeoutS := 0;
                       js_Env := ∅; Scripts.RequestedBy := []; Scripts.EntryID := [] |} in
  let answer := (cmdAgentUpdate text (mo_Update m) req data others alt r).2 in
  ((exists rep spec, answer = Some (rep, spec) /\ rp_Accepted rep = true) <->
     sup_Restart s = true /\ sup_StateDir s ≠ [] /\
     exists jobID by_, req = Ok (jobID, by_) /\ CheckIdentifier (str "job_id") jobID = None /\
       exists ctx, (reserve others alt (slot jobID) r).2 = Some (inr ctx)) /\
  (forall rep spec, answer = Some (rep, spec) -> (is_Some spec <-> rp_Accepted rep = true)).
Proof.
  intros m slot. subst m. unfold cmdAgentUpdate.
  assert (Href : forall id msg, (forall rep spec, Some (refuse id msg, None) = Some (rep, spec) -> (is_Some (spec : option JobSpec) <-> rp_Accepted rep = true)) /\
    ~ exists rep (spec : option JobSpec), Some (refuse id msg, None) = Some (rep, spec) /\ rp_Accepted rep = true).
  { intros id msg. split; [intros rep spec [= <- <-]; split; [by intros []|done]|]. by intros (? & ? & [= <- <-] & [=]). }
  destruct req as [[jobID by_]|msg].
  2: { split; [|apply Href]. split; [by intros ?%Href|]. by intros (_ & _ & ? & ? & [=] & _). }
  destruct (CheckIdentifier (str "job_id") jobID) eqn:Hid.
  { split; [|apply Href]. split; [by intros ?%Href|]. intros (_ & _ & ? & ? & [= <- <-] & Hc & _). congruence. }
  unfold ready. cbn [buildModule mo_Update ud_StateDir ud_Restart]. case_bool_decide as Hd.
  { split; [|apply Href]. split; [by intros ?%Href|]. by intros (_ & Hn & _). }
  destruct (sup_Restart s); cbn [negb].
  2: { split; [|apply Href]. split; [by intros ?%Href|]. by intros ([=] & _). }
  change {| Scripts.JobID := jobID; Scripts.Kind := KindAgentUpdate; Scripts.Shell := []; js_Body := []; Scripts.TimeoutS := 0;
            js_Env := ∅; Scripts.RequestedBy := []; Scripts.EntryID := [] |} with (slot jobID).
  destruct (reserve others alt (slot jobID) r) as [r' [[e|ctx]|]] eqn:Hr; cbn [snd].
  - split; [|apply Href]. split; [by intros ?%Href|]. intros (_ & _ & ? & ? & [= <- <-] & _ & ctx & Hc). by rewrite Hr in Hc.
  - split; [|by intros rep spec [= <- <-]]. split; [intros _|intros _; by eexists _, _].
    split_and!; [done|done|]. exists jobID, by_. split_and!; [done|done|]. exists ctx. by rewrite Hr.
  - split; [|done]. split; [by intros (? & ? & [=] & _)|]. intros (_ & _ & ? & ? & [= <- <-] & _ & ctx & Hc). by rewrite Hr in Hc.
Qed.

(** The agent is wired completely.  As [runAgent] and [Start] build it: the ten
    tasks are those of the supervisor, and each has work to do, so none ends by
    returning at once; the handlers of patch and update jobs have all they
    need, so what the jobs module would lend them changes nothing and each
    reports its job on its own; and a server can rotate the credential. *)
Theorem agent_is_fully_wired {H : Host} agentID version stateDir health manager refresh :
  let s := agentSupervisor agentID version stateDir health in
  let m := buildModule s manager refresh in
  map fst (tasks s) = taskNames /\ NoDup (map fst (tasks s)) /\ ReturnsAtOnce ∉ map snd (tasks s) /\
  patchDepsOf (mo_Scripts m) (mo_Audit m) (mo_Patch m) = mo_Patch m /\
  updateDepsOf (mo_Scripts m) (mo_Audit m) (mo_Version m) (mo_Update m) = mo_Update m /\
  (forall spec text obj arr st, Reporting spec (map (ofPatch spec) (PatchJobs.Execute text obj arr (mo_Patch m) spec st).1.1)) /\
  (forall spec parse apply text ms, Reporting spec (Handlers.Execute (mo_Update m) spec parse apply text ms)) /\
  mo_RotateSecret m = true.
Proof.
  cbv zeta.
  assert (Hp : forall s, patchDepsOf true true (mo_Patch (buildModule s manager refresh)) = mo_Patch (buildModule s manager refresh)) by done.
  assert (Hu : forall s, updateDepsOf true true (sup_Version s) (mo_Update (buildModule s manager refresh)) =
    mo_Update (buildModule s manager refresh)).
  { intros s. unfold updateDepsOf. cbn [buildModule mo_Update ud_StateDir ud_Version ud_Runner ud_Audit ud_Restart ud_Handoff orb].
    by case_bool_decide as Hv. }
  split_and!; [reflexivity|by apply (bool_decide_unpack _)|by apply (bool_decide_unpack _)|done|apply Hu| | |done].
  - intros spec text obj arr st. rewrite <- Hp. apply patch_reporting.
  - intros spec parse apply text ms. rewrite <- Hu. apply update_reporting.
Qed.
